(* ===== verification/_CoqProject ===== *)
-Q . S2P
Prelude.v
AgedMap.v
ConsensusParms.v
LedgerTiming.v
DisputedTx.v
ConsensusRules.v
RuleProperties.v
LedgerTrie.v
LedgerTrieFacts.v
TrieQueries.v
Preferred.v
RCLValidations.v
TrieProperties.v
Validations.v
ValidationsFacts.v
ValidationsProperties.v
ConsensusProposal.v
Consensus.v
ConsensusFacts.v
ConsensusRounds.v
ConsensusProperties.v
RemoteFetcher.v
ExclusionManager.v
ExclusionFacts.v
ValidatorVote.v
ApplyVote.v
OwnExclusions.v
HandleValidation.v
ExclusionProperties.v
Outcome.v
Directory.v
DirectoryFacts.v
DirectoryProperties.v
Serializer.v
SerializerFacts.v
SerializerProperties.v
SFields.v
Number.v
NumberFacts.v
NumberAdd.v
NumberProperties.v
Amount.v
AmountFacts.v
AmountProperties.v
STLeaf.v
STLeafFacts.v
STObject.v
STObjectFacts.v
STObjectTotal.v
STObjectProperties.v
Formats.v
Keys.v
KeysProperties.v
STAccess.v
Messages.v
TxSign.v
STAccessFacts.v
MessagesProperties.v
TxSignProperties.v
NegativeUNL.v
NegativeUNLProperties.v
Amendments.v
AmendmentsProperties.v
STProxy.v
FeeVote.v
FeeVoteProperties.v
LedgerViews.v
RawStateTable.v
ApplyStateTable.v
LedgerViewsFacts.v
LedgerTables.v
LedgerViewsProperties.v
PaymentSandbox.v
PaymentSandboxProperties.v
SHAMap.v
SHAMapFacts.v
SHAMapProperties.v
SHAMapProofs.v
SkipList.v
LedgerTree.v
