(* ===== verification/Prelude.v ===== *)
(** * Verification of postfiatd: consensus, exclusions and the data of the ledger

    postfiatd is a server of an XRP-Ledger-like network.  Validators agree on
    one chain of ledgers in rounds: each closes its open ledger, exchanges
    proposals of transaction sets and close times until enough agree, applies
    the agreed set, and signs a validation of the resulting ledger.  Validations
    of trusted validators decide which branch of ledgers a server works on.  In
    this server a validation can also carry a change to the validator's list of
    excluded accounts; the lists are kept in the ledger, and accounts named by
    enough lists are refused service.

    This library models the choice of the branch, the store of validations, the
    consensus round with its rules, the exclusion of accounts from the remote
    lists down to the cache transactions consult, the votes on amendments, fees
    and disabled validators, the data ledgers and transactions are made of (the
    wire format with its fields, objects and templates, amounts and their
    decimal arithmetic, directories), the views in which entries of a ledger
    are changed, and the Merkle tree in which a ledger holds them.
    Paths below are relative to the root of the repository.

    ** The parts and where they are modelled

    The branch (what the network has validated)
    - [AgedMap]: the operations of
      [include/xrpl/beast/container/detail/aged_unordered_container.h] used
      here, as a list in the order of age.
    - [LedgerTrie]: [src/xrpld/consensus/LedgerTrie.h], one definition per
      method.  A node is a tree with its span and supports, a pointer to a node
      is the path to it from the root.  The ledger type is the class
      [LedgerOps] with the laws [LedgerLaws] the header documents.  The proofs
      are in [LedgerTrieFacts] (well-formed tries, [find], [insert] and
      [remove]), [TrieQueries] (supports, [represents]) and [Preferred]
      ([getPreferred] against the rule [prefers]).
    - [RCLValidations]: [RCLValidatedLedger] of
      [src/xrpld/app/consensus/RCLValidations.cpp] with its [operator[]] and
      [mismatch]; ledgers whose skip list reaches the first ledger are an
      instance of [LedgerLaws], over a chain given by the class [Chain].
    - [Validations]: every operation of [src/xrpld/consensus/Validations.h]; the
      proofs, with the invariant [store_ok], are in [ValidationsFacts].
    - [HandleValidation]: [handleNewValidation] of [RCLValidations.cpp], which
      feeds the store and the vote tracker.

    The round (how the next ledger is agreed)
    - [ConsensusParms], [LedgerTiming], [DisputedTx], [ConsensusRules]: the
      parameters, the close time rules, the disputed transactions and the
      decisions of [src/xrpld/consensus/Consensus.cpp].
    - [ConsensusProposal]: proposals, timers, modes and phases.
    - [Consensus]: the class of [src/xrpld/consensus/Consensus.h].  The state is
      the record [Consensus] with the members of the class; each method is a
      function of the adaptor's answers during the call and the state; calls
      of the adaptor are appended to [effects].  The single precision
      arithmetic of [shouldPause] is at the end of this file.  [ConsensusFacts] has the
      invariant [round_ok], [ConsensusRounds] the sequences of calls.

    The exclusions (which accounts are refused)
    - [RemoteFetcher]: [RemoteExclusionListFetcher] of [src/xrpld/app/misc].
    - [ExclusionManager]: the cache of excluded accounts; [ExclusionFacts] has
      its invariant [cache_ok].
    - [ValidatorVote]: [ValidatorVoteTracker], from recorded votes to
      pseudo-transactions.
    - [ApplyVote]: [Change::applyValidatorVote] of
      [src/xrpld/app/tx/detail/Change.cpp].
    - [OwnExclusions]: [ValidatorExclusionManager], the changes a validator
      asks for.

    The data (what ledgers and transactions consist of)
    - [Outcome]: the monad of calls that may throw.
    - [Serializer]: [Serializer] and [SerialIter] of
      [src/libxrpl/protocol/Serializer.cpp]; [SerializerFacts] has the
      predicates [reads] and [consumes] and the codecs.
    - [SFields]: the fields of [include/xrpl/protocol/detail/sfields.macro] and
      [SField.h], with the lookups of [SField.cpp].
    - [Number]: [include/xrpl/basics/Number.h] and
      [src/libxrpl/basics/Number.cpp]; the rounding mode and mantissa scale,
      thread local variables there, are arguments.  Proofs in [NumberFacts]
      (values as rationals, what a rounding is) and [NumberAdd] (sums and conversions).
    - [Amount]: [Issue], [Asset], [IOUAmount] and [STAmount]; the settings a
      transaction runs under are the record [settings].  Proofs in
      [AmountFacts].
    - [STLeaf]: the values of fields other than objects and arrays, one
      constructor for each class; [STLeafFacts] has their round trips.
    - [STObject]: objects, arrays, templates and the inner object formats of
      [src/libxrpl/protocol]; [STObjectFacts] (objects are read back)
      and [STObjectTotal] (what reading arbitrary bytes gives).
    - [STAccess]: the accessors of [STObject]: lookup, setting and removal of
      fields, flags, hashes; facts in [STAccessFacts].  [STProxy]: the proxies
      that [STObject.h] gives for typed access to fields.
    - [Formats]: the formats of [transactions.macro] and [ledger_entries.macro]
      and the tables [KnownFormats.h] makes of them.
    - [Keys]: [PublicKey.cpp] and the signing of [SecretKey.cpp]; the
      cryptographic libraries are the record [library].
    - [Messages]: the constructors of transactions, ledger entries and
      validations ([STTx], [STLedgerEntry], [STValidation]).
    - [TxSign]: the signatures of transactions and their checks, and the local
      checks of [STTx.cpp].
    - [Directory]: the directories of [src/libxrpl/ledger/ApplyView.cpp],
      [View.cpp] and [Dir.cpp], one directory as a map from page numbers to
      pages; [DirectoryFacts] has the chain invariant and the traversals.

    The settings validators vote on
    - [NegativeUNL]: [src/xrpld/app/misc/NegativeUNLVote.cpp], the list of
      disabled validators in the ledger and [Change::applyUNLModify].
    - [Amendments]: [src/xrpld/app/misc/detail/AmendmentTable.cpp] and
      [Change::applyAmendment].
    - [FeeVote]: [src/xrpld/app/misc/FeeVoteImpl.cpp], the checks of
      pseudo-transactions and [Change::applyFee], with the fees [Ledger::setup]
      reads.

    The state (how ledgers are changed)
    - [LedgerViews]: entries, keylets, the interfaces of views and the entries
      of [src/xrpld/app/ledger/Ledger.cpp].  Entries are shared through
      pointers there; here a [Heap] maps pointers to entries, and every
      operation gets it.
    - [RawStateTable], [ApplyStateTable]: the tables of pending changes of
      [src/libxrpl/ledger], with [OpenView], [ApplyViewBase] and [Sandbox].
      [LedgerViewsFacts] states what a view promises as classes ([ViewLaws],
      [IterLaws], [RawLaws]) against a finite map; [LedgerTables] shows that
      each view over a lawful one is lawful, so that any stack of views is.
    - [PaymentSandbox]: the deferred credits and hooks of
      [src/libxrpl/ledger/PaymentSandbox.cpp].
    - [SHAMap]: the tree of [src/xrpld/shamap] that holds the entries or the
      transactions of a ledger: search, changes, iteration, hashes, comparison,
      the bytes of nodes and the proofs of leaves.  A node is a value, and its
      hash a function of it; [sha512Half] is an argument.  [SHAMapFacts] has the
      invariant [root_ok] (each item is under the digits of its key, and only the
      root may have fewer than two items below it).
    - [LedgerTree]: the header of a ledger ([LedgerHeader.cpp]), its hash, and
      the functions of [Ledger.cpp] over the trees of entries and transactions.
    - [SkipList]: the hashes of earlier ledgers that [Ledger::updateSkipList]
      keeps in the state, and [hashOfSeq] and [areCompatible] of
      [src/libxrpl/ledger/View.cpp], which read them.

    ** How the parts interact

    [handleNewValidation] adds a validation to the store ([Validations.add])
    and records a vote ([ValidatorVote.recordVote]).  The store keeps one
    ledger per trusted node in the trie; the adaptor of the round asks the
    store for the preferred ledger ([getPrevLedger]) and for lagging nodes.  The
    tracker's votes become transactions of the next ledger ([doVoting]), whose
    application edits the lists and tells the cache ([applyValidatorVote]).
    [getExclusionChange] is asked when the server signs a validation, so the
    circle closes; [OwnExclusions.votingRound] is one turn of it, with the votes
    of other validators before and after the own one.
    An object is written as the names of its fields ([SFields], [addFieldID])
    and the bytes of their values ([STLeaf], [Amount]); amounts of issued
    currencies are normalized by [Number] when they are made and when they are
    read.  A transaction, ledger entry or validation is an object under the
    template of its type ([Formats]); signatures cover the fields that are not
    marked as unsigned ([getSigningHash], [getSigningData]).
    Votes on amendments, fees and disabled validators are counted from the
    validations of one ledger and become pseudo-transactions of a later one,
    whose application changes entries of that ledger.  A transaction changes
    entries in an [ApplyViewBase] over an [OpenView] over the last ledger;
    sandboxes are put on top of that and applied to what is below, or dropped.
    A closed ledger has a [SHAMap] of entries and one of transactions: the
    finite map that [LedgerViews] has for the entries is what
    [tree_ledger_refines] of [LedgerTree] shows of the functions over the tree,
    and the hash that validations name binds header, entries and transactions
    ([ledger_hash_binds]).  The ancestors by which [RCLValidatedLedger] orders
    ledgers in the trie are those of [SkipList] ([validated_ledger_ancestry]).

    ** What the theorems show

    - [TrieProperties]: after any insertions and removals the trie is a
      multiset of ledgers, [getPreferred] is the unique outcome of the
      documented rule, [checkInvariants] holds, and [mismatch] is the first
      difference of two chains.
    - [ValidationsProperties]: after any calls the store counts each node once,
      with a ledger that the node validated and that was acquired; the preferred
      ledger is that of the rule; sequences issued and accepted increase; conflicting validations
      are reported.
    - [RuleProperties]: each rule is characterised arithmetically, with the
      parameters of the source: tallies, thresholds, times, rounding, expiry.
    - [ConsensusProperties]: the round keeps its invariant under any
      interleaving of calls, terminates, accepts only for cause, and an
      observer broadcasts no positions.
    - [ExclusionProperties] and [HandleValidation]: the cache is the one a
      rebuild from the ledger gives for the trusted validators and those whose
      votes were applied, an account is excluded by exactly 67 percent of the
      lists that exist (which is not the documented share of the validators), a
      list that counts came verified in a response of its source, each validator
      has one vote per ledger, and a validator's configuration and remote lists
      reach the ledger among the votes of others.  Some theorems there describe departures from the documentation
      of the source ([minority_excludes], [unreachable_still_accessible],
      [start_locks_itself_out], [late_amendment_missed]; also
      [departed_votes_remain] in [ValidationsProperties]).

    - [SerializerProperties]: any sequence of writes is read back by the
      corresponding reads, and encodings are unique.
    - [STObjectProperties]: objects are read back from what is written of them;
      whatever bytes are read, reading ends, and the object that comes out has
      the shape its templates promise; the bytes of an object depend only on
      its fields.
    - [KeysProperties]: a signature is canonical exactly if it is the one
      encoding of its two numbers, so that it cannot be changed into another;
      under the documented laws of the libraries ([keyPair]), what is signed
      verifies.
    - [MessagesProperties]: the tables of formats are well formed; setting a
      field changes that field alone; transactions, ledger entries and
      validations are read back, and a validation this server signs is accepted
      by its peers.
    - [TxSignProperties]: a signed transaction passes the check of every server
      that reads it; a multiple signature is accepted exactly under the rules
      for its signers; which memos are accepted.
    - [NumberProperties]: results of arithmetic are normal and are the exact
      results rounded once by the mode in force, or, where the
      rounding leads past the largest mantissa, those without the last digit; comparison is by value, and the
      reciprocal trick of [divu10] divides; [rounding_departures] lists where
      the code leaves the mode.
    - [AmountProperties]: amounts in canonical form are read back; an amount
      becomes canonical by one rounding; order and equality are those of the
      numbers; sums of whole units are exact.
    - [DirectoryProperties]: a directory is a map from entries to their pages
      that determines where an entry goes and when it is refused, the traversals see exactly its entries, and three departures from the
      documentation ([dir_iterator_misses_pages], [emptyDirDelete_keeps],
      [dirDelete_reports_failure]).

    - [NegativeUNLProperties], [AmendmentsProperties], [FeeVoteProperties]: the
      choices are those of the documented rules and every server with the same
      validations makes the same; votes for them apply without error, keep the
      list of disabled validators within its bound, enable an amendment only
      after an unbroken majority of the required time, and put the chosen fees
      in force.
    - [STProxy]: assigning through a proxy keeps the shape of an
      object and is read back.
    - [LedgerViewsProperties]: whatever is done to entries through a sandbox is
      done to the map of entries, unseen below until the sandbox is applied and
      then exactly that; what an open view reads and iterates over after any raw
      changes that fit; which calls
      throw and which tables a ledger refuses.
    - [PaymentSandboxProperties]: a payment cannot use what it credits.
    - [SHAMapProperties]: the tree is a finite map under any operations, its
      root hash binds its items and nothing else, iterators give them in order,
      and a comparison finds the differences of two trees, of entries or of
      transactions.
    - [SHAMapProofs]: nodes are read back from the wire and the store; a proof
      path of a leaf is accepted, and an accepted path shows a leaf of the tree,
      though not always that of the key ([proof_accepted_for_other_key]).

    - [LedgerTree]: the trees implement the map of entries, headers are read
      back, the hash of a ledger binds it.
    - [SkipList]: in a chain of ledgers built one on the other, [hashOfSeq] gives
      the hash of the ledger of that number or none, ledgers of one chain are
      compatible, and a validated ledger has the ancestry of the chain.

    The main theorems with hypotheses are followed by an instance at concrete data.

    ** Choices

    - Fixed-width integers are values of [Z] reduced where the source can leave
      the width ([u32], [u64]).  Theorems about counters of validations assume
      fewer than 2^32 of them; container sizes are not bounded.
    - Hashes, keys, accounts and node identifiers are integers, transaction
      sets are finite sets of transaction identifiers with a hash [setID].
      Where code relies on a hash not colliding, the theorem says on which
      values.  The identifier of a pseudo-transaction is its contents.
    - A hash map is a finite map; loops over one run in the order of the map.
      [std::partial_sort] is represented by the two elements it puts in front.
    - Only [timerEntry] recurs without a structural argument: it can restart
      the round, which may run the timer again.  Its fuel bounds that depth;
      [calls_terminate] shows that two is enough when the adaptor names one
      network ledger throughout the call.  The walks of the trie are
      structural in the tree or, for [advance], in the list of sequences.
    - Loops that read bytes have the number of bytes left as fuel; that they
      never run out is [object_read_ends].  Loops over the digits of a number
      have 40 turns, more than a 128-bit number has digits; legacy loops over
      64-bit values have 20.  Walks of a directory have the number of its pages
      plus one.
    - Nesting of serialized values is bounded by the code itself (ten levels);
      [readVar] recurs on the levels left.
    - Bytes are integers below 256; 160- and 256-bit values are lists of bytes
      on the wire and integers in directories.
    - In views, keys of entries and pointers are integers, the data of an entry
      is a type variable, and amounts of destroyed XRP are not bounded.  The
      search for the next key has the number of items plus one turns, the
      iterator as many as there are items and entries; both are shown enough.
    - Walks of a [SHAMap] have 65 turns, one for each level and the root; the
      loops of [compare] and [walkBranch] as many as the tree has nodes.  The
      theorems show that these are enough.
    - In [RemoteFetcher] a call that would lock a mutex its own thread holds
      has no result.

    ** What is not modelled

    Locks other than that one, logging, JSON output, and assertions (what they
    assert is proved where the model depends on it).  HTTP, the parsing of
    remote lists and signatures are arguments of [RemoteFetcher]; the validator
    list, the clocks and ledger acquisition are arguments of the code that asks
    them, the directory of an account is one of [ApplyVote].  The loaders of
    signed integers (boost) are arguments of [readLeaf].  Roots and rational
    powers of numbers, products and quotients of amounts, JSON and text
    forms are not modelled.  The cache of excluded accounts is updated
    while a vote is applied; that the application of a ledger may be
    repeated or abandoned is left out.  In the views, the
    metadata a transaction leaves behind is not built ([ApplyStateTable::apply]
    to an [OpenView] with metadata, threading).  Of [SHAMap], copy on write,
    caches, fetching of absent nodes and their exchange with peers are left out.
    The adaptor [RCLConsensus], the transactors, the transaction queue, path
    finding, storage, overlay and RPC are outside this library: they depend on
    services (databases, the network, job queues) or are large families of rules
    over the views that are modelled. *)

From stdpp Require Export base gmap list sets sorting fin_maps.
From Stdlib Require Export ZArith Lia.
From Stdlib Require SpecFloat.

#[global] Open Scope Z_scope.

(** ** Machine integers

    Fixed-width C++ integers are values of [Z]; every operation of the source
    that can leave the width is followed by the reduction of its type.  *)

Definition u32 (z : Z) : Z := z mod 2 ^ 32.
Definition u64 (z : Z) : Z := z mod 2 ^ 64.

Lemma u32_id z : 0 <= z < 2 ^ 32 -> u32 z = z.
Proof. apply Z.mod_small. Qed.

Lemma u64_id z : 0 <= z < 2 ^ 64 -> u64 z = z.
Proof. apply Z.mod_small. Qed.

Lemma u32_range z : 0 <= u32 z < 2 ^ 32.
Proof. apply Z.mod_pos_bound; lia. Qed.

Lemma u64_range z : 0 <= u64 z < 2 ^ 64.
Proof. apply Z.mod_pos_bound; lia. Qed.

(** Bit fields: a shifted value beside one below it, and masks of ones. *)
Lemma land_low z n : 0 <= n -> Z.land z (Z.ones n) = z mod 2 ^ n.
Proof. intros. by apply Z.land_ones. Qed.

Lemma land_shifted a b n : 0 <= n -> 0 <= a < 2 ^ n -> Z.land a (b * 2 ^ n) = 0.
Proof.
  intros Hn Ha. rewrite <- Z.shiftl_mul_pow2 by done. apply Z.bits_inj'. intros i Hi.
  rewrite Z.land_spec, Z.bits_0, Z.shiftl_spec by done. destruct (Z.ltb_spec i n).
  - rewrite (Z.testbit_neg_r b) by lia. by rewrite andb_false_r.
  - rewrite <- (Z.mod_small a (2 ^ n)) by done. by rewrite Z.mod_pow2_bits_high by lia.
Qed.

Lemma lor_shifted a b n : 0 <= n -> 0 <= a < 2 ^ n -> Z.lor a (b * 2 ^ n) = a + b * 2 ^ n.
Proof. intros Hn Ha. symmetry. by apply Z.add_nocarry_lor, land_shifted. Qed.

(** ** Automation *)

Create Rewrite HintDb widths.
#[export] Hint Rewrite u32_id u64_id using lia : widths.

(** Turn boolean tests in the context and the goal into propositions. *)
Ltac b2p :=
  repeat match goal with
  | H : (_ && _)%bool = true |- _ => apply andb_true_iff in H; destruct H
  | H : (_ || _)%bool = false |- _ => apply orb_false_iff in H; destruct H
  | H : negb _ = true |- _ => apply negb_true_iff in H
  | H : negb _ = false |- _ => apply negb_false_iff in H
  | H : (_ =? _) = true |- _ => apply Z.eqb_eq in H
  | H : (_ =? _) = false |- _ => apply Z.eqb_neq in H
  | H : (_ <? _) = true |- _ => apply Z.ltb_lt in H
  | H : (_ <? _) = false |- _ => apply Z.ltb_ge in H
  | H : (_ <=? _) = true |- _ => apply Z.leb_le in H
  | H : (_ <=? _) = false |- _ => apply Z.leb_gt in H
  | H : (_ || _)%bool = true |- _ => apply orb_true_iff in H
  | H : (_ && _)%bool = false |- _ => apply andb_false_iff in H
  end.

(** Split on every conditional and match of the goal, then clean up. *)
Ltac case_all :=
  repeat (case_match || (progress simplify_eq)); b2p.

(** Prove [Forall P [x; y; ...]] element by element. *)
Ltac forall_list := repeat first [apply Forall_nil_2 | apply Forall_cons_2].

(** ** Lists of integers *)

Definition zsum (l : list Z) : Z := foldr Z.add 0 l.

Lemma zsum_app l k : zsum (l ++ k) = zsum l + zsum k.
Proof. induction l as [|x l IH]; simpl; lia. Qed.

Lemma zsum_nonneg l : Forall (fun x => 0 <= x) l -> 0 <= zsum l.
Proof. induction 1; simpl; lia. Qed.

Lemma zsum_perm l k : l ≡ₚ k -> zsum l = zsum k.
Proof. induction 1; simpl; lia. Qed.

Lemma zsum_cons x l : zsum (x :: l) = x + zsum l.
Proof. done. Qed.

Lemma zsum_fmap_ext {A} (f g : A -> Z) l :
  Forall (fun x => f x = g x) l -> zsum (f <$> l) = zsum (g <$> l).
Proof. induction 1 as [|x l E _ IH]; [done|]. rewrite !fmap_cons, !zsum_cons, E, IH. done. Qed.

Lemma zsum_fmap_zero {A} (f : A -> Z) l :
  Forall (fun x => f x = 0) l -> zsum (f <$> l) = 0.
Proof. induction 1 as [|x l E _ IH]; [done|]. rewrite fmap_cons, zsum_cons, E, IH. done. Qed.

#[global] Arguments zsum : simpl never.

#[export] Instance zsum_proper : Proper ((≡ₚ) ==> eq) zsum.
Proof. intros l k. apply zsum_perm. Qed.

Lemma filter_all {A} (P : A -> Prop) `{forall x, Decision (P x)} l :
  Forall P l -> filter P l = l.
Proof. induction 1 as [|x l Hx _ IH]; [done|]. rewrite filter_cons, decide_True by done. by rewrite IH. Qed.

(** An invariant of a loop over a list. *)
Lemma foldl_inv {A B} (P : A -> Prop) (f : A -> B -> A) l a :
  P a -> (forall a x, x ∈ l -> P a -> P (f a x)) -> P (foldl f a l).
Proof.
  revert a; induction l as [|x l IH]; intros a Ha Hf; [done|]. simpl.
  apply IH; [apply Hf; [left|done]|]. intros b y Hy. apply Hf. by right.
Qed.

(** The values of a finite map, with repetitions. *)
Definition map_values {A} (m : gmap Z A) : list A := (map_to_list m).*2.

Lemma map_values_insert {A} (m : gmap Z A) k x :
  map_values (<[k := x]> m) ≡ₚ x :: map_values (delete k m).
Proof.
  unfold map_values. rewrite <- insert_delete_eq.
  rewrite map_to_list_insert by apply lookup_delete_eq. done.
Qed.

Lemma map_values_delete {A} (m : gmap Z A) k x :
  m !! k = Some x -> map_values m ≡ₚ x :: map_values (delete k m).
Proof. intros Hk. unfold map_values. by rewrite <- (map_to_list_delete m k x Hk). Qed.

Lemma map_values_length {A} (m : gmap Z A) : length (map_values m) = size m.
Proof. unfold map_values. by rewrite length_fmap, length_map_to_list. Qed.

Lemma elem_of_map_values {A} (m : gmap Z A) x : x ∈ map_values m <-> exists k, m !! k = Some x.
Proof.
  unfold map_values. rewrite list_elem_of_fmap. split.
  - intros ([k y] & -> & Hk%elem_of_map_to_list). by exists k.
  - intros (k & Hk). exists (k, x). by rewrite elem_of_map_to_list.
Qed.

(** ** Ordered maps *)

(** Entries of a [std::map] in increasing key order. *)
Definition keyLe (a b : Z * Z) : Prop := a.1 <= b.1.
#[export] Instance keyLe_dec : RelDecision keyLe := fun a b => decide (a.1 <= b.1).
#[export] Instance keyLe_trans : Transitive keyLe.
Proof. intros a b c. unfold keyLe. lia. Qed.
#[export] Instance keyLe_total : Total keyLe.
Proof. intros a b. unfold keyLe. lia. Qed.

Definition entries (m : gmap Z Z) : list (Z * Z) := merge_sort keyLe (map_to_list m).

Definition keyLt (a b : Z * Z) : Prop := a.1 < b.1.

Lemma entries_perm m : entries m ≡ₚ map_to_list m.
Proof. apply merge_sort_Permutation. Qed.

Lemma entries_sorted m : StronglySorted keyLt (entries m).
Proof.
  assert (NoDup (entries m).*1) as Hnd by (rewrite entries_perm; apply NoDup_fst_map_to_list).
  pose proof (StronglySorted_merge_sort keyLe (map_to_list m)) as Hs. fold (entries m) in Hs.
  revert Hnd Hs. generalize (entries m). induction l as [|e l IH]; intros Hnd Hs; [constructor|].
  apply StronglySorted_inv in Hs as [Hs Hf]. rewrite fmap_cons in Hnd.
  apply NoDup_cons in Hnd as [Hni Hnd]. constructor; [by apply IH|].
  rewrite Forall_forall in *. intros x Hx. specialize (Hf x Hx). unfold keyLe, keyLt in *.
  assert (e.1 <> x.1); [|lia]. intros E. apply Hni. rewrite E. by apply list_elem_of_fmap_2.
Qed.

(** ** Truncated division against a threshold *)

Lemma quot_gt a b k : 0 <= a -> 0 < b -> 0 <= k -> k < Z.quot a b <-> (k + 1) * b <= a.
Proof.
  intros Ha Hb Hk. rewrite Z.quot_div_nonneg by lia.
  pose proof (Z_div_mod_eq_full a b). pose proof (Z.mod_pos_bound a b Hb). nia.
Qed.

Lemma quot_lt a b k : 0 <= a -> 0 < b -> 0 <= k -> Z.quot a b < k <-> a < k * b.
Proof.
  intros Ha Hb Hk. rewrite Z.quot_div_nonneg by lia.
  pose proof (Z_div_mod_eq_full a b). pose proof (Z.mod_pos_bound a b Hb). nia.
Qed.

Lemma quot_range a b : 0 <= a -> 0 < b -> 0 <= Z.quot a b <= a.
Proof.
  intros Ha Hb. rewrite Z.quot_div_nonneg by lia.
  split; [apply Z.div_pos; lia|]. apply Z.div_le_upper_bound; nia.
Qed.

(** ** Single precision arithmetic

    The C++ type [float] as IEEE-754 binary32, on the specification floats of
    the standard library (24 bits of precision, largest exponent 128). *)

Abbreviation float32 := SpecFloat.spec_float.
Definition f32_of (z : Z) : float32 := SpecFloat.binary_normalize 24 128 z 0 false.
Definition f32_div : float32 -> float32 -> float32 := SpecFloat.SFdiv 24 128.
Definition f32_add : float32 -> float32 -> float32 := SpecFloat.SFadd 24 128.
Definition f32_sub : float32 -> float32 -> float32 := SpecFloat.SFsub 24 128.
Definition f32_mul : float32 -> float32 -> float32 := SpecFloat.SFmul 24 128.
Definition f32_lt : float32 -> float32 -> bool := SpecFloat.SFltb.
