(* ===== verification/AgedMap.v ===== *)
(** * Aged unordered maps

    The operations of [aged_unordered_container.h] that the consensus code uses.
    The elements are kept in the order of the container's [chronological] list,
    each with the time it was inserted or last touched; the hash table of the
    source only finds elements by key.  Times are those of the container's
    clock. *)

From S2P Require Import Prelude.

Record element (K V : Type) := mkElement { elem_key : K; elem_when : Z; elem_value : V }.
Arguments mkElement {K V}.
Arguments elem_key {K V}.
Arguments elem_when {K V}.
Arguments elem_value {K V}.

(** The container, oldest element first. *)
Abbreviation aged_map K V := (list (element K V)).

Section AgedMap.
Context {K V : Type} `{EqDecision K}.
Implicit Types (c : list (element K V)) (k : K).

Fixpoint aged_find (k : K) (c : list (element K V)) : option (element K V) :=
  match c with
  | [] => None
  | e :: c' => if decide (elem_key e = k) then Some e else aged_find k c'
  end.

Definition aged_value (k : K) (c : list (element K V)) : option V := elem_value <$> aged_find k c.

(** [operator[]]: a missing key gets a default value, stamped [now], at the back. *)
Definition aged_index (now : Z) (dflt : V) (k : K) (c : list (element K V)) : list (element K V) :=
  match aged_find k c with
  | Some _ => c
  | None => c ++ [mkElement k now dflt]
  end.

(** [emplace]: the returned flag says whether the element was inserted. *)
Definition aged_emplace (now : Z) (k : K) (v : V) (c : list (element K V)) : list (element K V) * bool :=
  match aged_find k c with
  | Some _ => (c, false)
  | None => (c ++ [mkElement k now v], true)
  end.

(** Assigning through a reference to the mapped value. *)
Definition aged_alter (f : V -> V) (k : K) (c : list (element K V)) : list (element K V) :=
  (fun e => if decide (elem_key e = k)
            then mkElement (elem_key e) (elem_when e) (f (elem_value e)) else e) <$> c.

(** [unlink_and_delete_element] on the element of key [k]. *)
Definition aged_erase (k : K) (c : list (element K V)) : list (element K V) :=
  filter (fun e => elem_key e <> k) c.

(** [touch(pos, now)]: restamp the element and move it to the back. *)
Definition aged_touch (now : Z) (k : K) (c : list (element K V)) : list (element K V) :=
  match aged_find k c with
  | Some e => aged_erase k c ++ [mkElement k now (elem_value e)]
  | None => c
  end.

(** [beast::expire]: erase from the front while the elements are too old. *)
Fixpoint aged_expire (expired : Z) (c : list (element K V)) : list (element K V) :=
  match c with
  | e :: c' => if elem_when e <=? expired then aged_expire expired c' else c
  | [] => []
  end.

(** ** Invariant: unique keys, in the order of their times, none in the future *)

Definition older (a b : element K V) : Prop := elem_when a <= elem_when b.

Record aged_ok (now : Z) (c : list (element K V)) : Prop := {
  ao_keys : NoDup (elem_key <$> c);
  ao_order : StronglySorted older c;
  ao_past : Forall (fun e => elem_when e <= now) c;
}.

Lemma aged_find_Some k c e : aged_find k c = Some e -> e ∈ c /\ elem_key e = k.
Proof.
  induction c as [|x c IH]; simpl; [done|]. case_decide; [|set_solver].
  intros [= ->]. split; [left|done].
Qed.

Lemma aged_find_None k c : aged_find k c = None <-> k ∉ elem_key <$> c.
Proof. induction c as [|x c IH]; simpl; [set_solver|]. case_decide; set_solver. Qed.

Lemma aged_find_elem now c e : aged_ok now c -> e ∈ c -> aged_find (elem_key e) c = Some e.
Proof.
  intros [Hnd _ _] He. destruct (aged_find (elem_key e) c) as [e'|] eqn:Hf.
  - apply aged_find_Some in Hf as [He' Hk]. f_equal.
    apply list_elem_of_lookup in He as [i Hi]. apply list_elem_of_lookup in He' as [j Hj].
    assert (i = j) as ->; [|congruence].
    apply (NoDup_lookup _ i j (elem_key e) Hnd); rewrite list_lookup_fmap;
      [by rewrite Hi|rewrite Hj; simpl; by rewrite Hk].
  - apply aged_find_None in Hf. by destruct Hf; apply list_elem_of_fmap_2.
Qed.

Lemma aged_ok_later now now' c : aged_ok now c -> now <= now' -> aged_ok now' c.
Proof. intros [Hk Ho Hp] Hn. split; [done..|]. eapply Forall_impl; [exact Hp|]. simpl. lia. Qed.

Lemma aged_ok_nil now : aged_ok now [].
Proof. split; constructor. Qed.

(** A new element at the back. *)
Lemma aged_ok_snoc now k v c :
  aged_ok now c -> k ∉ elem_key <$> c -> aged_ok now (c ++ [mkElement k now v]).
Proof.
  intros [Hk Ho Hp] Hn. split.
  - rewrite fmap_app. apply NoDup_app. split_and!; [done| |apply NoDup_singleton].
    intros x Hx ->%list_elem_of_singleton. done.
  - apply StronglySorted_app. split_and!; [|done|by repeat constructor].
    intros x y Hx ->%list_elem_of_singleton. unfold older. simpl.
    rewrite Forall_forall in Hp. by apply Hp.
  - apply Forall_app. split; [done|]. forall_list. simpl. lia.
Qed.

Lemma aged_ok_sublist now c c' : sublist c' c -> aged_ok now c -> aged_ok now c'.
Proof.
  intros Hs [Hk Ho Hp]. split.
  - clear Ho Hp. induction Hs as [|x c' c Hs IH|x c' c Hs IH]; [constructor|..];
      apply NoDup_cons in Hk as [Hx Hk]; [|by apply IH]. apply NoDup_cons. split; [|by apply IH].
    intros (y & Hy & Hin)%list_elem_of_fmap. apply Hx. rewrite Hy.
    apply list_elem_of_fmap_2. by apply (sublist_subseteq _ _ Hs).
  - clear Hk Hp. induction Hs as [|x c' c Hs IH|x c' c Hs IH]; [constructor|..];
      apply StronglySorted_inv in Ho as [Ho Hx]; [|by apply IH]. constructor; [by apply IH|].
    rewrite Forall_forall in *. intros y Hy. by apply Hx, (sublist_subseteq _ _ Hs).
  - rewrite Forall_forall in *. intros y Hy. by apply Hp, (sublist_subseteq _ _ Hs).
Qed.

Lemma aged_erase_ok now k c : aged_ok now c -> aged_ok now (aged_erase k c).
Proof. apply aged_ok_sublist, sublist_filter. Qed.

Lemma aged_touch_ok now k c : aged_ok now c -> aged_ok now (aged_touch now k c).
Proof.
  intros Hc. unfold aged_touch. destruct (aged_find k c) as [e|]; [|done].
  apply aged_ok_snoc; [by apply aged_erase_ok|].
  intros (y & Hy & [Hne _]%list_elem_of_filter)%list_elem_of_fmap. done.
Qed.

Lemma aged_index_ok now d k c : aged_ok now c -> aged_ok now (aged_index now d k c).
Proof.
  intros Hc. unfold aged_index. destruct (aged_find k c) eqn:Hf; [done|].
  apply aged_ok_snoc; [done|]. by apply aged_find_None.
Qed.

Lemma aged_emplace_ok now k v c : aged_ok now c -> aged_ok now (aged_emplace now k v c).1.
Proof.
  intros Hc. unfold aged_emplace. destruct (aged_find k c) eqn:Hf; [done|].
  apply aged_ok_snoc; [done|]. by apply aged_find_None.
Qed.

Lemma aged_alter_ok now f k c : aged_ok now c -> aged_ok now (aged_alter f k c).
Proof.
  intros [Hk Ho Hp]. unfold aged_alter. split.
  - rewrite <- list_fmap_compose. erewrite list_fmap_ext; [exact Hk|].
    intros i e _. simpl. by case_decide.
  - clear Hk Hp. induction Ho as [|x c _ IH Hx]; [constructor|]. rewrite fmap_cons.
    constructor; [done|]. apply Forall_fmap. eapply Forall_impl; [exact Hx|].
    intros y. unfold older. simpl. by repeat case_decide.
  - apply Forall_fmap. eapply Forall_impl; [exact Hp|]. intros e. simpl. by case_decide.
Qed.

Lemma aged_expire_sublist expired c : sublist (aged_expire expired c) c.
Proof. induction c as [|e c IH]; simpl; [done|]. case_match; [by constructor|done]. Qed.

Lemma aged_expire_ok now expired c : aged_ok now c -> aged_ok now (aged_expire expired c).
Proof. apply aged_ok_sublist, aged_expire_sublist. Qed.

(** Erasing from the front removes exactly the elements that are too old. *)
Lemma aged_expire_filter expired c :
  StronglySorted older c -> aged_expire expired c = filter (fun e => expired < elem_when e) c.
Proof.
  induction 1 as [|e c Hs IH He]; simpl; [done|]. rewrite filter_cons.
  destruct (Z.leb_spec (elem_when e) expired); case_decide; try lia; [done|]. f_equal.
  symmetry. apply filter_all. eapply Forall_impl; [exact He|]. unfold older. simpl. lia.
Qed.

(** ** The mapped values *)

Lemma aged_find_snoc k e c :
  aged_find k (c ++ [e]) =
  match aged_find k c with
  | Some e' => Some e'
  | None => if decide (elem_key e = k) then Some e else None
  end.
Proof. induction c as [|x c IH]; simpl; [done|]. destruct (decide (elem_key x = k)); [done|apply IH]. Qed.

Lemma aged_find_filter k j c :
  aged_find k (aged_erase j c) = if decide (k = j) then None else aged_find k c.
Proof.
  unfold aged_erase. induction c as [|x c IH]; [by case_decide|]. rewrite filter_cons.
  destruct (decide (elem_key x <> j)) as [Hx|Hx]; simpl; rewrite IH;
    destruct (decide (k = j)); destruct (decide (elem_key x = k)); try congruence;
    apply dec_stable in Hx; congruence.
Qed.

Lemma aged_value_index now d k j c :
  aged_value k (aged_index now d j c) =
  if decide (k = j) then Some (default d (aged_value k c)) else aged_value k c.
Proof.
  unfold aged_index, aged_value. destruct (decide (k = j)) as [->|Hne].
  - destruct (aged_find j c) as [e|] eqn:Hj; [by rewrite Hj|].
    rewrite aged_find_snoc, Hj. simpl. by rewrite decide_True.
  - destruct (aged_find j c) as [e|] eqn:Hj; [done|].
    rewrite aged_find_snoc. simpl. rewrite decide_False by congruence. by destruct (aged_find k c).
Qed.

Lemma aged_value_touch now k j c : aged_value k (aged_touch now j c) = aged_value k c.
Proof.
  unfold aged_touch, aged_value. destruct (aged_find j c) as [e|] eqn:Hj; [|done].
  rewrite aged_find_snoc, aged_find_filter. simpl.
  destruct (decide (k = j)) as [->|]; [by rewrite Hj, decide_True|].
  rewrite decide_False by congruence. by destruct (aged_find k c).
Qed.

Lemma aged_value_alter f k j c :
  aged_value k (aged_alter f j c) =
  if decide (k = j) then f <$> aged_value k c else aged_value k c.
Proof.
  unfold aged_alter, aged_value. induction c as [|x c IH]; [by case_decide|].
  rewrite fmap_cons. simpl in *. destruct (decide (elem_key x = j)) as [Hx|Hx]; simpl;
    destruct (decide (elem_key x = k)) as [Hx'|Hx']; simpl; rewrite ?IH; case_decide; congruence.
Qed.

(** A value is gone after [expire] only if it was neither inserted nor touched
    after the limit. *)
Lemma aged_value_expire now expired k c :
  aged_ok now c ->
  aged_value k (aged_expire expired c) =
  match aged_find k c with
  | Some e => if elem_when e <=? expired then None else Some (elem_value e)
  | None => None
  end.
Proof.
  intros Hok. pose proof (aged_expire_ok now expired c Hok) as Hok'. unfold aged_value.
  rewrite aged_expire_filter in * by apply Hok. destruct (aged_find k c) as [e|] eqn:Hf.
  - apply aged_find_Some in Hf as [He <-]. destruct (Z.leb_spec (elem_when e) expired) as [Hle|Hgt].
    + rewrite (proj2 (aged_find_None _ _)); [done|].
      intros (e' & Hk & [Hw He']%list_elem_of_filter)%list_elem_of_fmap.
      apply (aged_find_elem now c) in He, He'; [|done..]. rewrite Hk in He. simplify_eq. lia.
    + rewrite (aged_find_elem now _ e); [done|done|]. by apply list_elem_of_filter.
  - apply aged_find_None in Hf. rewrite (proj2 (aged_find_None _ _)); [done|].
    intros (e & Hk & [_ He]%list_elem_of_filter)%list_elem_of_fmap. apply Hf.
    rewrite Hk. by apply list_elem_of_fmap_2.
Qed.

End AgedMap.
