(* ===== verification/ConsensusParms.v ===== *)
(** * Consensus parameters and the avalanche thresholds

    Models [src/src/xrpld/consensus/ConsensusParms.h]: the constants of
    [struct ConsensusParms], the avalanche state machine stored in
    [avalancheCutoffs] and [getNeededWeight].  Durations are integers in the
    unit the source declares (seconds or milliseconds). *)

From S2P Require Import Prelude.

Inductive AvalancheState := init | mid | late | stuck.

#[export] Instance AvalancheState_eq_dec : EqDecision AvalancheState.
Proof. solve_decision. Defined.

Record AvalancheCutoff := {
  consensusTime : Z;
  consensusPct : Z;
  next : AvalancheState;
}.

Record ConsensusParms := {
  validationVALID_WALL : Z;
  validationVALID_LOCAL : Z;
  validationVALID_EARLY : Z;
  proposeFRESHNESS : Z;
  proposeINTERVAL : Z;
  minCONSENSUS_PCT : Z;
  ledgerIDLE_INTERVAL : Z;
  ledgerMIN_CONSENSUS : Z;
  ledgerMAX_CONSENSUS : Z;
  ledgerMIN_CLOSE : Z;
  ledgerGRANULARITY : Z;
  ledgerABANDON_CONSENSUS_FACTOR : Z;
  ledgerABANDON_CONSENSUS : Z;
  avMIN_CONSENSUS_TIME : Z;
  avalancheCutoffs : AvalancheState -> AvalancheCutoff;
  avCT_CONSENSUS_PCT : Z;
  avMIN_ROUNDS : Z;
  avSTALLED_ROUNDS : Z;
}.

(** The hand-built [std::map]: every state has an entry, so [at] never throws. *)
Definition cutoffs (s : AvalancheState) : AvalancheCutoff :=
  match s with
  | init => {| consensusTime := 0; consensusPct := 50; next := mid |}
  | mid => {| consensusTime := 50; consensusPct := 65; next := late |}
  | late => {| consensusTime := 85; consensusPct := 70; next := stuck |}
  | stuck => {| consensusTime := 200; consensusPct := 95; next := stuck |}
  end.

(** The only value of the type: all members are [const] with initialisers. *)
Definition parms : ConsensusParms := {|
  validationVALID_WALL := 5 * 60;
  validationVALID_LOCAL := 3 * 60;
  validationVALID_EARLY := 3 * 60;
  proposeFRESHNESS := 20;
  proposeINTERVAL := 12;
  minCONSENSUS_PCT := 67;
  ledgerIDLE_INTERVAL := 15000;
  ledgerMIN_CONSENSUS := 1950;
  ledgerMAX_CONSENSUS := 15000;
  ledgerMIN_CLOSE := 2000;
  ledgerGRANULARITY := 1000;
  ledgerABANDON_CONSENSUS_FACTOR := 10;
  ledgerABANDON_CONSENSUS := 120000;
  avMIN_CONSENSUS_TIME := 5000;
  avalancheCutoffs := cutoffs;
  avCT_CONSENSUS_PCT := 75;
  avMIN_ROUNDS := 2;
  avSTALLED_ROUNDS := 4;
|}.

Definition getNeededWeight (p : ConsensusParms) (currentState : AvalancheState)
    (percentTime currentRounds minimumRounds : Z) : Z * option AvalancheState :=
  let currentCutoff := avalancheCutoffs p currentState in
  if negb (bool_decide (next currentCutoff = currentState))
     && (minimumRounds <=? currentRounds)
  then
    let nextCutoff := avalancheCutoffs p (next currentCutoff) in
    if consensusTime nextCutoff <=? percentTime
    then (consensusPct nextCutoff, Some (next currentCutoff))
    else (consensusPct currentCutoff, None)
  else (consensusPct currentCutoff, None).

(** Position of a state in the avalanche sequence. *)
Definition avRank (s : AvalancheState) : Z :=
  match s with init => 0 | mid => 1 | late => 2 | stuck => 3 end.

Definition stateAfter (s : AvalancheState) (r : Z * option AvalancheState) :=
  default s r.2.

(** The state reached is never an earlier one, and at most one step is taken
    per call. *)
Lemma getNeededWeight_step s t c m :
  avRank s <= avRank (stateAfter s (getNeededWeight parms s t c m)) <= avRank s + 1.
Proof.
  unfold getNeededWeight, stateAfter. simpl avalancheCutoffs.
  destruct s; simpl; repeat case_match; simpl; lia.
Qed.

(** The percentage returned is the requirement of the state reached. *)
Lemma getNeededWeight_pct s t c m :
  (getNeededWeight parms s t c m).1 =
  consensusPct (cutoffs (stateAfter s (getNeededWeight parms s t c m))).
Proof.
  unfold getNeededWeight, stateAfter. simpl avalancheCutoffs.
  destruct s; simpl; repeat case_match; reflexivity.
Qed.

Lemma cutoffs_pct_mono s s' :
  avRank s <= avRank s' -> consensusPct (cutoffs s) <= consensusPct (cutoffs s').
Proof. destruct s, s'; simpl; lia. Qed.

Lemma cutoffs_pct_range s : 50 <= consensusPct (cutoffs s) <= 95.
Proof. destruct s; simpl; lia. Qed.
