(* ===== verification/LedgerTiming.v ===== *)
(** * Ledger close times

    Models [src/src/xrpld/consensus/LedgerTiming.h].  [NetClock] counts whole
    seconds in a [uint32_t]; its default time point is [0]. *)

From S2P Require Import Prelude.

Definition ledgerPossibleTimeResolutions : list Z := [10; 20; 30; 60; 90; 120].
Definition ledgerDefaultTimeResolution : Z := 30.
Definition ledgerGenesisTimeResolution : Z := 10.
Definition increaseLedgerTimeResolutionEvery : Z := 8.
Definition decreaseLedgerTimeResolutionEvery : Z := 1.

(** [std::find] over the array: index of the first equal element. *)
Fixpoint findIndex (x : Z) (l : list Z) : option nat :=
  match l with
  | [] => None
  | y :: l => if y =? x then Some 0%nat else S <$> findIndex x l
  end.

Definition getNextLedgerTimeResolution (previousResolution : Z)
    (previousAgree : bool) (ledgerSeq : Z) : Z :=
  match findIndex previousResolution ledgerPossibleTimeResolutions with
  | None => previousResolution
  | Some i =>
      if negb previousAgree
         && (ledgerSeq mod decreaseLedgerTimeResolutionEvery =? 0)
      then
        match ledgerPossibleTimeResolutions !! S i with
        | Some r => r
        | None => previousResolution
        end
      else if previousAgree
         && (ledgerSeq mod increaseLedgerTimeResolutionEvery =? 0)
      then
        match i with
        | O => previousResolution
        | S j => default previousResolution (ledgerPossibleTimeResolutions !! j)
        end
      else previousResolution
  end.

Definition roundCloseTime (closeTime closeResolution : Z) : Z :=
  if closeTime =? 0 then closeTime
  else
    let t := u32 (closeTime + closeResolution / 2) in
    u32 (t - t mod closeResolution).

Definition effCloseTime (closeTime resolution priorCloseTime : Z) : Z :=
  if closeTime =? 0 then closeTime
  else Z.max (roundCloseTime closeTime resolution) (u32 (priorCloseTime + 1)).

(** ** Resolutions *)

Lemma findIndex_Some x l i : findIndex x l = Some i -> l !! i = Some x.
Proof.
  revert i; induction l as [|y l IH]; intros i; simpl; [done|].
  destruct (Z.eqb_spec y x) as [->|Hne]; intros H; simplify_eq; [done|].
  destruct (findIndex x l) as [j|]; simplify_eq/=. by apply IH.
Qed.

(** The bin never moves by more than one place, moves up only after a
    disagreement and down only after an agreement on an eighth ledger. *)
Lemma getNextLedgerTimeResolution_adjacent prev agree s i :
  ledgerPossibleTimeResolutions !! i = Some prev ->
  exists j, ledgerPossibleTimeResolutions !! j =
              Some (getNextLedgerTimeResolution prev agree s)
    /\ (j = i
        \/ (agree = false /\ j = S i)
        \/ (agree = true /\ s mod 8 = 0 /\ i = S j)).
Proof.
  intros Hi. unfold getNextLedgerTimeResolution, decreaseLedgerTimeResolutionEvery,
    increaseLedgerTimeResolutionEvery.
  assert (findIndex prev ledgerPossibleTimeResolutions = Some i) as ->.
  { do 6 (destruct i as [|i]; simpl in Hi; [simplify_eq; reflexivity|]). done. }
  destruct agree; simpl negb; cbv [andb].
  - destruct (Z.eqb_spec (s mod 8) 0) as [E|E]; [|by exists i; eauto].
    destruct i as [|j]; [by exists 0%nat; eauto|].
    exists j. split; [|eauto].
    destruct (ledgerPossibleTimeResolutions !! j) eqn:Ej; [done|].
    apply lookup_ge_None in Ej. apply lookup_lt_Some in Hi. lia.
  - rewrite Z.mod_1_r. simpl (0 =? 0). cbv iota.
    destruct (ledgerPossibleTimeResolutions !! S i) eqn:Ej; eauto 6.
Qed.

(** ** Rounding *)

Section Rounding.
Context (res : Z) (Hres : 0 < res < 2 ^ 32).

Lemma roundCloseTime_eq t :
  0 < t -> t + res / 2 < 2 ^ 32 ->
  roundCloseTime t res = (t + res / 2) / res * res.
Proof.
  intros Ht Hlt. unfold roundCloseTime.
  destruct (Z.eqb_spec t 0) as [|_]; [lia|].
  pose proof (Z.div_pos res 2 ltac:(lia) ltac:(lia)).
  rewrite (u32_id (t + res / 2)) by lia.
  set (x := t + res / 2) in *.
  pose proof (Z.mod_pos_bound x res ltac:(lia)).
  pose proof (Z.mod_le x res ltac:(lia) ltac:(lia)).
  pose proof (Z_div_mod_eq_full x res).
  rewrite u32_id; lia.
Qed.

(** The result is the multiple of the resolution nearest to the time. *)
Lemma roundCloseTime_nearest t :
  0 < t -> t + res / 2 < 2 ^ 32 ->
  roundCloseTime t res mod res = 0
  /\ roundCloseTime t res <= t + res / 2 < roundCloseTime t res + res.
Proof.
  intros Ht Hlt. rewrite roundCloseTime_eq by done.
  pose proof (Z_div_mod_eq_full (t + res / 2) res).
  pose proof (Z.mod_pos_bound (t + res / 2) res ltac:(lia)).
  rewrite Z_mod_mult. lia.
Qed.

Lemma roundCloseTime_mono t t' :
  0 < t <= t' -> t' + res / 2 < 2 ^ 32 ->
  roundCloseTime t res <= roundCloseTime t' res.
Proof.
  intros Ht Hlt. rewrite !roundCloseTime_eq by lia.
  apply Z.mul_le_mono_nonneg_r; [lia|]. apply Z.div_le_mono; lia.
Qed.

Lemma roundCloseTime_idemp t :
  0 < t -> t + res < 2 ^ 32 ->
  roundCloseTime (roundCloseTime t res) res = roundCloseTime t res.
Proof.
  intros Ht Hlt.
  assert (0 <= res / 2 < res /\ 2 * (res / 2) <= res) as [Hh Hh2].
  { pose proof (Z_div_mod_eq_full res 2).
    pose proof (Z.mod_pos_bound res 2 ltac:(lia)). lia. }
  destruct (decide (roundCloseTime t res = 0)) as [->|Hne]; [done|].
  destruct (roundCloseTime_nearest t Ht ltac:(lia)) as [Hm Hb].
  set (r := roundCloseTime t res) in *.
  pose proof (Z_div_mod_eq_full r res) as Hr.
  assert (0 <= r) by (unfold r, roundCloseTime; case_match; [lia|apply u32_range]).
  rewrite roundCloseTime_eq by lia.
  replace (r + res / 2) with (r / res * res + res / 2) by lia.
  rewrite Z.div_add_l by lia. rewrite (Z.div_small (res / 2)) by lia. lia.
Qed.
End Rounding.

(** The effective close time of a ledger is strictly later than its parent's. *)
Lemma effCloseTime_after_prior t res prior :
  t <> 0 -> 0 <= prior < 2 ^ 32 - 1 -> prior < effCloseTime t res prior.
Proof.
  intros Ht Hp. unfold effCloseTime.
  destruct (Z.eqb_spec t 0); [done|]. rewrite (u32_id (prior + 1)) by lia. lia.
Qed.
