(* ===== verification/DisputedTx.v ===== *)
(** * Disputed transactions

    Models [src/src/xrpld/consensus/DisputedTx.h].  The transaction is kept
    abstract; [votes_] is a finite map from node identifiers.  [yays_] and
    [nays_] are C++ [int]s, the counters are [size_t]; comparisons of the two
    go through the usual conversion to [size_t], written [u64]. *)

From S2P Require Import Prelude ConsensusParms.

Section Dispute.
Context {Tx : Type}.

Record DisputedTx := {
  yays_ : Z;
  nays_ : Z;
  ourVote_ : bool;
  tx_ : Tx;
  votes_ : gmap Z bool;
  currentVoteCounter_ : Z;
  avalancheState_ : AvalancheState;
  avalancheCounter_ : Z;
}.

(** Constructor. *)
Definition newDispute (tx : Tx) (ourVote : bool) : DisputedTx := {|
  yays_ := 0; nays_ := 0; ourVote_ := ourVote; tx_ := tx; votes_ := ∅;
  currentVoteCounter_ := 0; avalancheState_ := init; avalancheCounter_ := 0;
|}.

Definition getOurVote (d : DisputedTx) : bool := ourVote_ d.

Definition setOurVote (o : bool) (d : DisputedTx) : DisputedTx := {|
  yays_ := yays_ d; nays_ := nays_ d; ourVote_ := o; tx_ := tx_ d;
  votes_ := votes_ d; currentVoteCounter_ := currentVoteCounter_ d;
  avalancheState_ := avalancheState_ d; avalancheCounter_ := avalancheCounter_ d;
|}.

Definition withVotes (y n : Z) (v : gmap Z bool) (d : DisputedTx) : DisputedTx := {|
  yays_ := y; nays_ := n; ourVote_ := ourVote_ d; tx_ := tx_ d;
  votes_ := v; currentVoteCounter_ := currentVoteCounter_ d;
  avalancheState_ := avalancheState_ d; avalancheCounter_ := avalancheCounter_ d;
|}.

Definition withProgress (o : bool) (vc : Z) (s : AvalancheState) (ac : Z)
    (d : DisputedTx) : DisputedTx := {|
  yays_ := yays_ d; nays_ := nays_ d; ourVote_ := o; tx_ := tx_ d;
  votes_ := votes_ d; currentVoteCounter_ := vc;
  avalancheState_ := s; avalancheCounter_ := ac;
|}.

Definition stalled (p : ConsensusParms) (proposing : bool) (peersUnchanged : Z)
    (d : DisputedTx) : bool :=
  let currentCutoff := avalancheCutoffs p (avalancheState_ d) in
  let nextCutoff := avalancheCutoffs p (next currentCutoff) in
  if (consensusTime currentCutoff <? consensusTime nextCutoff)
     || (avalancheCounter_ d <? avMIN_ROUNDS p)
  then false
  else if proposing && (currentVoteCounter_ d <? avMIN_ROUNDS p)
  then false
  else if (u64 peersUnchanged <? avSTALLED_ROUNDS p)
          && (proposing && (currentVoteCounter_ d <? avSTALLED_ROUNDS p))
  then false
  else
    let support := (yays_ d + (if proposing && ourVote_ d then 1 else 0)) * 100 in
    let total := nays_ d + yays_ d + (if proposing then 1 else 0) in
    if total =? 0 then false
    else
      let weight := Z.quot support total in
      (minCONSENSUS_PCT p <? u64 weight)
      || (u64 weight <? 100 - minCONSENSUS_PCT p).

(** Returns whether the peer changed its vote, with the new state. *)
Definition setVote (peer : Z) (votesYes : bool) (d : DisputedTx) : bool * DisputedTx :=
  match votes_ d !! peer with
  | None =>
      let v := <[peer := votesYes]> (votes_ d) in
      if votesYes
      then (true, withVotes (yays_ d + 1) (nays_ d) v d)
      else (true, withVotes (yays_ d) (nays_ d + 1) v d)
  | Some old =>
      if votesYes && negb old then
        (true, withVotes (yays_ d + 1) (nays_ d - 1) (<[peer := true]> (votes_ d)) d)
      else if negb votesYes && old then
        (true, withVotes (yays_ d - 1) (nays_ d + 1) (<[peer := false]> (votes_ d)) d)
      else (false, d)
  end.

Definition unVote (peer : Z) (d : DisputedTx) : DisputedTx :=
  match votes_ d !! peer with
  | Some true => withVotes (yays_ d - 1) (nays_ d) (delete peer (votes_ d)) d
  | Some false => withVotes (yays_ d) (nays_ d - 1) (delete peer (votes_ d)) d
  | None => d
  end.

(** Returns whether our vote changed, with the new state. *)
Definition updateVote (percentTime : Z) (proposing : bool) (p : ConsensusParms)
    (d : DisputedTx) : bool * DisputedTx :=
  if ourVote_ d && (nays_ d =? 0) then (false, d)
  else if negb (ourVote_ d) && (yays_ d =? 0) then (false, d)
  else
    let counter := u64 (avalancheCounter_ d + 1) in
    let '(requiredPct, newState) :=
      getNeededWeight p (avalancheState_ d) percentTime counter (avMIN_ROUNDS p) in
    let state' := default (avalancheState_ d) newState in
    let counter' := match newState with Some _ => 0 | None => counter end in
    let newPosition :=
      if proposing then
        let weight :=
          Z.quot (yays_ d * 100 + (if ourVote_ d then 100 else 0))
                 (nays_ d + yays_ d + 1) in
        requiredPct <? u64 weight
      else nays_ d <? yays_ d in
    if Bool.eqb newPosition (ourVote_ d) then
      (false, withProgress (ourVote_ d) (u64 (currentVoteCounter_ d + 1)) state' counter' d)
    else
      (true, withProgress newPosition 0 state' counter' d).

End Dispute.

Arguments DisputedTx : clear implicits.

(** ** The vote tallies *)

Definition ballots (b : bool) (m : gmap Z bool) : Z :=
  Z.of_nat (size (filter (fun kv : Z * bool => kv.2 = b) m)).

Lemma ballots_empty b : ballots b ∅ = 0.
Proof. unfold ballots. by rewrite map_filter_empty, map_size_empty. Qed.

Lemma ballots_insert_new b k v m :
  m !! k = None -> ballots b (<[k := v]> m) = ballots b m + (if Bool.eqb v b then 1 else 0).
Proof.
  intros Hk. unfold ballots. rewrite map_filter_insert; simpl.
  destruct (decide (v = b)) as [->|Hne].
  - rewrite map_size_insert_None, eqb_reflx; [lia|].
    apply map_lookup_filter_None. by left.
  - rewrite delete_id by done. destruct v, b; simpl; try done; lia.
Qed.

Lemma ballots_delete b k v m :
  m !! k = Some v -> ballots b m = ballots b (delete k m) + (if Bool.eqb v b then 1 else 0).
Proof.
  intros Hk. rewrite <- (insert_id m k v Hk) at 1. rewrite <- insert_delete_eq.
  by rewrite ballots_insert_new by apply lookup_delete_eq.
Qed.

Lemma ballots_insert_old b k v w m :
  m !! k = Some w ->
  ballots b (<[k := v]> m)
  = ballots b m - (if Bool.eqb w b then 1 else 0) + (if Bool.eqb v b then 1 else 0).
Proof.
  intros Hk. rewrite <- insert_delete_eq, ballots_insert_new by apply lookup_delete_eq.
  rewrite (ballots_delete b k w m) by done. lia.
Qed.

Lemma ballots_nonneg b m : 0 <= ballots b m.
Proof. unfold ballots. lia. Qed.

Section DisputeFacts.
Context {Tx : Type}.
Implicit Types d : DisputedTx Tx.

(** The tallies count the recorded votes. *)
Definition tallied d : Prop :=
  yays_ d = ballots true (votes_ d) /\ nays_ d = ballots false (votes_ d).

Lemma newDispute_tallied (tx : Tx) o : tallied (newDispute tx o).
Proof. split; symmetry; apply ballots_empty. Qed.

Lemma setVote_tallied peer b d : tallied d -> tallied (setVote peer b d).2.
Proof.
  intros [Hy Hn]. unfold setVote, tallied.
  destruct (votes_ d !! peer) as [old|] eqn:E; destruct b; try destruct old; simpl;
    rewrite ?(ballots_insert_new _ _ _ _ E), ?(ballots_insert_old _ _ _ _ _ E);
    simpl; lia.
Qed.

Lemma unVote_tallied peer d : tallied d -> tallied (unVote peer d).
Proof.
  intros [Hy Hn]. unfold unVote, tallied.
  destruct (votes_ d !! peer) as [old|] eqn:E; [|done].
  pose proof (ballots_delete true _ _ _ E). pose proof (ballots_delete false _ _ _ E).
  destruct old; simpl in *; lia.
Qed.

Lemma updateVote_votes t pr p d :
  let d' := (updateVote t pr p d).2 in
  votes_ d' = votes_ d /\ yays_ d' = yays_ d /\ nays_ d' = nays_ d /\ tx_ d' = tx_ d.
Proof.
  unfold updateVote. simpl. repeat (case_match; simplify_eq); done.
Qed.

Lemma updateVote_tallied t pr p d : tallied d -> tallied (updateVote t pr p d).2.
Proof.
  unfold tallied. destruct (updateVote_votes t pr p d) as (-> & -> & -> & _). done.
Qed.

(** Every way a dispute evolves during a round. *)
Inductive dispute_step : DisputedTx Tx -> DisputedTx Tx -> Prop :=
| step_setVote peer b d : dispute_step d (setVote peer b d).2
| step_unVote peer d : dispute_step d (unVote peer d)
| step_setOurVote o d : dispute_step d (setOurVote o d)
| step_updateVote t pr p d : dispute_step d (updateVote t pr p d).2.

Lemma dispute_step_tallied d d' : dispute_step d d' -> tallied d -> tallied d'.
Proof. destruct 1; auto using setVote_tallied, unVote_tallied, updateVote_tallied. Qed.

Lemma dispute_steps_tallied d d' : rtc dispute_step d d' -> tallied d -> tallied d'.
Proof. induction 1; eauto using dispute_step_tallied. Qed.

(** A peer's vote is recorded, other peers' votes are untouched, and the
    result tells whether the record changed. *)
Lemma setVote_spec peer b d :
  votes_ (setVote peer b d).2 = <[peer := b]> (votes_ d)
  /\ ((setVote peer b d).1 = true <-> votes_ d !! peer <> Some b).
Proof.
  unfold setVote.
  destruct (votes_ d !! peer) as [[]|] eqn:E; destruct b; simpl;
    rewrite ?insert_id by done; split; try done; naive_solver.
Qed.

Lemma unVote_votes peer d : votes_ (unVote peer d) = delete peer (votes_ d).
Proof.
  unfold unVote. destruct (votes_ d !! peer) as [[]|] eqn:E; simpl; [done..|].
  by rewrite delete_id.
Qed.

(** ** Thresholds *)

Definition shareYes (proposing : bool) d : Z :=
  yays_ d + (if proposing && ourVote_ d then 1 else 0).
Definition shareTotal (proposing : bool) d : Z :=
  nays_ d + yays_ d + (if proposing then 1 else 0).

(** Tallies that a network of fewer than [2^56] peers can produce. *)
Definition sane d : Prop := 0 <= yays_ d < 2 ^ 56 /\ 0 <= nays_ d < 2 ^ 56.

(** When proposing on an open dispute we vote yes exactly when the yes votes,
    ours included, exceed the whole percentage the avalanche state asks for. *)
Lemma updateVote_proposing t d :
  sane d ->
  (if ourVote_ d then nays_ d else yays_ d) <> 0 ->
  let d' := (updateVote t true parms d).2 in
  ourVote_ d' = true <->
  (consensusPct (cutoffs (avalancheState_ d')) + 1) * shareTotal true d
    <= shareYes true d * 100.
Proof.
  intros [Hy Hn] Hopen. unfold updateVote, shareTotal, shareYes.
  assert (ourVote_ d && (nays_ d =? 0) = false) as ->.
  { destruct (ourVote_ d); simpl; [by apply Z.eqb_neq|done]. }
  assert (negb (ourVote_ d) && (yays_ d =? 0) = false) as ->.
  { destruct (ourVote_ d); simpl; [done|by apply Z.eqb_neq]. }
  pose proof (getNeededWeight_pct (avalancheState_ d) t
    (u64 (avalancheCounter_ d + 1)) (avMIN_ROUNDS parms)) as Hpct.
  destruct (getNeededWeight _ _ _ _ _) as [req ns] eqn:E. unfold stateAfter in Hpct. simpl in Hpct.
  set (s' := default (avalancheState_ d) ns) in *.
  pose proof (cutoffs_pct_range s') as Hr.
  set (a := yays_ d * 100 + (if ourVote_ d then 100 else 0)).
  assert (0 <= a < 2 ^ 64) as Ha by (unfold a; destruct (ourVote_ d); lia).
  pose proof (quot_range a (nays_ d + yays_ d + 1) ltac:(lia) ltac:(lia)).
  rewrite u64_id by lia.
  pose proof (quot_gt a (nays_ d + yays_ d + 1) req ltac:(lia) ltac:(lia) ltac:(lia)) as Hq.
  replace ((yays_ d + (if true && ourVote_ d then 1 else 0)) * 100) with a
    by (unfold a; destruct (ourVote_ d); simpl; lia).
  destruct (Z.ltb_spec req (Z.quot a (nays_ d + yays_ d + 1)));
    destruct (ourVote_ d) eqn:Ho; simpl; rewrite ?Ho; fold s'; rewrite <- Hpct;
    split; (done || lia).
Qed.

(** When observing we follow the majority of the peers. *)
Lemma updateVote_observing t d :
  (if ourVote_ d then nays_ d else yays_ d) <> 0 ->
  ourVote_ (updateVote t false parms d).2 = (nays_ d <? yays_ d).
Proof.
  intros Hopen. unfold updateVote.
  destruct (ourVote_ d) eqn:Ho; simpl;
    (destruct (Z.eqb_spec (nays_ d) 0) || destruct (Z.eqb_spec (yays_ d) 0)); try done;
    (destruct (Z.eqb_spec (yays_ d) 0) || destruct (Z.eqb_spec (nays_ d) 0)); try done;
    destruct (getNeededWeight _ _ _ _ _); destruct (nays_ d <? yays_ d); simpl; done.
Qed.

(** A dispute is only reported stalled in the last avalanche state, after the
    minimum number of rounds there, and when more than two thirds of the votes
    are on one side. *)
Lemma stalled_supermajority pr n d :
  sane d -> stalled parms pr n d = true ->
  avalancheState_ d = stuck /\ 2 <= avalancheCounter_ d
  /\ (68 * shareTotal pr d <= shareYes pr d * 100
      \/ shareYes pr d * 100 < 33 * shareTotal pr d).
Proof.
  intros [Hy Hn]. unfold stalled. fold (shareYes pr d) (shareTotal pr d).
  assert (0 <= shareYes pr d < 2 ^ 57) as HS
    by (unfold shareYes; destruct (pr && ourVote_ d); lia).
  assert (0 <= shareTotal pr d) as HT by (unfold shareTotal; destruct pr; lia).
  simpl avalancheCutoffs. simpl avMIN_ROUNDS. simpl minCONSENSUS_PCT.
  destruct (_ || _) eqn:E1; [done|]. repeat (case_match; [done|]).
  intros Hfin. b2p.
  assert (avalancheState_ d = stuck) as Hst
    by (destruct (avalancheState_ d); simpl in *; (done || lia)).
  split; [done|]. split; [lia|].
  pose proof (quot_range (shareYes pr d * 100) (shareTotal pr d) ltac:(lia) ltac:(lia)).
  rewrite u64_id in Hfin by lia.
  destruct Hfin as [Hfin|Hfin]; b2p.
  - left. apply quot_gt in Hfin; lia.
  - right. apply quot_lt in Hfin; lia.
Qed.

(** ** Avalanche progress *)

Lemma updateVote_avalanche_mono t pr d :
  avRank (avalancheState_ d)
  <= avRank (avalancheState_ (updateVote t pr parms d).2)
  <= avRank (avalancheState_ d) + 1.
Proof.
  unfold updateVote. repeat (case_match; [simpl; lia|]).
  pose proof (getNeededWeight_step (avalancheState_ d) t
    (u64 (avalancheCounter_ d + 1)) (avMIN_ROUNDS parms)) as Hs.
  destruct (getNeededWeight _ _ _ _ _) as [req ns]. unfold stateAfter in Hs. simpl in Hs.
  case_match; simpl; lia.
Qed.

(** Progress measure: two rounds per remaining state. *)
Definition roundsLeft d : Z :=
  2 * (3 - avRank (avalancheState_ d)) - Z.min 1 (avalancheCounter_ d).

Definition contested d : Prop :=
  0 < yays_ d /\ 0 < nays_ d /\ 0 <= avalancheCounter_ d < 2 ^ 62.

Lemma updateVote_progress t pr d :
  200 <= t -> contested d ->
  let d' := (updateVote t pr parms d).2 in
  yays_ d' = yays_ d /\ nays_ d' = nays_ d
  /\ 0 <= avalancheCounter_ d' <= avalancheCounter_ d + 1
  /\ (avalancheState_ d' = stuck \/ roundsLeft d' < roundsLeft d).
Proof.
  intros Ht (Hy & Hn & Hc). unfold updateVote, roundsLeft, getNeededWeight.
  rewrite (proj2 (Z.eqb_neq (nays_ d) 0)), (proj2 (Z.eqb_neq (yays_ d) 0)) by lia.
  rewrite !andb_false_r. rewrite u64_id by lia. simpl avMIN_ROUNDS. simpl avalancheCutoffs.
  assert (forall k, k <= 200 -> (k <=? t) = true) as Hle by (intros; apply Z.leb_le; lia).
  destruct (avalancheState_ d) eqn:Es; simpl; rewrite ?Hle by lia; simpl;
    destruct (Z.leb_spec 2 (avalancheCounter_ d + 1)); simpl;
    repeat case_match; simpl; try rewrite Es; simpl; lia || eauto 6 with lia.
Qed.

End DisputeFacts.
