(* ===== verification/ConsensusRules.v ===== *)
(** * The decision rules of a consensus round

    Models the three functions of [src/src/xrpld/consensus/Consensus.cpp]
    ([shouldCloseLedger], [checkConsensusReached], [checkConsensus]) and
    [participantsNeeded] of [Consensus.h].  Counts are [size_t] and times are
    milliseconds; logging has no effect on the result and is left out. *)

From S2P Require Import Prelude ConsensusParms.

Inductive ConsensusState := No | MovedOn | Expired | Yes.

#[export] Instance ConsensusState_eq_dec : EqDecision ConsensusState.
Proof. solve_decision. Defined.

Definition shouldCloseLedger (anyTransactions : bool)
    (prevProposers proposersClosed proposersValidated : Z)
    (prevRoundTime timeSincePrevClose openTime idleInterval : Z)
    (p : ConsensusParms) : bool :=
  if (prevRoundTime <? -1000) || (600000 <? prevRoundTime)
     || (600000 <? timeSincePrevClose)
  then true
  else if prevProposers / 2 <? u64 (proposersClosed + proposersValidated)
  then true
  else if negb anyTransactions
  then idleInterval <=? timeSincePrevClose
  else if openTime <? ledgerMIN_CLOSE p
  then false
  else if openTime <? Z.quot prevRoundTime 2
  then false
  else true.

Definition checkConsensusReached (agreeing total : Z) (count_self : bool)
    (minConsensusPct : Z) (reachedMax stalled : bool) : bool :=
  if total =? 0 then reachedMax
  else if stalled then true
  else
    let agreeing := if count_self then u64 (agreeing + 1) else agreeing in
    let total := if count_self then u64 (total + 1) else total in
    let currentPercentage := u64 (agreeing * 100) / total in
    minConsensusPct <=? currentPercentage.

Definition checkConsensus
    (prevProposers currentProposers currentAgree currentFinished : Z)
    (previousAgreeTime currentAgreeTime : Z) (stalled : bool)
    (p : ConsensusParms) (proposing : bool) : ConsensusState :=
  if currentAgreeTime <=? ledgerMIN_CONSENSUS p then No
  else if (currentProposers <? u64 (prevProposers * 3) / 4)
          && (currentAgreeTime <? previousAgreeTime + ledgerMIN_CONSENSUS p)
  then No
  else if checkConsensusReached currentAgree currentProposers proposing
            (minCONSENSUS_PCT p) (ledgerMAX_CONSENSUS p <? currentAgreeTime) stalled
  then Yes
  else if checkConsensusReached currentFinished currentProposers false
            (minCONSENSUS_PCT p) (ledgerMAX_CONSENSUS p <? currentAgreeTime) false
  then MovedOn
  else
    let maxAgreeTime := previousAgreeTime * ledgerABANDON_CONSENSUS_FACTOR p in
    let limit :=
      (* std::clamp *)
      if maxAgreeTime <? ledgerMAX_CONSENSUS p then ledgerMAX_CONSENSUS p
      else if ledgerABANDON_CONSENSUS p <? maxAgreeTime then ledgerABANDON_CONSENSUS p
      else maxAgreeTime in
    if limit <? currentAgreeTime then Expired else No.

Definition participantsNeeded (participants percent : Z) : Z :=
  let result := Z.quot (participants * percent + Z.quot percent 2) 100 in
  if result =? 0 then 1 else result.

(** ** Reaching consensus *)

(** Counts a network of fewer than [2^56] nodes can produce. *)
Definition count (n : Z) : Prop := 0 <= n < 2 ^ 56.

(** The whole percentage test is the exact fraction test. *)
Lemma checkConsensusReached_fraction a t (self : bool) pct mx :
  count a -> count t -> t <> 0 -> 0 <= pct ->
  let s : Z := if self then 1 else 0 in
  checkConsensusReached a t self pct mx false = true <->
  pct * (t + s) <= (a + s) * 100.
Proof.
  unfold count. intros Ha Ht Hnz Hp. unfold checkConsensusReached.
  rewrite (proj2 (Z.eqb_neq t 0)) by done. cbv iota.
  destruct self; simpl; rewrite ?u64_id by (rewrite ?u64_id; lia);
    rewrite Z.leb_le;
    match goal with |- context [?x / ?y] =>
      pose proof (Z_div_mod_eq_full x y);
      pose proof (Z.mod_pos_bound x y ltac:(lia)) end; nia.
Qed.

(** Two groups of proposers that both reach the threshold share a member:
    with a threshold above one half no two different positions can both be
    declared to have consensus among the same proposers. *)
Lemma checkConsensusReached_intersect a b t pct mx mx' :
  count a -> count b -> count t -> t <> 0 -> 50 < pct ->
  checkConsensusReached a t false pct mx false = true ->
  checkConsensusReached b t false pct mx' false = true ->
  t < a + b.
Proof.
  intros Ha Hb Ht Hnz Hp H1 H2.
  apply (checkConsensusReached_fraction a t false) in H1; [|done..|lia].
  apply (checkConsensusReached_fraction b t false) in H2; [|done..|lia].
  unfold count in *. nia.
Qed.

(** The exact circumstances in which [checkConsensus] answers [Yes]. *)
Lemma checkConsensus_Yes pp cp ca cf pt ct st (self : bool) :
  count pp -> count cp -> count ca ->
  checkConsensus pp cp ca cf pt ct st parms self = Yes <->
  1950 < ct
  /\ (pp * 3 / 4 <= cp \/ pt + 1950 <= ct)
  /\ (cp = 0 /\ 15000 < ct
      \/ cp <> 0 /\ (st = true \/
           67 * (cp + if self then 1 else 0) <= (ca + if self then 1 else 0) * 100)).
Proof.
  intros Hpp Hcp Hca. unfold checkConsensus.
  rewrite (u64_id (pp * 3)) by (unfold count in *; lia). simpl ledgerMIN_CONSENSUS.
  simpl ledgerMAX_CONSENSUS. simpl minCONSENSUS_PCT.
  destruct (Z.leb_spec ct 1950); [split; [done|lia]|].
  destruct (_ && _) eqn:E; [b2p; split; [done|lia]|].
  assert (pp * 3 / 4 <= cp \/ pt + 1950 <= ct) by (b2p; destruct E; b2p; lia).
  assert (checkConsensusReached ca cp self 67 (15000 <? ct) st = true <->
    (cp = 0 /\ 15000 < ct
      \/ cp <> 0 /\ (st = true \/
           67 * (cp + if self then 1 else 0) <= (ca + if self then 1 else 0) * 100))) as Hr.
  { destruct (decide (cp = 0)) as [->|Hnz].
    - unfold checkConsensusReached. simpl. rewrite Z.ltb_lt. naive_solver lia.
    - destruct st.
      + unfold checkConsensusReached. rewrite (proj2 (Z.eqb_neq cp 0)) by done. naive_solver.
      + rewrite (checkConsensusReached_fraction ca cp self) by (done || lia).
        naive_solver. }
  destruct (checkConsensusReached ca cp self _ _ st).
  - split; [|done]. intros _. split; [lia|]. split; [done|]. by apply Hr.
  - split; [repeat case_match; done|]. intros (_ & _ & H'). by apply Hr in H'.
Qed.

Lemma checkConsensus_Yes_agreement pp cp ca cf pt ct st (self : bool) :
  count cp -> count ca -> checkConsensus pp cp ca cf pt ct st parms self = Yes ->
  cp = 0 \/ st = true \/ 67 * (cp + if self then 1 else 0) <= (ca + if self then 1 else 0) * 100.
Proof.
  intros Hcp Hca. unfold checkConsensus. destruct (_ <=? _); [done|]. destruct (_ && _); [done|].
  destruct (checkConsensusReached ca cp self _ _ st) eqn:E; [intros _|repeat case_match; done].
  destruct (decide (cp = 0)); [by left|right]. destruct st; [by left|right].
  by apply (checkConsensusReached_fraction ca cp self) in E.
Qed.

(** A round that has lasted longer than the hard limit is always concluded,
    unless too few of the previous proposers have shown up. *)
Lemma checkConsensus_concludes pp cp ca cf pt ct st (self : bool) :
  120000 < ct ->
  u64 (pp * 3) / 4 <= cp \/ pt + 1950 <= ct ->
  checkConsensus pp cp ca cf pt ct st parms self <> No.
Proof.
  intros Hct Hp. unfold checkConsensus. simpl ledgerMIN_CONSENSUS.
  simpl ledgerMAX_CONSENSUS. simpl ledgerABANDON_CONSENSUS.
  destruct (Z.leb_spec ct 1950); [lia|].
  destruct (_ && _) eqn:E; [b2p; lia|].
  repeat (case_match; [done|]). b2p. repeat case_match; b2p; lia.
Qed.

(** A round never expires before the soft limit, nor before ten times the
    duration of the previous round while that is under the hard limit. *)
Lemma checkConsensus_not_expired_early pp cp ca cf pt ct st (self : bool) :
  checkConsensus pp cp ca cf pt ct st parms self = Expired ->
  15000 < ct /\ Z.min (pt * 10) 120000 < ct.
Proof.
  unfold checkConsensus. simpl ledgerMAX_CONSENSUS. simpl ledgerABANDON_CONSENSUS.
  simpl ledgerABANDON_CONSENSUS_FACTOR.
  repeat (case_match; try done); b2p; intros _; lia.
Qed.

(** ** Closing the open ledger *)

(** A ledger with transactions and ordinary timings is closed no earlier than
    the minimum open time and half the previous round, unless more than half
    of the previous proposers already closed or validated it. *)
Lemma shouldCloseLedger_busy pp pc pv prt ts ot idle :
  -1000 <= prt <= 600000 -> ts <= 600000 ->
  shouldCloseLedger true pp pc pv prt ts ot idle parms = true <->
  pp / 2 < u64 (pc + pv) \/ (2000 <= ot /\ Z.quot prt 2 <= ot).
Proof.
  intros H1 H2. unfold shouldCloseLedger. simpl ledgerMIN_CLOSE.
  destruct (_ || _) eqn:E; [b2p; destruct E as [E|E]; b2p; [destruct E; b2p; lia|lia]|].
  destruct (Z.ltb_spec (pp / 2) (u64 (pc + pv))); [naive_solver|]. simpl.
  destruct (Z.ltb_spec ot 2000); [naive_solver lia|].
  destruct (Z.ltb_spec ot (Z.quot prt 2)); naive_solver lia.
Qed.

(** An idle ledger is closed at the end of the idle interval. *)
Lemma shouldCloseLedger_idle pp pc pv prt ts ot idle :
  -1000 <= prt <= 600000 -> ts <= 600000 -> u64 (pc + pv) <= pp / 2 ->
  shouldCloseLedger false pp pc pv prt ts ot idle parms = true <-> idle <= ts.
Proof.
  intros H1 H2 H3. unfold shouldCloseLedger.
  destruct (_ || _) eqn:E; [b2p; destruct E as [E|E]; b2p; [destruct E; b2p; lia|lia]|].
  destruct (Z.ltb_spec (pp / 2) (u64 (pc + pv))); [lia|]. simpl. apply Z.leb_le.
Qed.

(** ** Participation thresholds *)

Lemma participantsNeeded_bounds n pct :
  0 <= n -> 0 <= pct <= 100 ->
  1 <= participantsNeeded n pct <= Z.max 1 n
  /\ Z.abs (100 * participantsNeeded n pct - n * pct) <= 100.
Proof.
  intros Hn Hp. unfold participantsNeeded.
  rewrite (Z.quot_div_nonneg pct 2) by lia.
  pose proof (Z_div_mod_eq_full pct 2). pose proof (Z.mod_pos_bound pct 2 ltac:(lia)).
  assert (0 <= n * pct) by nia.
  set (x := n * pct + pct / 2) in *.
  rewrite Z.quot_div_nonneg by (unfold x; lia).
  pose proof (Z_div_mod_eq_full x 100). pose proof (Z.mod_pos_bound x 100 ltac:(lia)).
  destruct (Z.eqb_spec (x / 100) 0) as [E|E]; unfold x in *; nia.
Qed.
