(* ===== verification/RuleProperties.v ===== *)
(** * Properties of the decision rules

    What the pure rules of a round guarantee: the tallies and thresholds of a
    disputed transaction, the test for consensus, the decisions to close and to
    give up, the close time and the aged containers. *)

From S2P Require Import Prelude AgedMap ConsensusParms LedgerTiming DisputedTx ConsensusRules.

(** The tallies of a dispute are exact.  Starting from a new dispute, however
    peers vote, change and withdraw their votes and however we revise ours,
    [yays_] and [nays_] are the numbers of recorded yes and no votes. *)
Theorem dispute_tallies_exact {Tx} (tx : Tx) (ours : bool) (d : DisputedTx Tx)
    (Hsteps : rtc dispute_step (newDispute tx ours) d) :
  yays_ d = ballots true (votes_ d) /\ nays_ d = ballots false (votes_ d).
Proof. exact (dispute_steps_tallied _ _ Hsteps (newDispute_tallied tx ours)). Qed.

(** How we vote on a contested transaction.  A proposer votes yes exactly
    when the yes votes, its own included, exceed the percentage of the avalanche
    state reached; an observer follows the majority of the peers. *)
Theorem updateVote_rule {Tx} (percentTime : Z) (d : DisputedTx Tx)
    (Hsane : sane d) (Hopen : (if ourVote_ d then nays_ d else yays_ d) <> 0) :
  let d' := (updateVote percentTime true parms d).2 in
  (ourVote_ d' = true <->
   (consensusPct (cutoffs (avalancheState_ d')) + 1) * shareTotal true d <= shareYes true d * 100)
  /\ ourVote_ (updateVote percentTime false parms d).2 = (nays_ d <? yays_ d).
Proof. split; [by apply updateVote_proposing|by apply updateVote_observing]. Qed.

(** A dispute is reported stalled only when nothing is left to hope for: it
    is in the last avalanche state for the minimum number of rounds and more
    than two thirds of the votes are on one side. *)
Theorem stalled_only_when_decided {Tx} (proposing : bool) (peersUnchanged : Z) (d : DisputedTx Tx)
    (Hsane : sane d) (Hstalled : stalled parms proposing peersUnchanged d = true) :
  avalancheState_ d = stuck /\ 2 <= avalancheCounter_ d
  /\ (68 * shareTotal proposing d <= shareYes proposing d * 100
      \/ shareYes proposing d * 100 < 33 * shareTotal proposing d).
Proof. by apply stalled_supermajority with peersUnchanged. Qed.

Lemma updateVote_stuck {Tx} t pr (d : DisputedTx Tx) :
  avalancheState_ d = stuck -> avalancheState_ (updateVote t pr parms d).2 = stuck.
Proof.
  intros E. pose proof (updateVote_avalanche_mono t pr d) as [Hm _]. rewrite E in Hm.
  destruct (avalancheState_ (updateVote t pr parms d).2); cbn in Hm; lia || done.
Qed.

Lemma avRank_range s : 0 <= avRank s <= 3.
Proof. destruct s; cbn; lia. Qed.

Lemma updateVote_rounds {Tx} t pr k : forall d : DisputedTx Tx,
  200 <= t -> 0 < yays_ d -> 0 < nays_ d ->
  0 <= avalancheCounter_ d -> avalancheCounter_ d + Z.of_nat k < 2 ^ 62 ->
  let d' := Nat.iter k (fun d => (updateVote t pr parms d).2) d in
  0 < yays_ d' /\ 0 < nays_ d' /\ 0 <= avalancheCounter_ d' <= avalancheCounter_ d + Z.of_nat k /\
  (avalancheState_ d' = stuck \/ roundsLeft d' + Z.of_nat k <= roundsLeft d).
Proof.
  induction k as [|k IH]; intros d Ht Hy Hn Hc Hb; cbv zeta.
  { cbn. split_and!; try done; [lia|]. right. lia. }
  rewrite Nat.iter_succ. destruct (IH d) as (Hy' & Hn' & Hc' & Hs); [done..|lia|].
  set (d1 := Nat.iter k _ d) in *.
  destruct (updateVote_progress t pr d1 Ht) as (E1 & E2 & Hc1 & Hp); [split_and!; lia|].
  split_and!; [lia..|]. destruct Hs as [Hs|Hs]; [left; by apply updateVote_stuck|].
  destruct Hp as [Hp|Hp]; [by left|right; lia].
Qed.

(** A contested dispute does not avoid the last avalanche state: when the
    round has lasted twice as long as the one before, six updates lead any
    dispute there, whatever we vote. *)
Theorem dispute_reaches_stuck {Tx} (percentTime : Z) (proposing : bool) (d : DisputedTx Tx)
    (Htime : 200 <= percentTime) (Hcontested : 0 < yays_ d /\ 0 < nays_ d)
    (Hcounter : 0 <= avalancheCounter_ d < 2 ^ 61) :
  avalancheState_ (Nat.iter 6 (fun d => (updateVote percentTime proposing parms d).2) d) = stuck.
Proof.
  pose proof (updateVote_rounds percentTime proposing 6 d ltac:(lia) ltac:(lia) ltac:(lia)
    ltac:(lia) ltac:(lia)) as Hr.
  cbv zeta in Hr. revert Hr. generalize (Nat.iter 6 (fun d => (updateVote percentTime proposing parms d).2) d).
  intros d' (_ & _ & Hc & [Hs|Hs]); [done|]. unfold roundsLeft in Hs.
  pose proof (avRank_range (avalancheState_ d')). pose proof (avRank_range (avalancheState_ d)).
  destruct (avalancheState_ d') eqn:E; cbn in *; lia || done.
Qed.

(** No two positions can have consensus.  The test of [checkConsensusReached]
    is exactly the fraction [pct] of the participants, and with a threshold above
    one half two groups of proposers that both pass it have a member in common. *)
Theorem consensus_is_unique (a b t pct : Z) (self mx mx' : bool)
    (Ha : count a) (Hb : count b) (Ht : count t) (Hpos : t <> 0) (Hpct : 50 < pct) :
  (checkConsensusReached a t self pct mx false = true <->
     pct * (t + if self then 1 else 0) <= (a + if self then 1 else 0) * 100) /\
  (checkConsensusReached a t false pct mx false = true ->
   checkConsensusReached b t false pct mx' false = true -> t < a + b).
Proof.
  split; [apply checkConsensusReached_fraction; done || lia|].
  by apply checkConsensusReached_intersect.
Qed.

(** When [checkConsensus] decides.  [Yes] needs the minimum time, enough
    proposers or patience, and then 67 percent agreement, stalled disputes or
    nobody to agree with for 15 seconds; a round past two minutes that is not
    waiting for proposers is always concluded; and a round does not expire
    before 15 seconds and ten times the previous round, up to two minutes. *)
Theorem checkConsensus_decides (pp cp ca cf pt ct : Z) (st self : bool)
    (Hpp : count pp) (Hcp : count cp) (Hca : count ca) :
  (checkConsensus pp cp ca cf pt ct st parms self = Yes <->
   1950 < ct /\ (pp * 3 / 4 <= cp \/ pt + 1950 <= ct) /\
   (cp = 0 /\ 15000 < ct \/
    cp <> 0 /\ (st = true \/
      67 * (cp + if self then 1 else 0) <= (ca + if self then 1 else 0) * 100))) /\
  (120000 < ct -> u64 (pp * 3) / 4 <= cp \/ pt + 1950 <= ct ->
   checkConsensus pp cp ca cf pt ct st parms self <> No) /\
  (checkConsensus pp cp ca cf pt ct st parms self = Expired ->
   15000 < ct /\ Z.min (pt * 10) 120000 < ct).
Proof.
  split; [by apply checkConsensus_Yes|].
  split; [apply checkConsensus_concludes|apply checkConsensus_not_expired_early].
Qed.

(** When the open ledger is closed, with ordinary timings: a ledger with
    transactions after the minimum open time and half the previous round, or
    when more than half of the previous proposers are ahead; an idle ledger, if
    they are not, at the end of the idle interval. *)
Theorem shouldCloseLedger_rule (pp pc pv prt ts ot idle : Z)
    (Hround : -1000 <= prt <= 600000) (Hclose : ts <= 600000) :
  (shouldCloseLedger true pp pc pv prt ts ot idle parms = true <->
   pp / 2 < u64 (pc + pv) \/ (2000 <= ot /\ Z.quot prt 2 <= ot)) /\
  (u64 (pc + pv) <= pp / 2 ->
   shouldCloseLedger false pp pc pv prt ts ot idle parms = true <-> idle <= ts).
Proof. split; [by apply shouldCloseLedger_busy|intros ?; by apply shouldCloseLedger_idle]. Qed.

(** The close time resolution stays one of the six allowed ones and moves by
    at most one place: to a coarser one only after a disagreement, to a finer
    one only after an agreement and at every eighth ledger. *)
Theorem timeResolution_step (previous : Z) (agree : bool) (ledgerSeq : Z) (i : nat)
    (Hallowed : ledgerPossibleTimeResolutions !! i = Some previous) :
  exists j, ledgerPossibleTimeResolutions !! j =
              Some (getNextLedgerTimeResolution previous agree ledgerSeq)
    /\ (j = i \/ (agree = false /\ j = S i) \/ (agree = true /\ ledgerSeq mod 8 = 0 /\ i = S j)).
Proof. by apply getNextLedgerTimeResolution_adjacent. Qed.

(** Rounding a close time gives the nearest multiple of the resolution,
    rounding twice changes nothing, later times are not rounded to earlier
    ones; and the effective close time of a ledger is later than its parent's. *)
Theorem closeTime_rounding (res t t' prior : Z)
    (Hres : 0 < res < 2 ^ 32) (Ht : 0 < t <= t') (Hfit : t' + res < 2 ^ 32)
    (Hprior : 0 <= prior < 2 ^ 32 - 1) :
  roundCloseTime t res mod res = 0 /\
  roundCloseTime t res <= t + res / 2 < roundCloseTime t res + res /\
  roundCloseTime (roundCloseTime t res) res = roundCloseTime t res /\
  roundCloseTime t res <= roundCloseTime t' res /\
  prior < effCloseTime t res prior.
Proof.
  assert (res / 2 <= res) by (apply Z.div_le_upper_bound; lia).
  pose proof (roundCloseTime_nearest res Hres t ltac:(lia) ltac:(lia)) as [? ?].
  split_and!; try done; try lia.
  - apply roundCloseTime_idemp; lia.
  - apply roundCloseTime_mono; lia.
  - apply effCloseTime_after_prior; lia.
Qed.

(** An aged container expires exactly the entries that are too old: a value
    survives [expire] if and only if its entry was inserted or touched after the
    limit, and the container stays ordered by age with unique keys. *)
Theorem expire_exact {K V} `{EqDecision K} (now limit : Z) (k : K) (c : list (element K V))
    (Hok : aged_ok now c) :
  aged_ok now (aged_expire limit c) /\
  aged_value k (aged_expire limit c) =
  match aged_find k c with
  | Some e => if elem_when e <=? limit then None else Some (elem_value e)
  | None => None
  end.
Proof. split; [by apply aged_expire_ok|by apply aged_value_expire with now]. Qed.

(** ** Witnesses *)

Module RuleExample.

(** A dispute with three yes and two no votes, and one vote withdrawn. *)
Definition contested : DisputedTx Z :=
  unVote 6 (setVote 6 true (setVote 5 false (setVote 4 false (setVote 3 true
    (setVote 2 true (setVote 1 true (newDispute 0 true)).2).2).2).2).2).2.

(** In the last state, with the votes nine to one. *)
Definition decided : DisputedTx Z := {|
  yays_ := 9; nays_ := 1; ourVote_ := true; tx_ := 0; votes_ := ∅;
  currentVoteCounter_ := 5; avalancheState_ := stuck; avalancheCounter_ := 3 |}.

End RuleExample.
Import RuleExample.

Lemma dispute_tallies_exact_witness :
  yays_ contested = 3 /\ yays_ contested = ballots true (votes_ contested).
Proof.
  split; [reflexivity|].
  apply (dispute_tallies_exact 0 true contested).
  repeat (eapply rtc_r; [|constructor]). reflexivity.
Defined.

Lemma updateVote_rule_witness :
  ourVote_ (updateVote 10 true parms contested).2 = true /\
  ourVote_ (updateVote 10 false parms contested).2 = (nays_ contested <? yays_ contested).
Proof.
  split; [reflexivity|].
  apply (updateVote_rule 10 contested); [split; vm_compute; done|done].
Defined.

Lemma stalled_only_when_decided_witness :
  stalled parms true 4 decided = true /\ avalancheState_ decided = stuck.
Proof.
  split; [reflexivity|].
  apply (stalled_only_when_decided true 4 decided); [split; cbn; lia|reflexivity].
Defined.

Lemma dispute_reaches_stuck_witness :
  avalancheState_ (Nat.iter 6 (fun d => (updateVote 200 true parms d).2) contested) = stuck.
Proof. apply (dispute_reaches_stuck 200 true contested); [lia|split; reflexivity|vm_compute; done]. Defined.

Lemma consensus_is_unique_witness :
  checkConsensusReached 7 10 false 67 false false = true /\
  (checkConsensusReached 7 10 false 67 false false = true <-> 67 * (10 + 0) <= (7 + 0) * 100).
Proof.
  split; [reflexivity|].
  apply (consensus_is_unique 7 7 10 67 false false false); unfold count; lia.
Defined.

Lemma checkConsensus_decides_witness :
  checkConsensus 10 10 7 0 4000 3000 false parms true = Yes /\
  (120000 < 130000 -> u64 (10 * 3) / 4 <= 10 \/ 4000 + 1950 <= 130000 ->
   checkConsensus 10 10 3 0 4000 130000 false parms true <> No).
Proof.
  split; [reflexivity|].
  apply (checkConsensus_decides 10 10 3 0 4000 130000 false true); unfold count; lia.
Defined.

Lemma shouldCloseLedger_rule_witness :
  shouldCloseLedger true 10 2 2 4000 5000 2500 15000 parms = true /\
  (u64 (2 + 2) <= 10 / 2 ->
   shouldCloseLedger false 10 2 2 4000 5000 2500 15000 parms = true <-> 15000 <= 5000).
Proof.
  split; [reflexivity|].
  apply (shouldCloseLedger_rule 10 2 2 4000 5000 2500 15000); lia.
Defined.

Lemma timeResolution_step_witness :
  getNextLedgerTimeResolution 30 false 5 = 60 /\
  exists j, ledgerPossibleTimeResolutions !! j = Some (getNextLedgerTimeResolution 30 false 5)
    /\ (j = 2%nat \/ (false = false /\ j = 3%nat) \/ (false = true /\ 5 mod 8 = 0 /\ 2%nat = S j)).
Proof.
  split; [reflexivity|]. apply (timeResolution_step 30 false 5 2). reflexivity.
Defined.

Lemma closeTime_rounding_witness :
  roundCloseTime 1016 30 = 1020 /\ 1050 < effCloseTime 1016 30 1050.
Proof. split; [reflexivity|]. apply (closeTime_rounding 30 1016 1016 1050); lia. Defined.

Lemma expire_exact_witness :
  let c := aged_index 20 0 2 (aged_index 10 0 1 []) in
  aged_value 1 (aged_expire 15 c) = None /\
  aged_ok 20 (aged_expire 15 c) /\
  aged_value 2 (aged_expire 15 c) =
  match aged_find 2 c with
  | Some e => if elem_when e <=? 15 then None else Some (elem_value e)
  | None => None
  end.
Proof.
  intros c. split; [reflexivity|]. apply (expire_exact 20 15 2 c).
  apply aged_index_ok, aged_ok_later with 10; [|lia]. apply aged_index_ok, aged_ok_nil.
Defined.
