(* ===== verification/LedgerTrie.v ===== *)
(** * The ancestry trie of validated ledgers

    Models [src/src/xrpld/consensus/LedgerTrie.h].  The template parameter
    [Ledger] is the class [LedgerOps]; what the header's comment requires of it
    is [LedgerLaws].  A [Node] owns its children; a [Node*] is a path of child
    indices from the root, so that following [parent] is dropping the last
    index.  Support counts are [uint32_t]. *)

From S2P Require Import Prelude.

(** ** The ledger type the trie is instantiated with *)

Class LedgerOps (L : Type) := {
  seq : L -> Z;                  (* seq() *)
  lid : L -> Z;                  (* id() *)
  anc : L -> Z -> Z;             (* operator[] *)
  mismatch : L -> L -> Z;
  genesis : L;                   (* Ledger(MakeGenesis{}) *)
}.

(** The requirements stated in the comment on [LedgerTrie]: sequence numbers
    fit, the genesis ledger prefixes every ledger, ledgers that share an
    ancestor share all earlier ones, identifiers are unique, and [mismatch] is
    the first sequence at which two ledgers can differ. *)
Class LedgerLaws (L : Type) `{LedgerOps L} : Prop := {
  seq_range : forall l : L, 0 <= seq l < 2 ^ 32 - 1;
  seq_genesis : seq genesis = 0;
  lid_anc : forall l : L, lid l = anc l (seq l);
  anc_genesis : forall l : L, anc l 0 = anc genesis 0;
  anc_history : forall (a b : L) s p,
    0 <= p <= s -> s <= seq a -> s <= seq b -> anc a s = anc b s -> anc a p = anc b p;
  anc_unique : forall (a b : L) s s',
    0 <= s <= seq a -> 0 <= s' <= seq b -> anc a s = anc b s' -> s = s';
  mismatch_range : forall a b : L, 1 <= mismatch a b <= Z.min (seq a) (seq b) + 1;
  mismatch_spec : forall (a b : L) s,
    0 <= s <= Z.min (seq a) (seq b) -> (s < mismatch a b <-> anc a s = anc b s);
}.

Section Trie.
Context {L : Type} `{LedgerOps L}.

(** ** Spans *)

Record SpanTip := { tipSeq : Z; tipID : Z; tipLedger : L }.

Definition tip_ancestor (t : SpanTip) (s : Z) : Z := anc (tipLedger t) s.

(** The half-open interval [[start,end)] of the ancestry of a ledger. *)
Record Span := { start_ : Z; end_ : Z; ledger_ : L }.

Definition span_genesis : Span := {| start_ := 0; end_ := 1; ledger_ := genesis |}.
Definition span_of (l : L) : Span :=
  {| start_ := 0; end_ := u32 (seq l + 1); ledger_ := l |}.

Definition clamp (sp : Span) (val : Z) : Z := Z.min (Z.max (start_ sp) val) (end_ sp).

Definition sub (sp : Span) (from to : Z) : option Span :=
  let newFrom := clamp sp from in
  let newTo := clamp sp to in
  if newFrom <? newTo
  then Some {| start_ := newFrom; end_ := newTo; ledger_ := ledger_ sp |}
  else None.

Definition span_from (sp : Span) (spot : Z) : option Span := sub sp spot (end_ sp).
Definition span_before (sp : Span) (spot : Z) : option Span := sub sp (start_ sp) spot.
Definition startID (sp : Span) : Z := anc (ledger_ sp) (start_ sp).
Definition diff (sp : Span) (o : L) : Z := clamp sp (mismatch (ledger_ sp) o).

Definition tip (sp : Span) : SpanTip :=
  let s := u32 (end_ sp - 1) in
  {| tipSeq := s; tipID := anc (ledger_ sp) s; tipLedger := ledger_ sp |}.

Definition merge (a b : Span) : Span :=
  if end_ a <? end_ b
  then {| start_ := Z.min (start_ a) (start_ b); end_ := end_ b; ledger_ := ledger_ b |}
  else {| start_ := Z.min (start_ a) (start_ b); end_ := end_ a; ledger_ := ledger_ a |}.

(** ** Nodes *)

Inductive Node := mkNode {
  span : Span;
  tipSup : Z;
  branchSup : Z;
  children : list Node;
}.

(** [Node()], [Node(Span)]. *)
Definition node_default : Node := mkNode span_genesis 0 0 [].
Definition node_span (s : Span) : Node := mkNode s 0 0 [].

(** Swap the element at index [i] with the last one, then pop the last one. *)
Definition swap_pop {A} (i : nat) (cs : list A) : list A :=
  match last cs with
  | Some b => take (pred (length cs)) (<[i := b]> cs)
  | None => cs
  end.

Definition set_children (cs : list Node) (n : Node) : Node :=
  mkNode (span n) (tipSup n) (branchSup n) cs.
Definition erase (i : nat) (n : Node) : Node :=
  set_children (swap_pop i (children n)) n.
Definition push_back (c n : Node) : Node := set_children (children n ++ [c]) n.

(** A pointer to a node is its path of child indices. *)
Fixpoint node_at (p : list nat) (n : Node) : option Node :=
  match p with
  | [] => Some n
  | i :: p => c ← children n !! i; node_at p c
  end.

Fixpoint modify (p : list nat) (f : Node -> Node) (n : Node) : Node :=
  match p with
  | [] => f n
  | i :: p => set_children (alter (modify p f) i (children n)) n
  end.

(** The loops [while (node) { node->branchSupport += d; node = node->parent; }]. *)
Definition add_branch (d : Z) (n : Node) : Node :=
  mkNode (span n) (tipSup n) (u32 (branchSup n + d)) (children n).
Fixpoint add_branches (p : list nat) (d : Z) (n : Node) : Node :=
  match p with
  | [] => add_branch d n
  | i :: p => add_branch d (set_children (alter (add_branches p d) i (children n)) n)
  end.

Definition add_tip (d : Z) (n : Node) : Node :=
  mkNode (span n) (u32 (tipSup n + d)) (branchSup n) (children n).

(** ** The trie *)

Record LedgerTrie := { root : Node; seqSupport : gmap Z Z }.

Definition empty_trie : LedgerTrie := {| root := node_default; seqSupport := ∅ |}.

(** [find]: the node with the longest common ancestry and the first sequence
    that differs. *)
Fixpoint find (ledger : L) (curr : Node) : list nat * Z :=
  let pos := diff (span curr) ledger in
  if pos =? end_ (span curr) then
    (fix scan (i : nat) (cs : list Node) : list nat * Z :=
       match cs with
       | [] => ([], pos)
       | child :: cs =>
           if pos <? diff (span child) ledger
           then let '(p, q) := find ledger child in (i :: p, q)
           else scan (S i) cs
       end) 0%nat (children curr)
  else ([], pos).

(** [findByLedgerID]: preorder search for the node whose tip is the ledger. *)
Fixpoint findByLedgerID (i : Z) (parent : Node) : option (list nat) :=
  if i =? tipID (tip (span parent)) then Some []
  else
    (fix scan (k : nat) (cs : list Node) : option (list nat) :=
       match cs with
       | [] => None
       | child :: cs =>
           match findByLedgerID i child with
           | Some p => Some (k :: p)
           | None => scan (S k) cs
           end
       end) 0%nat (children parent).

(** Split [loc] at [diffSeq]: a new node takes over its suffix and children. *)
Definition split_node (diffSeq : Z) (loc : Node) : Node :=
  match span_from (span loc) diffSeq with
  | Some oldSuffix =>
      let newNode := mkNode oldSuffix (tipSup loc) (branchSup loc) (children loc) in
      let prefix := default (span loc) (span_before (span loc) diffSeq) in
      mkNode prefix 0 (branchSup loc) [newNode]
  | None => loc
  end.

Definition insert (ledger : L) (count : Z) (t : LedgerTrie) : LedgerTrie :=
  let '(loc, diffSeq) := find ledger (root t) in
  let root1 := modify loc (split_node diffSeq) (root t) in
  let '(root2, incNode) :=
    match span_from (span_of ledger) diffSeq with
    | Some newSuffix =>
        (modify loc (push_back (node_span newSuffix)) root1,
         loc ++ [default 0%nat (length ∘ children <$> node_at loc root1)])
    | None => (root1, loc)
    end in
  let root3 := modify incNode (add_tip count) root2 in
  let root4 := add_branches incNode count root3 in
  {| root := root4;
     seqSupport :=
       <[seq ledger := u32 (default 0 (seqSupport t !! seq ledger) + count)]>
         (seqSupport t) |}.

(** The compression loop of [remove]; [rp] is the reversed path of [loc]. *)
Fixpoint compress (rp : list nat) (r : Node) : Node :=
  match rp with
  | [] => r
  | i :: rp' =>
      match node_at (rev rp) r with
      | None => r
      | Some loc =>
          if tipSup loc =? 0 then
            match children loc with
            | [] => compress rp' (modify (rev rp') (erase i) r)
            | [child] =>
                let child' := mkNode (merge (span loc) (span child))
                  (tipSup child) (branchSup child) (children child) in
                compress rp' (modify (rev rp') (fun parent => erase i (push_back child' parent)) r)
            | _ => r
            end
          else r
      end
  end.

Definition remove (ledger : L) (count : Z) (t : LedgerTrie) : bool * LedgerTrie :=
  match findByLedgerID (lid ledger) (root t) with
  | None => (false, t)
  | Some loc =>
      match node_at loc (root t) with
      | None => (false, t)
      | Some n =>
          if tipSup n =? 0 then (false, t)
          else
            let count := Z.min count (tipSup n) in
            let root1 := modify loc (add_tip (- count)) (root t) in
            let seqSupport' :=
              match seqSupport t !! seq ledger with
              | Some v =>
                  let v' := u32 (v - count) in
                  if v' =? 0 then delete (seq ledger) (seqSupport t)
                  else <[seq ledger := v']> (seqSupport t)
              | None => seqSupport t
              end in
            let root2 := add_branches loc (- count) root1 in
            (true, {| root := compress (rev loc) root2; seqSupport := seqSupport' |})
      end
  end.

(** ** Queries *)

Definition tipSupport (ledger : L) (t : LedgerTrie) : Z :=
  match findByLedgerID (lid ledger) (root t) ≫= fun p => node_at p (root t) with
  | Some loc => tipSup loc
  | None => 0
  end.

Definition branchSupport (ledger : L) (t : LedgerTrie) : Z :=
  match findByLedgerID (lid ledger) (root t) ≫= fun p => node_at p (root t) with
  | Some loc => branchSup loc
  | None =>
      let '(p, diffSeq) := find ledger (root t) in
      match node_at p (root t) with
      | Some loc =>
          if (seq ledger <? diffSeq) && (seq ledger <? end_ (span loc))
          then branchSup loc
          else 0
      | None => 0
      end
  end.

Definition empty (t : LedgerTrie) : bool := branchSup (root t) =? 0.


(** Consume the entries below [bound]. *)
Fixpoint take_uncommitted (bound : Z) (it : list (Z * Z)) (uncommitted : Z)
    : list (Z * Z) * Z :=
  match it with
  | (k, v) :: it' =>
      if k <? bound then take_uncommitted bound it' (u32 (uncommitted + v))
      else (it, uncommitted)
  | [] => ([], uncommitted)
  end.

(** Advance [nextSeq] along a span. *)
Fixpoint advance (stop branch : Z) (it : list (Z * Z)) (nextSeq uncommitted : Z)
    : list (Z * Z) * Z * Z :=
  if (nextSeq <? stop) && (uncommitted <? branch) then
    match it with
    | (k, v) :: it' =>
        if k <? stop then advance stop branch it' (k + 1) (u32 (uncommitted + v))
        else (it, stop, uncommitted)
    | [] => ([], stop, uncommitted)
    end
  else (it, nextSeq, uncommitted).

(** The order of the [partial_sort]: larger support, then larger start id. *)
Definition keyOf (n : Node) : Z * Z := (branchSup n, startID (span n)).
Definition keyGt (a b : Z * Z) : bool :=
  (b.1 <? a.1) || ((a.1 =? b.1) && (b.2 <? a.2)).

Fixpoint argmax (i : nat) (best : nat * (Z * Z)) (ks : list (Z * Z)) : nat * (Z * Z) :=
  match ks with
  | [] => best
  | k :: ks => argmax (S i) (if keyGt k best.2 then (i, k) else best) ks
  end.

(** The best child and its margin over the runner-up. *)
Definition bestChild (cs : list Node) : option (nat * Z) :=
  match keyOf <$> cs with
  | [] => None
  | [k] => Some (0%nat, k.1)
  | k :: ks =>
      let '(i, best) := argmax 1 (0%nat, k) ks in
      match delete i (k :: ks) with
      | k' :: ks' =>
          let second := (argmax 1 (0%nat, k') ks').2 in
          let margin := u32 (best.1 - second.1) in
          Some (i, if second.2 <? best.2 then u32 (margin + 1) else margin)
      | [] => None
      end
  end.

(** The walk of [getPreferred] from one node down. *)
Fixpoint preferredFrom (largestIssued : Z) (curr : Node)
    : list (Z * Z) -> Z -> SpanTip :=
  let down := preferredFrom largestIssued <$> children curr in
  fun it uncommitted =>
    let nextSeq := u32 (start_ (span curr) + 1) in
    let '(it1, unc1) :=
      take_uncommitted (Z.max nextSeq largestIssued) it uncommitted in
    let '(it2, nextSeq', unc2) :=
      advance (end_ (span curr)) (branchSup curr) it1 nextSeq unc1 in
    if nextSeq' <? end_ (span curr)
    then tip (default (span curr) (span_before (span curr) nextSeq'))
    else
      match bestChild (children curr) with
      | Some (i, margin) =>
          if (unc2 <? margin) || (unc2 =? 0) then
            match down !! i with
            | Some f => f it2 unc2
            | None => tip (span curr)
            end
          else tip (span curr)
      | None => tip (span curr)
      end.

Definition getPreferred (largestIssued : Z) (t : LedgerTrie) : option SpanTip :=
  if empty t then None
  else Some (preferredFrom largestIssued (root t) (entries (seqSupport t)) 0).

(** ** The self-check of the source *)

Fixpoint node_invariants (is_root : bool) (n : Node) : bool :=
  (is_root || negb (tipSup n =? 0) || (2 <=? Z.of_nat (length (children n))))
  && (u64 (tipSup n + zsum (branchSup <$> children n)) =? branchSup n)
  && forallb (node_invariants false) (children n).

Fixpoint expectedSeqSupport (n : Node) (m : gmap Z Z) : gmap Z Z :=
  let m1 :=
    if tipSup n =? 0 then m
    else let s := u32 (end_ (span n) - 1) in
         <[s := u32 (default 0 (m !! s) + tipSup n)]> m in
  foldr expectedSeqSupport m1 (children n).

Definition checkInvariants (t : LedgerTrie) : bool :=
  node_invariants true (root t)
  && bool_decide (expectedSeqSupport (root t) ∅ = seqSupport t).

End Trie.

Arguments SpanTip : clear implicits.
Arguments Span : clear implicits.
Arguments Node : clear implicits.
Arguments LedgerTrie : clear implicits.
