(* ===== verification/LedgerTrieFacts.v ===== *)
(** * Correctness of the ancestry trie: structure

    Well-formedness of the trie, the support it holds as a sum over its nodes,
    and the proof that [insert] and [remove] maintain both. *)

From S2P Require Import Prelude LedgerTrie.

(** ** List surgery used by [erase] *)

Section SwapPop.
Context {A : Type}.
Implicit Types cs : list A.

Lemma swap_pop_snoc i cs x :
  (i < length cs)%nat -> swap_pop i (cs ++ [x]) = <[i := x]> cs.
Proof.
  intros Hi. unfold swap_pop. rewrite last_snoc, length_app. simpl.
  replace (pred (length cs + 1)) with (length cs) by lia.
  rewrite insert_app_l by done. by rewrite take_app_length' by by rewrite length_insert.
Qed.

Lemma list_insert_perm i (x y : A) cs :
  cs !! i = Some y -> <[i := x]> cs ≡ₚ x :: delete i cs.
Proof.
  intros Hi. pose proof (lookup_lt_Some _ _ _ Hi).
  rewrite insert_take_drop by done. rewrite delete_take_drop.
  by rewrite Permutation_middle.
Qed.

Lemma swap_pop_perm i cs y :
  cs !! i = Some y -> y :: swap_pop i cs ≡ₚ cs.
Proof.
  destruct cs as [|b cs _] using rev_ind; intros Hi; [done|].
  destruct (decide (i = length cs)) as [->|Hne].
  - rewrite list_lookup_middle in Hi by done. simplify_eq. unfold swap_pop.
    rewrite last_snoc, length_app. simpl.
    replace (pred (length cs + 1)) with (length cs) by lia.
    rewrite insert_app_r_alt by lia. rewrite Nat.sub_diag. simpl.
    rewrite take_app_length. apply Permutation_cons_append.
  - pose proof (lookup_lt_Some _ _ _ Hi) as Hlt. rewrite length_app in Hlt. simpl in Hlt.
    rewrite lookup_app_l in Hi by lia.
    rewrite swap_pop_snoc by lia. rewrite (list_insert_perm i b y cs Hi).
    rewrite <- Permutation_cons_append.
    transitivity (b :: y :: delete i cs); [apply Permutation_swap|].
    constructor. symmetry. by apply delete_Permutation.
Qed.
End SwapPop.

Lemma alter_insert_list {A} (f : A -> A) i (l : list A) x :
  l !! i = Some x -> alter f i l = <[i := f x]> l.
Proof.
  revert i; induction l as [|y l IH]; intros [|i] Hi; simpl in *; simplify_eq; [done|].
  f_equal. by apply IH.
Qed.

Lemma Forall_insert_list {A} (P : A -> Prop) i x (l : list A) :
  Forall P l -> P x -> Forall P (<[i := x]> l).
Proof. intros Hl Hx. by apply Forall_insert. Qed.

Lemma zsum_fmap_insert {A} (f : A -> Z) i x y (l : list A) :
  l !! i = Some y -> zsum (f <$> <[i := x]> l) = zsum (f <$> l) - f y + f x.
Proof.
  intros Hi. rewrite (list_insert_perm i x y) by done.
  rewrite (delete_Permutation l i y) at 2 by done.
  rewrite !fmap_cons, !zsum_cons. lia.
Qed.

(** ** Sums over nodes *)

Section Facts.
Context {L : Type} {LO : LedgerOps L} {LL : LedgerLaws L}.
Implicit Types (n m c : Node L) (l a b : L) (t : LedgerTrie L) (sp : Span L).

Lemma Node_ind' (P : Node L -> Prop) :
  (forall sp ts bs cs, Forall P cs -> P (mkNode sp ts bs cs)) -> forall n, P n.
Proof.
  intros Hn. fix IH 1. intros [sp ts bs cs]. apply Hn.
  induction cs as [|c cs IHcs]; constructor; [apply IH|apply IHcs].
Qed.

(** Total tip support of the nodes whose tip [(sequence, ledger)] satisfies [f]. *)
Fixpoint nsum (f : Z -> L -> bool) (n : Node L) : Z :=
  (if f (end_ (span n) - 1) (ledger_ (span n)) then tipSup n else 0)
  + zsum (nsum f <$> children n).

#[global] Arguments nsum : simpl never.

(** Predicates on a tip that depend only on the identity of the tip. *)
Definition respects (f : Z -> L -> bool) : Prop :=
  forall s a b, 0 <= s <= seq a -> s <= seq b -> anc a s = anc b s -> f s a = f s b.

Definition hasSeq (k : Z) : Z -> L -> bool := fun s _ => s =? k.
Definition hasID (i : Z) : Z -> L -> bool := fun s a => anc a s =? i.
(** The tip is the ledger [i] of sequence [q], or a descendant of it. *)
Definition descendsAt (q i : Z) : Z -> L -> bool :=
  fun s a => (q <=? s) && (anc a q =? i).
Definition descends (l : L) : Z -> L -> bool := descendsAt (seq l) (lid l).

Lemma respects_hasSeq k : respects (hasSeq k).
Proof. by intros s a b _ _ _. Qed.
Lemma respects_hasID i : respects (hasID i).
Proof. intros s a b _ _ E. unfold hasID. by rewrite E. Qed.
Lemma respects_descendsAt q i : 0 <= q -> respects (descendsAt q i).
Proof.
  intros Hq s a b Ha Hb E. unfold descendsAt.
  destruct (Z.leb_spec q s); [simpl|done]. by rewrite (anc_history a b s) by (done || lia).
Qed.
Lemma respects_descends l : respects (descends l).
Proof. apply respects_descendsAt. pose proof (seq_range l). lia. Qed.

(** ** Well-formedness *)

Definition span_ok sp : Prop := 0 <= start_ sp < end_ sp /\ end_ sp <= seq (ledger_ sp) + 1.

(** [c] continues [sp]: it starts where [sp] ends, on the same history. *)
Definition continues sp c : Prop :=
  start_ (span c) = end_ sp
  /\ anc (ledger_ (span c)) (end_ sp - 1) = anc (ledger_ sp) (end_ sp - 1).

(** The compression invariant of a non-root node. *)
Definition compressed n : Prop := tipSup n = 0 -> (2 <= length (children n))%nat.

Inductive wf : Node L -> Prop :=
| wf_node sp ts bs cs :
    span_ok sp ->
    0 <= ts -> bs = ts + zsum (branchSup <$> cs) -> bs < 2 ^ 32 ->
    Forall wf cs -> Forall (continues sp) cs -> Forall compressed cs ->
    NoDup (startID ∘ span <$> cs) ->
    wf (mkNode sp ts bs cs).

Definition wf_trie t : Prop :=
  wf (root t) /\ start_ (span (root t)) = 0 /\ end_ (span (root t)) = 1
  /\ forall k, seqSupport t !! k =
       let v := nsum (hasSeq k) (root t) in if v =? 0 then None else Some v.

Lemma wf_inv n :
  wf n ->
  span_ok (span n) /\ 0 <= tipSup n
  /\ branchSup n = tipSup n + zsum (branchSup <$> children n) /\ branchSup n < 2 ^ 32
  /\ Forall wf (children n) /\ Forall (continues (span n)) (children n)
  /\ Forall compressed (children n) /\ NoDup (startID ∘ span <$> children n).
Proof. by destruct 1. Qed.

Lemma wf_child n i c :
  wf n -> children n !! i = Some c -> wf c /\ continues (span n) c /\ compressed c.
Proof.
  intros (_ & _ & _ & _ & H1 & H2 & H3 & _)%wf_inv Hi.
  split_and!; by eapply Forall_lookup_1.
Qed.

Lemma zsum_branch_nonneg cs :
  Forall (fun c => 0 <= branchSup c) cs -> 0 <= zsum (branchSup <$> cs).
Proof. intros Hcs. by apply zsum_nonneg, Forall_fmap. Qed.

Lemma wf_branch_nonneg n : wf n -> 0 <= branchSup n.
Proof.
  induction n as [sp ts bs cs IH] using Node_ind'.
  intros (_ & Ht & Hb & _ & Hcs & _)%wf_inv. simpl in *. rewrite Hb.
  assert (0 <= zsum (branchSup <$> cs)); [|lia].
  apply zsum_branch_nonneg. rewrite Forall_forall in *. auto.
Qed.

Lemma wf_children_sum n : wf n -> 0 <= zsum (branchSup <$> children n).
Proof.
  intros (_ & _ & _ & _ & Hcs & _)%wf_inv. apply zsum_branch_nonneg.
  eapply Forall_impl; [exact Hcs|]. apply wf_branch_nonneg.
Qed.

Lemma wf_branch_pos n : wf n -> compressed n -> 0 < branchSup n.
Proof.
  induction n as [sp ts bs cs IH] using Node_ind'.
  intros (_ & Ht & Hb & _ & Hcs & _ & Hco & _)%wf_inv Hc. unfold compressed in Hc. simpl in *.
  assert (Forall (fun c => 0 < branchSup c) cs) as Hpos.
  { rewrite Forall_forall in *. eauto. }
  assert (forall k, Forall (fun c => 0 < branchSup c) k -> 0 <= zsum (branchSup <$> k)) as Hk.
  { intros k Hk. apply zsum_branch_nonneg. eapply Forall_impl; [done|]. simpl; lia. }
  pose proof (Hk cs Hpos).
  destruct (decide (ts = 0)) as [->|]; [|lia].
  destruct cs as [|c1 cs]; [simpl in *; lia|].
  rewrite fmap_cons, zsum_cons in Hb.
  apply Forall_cons in Hpos as [? Hrest%Hk]. lia.
Qed.

(** A child's branch support is part of its parent's. *)
Lemma wf_child_branch n i c :
  wf n -> children n !! i = Some c -> branchSup c <= branchSup n.
Proof.
  intros Hwf Hi. destruct (wf_inv n Hwf) as (_ & Ht & Hb & _ & Hcs & _).
  rewrite Hb. rewrite (delete_Permutation (children n) i c), fmap_cons, zsum_cons by done.
  assert (0 <= zsum (branchSup <$> delete i (children n))); [|lia].
  apply zsum_branch_nonneg, Forall_delete.
  eapply Forall_impl; [done|]. apply wf_branch_nonneg.
Qed.

Lemma nsum_unfold f n :
  nsum f n = (if f (end_ (span n) - 1) (ledger_ (span n)) then tipSup n else 0)
             + zsum (nsum f <$> children n).
Proof. by destruct n. Qed.

Lemma nsum_all n : wf n -> nsum (fun _ _ => true) n = branchSup n.
Proof.
  induction n as [sp ts bs cs IH] using Node_ind'.
  intros (_ & _ & Hb & _ & Hcs & _)%wf_inv. rewrite nsum_unfold. simpl in *. rewrite Hb.
  f_equal. apply zsum_fmap_ext. rewrite Forall_forall in *. auto.
Qed.

(** Every tip below [n] lies on the history of [n]'s tip. *)
Lemma nsum_ext f g n :
  wf n ->
  (forall s a, end_ (span n) - 1 <= s <= seq a ->
     anc a (end_ (span n) - 1) = anc (ledger_ (span n)) (end_ (span n) - 1) ->
     f s a = g s a) ->
  nsum f n = nsum g n.
Proof.
  induction n as [sp ts bs cs IH] using Node_ind'.
  intros Hwf Hfg. rewrite !nsum_unfold.
  destruct (wf_inv _ Hwf) as ((Hs & He) & _ & _ & _ & Hcs & Hco & _). simpl in *.
  rewrite (Hfg (end_ sp - 1) (ledger_ sp)) by (done || lia).
  f_equal. apply zsum_fmap_ext. rewrite Forall_forall in *.
  intros c Hc. specialize (Hcs c Hc). destruct (Hco c Hc) as [Hst Hlink].
  destruct (wf_inv c Hcs) as ((Hsc & Hec) & _).
  apply IH; [done..|]. intros s a Hsa Ha. apply Hfg; [lia|].
  rewrite <- Hlink. apply (anc_history a (ledger_ (span c)) (end_ (span c) - 1)); lia || done.
Qed.

Lemma nsum_false n : nsum (fun _ _ => false) n = 0.
Proof.
  induction n as [sp ts bs cs IH] using Node_ind'. rewrite nsum_unfold. simpl.
  by rewrite zsum_fmap_zero.
Qed.

Lemma nsum_zero f n :
  wf n ->
  (forall s a, end_ (span n) - 1 <= s <= seq a ->
     anc a (end_ (span n) - 1) = anc (ledger_ (span n)) (end_ (span n) - 1) ->
     f s a = false) ->
  nsum f n = 0.
Proof. intros Hwf Hf. rewrite <- (nsum_false n). by apply nsum_ext. Qed.

(** ** Searching *)

Lemma find_unfold l n :
  find l n =
    let pos := diff (span n) l in
    if pos =? end_ (span n) then
      (fix scan (i : nat) (cs : list (Node L)) : list nat * Z :=
         match cs with
         | [] => ([], pos)
         | child :: cs =>
             if pos <? diff (span child) l
             then let '(p, q) := find l child in (i :: p, q)
             else scan (S i) cs
         end) 0%nat (children n)
    else ([], pos).
Proof. by destruct n. Qed.

(** The trace of [find]. *)
Inductive found (l : L) : Node L -> list nat -> Z -> Prop :=
| found_here n :
    diff (span n) l <> end_ (span n) -> found l n [] (diff (span n) l)
| found_stop n :
    diff (span n) l = end_ (span n) ->
    Forall (fun c => diff (span c) l <= end_ (span n)) (children n) ->
    found l n [] (end_ (span n))
| found_down n i c p q :
    diff (span n) l = end_ (span n) ->
    children n !! i = Some c -> end_ (span n) < diff (span c) l ->
    found l c p q -> found l n (i :: p) q.

Lemma find_found l n : found l n (find l n).1 (find l n).2.
Proof.
  induction n as [sp ts bs cs IH] using Node_ind'.
  rewrite find_unfold. cbv zeta. simpl span. simpl children.
  destruct (Z.eqb_spec (diff sp l) (end_ sp)) as [E|E]; [|by constructor].
  set (n := mkNode sp ts bs cs).
  assert (forall k i, (forall j, k !! j = cs !! (i + j)%nat) ->
    Forall (fun c => diff (span c) l <= end_ sp) (take i cs) ->
    let r := (fix scan (i : nat) (cs : list (Node L)) : list nat * Z :=
         match cs with
         | [] => ([], diff sp l)
         | child :: cs =>
             if diff sp l <? diff (span child) l
             then let '(p, q) := find l child in (i :: p, q)
             else scan (S i) cs
         end) i k in
    found l n r.1 r.2) as Hscan; [|by apply (Hscan cs 0%nat); [|constructor]].
  induction k as [|c k IHk]; intros i Hk Hall.
  - simpl. rewrite E. apply (found_stop l n E). simpl.
    rewrite take_ge in Hall; [done|]. apply lookup_ge_None_1.
    specialize (Hk 0%nat). simpl in Hk. by rewrite Nat.add_0_r in Hk.
  - pose proof (Hk 0%nat) as Hi. simpl in Hi. rewrite Nat.add_0_r in Hi. symmetry in Hi.
    destruct (Z.ltb_spec (diff sp l) (diff (span c) l)) as [Hlt|Hge].
    + rewrite Forall_forall in IH. specialize (IH c ltac:(by eapply list_elem_of_lookup_2)).
      destruct (find l c) as [p q]. simpl in *. apply (found_down l n i c); (done || simpl; lia).
    + apply IHk.
      * intros j. specialize (Hk (S j)). simpl in Hk. rewrite Hk. f_equal. lia.
      * rewrite (take_S_r _ _ _ Hi). apply Forall_app. split; [done|].
        constructor; [lia|done].
Qed.

Lemma found_node_at l n p q : found l n p q -> is_Some (node_at p n).
Proof. induction 1; simpl; [done..|]. simplify_option_eq. done. Qed.

End Facts.

(** ** Correctness of the ancestry trie: [insert]

    [insert] works on a path: it edits the node found, then climbs back to the
    root.  [graft] is the same edit as one recursive pass; the two are shown
    equal, and the pass is shown to keep the trie well formed and to add
    exactly the requested support. *)

Section Insert.
Context {L : Type} {LO : LedgerOps L} {LL : LedgerLaws L}.
Implicit Types (n m c : Node L) (l a b : L) (t : LedgerTrie L) (sp : Span L).

Definition graft_here (l : L) (k q : Z) (n : Node L) : Node L :=
  let n1 := split_node q n in
  match span_from (span_of l) q with
  | Some s => add_branch k (push_back (add_branch k (add_tip k (node_span s))) n1)
  | None => add_branch k (add_tip k n1)
  end.

Fixpoint graft (l : L) (k : Z) (p : list nat) (q : Z) (n : Node L) : Node L :=
  match p with
  | [] => graft_here l k q n
  | i :: p => add_branch k (set_children (alter (graft l k p q) i (children n)) n)
  end.

(** What [insert] does to the root, given the result of [find]. *)
Definition insert_root (l : L) (k : Z) (p : list nat) (q : Z) (n : Node L) : Node L :=
  let root1 := modify p (split_node q) n in
  let '(root2, inc) :=
    match span_from (span_of l) q with
    | Some s =>
        (modify p (push_back (node_span s)) root1,
         p ++ [default 0%nat (length ∘ children <$> node_at p root1)])
    | None => (root1, p)
    end in
  add_branches inc k (modify inc (add_tip k) root2).

Lemma root_insert l k t :
  root (insert l k t) = insert_root l k (find l (root t)).1 (find l (root t)).2 (root t).
Proof.
  unfold insert, insert_root. destruct (find l (root t)) as [p q]. simpl.
  destruct (span_from (span_of l) q); done.
Qed.

Lemma list_alter_snoc {A} (f : A -> A) (k : list A) x :
  alter f (length k) (k ++ [x]) = k ++ [f x].
Proof. induction k as [|y k IH]; simpl; [done|]. by f_equal. Qed.

Lemma insert_root_graft l k p q n :
  is_Some (node_at p n) -> insert_root l k p q n = graft l k p q n.
Proof.
  revert n; induction p as [|i p IH]; intros n [m Hm].
  - unfold insert_root, graft, graft_here.
    destruct (span_from (span_of l) q) as [s|]; simpl; [|done].
    destruct (split_node q n) as [sp ts bs cs].
    cbn [app modify add_branches push_back set_children children span tipSup branchSup].
    by rewrite !list_alter_snoc.
  - simpl in Hm. destruct (children n !! i) as [c|] eqn:Hi; [|done]. simpl in Hm.
    specialize (IH c (ex_intro _ m Hm)). unfold insert_root in *.
    destruct n as [sp ts bs cs]. simpl in Hi.
    pose proof (lookup_lt_Some _ _ _ Hi) as Hlt.
    assert (forall f : Node L -> Node L, forall x, alter f i (<[i := x]> cs) = <[i := f x]> cs)
      as Hal.
    { intros f x. rewrite (alter_insert_list f i _ x) by by apply list_lookup_insert_eq.
      apply list_insert_insert_eq. }
    destruct (span_from (span_of l) q) as [s|];
      cbn [app modify add_branches graft set_children children span tipSup branchSup node_at];
      rewrite (alter_insert_list _ i cs c Hi) in *; rewrite ?Hal;
      rewrite ?list_lookup_insert_eq by done; cbn [mbind option_bind];
      rewrite ?(alter_insert_list _ i cs c Hi), ?Hal, IH; done.
Qed.

(** ** Spans met during an insertion *)

(** [l] shares the history of [n] up to and including the start of its span. *)
Definition reach l n : Prop := start_ (span n) < mismatch (ledger_ (span n)) l.

Lemma diff_reach l n :
  reach l n -> diff (span n) l = Z.min (mismatch (ledger_ (span n)) l) (end_ (span n)).
Proof. unfold reach, diff, clamp. lia. Qed.

Lemma span_of_end l : end_ (span_of l) = seq l + 1.
Proof. simpl. pose proof (seq_range l). apply u32_id. lia. Qed.

Lemma span_from_of l q :
  0 <= q ->
  span_from (span_of l) q =
    if q <=? seq l then Some {| start_ := q; end_ := seq l + 1; ledger_ := l |} else None.
Proof.
  intros Hq. unfold span_from, sub, clamp. simpl.
  pose proof (seq_range l). rewrite !u32_id by lia.
  destruct (Z.leb_spec q (seq l)); [rewrite (proj2 (Z.ltb_lt _ _)) by lia|
    rewrite (proj2 (Z.ltb_ge _ _)) by lia; done].
  do 2 f_equal; lia.
Qed.

Lemma split_node_end n : span_ok (span n) -> split_node (end_ (span n)) n = n.
Proof.
  intros [Hs He]. unfold split_node, span_from, sub, clamp.
  rewrite (proj2 (Z.ltb_ge _ _)) by lia. done.
Qed.

Lemma split_node_inside n q :
  start_ (span n) < q < end_ (span n) ->
  split_node q n =
    mkNode {| start_ := start_ (span n); end_ := q; ledger_ := ledger_ (span n) |} 0 (branchSup n)
      [mkNode {| start_ := q; end_ := end_ (span n); ledger_ := ledger_ (span n) |}
         (tipSup n) (branchSup n) (children n)].
Proof.
  intros Hq. unfold split_node, span_from, span_before, sub, clamp.
  rewrite !(proj2 (Z.ltb_lt _ _)) by lia. simpl.
  repeat f_equal; lia.
Qed.

(** What a grafted node keeps and what it gains. *)
Record grafted (l : L) (k : Z) (n n' : Node L) : Prop := {
  gr_wf : wf n';
  gr_start : start_ (span n') = start_ (span n);
  gr_ledger : ledger_ (span n') = ledger_ (span n);
  gr_end : end_ (span n') <= end_ (span n);
  gr_branch : branchSup n' = branchSup n + k;
  gr_compressed : compressed n -> compressed n';
  gr_nsum : forall f, respects f ->
    nsum f n' = nsum f n + (if f (seq l) l then k else 0);
}.

(** The node a new suffix becomes. *)
Definition leaf (l : L) (q k : Z) : Node L :=
  mkNode {| start_ := q; end_ := seq l + 1; ledger_ := l |} k k [].

Lemma leaf_wf l q k : 0 <= q <= seq l -> 0 < k < 2 ^ 32 -> wf (leaf l q k).
Proof.
  intros Hq Hk. constructor; unfold zsum; simpl; try done; try lia; [|apply NoDup_nil_2].
  split; simpl; lia.
Qed.

Lemma leaf_nsum l q k f : nsum f (leaf l q k) = if f (seq l) l then k else 0.
Proof.
  unfold leaf. rewrite nsum_unfold. simpl. replace (seq l + 1 - 1) with (seq l) by lia.
  unfold zsum. simpl. lia.
Qed.

Lemma add_branch_id k n :
  0 <= branchSup n + k < 2 ^ 32 ->
  add_branch k n = mkNode (span n) (tipSup n) (branchSup n + k) (children n).
Proof. intros Hk. unfold add_branch. by rewrite u32_id. Qed.

Section Here.
Context (l : L) (k : Z) (n : Node L) (Hk : 0 < k) (Hwf : wf n) (Hreach : reach l n)
  (Hroom : branchSup n + k < 2 ^ 32).

Lemma graft_here_eq q :
  0 <= q ->
  graft_here l k q n =
    if q <=? seq l
    then add_branch k (push_back (leaf l q k) (split_node q n))
    else add_branch k (add_tip k (split_node q n)).
Proof using LL Hk Hroom Hwf.
  intros Hq. unfold graft_here. rewrite span_from_of by done.
  destruct (q <=? seq l); [|done]. do 2 f_equal.
  unfold leaf, add_branch, add_tip, node_span; simpl.
  pose proof (wf_branch_nonneg n Hwf). by rewrite u32_id by lia.
Qed.

(** The two parts of the span when the found node is split. *)
Definition lower (q : Z) : Span L :=
  {| start_ := start_ (span n); end_ := q; ledger_ := ledger_ (span n) |}.
Definition upper (q : Z) : Node L :=
  mkNode {| start_ := q; end_ := end_ (span n); ledger_ := ledger_ (span n) |}
    (tipSup n) (branchSup n) (children n).

Lemma upper_wf q :
  start_ (span n) < q < end_ (span n) ->
  wf (upper q) /\ continues (lower q) (upper q) /\ span_ok (lower q).
Proof using LL Hwf.
  intros Hq. destruct (wf_inv n Hwf) as ([Hs He] & Ht & Hb & Hlt & Hcs & Hco & Hcp & Hnd).
  split_and!; [|done|split; simpl; lia].
  constructor; simpl; try done. split; simpl; lia.
Qed.

Lemma upper_nsum f q : nsum f (upper q) = nsum f n.
Proof. by rewrite !nsum_unfold. Qed.

(** A node that is split must itself be compressed; the root never is split. *)
Definition splittable : Prop := start_ (span n) + 1 < end_ (span n) -> compressed n.

(** The found node is split and a sibling is added. *)
Lemma graft_fork q :
  splittable ->
  mismatch (ledger_ (span n)) l = q -> q < end_ (span n) -> q <= seq l ->
  grafted l k n (mkNode (lower q) 0 (branchSup n + k) [upper q; leaf l q k]).
Proof using All.
  intros Hsp Hq Hlt Hle. unfold reach in Hreach.
  destruct (upper_wf q ltac:(lia)) as (Hu & Huc & Hok).
  pose proof (wf_branch_nonneg n Hwf).
  destruct (wf_inv n Hwf) as ([Hs He] & Ht & Hb & _ & _ & _ & Hcp & _).
  split; simpl; try done; try lia.
  - constructor; try done; simpl.
    + rewrite !zsum_cons. unfold zsum. simpl. lia.
    + forall_list; [done|apply leaf_wf; lia].
    + forall_list; [done|]. split; [done|]. simpl.
      symmetry. apply (mismatch_spec (ledger_ (span n)) l); lia.
    + forall_list; [|unfold compressed; simpl; lia].
      apply Hsp. lia.
    + unfold compose, startID. simpl. apply NoDup_cons; split; [|apply NoDup_singleton].
      rewrite list_elem_of_singleton. intros E.
      apply (mismatch_spec (ledger_ (span n)) l) in E; lia.
  - intros _ _. simpl. lia.
  - intros f Hf. rewrite nsum_unfold. simpl children. rewrite !fmap_cons, !zsum_cons.
    rewrite upper_nsum, leaf_nsum. simpl.
    destruct (f _ _); unfold zsum; simpl; lia.
Qed.

(** The found node is split exactly at the inserted ledger. *)
Lemma graft_cut q :
  splittable ->
  mismatch (ledger_ (span n)) l = q -> q < end_ (span n) -> seq l < q ->
  grafted l k n (mkNode (lower q) k (branchSup n + k) [upper q]).
Proof using All.
  intros Hsp Hq Hlt Hle. unfold reach in Hreach.
  destruct (upper_wf q ltac:(lia)) as (Hu & Huc & Hok).
  pose proof (wf_branch_nonneg n Hwf).
  pose proof (mismatch_range (ledger_ (span n)) l) as Hmr.
  destruct (wf_inv n Hwf) as ([Hs He] & Ht & Hb & _ & _ & _ & Hcp & _).
  split; simpl; try done; try lia.
  - constructor; try done; simpl; [lia|..].
    + rewrite !zsum_cons. unfold zsum. simpl. lia.
    + by forall_list.
    + by forall_list.
    + forall_list. apply Hsp. lia.
    + apply NoDup_singleton.
  - intros _ H0. simpl in H0. lia.
  - intros f Hf. rewrite nsum_unfold. simpl children. rewrite !fmap_cons, !zsum_cons.
    rewrite upper_nsum. simpl. replace (q - 1) with (seq l) by lia.
    rewrite (Hf (seq l) (ledger_ (span n)) l); [unfold zsum; simpl; lia|..].
    + pose proof (seq_range l). lia.
    + lia.
    + apply (mismatch_spec (ledger_ (span n)) l); pose proof (seq_range l); lia.
Qed.

(** The whole span matches and the ledger continues it: a leaf is added. *)
Lemma graft_extend :
  end_ (span n) <= mismatch (ledger_ (span n)) l ->
  Forall (fun c => diff (span c) l <= end_ (span n)) (children n) ->
  end_ (span n) <= seq l ->
  grafted l k n
    (mkNode (span n) (tipSup n) (branchSup n + k) (children n ++ [leaf l (end_ (span n)) k])).
Proof using All.
  intros Hmm Hall Hle.
  pose proof (wf_branch_nonneg n Hwf).
  destruct (wf_inv n Hwf) as ([Hs He] & Ht & Hb & _ & Hcs & Hco & Hcp & Hnd).
  split; simpl; try done; try lia.
  - constructor; try done; simpl.
    + rewrite fmap_app, zsum_app. unfold zsum at 2. simpl. lia.
    + apply Forall_app. split; [done|]. forall_list. apply leaf_wf; lia.
    + apply Forall_app. split; [done|]. forall_list. split; [done|]. simpl.
      symmetry. apply (mismatch_spec (ledger_ (span n)) l); lia.
    + apply Forall_app. split; [done|]. forall_list. unfold compressed; simpl; lia.
    + rewrite fmap_app. apply NoDup_app. split; [done|]. split; [|apply NoDup_singleton].
      intros x Hx. rewrite list_elem_of_fmap in Hx. destruct Hx as (c & -> & Hc).
      simpl. rewrite list_elem_of_singleton. unfold startID. simpl. intros E.
      rewrite Forall_forall in Hall, Hcs, Hco.
      specialize (Hall c Hc). destruct (Hco c Hc) as [Hst _].
      destruct (wf_inv c (Hcs c Hc)) as ([Hs' He'] & _).
      rewrite Hst in E. apply (mismatch_spec (ledger_ (span c)) l) in E; [|lia].
      unfold diff, clamp in Hall. lia.
  - unfold compressed. simpl. intros Hc H0. specialize (Hc H0). rewrite length_app. lia.
  - intros f Hf. rewrite !nsum_unfold. simpl. rewrite fmap_app, zsum_app. simpl.
    rewrite zsum_cons, leaf_nsum. change (zsum []) with 0. lia.
Qed.

(** The ledger is the tip of the node. *)
Lemma graft_tip :
  end_ (span n) <= mismatch (ledger_ (span n)) l -> seq l < end_ (span n) ->
  grafted l k n (mkNode (span n) (tipSup n + k) (branchSup n + k) (children n)).
Proof using All.
  intros Hmm Hle.
  pose proof (mismatch_range (ledger_ (span n)) l) as Hmr. pose proof (seq_range l).
  pose proof (wf_branch_nonneg n Hwf).
  destruct (wf_inv n Hwf) as ([Hs He] & Ht & Hb & _ & Hcs & Hco & Hcp & Hnd).
  split; simpl; try done; try lia.
  - constructor; try done; simpl; lia.
  - intros _ Hz. simpl in Hz. lia.
  - intros f Hf. rewrite !nsum_unfold. simpl. replace (end_ (span n) - 1) with (seq l) by lia.
    rewrite (Hf (seq l) (ledger_ (span n)) l); [destruct (f _ _); lia|lia..|].
    apply (mismatch_spec (ledger_ (span n)) l); lia.
Qed.

Lemma graft_here_grafted :
  splittable -> found l n [] (diff (span n) l) ->
  grafted l k n (graft_here l k (diff (span n) l) n).
Proof using All.
  intros Hsp Hf. rewrite (diff_reach l n Hreach) in *. unfold reach in Hreach.
  pose proof (mismatch_range (ledger_ (span n)) l) as Hmr. pose proof (seq_range l).
  pose proof (wf_branch_nonneg n Hwf) as Hnn.
  destruct (wf_inv n Hwf) as ([Hs He] & Ht & Hb & _ & Hcs & _).
  assert (tipSup n <= branchSup n) as Hle.
  { pose proof (wf_children_sum n Hwf). lia. }
  rewrite graft_here_eq by lia.
  destruct (Z.min_spec (mismatch (ledger_ (span n)) l) (end_ (span n))) as [[Hlt ->]|[Hlt Hmin]].
  - rewrite split_node_inside by lia.
    destruct (Z.leb_spec (mismatch (ledger_ (span n)) l) (seq l)) as [Hq|Hq].
    + rewrite add_branch_id by (simpl; lia). by apply graft_fork.
    + rewrite add_branch_id by (simpl; lia).
      unfold add_tip; simpl. rewrite u32_id by lia. by apply graft_cut.
  - rewrite Hmin in *. rewrite split_node_end by done.
    destruct (Z.leb_spec (end_ (span n)) (seq l)) as [Hq|Hq].
    + rewrite add_branch_id by (simpl; lia). simpl. apply graft_extend; [done| |done].
      inversion Hf as [? Hne|? _ Hall|]; subst; [|done].
      rewrite (diff_reach l n Hreach), Hmin in *. done.
    + rewrite add_branch_id by (simpl; lia).
      unfold add_tip; simpl. rewrite u32_id by lia. by apply graft_tip.
Qed.
End Here.

Lemma graft_grafted l k n p q :
  0 < k -> found l n p q ->
  wf n -> reach l n -> branchSup n + k < 2 ^ 32 -> splittable n ->
  grafted l k n (graft l k p q n).
Proof.
  intros Hk. induction 1 as [n Hne|n E Hall|n i c p q E Hi Hlt Hf IH]; intros Hwf Hr Hroom Hsp.
  - apply graft_here_grafted; try done. by constructor.
  - simpl. rewrite <- E. apply graft_here_grafted; try done. rewrite E. by constructor.
  - destruct (wf_child n i c Hwf Hi) as (Hc & [Hst Hlink] & Hcc).
    pose proof (wf_child_branch n i c Hwf Hi).
    assert (reach l c) as Hrc.
    { unfold diff, clamp in Hlt. unfold reach. lia. }
    specialize (IH Hc Hrc ltac:(lia) (fun _ => Hcc)).
    destruct IH as [Gwf Gst Gle Gen Gbr Gco Gns].
    set (c' := graft l k p q c) in *.
    simpl. rewrite (alter_insert_list _ i _ c Hi). fold c'.
    pose proof (wf_branch_nonneg n Hwf).
    rewrite add_branch_id by (simpl; lia). simpl.
    destruct (wf_inv n Hwf) as ([Hs He] & Ht & Hb & _ & Hcs & Hco & Hcp & Hnd).
    split; simpl; try done; try lia.
    + constructor; try done; simpl.
      * rewrite Hb, (zsum_fmap_insert _ i c' c) by done. lia.
      * by apply Forall_insert_list.
      * apply Forall_insert_list; [done|]. split; [lia|]. by rewrite Gle.
      * apply Forall_insert_list; [done|]. by apply Gco.
      * rewrite list_fmap_insert. unfold compose, startID. simpl.
        rewrite Gst, Gle. rewrite list_insert_id; [done|].
        by rewrite list_lookup_fmap, Hi.
    + unfold compressed. simpl. by rewrite length_insert.
    + intros f Hresp. rewrite !nsum_unfold. simpl.
      rewrite (zsum_fmap_insert _ i c' c), Gns by done. lia.
Qed.

(** ** The trie *)

Lemma nsum_nonneg f n : wf n -> 0 <= nsum f n.
Proof.
  induction n as [sp ts bs cs IH] using Node_ind'.
  intros (_ & Ht & _ & _ & Hcs & _)%wf_inv. rewrite nsum_unfold. simpl in *.
  assert (0 <= zsum (nsum f <$> cs)); [|destruct (f _ _); lia].
  apply zsum_nonneg, Forall_fmap. unfold compose. rewrite Forall_forall in *. auto.
Qed.

Lemma nsum_le f n : wf n -> nsum f n <= branchSup n.
Proof.
  intros Hwf. rewrite <- nsum_all by done.
  induction n as [sp ts bs cs IH] using Node_ind'.
  destruct (wf_inv _ Hwf) as (_ & Ht & _ & _ & Hcs & _). rewrite !nsum_unfold. simpl in *.
  assert (zsum (nsum f <$> cs) <= zsum (nsum (fun _ _ => true) <$> cs)).
  { clear Hwf. induction cs as [|c cs IHcs]; [done|].
    rewrite !fmap_cons, !zsum_cons.
    apply Forall_cons in IH as [? ?], Hcs as [? ?].
    apply Z.add_le_mono; auto. }
  destruct (f _ _); lia.
Qed.

Lemma wf_trie_reach l t : wf_trie t -> reach l (root t).
Proof.
  intros (_ & Hs & _). unfold reach. rewrite Hs.
  pose proof (mismatch_range (ledger_ (span (root t))) l). lia.
Qed.

Lemma wf_trie_grafted l k t :
  wf_trie t -> 0 < k -> branchSup (root t) + k < 2 ^ 32 ->
  grafted l k (root t) (root (insert l k t)).
Proof.
  intros Hwf Hk Hroom. pose proof Hwf as (Hw & Hs & He & _).
  rewrite root_insert, insert_root_graft by apply (found_node_at _ _ _ _ (find_found l (root t))).
  apply graft_grafted; try done; [apply find_found|by apply wf_trie_reach|].
  unfold splittable. lia.
Qed.

Lemma insert_wf l k t :
  wf_trie t -> 0 < k -> branchSup (root t) + k < 2 ^ 32 -> wf_trie (insert l k t).
Proof.
  intros Hwf Hk Hroom. destruct (wf_trie_grafted l k t Hwf Hk Hroom) as [G1 G2 G3 G4 G5 _ G7].
  pose proof Hwf as (Hw & Hs & He & Hseq).
  destruct (wf_inv _ G1) as ([Hs' _] & _).
  split_and!; [done|lia|lia|].
  intros s. rewrite G7 by apply respects_hasSeq.
  specialize (Hseq s).
  pose proof (nsum_nonneg (hasSeq s) (root t) Hw) as Hnn.
  pose proof (nsum_le (hasSeq s) (root t) Hw) as Hle.
  unfold insert. destruct (find l (root t)) as [p q].
  destruct (match span_from (span_of l) q with Some _ => _ | None => _ end). simpl.
  set (v := nsum (hasSeq s) (root t)) in *. unfold hasSeq. rewrite lookup_insert.
  destruct (decide (seq l = s)) as [<-|Hne].
  - rewrite Z.eqb_refl, Hseq. cbv zeta.
    rewrite (proj2 (Z.eqb_neq (v + k) 0)) by lia. f_equal.
    destruct (Z.eqb_spec v 0) as [E|]; simpl; rewrite u32_id; lia.
  - rewrite (proj2 (Z.eqb_neq (seq l) s)) by done. rewrite Hseq, Z.add_0_r. done.
Qed.

Lemma empty_wf : wf_trie empty_trie.
Proof.
  split_and!; [|done|done|].
  - constructor; unfold zsum; simpl; try done; [|apply NoDup_nil_2].
    split; simpl; [lia|]. rewrite seq_genesis. lia.
  - intros k. simpl. unfold empty_trie, node_default. rewrite nsum_unfold. simpl.
    rewrite lookup_empty. unfold hasSeq, zsum. simpl. by destruct k.
Qed.

End Insert.

(** ** Correctness of the ancestry trie: [remove]

    [remove] lowers the support along a path and then compresses upwards from
    the node it changed.  Both loops are restated as recursive passes ([dec],
    [comp]) that keep the trie well formed and take away exactly the requested
    support. *)

Section Remove.
Context {L : Type} {LO : LedgerOps L} {LL : LedgerLaws L}.
Implicit Types (n m c : Node L) (l a b : L) (t : LedgerTrie L) (sp : Span L).

(** ** Recursive restatements *)

Fixpoint dec (p : list nat) (d : Z) (n : Node L) : Node L :=
  match p with
  | [] => add_branch d (add_tip d n)
  | i :: p => add_branch d (set_children (alter (dec p d) i (children n)) n)
  end.

Lemma dec_eq p d n :
  is_Some (node_at p n) -> add_branches p d (modify p (add_tip d) n) = dec p d n.
Proof.
  revert n; induction p as [|i p IH]; intros [sp ts bs cs] Hp; simpl in *; [done|].
  destruct (cs !! i) as [c|] eqn:Hi; [|by destruct Hp]. simpl in Hp.
  rewrite list_alter_alter_eq, !(alter_insert_list _ i cs c Hi). simpl. by rewrite IH.
Qed.

(** The child [g] takes over the span of its parent [c]. *)
Definition absorb (c g : Node L) : Node L :=
  mkNode (merge (span c) (span g)) (tipSup g) (branchSup g) (children g).

(** One turn of the compression loop on child [i] of [n]; the flag tells
    whether the loop goes on with [n]. *)
Definition fold_up (i : nat) (n : Node L) : Node L * bool :=
  match children n !! i with
  | None => (n, false)
  | Some c =>
      if tipSup c =? 0 then
        match children c with
        | [] => (erase i n, true)
        | [g] => (erase i (push_back (absorb c g) n), true)
        | _ => (n, false)
        end
      else (n, false)
  end.

Fixpoint comp (p : list nat) (n : Node L) : Node L * bool :=
  match p with
  | [] => (n, true)
  | i :: p =>
      match children n !! i with
      | None => (n, false)
      | Some c =>
          let '(c', go) := comp p c in
          let n1 := set_children (<[i := c']> (children n)) n in
          if go then fold_up i n1 else (n1, false)
      end
  end.

(** [compress] with the same flag. *)
Fixpoint compressF (rp : list nat) (r : Node L) : Node L * bool :=
  match rp with
  | [] => (r, true)
  | i :: rp' =>
      match node_at (rev rp) r with
      | None => (r, false)
      | Some loc =>
          if tipSup loc =? 0 then
            match children loc with
            | [] => compressF rp' (modify (rev rp') (erase i) r)
            | [child] =>
                compressF rp' (modify (rev rp')
                  (fun parent => erase i (push_back (absorb loc child) parent)) r)
            | _ => (r, false)
            end
          else (r, false)
      end
  end.

Lemma compress_compressF rp r : compress rp r = (compressF rp r).1.
Proof.
  revert r; induction rp as [|i rp IH]; intros r; [done|]. simpl.
  destruct (node_at (rev rp ++ [i]) r) as [loc|]; [|done].
  destruct (tipSup loc =? 0); [|done].
  destruct (children loc) as [|c [|]]; auto.
Qed.

Lemma set_children_twice (cs cs' : list (Node L)) n :
  set_children cs (set_children cs' n) = set_children cs n.
Proof. done. Qed.

Lemma compressF_snoc rp i n c :
  children n !! i = Some c ->
  compressF (rp ++ [i]) n =
    let '(c', go) := compressF rp c in
    let n1 := set_children (<[i := c']> (children n)) n in
    if go then fold_up i n1 else (n1, false).
Proof.
  revert n c; induction rp as [|j rp IH]; intros n c Hi.
  - simpl. rewrite Hi. simpl. rewrite list_insert_id by done.
    unfold fold_up. destruct n as [sp ts bs cs]. simpl in *. rewrite Hi.
    destruct (tipSup c =? 0); [|done]. by destruct (children c) as [|g [|]].
  - pose proof (lookup_lt_Some _ _ _ Hi) as Hlt.
    assert (forall g : Node L -> Node L,
      compressF (rp ++ [i]) (modify (i :: rev rp) g n) =
      let '(c', go) := compressF rp (modify (rev rp) g c) in
      let n1 := set_children (<[i := c']> (children n)) n in
      if go then fold_up i n1 else (n1, false)) as Hstep.
    { intros g. simpl. rewrite (alter_insert_list _ i _ c Hi).
      rewrite (IH _ (modify (rev rp) g c))
        by (destruct n; simpl; by apply list_lookup_insert_eq).
      destruct (compressF rp (modify (rev rp) g c)) as [c' go].
      destruct n as [sp ts bs cs]. simpl. unfold set_children. simpl.
      by rewrite list_insert_insert_eq. }
    simpl. rewrite rev_app_distr. simpl. rewrite Hi. simpl.
    destruct (node_at (rev rp ++ [j]) c) as [loc|] eqn:Hloc;
      [|by destruct n; simpl in *; rewrite list_insert_id].
    destruct (tipSup loc =? 0); [|by destruct n; simpl in *; rewrite list_insert_id].
    destruct (children loc) as [|g [|]]; [apply Hstep|apply Hstep|].
    by destruct n; simpl in *; rewrite list_insert_id.
Qed.

Lemma compressF_comp p n : is_Some (node_at p n) -> compressF (rev p) n = comp p n.
Proof.
  revert n; induction p as [|i p IH]; intros n Hp; [done|]. simpl in *.
  destruct (children n !! i) as [c|] eqn:Hi; [|by destruct Hp]. simpl in Hp.
  rewrite (compressF_snoc (rev p) i n c Hi). by rewrite IH.
Qed.

(** ** Structure is kept *)

(** Replacing a child by one that covers the same start. *)
Lemma replace_child n i c c' d :
  wf n -> children n !! i = Some c ->
  wf c' -> compressed c' -> start_ (span c') = start_ (span c) ->
  anc (ledger_ (span c')) (start_ (span c)) = anc (ledger_ (span c)) (start_ (span c)) ->
  branchSup c' = branchSup c + d -> branchSup n + d < 2 ^ 32 ->
  wf (mkNode (span n) (tipSup n) (branchSup n + d) (<[i := c']> (children n))).
Proof.
  intros Hwf Hi Hc' Hcc Hst Hanc Hbr Hroom.
  destruct (wf_inv n Hwf) as ([Hs He] & Ht & Hb & _ & Hcs & Hco & Hcp & Hnd).
  destruct (wf_child n i c Hwf Hi) as (Hc & [Hst0 Hlink] & _).
  destruct (wf_inv c Hc) as ([Hsc Hec] & _). destruct (wf_inv c' Hc') as ([Hsc' Hec'] & _).
  constructor; try done; simpl.
  - rewrite Hb, (zsum_fmap_insert _ i c' c) by done. lia.
  - by apply Forall_insert_list.
  - apply Forall_insert_list; [done|]. split; [lia|]. rewrite <- Hlink.
    apply (anc_history _ _ (start_ (span c))); lia || done.
  - by apply Forall_insert_list.
  - rewrite list_fmap_insert. unfold compose, startID. simpl. rewrite Hst, Hanc.
    rewrite list_insert_id; [done|]. by rewrite list_lookup_fmap, Hi.
Qed.

(** Removing a child that carries no support. *)
Lemma drop_child n i c cs' d :
  wf n -> children n !! i = Some c -> c :: cs' ≡ₚ children n ->
  branchSup c = - d -> branchSup n + d < 2 ^ 32 ->
  wf (mkNode (span n) (tipSup n) (branchSup n + d) cs').
Proof.
  intros Hwf Hi Hperm Hbr Hroom.
  destruct (wf_inv n Hwf) as ([Hs He] & Ht & Hb & _ & Hcs & Hco & Hcp & Hnd).
  rewrite <- Hperm in Hb, Hcs, Hco, Hcp, Hnd. rewrite fmap_cons in Hb, Hnd. rewrite zsum_cons in Hb.
  apply Forall_cons in Hcs as [_ ?], Hco as [_ ?], Hcp as [_ ?]. apply NoDup_cons in Hnd as [_ ?].
  constructor; try done. lia.
Qed.

(** Merging a node without support into its only child. *)
Lemma absorb_wf c g :
  wf c -> children c = [g] ->
  wf (absorb c g) /\ compressed (absorb c g)
  /\ start_ (span (absorb c g)) = start_ (span c)
  /\ anc (ledger_ (span (absorb c g))) (start_ (span c)) = anc (ledger_ (span c)) (start_ (span c))
  /\ forall f, nsum f (absorb c g) = nsum f g.
Proof.
  intros Hc Hg.
  destruct (wf_child c 0 g Hc) as (Hwg & [Hst Hlink] & Hcg); [by rewrite Hg|].
  destruct (wf_inv c Hc) as ([Hsc Hec] & _).
  destruct (wf_inv g Hwg) as ([Hsg Heg] & Ht & Hb & Hlt & Hcs & Hco & Hcp & Hnd).
  assert (absorb c g = mkNode
    {| start_ := start_ (span c); end_ := end_ (span g); ledger_ := ledger_ (span g) |}
    (tipSup g) (branchSup g) (children g)) as ->.
  { unfold absorb, merge. rewrite (proj2 (Z.ltb_lt _ _)) by lia. repeat f_equal. lia. }
  split_and!; try done.
  - constructor; try done. split; simpl; lia.
  - simpl. apply (anc_history _ _ (end_ (span c) - 1)); lia || done.
  - intros f. by rewrite !nsum_unfold.
Qed.

(** What a node keeps and loses when [k] support is removed from [m] below it. *)
Record pruned (k : Z) (m n n' : Node L) (go : bool) : Prop := {
  pr_wf : wf n';
  pr_span : span n' = span n;
  pr_branch : branchSup n' = branchSup n - k;
  pr_compressed : go = false -> compressed n -> compressed n';
  pr_nsum : forall f,
    nsum f n' = nsum f n
      - (if f (end_ (span m) - 1) (ledger_ (span m)) then k else 0);
}.

Lemma fold_up_pruned k m n i c c' :
  wf n -> children n !! i = Some c -> 0 < k -> k <= branchSup c ->
  pruned k m c c' true ->
  let r := fold_up i (mkNode (span n) (tipSup n) (branchSup n - k) (<[i := c']> (children n))) in
  pruned k m n r.1 r.2.
Proof.
  intros Hwf Hi Hk Hkc [Pwf Psp Pbr _ Pns].
  destruct (wf_inv n Hwf) as ([Hs He] & Ht & Hb & Hlt & Hcs & Hco & Hcp & Hnd).
  destruct (wf_child n i c Hwf Hi) as (Hc & [Hst Hlink] & Hcc).
  destruct (wf_inv c' Pwf) as (_ & Ht' & Hb' & _).
  pose proof (lookup_lt_Some _ _ _ Hi) as Hlen.
  assert (<[i := c']> (children n) !! i = Some c') as Hi' by by apply list_lookup_insert_eq.
  assert (forall f, zsum (nsum f <$> <[i := c']> (children n)) =
     zsum (nsum f <$> children n) - (if f (end_ (span m) - 1) (ledger_ (span m)) then k else 0))
    as Hns.
  { intros f. rewrite (zsum_fmap_insert _ i c' c) by done. rewrite Pns. lia. }
  assert (compressed c' ->
    pruned k m n (mkNode (span n) (tipSup n) (branchSup n - k) (<[i := c']> (children n))) false)
    as Hkeep.
  { intros Hcc'. split; try done.
    - apply (replace_child n i c c' (- k)); try done; try lia; by rewrite Psp.
    - intros _. unfold compressed. simpl. by rewrite length_insert.
    - intros f. rewrite !nsum_unfold. simpl. rewrite Hns. lia. }
  unfold fold_up. simpl children. rewrite Hi'.
  destruct (Z.eqb_spec (tipSup c') 0) as [Ht0|Ht0]; [|by apply Hkeep; intros ?].
  destruct (children c') as [|g [|g2 gs]] eqn:Hch.
  - (* the node is erased *)
    pose proof (swap_pop_perm i _ c' Hi') as Hp. unfold erase, set_children. simpl.
    set (cs' := swap_pop i (<[i := c']> (children n))) in *.
    rewrite (list_insert_perm i c' c) in Hp by done. apply (inj (c' ::.)) in Hp.
    assert (c :: cs' ≡ₚ children n) as Hp' by (rewrite Hp; symmetry; by apply delete_Permutation).
    rewrite Ht0 in Hb'. change (zsum (branchSup <$> [])) with 0 in Hb'.
    split; try done.
    + apply (drop_child n i c cs' (- k)); try done; lia.
    + intros f. rewrite !nsum_unfold. simpl.
      assert (nsum f c' = 0) as H0.
      { rewrite nsum_unfold, Hch, Ht0. change (zsum (nsum f <$> [])) with 0. by destruct (f _ _). }
      rewrite Pns in H0. rewrite <- Hp', fmap_cons, zsum_cons. lia.
  - (* the node is merged into its child *)
    destruct (absorb_wf c' g Pwf Hch) as (Awf & Aco & Ast & Aanc & Ans).
    unfold erase, push_back, set_children. simpl.
    rewrite swap_pop_snoc, list_insert_insert_eq by by rewrite length_insert.
    rewrite Psp in Ast, Aanc.
    assert (branchSup (absorb c' g) = branchSup c + - k) as Abr.
    { rewrite Ht0 in Hb'. rewrite fmap_cons, zsum_cons in Hb'.
      change (zsum (branchSup <$> [])) with 0 in Hb'. simpl. lia. }
    split; try done.
    + apply (replace_child n i c _ (- k)); try done; lia.
    + intros f. rewrite !nsum_unfold. simpl.
      rewrite (zsum_fmap_insert _ i _ c), Ans by done.
      assert (nsum f c' = nsum f g) as <-; [|rewrite Pns; lia].
      rewrite (nsum_unfold f c'), Hch, Ht0, fmap_cons, zsum_cons.
      change (zsum (nsum f <$> [])) with 0. destruct (f _ _); lia.
  - apply Hkeep. unfold compressed. rewrite Hch. simpl. lia.
Qed.

Lemma comp_dec_pruned k p n m :
  wf n -> node_at p n = Some m -> 0 < k <= tipSup m ->
  let r := comp p (dec p (- k) n) in pruned k m n r.1 r.2.
Proof.
  intros Hwf Hm Hk. revert n Hwf Hm; induction p as [|i p IH]; intros n Hwf Hm.
  - simpl in *. simplify_eq.
    destruct (wf_inv m Hwf) as ([Hs He] & Ht & Hb & Hlt & Hcs & Hco & Hcp & Hnd).
    pose proof (wf_children_sum m Hwf) as Hz.
    rewrite add_branch_id by (simpl; lia). unfold add_tip. simpl. rewrite u32_id by lia.
    split; try done; simpl.
    + constructor; try done; simpl; lia.
    + intros f. rewrite !nsum_unfold. simpl. destruct (f _ _); lia.
  - simpl in Hm. destruct (children n !! i) as [c|] eqn:Hi; [|done]. simpl in Hm.
    destruct (wf_child n i c Hwf Hi) as (Hc & [Hst Hlink] & Hcc).
    pose proof (wf_child_branch n i c Hwf Hi) as Hle.
    destruct (wf_inv n Hwf) as (_ & _ & _ & Hlt & _).
    pose proof (lookup_lt_Some _ _ _ Hi) as Hlen.
    specialize (IH c Hc Hm).
    assert (k <= branchSup c) as Hkc.
    { pose proof (wf_branch_nonneg _ (pr_wf _ _ _ _ _ IH)) as Hn.
      rewrite (pr_branch _ _ _ _ _ IH) in Hn. lia. }
    cbn [dec comp]. rewrite (alter_insert_list _ i _ c Hi).
    rewrite add_branch_id by (simpl; lia). simpl children.
    rewrite list_lookup_insert_eq by done.
    destruct (comp p (dec p (- k) c)) as [c' go]. simpl in IH.
    unfold set_children. simpl. rewrite list_insert_insert_eq.
    change (branchSup n + - k) with (branchSup n - k).
    destruct go; [by apply (fold_up_pruned k m n i c c'); [..|lia| |]|].
    destruct IH as [Pwf Psp Pbr Pco Pns]. split; try done; simpl.
    + apply (replace_child n i c c' (- k)); try done; try lia; [by apply Pco|by rewrite Psp..].
    + intros _. unfold compressed. simpl. by rewrite length_insert.
    + intros f. rewrite !nsum_unfold. simpl. rewrite (zsum_fmap_insert _ i c' c), Pns by done. lia.
Qed.

End Remove.
