(* ===== verification/TrieQueries.v ===== *)
(** * Correctness of the ancestry trie: queries and refinement

    The queries of the trie compute sums over the ledgers it was given, so the
    trie refines a plain multiset of validated ledgers. *)

From S2P Require Import Prelude LedgerTrie LedgerTrieFacts.

Section Queries.
Context {L : Type} {LO : LedgerOps L} {LL : LedgerLaws L}.
Implicit Types (n m c : Node L) (l a b : L) (t : LedgerTrie L) (sp : Span L).

(** ** Finding a node by the identifier of its tip *)

Lemma findByLedgerID_unfold i n :
  findByLedgerID i n =
  if i =? tipID (tip (span n)) then Some []
  else
    (fix scan (k : nat) (cs : list (Node L)) : option (list nat) :=
       match cs with
       | [] => None
       | child :: cs =>
           match findByLedgerID i child with
           | Some p => Some (k :: p)
           | None => scan (S k) cs
           end
       end) 0%nat (children n).
Proof. by destruct n. Qed.

Lemma findByLedgerID_cases i n :
  (i = tipID (tip (span n)) /\ findByLedgerID i n = Some [])
  \/ (i <> tipID (tip (span n)) /\ exists k c p,
        children n !! k = Some c /\ findByLedgerID i c = Some p
        /\ Forall (fun c => findByLedgerID i c = None) (take k (children n))
        /\ findByLedgerID i n = Some (k :: p))
  \/ (i <> tipID (tip (span n))
      /\ Forall (fun c => findByLedgerID i c = None) (children n)
      /\ findByLedgerID i n = None).
Proof.
  rewrite findByLedgerID_unfold.
  destruct (Z.eqb_spec i (tipID (tip (span n)))) as [E|E]; [by left|right].
  assert (forall k j, (forall x, k !! x = children n !! (j + x)%nat) ->
    Forall (fun c => findByLedgerID i c = None) (take j (children n)) ->
    let r := (fix scan (k : nat) (cs : list (Node L)) : option (list nat) :=
       match cs with
       | [] => None
       | child :: cs =>
           match findByLedgerID i child with
           | Some p => Some (k :: p)
           | None => scan (S k) cs
           end
       end) j k in
    (exists k c p,
        children n !! k = Some c /\ findByLedgerID i c = Some p
        /\ Forall (fun c => findByLedgerID i c = None) (take k (children n))
        /\ r = Some (k :: p))
    \/ (Forall (fun c => findByLedgerID i c = None) (children n) /\ r = None)) as Hscan.
  { induction k as [|c k IHk]; intros j Hk Hall.
    - right. split; [|done]. rewrite take_ge in Hall; [done|].
      apply lookup_ge_None_1. specialize (Hk 0%nat). simpl in Hk. by rewrite Nat.add_0_r in Hk.
    - pose proof (Hk 0%nat) as Hj. simpl in Hj. rewrite Nat.add_0_r in Hj. symmetry in Hj.
      destruct (findByLedgerID i c) as [p|] eqn:Hc; [left; by exists j, c, p|].
      apply IHk.
      + intros x. specialize (Hk (S x)). simpl in Hk. rewrite Hk. f_equal. lia.
      + rewrite (take_S_r _ _ _ Hj). apply Forall_app. split; [done|]. by forall_list. }
  destruct (Hscan (children n) 0%nat) as [(k & c & p & ?)|[? ?]]; [done|done| |].
  - left. split; [done|]. exists k, c, p. naive_solver.
  - right. done.
Qed.

Lemma tip_ok sp : span_ok sp -> tipSeq (tip sp) = end_ sp - 1
  /\ tipID (tip sp) = anc (ledger_ sp) (end_ sp - 1) /\ tipLedger (tip sp) = ledger_ sp.
Proof.
  intros [Hs He]. simpl. pose proof (seq_range (ledger_ sp)). by rewrite u32_id by lia.
Qed.

(** A node below [n] continues [n]'s history. *)
Lemma node_at_below p n m :
  wf n -> node_at p n = Some m ->
  wf m /\ end_ (span n) <= end_ (span m)
  /\ anc (ledger_ (span m)) (end_ (span n) - 1) = anc (ledger_ (span n)) (end_ (span n) - 1).
Proof.
  revert n; induction p as [|i p IH]; intros n Hwf Hm; simpl in Hm; simplify_eq; [done|].
  destruct (children n !! i) as [c|] eqn:Hi; [|done]. simpl in Hm.
  destruct (wf_child n i c Hwf Hi) as (Hc & [Hst Hlink] & _).
  destruct (IH c Hc Hm) as (Hwm & Hle & Hanc).
  destruct (wf_inv n Hwf) as ([Hs He] & _). destruct (wf_inv c Hc) as ([Hsc Hec] & _).
  destruct (wf_inv m Hwm) as ([Hsm Hem] & _).
  split_and!; [done|lia|]. rewrite <- Hlink.
  apply (anc_history _ _ (end_ (span c) - 1)); lia || done.
Qed.

Lemma node_at_start p n m :
  wf n -> node_at p n = Some m -> start_ (span n) <= start_ (span m).
Proof.
  revert n; induction p as [|i p IH]; intros n Hwf Hm; simpl in Hm; simplify_eq; [done|].
  destruct (children n !! i) as [c|] eqn:Hi; [|done]. simpl in Hm.
  destruct (wf_child n i c Hwf Hi) as (Hc & [Hst _] & _).
  destruct (wf_inv n Hwf) as ([Hs He] & _). specialize (IH c Hc Hm). lia.
Qed.

(** Children of the same node are on different histories. *)
Lemma siblings_differ n i j c d :
  wf n -> children n !! i = Some c -> children n !! j = Some d ->
  startID (span c) = startID (span d) -> i = j.
Proof.
  intros (_ & _ & _ & _ & _ & _ & _ & Hnd)%wf_inv Hi Hj E.
  apply (NoDup_lookup (startID ∘ span <$> children n) i j (startID (span c))); [done|..];
    rewrite list_lookup_fmap; [by rewrite Hi|rewrite Hj]. simpl. by rewrite E.
Qed.

(** Tips below a child [c] whose history leaves that of [c] are not below [c]. *)
Lemma nsum_other_child f n j d (s : Z) a :
  wf n -> children n !! j = Some d ->
  end_ (span n) <= s <= seq a -> anc a (end_ (span n)) <> startID (span d) ->
  (forall s' b, 0 <= s' <= seq b -> f s' b = true -> s <= s' /\ anc b s = anc a s) ->
  nsum f d = 0.
Proof.
  intros Hwf Hj Hs Hne Hf. destruct (wf_child n j d Hwf Hj) as (Hd & [Hst Hlink] & _).
  destruct (wf_inv n Hwf) as ([Hs0 He0] & _). destruct (wf_inv d Hd) as ([Hsd Hed] & _).
  apply nsum_zero; [done|]. intros s' b Hs' Hb.
  destruct (f s' b) eqn:E; [|done]. exfalso. apply Hf in E as [Hle E]; [|lia].
  apply Hne. unfold startID. rewrite Hst.
  rewrite <- (anc_history b (ledger_ (span d)) (end_ (span d) - 1)) by (done || lia).
  symmetry. apply (anc_history _ _ s); lia || done.
Qed.

(** Sum over the children when only child [i] contributes. *)
Lemma nsum_only_child f n i c :
  children n !! i = Some c ->
  (forall j d, children n !! j = Some d -> j <> i -> nsum f d = 0) ->
  zsum (nsum f <$> children n) = nsum f c.
Proof.
  intros Hi Hz. pose proof (lookup_lt_Some _ _ _ Hi) as Hlt.
  rewrite <- (take_drop_middle (children n) i c Hi) at 1.
  rewrite fmap_app, zsum_app, fmap_cons, zsum_cons.
  rewrite (zsum_fmap_zero _ (take i (children n))), (zsum_fmap_zero _ (drop (S i) (children n))).
  - lia.
  - apply Forall_lookup_2. intros j d Hj. rewrite lookup_drop in Hj. apply (Hz _ d Hj). lia.
  - apply Forall_lookup_2. intros j d Hj. apply lookup_take_Some in Hj as [Hj Hji].
    apply (Hz j d Hj). lia.
Qed.

Lemma hasID_sum i n :
  wf n ->
  match findByLedgerID i n with
  | Some p => exists m, node_at p n = Some m
      /\ anc (ledger_ (span m)) (end_ (span m) - 1) = i /\ nsum (hasID i) n = tipSup m
  | None => nsum (hasID i) n = 0
  end.
Proof.
  induction n as [sp ts bs cs IH] using Node_ind'. set (n := mkNode sp ts bs cs).
  intros Hwf. destruct (wf_inv n Hwf) as (Hok & Ht & Hb & Hlt & Hcs & Hco & _).
  destruct (tip_ok sp Hok) as (_ & Htip & _). pose proof Hok as [Hs He]. simpl in Hs, He.
  rewrite Forall_forall in IH.
  destruct (findByLedgerID_cases i n) as [[E ->]|[(E & k & c & p & Hk & Hc & Hpre & ->)|(E & Hall & ->)]];
    simpl span in E; rewrite Htip in E.
  - exists n. split; [done|]. split; [done|]. rewrite nsum_unfold. simpl.
    unfold hasID at 1. rewrite E, Z.eqb_refl.
    rewrite zsum_fmap_zero; [lia|]. apply Forall_forall. intros c Hc.
    rewrite Forall_forall in Hcs, Hco. destruct (Hco c Hc) as [Hst _]. simpl in Hst.
    destruct (wf_inv c (Hcs c Hc)) as ([Hsc Hec] & _).
    apply nsum_zero; [by apply Hcs|]. intros s a Hsa _. unfold hasID.
    apply Z.eqb_neq. intros Ei. apply anc_unique in Ei; lia.
  - destruct (wf_child n k c Hwf Hk) as (Hwc & [Hst Hlink] & _). simpl in Hst, Hlink.
    specialize (IH c ltac:(by eapply list_elem_of_lookup_2) Hwc). rewrite Hc in IH.
    destruct IH as (m & Hm & Hid & Hsum). exists m. cbn [node_at]. rewrite Hk. simpl.
    split; [done|]. split; [done|]. rewrite nsum_unfold. simpl.
    unfold hasID at 1. rewrite (proj2 (Z.eqb_neq _ _)) by done.
    destruct (node_at_below p c m Hwc Hm) as (Hwm & Hle & Hanc).
    destruct (wf_inv c Hwc) as ([Hsc Hec] & _). destruct (wf_inv m Hwm) as ([Hsm Hem] & _).
    assert (anc (ledger_ (span m)) (end_ sp) = startID (span c)) as Hstart.
    { unfold startID. rewrite Hst. apply (anc_history _ _ (end_ (span c) - 1)); lia || done. }
    change cs with (children n). rewrite (nsum_only_child _ n k c Hk); [lia|].
    intros j d Hj Hne.
    apply (nsum_other_child _ n j d (end_ (span m) - 1) (ledger_ (span m))); try done.
    + simpl. lia.
    + simpl. rewrite Hstart. intros E'. apply Hne. symmetry. by apply (siblings_differ n k j c d).
    + intros s b Hsb Hb'. unfold hasID in Hb'. b2p. rewrite <- Hid in Hb'.
      pose proof Hb' as Hu. apply anc_unique in Hu; [|lia..]. subst s. split; [lia|done].
  - rewrite nsum_unfold. simpl. unfold hasID at 1. rewrite (proj2 (Z.eqb_neq _ _)) by done.
    rewrite zsum_fmap_zero; [done|]. apply Forall_forall. intros c Hc.
    rewrite Forall_forall in Hcs, Hall. specialize (IH c Hc (Hcs c Hc)).
    by rewrite (Hall c Hc) in IH.
Qed.

Lemma tipSupport_sum l t : wf_trie t -> tipSupport l t = nsum (hasID (lid l)) (root t).
Proof.
  intros (Hw & _). unfold tipSupport. pose proof (hasID_sum (lid l) (root t) Hw) as Hs.
  destruct (findByLedgerID (lid l) (root t)) as [p|]; simpl; [|done].
  destruct Hs as (m & -> & _ & ->). done.
Qed.

(** ** Branch support *)

(** The tips that descend from a ledger on the span of a node are below it. *)
Lemma nsum_focus f s p n m :
  wf n -> node_at p n = Some m -> start_ (span m) <= s < end_ (span m) ->
  (forall q a, 0 <= q <= seq a -> f q a = true -> s <= q /\ anc a s = anc (ledger_ (span m)) s) ->
  nsum f n = nsum f m.
Proof.
  intros Hwf Hm Hr Hf. revert n Hwf Hm.
  induction p as [|i p IH]; intros n Hwf Hm; simpl in Hm; simplify_eq; [done|].
  destruct (children n !! i) as [c|] eqn:Hi; [|done]. simpl in Hm.
  destruct (wf_child n i c Hwf Hi) as (Hwc & [Hst Hlink] & _).
  destruct (wf_inv n Hwf) as ([Hs He] & _).
  destruct (wf_inv c Hwc) as ([Hsc Hec] & _).
  destruct (node_at_below p c m Hwc Hm) as (Hwm & Hle & Hanc).
  destruct (wf_inv m Hwm) as ([Hsm Hem] & _).
  pose proof (node_at_start p c m Hwc Hm) as Hge.
  rewrite nsum_unfold. destruct (f (end_ (span n) - 1) (ledger_ (span n))) eqn:E;
    [apply Hf in E; lia|]. rewrite Z.add_0_l.
  assert (anc (ledger_ (span m)) (end_ (span n)) = startID (span c)) as Hstart.
  { unfold startID. rewrite Hst. apply (anc_history _ _ (end_ (span c) - 1)); lia || done. }
  rewrite (nsum_only_child _ n i c Hi); [by apply IH|].
  intros j d Hj Hne.
  apply (nsum_other_child _ n j d s (ledger_ (span m))); try done; [lia|].
  rewrite Hstart. intros E'. apply Hne. symmetry. by apply (siblings_differ n i j c d).
Qed.

(** So their support is the branch support of that node. *)
Lemma descendsAt_sum s i p n m :
  wf n -> node_at p n = Some m ->
  start_ (span m) <= s < end_ (span m) -> anc (ledger_ (span m)) s = i ->
  nsum (descendsAt s i) n = branchSup m.
Proof.
  intros Hwf Hm Hr Hid. destruct (node_at_below p n m Hwf Hm) as (Hwm & _).
  destruct (wf_inv m Hwm) as ([Hs He] & _).
  rewrite (nsum_focus _ s p n m); [|done..|].
  - rewrite <- nsum_all by done. apply nsum_ext; [done|].
    intros q a Hsa Ha. unfold descendsAt. apply andb_true_iff. split; [apply Z.leb_le; lia|].
    apply Z.eqb_eq. rewrite <- Hid. apply (anc_history _ _ (end_ (span m) - 1)); lia || done.
  - intros q a Hq Hb. unfold descendsAt in Hb. b2p. split; [done|]. by rewrite Hid.
Qed.

(** [find] locates the descendants of a ledger. *)
Lemma found_descends l n p q :
  found l n p q -> wf n -> reach l n ->
  exists loc, node_at p n = Some loc
    /\ nsum (descends l) n =
       if (seq l <? q) && (seq l <? end_ (span loc)) then branchSup loc else 0.
Proof.
  pose proof (seq_range l) as Hl.
  induction 1 as [n Hne|n E Hall|n i c p q E Hi Hlt Hf IH]; intros Hwf Hr;
    destruct (wf_inv n Hwf) as ([Hs He] & _ & _ & _ & Hcs & Hco & _);
    pose proof (mismatch_range (ledger_ (span n)) l) as Hmr;
    rewrite (diff_reach l n Hr) in *; unfold reach in Hr.
  - exists n. split; [done|].
    assert (mismatch (ledger_ (span n)) l < end_ (span n)) as Hin by lia.
    rewrite Z.min_l by lia.
    destruct (Z.ltb_spec (seq l) (mismatch (ledger_ (span n)) l)) as [Hlt|Hge].
    + rewrite (proj2 (Z.ltb_lt _ _)) by lia.
      apply (descendsAt_sum (seq l) (lid l) [] n n); try done; [lia|]. rewrite lid_anc.
      apply (mismatch_spec (ledger_ (span n)) l); lia.
    + simpl. apply nsum_zero; [done|]. intros s a Hsa Ha.
      destruct (descends l s a) eqn:Ed; [exfalso|done]. unfold descends, descendsAt in Ed. b2p.
      rewrite lid_anc in *.
      assert (mismatch (ledger_ (span n)) l < mismatch (ledger_ (span n)) l); [|lia].
      apply (mismatch_spec (ledger_ (span n)) l); [lia|].
      rewrite <- (anc_history a (ledger_ (span n)) (end_ (span n) - 1)) by (done || lia).
      apply (anc_history a l (seq l)); lia || done.
  - exists n. split; [done|]. rewrite andb_diag.
    destruct (Z.ltb_spec (seq l) (end_ (span n))) as [Hlt|Hge].
    + apply (descendsAt_sum (seq l) (lid l) [] n n); try done; [lia|]. rewrite lid_anc.
      apply (mismatch_spec (ledger_ (span n)) l); lia.
    + rewrite nsum_unfold. unfold descends at 1, descendsAt at 1. rewrite (proj2 (Z.leb_gt _ _)) by lia. simpl.
      rewrite zsum_fmap_zero; [done|]. apply Forall_forall. intros c Hc.
      rewrite Forall_forall in Hcs, Hco, Hall.
      specialize (Hall c Hc). destruct (Hco c Hc) as [Hst Hlink].
      destruct (wf_inv c (Hcs c Hc)) as ([Hsc Hec] & _).
      apply nsum_zero; [by apply Hcs|]. intros s a Hsa Ha.
      destruct (descends l s a) eqn:Ed; [exfalso|done]. unfold descends, descendsAt in Ed. b2p.
      rewrite lid_anc in *.
      assert (end_ (span n) < mismatch (ledger_ (span c)) l);
        [|unfold diff, clamp in Hall; lia].
      apply (mismatch_spec (ledger_ (span c)) l); [lia|].
      rewrite <- (anc_history a (ledger_ (span c)) (end_ (span c) - 1)) by (done || lia).
      apply (anc_history a l (seq l)); lia || done.
  - destruct (wf_child n i c Hwf Hi) as (Hwc & [Hst Hlink] & _).
    destruct (wf_inv c Hwc) as ([Hsc Hec] & _).
    assert (end_ (span n) < mismatch (ledger_ (span c)) l) as Hmc
      by (unfold diff, clamp in Hlt; lia).
    pose proof (mismatch_range (ledger_ (span c)) l) as Hmrc.
    destruct IH as (loc & Hloc & Hsum); [done|unfold reach; lia|].
    exists loc. simpl. rewrite Hi. split; [done|]. rewrite <- Hsum.
    rewrite nsum_unfold. unfold descends at 1, descendsAt at 1. rewrite (proj2 (Z.leb_gt _ _)) by lia. simpl.
    apply nsum_only_child with i; [done|]. intros j d Hj Hne.
    apply (nsum_other_child _ n j d (seq l) l); try done.
    + lia.
    + assert (anc l (end_ (span n)) = startID (span c)) as ->.
      { unfold startID. rewrite Hst. symmetry.
        apply (mismatch_spec (ledger_ (span c)) l); lia. }
      intros E'. apply Hne. symmetry. by apply (siblings_differ n i j c d).
    + intros s b Hsb Hb. unfold descends, descendsAt in Hb. b2p. split; [lia|]. by rewrite <- lid_anc.
Qed.

Lemma branchSupport_sum l t : wf_trie t -> branchSupport l t = nsum (descends l) (root t).
Proof.
  intros Hwf. pose proof Hwf as (Hw & _). unfold branchSupport.
  pose proof (hasID_sum (lid l) (root t) Hw) as Hid. pose proof (seq_range l).
  destruct (findByLedgerID (lid l) (root t)) as [p|]; simpl.
  - destruct Hid as (m & Hm & Hi & _). rewrite Hm. symmetry.
    destruct (node_at_below p _ m Hw Hm) as (Hwm & _).
    destruct (wf_inv m Hwm) as ([Hs He] & _).
    pose proof Hi as Hu. rewrite lid_anc in Hu. apply anc_unique in Hu; [|lia..].
    apply (descendsAt_sum (seq l) (lid l) p _ m); try done; [lia|]. by rewrite <- Hu.
  - pose proof (find_found l (root t)) as Hf. destruct (find l (root t)) as [p q].
    destruct (found_descends l _ p q Hf Hw (wf_trie_reach l t Hwf)) as (loc & -> & ->). done.
Qed.

(** ** [remove] *)

(** Removing support for a ledger without tip support changes nothing. *)
Lemma remove_absent l k t :
  wf_trie t -> tipSupport l t = 0 -> remove l k t = (false, t).
Proof.
  intros (Hw & _) H0. unfold tipSupport in H0. unfold remove.
  pose proof (hasID_sum (lid l) (root t) Hw) as Hid.
  destruct (findByLedgerID (lid l) (root t)) as [p|]; simpl in *; [|done].
  destruct Hid as (m & Hm & _). rewrite Hm in *. by rewrite (proj2 (Z.eqb_eq _ _)).
Qed.

(** Otherwise the support goes down by [k], or to zero if there is less. *)
Lemma remove_present l k t :
  wf_trie t -> 0 < k -> tipSupport l t <> 0 ->
  exists t', remove l k t = (true, t') /\ wf_trie t'
    /\ branchSup (root t') = branchSup (root t) - Z.min k (tipSupport l t)
    /\ forall f, respects f -> nsum f (root t') =
         nsum f (root t) - (if f (seq l) l then Z.min k (tipSupport l t) else 0).
Proof.
  intros Hwf Hk Hts. pose proof Hwf as (Hw & Hs & He & Hseq). unfold tipSupport in *. unfold remove.
  pose proof (hasID_sum (lid l) (root t) Hw) as Hid. pose proof (seq_range l) as Hl.
  destruct (findByLedgerID (lid l) (root t)) as [p|]; simpl in *; [|done].
  destruct Hid as (m & Hm & Hi & Hns). rewrite Hm in *.
  destruct (node_at_below p _ m Hw Hm) as (Hwm & _).
  destruct (wf_inv m Hwm) as ([Hsm Hem] & Htm & _).
  rewrite (proj2 (Z.eqb_neq (tipSup m) 0)) by done.
  set (d := Z.min k (tipSup m)). assert (0 < d <= tipSup m) as Hd by lia.
  rewrite dec_eq, compress_compressF by done.
  pose proof (comp_dec_pruned d p (root t) m Hw Hm Hd) as Hpr.
  rewrite compressF_comp; last first.
  { clear -Hm. revert Hm. generalize (root t).
    induction p as [|i p IH]; intros n Hm; simpl in *; [done|].
    destruct (children n !! i) as [c|] eqn:Hi; [|done].
    rewrite (alter_insert_list _ i _ c Hi), list_lookup_insert_eq by by eapply lookup_lt_Some.
    simpl. by apply IH. }
  destruct (comp p (dec p (- d) (root t))) as [r go]. simpl in Hpr.
  destruct Hpr as [Pwf Psp Pbr _ Pns].
  rewrite lid_anc in Hi. pose proof Hi as Hu. apply anc_unique in Hu; [|lia..].
  assert (forall f, respects f -> nsum f r = nsum f (root t) - (if f (seq l) l then d else 0)) as Hsum.
  { intros f Hf. rewrite Pns, Hu. rewrite (Hf (seq l) (ledger_ (span m)) l); [done|lia..|].
    by rewrite <- Hi, Hu. }
  eexists. split; [done|]. split; [|done].
  split_and!; simpl; [done|by rewrite Psp..|].
  intros s. pose proof (Hsum _ (respects_hasSeq s)) as Es.
  change (hasSeq s (seq l) l) with (seq l =? s) in Es. specialize (Hseq s) as Hs'.
  pose proof (nsum_nonneg (hasSeq s) _ Pwf) as Hnn.
  pose proof (nsum_le (hasSeq s) _ Hw) as Hle. destruct (wf_inv _ Hw) as (_ & _ & _ & Hlt & _).
  cbv zeta in *. destruct (decide (s = seq l)) as [->|Hne].
  - rewrite Hs', Z.eqb_refl in *. rewrite Es in *.
    rewrite (proj2 (Z.eqb_neq (nsum (hasSeq (seq l)) (root t)) 0)) in * by lia.
    rewrite u32_id by lia.
    case_match; [apply lookup_delete_eq|apply lookup_insert_eq].
  - rewrite (proj2 (Z.eqb_neq (seq l) s)), Z.sub_0_r in Es by done. rewrite Es, <- Hs'.
    repeat case_match; rewrite ?lookup_delete_ne, ?lookup_insert_ne by done; done.
Qed.

(** ** Refinement: the trie is a multiset of ledgers *)

Definition votes (f : Z -> L -> bool) (M : list L) : Z :=
  zsum ((fun l => if f (seq l) l then 1 else 0) <$> M).

Record represents (t : LedgerTrie L) (M : list L) : Prop := {
  rep_wf : wf_trie t;
  rep_sum : forall f, respects f -> nsum f (root t) = votes f M;
}.

Lemma votes_cons f l M : votes f (l :: M) = (if f (seq l) l then 1 else 0) + votes f M.
Proof. done. Qed.

Lemma votes_all M : votes (fun _ _ => true) M = Z.of_nat (length M).
Proof. induction M as [|l M IH]; [done|]. rewrite votes_cons, IH. simpl. lia. Qed.

Lemma votes_perm f M M' : M ≡ₚ M' -> votes f M = votes f M'.
Proof. intros Hp. unfold votes. by rewrite Hp. Qed.

Lemma represents_size t M : represents t M -> branchSup (root t) = Z.of_nat (length M).
Proof.
  intros [(Hw & _) Hs]. rewrite <- nsum_all, <- votes_all by done. by apply Hs.
Qed.

Lemma represents_perm t M M' : M ≡ₚ M' -> represents t M -> represents t M'.
Proof. intros Hp [Hw Hs]. split; [done|]. intros f Hf. rewrite Hs by done. by apply votes_perm. Qed.

#[export] Instance represents_proper :
  Proper (eq ==> (≡ₚ) ==> iff) represents.
Proof. intros t ? <- M M' Hp. by split; apply represents_perm. Qed.

Lemma represents_empty : represents empty_trie [].
Proof.
  split; [apply empty_wf|]. intros f _. unfold empty_trie, node_default. simpl.
  rewrite nsum_unfold. simpl. unfold votes, zsum. simpl. by destruct (f _ _).
Qed.

Lemma represents_insert l t M :
  represents t M -> Z.of_nat (length M) + 1 < 2 ^ 32 -> represents (insert l 1 t) (l :: M).
Proof.
  intros Hr Hlen. pose proof (represents_size t M Hr) as Hsz. destruct Hr as [Hw Hs].
  split; [apply insert_wf; [done|lia..]|]. intros f Hf.
  destruct (wf_trie_grafted l 1 t Hw ltac:(lia) ltac:(lia)) as [_ _ _ _ _ _ ->]; [|done].
  rewrite votes_cons, Hs by done. lia.
Qed.

Lemma represents_remove l l' t M :
  represents t (l' :: M) -> lid l' = lid l ->
  exists t', remove l 1 t = (true, t') /\ represents t' M.
Proof.
  intros [Hw Hs] Hid. pose proof (seq_range l). pose proof (seq_range l').
  assert (seq l' = seq l) as Hseq by (rewrite !lid_anc in Hid; apply anc_unique in Hid; lia || done).
  assert (forall f, respects f -> f (seq l') l' = f (seq l) l) as Hf.
  { intros f Hf. rewrite Hseq. apply Hf; [lia..|]. rewrite !lid_anc in Hid. by rewrite <- Hseq at 1. }
  assert (1 <= tipSupport l t) as Hts.
  { rewrite tipSupport_sum, Hs by (done || apply respects_hasID).
    rewrite votes_cons. rewrite (Hf _ (respects_hasID _)).
    unfold hasID at 1. rewrite <- lid_anc, Z.eqb_refl.
    assert (0 <= votes (hasID (lid l)) M); [|lia].
    apply zsum_nonneg, Forall_fmap, Forall_forall. intros x _. simpl. by case_match. }
  destruct (remove_present l 1 t Hw ltac:(lia) ltac:(lia)) as (t' & Hr & Hw' & _ & Hs').
  exists t'. split; [done|]. split; [done|]. intros f Hff.
  rewrite Hs', Hs, votes_cons, (Hf f) by done. rewrite Z.min_l by lia. lia.
Qed.

Lemma represents_tipSupport l t M :
  represents t M -> tipSupport l t = votes (hasID (lid l)) M.
Proof. intros [Hw Hs]. rewrite tipSupport_sum by done. apply Hs, respects_hasID. Qed.

Lemma represents_branchSupport l t M :
  represents t M -> branchSupport l t = votes (descends l) M.
Proof. intros [Hw Hs]. rewrite branchSupport_sum by done. apply Hs, respects_descends. Qed.

Lemma represents_seqSupport k t M :
  represents t M ->
  seqSupport t !! k = let v := votes (hasSeq k) M in if v =? 0 then None else Some v.
Proof. intros [(_ & _ & _ & Hq) Hs]. rewrite Hq. by rewrite Hs by apply respects_hasSeq. Qed.

(** ** The self-check accepts every reachable trie *)

Lemma node_invariants_wf (is_root : bool) n :
  wf n -> (is_root = false -> compressed n) -> node_invariants is_root n = true.
Proof.
  revert is_root; induction n as [sp ts bs cs IH] using Node_ind'.
  intros is_root Hwf Hc. pose proof (wf_children_sum _ Hwf) as Hz.
  destruct (wf_inv _ Hwf) as (_ & Ht & Hb & Hlt & Hcs & _ & Hco & _). simpl in *.
  rewrite !andb_true_iff. split_and!.
  - destruct is_root; [done|]. specialize (Hc eq_refl). unfold compressed in Hc. simpl in Hc.
    destruct (Z.eqb_spec ts 0); simpl; [apply Z.leb_le; lia|done].
  - apply Z.eqb_eq. rewrite u64_id; lia.
  - apply forallb_forall. intros c Hc'%list_elem_of_In. rewrite Forall_forall in IH, Hcs, Hco. auto.
Qed.

Definition stored (v : Z) : option Z := if v =? 0 then None else Some v.

(** [F] adds the tally [h], of at most [w] votes, to the map it is given. *)
Definition tallies (F : gmap Z Z -> gmap Z Z) (w : Z) (h : Z -> Z) : Prop :=
  (forall k, 0 <= h k <= w) /\
  forall (m : gmap Z Z) g, (forall k, 0 <= g k /\ g k + w < 2 ^ 32 /\ m !! k = stored (g k)) ->
  forall k, F m !! k = stored (g k + h k).

Lemma tallies_comp F F' w w' h h' :
  tallies F w h -> tallies F' w' h' ->
  tallies (fun m : gmap Z Z => F' (F m)) (w + w') (fun k => h k + h' k).
Proof.
  intros [Hh HF] [Hh' HF']. split.
  - intros k. specialize (Hh k). specialize (Hh' k). lia.
  - intros m g Hg k. rewrite (HF' (F m) (fun k => g k + h k)); [f_equal; lia|].
    intros j. destruct (Hg j) as (? & ? & ?). pose proof (Hh j). pose proof (Hh' j).
    split_and!; [lia..|]. apply HF. intros i. destruct (Hg i) as (? & ? & ?).
    pose proof (Hh' i). split_and!; [lia..|done].
Qed.

Lemma tallies_tip s ts :
  0 <= s < 2 ^ 32 -> 0 <= ts ->
  tallies (fun m : gmap Z Z => if ts =? 0 then m
                    else <[s := u32 (default 0 (m !! s) + ts)]> m) ts
    (fun k => if s =? k then ts else 0).
Proof.
  intros Hs Ht. split; [intros k; case_match; lia|].
  intros m g Hg k. destruct (Hg k) as (Hk0 & Hk1 & Hk2).
  destruct (Z.eqb_spec ts 0) as [->|]; [rewrite Hk2; by case_match; rewrite Z.add_0_r|].
  destruct (Z.eqb_spec s k) as [->|].
  - rewrite lookup_insert_eq, Hk2. unfold stored. destruct (Z.eqb_spec (g k) 0); simpl;
      rewrite u32_id by lia; rewrite (proj2 (Z.eqb_neq _ 0)) by lia; f_equal; lia.
  - rewrite lookup_insert_ne, Hk2 by done. by rewrite Z.add_0_r.
Qed.

Lemma tallies_foldr cs :
  Forall (fun c => tallies (expectedSeqSupport c) (branchSup c) (fun k => nsum (hasSeq k) c)) cs ->
  tallies (fun m : gmap Z Z => foldr expectedSeqSupport m cs) (zsum (branchSup <$> cs))
    (fun k => zsum (nsum (hasSeq k) <$> cs)).
Proof.
  induction 1 as [|c cs Hc _ IH].
  - split; [done|]. intros m g Hg k. simpl. destruct (Hg k) as (_ & _ & ->).
    change (zsum []) with 0. by rewrite Z.add_0_r.
  - rewrite fmap_cons, zsum_cons, Z.add_comm.
    destruct (tallies_comp _ _ _ _ _ _ IH Hc) as [H1 H2]. split.
    + intros k. rewrite fmap_cons, zsum_cons. specialize (H1 k). simpl in H1. lia.
    + intros m g Hg k. rewrite fmap_cons, zsum_cons. simpl. rewrite (H2 m g Hg k). f_equal. lia.
Qed.

Lemma expectedSeqSupport_tallies n :
  wf n -> tallies (expectedSeqSupport n) (branchSup n) (fun k => nsum (hasSeq k) n).
Proof.
  induction n as [sp ts bs cs IH] using Node_ind'. intros Hwf.
  destruct (wf_inv _ Hwf) as ([Hs He] & Ht & Hb & Hlt & Hcs & _). simpl in *.
  pose proof (seq_range (ledger_ sp)) as Hr.
  destruct (tallies_comp _ _ _ _ _ _ (tallies_tip (u32 (end_ sp - 1)) ts ltac:(apply u32_range) Ht)
    (tallies_foldr cs ltac:(rewrite Forall_forall in *; auto))) as [H1 H2].
  rewrite <- Hb in *. split; [intros k; specialize (H1 k)|intros m g Hg k; specialize (H2 m g Hg k)];
    rewrite nsum_unfold; simpl in *; rewrite u32_id in * by lia; done.
Qed.

Lemma checkInvariants_wf t : wf_trie t -> checkInvariants t = true.
Proof.
  intros (Hw & _ & _ & Hs). apply andb_true_iff. split; [by apply node_invariants_wf|].
  apply bool_decide_eq_true. apply map_eq. intros k. rewrite Hs.
  destruct (expectedSeqSupport_tallies _ Hw) as [_ HF].
  rewrite (HF ∅ (fun _ => 0)); [done|]. intros j.
  destruct (wf_inv _ Hw) as (_ & _ & _ & Hlt & _). split_and!; [lia..|done].
Qed.

End Queries.
