(* ===== verification/Preferred.v ===== *)
(** * The preferred ledger

    [getPreferred] walks the compressed trie span by span, jumping between the
    sequence numbers at which support changes.  This file states the rule it
    implements ledger by ledger, over the plain multiset of validated ledgers,
    and proves that the walk finds exactly the ledger of that rule. *)

From S2P Require Import Prelude LedgerTrie LedgerTrieFacts TrieQueries.

(** ** Consuming the entries of [seqSupport] *)

Section Entries.
Implicit Types (E it : list (Z * Z)).

(** The support recorded for sequences below [b]. *)
Definition below (b : Z) (E : list (Z * Z)) : Z :=
  zsum ((fun e => if e.1 <? b then e.2 else 0) <$> E).

(** The iterator stands at [it] after the entries below [b] were added up. *)
Record consumed (E : list (Z * Z)) (b : Z) (it : list (Z * Z)) (unc : Z) : Prop := {
  co_split : exists pre, E = pre ++ it /\ Forall (fun e => e.1 < b) pre
               /\ unc = zsum (snd <$> pre);
  co_rest : Forall (fun e => b <= e.1) it;
}.

Lemma consumed_below E b it unc : consumed E b it unc -> unc = below b E.
Proof.
  intros [(pre & -> & Hpre & ->) Hit]. unfold below. rewrite fmap_app, zsum_app.
  rewrite (zsum_fmap_zero _ it), Z.add_0_r.
  - apply zsum_fmap_ext. eapply Forall_impl; [exact Hpre|]. intros e He. simpl in *.
    by rewrite (proj2 (Z.ltb_lt _ _)).
  - eapply Forall_impl; [exact Hit|]. intros e He. simpl in *.
    by rewrite (proj2 (Z.ltb_ge _ _)).
Qed.

Lemma consumed_mono E b b' it unc :
  consumed E b it unc -> b <= b' -> Forall (fun e => b' <= e.1) it -> consumed E b' it unc.
Proof.
  intros [(pre & HE & Hpre & ->) _] Hb Hit. split; [|done]. exists pre. split_and!; [done| |done].
  eapply Forall_impl; [exact Hpre|]. simpl. lia.
Qed.

Record sound_entries (E : list (Z * Z)) : Prop := {
  se_sorted : StronglySorted keyLt E;
  se_nonneg : Forall (fun e => 0 <= e.2) E;
  se_total : zsum (snd <$> E) < 2 ^ 32;
}.

(** Reading one more entry. *)
Lemma consumed_next E b k v it unc b' :
  sound_entries E -> consumed E b ((k, v) :: it) unc -> k < b' -> b <= b' ->
  consumed E (k + 1) it (u32 (unc + v)) /\
  (forall b'', b <= b'' <= k -> consumed E b'' ((k, v) :: it) unc).
Proof.
  intros [Hs Hn Ht] Hc Hk Hb. split.
  - destruct Hc as [(pre & HE & Hpre & ->) Hit].
    assert (E = (pre ++ [(k, v)]) ++ it) as HE' by by rewrite <- app_assoc.
    assert (zsum (snd <$> pre) + v = zsum (snd <$> (pre ++ [(k, v)]))) as Hv.
    { rewrite fmap_app, zsum_app. simpl. unfold zsum at 3. simpl. lia. }
    rewrite HE' in Hn, Ht. apply Forall_app in Hn as [Hn1 Hn2].
    rewrite fmap_app, zsum_app in Ht.
    assert (0 <= zsum (snd <$> (pre ++ [(k, v)]))) by by apply zsum_nonneg, Forall_fmap.
    assert (0 <= zsum (snd <$> it)) by by apply zsum_nonneg, Forall_fmap.
    apply Forall_cons in Hit as [Hkb Hit]. simpl in Hkb.
    rewrite Hv, u32_id by lia. split.
    + exists (pre ++ [(k, v)]). split_and!; [done| |done]. apply Forall_app. split.
      * eapply Forall_impl; [exact Hpre|]. simpl. lia.
      * forall_list. simpl. lia.
    + rewrite HE in Hs. apply StronglySorted_app in Hs as (_ & _ & Hs).
      apply StronglySorted_inv in Hs as [_ Hs].
      eapply Forall_impl; [exact Hs|]. intros e. unfold keyLt. simpl. lia.
  - intros b'' Hb''. pose proof Hc as [(pre & HE & _) _].
    apply consumed_mono with b; [done|lia|]. rewrite HE in Hs.
    apply StronglySorted_app in Hs as (_ & _ & Hs). apply StronglySorted_inv in Hs as [_ Hs].
    apply Forall_cons. simpl. split; [lia|].
    eapply Forall_impl; [exact Hs|]. intros e. unfold keyLt. simpl. lia.
Qed.

Lemma take_uncommitted_consumed E b b' it unc :
  sound_entries E -> consumed E b it unc -> b <= b' ->
  consumed E b' (take_uncommitted b' it unc).1 (take_uncommitted b' it unc).2.
Proof.
  intros HE. revert b unc; induction it as [|[k v] it IH]; intros b unc Hc Hb; simpl.
  - by apply consumed_mono with b.
  - destruct (Z.ltb_spec k b') as [Hk|Hk].
    + destruct (consumed_next E b k v it unc b' HE Hc Hk Hb) as [Hn _].
      apply (IH (k + 1)); [done|lia].
    + destruct (consumed_next E b k v it unc (k + 1) HE Hc ltac:(lia) ltac:(lia)) as [_ Hn].
      simpl. apply Hn. lia.
Qed.

(** [advance] moves [nextSeq] to the first sequence of the span at which the
    branch no longer exceeds the uncommitted support. *)
Lemma advance_spec E largestIssued stop branch it nextSeq unc :
  sound_entries E -> consumed E (Z.max nextSeq largestIssued) it unc -> nextSeq <= stop ->
  let '(it', n', unc') := advance stop branch it nextSeq unc in
  nextSeq <= n' <= stop /\ consumed E (Z.max n' largestIssued) it' unc'
  /\ (forall q, nextSeq <= q < n' -> below (Z.max q largestIssued) E < branch)
  /\ (n' < stop -> branch <= unc').
Proof.
  intros HE. revert nextSeq unc; induction it as [|[k v] it IH]; intros nextSeq unc Hc Hn; simpl.
  - pose proof (consumed_below _ _ _ _ Hc) as Hu.
    destruct (Z.ltb_spec nextSeq stop); destruct (Z.ltb_spec unc branch); simpl;
      split_and!; try done; try lia.
    + apply consumed_mono with (Z.max nextSeq largestIssued); [done|lia|constructor].
    + intros q Hq. rewrite <- (consumed_below E (Z.max q largestIssued) [] unc); [done|].
      apply consumed_mono with (Z.max nextSeq largestIssued); [done|lia|constructor].
  - destruct (Z.ltb_spec nextSeq stop) as [Hs|]; destruct (Z.ltb_spec unc branch) as [Hb|]; simpl;
      try (split_and!; (done || lia)).
    pose proof Hc as [_ [Hk _]%Forall_cons]. simpl in Hk.
    destruct (Z.ltb_spec k stop) as [Hks|Hks].
    + destruct (consumed_next E _ k v it unc (k + 1) HE Hc ltac:(lia) ltac:(lia)) as [H1 H2].
      specialize (IH (k + 1) (u32 (unc + v))).
      destruct (advance stop branch it (k + 1) (u32 (unc + v))) as [[it' n'] unc'].
      destruct IH as (Hn' & Hc' & Hq' & Hb').
      { replace (Z.max (k + 1) largestIssued) with (k + 1) by lia. done. }
      { lia. }
      split_and!; [lia..|done| |done].
      intros q Hq. destruct (decide (k + 1 <= q)); [apply Hq'; lia|].
      rewrite <- (consumed_below E (Z.max q largestIssued) ((k, v) :: it) unc); [done|].
      apply H2. lia.
    + destruct (consumed_next E _ k v it unc (k + 1) HE Hc ltac:(lia) ltac:(lia)) as [_ H2].
      split_and!; [lia..|apply H2; lia| |lia].
      intros q Hq. rewrite <- (consumed_below E (Z.max q largestIssued) ((k, v) :: it) unc); [done|].
      apply H2. lia.
Qed.

(** Splitting off the entry of one key. *)
Lemma below_delete b m k :
  below b (map_to_list m) =
  (if k <? b then default 0 (m !! k) else 0) + below b (map_to_list (delete k m)).
Proof.
  destruct (m !! k) as [v|] eqn:Hk.
  - unfold below. by rewrite <- (map_to_list_delete m k v Hk), fmap_cons, zsum_cons.
  - rewrite delete_id by done. simpl. case_match; lia.
Qed.

Lemma below_entries b m : below b (entries m) = below b (map_to_list m).
Proof. unfold below. by rewrite entries_perm. Qed.

End Entries.

Section Preferred.
Context {L : Type} {LO : LedgerOps L} {LL : LedgerLaws L}.
Implicit Types (n m c d : Node L) (l a : L) (t : LedgerTrie L) (sp : Span L) (M : list L).

Lemma votes_nonneg f M : 0 <= votes f M.
Proof. apply zsum_nonneg, Forall_fmap, Forall_forall. intros x _. simpl. by case_match. Qed.

Lemma votes_le_length f M : votes f M <= Z.of_nat (length M).
Proof.
  induction M as [|l M IH]; [done|]. rewrite votes_cons. simpl length. case_match; lia.
Qed.

Lemma votes_pos f M : 0 < votes f M <-> exists x, x ∈ M /\ f (seq x) x = true.
Proof.
  induction M as [|l M IH].
  - change (votes f []) with 0. split; [lia|]. intros (x & Hx & _). by apply elem_of_nil in Hx.
  - rewrite votes_cons. pose proof (votes_nonneg f M) as Hn. split.
    + destruct (f (seq l) l) eqn:E; [intros _; exists l; split; [left|done]|].
      intros (x & ? & ?)%IH. exists x. split; [by right|done].
    + intros (x & [->|Hx]%elem_of_cons & E); [rewrite E; lia|].
      assert (0 < votes f M) by (apply IH; eauto). case_match; lia.
Qed.

(** Summing the per-sequence counts below [b] counts the ledgers below [b]. *)
Lemma below_votes b M : forall m : gmap Z Z,
  (forall k, m !! k = stored (votes (hasSeq k) M)) ->
  below b (map_to_list m) = votes (fun q _ => q <? b) M.
Proof.
  induction M as [|l M IH]; intros m Hm.
  - assert (m = ∅) as -> by by apply map_eq. done.
  - set (m' := partial_alter (fun _ => stored (votes (hasSeq (seq l)) M)) (seq l) m).
    assert (forall k, m' !! k = stored (votes (hasSeq k) M)) as Hm'.
    { intros k. subst m'. destruct (decide (k = seq l)) as [->|Hne].
      - by rewrite lookup_partial_alter_eq.
      - rewrite lookup_partial_alter_ne, Hm, votes_cons by done. unfold hasSeq at 1.
        by rewrite (proj2 (Z.eqb_neq (seq l) k)). }
    rewrite votes_cons, <- (IH m' Hm'), (below_delete b m (seq l)),
      (below_delete b m' (seq l)), Hm', Hm, votes_cons.
    subst m'. rewrite delete_partial_alter_eq.
    unfold hasSeq at 1. rewrite Z.eqb_refl.
    pose proof (votes_nonneg (hasSeq (seq l)) M). unfold stored.
    destruct (Z.eqb_spec (1 + votes (hasSeq (seq l)) M) 0); [lia|].
    destruct (Z.eqb_spec (votes (hasSeq (seq l)) M) 0); simpl; case_match; lia.
Qed.

Lemma represents_entries t M :
  represents t M ->
  sound_entries (entries (seqSupport t))
  /\ (forall b, below b (entries (seqSupport t)) = votes (fun q _ => q <? b) M)
  /\ Forall (fun e => 0 <= e.1) (entries (seqSupport t)).
Proof.
  intros Hr.
  assert (forall k, seqSupport t !! k = stored (votes (hasSeq k) M)) as Hq
    by (intros k; by apply represents_seqSupport).
  assert (forall b, below b (entries (seqSupport t)) = votes (fun q _ => q <? b) M) as Hb
    by (intros b; rewrite below_entries; by apply below_votes).
  assert (Forall (fun e => 0 <= e.1 < 2 ^ 32 /\ 0 <= e.2) (entries (seqSupport t))) as Hf.
  { rewrite entries_perm. apply Forall_forall. intros [k v] Hkv%elem_of_map_to_list. simpl.
    rewrite Hq in Hkv. unfold stored in Hkv. pose proof (votes_nonneg (hasSeq k) M).
    destruct (Z.eqb_spec (votes (hasSeq k) M) 0); [done|]. simplify_eq.
    destruct (proj1 (votes_pos (hasSeq k) M)) as (x & _ & Hx); [lia|]. unfold hasSeq in Hx. b2p.
    pose proof (seq_range x). lia. }
  split_and!; [split; [apply entries_sorted|..]|done|].
  - eapply Forall_impl; [exact Hf|]. simpl. lia.
  - replace (zsum _) with (below (2 ^ 32) (entries (seqSupport t))).
    + rewrite Hb. pose proof (votes_le_length (fun q _ => q <? 2 ^ 32) M).
      pose proof (represents_size t M Hr) as Hz. destruct Hr as [(Hw & _) _].
      destruct (wf_inv _ Hw) as (_ & _ & _ & ? & _). lia.
    + apply zsum_fmap_ext. eapply Forall_impl; [exact Hf|]. intros e [He _].
      by rewrite (proj2 (Z.ltb_lt _ _)) by lia.
  - eapply Forall_impl; [exact Hf|]. simpl. lia.
Qed.

(** ** The best child *)

(** Child [d] wins against its siblings whichever way the [U] uncommitted
    validators vote; a tie goes to the larger identifier. *)
Definition dominates (cs : list (Node L)) (U : Z) (k : nat) (d : Node L) : Prop :=
  U < branchSup d /\
  forall k' d', cs !! k' = Some d' -> k' <> k ->
    U + branchSup d' < branchSup d + (if startID (span d') <? startID (span d) then 1 else 0).

Lemma keyGt_trans (a b c : Z * Z) : keyGt a b = false -> keyGt b c = false -> keyGt a c = false.
Proof. unfold keyGt. intros. b2p. apply orb_false_iff. lia. Qed.

Lemma keyGt_irrefl (a : Z * Z) : keyGt a a = false.
Proof. unfold keyGt. lia. Qed.

Lemma keyGt_asym (a b : Z * Z) : keyGt a b = true -> keyGt b a = false.
Proof. unfold keyGt. lia. Qed.

Lemma argmax_spec ks : forall i best,
  let r := argmax i best ks in
  (r = best \/ exists j, r.1 = (i + j)%nat /\ ks !! j = Some r.2)
  /\ keyGt best.2 r.2 = false /\ Forall (fun k => keyGt k r.2 = false) ks.
Proof.
  induction ks as [|k ks IH]; intros i best; simpl.
  - split_and!; [by left|apply keyGt_irrefl|constructor].
  - set (best' := if keyGt k best.2 then (i, k) else best).
    destruct (IH (S i) best') as (H1 & H2 & H3).
    assert (keyGt k best'.2 = false /\ keyGt best.2 best'.2 = false) as [Hk Hb].
    { subst best'. destruct (keyGt k best.2) eqn:E; simpl.
      - split; [apply keyGt_irrefl|by apply keyGt_asym].
      - split; [done|apply keyGt_irrefl]. }
    split_and!.
    + destruct H1 as [E|(j & Hj & Hl)].
      * rewrite E. subst best'. destruct (keyGt k best.2); [|by left].
        right. exists 0%nat. simpl. by rewrite Nat.add_0_r.
      * right. exists (S j). simpl. split; [lia|done].
    + by apply keyGt_trans with best'.2.
    + apply Forall_cons. split; [|done]. by apply keyGt_trans with best'.2.
Qed.

Lemma argmax_head k ks :
  let r := argmax 1 (0%nat, k) ks in
  (k :: ks) !! r.1 = Some r.2 /\ Forall (fun x => keyGt x r.2 = false) (k :: ks).
Proof.
  destruct (argmax_spec ks 1 (0%nat, k)) as (H1 & H2 & H3). split.
  - destruct H1 as [->|(j & Hj & Hl)]; [done|]. rewrite Hj. done.
  - by apply Forall_cons.
Qed.

Definition margin_of (best second : Z * Z) : Z :=
  let margin := u32 (best.1 - second.1) in
  if second.2 <? best.2 then u32 (margin + 1) else margin.

(** The two first elements of the partial sort. *)
Lemma bestChild_top_two c1 c2 cs' :
  let cs := c1 :: c2 :: cs' in
  exists i c j d, cs !! i = Some c /\ cs !! j = Some d /\ j <> i
    /\ bestChild cs = Some (i, margin_of (keyOf c) (keyOf d))
    /\ (forall k e, cs !! k = Some e -> keyGt (keyOf e) (keyOf c) = false)
    /\ (forall k e, cs !! k = Some e -> k <> i -> keyGt (keyOf e) (keyOf d) = false).
Proof.
  intros cs. unfold bestChild.
  change (keyOf <$> cs) with (keyOf c1 :: keyOf c2 :: (keyOf <$> cs')).
  cbv iota. set (ks := keyOf c2 :: (keyOf <$> cs')).
  destruct (argmax 1 (0%nat, keyOf c1) ks) as [i best] eqn:E1.
  pose proof (argmax_head (keyOf c1) ks) as [Hi Hmax]. rewrite E1 in Hi, Hmax. simpl in Hi, Hmax.
  change (keyOf c1 :: ks) with (keyOf <$> cs) in *.
  rewrite list_lookup_fmap in Hi. destruct (cs !! i) as [c|] eqn:Hc; [|done].
  simpl in Hi. simplify_eq. pose proof (lookup_lt_Some _ _ _ Hc) as Hlt.
  destruct (delete i (keyOf <$> cs)) as [|k' ks'] eqn:Hdel.
  { apply (f_equal length) in Hdel. rewrite length_delete, length_fmap in Hdel.
    - subst cs. simpl in Hdel. lia.
    - rewrite list_lookup_fmap, Hc. done. }
  pose proof (argmax_head k' ks') as [H2 Hmax2].
  set (second := argmax 1 (0%nat, k') ks') in *. rewrite <- Hdel in H2, Hmax2.
  assert (forall k e, cs !! k = Some e -> k <> i -> keyOf e ∈ delete i (keyOf <$> cs)) as Hin.
  { intros k e Hk Hne. apply list_elem_of_lookup.
    exists (if decide (k < i)%nat then k else pred k).
    destruct (decide (k < i)%nat).
    - rewrite list_lookup_delete_lt, list_lookup_fmap, Hk by lia. done.
    - rewrite list_lookup_delete_ge, list_lookup_fmap by lia.
      replace (S (pred k)) with k by lia. by rewrite Hk. }
  assert (exists j d, cs !! j = Some d /\ j <> i /\ keyOf d = second.2) as (j & d & Hj & Hne & Hd).
  { destruct (decide (second.1 < i)%nat).
    - rewrite list_lookup_delete_lt, list_lookup_fmap in H2 by lia.
      destruct (cs !! second.1) as [d|] eqn:Hj; [|done]. simpl in H2.
      exists second.1, d. split_and!; [done|lia|congruence].
    - rewrite list_lookup_delete_ge, list_lookup_fmap in H2 by lia.
      destruct (cs !! S second.1) as [d|] eqn:Hj; [|done]. simpl in H2.
      exists (S second.1), d. split_and!; [done|lia|congruence]. }
  exists i, c, j, d. rewrite Hd. rewrite Forall_forall in Hmax, Hmax2. split_and!; try done.
  - intros k e Hk. apply Hmax. rewrite list_elem_of_fmap. exists e.
    split; [done|by eapply list_elem_of_lookup_2].
  - intros k e Hk Hki. by apply Hmax2, Hin with k.
Qed.

Lemma child_ids_distinct cs i j c d :
  NoDup (startID ∘ span <$> cs) -> cs !! i = Some c -> cs !! j = Some d ->
  i <> j -> startID (span c) <> startID (span d).
Proof.
  intros Hnd Hi Hj Hne E. apply Hne.
  apply (NoDup_lookup (startID ∘ span <$> cs) i j (startID (span c))); [done|..];
    rewrite list_lookup_fmap; [by rewrite Hi|rewrite Hj]. simpl. by rewrite E.
Qed.

(** What the margin computed by the source means. *)
Lemma bestChild_spec cs :
  Forall (fun c => 0 < branchSup c < 2 ^ 32) cs -> NoDup (startID ∘ span <$> cs) ->
  match bestChild cs with
  | None => cs = []
  | Some (i, margin) => exists c, cs !! i = Some c /\ 0 < margin
      /\ (forall U, 0 <= U < margin -> dominates cs U i c)
      /\ (forall U, 0 <= U -> margin <= U -> forall k d, cs !! k = Some d -> ~ dominates cs U k d)
  end.
Proof.
  intros Hpos Hnd.
  destruct cs as [|c1 [|c2 cs']]; [done| |].
  - simpl. exists c1. apply Forall_cons in Hpos as [Hp _]. split_and!; [done|simpl; lia|..].
    + intros U HU. split; [simpl in *; lia|]. by intros [|] d' Hd' Hne.
    + intros U _ HU [|k] d Hd; [|done]. simpl in *. simplify_eq. intros [? _]. lia.
  - destruct (bestChild_top_two c1 c2 cs') as (i & c & j & d & Hi & Hj & Hne & -> & Hmax & Hmax2).
    set (cs := c1 :: c2 :: cs') in *. exists c. split; [done|].
    rewrite Forall_lookup in Hpos. pose proof (Hpos i c Hi). pose proof (Hpos j d Hj).
    pose proof (child_ids_distinct cs j i d c Hnd Hj Hi Hne) as Hdc.
    assert (margin_of (keyOf c) (keyOf d) = branchSup c - branchSup d
              + (if startID (span d) <? startID (span c) then 1 else 0)) as Hm.
    { unfold margin_of. specialize (Hmax j d Hj). unfold keyGt, keyOf in *. simpl in *.
      rewrite (u32_id (branchSup c - branchSup d)) by lia.
      case_match; [|lia]. rewrite u32_id; lia. }
    rewrite Hm. pose proof (Hmax j d Hj) as Hjm. unfold keyGt, keyOf in Hjm. simpl in Hjm.
    split_and!; [destruct (Z.ltb_spec (startID (span d)) (startID (span c))); lia|..].
    + intros U HU. split; [case_match; lia|]. intros k e Hk Hki.
      pose proof (child_ids_distinct cs k i e c Hnd Hk Hi Hki).
      pose proof (Hmax2 k e Hk Hki) as Hkm. unfold keyGt, keyOf in Hkm. simpl in Hkm.
      destruct (Z.ltb_spec (startID (span d)) (startID (span c)));
        destruct (Z.ltb_spec (startID (span e)) (startID (span c))); lia.
    + intros U HU0 HU k e Hk [He Hall]. destruct (decide (k = i)) as [->|Hki].
      * simplify_eq. specialize (Hall j d Hj Hne). lia.
      * specialize (Hall i c Hi ltac:(done)). pose proof (Hmax k e Hk) as Hkm.
        pose proof (child_ids_distinct cs k i e c Hnd Hk Hi Hki).
        unfold keyGt, keyOf in Hkm. simpl in Hkm.
        destruct (Z.ltb_spec (startID (span c)) (startID (span e))); lia.
Qed.

(** ** The rule

    A ledger is named by its sequence number and identifier.  [support] counts
    the validations of a ledger and its descendants, [uncommitted] the
    validators that could still validate any ledger of sequence [q]. *)

Definition support M (s i : Z) : Z := votes (descendsAt s i) M.
Definition uncommitted M (largestIssued q : Z) : Z :=
  votes (fun k _ => k <? Z.max q largestIssued) M.

(** [j] is a validated successor of the ledger [i] of sequence [s]. *)
Definition candidate M (s i j : Z) : Prop :=
  exists x, x ∈ M /\ s < seq x /\ anc x s = i /\ anc x (s + 1) = j.

(** The preferred successor beats every other one even if all the uncommitted
    validators vote for that other one, or for a ledger not seen yet. *)
Inductive prefers M (largestIssued : Z) : Z * Z -> Z * Z -> Prop :=
| prefers_next s i j :
    candidate M s i j ->
    uncommitted M largestIssued (s + 1) < support M (s + 1) j ->
    (forall j', candidate M s i j' -> j' <> j ->
       uncommitted M largestIssued (s + 1) + support M (s + 1) j'
       < support M (s + 1) j + (if j' <? j then 1 else 0)) ->
    prefers M largestIssued (s, i) (s + 1, j).

Lemma prefers_functional M largestIssued x y z :
  prefers M largestIssued x y -> prefers M largestIssued x z -> y = z.
Proof.
  intros Hy. inversion Hy as [s i j Hc1 Hu1 Hall1]; subst. intros Hz.
  inversion Hz as [s' i' j' Hc2 Hu2 Hall2]; subst.
  destruct (decide (j = j')) as [->|Hne]; [done|exfalso].
  specialize (Hall1 j' Hc2 ltac:(done)). specialize (Hall2 j Hc1 ltac:(done)).
  pose proof (votes_nonneg (fun k _ => k <? Z.max (s + 1) largestIssued) M).
  unfold uncommitted in *.
  destruct (Z.ltb_spec j' j); destruct (Z.ltb_spec j j'); lia.
Qed.

(** ** The rule on the trie *)

Definition extends (s i j : Z) : Z -> L -> bool :=
  fun q a => (s <? q) && (anc a s =? i) && (anc a (s + 1) =? j).

Lemma respects_extends s i j : 0 <= s -> respects (extends s i j).
Proof.
  intros Hs q a b Ha Hb E. unfold extends. destruct (Z.ltb_spec s q); [simpl|done].
  by rewrite (anc_history a b q s), (anc_history a b q (s + 1)) by (done || lia).
Qed.

Section Node.
Context (t : LedgerTrie L) (M : list L) (Hrep : represents t M).
Context (p : list nat) (n : Node L) (Hat : node_at p (root t) = Some n).

Lemma candidate_sum s j :
  start_ (span n) <= s < end_ (span n) ->
  candidate M s (anc (ledger_ (span n)) s) j <->
  0 < nsum (extends s (anc (ledger_ (span n)) s) j) n.
Proof using Hrep Hat LL.
  intros Hs. destruct Hrep as [(Hw & _) Hsum].
  destruct (node_at_below p _ n Hw Hat) as (Hwn & _). destruct (wf_inv n Hwn) as ([Hs0 _] & _).
  rewrite <- (nsum_focus _ s p (root t) n Hw Hat Hs).
  - rewrite Hsum, votes_pos by (apply respects_extends; lia). unfold candidate, extends.
    split; intros (x & Hx & Hrest); exists x.
    + destruct Hrest as (H1 & -> & ->). split; [done|].
      rewrite !Z.eqb_refl, (proj2 (Z.ltb_lt _ _)) by done. done.
    + b2p. done.
  - intros q a Hq Ha. unfold extends in Ha. b2p. split; [lia|done].
Qed.

Lemma support_sum s :
  start_ (span n) <= s < end_ (span n) ->
  support M s (anc (ledger_ (span n)) s) = branchSup n.
Proof using Hrep Hat LL.
  intros Hs. destruct Hrep as [(Hw & _) Hsum].
  destruct (node_at_below p _ n Hw Hat) as (Hwn & _). destruct (wf_inv n Hwn) as ([Hs0 _] & _).
  unfold support. rewrite <- Hsum by (apply respects_descendsAt; lia).
  by apply (descendsAt_sum s _ p).
Qed.

(** Inside a span there is one candidate, supported by the whole branch. *)
Lemma candidate_inside s j :
  start_ (span n) <= s -> s + 1 < end_ (span n) ->
  candidate M s (anc (ledger_ (span n)) s) j <->
  0 < branchSup n /\ j = anc (ledger_ (span n)) (s + 1).
Proof using Hrep Hat LL.
  intros H1 H2. rewrite candidate_sum by lia. destruct Hrep as [(Hw & _) _].
  destruct (node_at_below p _ n Hw Hat) as (Hwn & _). destruct (wf_inv n Hwn) as ([Hs0 He] & _).
  assert (forall q a, end_ (span n) - 1 <= q <= seq a ->
     anc a (end_ (span n) - 1) = anc (ledger_ (span n)) (end_ (span n) - 1) ->
     extends s (anc (ledger_ (span n)) s) j q a = (anc (ledger_ (span n)) (s + 1) =? j)) as Hx.
  { intros q a Hq Ha. unfold extends. rewrite (proj2 (Z.ltb_lt s q)) by lia.
    rewrite (anc_history a (ledger_ (span n)) (end_ (span n) - 1) s) by (done || lia).
    rewrite (anc_history a (ledger_ (span n)) (end_ (span n) - 1) (s + 1)) by (done || lia).
    by rewrite Z.eqb_refl. }
  destruct (Z.eqb_spec (anc (ledger_ (span n)) (s + 1)) j) as [E|E].
  - rewrite (nsum_ext _ (fun _ _ => true)), nsum_all by done. naive_solver.
  - rewrite nsum_zero by done. split; [lia|naive_solver].
Qed.

(** At the end of a span the candidates are the children. *)
Lemma candidate_end j :
  candidate M (end_ (span n) - 1) (anc (ledger_ (span n)) (end_ (span n) - 1)) j <->
  exists k c, children n !! k = Some c /\ j = startID (span c).
Proof using Hrep Hat LL.
  destruct Hrep as [(Hw & _) _].
  destruct (node_at_below p _ n Hw Hat) as (Hwn & _). destruct (wf_inv n Hwn) as ([Hs0 He] & _).
  rewrite candidate_sum by lia. rewrite nsum_unfold. unfold extends at 1.
  rewrite (proj2 (Z.ltb_ge _ _)) by lia. simpl. rewrite Z.add_0_l.
  assert (forall k c, children n !! k = Some c ->
    nsum (extends (end_ (span n) - 1) (anc (ledger_ (span n)) (end_ (span n) - 1)) j) c
    = if startID (span c) =? j then branchSup c else 0) as Hc.
  { intros k c Hk. destruct (wf_child n k c Hwn Hk) as (Hwc & [Hst Hlink] & _).
    destruct (wf_inv c Hwc) as ([Hsc Hec] & _).
    assert (forall q a, end_ (span c) - 1 <= q <= seq a ->
     anc a (end_ (span c) - 1) = anc (ledger_ (span c)) (end_ (span c) - 1) ->
     extends (end_ (span n) - 1) (anc (ledger_ (span n)) (end_ (span n) - 1)) j q a
     = (startID (span c) =? j)) as Hx.
    { intros q a Hq Ha. unfold extends, startID. rewrite (proj2 (Z.ltb_lt _ q)) by lia.
      replace (end_ (span n) - 1 + 1) with (start_ (span c)) by lia.
      rewrite <- Hlink.
      rewrite !(anc_history a (ledger_ (span c)) (end_ (span c) - 1)) by (done || lia).
      by rewrite Z.eqb_refl. }
    case_match.
    - by rewrite (nsum_ext _ (fun _ _ => true)), nsum_all.
    - by rewrite nsum_zero. }
  split.
  - intros Hpos. destruct (decide (Exists (fun c => startID (span c) = j) (children n))) as [Hex|Hno].
    + apply Exists_exists in Hex as (c & (k & Hk)%list_elem_of_lookup & <-). by exists k, c.
    + exfalso. rewrite zsum_fmap_zero in Hpos; [lia|]. apply Forall_lookup. intros k c Hk.
      rewrite (Hc k c Hk). case_match; [|done]. b2p. exfalso. apply Hno.
      apply Exists_exists. exists c. split; [by eapply list_elem_of_lookup_2|done].
  - intros (k & c & Hk & ->). destruct (wf_child n k c Hwn Hk) as (Hwc & _ & Hcc).
    rewrite (delete_Permutation (children n) k c), fmap_cons, zsum_cons, (Hc k c Hk), Z.eqb_refl by done.
    pose proof (wf_branch_pos c Hwc Hcc).
    assert (0 <= zsum (nsum (extends (end_ (span n) - 1)
      (anc (ledger_ (span n)) (end_ (span n) - 1)) (startID (span c))) <$> delete k (children n))); [|lia].
    apply zsum_nonneg, Forall_fmap, Forall_delete, Forall_lookup. intros k' c' Hk'.
    apply nsum_nonneg. by apply (wf_child n k' c').
Qed.

Context (largestIssued : Z).
Local Abbreviation U := (uncommitted M largestIssued).

Lemma U_nonneg q : 0 <= U q.
Proof using. apply votes_nonneg. Qed.

Lemma prefers_inside s z :
  start_ (span n) <= s -> s + 1 < end_ (span n) ->
  prefers M largestIssued (s, anc (ledger_ (span n)) s) z <->
  U (s + 1) < branchSup n /\ z = (s + 1, anc (ledger_ (span n)) (s + 1)).
Proof using Hrep Hat LL.
  intros H1 H2. pose proof (U_nonneg (s + 1)) as HU. split.
  - intros Hp. inversion Hp as [s' i j Hc Hu Hall]; subst.
    apply candidate_inside in Hc as [Hb ->]; [|done..].
    rewrite support_sum in Hu by lia. done.
  - intros [Hu ->]. constructor.
    + apply candidate_inside; [done..|]. split; [lia|done].
    + rewrite support_sum by lia. done.
    + intros j' [_ ->]%candidate_inside Hne; done.
Qed.

Lemma prefers_along s s' :
  start_ (span n) <= s <= s' -> s' < end_ (span n) ->
  (forall q, s < q <= s' -> U q < branchSup n) ->
  rtc (prefers M largestIssued) (s, anc (ledger_ (span n)) s) (s', anc (ledger_ (span n)) s').
Proof using Hrep Hat LL.
  intros Hs Hs'. replace s' with (s + Z.of_nat (Z.to_nat (s' - s))) in * by lia.
  induction (Z.to_nat (s' - s)) as [|k IH]; intros Hq.
  - rewrite Z.add_0_r. done.
  - eapply rtc_r; [apply IH; [lia..|intros q ?; apply Hq; lia]|].
    apply prefers_inside; [lia..|]. split; [apply Hq; lia|]. f_equal; [lia|f_equal; lia].
Qed.

End Node.

Lemma node_at_snoc p n m k : node_at p n = Some m -> node_at (p ++ [k]) n = children m !! k.
Proof.
  revert n; induction p as [|i p IH]; intros n Hm; simpl in *; simplify_eq.
  - by destruct (children m !! k).
  - destruct (children n !! i) as [c|]; simpl in *; [by apply IH|done].
Qed.

Section Walk.
Context (t : LedgerTrie L) (M : list L) (Hrep : represents t M) (largestIssued : Z).
Local Abbreviation U := (uncommitted M largestIssued).
Local Abbreviation R := (prefers M largestIssued).

(** At the end of a span the rule chooses a dominating child, if there is one. *)
Lemma prefers_end p n z :
  node_at p (root t) = Some n ->
  R (end_ (span n) - 1, anc (ledger_ (span n)) (end_ (span n) - 1)) z <->
  exists k c, children n !! k = Some c /\ dominates (children n) (U (end_ (span n))) k c
    /\ z = (start_ (span c), startID (span c)).
Proof using Hrep LL.
  intros Hat. pose proof Hrep as [(Hw & _) _].
  destruct (node_at_below p _ n Hw Hat) as (Hwn & _).
  assert (forall k c, children n !! k = Some c -> start_ (span c) = end_ (span n)
    /\ support M (end_ (span n)) (startID (span c)) = branchSup c) as Hsup.
  { intros k c Hk. destruct (wf_child n k c Hwn Hk) as (Hwc & [Hst _] & _).
    destruct (wf_inv c Hwc) as ([Hsc _] & _). split; [done|]. rewrite <- Hst.
    apply (support_sum t M Hrep (p ++ [k]) c); [by rewrite (node_at_snoc _ _ n)|lia]. }
  split.
  - intros Hp. inversion Hp as [s i j Hc Hu Hall]; subst. rewrite Z.sub_add in *.
    apply (candidate_end t M Hrep p n Hat) in Hc as (k & c & Hk & ->).
    destruct (Hsup k c Hk) as [Hst Hb]. rewrite Hb in *.
    exists k, c. split; [done|]. split; [|by rewrite Hst]. split; [done|].
    intros k' d Hk' Hne. destruct (Hsup k' d Hk') as [_ Hb']. rewrite <- Hb'. apply Hall.
    + apply (candidate_end t M Hrep p n Hat). by exists k', d.
    + intros E. apply Hne. by apply (siblings_differ n k' k d c).
  - intros (k & c & Hk & [Hu Hall] & ->). destruct (Hsup k c Hk) as [Hst Hb].
    replace (start_ (span c)) with (end_ (span n) - 1 + 1) by lia.
    constructor; rewrite ?Z.sub_add, ?Hb.
    + apply (candidate_end t M Hrep p n Hat). by exists k, c.
    + done.
    + intros j' Hj' Hne. apply (candidate_end t M Hrep p n Hat) in Hj' as (k' & d & Hk' & ->).
      destruct (Hsup k' d Hk') as [_ Hb']. rewrite Hb'. apply (Hall k'); [done|].
      intros ->. by simplify_eq.
Qed.

Lemma children_bestChild n :
  wf n ->
  match bestChild (children n) with
  | None => children n = []
  | Some (i, margin) => exists c, children n !! i = Some c /\ 0 < margin
      /\ (forall U, 0 <= U < margin -> dominates (children n) U i c)
      /\ (forall U, 0 <= U -> margin <= U ->
            forall k d, children n !! k = Some d -> ~ dominates (children n) U k d)
  end.
Proof using LL.
  intros Hwf. destruct (wf_inv n Hwf) as (_ & _ & _ & Hlt & _ & _ & _ & Hnd).
  apply bestChild_spec; [|done]. apply Forall_lookup. intros k c Hk.
  destruct (wf_child n k c Hwf Hk) as (Hwc & _ & Hcc). pose proof (wf_branch_pos c Hwc Hcc).
  pose proof (wf_child_branch n k c Hwf Hk). lia.
Qed.

(** The walk along one span. *)
Lemma span_walk p n it b unc :
  node_at p (root t) = Some n ->
  consumed (entries (seqSupport t)) b it unc -> b <= Z.max (start_ (span n) + 1) largestIssued ->
  let '(it1, unc1) := take_uncommitted (Z.max (start_ (span n) + 1) largestIssued) it unc in
  let '(it2, n', unc2) :=
    advance (end_ (span n)) (branchSup n) it1 (start_ (span n) + 1) unc1 in
  start_ (span n) + 1 <= n' <= end_ (span n)
  /\ consumed (entries (seqSupport t)) (Z.max n' largestIssued) it2 unc2
  /\ unc2 = U n'
  /\ rtc R (start_ (span n), startID (span n)) (n' - 1, anc (ledger_ (span n)) (n' - 1))
  /\ (n' < end_ (span n) -> branchSup n <= U n').
Proof using Hrep LL.
  intros Hat Hco Hb. destruct (represents_entries t M Hrep) as (HE & HU & _).
  pose proof Hrep as [(Hw & _) _]. destruct (node_at_below p _ n Hw Hat) as (Hwn & _).
  destruct (wf_inv n Hwn) as ([Hs He] & _).
  pose proof (take_uncommitted_consumed _ _ _ _ _ HE Hco Hb) as H1.
  destruct (take_uncommitted _ it unc) as [it1 unc1]. simpl in H1.
  pose proof (advance_spec _ largestIssued (end_ (span n)) (branchSup n) it1 _ unc1 HE H1
                ltac:(lia)) as H2.
  destruct (advance _ _ it1 _ unc1) as [[it2 n'] unc2]. destruct H2 as (Hn' & H2 & Hq & Hstop).
  pose proof (consumed_below _ _ _ _ H2) as Hu2. rewrite HU in Hu2.
  fold (uncommitted M largestIssued n') in Hu2. split_and!; [lia..|done|done| |].
  - apply (prefers_along t M Hrep p n Hat largestIssued); [lia..|].
    intros q Hq'. unfold uncommitted. rewrite <- HU. apply Hq. lia.
  - intros Hlt. rewrite <- Hu2. by apply Hstop.
Qed.

Lemma preferredFrom_spec n : forall p it b unc,
  node_at p (root t) = Some n ->
  consumed (entries (seqSupport t)) b it unc -> b <= Z.max (start_ (span n) + 1) largestIssued ->
  let tp := preferredFrom largestIssued n it unc in
  rtc R (start_ (span n), startID (span n)) (tipSeq tp, tipID tp) /\ nf R (tipSeq tp, tipID tp).
Proof using Hrep LL.
  pose proof Hrep as [(Hw & _) _].
  induction n as [sp ts bs cs IH] using Node_ind'. intros p it b unc Hat Hco Hb.
  set (n := mkNode sp ts bs cs) in *.
  destruct (node_at_below p _ n Hw Hat) as (Hwn & _).
  destruct (wf_inv n Hwn) as ([Hs He] & _). simpl in Hs, He.
  pose proof (seq_range (ledger_ sp)) as Hr.
  pose proof (span_walk p n it b unc Hat Hco Hb) as Hspan.
  simpl in *. rewrite (u32_id (start_ sp + 1)) by lia.
  destruct (take_uncommitted _ it unc) as [it1 unc1].
  destruct (advance (end_ sp) bs it1 (start_ sp + 1) unc1) as [[it2 n'] unc2].
  destruct Hspan as (Hn' & H2 & -> & Hwalk & Hstop).
  destruct (Z.ltb_spec n' (end_ sp)) as [Hlt|Hge].
  - assert (default sp (span_before sp n')
            = {| start_ := start_ sp; end_ := n'; ledger_ := ledger_ sp |}) as ->.
    { unfold span_before, sub, clamp. rewrite (proj2 (Z.ltb_lt _ _)) by lia. simpl. f_equal; lia. }
    simpl. rewrite u32_id by lia. split; [done|]. intros [z Hz].
    apply (prefers_inside t M Hrep p n Hat) in Hz as [Hz _]; simpl in *; [|lia..].
    rewrite Z.sub_add in Hz. specialize (Hstop Hlt). lia.
  - assert (n' = end_ sp) as -> by lia. pose proof (children_bestChild n Hwn) as Hbest.
    assert (forall z, R (end_ sp - 1, anc (ledger_ sp) (end_ sp - 1)) z <-> _) as Hend
      by (intros z; exact (prefers_end p n z Hat)).
    simpl in Hbest, Hend. pose proof (votes_nonneg (fun k _ => k <? Z.max (end_ sp) largestIssued) M : 0 <= U (end_ sp)) as HU.
    assert (tipSeq (tip sp) = end_ sp - 1 /\ tipID (tip sp) = anc (ledger_ sp) (end_ sp - 1))
      as [Ht1 Ht2] by (simpl; by rewrite u32_id by lia).
    destruct (bestChild cs) as [[i margin]|].
    + destruct Hbest as (c & Hi & Hm & Hdom & Hnot).
      destruct (Z.ltb_spec (U (end_ sp)) margin) as [Hlt'|Hge'].
      * simpl. rewrite list_lookup_fmap, Hi. simpl. rewrite Forall_forall in IH.
        destruct (wf_child n i c Hwn Hi) as (Hwc & [Hst _] & _). simpl in Hst.
        destruct (IH c ltac:(by eapply list_elem_of_lookup_2) (p ++ [i]) it2
          (Z.max (end_ sp) largestIssued) (U (end_ sp))) as [H3 H4]; [|done|lia|].
        { by rewrite (node_at_snoc _ _ n). }
        split; [|done]. etrans; [done|]. eapply rtc_l; [|exact H3].
        apply Hend. exists i, c. split_and!; [done| |done]. by apply Hdom.
      * rewrite (proj2 (Z.eqb_neq _ 0)) by lia. cbn [orb]. rewrite Ht1, Ht2. split; [done|].
        intros [z (k & d & Hk & Hd & _)%Hend]. by apply (Hnot (U (end_ sp)) HU Hge' k d).
    + rewrite Ht1, Ht2. split; [done|]. intros [z (k & d & Hk & _)%Hend]. by subst cs.
Qed.

(** [getPreferred] finds the end of the walk by the rule from the genesis ledger. *)
Lemma getPreferred_spec :
  match getPreferred largestIssued t with
  | None => M = []
  | Some tp => M <> [] /\ rtc R (0, lid genesis) (tipSeq tp, tipID tp) /\ nf R (tipSeq tp, tipID tp)
  end.
Proof using Hrep LL.
  pose proof (represents_size t M Hrep) as Hsz. unfold getPreferred, empty.
  destruct (Z.eqb_spec (branchSup (root t)) 0) as [E|E].
  - destruct M; [done|simpl in Hsz; lia].
  - split; [by intros ->|]. pose proof Hrep as [(Hw & H0 & H1 & _) _].
    replace (0, lid genesis) with (start_ (span (root t)), startID (span (root t))).
    + apply (preferredFrom_spec (root t) [] _ 0 0 eq_refl); [|lia].
      destruct (represents_entries t M Hrep) as (_ & _ & Hk). split; [by exists []|done].
    + unfold startID. rewrite H0. f_equal. by rewrite lid_anc, seq_genesis, anc_genesis.
Qed.

End Walk.

End Preferred.
