(* ===== verification/RCLValidations.v ===== *)
(** * Ledgers as the trie sees them

    [RCLValidatedLedger] of [RCLValidations.cpp]: a ledger with the hashes of
    its recent ancestors.  The file shows that these ledgers satisfy the
    interface [LedgerLaws] the trie relies on, as long as their skip lists
    reach back to the first ledger, and what [mismatch] does beyond that. *)

From S2P Require Import Prelude LedgerTrie.

Record RCLValidatedLedger := {
  ledgerID_ : Z;
  ledgerSeq_ : Z;
  ancestors_ : list Z;
}.

#[export] Instance RCLValidatedLedger_eq_dec : EqDecision RCLValidatedLedger.
Proof. solve_decision. Defined.

Definition makeGenesis : RCLValidatedLedger :=
  {| ledgerID_ := 0; ledgerSeq_ := 0; ancestors_ := [] |}.

(** The constructor from a ledger: [skip] is the content of its skip list. *)
Definition validatedLedger (hash seq : Z) (skip : option (list Z)) : RCLValidatedLedger :=
  {| ledgerID_ := hash; ledgerSeq_ := seq; ancestors_ := default [] skip |}.

Definition minSeq (x : RCLValidatedLedger) : Z :=
  ledgerSeq_ x - Z.min (ledgerSeq_ x) (u32 (Z.of_nat (length (ancestors_ x)))).

(** [operator[]]. *)
Definition ancestor (x : RCLValidatedLedger) (s : Z) : Z :=
  if (minSeq x <=? s) && (s <=? ledgerSeq_ x) then
    if s =? ledgerSeq_ x then ledgerID_ x
    else
      let diff := ledgerSeq_ x - s in
      default 0 (ancestors_ x !! Z.to_nat (Z.of_nat (length (ancestors_ x)) - diff))
  else 0.

Section Mismatch.
Variables a b : RCLValidatedLedger.

(** [while (curr != 0 && a[curr] != b[curr] && curr >= lower) --curr]. *)
Fixpoint descend (lower : Z) (curr : nat) : nat :=
  match curr with
  | O => O
  | S curr' =>
      if negb (ancestor a (Z.of_nat curr) =? ancestor b (Z.of_nat curr))
         && (lower <=? Z.of_nat curr)
      then descend lower curr'
      else curr
  end.

Definition mismatch_ : Z :=
  let lower := Z.max (minSeq a) (minSeq b) in
  let upper := Z.min (ledgerSeq_ a) (ledgerSeq_ b) in
  let curr := Z.of_nat (descend lower (Z.to_nat upper)) in
  if curr <? lower then 1 else curr + 1.

(** The search stops at the last common ancestor in the searched interval. *)
Lemma descend_spec lower k :
  let c := descend lower k in
  (c <= k)%nat
  /\ (forall j, (c < j <= k)%nat -> ancestor a (Z.of_nat j) <> ancestor b (Z.of_nat j)
                              /\ lower <= Z.of_nat j)
  /\ (c = O \/ ancestor a (Z.of_nat c) = ancestor b (Z.of_nat c) \/ Z.of_nat c < lower).
Proof.
  induction k as [|k IH]; simpl; [split_and!; [lia..|by left]|].
  change (Z.pos (Pos.of_succ_nat k)) with (Z.of_nat (S k)).
  destruct (Z.eqb_spec (ancestor a (Z.of_nat (S k))) (ancestor b (Z.of_nat (S k)))) as [E|E]; simpl.
  - split_and!; [lia..|]. right; by left.
  - destruct (Z.leb_spec lower (Z.of_nat (S k))) as [Hl|Hl].
    + destruct IH as (H1 & H2 & H3). split_and!; [lia| |done].
      intros j Hj. destruct (decide (j = S k)) as [->|]; [done|]. apply H2. lia.
    + split_and!; [lia..|]. right; right. lia.
Qed.

(** Ledgers whose known histories do not overlap are taken to differ from the
    first ledger on, whatever their real ancestry. *)
Lemma mismatch_disjoint :
  0 <= ledgerSeq_ a -> 0 <= ledgerSeq_ b ->
  Z.min (ledgerSeq_ a) (ledgerSeq_ b) < Z.max (minSeq a) (minSeq b) -> mismatch_ = 1.
Proof.
  intros Ha Hb Hd. unfold mismatch_.
  destruct (descend_spec (Z.max (minSeq a) (minSeq b))
    (Z.to_nat (Z.min (ledgerSeq_ a) (ledgerSeq_ b)))) as (H1 & _).
  rewrite (proj2 (Z.ltb_lt _ _)) by lia. done.
Qed.

End Mismatch.

(** ** Ledgers with a complete history *)

(** What a ledger hash commits to: [history i] is the list of the hashes of the
    ancestors of the ledger [i], from sequence 1 on.  A chain of parents has
    the chain of each of its members as a prefix, and no hash is zero. *)
Class Chain := {
  history : Z -> list Z;
  history_prefix : forall i k j,
    (history i ++ [i]) !! k = Some j -> history j ++ [j] = take (S k) (history i ++ [i]);
  history_nonzero : forall i, 0 ∉ history i;
}.

Section Complete.
Context {CH : Chain}.

Definition complete (x : RCLValidatedLedger) : Prop :=
  x = makeGenesis \/
  (ledgerID_ x <> 0 /\ ancestors_ x = history (ledgerID_ x)
   /\ ledgerSeq_ x = Z.of_nat (length (ancestors_ x)) + 1 /\ ledgerSeq_ x < 2 ^ 32 - 1).

#[export] Instance complete_dec x : Decision (complete x).
Proof. unfold complete. apply _. Defined.

Definition chain (x : RCLValidatedLedger) : list Z := ancestors_ x ++ [ledgerID_ x].

Lemma complete_seq x : complete x -> 0 <= ledgerSeq_ x < 2 ^ 32 - 1.
Proof. intros [->|(_ & _ & ? & ?)]; simpl; lia. Qed.

Lemma complete_minSeq x : complete x -> 0 <= minSeq x <= 1.
Proof.
  intros [->|(_ & _ & Hs & Hl)]; [done|]. unfold minSeq. rewrite u32_id by lia. lia.
Qed.

Lemma ancestor_zero x : complete x -> ancestor x 0 = 0.
Proof.
  intros [->|(Hi & Ha & Hs & Hl)]; [done|]. unfold ancestor, minSeq.
  rewrite u32_id by lia. destruct (Z.leb_spec (ledgerSeq_ x - Z.min (ledgerSeq_ x) (Z.of_nat (length (ancestors_ x)))) 0); [lia|done].
Qed.

Lemma ancestor_chain x s :
  complete x -> 1 <= s <= ledgerSeq_ x ->
  chain x !! Z.to_nat (s - 1) = Some (ancestor x s) /\ ancestor x s <> 0.
Proof.
  intros [->|(Hi & Ha & Hs & Hl)] Hr; [simpl in Hr; lia|]. unfold ancestor, minSeq, chain.
  rewrite u32_id by lia.
  rewrite (proj2 (Z.leb_le _ _)), (proj2 (Z.leb_le _ _)) by lia. simpl.
  destruct (Z.eqb_spec s (ledgerSeq_ x)) as [->|Hne].
  - split; [|done]. rewrite lookup_app_r by lia.
    replace (Z.to_nat (ledgerSeq_ x - 1) - length (ancestors_ x))%nat with 0%nat by lia. done.
  - rewrite lookup_app_l by lia.
    replace (Z.of_nat (length (ancestors_ x)) - (ledgerSeq_ x - s)) with (s - 1) by lia.
    destruct (lookup_lt_is_Some_2 (ancestors_ x) (Z.to_nat (s - 1)) ltac:(lia)) as [j Hj].
    rewrite Hj. split; [done|]. simpl. intros ->.
    apply (history_nonzero (ledgerID_ x)). rewrite <- Ha. by eapply list_elem_of_lookup_2.
Qed.

(** The hash of an ancestor determines its chain. *)
Lemma ancestor_prefix x s :
  complete x -> 1 <= s <= ledgerSeq_ x ->
  history (ancestor x s) ++ [ancestor x s] = take (Z.to_nat s) (chain x).
Proof.
  intros Hx Hs. destruct (ancestor_chain x s Hx Hs) as [Hl _].
  destruct Hx as [->|(Hi & Ha & _)]; [simpl in Hs; lia|].
  unfold chain in *. rewrite Ha in *. rewrite (history_prefix _ _ _ Hl). f_equal. lia.
Qed.

Lemma chain_length x : complete x -> ledgerID_ x <> 0 -> Z.of_nat (length (chain x)) = ledgerSeq_ x.
Proof.
  intros [->|(_ & _ & Hs & _)] H0; [done|]. unfold chain. rewrite length_app. simpl. lia.
Qed.

Lemma ancestor_unique x y s s' :
  complete x -> complete y -> 0 <= s <= ledgerSeq_ x -> 0 <= s' <= ledgerSeq_ y ->
  ancestor x s = ancestor y s' -> s = s'.
Proof.
  intros Hx Hy Hs Hs' E.
  destruct (decide (s = 0)) as [->|H0]; destruct (decide (s' = 0)) as [->|H0']; [done|..].
  - rewrite ancestor_zero in E by done. destruct (ancestor_chain y s'); [done|lia|congruence].
  - rewrite ancestor_zero in E by done. destruct (ancestor_chain x s); [done|lia|congruence].
  - pose proof (ancestor_prefix x s Hx ltac:(lia)) as P1.
    pose proof (ancestor_prefix y s' Hy ltac:(lia)) as P2. rewrite E, P2 in P1.
    apply (f_equal length) in P1. rewrite !length_take in P1.
    assert (ledgerID_ x <> 0) by (destruct Hx as [->|[]]; [simpl in *; lia|done]).
    assert (ledgerID_ y <> 0) by (destruct Hy as [->|[]]; [simpl in *; lia|done]).
    pose proof (chain_length x Hx). pose proof (chain_length y Hy). lia.
Qed.

Lemma ancestor_history x y s p :
  complete x -> complete y -> 0 <= p <= s -> s <= ledgerSeq_ x -> s <= ledgerSeq_ y ->
  ancestor x s = ancestor y s -> ancestor x p = ancestor y p.
Proof.
  intros Hx Hy Hp Hs Hs' E. destruct (decide (p = 0)) as [->|]; [by rewrite !ancestor_zero|].
  pose proof (ancestor_prefix x s Hx ltac:(lia)) as P1.
  pose proof (ancestor_prefix y s Hy ltac:(lia)) as P2. rewrite E, P2 in P1.
  destruct (ancestor_chain x p Hx ltac:(lia)) as [Lx _].
  destruct (ancestor_chain y p Hy ltac:(lia)) as [Ly _].
  rewrite <- (lookup_take_lt (chain x) (Z.to_nat s)) in Lx by lia.
  rewrite <- (lookup_take_lt (chain y) (Z.to_nat s)) in Ly by lia. congruence.
Qed.

Lemma complete_mismatch_range a b :
  complete a -> complete b -> 1 <= mismatch_ a b <= Z.min (ledgerSeq_ a) (ledgerSeq_ b) + 1.
Proof.
  intros Ha%complete_seq Hb%complete_seq. unfold mismatch_.
  destruct (descend_spec a b (Z.max (minSeq a) (minSeq b))
    (Z.to_nat (Z.min (ledgerSeq_ a) (ledgerSeq_ b)))) as (H1 & _). case_match; lia.
Qed.

Lemma complete_mismatch_spec a b s :
  complete a -> complete b -> 0 <= s <= Z.min (ledgerSeq_ a) (ledgerSeq_ b) ->
  s < mismatch_ a b <-> ancestor a s = ancestor b s.
Proof.
  intros Ha Hb Hs. pose proof (complete_minSeq a Ha). pose proof (complete_minSeq b Hb).
  unfold mismatch_. set (lower := Z.max (minSeq a) (minSeq b)).
  destruct (descend_spec a b lower
    (Z.to_nat (Z.min (ledgerSeq_ a) (ledgerSeq_ b)))) as (H1 & H2 & H3).
  set (c := descend a b lower _) in *.
  assert (Z.of_nat c < s -> ancestor a s <> ancestor b s) as Hgt.
  { intros Hc. specialize (H2 (Z.to_nat s) ltac:(lia)). rewrite Z2Nat.id in H2 by lia. tauto. }
  assert (s <= Z.of_nat c -> (c = O \/ ancestor a (Z.of_nat c) = ancestor b (Z.of_nat c)) ->
          ancestor a s = ancestor b s) as Hle.
  { intros Hc [Hc0|E].
    - replace s with 0 by lia. by rewrite !ancestor_zero.
    - apply (ancestor_history a b (Z.of_nat c)); lia || done. }
  assert (s = 0 -> ancestor a s = ancestor b s) as Hz by (intros ->; by rewrite !ancestor_zero).
  destruct (Z.ltb_spec (Z.of_nat c) lower); (split; [intros Hlt|intros E]).
  - apply Hz. lia.
  - destruct (decide (s = 0)); [lia|]. exfalso. apply Hgt; [lia|done].
  - apply Hle; [lia|]. destruct H3 as [|[|]]; [by left|by right|lia].
  - destruct (decide (s <= Z.of_nat c)); [lia|]. exfalso. apply Hgt; [lia|done].
Qed.

(** The ledgers with complete history, as an instance of the trie's interface. *)
Definition CompleteLedger : Type := dsig complete.

#[export] Instance CompleteLedger_ops : LedgerOps CompleteLedger := {
  seq x := ledgerSeq_ (`x);
  lid x := ledgerID_ (`x);
  anc x := ancestor (`x);
  mismatch x y := mismatch_ (`x) (`y);
  genesis := makeGenesis ↾ bool_decide_pack _ (or_introl eq_refl);
}.

#[export] Instance CompleteLedger_laws : LedgerLaws CompleteLedger.
Proof.
  split; simpl.
  - intros x. apply complete_seq, (proj2_dsig x).
  - done.
  - intros x. pose proof (proj2_dsig x) as Hx. unfold ancestor.
    pose proof (complete_seq _ Hx). pose proof (complete_minSeq _ Hx).
    rewrite (proj2 (Z.leb_le (minSeq _) _)), Z.leb_refl, Z.eqb_refl; [done|].
    unfold minSeq. pose proof (u32_range (Z.of_nat (length (ancestors_ (`x))))). lia.
  - intros x. by rewrite ancestor_zero by apply proj2_dsig.
  - intros a b s p Hp Ha Hb. apply ancestor_history; try done; apply proj2_dsig.
  - intros a b s s' Hs Hs'. apply ancestor_unique; try done; apply proj2_dsig.
  - intros a b. apply complete_mismatch_range; apply proj2_dsig.
  - intros a b s Hs. apply complete_mismatch_spec; try done; apply proj2_dsig.
Qed.

End Complete.

(** ** A concrete chain

    Hashes are the numbers of a binary tree, the parent of [2 i] and [2 i + 1]
    being [i]: enough to run the definitions on. *)

Module BinaryChain.

Fixpoint parents (p : positive) : list Z :=
  match p with
  | xH => []
  | xO q | xI q => parents q ++ [Zpos q]
  end.

Definition binary_history (i : Z) : list Z :=
  match i with Zpos p => parents p | _ => [] end.

Lemma parents_prefix p k j :
  (parents p ++ [Zpos p]) !! k = Some j ->
  binary_history j ++ [j] = take (S k) (parents p ++ [Zpos p]).
Proof.
  revert k; induction p as [q IH|q IH|]; intros k Hk; simpl in *.
  1, 2: destruct (decide (k < length (parents q ++ [Zpos q]))%nat) as [Hlt|Hge];
    [rewrite lookup_app_l in Hk by done; rewrite (IH _ Hk), (take_app_le (parents q ++ [Zpos q])) by lia; done|].
  1, 2: rewrite lookup_app_r in Hk by lia;
    apply list_lookup_singleton_Some in Hk as [Hk <-];
    rewrite take_ge by (rewrite (length_app _ [_]); simpl; lia); done.
  apply list_lookup_singleton_Some in Hk as [-> <-]. done.
Qed.

Lemma binary_prefix i k j :
  (binary_history i ++ [i]) !! k = Some j ->
  binary_history j ++ [j] = take (S k) (binary_history i ++ [i]).
Proof.
  destruct i as [|p|p]; [..|by apply parents_prefix|];
    intros [-> <-]%list_lookup_singleton_Some; done.
Qed.

Lemma binary_nonzero i : 0 ∉ binary_history i.
Proof.
  destruct i as [|p|p]; simpl; [set_solver| |set_solver]. induction p; simpl; set_solver.
Qed.

#[export] Instance binary_chain : Chain := {|
  history := binary_history;
  history_prefix := binary_prefix;
  history_nonzero := binary_nonzero;
|}.

(** The ledger with hash [p]. *)
Definition raw (p : positive) : RCLValidatedLedger :=
  validatedLedger (Zpos p) (Z.of_nat (length (parents p)) + 1) (Some (parents p)).

Definition small (p : positive) : bool := Z.of_nat (length (parents p)) + 1 <? 2 ^ 32 - 1.

Lemma raw_complete p : small p = true -> complete (raw p).
Proof. intros Hs. right. unfold small in Hs. b2p. simpl. done. Qed.

Definition ledger (p : positive) : CompleteLedger :=
  match decide (complete (raw p)) with
  | left H => dexist (raw p) H
  | right _ => genesis
  end.

End BinaryChain.
