(* ===== verification/TrieProperties.v ===== *)
(** * Properties of the ancestry trie

    Whatever ledgers were inserted and removed, the trie stands for the plain
    multiset of those still present: its counts are counts over the multiset
    and its preferred ledger is the one of the rule [prefers].  The witnesses
    run the trie on the ledgers of [BinaryChain]. *)

From S2P Require Import Prelude LedgerTrie LedgerTrieFacts TrieQueries.
From S2P Require Import Preferred RCLValidations.

Section History.
Context {L : Type} {LO : LedgerOps L} {LL : LedgerLaws L}.

Inductive trieOp := Insert (l : L) | Remove (l : L).

Definition trieStep (t : LedgerTrie L) (op : trieOp) : LedgerTrie L :=
  match op with
  | Insert l => insert l 1 t
  | Remove l => (remove l 1 t).2
  end.

Definition runTrie (ops : list trieOp) : LedgerTrie L := foldl trieStep empty_trie ops.

(** Without the first ledger that has the identifier of [l]. *)
Fixpoint forget (l : L) (M : list L) : list L :=
  match M with
  | [] => []
  | x :: M => if lid x =? lid l then M else x :: forget l M
  end.

Definition bagStep (M : list L) (op : trieOp) : list L :=
  match op with
  | Insert l => l :: M
  | Remove l => forget l M
  end.

(** The multiset the operations leave. *)
Definition bag (ops : list trieOp) : list L := foldl bagStep [] ops.

Lemma forget_cases l M :
  (exists x, lid x = lid l /\ M ≡ₚ x :: forget l M) \/
  (forget l M = M /\ votes (hasID (lid l)) M = 0).
Proof.
  induction M as [|y M IH]; cbn; [by right|].
  destruct (Z.eqb_spec (lid y) (lid l)) as [E|E]; [left; by exists y|].
  destruct IH as [(x & Hx & Hp)|[-> Hv]].
  - left. exists x. split; [done|]. rewrite Hp at 1. by constructor.
  - right. split; [done|]. rewrite votes_cons, Hv. unfold hasID.
    rewrite <- lid_anc. by rewrite (proj2 (Z.eqb_neq _ _)).
Qed.

Lemma trieStep_represents t M op :
  Z.of_nat (length M) + 1 < 2 ^ 32 -> represents t M -> represents (trieStep t op) (bagStep M op).
Proof.
  intros Hlen Hr. destruct op as [l|l]; cbn; [by apply represents_insert|].
  destruct (forget_cases l M) as [(x & Hx & Hp)|[-> Hv]].
  - destruct (represents_remove l x t (forget l M)) as (t' & -> & Hr'); [|done|done].
    by rewrite <- Hp.
  - rewrite remove_absent; [done|by apply Hr|]. by rewrite (represents_tipSupport l t M).
Qed.

Lemma bagStep_length M op : (length (bagStep M op) <= S (length M))%nat.
Proof.
  destruct op as [l|l]; cbn; [done|]. induction M as [|x M IH]; cbn; [lia|].
  destruct (_ =? _); cbn; lia.
Qed.

Lemma runTrie_represents ops :
  Z.of_nat (length ops) < 2 ^ 32 -> represents (runTrie ops) (bag ops).
Proof.
  unfold runTrie, bag. intros Hlen.
  enough (forall t (M : list L), represents t M -> Z.of_nat (length M + length ops) < 2 ^ 32 ->
    represents (foldl trieStep t ops) (foldl bagStep M ops)) as Hgen.
  { apply Hgen; [apply represents_empty|done]. }
  clear Hlen. induction ops as [|op ops IH]; intros t M Hr Hlen; cbn [foldl length] in *; [done|].
  pose proof (bagStep_length M op). apply IH; [|lia]. apply trieStep_represents; [lia|done].
Qed.

End History.
Arguments trieOp : clear implicits.

(** A deterministic relation leads to at most one normal form. *)
Lemma rtc_nf_unique {A} (R : relation A) x y z :
  (forall a b c, R a b -> R a c -> b = c) ->
  rtc R x y -> nf R y -> rtc R x z -> nf R z -> y = z.
Proof.
  intros Hf Hy Hny. induction Hy as [x|x x' y Hs Hy IH]; intros Hz Hnz.
  - inversion Hz; subst; [done|]. exfalso. apply Hny. by eexists.
  - inversion Hz as [|? x'' ? Hs' Hz']; subst; [exfalso; apply Hnz; by eexists|].
    apply IH; [done| |done]. by rewrite (Hf _ _ _ Hs Hs').
Qed.

(** C1: the preferred ledger is exactly the one of the rule.  After any history
    of insertions and removals, [getPreferred] answers nothing only if no
    ledger is left, and otherwise the unique ledger at which the walk from the
    genesis ledger by [prefers] stops: at every step to the successor that no
    redistribution of the uncommitted validations can beat. *)
Theorem getPreferred_is_rule {L} `{LL : LedgerLaws L} (ops : list (trieOp L)) (largestIssued : Z)
    (Hlen : Z.of_nat (length ops) < 2 ^ 32) :
  match getPreferred largestIssued (runTrie ops) with
  | None => bag ops = []
  | Some tp => bag ops <> [] /\
      forall z, rtc (prefers (bag ops) largestIssued) (0, lid genesis) z /\
                nf (prefers (bag ops) largestIssued) z <-> z = (tipSeq tp, tipID tp)
  end.
Proof.
  pose proof (getPreferred_spec _ _ (runTrie_represents ops Hlen) largestIssued) as Hp.
  destruct (getPreferred _ _) as [tp|]; [|done].
  destruct Hp as (Hne & Hr & Hn). split; [done|]. intros z. split; [|by intros ->].
  intros [Hr' Hn']. eapply rtc_nf_unique; [|done..]. intros a b c. apply prefers_functional.
Qed.

(** C2: the trie refines a multiset of ledgers.  After any history, the tip
    support of a ledger is the number of its own copies in the multiset, the
    branch support the number of ledgers that descend from it, and removing a
    ledger reports whether a copy was there. *)
Theorem trie_refines_multiset {L} `{LL : LedgerLaws L} (ops : list (trieOp L)) (l : L)
    (Hlen : Z.of_nat (length ops) < 2 ^ 32) :
  tipSupport l (runTrie ops) = votes (hasID (lid l)) (bag ops) /\
  branchSupport l (runTrie ops) = votes (descends l) (bag ops) /\
  ((remove l 1 (runTrie ops)).1 = true <-> exists x, x ∈ bag ops /\ lid x = lid l).
Proof.
  pose proof (runTrie_represents ops Hlen) as Hr.
  split; [by apply represents_tipSupport|]. split; [by apply represents_branchSupport|].
  destruct (forget_cases l (bag ops)) as [(x & Hx & Hp)|[_ Hv]].
  - destruct (represents_remove l x (runTrie ops) (forget l (bag ops))) as (t' & -> & _);
      [by rewrite <- Hp|done|]. split; [|done]. intros _. exists x. split; [|done]. rewrite Hp. by left.
  - rewrite remove_absent; [|by apply Hr|by rewrite (represents_tipSupport l _ _ Hr)].
    split; [done|]. intros (x & Hin & Hx).
    assert (0 < votes (hasID (lid l)) (bag ops)); [|lia]. apply votes_pos. exists x. split; [done|].
    unfold hasID. rewrite <- lid_anc, Hx. apply Z.eqb_refl.
Qed.

(** Every trie an execution reaches passes [checkInvariants]: each node
    without tip support has at least two children, the branch support of a
    node is its tip support and that of its children, and [seqSupport] holds
    the tip supports by sequence number. *)
Theorem checkInvariants_always {L} `{LL : LedgerLaws L} (ops : list (trieOp L))
    (Hlen : Z.of_nat (length ops) < 2 ^ 32) : checkInvariants (runTrie ops) = true.
Proof. apply checkInvariants_wf. by apply (runTrie_represents ops). Qed.

(** [mismatch] of two validated ledgers whose skip lists reach back to the
    first ledger is the first sequence number at which they can differ: below
    it their ancestors agree, from it on they do not. *)
Theorem mismatch_first_difference `{CH : Chain} (a b : RCLValidatedLedger) (s : Z)
    (Ha : complete a) (Hb : complete b) (Hs : 0 <= s <= Z.min (ledgerSeq_ a) (ledgerSeq_ b)) :
  1 <= mismatch_ a b <= Z.min (ledgerSeq_ a) (ledgerSeq_ b) + 1 /\
  (s < mismatch_ a b <-> ancestor a s = ancestor b s).
Proof. split; [by apply complete_mismatch_range|by apply complete_mismatch_spec]. Qed.

(** ** Witnesses *)

Import BinaryChain.

Module TrieExample.

(** Three validations of ledger 5 and one of its sibling 4, then one of the
    former taken back. *)
Definition ops : list (trieOp CompleteLedger) :=
  [Insert (ledger 5); Insert (ledger 4); Insert (ledger 5); Insert (ledger 5); Remove (ledger 5)].

End TrieExample.

Lemma getPreferred_is_rule_witness :
  tipID <$> getPreferred 1 (runTrie TrieExample.ops) = Some 5 /\
  match getPreferred 1 (runTrie TrieExample.ops) with
  | None => bag TrieExample.ops = []
  | Some tp => bag TrieExample.ops <> [] /\
      forall z, rtc (prefers (bag TrieExample.ops) 1) (0, lid (genesis : CompleteLedger)) z /\
                nf (prefers (bag TrieExample.ops) 1) z <-> z = (tipSeq tp, tipID tp)
  end.
Proof.
  split; [vm_compute; reflexivity|].
  apply (getPreferred_is_rule TrieExample.ops 1). reflexivity.
Defined.

Lemma trie_refines_multiset_witness :
  tipSupport (ledger 5) (runTrie TrieExample.ops) = 2 /\
  branchSupport (ledger 2) (runTrie TrieExample.ops) = 3 /\
  branchSupport (ledger 2) (runTrie TrieExample.ops) =
    votes (descends (ledger 2)) (bag TrieExample.ops).
Proof.
  split; [vm_compute; reflexivity|]. split; [vm_compute; reflexivity|].
  apply (trie_refines_multiset TrieExample.ops (ledger 2)). reflexivity.
Defined.

Lemma checkInvariants_always_witness :
  checkInvariants (runTrie TrieExample.ops) = true.
Proof. apply (checkInvariants_always TrieExample.ops). reflexivity. Defined.

Lemma mismatch_first_difference_witness :
  mismatch_ (raw 4) (raw 5) = 3 /\
  (2 < mismatch_ (raw 4) (raw 5) <->
   ancestor (raw 4) 2 = ancestor (raw 5) 2).
Proof.
  split; [vm_compute; reflexivity|].
  apply (mismatch_first_difference (raw 4) (raw 5) 2);
    [by apply raw_complete|by apply raw_complete|done].
Defined.
