(* ===== verification/Validations.v ===== *)
(** * Validations received from the network

    Models [src/src/xrpld/consensus/Validations.h]: the sequence enforcer, the
    store of current and recent validations, and its use of the ancestry trie.
    Node identifiers and ledger identifiers are integers.  [NetClock] times are
    seconds, computed in 64 bits as the source's comment requires; the steady
    clock counts nanoseconds.  The adaptor's answers during one operation are
    the argument [env].  The hash maps of the source are finite maps; the
    iteration order of a hash map is that of the finite map.  The copies of a
    validation share their trust flag in the source; here [trustChanged] sets it
    in [current_] and [byLedger_], and nothing reads it in [bySequence_]. *)

From S2P Require Import Prelude AgedMap LedgerTrie.

Definition seconds (s : Z) : Z := s * 1000000000.

Record ValidationParms := {
  validationCURRENT_WALL : Z;
  validationCURRENT_LOCAL : Z;
  validationCURRENT_EARLY : Z;
  validationSET_EXPIRES : Z;
  validationFRESHNESS : Z;
}.

(** The default parameters. *)
Definition validationParms : ValidationParms := {|
  validationCURRENT_WALL := 5 * 60;
  validationCURRENT_LOCAL := 3 * 60;
  validationCURRENT_EARLY := 3 * 60;
  validationSET_EXPIRES := 10 * 60;
  validationFRESHNESS := 20;
|}.

(** ** The sequence enforcer *)

Record SeqEnforcer := { seq_ : Z; when_ : Z }.

Definition newEnforcer : SeqEnforcer := {| seq_ := 0; when_ := 0 |}.

(** [operator()]. *)
Definition enforce (p : ValidationParms) (now s : Z) (e : SeqEnforcer) : bool * SeqEnforcer :=
  let e :=
    if when_ e + seconds (validationSET_EXPIRES p) <? now
    then {| seq_ := 0; when_ := when_ e |} else e in
  if s <=? seq_ e then (false, e) else (true, {| seq_ := s; when_ := now |}).

Definition largest (e : SeqEnforcer) : Z := seq_ e.

(** ** Freshness *)

Definition isCurrent (p : ValidationParms) (now signTime seenTime : Z) : bool :=
  (now - validationCURRENT_EARLY p <? signTime)
  && (signTime <? now + validationCURRENT_WALL p)
  && ((seenTime =? 0) || (seenTime <? now + validationCURRENT_LOCAL p)).

Inductive ValStatus := current | stale | badSeq | multiple | conflicting.

#[export] Instance ValStatus_eq_dec : EqDecision ValStatus.
Proof. solve_decision. Defined.

Record Validation := {
  v_ledgerID : Z;
  v_seq : Z;
  v_signTime : Z;
  v_seenTime : Z;
  v_key : Z;
  v_trusted : bool;
  v_full : bool;
  v_loadFee : option Z;
  v_cookie : Z;
}.

Definition withTrusted (b : bool) (v : Validation) : Validation :=
  {| v_ledgerID := v_ledgerID v; v_seq := v_seq v; v_signTime := v_signTime v;
     v_seenTime := v_seenTime v; v_key := v_key v; v_trusted := b; v_full := v_full v;
     v_loadFee := v_loadFee v; v_cookie := v_cookie v |}.

Definition setTrusted : Validation -> Validation := withTrusted true.
Definition setUntrusted : Validation -> Validation := withTrusted false.

(** [std::max_element] with the strict order [lt]: the first largest element. *)
Fixpoint max_element {A} (lt : A -> A -> bool) (best : A) (l : list A) : A :=
  match l with
  | [] => best
  | x :: l => max_element lt (if lt best x then x else best) l
  end.

Definition max_of {A} (lt : A -> A -> bool) (l : list A) : option A :=
  match l with [] => None | x :: l => Some (max_element lt x l) end.

(** Lexicographic comparison of [std::tie(a, b)]. *)
Definition tie_lt (a b : Z * Z) : bool :=
  (a.1 <? b.1) || ((a.1 =? b.1) && (a.2 <? b.2)).

Section Validations.
Context {L : Type} {LO : LedgerOps L}.

(** The adaptor and the clocks during one operation. *)
Record Env := {
  now : Z;                        (* adaptor_.now() *)
  clock : Z;                      (* byLedger_.clock().now() *)
  acquire : Z -> option L;        (* adaptor_.acquire() *)
}.

Record Validations := {
  current_ : gmap Z Validation;
  localSeqEnforcer_ : SeqEnforcer;
  seqEnforcers_ : gmap Z SeqEnforcer;
  byLedger_ : aged_map Z (gmap Z Validation);
  bySequence_ : aged_map Z (gmap Z Validation);
  toKeep_ : option (Z * Z);
  trie_ : LedgerTrie L;
  lastLedger_ : gmap Z L;
  acquiring_ : gmap (Z * Z) (gset Z);
  refreshTime : Z;                (* static local of expire() *)
}.

Definition newValidations : Validations := {|
  current_ := ∅; localSeqEnforcer_ := newEnforcer; seqEnforcers_ := ∅;
  byLedger_ := []; bySequence_ := []; toKeep_ := None; trie_ := empty_trie;
  lastLedger_ := ∅; acquiring_ := ∅; refreshTime := 0 |}.

(** Assignments to the members. *)
Definition set_current c (st : Validations) : Validations :=
  {| current_ := c; localSeqEnforcer_ := localSeqEnforcer_ st; seqEnforcers_ := seqEnforcers_ st;
     byLedger_ := byLedger_ st; bySequence_ := bySequence_ st; toKeep_ := toKeep_ st;
     trie_ := trie_ st; lastLedger_ := lastLedger_ st; acquiring_ := acquiring_ st;
     refreshTime := refreshTime st |}.
Definition set_local e (st : Validations) : Validations :=
  {| current_ := current_ st; localSeqEnforcer_ := e; seqEnforcers_ := seqEnforcers_ st;
     byLedger_ := byLedger_ st; bySequence_ := bySequence_ st; toKeep_ := toKeep_ st;
     trie_ := trie_ st; lastLedger_ := lastLedger_ st; acquiring_ := acquiring_ st;
     refreshTime := refreshTime st |}.
Definition set_enforcers e (st : Validations) : Validations :=
  {| current_ := current_ st; localSeqEnforcer_ := localSeqEnforcer_ st; seqEnforcers_ := e;
     byLedger_ := byLedger_ st; bySequence_ := bySequence_ st; toKeep_ := toKeep_ st;
     trie_ := trie_ st; lastLedger_ := lastLedger_ st; acquiring_ := acquiring_ st;
     refreshTime := refreshTime st |}.
Definition set_stores bl bs (st : Validations) : Validations :=
  {| current_ := current_ st; localSeqEnforcer_ := localSeqEnforcer_ st;
     seqEnforcers_ := seqEnforcers_ st; byLedger_ := bl; bySequence_ := bs;
     toKeep_ := toKeep_ st; trie_ := trie_ st; lastLedger_ := lastLedger_ st;
     acquiring_ := acquiring_ st; refreshTime := refreshTime st |}.
Definition set_keep k r (st : Validations) : Validations :=
  {| current_ := current_ st; localSeqEnforcer_ := localSeqEnforcer_ st;
     seqEnforcers_ := seqEnforcers_ st; byLedger_ := byLedger_ st; bySequence_ := bySequence_ st;
     toKeep_ := k; trie_ := trie_ st; lastLedger_ := lastLedger_ st;
     acquiring_ := acquiring_ st; refreshTime := r |}.
Definition set_trie t l (st : Validations) : Validations :=
  {| current_ := current_ st; localSeqEnforcer_ := localSeqEnforcer_ st;
     seqEnforcers_ := seqEnforcers_ st; byLedger_ := byLedger_ st; bySequence_ := bySequence_ st;
     toKeep_ := toKeep_ st; trie_ := t; lastLedger_ := l;
     acquiring_ := acquiring_ st; refreshTime := refreshTime st |}.
Definition set_acquiring a (st : Validations) : Validations :=
  {| current_ := current_ st; localSeqEnforcer_ := localSeqEnforcer_ st;
     seqEnforcers_ := seqEnforcers_ st; byLedger_ := byLedger_ st; bySequence_ := bySequence_ st;
     toKeep_ := toKeep_ st; trie_ := trie_ st; lastLedger_ := lastLedger_ st;
     acquiring_ := a; refreshTime := refreshTime st |}.

Section Operations.
Variables (parms_ : ValidationParms) (env : Env).

(** Take a node out of the set of an entry of [acquiring_]; drop an empty set. *)
Definition leave (key : Z * Z) (nodeID : Z) (acq : gmap (Z * Z) (gset Z))
    : gmap (Z * Z) (gset Z) :=
  match acq !! key with
  | Some ns =>
      let ns := ns ∖ {[nodeID]} in
      if decide (ns = ∅) then delete key acq else <[key := ns]> acq
  | None => acq
  end.

Definition removeTrie (nodeID : Z) (val : Validation) (st : Validations) : Validations :=
  let st := set_acquiring (leave (v_seq val, v_ledgerID val) nodeID (acquiring_ st)) st in
  match lastLedger_ st !! nodeID with
  | Some l =>
      if lid l =? v_ledgerID val
      then set_trie (remove l 1 (trie_ st)).2 (delete nodeID (lastLedger_ st)) st
      else st
  | None => st
  end.

(** [updateTrie(lock, nodeID, ledger)]. *)
Definition updateTrie_ledger (nodeID : Z) (ledger : L) (st : Validations) : Validations :=
  let t :=
    match lastLedger_ st !! nodeID with
    | None => trie_ st
    | Some old => (remove old 1 (trie_ st)).2
    end in
  set_trie (insert ledger 1 t) (<[nodeID := ledger]> (lastLedger_ st)) st.

Definition checkAcquired (st : Validations) : Validations :=
  foldl (fun st e =>
    match acquire env e.1.2 with
    | Some ledger =>
        let st := foldl (fun st nodeID => updateTrie_ledger nodeID ledger st) st (elements e.2) in
        set_acquiring (delete e.1 (acquiring_ st)) st
    | None => st
    end) st (map_to_list (acquiring_ st)).

(** [updateTrie(lock, nodeID, val, prior)]. *)
Definition updateTrie (nodeID : Z) (val : Validation) (prior : option (Z * Z))
    (st : Validations) : Validations :=
  let st :=
    match prior with
    | Some key => set_acquiring (leave key nodeID (acquiring_ st)) st
    | None => st
    end in
  let st := checkAcquired st in
  let valPair := (v_seq val, v_ledgerID val) in
  match acquiring_ st !! valPair with
  | Some ns => set_acquiring (<[valPair := {[nodeID]} ∪ ns]> (acquiring_ st)) st
  | None =>
      match acquire env (v_ledgerID val) with
      | Some ledger => updateTrie_ledger nodeID ledger st
      | None => set_acquiring (<[valPair := {[nodeID]}]> (acquiring_ st)) st
      end
  end.

(** [current(lock, pre, f)]: flush the stale validations; the list holds the
    arguments of the calls of [f], in order. *)
Definition flushStale (st : Validations) : Validations * list (Z * Validation) :=
  foldl (fun '(st, live) '(nodeID, v) =>
    if negb (isCurrent parms_ (now env) (v_signTime v) (v_seenTime v))
    then
      let st := removeTrie nodeID v st in
      (set_current (delete nodeID (current_ st)) st, live)
    else (st, live ++ [(nodeID, v)])) (st, []) (map_to_list (current_ st)).

Definition withTrie (st : Validations) : Validations :=
  checkAcquired (flushStale st).1.

(** [byLedger(lock, ledgerID, pre, f)]. *)
Definition byLedger (ledgerID : Z) (st : Validations) : Validations * list (Z * Validation) :=
  match aged_value ledgerID (byLedger_ st) with
  | Some m =>
      (set_stores (aged_touch (clock env) ledgerID (byLedger_ st)) (bySequence_ st) st,
       map_to_list m)
  | None => (st, [])
  end.

Definition canValidateSeq (s : Z) (st : Validations) : bool * Validations :=
  let '(ok, e) := enforce parms_ (clock env) s (localSeqEnforcer_ st) in
  (ok, set_local e st).

(** The entry of [bySequence_] after the attempt to add [val]. *)
Definition trackSequence (nodeID : Z) (val : Validation) (m : gmap Z Validation)
    : gmap Z Validation :=
  match m !! nodeID with
  | None => <[nodeID := val]> m
  | Some old =>
      let diff := Z.max (v_signTime old) (v_signTime val)
                  - Z.min (v_signTime old) (v_signTime val) in
      if (validationCURRENT_WALL parms_ <? diff) && (v_signTime old <? v_signTime val)
      then <[nodeID := val]> m else m
  end.

Definition add (nodeID : Z) (val : Validation) (st : Validations) : ValStatus * Validations :=
  if negb (isCurrent parms_ (now env) (v_signTime val) (v_seenTime val)) then (stale, st)
  else
    let bs := aged_alter (trackSequence nodeID val) (v_seq val)
                (aged_index (clock env) ∅ (v_seq val) (bySequence_ st)) in
    let tracked := default val (aged_value (v_seq val) bs ≫= lookup nodeID) in
    let st := set_stores (byLedger_ st) bs st in
    let enf := default newEnforcer (seqEnforcers_ st !! nodeID) in
    let '(ok, enf) := enforce parms_ (clock env) (v_seq val) enf in
    let st := set_enforcers (<[nodeID := enf]> (seqEnforcers_ st)) st in
    if negb ok then
      if v_seq tracked =? v_seq val then
        if negb (v_ledgerID tracked =? v_ledgerID val) then (conflicting, st)
        else if negb (v_signTime tracked =? v_signTime val) then (conflicting, st)
        else if negb (v_cookie tracked =? v_cookie val) then (multiple, st)
        else (badSeq, st)
      else (badSeq, st)
    else
      let bl := aged_alter (fun m => <[nodeID := val]> m) (v_ledgerID val)
                  (aged_index (clock env) ∅ (v_ledgerID val) (byLedger_ st)) in
      let st := set_stores bl (bySequence_ st) st in
      match current_ st !! nodeID with
      | Some oldVal =>
          if v_signTime oldVal <? v_signTime val then
            let old := (v_seq oldVal, v_ledgerID oldVal) in
            let st := set_current (<[nodeID := val]> (current_ st)) st in
            (current, if v_trusted val then updateTrie nodeID val (Some old) st else st)
          else (stale, st)
      | None =>
          let st := set_current (<[nodeID := val]> (current_ st)) st in
          (current, if v_trusted val then updateTrie nodeID val None st else st)
      end.

Definition setSeqToKeep (low high : Z) (st : Validations) : Validations :=
  set_keep (Some (low, high)) (refreshTime st) st.

Definition inRange (range : Z * Z) (s : Z) : bool := (range.1 <=? s) && (s <? range.2).

(** [expire]. *)
Definition expire (st : Validations) : Validations :=
  let st :=
    match toKeep_ st with
    | Some range =>
        if refreshTime st <=? clock env then
          let r := clock env + seconds (validationSET_EXPIRES parms_)
                   - seconds (validationFRESHNESS parms_) in
          let bl := foldl (fun c e =>
              match map_to_list (elem_value e) with
              | (_, v) :: _ =>
                  if inRange range (v_seq v) then aged_touch (clock env) (elem_key e) c else c
              | [] => c
              end) (byLedger_ st) (byLedger_ st) in
          let bs := foldl (fun c e =>
              if inRange range (elem_key e) then aged_touch (clock env) (elem_key e) c else c)
              (bySequence_ st) (bySequence_ st) in
          set_stores bl bs (set_keep (toKeep_ st) r st)
        else st
    | None => st
    end in
  let expired := clock env - seconds (validationSET_EXPIRES parms_) in
  set_stores (aged_expire expired (byLedger_ st)) (aged_expire expired (bySequence_ st)) st.

(** One validation of [trustChanged]. *)
Definition trustOf (added removed : gset Z) (nodeId : Z) (v : Validation) : Validation :=
  if decide (nodeId ∈ added) then setTrusted v
  else if decide (nodeId ∈ removed) then setUntrusted v
  else v.

(** The loop of [trustChanged] over the current validations. *)
Definition trustCurrent (added removed : gset Z) (st : Validations) : Validations :=
  foldl (fun st '(nodeId, v) =>
    let v' := trustOf added removed nodeId v in
    let st := set_current (<[nodeId := v']> (current_ st)) st in
    if decide (nodeId ∈ added) then updateTrie nodeId v' None st
    else if decide (nodeId ∈ removed) then removeTrie nodeId v' st
    else st) st (map_to_list (current_ st)).

Definition trustChanged (added removed : gset Z) (st : Validations) : Validations :=
  let st := trustCurrent added removed st in
  let bl := (fun e : element Z (gmap Z Validation) => mkElement (elem_key e) (elem_when e)
               (map_imap (fun nodeId v => Some (trustOf added removed nodeId v)) (elem_value e)))
            <$> byLedger_ st in
  set_stores bl (bySequence_ st) st.

(** The entries of [acquiring_] by the number of nodes, then ledger id. *)
Definition acquiring_lt (a b : (Z * Z) * gset Z) : bool :=
  tie_lt (Z.of_nat (size a.2), a.1.2) (Z.of_nat (size b.2), b.1.2).

(** The choice made by [getPreferred] once the trie has answered. *)
Definition choosePreferred (curr : L) (preferred : option (SpanTip L)) (st : Validations)
    : option (Z * Z) :=
  match preferred with
  | None => fst <$> max_of acquiring_lt (map_to_list (acquiring_ st))
  | Some tp =>
      if (tipSeq tp =? u32 (seq curr + 1)) && (tip_ancestor tp (seq curr) =? lid curr)
      then Some (seq curr, lid curr)
      else if seq curr <? tipSeq tp then Some (tipSeq tp, tipID tp)
      else if negb (anc curr (tipSeq tp) =? tipID tp) then Some (tipSeq tp, tipID tp)
      else Some (seq curr, lid curr)
  end.

Definition getPreferred (curr : L) (st : Validations) : option (Z * Z) * Validations :=
  let st := withTrie st in
  (choosePreferred curr
     (LedgerTrie.getPreferred (largest (localSeqEnforcer_ st)) (trie_ st)) st, st).

(** [getPreferred(curr, minValidSeq)]. *)
Definition getPreferredMin (curr : L) (minValidSeq : Z) (st : Validations) : Z * Validations :=
  let '(preferred, st) := getPreferred curr st in
  (match preferred with
   | Some (s, i) => if minValidSeq <=? s then i else lid curr
   | None => lid curr
   end, st).

Definition peer_lt (a b : Z * Z) : bool := tie_lt (a.2, a.1) (b.2, b.1).

Definition getPreferredLCL (lcl : L) (minSeq : Z) (peerCounts : gmap Z Z) (st : Validations)
    : Z * Validations :=
  let '(preferred, st) := getPreferred lcl st in
  (match preferred with
   | Some (s, i) => if minSeq <=? s then i else lid lcl
   | None =>
       match max_of peer_lt (map_to_list peerCounts) with
       | Some (i, _) => i
       | None => lid lcl
       end
   end, st).

Definition getNodesAfter (ledger : L) (ledgerID : Z) (st : Validations) : Z * Validations :=
  if lid ledger =? ledgerID then
    let st := withTrie st in
    (u32 (branchSupport ledger (trie_ st) - tipSupport ledger (trie_ st)), st)
  else
    (Z.of_nat (length (filter (fun e => 0 < seq e.2 /\ anc e.2 (u32 (seq e.2 - 1)) = ledgerID)
       (map_to_list (lastLedger_ st)))), st).

Definition trustedFull (v : Validation) : bool := v_trusted v && v_full v.

Definition currentTrusted (st : Validations) : list Validation * Validations :=
  let '(st, live) := flushStale st in
  (filter trustedFull (live.*2), st).

Definition getCurrentNodeIDs (st : Validations) : gset Z * Validations :=
  let '(st, live) := flushStale st in (list_to_set (live.*1), st).

Definition numTrustedForLedger (ledgerID : Z) (st : Validations) : Z * Validations :=
  let '(st, vs) := byLedger ledgerID st in
  (Z.of_nat (length (filter trustedFull (vs.*2))), st).

Definition getTrustedForLedger (ledgerID s : Z) (st : Validations)
    : list Validation * Validations :=
  let '(st, vs) := byLedger ledgerID st in
  (filter (fun v => trustedFull v && (v_seq v =? s)) (vs.*2), st).

Definition fees (ledgerID baseFee : Z) (st : Validations) : list Z * Validations :=
  let '(st, vs) := byLedger ledgerID st in
  ((fun v => default baseFee (v_loadFee v)) <$> filter trustedFull (vs.*2), st).

Definition flush (st : Validations) : Validations := set_current ∅ st.

(** [laggards]: the set of trusted keys is passed by reference and loses the
    keys of the online proposers. *)
Definition laggards (s : Z) (trustedKeys : gset Z) (st : Validations)
    : Z * gset Z * Validations :=
  let '(st, live) := flushStale st in
  let '(n, keys) :=
    foldl (fun '(n, keys) v =>
      if (now env <? v_seenTime v + validationFRESHNESS parms_) && bool_decide (v_key v ∈ keys)
      then (if v_seq v <? s then n + 1 else n, keys ∖ {[v_key v]})
      else (n, keys)) (0, trustedKeys) (live.*2) in
  (n, keys, st).

End Operations.
End Validations.

Arguments Env : clear implicits.
Arguments Validations : clear implicits.
