(* ===== verification/ValidationsFacts.v ===== *)
(** * Correctness of the validation store

    The trie always represents the last acquired ledger of each node, so the
    answers the store gives are those of the rules over that multiset; the
    sequence enforcer admits only increasing sequences; the branches of [add].
    Then what the store promises its clients. *)

From S2P Require Import Prelude AgedMap LedgerTrie LedgerTrieFacts TrieQueries Preferred Validations.

Section Facts.
Context {L : Type} {LO : LedgerOps L} {LL : LedgerLaws L}.
Implicit Types (st : Validations L) (env : Env L) (p : ValidationParms).

(** The nodes validations are accepted from; supports are 32-bit counts. *)
Variable nodes : gset Z.
Hypothesis nodes_bound : Z.of_nat (size nodes) < 2 ^ 32.

Record store_ok (st : Validations L) : Prop := {
  so_trie : represents (trie_ st) (map_values (lastLedger_ st));
  so_last : dom (lastLedger_ st) ⊆ nodes;
  so_acquiring : forall key ns, acquiring_ st !! key = Some ns -> ns ⊆ nodes /\ ns <> ∅;
  so_current : dom (current_ st) ⊆ nodes;
}.

(** The part of the invariant the operations on the trie depend on. *)
Lemma store_ok_ext st st' :
  trie_ st' = trie_ st -> lastLedger_ st' = lastLedger_ st ->
  acquiring_ st' = acquiring_ st -> current_ st' = current_ st ->
  store_ok st -> store_ok st'.
Proof. intros E1 E2 E3 E4 []. split; by rewrite ?E1, ?E2, ?E3, ?E4. Qed.

Lemma newValidations_ok : store_ok newValidations.
Proof.
  split; simpl; [apply represents_empty|set_solver|by intros ? ? ?%lookup_empty_Some|set_solver].
Qed.

Lemma updateTrie_ledger_ok nodeID ledger st :
  store_ok st -> nodeID ∈ nodes -> store_ok (updateTrie_ledger nodeID ledger st).
Proof.
  intros [Ht Hl Ha Hc] Hn. split; simpl; [|set_solver|done|done].
  rewrite map_values_insert. apply represents_insert.
  - destruct (lastLedger_ st !! nodeID) as [old|] eqn:Ho; [|by rewrite delete_id].
    rewrite (map_values_delete _ _ _ Ho) in Ht.
    destruct (represents_remove old old _ _ Ht eq_refl) as (t' & -> & Hr). done.
  - rewrite map_values_length.
    assert (dom (delete nodeID (lastLedger_ st)) ⊂ nodes) as Hlt%subset_size by set_solver.
    rewrite size_dom in Hlt. lia.
Qed.

Lemma leave_ok (key k : Z * Z) (nodeID : Z) (acq : gmap (Z * Z) (gset Z)) (ns : gset Z) :
  (forall key ns, acq !! key = Some ns -> ns ⊆ nodes /\ ns <> ∅) ->
  leave k nodeID acq !! key = Some ns -> ns ⊆ nodes /\ ns <> ∅.
Proof.
  intros Ha. unfold leave. destruct (acq !! k) as [ms|] eqn:Hk; [|apply Ha].
  case_decide as Hd.
  - intros [_ H]%lookup_delete_Some. by apply (Ha key).
  - destruct (decide (key = k)) as [->|Hne].
    + rewrite lookup_insert_eq. intros [= <-]. destruct (Ha k ms Hk). set_solver.
    + rewrite lookup_insert_ne by done. apply Ha.
Qed.

Lemma set_acquiring_ok acq st :
  store_ok st -> (forall key ns, acq !! key = Some ns -> ns ⊆ nodes /\ ns <> ∅) ->
  store_ok (set_acquiring acq st).
Proof. intros [] Ha. by split. Qed.

Lemma removeTrie_ok nodeID val st : store_ok st -> store_ok (removeTrie nodeID val st).
Proof.
  intros Hok. unfold removeTrie.
  assert (store_ok (set_acquiring (leave (v_seq val, v_ledgerID val) nodeID (acquiring_ st)) st)) as H1
    by (apply set_acquiring_ok; [done|]; intros key ns; by apply leave_ok, Hok).
  revert H1. generalize (set_acquiring (leave (v_seq val, v_ledgerID val) nodeID (acquiring_ st)) st).
  clear Hok st. intros st [Ht Hl Ha Hc].
  destruct (lastLedger_ st !! nodeID) as [l|] eqn:Hn; [|by split].
  destruct (lid l =? v_ledgerID val); [|by split]. split; simpl; [|set_solver|done|done].
  rewrite (map_values_delete _ _ _ Hn) in Ht.
  destruct (represents_remove l l _ _ Ht eq_refl) as (t' & -> & Hr). done.
Qed.

Lemma checkAcquired_ok env st : store_ok st -> store_ok (checkAcquired env st).
Proof.
  intros Hok. unfold checkAcquired. apply foldl_inv; [done|].
  intros st' [key ns] Hin%elem_of_map_to_list Hok'. simpl.
  destruct (so_acquiring st Hok key ns Hin) as [Hns _].
  destruct (acquire env key.2) as [ledger|]; [|done].
  assert (store_ok (foldl (fun st nodeID => updateTrie_ledger nodeID ledger st) st' (elements ns))) as H1.
  { apply foldl_inv; [done|]. intros st'' n Hn%elem_of_elements Ho.
    apply updateTrie_ledger_ok; [done|set_solver]. }
  apply set_acquiring_ok; [done|]. intros key' ns' [_ Hk]%lookup_delete_Some. by apply (so_acquiring _ H1 key').
Qed.

Lemma updateTrie_ok env nodeID val prior st :
  store_ok st -> nodeID ∈ nodes -> store_ok (updateTrie env nodeID val prior st).
Proof.
  intros Hok Hn. unfold updateTrie.
  set (st1 := match prior with Some _ => _ | None => _ end).
  assert (store_ok st1) as H1.
  { subst st1. destruct prior; [|done]. apply set_acquiring_ok; [done|].
    intros key ns. by apply leave_ok, Hok. }
  pose proof (checkAcquired_ok env st1 H1) as H2. set (st2 := checkAcquired env st1) in *.
  destruct (acquiring_ st2 !! _) as [ns|] eqn:Ha.
  - apply set_acquiring_ok; [done|]. intros key ns' [[_ <-]|[_ Hk]]%lookup_insert_Some.
    + destruct (so_acquiring _ H2 _ _ Ha). set_solver.
    + by apply (so_acquiring _ H2 key).
  - destruct (acquire env (v_ledgerID val)); [by apply updateTrie_ledger_ok|].
    apply set_acquiring_ok; [done|]. intros key ns' [[_ <-]|[_ Hk]]%lookup_insert_Some.
    + set_solver.
    + by apply (so_acquiring _ H2 key).
Qed.

Lemma set_current_ok c st : store_ok st -> dom c ⊆ nodes -> store_ok (set_current c st).
Proof. intros [] Hc. by split. Qed.

Lemma flushStale_ok p env st : store_ok st -> store_ok (flushStale p env st).1.
Proof.
  intros Hok. unfold flushStale.
  apply (foldl_inv (fun r : Validations L * list (Z * Validation) => store_ok r.1)); [done|].
  intros [st' live] [nodeID v] _ Hok'. simpl in *. case_match; [|done].
  apply set_current_ok; [by apply removeTrie_ok|].
  pose proof (so_current _ (removeTrie_ok nodeID v st' Hok')). set_solver.
Qed.

Lemma withTrie_ok p env st : store_ok st -> store_ok (withTrie p env st).
Proof. intros Hok. by apply checkAcquired_ok, flushStale_ok. Qed.

Lemma byLedger_ok env i st : store_ok st -> store_ok (byLedger env i st).1.
Proof.
  intros Hok. unfold byLedger. case_match; [|done]. by apply (store_ok_ext st).
Qed.

Lemma canValidateSeq_ok p env s st : store_ok st -> store_ok (canValidateSeq p env s st).2.
Proof.
  intros Hok. unfold canValidateSeq. destruct (enforce _ _ _ _). by apply (store_ok_ext st).
Qed.

Lemma add_ok p env nodeID val st :
  store_ok st -> nodeID ∈ nodes -> store_ok (add p env nodeID val st).2.
Proof.
  intros Hok Hn. unfold add. destruct (negb (isCurrent _ _ _ _)); [done|].
  destruct (enforce _ _ _ _) as [ok enf]. cbv zeta. destruct ok; cbn [negb].
  - match goal with |- context [current_ ?s !! nodeID] => set (st1 := s) end.
    assert (store_ok st1) as H1 by by apply (store_ok_ext st).
    assert (store_ok (set_current (<[nodeID := val]> (current_ st1)) st1)) as H2.
    { apply set_current_ok; [done|]. pose proof (so_current _ H1). set_solver. }
    destruct (current_ st1 !! nodeID) as [old|].
    + destruct (v_signTime old <? v_signTime val); [|done]. simpl.
      destruct (v_trusted val); [by apply updateTrie_ok|done].
    + simpl. destruct (v_trusted val); [by apply updateTrie_ok|done].
  - repeat case_match; simpl; by apply (store_ok_ext st).
Qed.

Lemma expire_ok p env st : store_ok st -> store_ok (expire p env st).
Proof. intros Hok. apply (store_ok_ext st); unfold expire; repeat case_match; done. Qed.

Lemma trustChanged_ok env added removed st :
  store_ok st -> store_ok (trustChanged env added removed st).
Proof.
  intros Hok. apply (store_ok_ext (trustCurrent env added removed st)); [done..|].
  unfold trustCurrent. apply foldl_inv; [done|]. intros st' [n v] Hin%elem_of_map_to_list Hok'.
  assert (n ∈ nodes) as Hn by (apply (so_current _ Hok); by apply elem_of_dom_2 in Hin).
  assert (store_ok (set_current (<[n := trustOf added removed n v]> (current_ st')) st')) as H2.
  { apply set_current_ok; [done|]. pose proof (so_current _ Hok'). set_solver. }
  case_decide; [by apply updateTrie_ok|]. case_decide; [by apply removeTrie_ok|done].
Qed.

Lemma flush_ok st : store_ok st -> store_ok (flush st).
Proof. intros Hok. apply set_current_ok; [done|set_solver]. Qed.

(** ** Where the ledgers of the nodes come from *)

Section Traced.

(** What nodes said, [said n s i]: node [n] validated ledger [i] with sequence
    [s]; and what the adaptor answered, [got i l]: [l] when asked for [i]. *)
Variables (said : Z -> Z -> Z -> Prop) (got : Z -> L -> Prop).

Record traced (st : Validations L) : Prop := {
  tr_last : forall n l, lastLedger_ st !! n = Some l -> exists s i, said n s i /\ got i l;
  tr_acquiring : forall s i ns n, acquiring_ st !! (s, i) = Some ns -> n ∈ ns -> said n s i;
  tr_current : forall n v, current_ st !! n = Some v -> said n (v_seq v) (v_ledgerID v);
}.

(** The adaptor answers during an operation what [got] records. *)
Definition answers env : Prop := forall i l, acquire env i = Some l -> got i l.

Lemma traced_ext st st' :
  lastLedger_ st' = lastLedger_ st -> acquiring_ st' = acquiring_ st -> current_ st' = current_ st ->
  traced st -> traced st'.
Proof using. intros E2 E3 E4 []. split; by rewrite ?E2, ?E3, ?E4. Qed.

Lemma newValidations_traced : traced newValidations.
Proof using. split; simpl; intros *; by rewrite lookup_empty. Qed.

Lemma updateTrie_ledger_traced n s i l st :
  said n s i -> got i l -> traced st -> traced (updateTrie_ledger n l st).
Proof using.
  intros Hs Hg [H1 H2 H3]. split; simpl; [|done|done].
  intros m k [[<- <-]|[_ Hk]]%lookup_insert_Some; [by exists s, i|by apply H1].
Qed.

Lemma set_acquiring_traced acq st :
  traced st -> (forall s i ns n, acq !! (s, i) = Some ns -> n ∈ ns -> said n s i) -> traced (set_acquiring acq st).
Proof using. intros [] Ha. by split. Qed.

Lemma leave_traced key nodeID st : traced st -> traced (set_acquiring (leave key nodeID (acquiring_ st)) st).
Proof using.
  intros Hok. apply set_acquiring_traced; [done|]. intros s i ns n. unfold leave.
  destruct (acquiring_ st !! key) as [ms|] eqn:Hk; [|by apply (tr_acquiring _ Hok)]. case_decide.
  - intros [_ Hl]%lookup_delete_Some. by apply (tr_acquiring _ Hok).
  - intros [[-> <-]|[_ H0]]%lookup_insert_Some Hn; [|by eapply (tr_acquiring _ Hok)].
    apply (tr_acquiring _ Hok s i ms); [done|by apply elem_of_difference in Hn as [? _]].
Qed.

Lemma removeTrie_traced n v st : traced st -> traced (removeTrie n v st).
Proof using.
  intros Hok. unfold removeTrie. pose proof (leave_traced (v_seq v, v_ledgerID v) n st Hok) as H1.
  destruct (lastLedger_ _ !! n); [|done]. destruct (_ =? _); [|done]. destruct H1 as [H1 H2 H3].
  split; simpl in *; [|done|done]. intros m k [_ Hk]%lookup_delete_Some. by apply H1.
Qed.

Lemma checkAcquired_traced env st : answers env -> traced st -> traced (checkAcquired env st).
Proof using.
  intros Henv Hok. unfold checkAcquired. apply foldl_inv; [done|].
  intros st' [[s i] ns] Hin%elem_of_map_to_list Hok'. simpl.
  destruct (acquire env i) as [l|] eqn:El; [|done].
  assert (traced (foldl (fun st nodeID => updateTrie_ledger nodeID l st) st' (elements ns))) as H1.
  { apply foldl_inv; [done|]. intros st'' n Hn%elem_of_elements Ho.
    apply (updateTrie_ledger_traced n s i); [by apply (tr_acquiring _ Hok s i ns)|by apply Henv|done]. }
  apply set_acquiring_traced; [done|]. intros s' i' ns' n [_ Hk]%lookup_delete_Some. by apply (tr_acquiring _ H1).
Qed.

Lemma updateTrie_traced env n v prior st :
  answers env -> said n (v_seq v) (v_ledgerID v) -> traced st -> traced (updateTrie env n v prior st).
Proof using.
  intros Henv Hs Hok. unfold updateTrie. set (st1 := match prior with Some _ => _ | None => _ end).
  assert (traced st1) as H1 by (subst st1; destruct prior; [by apply leave_traced|done]).
  pose proof (checkAcquired_traced env st1 Henv H1) as H2. set (st2 := checkAcquired env st1) in *.
  destruct (acquiring_ st2 !! _) as [ns|] eqn:Ha; [|destruct (acquire env (v_ledgerID v)) as [l|] eqn:El].
  - apply set_acquiring_traced; [done|]. intros s i ns' m [[[= <- <-] <-]|[_ Hk]]%lookup_insert_Some Hm.
    + apply elem_of_union in Hm as [->%elem_of_singleton|Hm]; [done|by eapply (tr_acquiring _ H2)].
    + by eapply (tr_acquiring _ H2).
  - eapply updateTrie_ledger_traced; [done|by apply Henv|done].
  - apply set_acquiring_traced; [done|]. intros s i ns' m [[[= <- <-] <-]|[_ Hk]]%lookup_insert_Some Hm.
    + by apply elem_of_singleton in Hm as ->.
    + by eapply (tr_acquiring _ H2).
Qed.

Lemma set_current_traced c st :
  traced st -> (forall n v, c !! n = Some v -> said n (v_seq v) (v_ledgerID v)) -> traced (set_current c st).
Proof using. intros [] Hc. by split. Qed.

Lemma set_current_insert n v st :
  traced st -> said n (v_seq v) (v_ledgerID v) -> traced (set_current (<[n := v]> (current_ st)) st).
Proof using.
  intros Hok Hs. apply set_current_traced; [done|].
  intros m w [[<- <-]|[_ Hk]]%lookup_insert_Some; [done|by apply (tr_current _ Hok)].
Qed.

Lemma flushStale_traced p env st : traced st -> traced (flushStale p env st).1.
Proof using.
  intros Hok. unfold flushStale.
  apply (foldl_inv (fun r : Validations L * list (Z * Validation) => traced r.1)); [done|].
  intros [st' live] [nodeID v] _ Hok'. simpl in *. case_match; [|done].
  pose proof (removeTrie_traced nodeID v st' Hok') as H1. apply set_current_traced; [done|].
  intros n w [_ Hk]%lookup_delete_Some. by apply (tr_current _ H1).
Qed.

Lemma add_traced p env n v st :
  answers env -> said n (v_seq v) (v_ledgerID v) -> traced st -> traced (add p env n v st).2.
Proof using.
  intros Henv Hs Hok. unfold add. destruct (negb (isCurrent _ _ _ _)); [done|].
  destruct (enforce _ _ _ _) as [ok enf]. cbv zeta. destruct ok; cbn [negb].
  - match goal with |- context [current_ ?s !! n] => set (st1 := s) end.
    assert (traced st1) as H1 by by apply (traced_ext st).
    pose proof (set_current_insert n v st1 H1 Hs) as H2.
    destruct (current_ st1 !! n) as [old|].
    + destruct (v_signTime old <? v_signTime v); [|done]. simpl.
      destruct (v_trusted v); [by apply updateTrie_traced|done].
    + simpl. destruct (v_trusted v); [by apply updateTrie_traced|done].
  - repeat case_match; simpl; by apply (traced_ext st).
Qed.

Lemma trustChanged_traced env added removed st :
  answers env -> traced st -> traced (trustChanged env added removed st).
Proof using.
  intros Henv Hok. apply (traced_ext (trustCurrent env added removed st)); [done..|].
  unfold trustCurrent. apply foldl_inv; [done|]. intros st' [n v] Hin%elem_of_map_to_list Hok'.
  assert (said n (v_seq (trustOf added removed n v)) (v_ledgerID (trustOf added removed n v))) as Hs.
  { apply (tr_current _ Hok) in Hin. unfold trustOf. by repeat case_decide. }
  pose proof (set_current_insert n _ st' Hok' Hs) as H2.
  case_decide; [by apply updateTrie_traced|]. case_decide; [by apply removeTrie_traced|done].
Qed.

End Traced.

(** ** Any sequence of operations *)

Inductive operation :=
| OAdd (nodeID : Z) (val : Validation)
| OCanValidateSeq (s : Z)
| OSetSeqToKeep (low high : Z)
| OExpire
| OTrustChanged (added removed : gset Z)
| OGetPreferred (curr : L)
| OGetPreferredLCL (lcl : L) (minSeq : Z) (peerCounts : gmap Z Z)
| OGetNodesAfter (ledger : L) (ledgerID : Z)
| OCurrentTrusted
| OGetCurrentNodeIDs
| ONumTrustedForLedger (ledgerID : Z)
| OGetTrustedForLedger (ledgerID s : Z)
| OFees (ledgerID baseFee : Z)
| OFlush
| OLaggards (s : Z) (trustedKeys : gset Z).

Definition perform p env (o : operation) st : Validations L :=
  match o with
  | OAdd nodeID val => (add p env nodeID val st).2
  | OCanValidateSeq s => (canValidateSeq p env s st).2
  | OSetSeqToKeep low high => setSeqToKeep low high st
  | OExpire => expire p env st
  | OTrustChanged added removed => trustChanged env added removed st
  | OGetPreferred curr => (getPreferred p env curr st).2
  | OGetPreferredLCL lcl minSeq peerCounts => (getPreferredLCL p env lcl minSeq peerCounts st).2
  | OGetNodesAfter ledger ledgerID => (getNodesAfter p env ledger ledgerID st).2
  | OCurrentTrusted => (currentTrusted p env st).2
  | OGetCurrentNodeIDs => (getCurrentNodeIDs p env st).2
  | ONumTrustedForLedger ledgerID => (numTrustedForLedger env ledgerID st).2
  | OGetTrustedForLedger ledgerID s => (getTrustedForLedger env ledgerID s st).2
  | OFees ledgerID baseFee => (fees env ledgerID baseFee st).2
  | OFlush => flush st
  | OLaggards s keys => (laggards p env s keys st).2
  end.

Definition from_nodes (o : operation) : Prop :=
  match o with OAdd nodeID _ => nodeID ∈ nodes | _ => True end.

Lemma perform_ok p env o st : store_ok st -> from_nodes o -> store_ok (perform p env o st).
Proof.
  intros Hok Hn. destruct o; simpl in *.
  - by apply add_ok.
  - by apply canValidateSeq_ok.
  - by apply (store_ok_ext st).
  - by apply expire_ok.
  - by apply trustChanged_ok.
  - by apply withTrie_ok.
  - by apply withTrie_ok.
  - unfold getNodesAfter. case_match; [by apply withTrie_ok|done].
  - pose proof (flushStale_ok p env st Hok). unfold currentTrusted. by destruct (flushStale p env st).
  - pose proof (flushStale_ok p env st Hok). unfold getCurrentNodeIDs. by destruct (flushStale p env st).
  - pose proof (byLedger_ok env ledgerID st Hok). unfold numTrustedForLedger. by destruct (byLedger env ledgerID st).
  - pose proof (byLedger_ok env ledgerID st Hok). unfold getTrustedForLedger. by destruct (byLedger env ledgerID st).
  - pose proof (byLedger_ok env ledgerID st Hok). unfold fees. by destruct (byLedger env ledgerID st).
  - by apply flush_ok.
  - pose proof (flushStale_ok p env st Hok). unfold laggards. destruct (flushStale p env st) as [st' live].
    by destruct (foldl _ _ _).
Qed.

Lemma perform_traced said got p env o st :
  answers got env -> (forall n v, o = OAdd n v -> said n (v_seq v) (v_ledgerID v)) ->
  traced said got st -> traced said got (perform p env o st).
Proof using.
  intros Henv Hs Hok. pose proof (flushStale_traced said got p env st Hok) as Hf.
  assert (traced said got (withTrie p env st)) as Hw by by apply checkAcquired_traced.
  assert (forall i, traced said got (byLedger env i st).1) as Hb
    by (intros i; unfold byLedger; case_match; [by apply (traced_ext _ _ st)|done]).
  destruct o; simpl in *; try done.
  - apply add_traced; auto.
  - unfold canValidateSeq. destruct (enforce _ _ _ _). by apply (traced_ext _ _ st).
  - by apply (traced_ext _ _ st).
  - apply (traced_ext _ _ st); unfold expire; repeat case_match; done.
  - by apply trustChanged_traced.
  - unfold getNodesAfter. by case_match.
  - unfold currentTrusted. by destruct (flushStale p env st).
  - unfold getCurrentNodeIDs. by destruct (flushStale p env st).
  - specialize (Hb ledgerID). unfold numTrustedForLedger. by destruct (byLedger env ledgerID st).
  - specialize (Hb ledgerID). unfold getTrustedForLedger. by destruct (byLedger env ledgerID st).
  - specialize (Hb ledgerID). unfold fees. by destruct (byLedger env ledgerID st).
  - apply set_current_traced; [done|]. intros n v. by rewrite lookup_empty.
  - unfold laggards. destruct (flushStale p env st) as [st' live]. by destruct (foldl _ _ _).
Qed.

(** What the history of a store records. *)
Definition received (ops : list (Env L * operation)) (n s i : Z) : Prop :=
  exists env v, (env, OAdd n v) ∈ ops /\ v_seq v = s /\ v_ledgerID v = i.

Definition acquired (ops : list (Env L * operation)) (i : Z) (l : L) : Prop :=
  exists env o, (env, o) ∈ ops /\ acquire env i = Some l.

Definition perform_all p (ops : list (Env L * operation)) st : Validations L :=
  foldl (fun st '(env, o) => perform p env o st) st ops.

Lemma perform_all_traced p ops : traced (received ops) (acquired ops) (perform_all p ops newValidations).
Proof using.
  unfold perform_all. apply foldl_inv; [apply newValidations_traced|]. intros st' [env o] Hin Hok'.
  apply perform_traced; [|intros n v ->; by exists env, v|done]. intros i l Hl. by exists env, o.
Qed.

Lemma perform_all_ok p ops st :
  store_ok st -> Forall (fun eo => from_nodes eo.2) ops -> store_ok (perform_all p ops st).
Proof.
  intros Hok Hf. unfold perform_all. apply foldl_inv; [done|]. intros st' [env o] Hin Hok'.
  apply perform_ok; [done|]. rewrite Forall_forall in Hf. apply (Hf _ Hin).
Qed.

End Facts.

(** ** What the validation store promises its clients

    Sequences accepted from a node increase, a rejected validation leaves no
    trace in the preferred-ledger computation, and the queries built on the trie
    are counts over the last acquired ledger of each node. *)

(** ** The sequence enforcer *)

(** The requests [(now, s)] an enforcer accepts, in order. *)
Fixpoint accepted (p : ValidationParms) (e : SeqEnforcer) (reqs : list (Z * Z))
    : list (Z * Z) :=
  match reqs with
  | [] => []
  | (now, s) :: reqs =>
      let '(ok, e') := enforce p now s e in
      if ok then (now, s) :: accepted p e' reqs else accepted p e' reqs
  end.

Definition laterThan (a b : Z * Z) : Prop := a.1 <= b.1.
Definition increasing (window : Z) (a b : Z * Z) : Prop := b.1 <= a.1 + window -> a.2 < b.2.

Section Enforcer.
Variable p : ValidationParms.
Local Abbreviation window := (seconds (validationSET_EXPIRES p)).

(** Having accepted [s0] at [t0], the enforcer accepts only larger sequences
    until the window is over. *)
Lemma accepted_after e reqs t0 s0 :
  t0 <= when_ e -> s0 <= seq_ e ->
  Forall (fun r => when_ e <= r.1) reqs -> StronglySorted laterThan reqs ->
  Forall (fun r => r.1 <= t0 + window -> s0 < r.2) (accepted p e reqs).
Proof.
  revert e. induction reqs as [|[now s] reqs IH]; intros e Ht Hs Hf Hso; [constructor|].
  apply Forall_cons in Hf as [Hnow Hf]. apply StronglySorted_inv in Hso as [Hso Hl]. simpl in *.
  unfold enforce.
  destruct (Z.ltb_spec (when_ e + window) now) as [Hexp|Hexp]; simpl.
  - assert (forall r, r ∈ (now, s) :: reqs -> t0 + window < r.1) as Hout.
    { intros r [->|Hr]%elem_of_cons; [simpl; lia|].
      rewrite Forall_forall in Hl. specialize (Hl r Hr). unfold laterThan in Hl. simpl in Hl. lia. }
    assert (forall e reqs', accepted p e reqs' ⊆ reqs') as Hsub.
    { clear. intros e reqs'. revert e. induction reqs' as [|[n s] r IH]; intros e; simpl; [done|].
      destruct (enforce p n s e) as [[] e']; specialize (IH e'); set_solver. }
    apply Forall_forall. intros r Hr Hle.
    assert (r ∈ (now, s) :: reqs) as Hin.
    { destruct (s <=? 0); [right; by eapply Hsub|].
      apply elem_of_cons in Hr as [->|Hr]; [left|right; by eapply Hsub]. }
    specialize (Hout r Hin). lia.
  - destruct (Z.leb_spec s (seq_ e)) as [Hrej|Hacc]; [by apply IH|].
    apply Forall_cons. split; [simpl; lia|]. apply IH; simpl; [lia..| |done].
    eapply Forall_impl; [exact Hl|]. done.
Qed.

Lemma accepted_increasing e reqs :
  StronglySorted laterThan reqs -> Forall (fun r => when_ e <= r.1) reqs ->
  StronglySorted (increasing window) (accepted p e reqs).
Proof.
  revert e. induction reqs as [|[now s] reqs IH]; intros e Hso Hf; [constructor|].
  apply StronglySorted_inv in Hso as [Hso Hl]. apply Forall_cons in Hf as [Hnow Hf]. simpl in *.
  assert (Forall (fun r => now <= r.1) reqs) as Hl' by (eapply Forall_impl; [exact Hl|done]).
  destruct (enforce p now s e) as [ok e'] eqn:He. unfold enforce in He.
  destruct (s <=? _); simplify_eq.
  - apply IH; [done|]. destruct (when_ e + window <? now); done.
  - constructor; [by apply IH|]. by apply accepted_after.
Qed.

End Enforcer.

Section Rules.
Context {L : Type} {LO : LedgerOps L} {LL : LedgerLaws L}.
Implicit Types (st : Validations L) (env : Env L) (p : ValidationParms).

(** ** The members the trie bookkeeping does not touch *)

Definition frame st :=
  (current_ st, localSeqEnforcer_ st, seqEnforcers_ st, byLedger_ st, bySequence_ st, toKeep_ st).

Lemma removeTrie_frame n v st : frame (removeTrie n v st) = frame st.
Proof. unfold removeTrie. repeat case_match; done. Qed.

Lemma checkAcquired_frame env st : frame (checkAcquired env st) = frame st.
Proof.
  unfold checkAcquired. apply (foldl_inv (fun s => frame s = frame st)); [done|].
  intros st' e _ E. destruct (acquire env e.1.2); [|done].
  transitivity (frame (foldl (fun st nodeID => updateTrie_ledger nodeID l st) st' (elements e.2))); [done|].
  by apply (foldl_inv (fun s => frame s = frame st)).
Qed.

Lemma updateTrie_frame env n v prior st : frame (updateTrie env n v prior st) = frame st.
Proof.
  unfold updateTrie. set (st1 := match prior with Some _ => _ | None => _ end).
  transitivity (frame (checkAcquired env st1)).
  - by repeat case_match.
  - rewrite checkAcquired_frame. subst st1. by destruct prior.
Qed.

Lemma frame_local st st' : frame st = frame st' -> localSeqEnforcer_ st = localSeqEnforcer_ st'.
Proof. by intros [=]. Qed.

Lemma flushStale_local p env st :
  localSeqEnforcer_ (flushStale p env st).1 = localSeqEnforcer_ st.
Proof.
  unfold flushStale.
  apply (foldl_inv (fun r : Validations L * list (Z * Validation) =>
    localSeqEnforcer_ r.1 = localSeqEnforcer_ st)); [done|].
  intros [st' live] [n v] _ E. simpl in *. case_match; simpl; [|done].
  by rewrite (frame_local _ _ (removeTrie_frame n v st')).
Qed.

Lemma byLedger_local env i st : localSeqEnforcer_ (byLedger env i st).1 = localSeqEnforcer_ st.
Proof. unfold byLedger. by case_match. Qed.

Lemma perform_local p env (o : operation (L := L)) st :
  (forall s, o <> OCanValidateSeq s) ->
  localSeqEnforcer_ (perform p env o st) = localSeqEnforcer_ st.
Proof.
  intros Ho. pose proof (flushStale_local p env st) as Hf.
  assert (localSeqEnforcer_ (withTrie p env st) = localSeqEnforcer_ st) as Hw
    by (unfold withTrie; by rewrite (frame_local _ _ (checkAcquired_frame _ _))).
  destruct o; simpl; try done.
  - unfold add. repeat case_match; simpl; rewrite ?(frame_local _ _ (updateTrie_frame _ _ _ _ _)); done.
  - by destruct (Ho s).
  - unfold expire. repeat case_match; done.
  - unfold trustChanged. simpl. unfold trustCurrent.
    apply (foldl_inv (fun s => localSeqEnforcer_ s = localSeqEnforcer_ st)); [done|].
    intros st' [n v] _ E. repeat case_decide;
      rewrite ?(frame_local _ _ (updateTrie_frame _ _ _ _ _)), ?(frame_local _ _ (removeTrie_frame _ _ _)); done.
  - unfold getNodesAfter. by case_match.
  - unfold currentTrusted. by destruct (flushStale p env st).
  - unfold getCurrentNodeIDs. by destruct (flushStale p env st).
  - pose proof (byLedger_local env ledgerID st) as Hb. unfold numTrustedForLedger.
    by destruct (byLedger env ledgerID st).
  - pose proof (byLedger_local env ledgerID st) as Hb. unfold getTrustedForLedger.
    by destruct (byLedger env ledgerID st).
  - pose proof (byLedger_local env ledgerID st) as Hb. unfold fees.
    by destruct (byLedger env ledgerID st).
  - unfold laggards. destruct (flushStale p env st). by destruct (foldl _ _ _).
Qed.

(** The times and sequences for which the node was allowed to issue a
    validation during a run. *)
Fixpoint issued p (ops : list (Env L * operation (L := L))) st : list (Z * Z) :=
  match ops with
  | [] => []
  | (env, o) :: ops =>
      match o with
      | OCanValidateSeq s =>
          let '(ok, st') := canValidateSeq p env s st in
          if ok then (clock env, s) :: issued p ops st' else issued p ops st'
      | _ => issued p ops (perform p env o st)
      end
  end.

Definition requests (ops : list (Env L * operation (L := L))) : list (Z * Z) :=
  omap (fun eo : Env L * operation => match eo.2 with OCanValidateSeq s => Some (clock eo.1, s) | _ => None end) ops.

Lemma issued_accepted p ops st :
  issued p ops st = accepted p (localSeqEnforcer_ st) (requests ops).
Proof.
  revert st. induction ops as [|[env o] ops IH]; intros st; [done|].
  assert ((exists s, o = OCanValidateSeq s) \/ forall s, o <> OCanValidateSeq s) as [[s ->]|Ho]
    by (destruct o; naive_solver).
  - simpl. unfold canValidateSeq. destruct (enforce _ _ _ _) as [[] e]; by rewrite IH.
  - rewrite <- (perform_local p env o st Ho).
    transitivity (issued p ops (perform p env o st)); [destruct o; (done || by destruct (Ho s))|].
    rewrite IH. f_equal. destruct o; (done || by destruct (Ho s)).
Qed.

Lemma issued_increasing p ops :
  StronglySorted laterThan (requests ops) -> Forall (fun r => 0 <= r.1) (requests ops) ->
  StronglySorted (increasing (seconds (validationSET_EXPIRES p))) (issued p ops newValidations).
Proof. intros Hs Hf. rewrite issued_accepted. by apply accepted_increasing. Qed.

(** ** The branches of [add] *)

Lemma add_current_iff p env n v st :
  (add p env n v st).1 = current <->
  isCurrent p (now env) (v_signTime v) (v_seenTime v) = true
  /\ (enforce p (clock env) (v_seq v) (default newEnforcer (seqEnforcers_ st !! n))).1 = true
  /\ forall old, current_ st !! n = Some old -> v_signTime old < v_signTime v.
Proof.
  unfold add. destruct (isCurrent _ _ _ _); simpl; [|naive_solver].
  destruct (enforce _ _ _ _) as [[] e]; simpl; [|repeat case_match; naive_solver].
  destruct (current_ st !! n) as [old|]; simpl; [|naive_solver].
  destruct (Z.ltb_spec (v_signTime old) (v_signTime v)); simpl; [naive_solver|].
  split; [done|]. intros (_ & _ & Hlt). specialize (Hlt old eq_refl). lia.
Qed.

(** An accepted validation becomes the current one of its node and is filed
    under its ledger. *)
Lemma add_current_stored p env n v st :
  (add p env n v st).1 = current ->
  let st' := (add p env n v st).2 in
  current_ st' = <[n := v]> (current_ st)
  /\ aged_value (v_ledgerID v) (byLedger_ st') ≫= lookup n = Some v.
Proof.
  intros (Hc & He & Hold)%add_current_iff. unfold add. rewrite Hc. simpl.
  destruct (enforce _ _ _ _) as [ok e]. simpl in He. subst ok. simpl.
  set (bl := aged_alter _ (v_ledgerID v) _).
  assert (aged_value (v_ledgerID v) bl ≫= lookup n = Some v) as Hbl.
  { subst bl. rewrite aged_value_alter, decide_True, aged_value_index, decide_True by done. simpl.
    apply lookup_insert_eq. }
  destruct (current_ st !! n) as [old|].
  - rewrite (proj2 (Z.ltb_lt _ _)) by by apply Hold. simpl. destruct (v_trusted v); [|done].
    match goal with |- context [updateTrie ?e ?a ?b ?c ?d] =>
      pose proof (updateTrie_frame e a b c d) as Hfr end.
    injection Hfr as -> _ _ -> _ _. done.
  - simpl. destruct (v_trusted v); [|done].
    match goal with |- context [updateTrie ?e ?a ?b ?c ?d] =>
      pose proof (updateTrie_frame e a b c d) as Hfr end.
    injection Hfr as -> _ _ -> _ _. done.
Qed.

(** Any other outcome leaves the current validations and the trie alone. *)
Lemma add_rejected p env n v st :
  (add p env n v st).1 <> current ->
  let st' := (add p env n v st).2 in
  current_ st' = current_ st /\ trie_ st' = trie_ st
  /\ lastLedger_ st' = lastLedger_ st /\ acquiring_ st' = acquiring_ st.
Proof. unfold add. intros Hne. repeat case_match; done. Qed.

(** Two validations of a node for the same sequence but different ledgers are
    reported, whatever the clocks did in between up to the expiry. *)
Lemma double_vote_detected p env env' n v v' st :
  (add p env n v st).1 = current ->
  aged_value (v_seq v) (bySequence_ st) ≫= lookup n = None ->
  isCurrent p (now env') (v_signTime v') (v_seenTime v') = true ->
  v_seq v' = v_seq v -> v_ledgerID v' <> v_ledgerID v ->
  Z.abs (v_signTime v' - v_signTime v) <= validationCURRENT_WALL p ->
  clock env' <= clock env + seconds (validationSET_EXPIRES p) ->
  (add p env' n v' (add p env n v st).2).1 = conflicting.
Proof.
  intros Hadd Hno Hc' Hs Hid Hw Hclk. apply add_current_iff in Hadd as Hcond.
  destruct Hcond as (Hc & He & _).
  assert (seqEnforcers_ (add p env n v st).2 !! n = Some {| seq_ := v_seq v; when_ := clock env |}
    /\ aged_value (v_seq v) (bySequence_ (add p env n v st).2) ≫= lookup n = Some v) as [Henf Hseq].
  { clear Hadd. unfold add. rewrite Hc. simpl. unfold enforce in *.
    match goal with |- context [if v_seq v <=? ?s then _ else _] =>
      destruct (v_seq v <=? s); [done|] end. simpl.
    set (bs := aged_alter (trackSequence p n v) (v_seq v) _).
    assert (aged_value (v_seq v) bs ≫= lookup n = Some v) as Hbs.
    { subst bs. rewrite aged_value_alter, decide_True, aged_value_index, decide_True by done.
      simpl. unfold trackSequence. destruct (aged_value (v_seq v) (bySequence_ st)) as [m|]; simpl in *.
      - rewrite Hno. apply lookup_insert_eq.
      - rewrite lookup_empty. apply lookup_insert_eq. }
    repeat case_match; simpl;
      try (match goal with |- context [updateTrie ?e ?a ?b ?c ?d] =>
        pose proof (updateTrie_frame e a b c d) as Hfr; injection Hfr as _ _ -> _ -> _ end; simpl);
      (split; [apply lookup_insert_eq|done]). }
  generalize dependent ((add p env n v st).2). intros st1 Henf Hseq. unfold add. rewrite Hc'.
  simpl. rewrite Henf. unfold enforce at 1. simpl.
  rewrite (proj2 (Z.ltb_ge _ _)) by lia. simpl. rewrite (proj2 (Z.leb_le _ _)) by lia. simpl.
  rewrite aged_value_alter, decide_True, aged_value_index, decide_True, Hs by done. simpl.
  destruct (aged_value (v_seq v) (bySequence_ st1)) as [m|]; [|done]. simpl in *.
  unfold trackSequence. rewrite Hseq.
  rewrite (proj2 (Z.ltb_ge _ _)) by lia. simpl. rewrite Hseq. simpl.
  rewrite Z.eqb_refl, (proj2 (Z.eqb_neq _ _)) by done. done.
Qed.

(** ** The preferred ledger and the nodes ahead *)

Variable nodes : gset Z.
Hypothesis nodes_bound : Z.of_nat (size nodes) < 2 ^ 32.

Lemma preferredFrom_tip largestIssued (n : Node L) : forall it unc,
  exists sp, preferredFrom largestIssued n it unc = tip sp.
Proof.
  induction n as [sp ts bs cs IH] using Node_ind'. intros it unc. simpl.
  destruct (take_uncommitted _ it unc) as [it1 unc1].
  destruct (advance _ _ it1 _ unc1) as [[it2 n'] unc2].
  destruct (n' <? end_ sp); [by eexists|].
  destruct (bestChild cs) as [[i margin]|]; [|by eexists].
  destruct ((unc2 <? margin) || (unc2 =? 0)); [|by eexists].
  rewrite list_lookup_fmap. destruct (cs !! i) as [c|] eqn:Hi; [|by eexists]. simpl.
  rewrite Forall_forall in IH. apply IH. by eapply list_elem_of_lookup_2.
Qed.

(** The ledger to work on, given the preferred ledger [x] and a ledger [l] it is
    an ancestor of: a child of the current ledger, or an ancestor of it, is no
    reason to change. *)
Definition workingLedger (curr l : L) (x : Z * Z) : Z * Z :=
  if (x.1 =? u32 (seq curr + 1)) && (anc l (seq curr) =? lid curr) then (seq curr, lid curr)
  else if seq curr <? x.1 then x
  else if anc curr x.1 =? x.2 then (seq curr, lid curr)
  else x.

Lemma getPreferred_rule p env curr st :
  store_ok nodes st ->
  let '(r, st') := getPreferred p env curr st in
  let V := map_values (lastLedger_ st') in
  let R := prefers V (largest (localSeqEnforcer_ st')) in
  (V = [] /\ r = fst <$> max_of acquiring_lt (map_to_list (acquiring_ st')))
  \/ (V <> [] /\ exists x l, rtc R (0, lid genesis) x /\ nf R x /\ anc l x.1 = x.2
        /\ r = Some (workingLedger curr l x)).
Proof.
  intros Hok. unfold getPreferred. cbv zeta.
  pose proof (withTrie_ok nodes nodes_bound p env st Hok) as Hok'.
  set (st' := withTrie p env st) in *.
  pose proof (getPreferred_spec (trie_ st') _ (so_trie _ _ Hok') (largest (localSeqEnforcer_ st'))) as Hs.
  destruct (LedgerTrie.getPreferred _ _) as [tp|] eqn:Hp; [|by left]. right.
  destruct Hs as (Hne & Hr & Hn). split; [done|].
  exists (tipSeq tp, tipID tp), (tipLedger tp). split_and!; [done..| |].
  - unfold LedgerTrie.getPreferred in Hp. case_match; [done|]. simplify_eq.
    destruct (preferredFrom_tip (largest (localSeqEnforcer_ st')) (root (trie_ st'))
      (entries (seqSupport (trie_ st'))) 0) as [sp ->]. done.
  - unfold choosePreferred, workingLedger, tip_ancestor. simpl.
    destruct (_ && _); [done|]. destruct (seq curr <? tipSeq tp); [done|].
    by destruct (anc curr (tipSeq tp) =? tipID tp).
Qed.

Definition tally (b : bool) : Z := if b then 1 else 0.

Lemma votes_split f g h (M : list L) :
  (forall x, tally (f (seq x) x) = tally (g (seq x) x) + tally (h (seq x) x)) ->
  votes f M = votes g M + votes h M.
Proof.
  intros Hx. induction M as [|l M IH]; [done|]. rewrite !votes_cons, IH.
  specialize (Hx l). unfold tally in Hx. lia.
Qed.

(** [l] is a strict descendant of [ledger]. *)
Definition strictlyAfter (ledger : L) : Z -> L -> bool :=
  fun s a => (seq ledger <? s) && (anc a (seq ledger) =? lid ledger).

Lemma getNodesAfter_count p env ledger st :
  store_ok nodes st ->
  let '(k, st') := getNodesAfter p env ledger (lid ledger) st in
  k = votes (strictlyAfter ledger) (map_values (lastLedger_ st')).
Proof.
  intros Hok. unfold getNodesAfter. rewrite Z.eqb_refl. cbv zeta.
  pose proof (withTrie_ok nodes nodes_bound p env st Hok) as [Hr Hdom _ _].
  set (st' := withTrie p env st) in *. set (M := map_values (lastLedger_ st')) in *.
  rewrite (represents_branchSupport _ _ _ Hr), (represents_tipSupport _ _ _ Hr).
  rewrite (votes_split _ (strictlyAfter ledger) (hasID (lid ledger))).
  - rewrite u32_id; [lia|]. pose proof (votes_nonneg (strictlyAfter ledger) M).
    pose proof (votes_le_length (strictlyAfter ledger) M).
    subst M. rewrite map_values_length in *. apply subseteq_size in Hdom.
    rewrite size_dom in Hdom. lia.
  - intros x. unfold descends, descendsAt, strictlyAfter, hasID, tally.
    pose proof (seq_range x) as Hx. pose proof (seq_range ledger) as Hl.
    destruct (Z.eqb_spec (anc x (seq x)) (lid ledger)) as [E|E].
    + pose proof E as Hu. rewrite (lid_anc ledger) in Hu. apply anc_unique in Hu; [|lia..].
      rewrite <- Hu, E, Z.eqb_refl, Z.leb_refl, Z.ltb_irrefl. done.
    + destruct (Z.ltb_spec (seq ledger) (seq x)).
      * rewrite (proj2 (Z.leb_le _ _)) by lia. simpl. lia.
      * destruct (Z.leb_spec (seq ledger) (seq x)); simpl; [|done].
        assert (seq x = seq ledger) as <- by lia. rewrite (proj2 (Z.eqb_neq _ _)) by done. done.
Qed.

(** Otherwise the nodes whose last ledger is a child of the given one. *)
Lemma getNodesAfter_children p env ledger ledgerID st :
  lid ledger <> ledgerID ->
  getNodesAfter p env ledger ledgerID st =
  (votes (fun s l => (0 <? s) && (anc l (s - 1) =? ledgerID)) (map_values (lastLedger_ st)), st).
Proof.
  intros Hne. unfold getNodesAfter. rewrite (proj2 (Z.eqb_neq _ _)) by done. f_equal.
  unfold map_values, votes. induction (map_to_list (lastLedger_ st)) as [|[k l] ls IH]; [done|].
  rewrite filter_cons, !fmap_cons, zsum_cons, <- IH. pose proof (seq_range l) as Hl. simpl.
  destruct (Z.ltb_spec 0 (seq l)); simpl.
  - rewrite u32_id by lia. case_decide as Hd; simpl in Hd.
    + rewrite (proj2 (Z.eqb_eq _ _)) by tauto. simpl. lia.
    + rewrite (proj2 (Z.eqb_neq _ _)) by tauto. done.
  - rewrite decide_False by (simpl; lia). done.
Qed.

End Rules.
