(* ===== verification/ValidationsProperties.v ===== *)
(** * Properties of the validation store, with concrete runs *)

From S2P Require Import Prelude AgedMap LedgerTrie LedgerTrieFacts TrieQueries.
From S2P Require Import Preferred RCLValidations Validations ValidationsFacts.
Import BinaryChain.

(** ** A concrete store: the binary chain, some ledgers of which can be acquired *)

Module Example.

Definition acquire_from (ids : list positive) (i : Z) : option CompleteLedger :=
  match i with
  | Zpos p => if decide (p ∈ ids) then Some (ledger p) else None
  | _ => None
  end.

Definition env (t : Z) (ids : list positive) : Env CompleteLedger :=
  {| now := t; clock := seconds t; acquire := acquire_from ids |}.

Definition vote (p : positive) (t : Z) : Validation :=
  {| v_ledgerID := Zpos p; v_seq := seq (ledger p); v_signTime := t; v_seenTime := t; v_key := 7;
     v_trusted := true; v_full := true; v_loadFee := None; v_cookie := 0 |}.

(** Node 1 votes for ledger 5, then for ledger 11, which cannot be acquired. *)
Definition calls : list (Env CompleteLedger * operation (L := CompleteLedger)) :=
  [(env 1000 [5%positive], OAdd 1 (vote 5 1000));
   (env 1010 [5%positive], OAdd 1 (vote 11 1010))].

Definition lagging : Validations CompleteLedger := perform_all validationParms calls newValidations.

(** Removing the node from the trusted nodes. *)
Definition untrusted : Validations CompleteLedger :=
  trustChanged (env 1020 [5%positive]) ∅ {[1]} lagging.

(** The next use of the trie, when the validation is long stale. *)
Definition expired : Validations CompleteLedger :=
  withTrie validationParms (env 5000 [5%positive]) lagging.

(** Three nodes vote for ledger 5, two of them then for its child 11. *)
Definition majority : list (Env CompleteLedger * operation (L := CompleteLedger)) :=
  [(env 1000 [5%positive; 11%positive], OAdd 1 (vote 5 1000));
   (env 1000 [5%positive; 11%positive], OAdd 2 (vote 5 1000));
   (env 1001 [5%positive; 11%positive], OAdd 3 (vote 5 1001));
   (env 1010 [5%positive; 11%positive], OAdd 1 (vote 11 1010));
   (env 1010 [5%positive; 11%positive], OAdd 2 (vote 11 1010))].

(** Requests to validate ledgers 4, 4 again and 5. *)
Definition requesting : list (Env CompleteLedger * operation (L := CompleteLedger)) :=
  [(env 1 [], OCanValidateSeq 4); (env 2 [], OCanValidateSeq 4); (env 3 [], OCanValidateSeq 5)].

End Example.
Import Example.

(** ** Properties *)

Section Properties.
Context {L : Type} {LO : LedgerOps L} {LL : LedgerLaws L}.

(** C30: whatever calls the store receives from at most 2^32 - 1 nodes, its trie
    holds exactly the ledgers that [lastLedger_] has for the nodes, each once.
    The ledger of a node is one that a validation received from that node named
    and that the adaptor delivered when it was asked for that name; a node whose
    ledgers were never delivered has none.  Every ledger recorded as being
    acquired is waited for by some node, only nodes that validated it with that
    sequence wait for it, and a current validation is one received from its
    node. *)
Theorem store_invariant (nodes : gset Z) (p : ValidationParms)
    (ops : list (Env L * operation (L := L)))
    (Hsize : Z.of_nat (size nodes) < 2 ^ 32)
    (Hfrom : Forall (fun eo => from_nodes nodes eo.2) ops) :
  let st := perform_all p ops newValidations in
  store_ok nodes st /\ traced (received ops) (acquired ops) st.
Proof.
  split; [|apply perform_all_traced]. apply perform_all_ok; [done|by apply newValidations_ok|done].
Qed.

(** C17: after any calls, [getPreferred] answers from the rule [prefers] over the
    last ledgers of the nodes: the ledger [x] where the walk stops, or the
    working ledger when that is [x]'s parent or follows from [x]; with no
    ledgers to go by, the ledger most nodes are waiting for. *)
Theorem getPreferred_of_run (nodes : gset Z) (p : ValidationParms)
    (ops : list (Env L * operation (L := L))) (env : Env L) (curr : L)
    (Hsize : Z.of_nat (size nodes) < 2 ^ 32)
    (Hfrom : Forall (fun eo => from_nodes nodes eo.2) ops) :
  let '(r, st) := getPreferred p env curr (perform_all p ops newValidations) in
  let V := map_values (lastLedger_ st) in
  let R := prefers V (largest (localSeqEnforcer_ st)) in
  (V = [] /\ r = fst <$> max_of acquiring_lt (map_to_list (acquiring_ st)))
  \/ (V <> [] /\ exists x l, rtc R (0, lid genesis) x /\ nf R x /\ anc l x.1 = x.2
        /\ r = Some (workingLedger curr l x)).
Proof.
  apply (getPreferred_rule nodes Hsize).
  apply perform_all_ok; [done|by apply newValidations_ok|done].
Qed.

(** The node never signs the same or a lower sequence number twice within
    [validationSET_EXPIRES]: of the sequences [canValidateSeq] has granted, in
    any interleaving with other calls, a later one is larger or comes after the
    window of the earlier one. *)
Theorem issued_sequences_increase (p : ValidationParms) (ops : list (Env L * operation (L := L)))
    (Hclock : StronglySorted laterThan (requests ops))
    (Hpos : Forall (fun r => 0 <= r.1) (requests ops)) :
  StronglySorted (increasing (seconds (validationSET_EXPIRES p))) (issued p ops newValidations).
Proof. by apply issued_increasing. Qed.

(** [add] answers [current] exactly for a timely validation with an
    acceptable sequence that is newer than the one the node has; that validation
    becomes the node's current one and is filed under its ledger.  Any other
    answer leaves the current validations and the trie as they were. *)
Theorem add_outcome (p : ValidationParms) (env : Env L) (n : Z) (v : Validation)
    (st : Validations L) :
  let '(r, st') := add p env n v st in
  (r = current <->
     isCurrent p (now env) (v_signTime v) (v_seenTime v) = true /\
     (enforce p (clock env) (v_seq v) (default newEnforcer (seqEnforcers_ st !! n))).1 = true /\
     forall old, current_ st !! n = Some old -> v_signTime old < v_signTime v) /\
  if decide (r = current)
  then current_ st' = <[n := v]> (current_ st) /\
       aged_value (v_ledgerID v) (byLedger_ st') ≫= lookup n = Some v
  else current_ st' = current_ st /\ trie_ st' = trie_ st /\
       lastLedger_ st' = lastLedger_ st /\ acquiring_ st' = acquiring_ st.
Proof.
  pose proof (add_current_iff p env n v st) as H1.
  pose proof (add_current_stored p env n v st) as H2.
  pose proof (add_rejected p env n v st) as H3.
  destruct (add p env n v st) as [r st']. cbn in *. case_decide; auto.
Qed.

(** A validator that signs two different ledgers of the same sequence is
    found out: after its first validation was accepted, the second one is
    reported as conflicting, if it arrives before the sets expire. *)
Theorem double_validation_reported (p : ValidationParms) (env env' : Env L) (n : Z)
    (v v' : Validation) (st : Validations L)
    (Hfirst : (add p env n v st).1 = current)
    (Hfresh : aged_value (v_seq v) (bySequence_ st) ≫= lookup n = None)
    (Hcurrent : isCurrent p (now env') (v_signTime v') (v_seenTime v') = true)
    (Hseq : v_seq v' = v_seq v) (Hid : v_ledgerID v' <> v_ledgerID v)
    (Hnear : Z.abs (v_signTime v' - v_signTime v) <= validationCURRENT_WALL p)
    (Hclock : clock env' <= clock env + seconds (validationSET_EXPIRES p)) :
  (add p env' n v' (add p env n v st).2).1 = conflicting.
Proof. by apply double_vote_detected. Qed.

(** After any calls, [getNodesAfter] counts the nodes whose last ledger
    strictly descends from the given one. *)
Theorem getNodesAfter_counts (nodes : gset Z) (p : ValidationParms)
    (ops : list (Env L * operation (L := L))) (env : Env L) (ledger : L)
    (Hsize : Z.of_nat (size nodes) < 2 ^ 32)
    (Hfrom : Forall (fun eo => from_nodes nodes eo.2) ops) :
  let '(k, st) := getNodesAfter p env ledger (lid ledger) (perform_all p ops newValidations) in
  k = votes (strictlyAfter ledger) (map_values (lastLedger_ st)).
Proof.
  apply (getNodesAfter_count nodes Hsize).
  apply perform_all_ok; [done|by apply newValidations_ok|done].
Qed.

End Properties.

(** The vote of a node that is no longer trusted, or has fallen silent, can
    stay in the trie.  When the latest ledger a node voted for was never
    acquired, its earlier ledger is found neither by [trustChanged] nor when its
    validation goes stale, and keeps counting for the preferred ledger. *)
Theorem departed_votes_remain :
  tipSupport (ledger 5) (trie_ untrusted) = 1 /\
  (v_trusted <$> current_ untrusted !! 1) = Some false /\
  tipSupport (ledger 5) (trie_ expired) = 1 /\ current_ expired = ∅.
Proof. vm_compute. done. Qed.

(** ** Witnesses *)

Lemma small_nodes : Z.of_nat (size ({[1; 2; 3]} : gset Z)) < 2 ^ 32.
Proof. reflexivity. Qed.

Lemma store_invariant_witness :
  let st := perform_all validationParms majority newValidations in
  size (lastLedger_ st) = 3%nat /\ store_ok {[1; 2; 3]} st /\ traced (received majority) (acquired majority) st.
Proof.
  split; [vm_compute; reflexivity|]. apply (store_invariant {[1; 2; 3]} validationParms majority small_nodes).
  repeat constructor; cbn; set_solver.
Defined.

Lemma getPreferred_of_run_witness :
  (getPreferred validationParms (env 1020 []) (ledger 2)
     (perform_all validationParms majority newValidations)).1 = Some (4, 11) /\
  let '(r, st) := getPreferred validationParms (env 1020 []) (ledger 2)
     (perform_all validationParms majority newValidations) in
  let V := map_values (lastLedger_ st) in
  let R := prefers V (largest (localSeqEnforcer_ st)) in
  (V = [] /\ r = fst <$> max_of acquiring_lt (map_to_list (acquiring_ st)))
  \/ (V <> [] /\ exists x l, rtc R (0, lid (genesis : CompleteLedger)) x /\ nf R x /\ anc l x.1 = x.2
        /\ r = Some (workingLedger (ledger 2) l x)).
Proof.
  split; [vm_compute; reflexivity|].
  apply (getPreferred_of_run {[1; 2; 3]} validationParms majority (env 1020 []) (ledger 2) small_nodes).
  repeat constructor; cbn; set_solver.
Defined.

Lemma issued_sequences_increase_witness :
  issued validationParms requesting newValidations = [(seconds 1, 4); (seconds 3, 5)] /\
  StronglySorted (increasing (seconds 600)) (issued validationParms requesting newValidations).
Proof.
  split; [vm_compute; reflexivity|].
  apply (issued_sequences_increase validationParms requesting); repeat constructor; cbn; done.
Defined.

Lemma double_validation_reported_witness :
  (add validationParms (env 1001 []) 1 (vote 4 1001)
     (add validationParms (env 1000 []) 1 (vote 5 1000) newValidations).2).1 = conflicting.
Proof.
  apply (double_validation_reported validationParms (env 1000 []) (env 1001 []) 1
    (vote 5 1000) (vote 4 1001) newValidations); vm_compute; done.
Defined.

Lemma getNodesAfter_counts_witness :
  (getNodesAfter validationParms (env 1020 []) (ledger 5) (lid (ledger 5))
     (perform_all validationParms majority newValidations)).1 = 2 /\
  let '(k, st) := getNodesAfter validationParms (env 1020 []) (ledger 5) (lid (ledger 5))
     (perform_all validationParms majority newValidations) in
  k = votes (strictlyAfter (ledger 5)) (map_values (lastLedger_ st)).
Proof.
  split; [vm_compute; reflexivity|].
  apply (getNodesAfter_counts {[1; 2; 3]} validationParms majority (env 1020 []) (ledger 5) small_nodes).
  repeat constructor; cbn; set_solver.
Defined.
