(* ===== verification/ConsensusProposal.v ===== *)
(** * Proposals, timers and the result of a round

    Models [ConsensusProposal.h] and [ConsensusTypes.h].  Identifiers are
    integers; [NetClock] times are seconds, the steady clock counts
    nanoseconds.  A transaction is its identifier and a transaction set is a
    finite set of them. *)

From S2P Require Import Prelude ConsensusParms ConsensusRules DisputedTx.

Definition seqJoin : Z := 0.
Definition seqLeave : Z := 2 ^ 32 - 1.

Record Proposal := {
  previousLedger : Z;
  position : Z;
  closeTime : Z;
  time_ : Z;
  proposeSeq : Z;
  nodeID : Z;
}.

Definition isInitial (x : Proposal) : bool := proposeSeq x =? seqJoin.
Definition isBowOut (x : Proposal) : bool := proposeSeq x =? seqLeave.
Definition isStale (cutoff : Z) (x : Proposal) : bool := time_ x <=? cutoff.

Definition changePosition (newPosition newCloseTime now : Z) (x : Proposal) : Proposal := {|
  previousLedger := previousLedger x; position := newPosition; closeTime := newCloseTime;
  time_ := now;
  proposeSeq := if proposeSeq x =? seqLeave then proposeSeq x else u32 (proposeSeq x + 1);
  nodeID := nodeID x |}.

Definition bowOut (now : Z) (x : Proposal) : Proposal := {|
  previousLedger := previousLedger x; position := position x; closeTime := closeTime x;
  time_ := now; proposeSeq := seqLeave; nodeID := nodeID x |}.

Inductive ConsensusMode := proposing | observing | wrongLedger | switchedLedger.
Inductive ConsensusPhase := open | establish | accepted.

#[export] Instance ConsensusMode_eq_dec : EqDecision ConsensusMode.
Proof. solve_decision. Defined.
#[export] Instance ConsensusPhase_eq_dec : EqDecision ConsensusPhase.
Proof. solve_decision. Defined.

(** Durations are milliseconds. *)
Record ConsensusTimer := { start_time : Z; dur_ : Z }.

Definition timer_reset (tp : Z) : ConsensusTimer := {| start_time := tp; dur_ := 0 |}.
Definition timer_add (fixed : Z) (t : ConsensusTimer) : ConsensusTimer :=
  {| start_time := start_time t; dur_ := dur_ t + fixed |}.
Definition timer_tick (tp : Z) (t : ConsensusTimer) : ConsensusTimer :=
  {| start_time := start_time t; dur_ := Z.quot (tp - start_time t) 1000000 |}.

Abbreviation TxSet := (gset Z).

Record Result := mkResult {
  txns : TxSet;
  pos : Proposal;
  disputes : gmap Z (DisputedTx Z);
  compares : gset Z;
  roundTime : ConsensusTimer;
  state : ConsensusState;
  proposers : Z;
}.

Definition newResult (s : TxSet) (x : Proposal) : Result :=
  mkResult s x ∅ ∅ {| start_time := 0; dur_ := 0 |} No 0.
