(* ===== verification/Consensus.v ===== *)
(** * The consensus round

    Models the class [Consensus] of [src/src/xrpld/consensus/Consensus.h].  The
    members of the class are the fields of the record [Consensus]; [effects]
    lists the calls made to the adaptor, in order.  What the adaptor answers
    during one call is the argument [A].  Each method is a function on the
    state; the asserted preconditions are proved as invariants in
    [ConsensusFacts].  Logging and JSON output are left out.  [timerEntry] and
    [startRoundInternal] call each other through [checkLedger]; the recursion is
    cut by a fuel, and [ConsensusRounds] shows which fuel is enough. *)

From Stdlib Require Import SpecFloat.
From S2P Require Import Prelude ConsensusParms LedgerTiming DisputedTx ConsensusRules.
From S2P Require Import ConsensusProposal.

(** A ledger as the round sees it. *)
Record Ledger := {
  ledger_id : Z;
  ledger_seq : Z;
  closeTimeResolution : Z;
  closeAgree : bool;
  ledgerCloseTime : Z;
  parentCloseTime : Z;
}.

Inductive Effect :=
| ModeChange (before after : ConsensusMode)
| SharePosition (x : Proposal)
| ShareTx (tx : Z)
| ShareTxSet (s : TxSet)
| Propose (x : Proposal)
| UpdateOperatingMode (positions : Z)
| OnAccept (r : Result) (prev : Ledger) (mode : ConsensusMode)
| OnForceAccept (r : Result) (prev : Ledger) (mode : ConsensusMode).

(** The adaptor, the clock and the hash of transaction sets. *)
Record Adaptor := {
  parms_ : ConsensusParms;
  clock_now : Z;
  setID : TxSet -> Z;
  acquireLedger : Z -> option Ledger;
  acquireTxSet : Z -> option TxSet;
  hasOpenTransactions : bool;
  proposersValidated : Z -> Z;
  proposersFinished : Ledger -> Z -> Z;
  getPrevLedger : Z -> Ledger -> ConsensusMode -> Z;
  onClose : Ledger -> Z -> ConsensusMode -> TxSet * Proposal;
  getValidLedgerIndex : Z;
  getQuorumKeys : Z * gset Z;
  adaptor_laggards : Z -> gset Z -> Z * gset Z;
  validator : bool;
  haveValidated : bool;
}.

Record Consensus := mkConsensus {
  phase_ : ConsensusPhase;
  mode_ : ConsensusMode;
  firstRound_ : bool;
  haveCloseTimeConsensus_ : bool;
  convergePercent_ : Z;
  openTime_ : ConsensusTimer;
  closeResolution_ : Z;
  closeTimeAvalancheState_ : AvalancheState;
  prevRoundTime_ : Z;
  now_ : Z;
  prevCloseTime_ : Z;
  prevLedgerID_ : Z;
  previousLedger_ : Ledger;
  acquired_ : gmap Z TxSet;
  result_ : option Result;
  rawPeers : gmap Z Z;              (* rawCloseTimes_.peers *)
  rawSelf : Z;                      (* rawCloseTimes_.self *)
  peerUnchangedCounter_ : Z;
  establishCounter_ : Z;
  currPeerPositions_ : gmap Z Proposal;
  recentPeerPositions_ : gmap Z (list Proposal);
  prevProposers_ : Z;
  deadNodes_ : gset Z;
  effects : list Effect;
}.

Definition consensus_fields (st : Consensus) : Consensus :=
  mkConsensus (phase_ st) (mode_ st) (firstRound_ st) (haveCloseTimeConsensus_ st)
    (convergePercent_ st) (openTime_ st) (closeResolution_ st) (closeTimeAvalancheState_ st)
    (prevRoundTime_ st) (now_ st) (prevCloseTime_ st) (prevLedgerID_ st) (previousLedger_ st)
    (acquired_ st) (result_ st) (rawPeers st) (rawSelf st) (peerUnchangedCounter_ st)
    (establishCounter_ st) (currPeerPositions_ st) (recentPeerPositions_ st)
    (prevProposers_ st) (deadNodes_ st) (effects st).
Definition result_fields (r : Result) : Result :=
  mkResult (txns r) (pos r) (disputes r) (compares r) (roundTime r) (state r) (proposers r).

(** [assign all st f x] is the record [st] with the field [f] replaced. *)
Ltac assign all st f x :=
  let t := eval cbv beta delta [all] in (all st) in
  let t := eval pattern (f st) in t in
  match t with ?F _ => let r := eval cbv beta in (F x) in exact r end.

Definition set_phase x (st : Consensus) : Consensus := ltac:(assign consensus_fields st phase_ x).
Definition put_mode x (st : Consensus) : Consensus := ltac:(assign consensus_fields st mode_ x).
Definition set_firstRound x (st : Consensus) : Consensus := ltac:(assign consensus_fields st firstRound_ x).
Definition set_haveCloseTime x (st : Consensus) : Consensus := ltac:(assign consensus_fields st haveCloseTimeConsensus_ x).
Definition set_convergePercent x (st : Consensus) : Consensus := ltac:(assign consensus_fields st convergePercent_ x).
Definition set_openTime x (st : Consensus) : Consensus := ltac:(assign consensus_fields st openTime_ x).
Definition set_closeResolution x (st : Consensus) : Consensus := ltac:(assign consensus_fields st closeResolution_ x).
Definition set_avalanche x (st : Consensus) : Consensus := ltac:(assign consensus_fields st closeTimeAvalancheState_ x).
Definition set_prevRoundTime x (st : Consensus) : Consensus := ltac:(assign consensus_fields st prevRoundTime_ x).
Definition set_now x (st : Consensus) : Consensus := ltac:(assign consensus_fields st now_ x).
Definition set_prevCloseTime x (st : Consensus) : Consensus := ltac:(assign consensus_fields st prevCloseTime_ x).
Definition set_prevLedgerID x (st : Consensus) : Consensus := ltac:(assign consensus_fields st prevLedgerID_ x).
Definition set_previousLedger x (st : Consensus) : Consensus := ltac:(assign consensus_fields st previousLedger_ x).
Definition set_acquired x (st : Consensus) : Consensus := ltac:(assign consensus_fields st acquired_ x).
Definition set_result x (st : Consensus) : Consensus := ltac:(assign consensus_fields st result_ x).
Definition set_rawPeers x (st : Consensus) : Consensus := ltac:(assign consensus_fields st rawPeers x).
Definition set_rawSelf x (st : Consensus) : Consensus := ltac:(assign consensus_fields st rawSelf x).
Definition set_peerUnchanged x (st : Consensus) : Consensus := ltac:(assign consensus_fields st peerUnchangedCounter_ x).
Definition set_establishCounter x (st : Consensus) : Consensus := ltac:(assign consensus_fields st establishCounter_ x).
Definition set_currPeers x (st : Consensus) : Consensus := ltac:(assign consensus_fields st currPeerPositions_ x).
Definition set_recentPeers x (st : Consensus) : Consensus := ltac:(assign consensus_fields st recentPeerPositions_ x).
Definition set_prevProposers x (st : Consensus) : Consensus := ltac:(assign consensus_fields st prevProposers_ x).
Definition set_deadNodes x (st : Consensus) : Consensus := ltac:(assign consensus_fields st deadNodes_ x).
Definition set_effects x (st : Consensus) : Consensus := ltac:(assign consensus_fields st effects x).

Definition set_txns x (r : Result) : Result := ltac:(assign result_fields r txns x).
Definition set_pos x (r : Result) : Result := ltac:(assign result_fields r pos x).
Definition set_disputes x (r : Result) : Result := ltac:(assign result_fields r disputes x).
Definition set_compares x (r : Result) : Result := ltac:(assign result_fields r compares x).
Definition set_roundTime x (r : Result) : Result := ltac:(assign result_fields r roundTime x).
Definition set_state x (r : Result) : Result := ltac:(assign result_fields r state x).
Definition set_proposers x (r : Result) : Result := ltac:(assign result_fields r proposers x).

Definition emit (e : Effect) (st : Consensus) : Consensus := set_effects (effects st ++ [e]) st.

(** [mode_.set(mode, adaptor_)]. *)
Definition set_mode (m : ConsensusMode) (st : Consensus) : Consensus :=
  put_mode m (emit (ModeChange (mode_ st) m) st).

(** [result_->...]: the source asserts that the result is there. *)
Definition on_result (f : Result -> Result) (st : Consensus) : Consensus :=
  set_result (f <$> result_ st) st.

Definition positions (st : Consensus) : list (Z * Proposal) := map_to_list (currPeerPositions_ st).
Definition peerCount (st : Consensus) : Z := Z.of_nat (size (currPeerPositions_ st)).
Definition isProposing (st : Consensus) : bool := bool_decide (mode_ st = proposing).

Definition newConsensus (l : Ledger) : Consensus :=
  mkConsensus accepted observing true false 0 {| start_time := 0; dur_ := 0 |}
    ledgerDefaultTimeResolution init 0 0 0 0 l ∅ None ∅ 0 0 0 ∅ ∅ 0 ∅ [].

Section Methods.
Variable A : Adaptor.

(** ** Disputes *)

(** [compare]: the differences between two sets, with the set they are in. *)
Definition differences (s o : TxSet) : list (Z * bool) :=
  (fun tx => (tx, bool_decide (tx ∈ s))) <$> merge_sort Z.le (elements ((s ∖ o) ∪ (o ∖ s))).

(** The votes of the peers whose sets are known on a new dispute. *)
Definition peerVotes (st : Consensus) (txID : Z) (d : DisputedTx Z) : bool * DisputedTx Z :=
  foldl (fun '(changed, d) '(n, x) =>
    match acquired_ st !! position x with
    | Some s =>
        let '(c, d) := setVote n (bool_decide (txID ∈ s)) d in (changed || c, d)
    | None => (changed, d)
    end) (false, d) (positions st).

(** The body of the loop of [createDisputes]. *)
Definition createDispute (st : Consensus) (txID : Z) : Consensus :=
  match result_ st with
  | None => st
  | Some r =>
      match disputes r !! txID with
      | Some _ => st
      | None =>
          let '(changed, d) := peerVotes st txID (newDispute txID (bool_decide (txID ∈ txns r))) in
          let st := if changed : bool then set_peerUnchanged 0 st else st in
          let st := emit (ShareTx txID) st in
          set_result (Some (set_disputes (<[txID := d]> (disputes r)) r)) st
      end
  end.

Definition createDisputes (o : TxSet) (st : Consensus) : Consensus :=
  match result_ st with
  | None => st
  | Some r =>
      if decide (setID A o ∈ compares r) then st
      else
        let st := set_result (Some (set_compares ({[setID A o]} ∪ compares r) r)) st in
        if setID A (txns r) =? setID A o then st
        else foldl (fun st '(txID, _) => createDispute st txID) st (differences (txns r) o)
  end.

(** [setVote] on every dispute; the flag says whether a vote changed. *)
Definition voteAll (node : Z) (other : TxSet) (ds : gmap Z (DisputedTx Z))
    : bool * gmap Z (DisputedTx Z) :=
  let vote (d : DisputedTx Z) := setVote node (bool_decide (tx_ d ∈ other)) d in
  (existsb (fun kd => (vote kd.2).1) (map_to_list ds), (fun d => (vote d).2) <$> ds).

Definition updateDisputes (node : Z) (other : TxSet) (st : Consensus) : Consensus :=
  let st :=
    match result_ st with
    | Some r => if decide (setID A other ∈ compares r) then st else createDisputes other st
    | None => st
    end in
  match result_ st with
  | None => st
  | Some r =>
      let '(changed, ds) := voteAll node other (disputes r) in
      let st := set_result (Some (set_disputes ds r)) st in
      if changed then set_peerUnchanged 0 st else st
  end.

Definition unVoteAll (peer : Z) (r : Result) : Result :=
  set_disputes (unVote peer <$> disputes r) r.

(** ** Transaction sets and proposals from peers *)

Definition gotTxSet (now : Z) (txSet : TxSet) (st : Consensus) : Consensus :=
  if decide (phase_ st = accepted) then st
  else
    let st := set_now now st in
    let id := setID A txSet in
    match acquired_ st !! id with
    | Some _ => st
    | None =>
        let st := set_acquired (<[id := txSet]> (acquired_ st)) st in
        match result_ st with
        | None => st
        | Some _ =>
            foldl (fun st '(n, x) =>
              if position x =? id then updateDisputes n txSet st else st) st (positions st)
        end
    end.

Definition peerProposalInternal (now : Z) (x : Proposal) (st : Consensus) : bool * Consensus :=
  if decide (phase_ st = accepted) then (false, st)
  else
    let st := set_now now st in
    if negb (previousLedger x =? prevLedgerID_ st) then (false, st)
    else if decide (nodeID x ∈ deadNodes_ st) then (false, st)
    else if match currPeerPositions_ st !! nodeID x with
            | Some old => proposeSeq x <=? proposeSeq old
            | None => false
            end
    then (false, st)
    else if isBowOut x then
      let st := on_result (unVoteAll (nodeID x)) st in
      let st := set_currPeers (delete (nodeID x) (currPeerPositions_ st)) st in
      (true, set_deadNodes ({[nodeID x]} ∪ deadNodes_ st) st)
    else
      let st := set_currPeers (<[nodeID x := x]> (currPeerPositions_ st)) st in
      let st :=
        if isInitial x
        then set_rawPeers
               (<[closeTime x := default 0 (rawPeers st !! closeTime x) + 1]> (rawPeers st)) st
        else st in
      (true,
       match acquired_ st !! position x with
       | None =>
           match acquireTxSet A (position x) with
           | Some s => gotTxSet (now_ st) s st
           | None => st
           end
       | Some s =>
           match result_ st with
           | Some _ => updateDisputes (nodeID x) s st
           | None => st
           end
       end).

Definition peerProposal (now : Z) (x : Proposal) (st : Consensus) : bool * Consensus :=
  let props := default [] (recentPeerPositions_ st !! nodeID x) in
  let props := if (10 <=? length props)%nat then drop 1 props else props in
  let st := set_recentPeers (<[nodeID x := props ++ [x]]> (recentPeerPositions_ st)) st in
  peerProposalInternal now x st.

Definition playbackProposals (st : Consensus) : Consensus :=
  foldl (fun st '(_, props) =>
    foldl (fun st x =>
      if previousLedger x =? prevLedgerID_ st then
        let '(ok, st) := peerProposalInternal (now_ st) x st in
        if ok : bool then emit (SharePosition x) st else st
      else st) st props) st (map_to_list (recentPeerPositions_ st)).

(** ** Closing the ledger *)

Definition closeLedger (st : Consensus) : Consensus :=
  let st := set_phase establish st in
  let st := set_rawSelf (now_ st) st in
  let st := set_establishCounter 0 (set_peerUnchanged 0 st) in
  let '(s, x) := onClose A (previousLedger_ st) (now_ st) (mode_ st) in
  let st := set_result (Some (set_roundTime (timer_reset (clock_now A)) (newResult s x))) st in
  let st :=
    match acquired_ st !! setID A s with
    | Some _ => st
    | None => emit (ShareTxSet s) (set_acquired (<[setID A s := s]> (acquired_ st)) st)
    end in
  let st := if isProposing st then emit (Propose x) st else st in
  foldl (fun st '(_, y) =>
    match acquired_ st !! position y with
    | Some o => createDisputes o st
    | None => st
    end) st (positions st).

Definition phaseOpen (st : Consensus) : Consensus :=
  let p := parms_ A in
  let st := set_openTime (timer_tick (clock_now A) (openTime_ st)) st in
  let prev := previousLedger_ st in
  let previousCloseCorrect :=
    bool_decide (mode_ st <> wrongLedger) && closeAgree prev
    && negb (ledgerCloseTime prev =? parentCloseTime prev + 1) in
  let lastCloseTime := if previousCloseCorrect then ledgerCloseTime prev else prevCloseTime_ st in
  let sinceClose :=
    if lastCloseTime <=? now_ st then (now_ st - lastCloseTime) * 1000
    else - ((lastCloseTime - now_ st) * 1000) in
  let idleInterval := Z.max (ledgerIDLE_INTERVAL p) (2 * closeTimeResolution prev * 1000) in
  if shouldCloseLedger (hasOpenTransactions A) (prevProposers_ st) (peerCount st)
       (proposersValidated A (prevLedgerID_ st)) (prevRoundTime_ st) sinceClose
       (dur_ (openTime_ st)) idleInterval p
  then closeLedger st else st.

(** ** Waiting for laggards *)

Definition maxPausePhase : Z := 4.

Definition shouldPause (st : Consensus) : bool :=
  let p := parms_ A in
  let working := ledger_seq (previousLedger_ st) in
  let ahead := u32 (working - Z.min (getValidLedgerIndex A) working) in
  let '(quorum, trustedKeys) := getQuorumKeys A in
  let totalValidators := Z.of_nat (size trustedKeys) in
  let '(laggards, trustedKeys) := adaptor_laggards A working trustedKeys in
  let offline := Z.of_nat (size trustedKeys) in
  let elapsed := match result_ st with Some r => dur_ (roundTime r) | None => 0 end in
  if (ahead =? 0) || (laggards =? 0) || (totalValidators =? 0) || negb (validator A)
     || negb (haveValidated A) || (ledgerMAX_CONSENSUS p <? elapsed)
  then false
  else
    let phase := (ahead - 1) mod (maxPausePhase + 1) in
    if phase =? 0 then u64 (totalValidators - quorum) <? u64 (laggards + offline)
    else if phase =? maxPausePhase then true
    else
      let nonLaggards := f32_of (u64 (totalValidators - u64 (laggards + offline))) in
      let total := f32_of totalValidators in
      let quorumRatio := f32_div (f32_of quorum) total in
      let allowedDissent := f32_sub (f32_of 1) quorumRatio in
      let phaseFactor := f32_div (f32_of phase) (f32_of maxPausePhase) in
      f32_lt (f32_div nonLaggards total)
             (f32_add quorumRatio (f32_mul allowedDissent phaseFactor)).

(** ** Updating our position *)

Definition asCloseTime (st : Consensus) (raw : Z) : Z := roundCloseTime raw (closeResolution_ st).

(** [++votes[t]]. *)
Definition countVote (t : Z) (votes : gmap Z Z) : gmap Z Z :=
  <[t := default 0 (votes !! t) + 1]> votes.

(** Drop the stale positions; count the close times of the others. *)
Definition freshPositions (peerCutoff : Z) (st : Consensus) : Consensus * gmap Z Z :=
  foldl (fun '(st, votes) '(n, x) =>
    if isStale peerCutoff x then
      (set_currPeers (delete n (currPeerPositions_ st)) (on_result (unVoteAll (nodeID x)) st), votes)
    else (st, countVote (asCloseTime st (closeTime x)) votes)) (st, ∅) (positions st).

(** Reconsider every dispute; the new set is there if a vote changed. *)
Definition reconsider (st : Consensus) (r : Result) : Result * option TxSet :=
  foldl (fun '(r, newSet) '(txId, d) =>
    let '(changed, d') := updateVote (convergePercent_ st) (isProposing st) (parms_ A) d in
    let r := set_disputes (<[txId := d']> (disputes r)) r in
    if changed : bool then
      let s := default (txns r) newSet in
      (r, Some (if getOurVote d' then {[tx_ d']} ∪ s else s ∖ {[txId]}))
    else (r, newSet)) (r, None) (map_to_list (disputes r)).

(** The loop over the close time votes, in increasing order of time: the close
    time, the votes it needs to be beaten, and whether there is consensus. *)
Definition tallyCloseTimes (votes : list (Z * Z)) (threshVote threshConsensus : Z) : Z * Z * bool :=
  foldl (fun '(best, thresh, have) '(t, v) =>
    if thresh <=? v
    then (t, v, if threshConsensus <=? v then true else have)
    else (best, thresh, have)) (0, threshVote, false) votes.

(** The close time part of [updateOurPositions]. *)
Definition chooseCloseTime (votes : gmap Z Z) (ours : Z) (st : Consensus) : Z * Consensus :=
  let st := set_haveCloseTime false st in
  if peerCount st =? 0 then (asCloseTime st ours, set_haveCloseTime true st)
  else
    let '(neededWeight, newState) :=
      getNeededWeight (parms_ A) (closeTimeAvalancheState_ st) (convergePercent_ st) 0 0 in
    let st := match newState with Some s => set_avalanche s st | None => st end in
    let votes := if isProposing st then countVote (asCloseTime st ours) votes else votes in
    let participants := if isProposing st then peerCount st + 1 else peerCount st in
    let threshVote := participantsNeeded participants neededWeight in
    let threshConsensus := participantsNeeded participants (avCT_CONSENSUS_PCT (parms_ A)) in
    let '(best, _, have) := tallyCloseTimes (entries votes) threshVote threshConsensus in
    (best, set_haveCloseTime have st).

(** Adopt a new set as our position. *)
Definition adopt (newSet : TxSet) (consensusCloseTime : Z) (st : Consensus) : Consensus :=
  let newID := setID A newSet in
  let st := on_result (fun r =>
    set_pos (changePosition newID consensusCloseTime (now_ st) (pos r)) (set_txns newSet r)) st in
  let bowed := match result_ st with Some r => isBowOut (pos r) | None => false end in
  let st :=
    match acquired_ st !! newID with
    | Some _ => st
    | None =>
        let st := set_acquired (<[newID := newSet]> (acquired_ st)) st in
        let st := if negb bowed then emit (ShareTxSet newSet) st else st in
        foldl (fun st '(n, x) =>
          if position x =? newID then updateDisputes n newSet st else st) st (positions st)
    end in
  match result_ st with
  | Some r => if negb bowed && isProposing st then emit (Propose (pos r)) st else st
  | None => st
  end.

Definition updateOurPositions (st : Consensus) : Consensus :=
  let p := parms_ A in
  let peerCutoff := u32 (now_ st - proposeFRESHNESS p) in
  let ourCutoff := u32 (now_ st - proposeINTERVAL p) in
  let '(st, votes) := freshPositions peerCutoff st in
  match result_ st with
  | None => st
  | Some r =>
      let '(r, newSet) := reconsider st r in
      let st := set_result (Some r) st in
      let '(consensusCloseTime, st) := chooseCloseTime votes (closeTime (pos r)) st in
      let newSet :=
        match newSet with
        | Some s => Some s
        | None =>
            if negb (consensusCloseTime =? asCloseTime st (closeTime (pos r)))
               || isStale ourCutoff (pos r)
            then Some (txns r) else None
        end in
      match newSet with
      | Some s => adopt s consensusCloseTime st
      | None => st
      end
  end.

(** ** Concluding *)

Definition leaveConsensus (st : Consensus) : Consensus :=
  if isProposing st then
    let st :=
      match result_ st with
      | Some r =>
          if negb (isBowOut (pos r)) then
            let x := bowOut (now_ st) (pos r) in
            emit (Propose x) (set_result (Some (set_pos x r)) st)
          else st
      | None => st
      end in
    set_mode observing st
  else st.

(** [parms.avalancheCutoffs.size() * parms.avMIN_ROUNDS]. *)
Definition minimumCounter : Z := 4 * avMIN_ROUNDS (parms_ A).

Definition haveConsensus (st : Consensus) : bool * Consensus :=
  match result_ st with
  | None => (false, st)
  | Some r =>
      let agree := Z.of_nat (length (filter (fun '(_, x) => position x = position (pos r)) (positions st))) in
      let total := peerCount st in
      let currentFinished := proposersFinished A (previousLedger_ st) (prevLedgerID_ st) in
      let isStalled :=
        haveCloseTimeConsensus_ st && negb (bool_decide (disputes r = ∅))
        && forallb (fun kd => stalled (parms_ A) (isProposing st) (peerUnchangedCounter_ st) kd.2)
             (map_to_list (disputes r)) in
      let s := checkConsensus (prevProposers_ st) total agree currentFinished (prevRoundTime_ st)
                 (dur_ (roundTime r)) isStalled (parms_ A) (isProposing st) in
      let st := set_result (Some (set_state s r)) st in
      match s with
      | No => (false, st)
      | Expired =>
          if establishCounter_ st <? minimumCounter then (false, st)
          else (true, leaveConsensus st)
      | MovedOn | Yes => (true, st)
      end
  end.

Definition phaseEstablish (st : Consensus) : Consensus :=
  let p := parms_ A in
  let st := set_peerUnchanged (u64 (peerUnchangedCounter_ st + 1)) st in
  let st := set_establishCounter (u64 (establishCounter_ st + 1)) st in
  let st := on_result (fun r => set_proposers (peerCount st)
                                  (set_roundTime (timer_tick (clock_now A) (roundTime r)) r)) st in
  let elapsed st := match result_ st with Some r => dur_ (roundTime r) | None => 0 end in
  let st := set_convergePercent
    (Z.quot (elapsed st * 100) (Z.max (prevRoundTime_ st) (avMIN_CONSENSUS_TIME p))) st in
  if elapsed st <? ledgerMIN_CONSENSUS p then st
  else
    let st := updateOurPositions st in
    if shouldPause st then st
    else
      let '(ok, st) := haveConsensus st in
      if negb ok then st
      else if negb (haveCloseTimeConsensus_ st) then st
      else
        let st := emit (UpdateOperatingMode (peerCount st)) st in
        let st := set_prevProposers (peerCount st) st in
        let st := set_prevRoundTime (elapsed st) st in
        let st := set_phase accepted st in
        match result_ st with
        | Some r => emit (OnAccept r (previousLedger_ st) (mode_ st)) st
        | None => st
        end.

(** ** Rounds and the timer *)

(** The assignments of [startRoundInternal], before the proposals are played back. *)
Definition resetRound (now prevLedgerID : Z) (prevLedger : Ledger) (mode : ConsensusMode)
    (st : Consensus) : Consensus :=
  let st := set_mode mode (set_phase open st) in
  let st := set_previousLedger prevLedger (set_prevLedgerID prevLedgerID (set_now now st)) in
  let st := set_result None st in
  let st := set_haveCloseTime false (set_avalanche init (set_convergePercent 0 st)) in
  let st := set_openTime (timer_reset (clock_now A)) st in
  let st := set_acquired ∅ (set_currPeers ∅ st) in
  let st := set_deadNodes ∅ (set_rawSelf 0 (set_rawPeers ∅ st)) in
  set_closeResolution (getNextLedgerTimeResolution (closeTimeResolution prevLedger)
    (closeAgree prevLedger) (u32 (ledger_seq prevLedger + 1))) st.

Section Switching.
(** The recursive call of [timerEntry]. *)
Variable timer : Z -> Consensus -> option Consensus.

Definition startRoundInternal (now prevLedgerID : Z) (prevLedger : Ledger)
    (mode : ConsensusMode) (st : Consensus) : option Consensus :=
  let st := playbackProposals (resetRound now prevLedgerID prevLedger mode st) in
  if prevProposers_ st / 2 <? peerCount st then timer (now_ st) st else Some st.

(** The part of [handleWrongLedger] for a ledger that was not known yet. *)
Definition switchLedger (lgrId : Z) (st : Consensus) : Consensus :=
  let st := set_prevLedgerID lgrId st in
  let st := on_result (fun r => set_compares ∅ (set_disputes ∅ r)) st in
  let st := set_deadNodes ∅ (set_rawPeers ∅ (set_currPeers ∅ st)) in
  playbackProposals st.

Definition handleWrongLedger (lgrId : Z) (st : Consensus) : option Consensus :=
  let st := leaveConsensus st in
  let st := if prevLedgerID_ st =? lgrId then st else switchLedger lgrId st in
  if ledger_id (previousLedger_ st) =? prevLedgerID_ st then Some st
  else
    match acquireLedger A (prevLedgerID_ st) with
    | Some newLedger => startRoundInternal (now_ st) lgrId newLedger switchedLedger st
    | None => Some (set_mode wrongLedger st)
    end.

Definition checkLedger (st : Consensus) : option Consensus :=
  let netLgr := getPrevLedger A (prevLedgerID_ st) (previousLedger_ st) (mode_ st) in
  if negb (netLgr =? prevLedgerID_ st) then handleWrongLedger netLgr st
  else if negb (ledger_id (previousLedger_ st) =? prevLedgerID_ st)
  then handleWrongLedger netLgr st
  else Some st.

End Switching.

(** [None] means that the fuel was not enough. *)
Fixpoint timerEntry (fuel : nat) (now : Z) (st : Consensus) : option Consensus :=
  match fuel with
  | O => None
  | S fuel =>
      if decide (phase_ st = accepted) then Some st
      else
        st ← checkLedger (timerEntry fuel) (set_now now st);
        Some (match phase_ st with
              | open => phaseOpen st
              | establish => phaseEstablish st
              | accepted => st
              end)
  end.

Definition startRound (fuel : nat) (now prevLedgerID : Z) (prevLedger : Ledger)
    (nowUntrusted : gset Z) (isProposer : bool) (st : Consensus) : option Consensus :=
  let st :=
    if firstRound_ st
    then set_firstRound false (set_prevCloseTime (ledgerCloseTime prevLedger)
           (set_prevRoundTime (ledgerIDLE_INTERVAL (parms_ A)) st))
    else set_prevCloseTime (rawSelf st) st in
  let st := set_recentPeers (filter (fun kv => kv.1 ∉ nowUntrusted) (recentPeerPositions_ st)) st in
  let startMode := if isProposer then proposing else observing in
  let '(startMode, prevLedger) :=
    if negb (ledger_id prevLedger =? prevLedgerID) then
      match acquireLedger A prevLedgerID with
      | Some newLedger => (startMode, newLedger)
      | None => (wrongLedger, prevLedger)
      end
    else (startMode, prevLedger) in
  startRoundInternal (timerEntry fuel) now prevLedgerID prevLedger startMode st.

Definition simulate (now : Z) (consensusDelay : option Z) (st : Consensus) : Consensus :=
  let st := closeLedger (set_now now st) in
  let st := on_result (fun r => set_proposers (peerCount st)
                  (set_roundTime (timer_add (default 100 consensusDelay) (roundTime r)) r)) st in
  let st := set_prevProposers (peerCount st) st in
  match result_ st with
  | Some r =>
      let st := set_phase accepted (set_prevRoundTime (dur_ (roundTime r)) st) in
      emit (OnForceAccept r (previousLedger_ st) (mode_ st)) st
  | None => st
  end.

End Methods.
