(* ===== verification/ConsensusFacts.v ===== *)
(** * Invariants of the consensus round

    The bookkeeping of a round is consistent at every point between two calls:
    the assertions of the source hold, peers' positions belong to the round, and
    every dispute records our own vote and the vote of each peer in the round
    whose current transaction set is known; a peer that moves on to a set that
    is not known yet keeps its earlier vote, and peers that left have none. *)

From S2P Require Import Prelude ConsensusParms LedgerTiming DisputedTx ConsensusRules.
From S2P Require Import ConsensusProposal Consensus.

Section Invariant.
(** The hash of transaction sets. *)
Variable H : TxSet -> Z.
Implicit Types (st : Consensus) (r : Result) (P : Z -> Prop) (d : DisputedTx Z).

(** What a dispute on [tx] must record, given the peers' positions, the known
    sets and our own set; the votes of the peers in [P] are still to be updated. *)
Record dispute_ok P (cur : gmap Z Proposal) (acq : gmap Z TxSet) (ours : TxSet)
    (tx : Z) (d : DisputedTx Z) : Prop := {
  do_tx : tx_ d = tx;
  do_ours : ourVote_ d = bool_decide (tx ∈ ours);
  do_tallied : tallied d;
  do_peers : dom (votes_ d) ⊆ dom cur;
  do_votes : forall n x s, ~ P n -> cur !! n = Some x -> acq !! position x = Some s ->
    votes_ d !! n = Some (bool_decide (tx ∈ s));
}.

Definition disputes_ok P cur acq ours (ds : gmap Z (DisputedTx Z)) : Prop :=
  map_Forall (dispute_ok P cur acq ours) ds.

(** Positions belong to this round and to peers that are still in it. *)
Definition position_ok st (n : Z) (x : Proposal) : Prop :=
  nodeID x = n /\ previousLedger x = prevLedgerID_ st /\ isBowOut x = false /\ n ∉ deadNodes_ st.

Record result_ok P st (r : Result) : Prop := {
  ro_pos : position (pos r) = H (txns r);
  ro_own : is_Some (acquired_ st !! H (txns r));
  ro_disputes : disputes_ok P (currPeerPositions_ st) (acquired_ st) (txns r) (disputes r);
}.

Record round_ok P st : Prop := {
  rk_phase : match phase_ st with
             | open => result_ st = None
             | establish => is_Some (result_ st)
             | accepted => firstRound_ st = false -> is_Some (result_ st)
             end;
  rk_peers : map_Forall (position_ok st) (currPeerPositions_ st);
  rk_acquired : map_Forall (fun i s => H s = i) (acquired_ st);
  rk_result : forall r, result_ st = Some r -> result_ok P st r;
}.

Definition none : Z -> Prop := fun _ => False.

Lemma not_none n : ~ none n.
Proof. by intros []. Qed.
#[local] Hint Resolve not_none : core.

Lemma dispute_ok_weaken P P' cur acq ours tx d :
  (forall n, P n -> P' n) -> dispute_ok P cur acq ours tx d -> dispute_ok P' cur acq ours tx d.
Proof. intros HP []. split; try done. eauto. Qed.

Lemma disputes_ok_weaken P P' cur acq ours ds :
  (forall n, P n -> P' n) -> disputes_ok P cur acq ours ds -> disputes_ok P' cur acq ours ds.
Proof. intros HP Hd tx d E. eapply dispute_ok_weaken, Hd; done. Qed.

Lemma round_ok_weaken P P' st : (forall n, P n -> P' n) -> round_ok P st -> round_ok P' st.
Proof.
  intros HP [H1 H2 H3 H4]. split; try done. intros r Hr. destruct (H4 r Hr).
  split; try done. by eapply disputes_ok_weaken.
Qed.

(** The members that the dispute bookkeeping leaves alone. *)
Definition core st :=
  (phase_ st, mode_ st, haveCloseTimeConsensus_ st, convergePercent_ st,
   (openTime_ st, closeResolution_ st, closeTimeAvalancheState_ st, prevRoundTime_ st),
   (now_ st, prevCloseTime_ st, prevLedgerID_ st, previousLedger_ st),
   (acquired_ st, currPeerPositions_ st, recentPeerPositions_ st, deadNodes_ st),
   (rawPeers st, rawSelf st, prevProposers_ st, firstRound_ st, establishCounter_ st)).

(** The invariant depends on the core and the result only. *)
Lemma round_ok_core P P' st st' r' :
  core st' = core st -> result_ st' = Some r' -> phase_ st <> open ->
  round_ok P st -> result_ok P' st r' -> round_ok P' st'.
Proof.
  intros Hc Hr Hph [H1 H2 H3 H4] Hok.
  injection Hc as E1 E2 E3 E4 E5 E6 E7 E8 E9 E10 E11 E12 E13 E14 E15 E16 E17 E18 E19 E20 E21.
  split.
  - rewrite E1, Hr. destruct (phase_ st); by eauto.
  - rewrite E14. intros n x Hx. specialize (H2 n x Hx). unfold position_ok in *. by rewrite E11, E16.
  - by rewrite E13.
  - rewrite Hr. intros r [= <-]. destruct Hok. split; rewrite ?E13, ?E14; done.
Qed.

(** ** Creating disputes *)

Section PeerVotes.
Variables (st : Consensus) (tx : Z).
Let vote1 := fun (acc : bool * DisputedTx Z) (nx : Z * Proposal) =>
  match acquired_ st !! position nx.2 with
  | Some s =>
      let '(c, d) := setVote nx.1 (bool_decide (tx ∈ s)) acc.2 in (acc.1 || c, d)
  | None => acc
  end.

Lemma peerVotes_fold d :
  peerVotes st tx d = foldl vote1 (false, d) (positions st).
Proof.
  unfold peerVotes. generalize (false, d). induction (positions st) as [|[n x] l IH]; intros [c d']; [done|].
  simpl. rewrite IH. f_equal.
Qed.

Lemma votes_fold l acc :
  NoDup l.*1 ->
  let d' := (foldl vote1 acc l).2 in
  tx_ d' = tx_ acc.2 /\ ourVote_ d' = ourVote_ acc.2 /\ (tallied acc.2 -> tallied d')
  /\ dom (votes_ d') ⊆ dom (votes_ acc.2) ∪ list_to_set l.*1
  /\ (forall n, n ∉ l.*1 -> votes_ d' !! n = votes_ acc.2 !! n)
  /\ (forall n x s, (n, x) ∈ l -> acquired_ st !! position x = Some s ->
        votes_ d' !! n = Some (bool_decide (tx ∈ s))).
Proof.
  revert acc; induction l as [|[n x] l IH]; intros acc Hnd.
  - simpl. split_and!; [done..|set_solver|done|]. intros n x s Hin. by apply elem_of_nil in Hin.
  - rewrite fmap_cons in Hnd. apply NoDup_cons in Hnd as [Hn Hnd]. simpl in Hn.
    cbn [foldl]. destruct (IH (vote1 acc (n, x)) Hnd) as (H1 & H2 & H3 & H4 & H5 & H6).
    assert (let a := vote1 acc (n, x) in
      tx_ a.2 = tx_ acc.2 /\ ourVote_ a.2 = ourVote_ acc.2 /\ (tallied acc.2 -> tallied a.2)
      /\ dom (votes_ a.2) ⊆ dom (votes_ acc.2) ∪ {[n]}
      /\ (forall m, m <> n -> votes_ a.2 !! m = votes_ acc.2 !! m)
      /\ (forall s, acquired_ st !! position x = Some s -> votes_ a.2 !! n = Some (bool_decide (tx ∈ s))))
      as (G1 & G2 & G3 & G4 & G5 & G6).
    { unfold vote1. simpl. destruct (acquired_ st !! position x) as [s|]; [|split_and!; try done; clear; set_solver].
      pose proof (setVote_tallied n (bool_decide (tx ∈ s)) acc.2) as Ht.
      destruct (setVote_spec n (bool_decide (tx ∈ s)) acc.2) as [Hv _].
      assert (tx_ (setVote n (bool_decide (tx ∈ s)) acc.2).2 = tx_ acc.2
        /\ ourVote_ (setVote n (bool_decide (tx ∈ s)) acc.2).2 = ourVote_ acc.2) as [Hx Ho]
        by (unfold setVote; repeat case_match; done).
      destruct (setVote n (bool_decide (tx ∈ s)) acc.2) as [c d]. simpl in *. rewrite Hv.
      split_and!; try done.
      - clear. set_solver.
      - intros m Hm. by apply lookup_insert_ne.
      - intros s' [= <-]. apply lookup_insert_eq. }
    simpl in *. split_and!; [congruence..|tauto|clear -H4 G4; set_solver| |].
    + intros m [Hm Hm']%not_elem_of_cons. rewrite H5 by done. by apply G5.
    + intros m y s [[= -> ->]|Hin]%elem_of_cons Hs; [|by eapply H6].
      rewrite H5 by done. by apply G6.
Qed.

(** A new dispute starts with the votes of all the peers whose sets are known. *)
Lemma peerVotes_ok P ours :
  dispute_ok P (currPeerPositions_ st) (acquired_ st) ours tx
    (peerVotes st tx (newDispute tx (bool_decide (tx ∈ ours)))).2.
Proof.
  rewrite peerVotes_fold.
  destruct (votes_fold (positions st) (false, newDispute tx (bool_decide (tx ∈ ours))))
    as (H1 & H2 & H3 & H4 & _ & H6); [apply NoDup_fst_map_to_list|].
  split; try done.
  - apply H3, newDispute_tallied.
  - simpl in H4. etrans; [exact H4|]. intros n. rewrite elem_of_union, elem_of_list_to_set.
    intros [Hn|Hn]; [set_solver|]. apply list_elem_of_fmap in Hn as ([m x] & -> & Hx).
    apply elem_of_map_to_list in Hx. simpl. by apply elem_of_dom_2 in Hx.
  - intros n x s _ Hx Hs. apply (H6 n x s); [by apply elem_of_map_to_list|done].
Qed.

End PeerVotes.

Lemma round_ok_not_open P st r : round_ok P st -> result_ st = Some r -> phase_ st <> open.
Proof. intros [Hp _ _ _] Hr E. rewrite E, Hr in Hp. done. Qed.

(** Steps that keep the core, our set and our position. *)
Record quiet st st' : Prop := {
  qu_core : core st' = core st;
  qu_none : result_ st = None -> result_ st' = None;
  qu_some : forall r, result_ st = Some r ->
    exists r', result_ st' = Some r' /\ txns r' = txns r /\ pos r' = pos r;
}.

#[local] Instance quiet_preorder : PreOrder quiet.
Proof.
  split; [split; eauto|]. intros a b c [C1 N1 S1] [C2 N2 S2]. split; [congruence|auto|].
  intros r Hr. destruct (S1 r Hr) as (r1 & H1 & E1 & E1').
  destruct (S2 r1 H1) as (r2 & H2 & E2 & E2'). exists r2. split_and!; congruence.
Qed.

Lemma quiet_core_fields st st' :
  quiet st st' -> currPeerPositions_ st' = currPeerPositions_ st /\ acquired_ st' = acquired_ st
    /\ phase_ st' = phase_ st /\ mode_ st' = mode_ st /\ now_ st' = now_ st
    /\ prevLedgerID_ st' = prevLedgerID_ st /\ previousLedger_ st' = previousLedger_ st
    /\ recentPeerPositions_ st' = recentPeerPositions_ st /\ deadNodes_ st' = deadNodes_ st.
Proof.
  intros [Hc _ _].
  by injection Hc as E1 E2 E3 E4 E5 E6 E7 E8 E9 E10 E11 E12 E13 E14 E15 E16 E17 E18 E19 E20 E21.
Qed.

(** Changing the disputes of the result. *)
Lemma quiet_disputes st st' r r' :
  core st' = core st -> result_ st = Some r -> result_ st' = Some r' ->
  txns r' = txns r -> pos r' = pos r -> quiet st st'.
Proof. intros Hc Hr Hr' E1 E2. split; [done|congruence|]. intros r0 E. exists r'. split_and!; congruence. Qed.

Lemma result_ok_disputes P P' st r r' :
  txns r' = txns r -> pos r' = pos r -> result_ok P st r ->
  disputes_ok P' (currPeerPositions_ st) (acquired_ st) (txns r) (disputes r') -> result_ok P' st r'.
Proof. intros E1 E2 [H1 H2 _] Hd. split; rewrite ?E1, ?E2; done. Qed.

Lemma createDispute_ok P st tx :
  round_ok P st -> quiet st (createDispute st tx) /\ round_ok P (createDispute st tx).
Proof.
  intros Hok. unfold createDispute. destruct (result_ st) as [r|] eqn:Hr; [|by split].
  destruct (disputes r !! tx) as [d0|] eqn:Hd; [by split|].
  pose proof (peerVotes_ok st tx P (txns r)) as Hnew.
  destruct (peerVotes _ _ _) as [changed d]. simpl in Hnew.
  set (st' := set_result _ _). set (r' := set_disputes (<[tx := d]> (disputes r)) r) in *.
  assert (core st' = core st /\ result_ st' = Some r') as [Hc Hr'] by by destruct changed.
  split; [by apply (quiet_disputes st st' r r')|].
  apply (round_ok_core P P st st' r'); try done; [by eapply round_ok_not_open|].
  apply (result_ok_disputes P P st r r'); [done..|by apply (rk_result _ _ Hok)|].
  intros k dk. simpl. intros [[<- <-]|[_ Hk]]%lookup_insert_Some; [done|].
  by apply (ro_disputes _ _ _ (rk_result _ _ Hok r Hr)).
Qed.

Lemma fold_ok {B} P (f : Consensus -> B -> Consensus) l st :
  (forall st b, b ∈ l -> round_ok P st -> quiet st (f st b) /\ round_ok P (f st b)) ->
  round_ok P st -> quiet st (foldl f st l) /\ round_ok P (foldl f st l).
Proof.
  intros Hf Hok. apply (foldl_inv (fun s => quiet st s /\ round_ok P s)); [by split|].
  intros s b Hb [Hq Hs]. destruct (Hf s b Hb Hs). split; [by etrans|done].
Qed.

Variable A : Adaptor.
Hypothesis hash_fixed : setID A = H.

Lemma createDisputes_ok P o st :
  round_ok P st -> quiet st (createDisputes A o st) /\ round_ok P (createDisputes A o st).
Proof.
  intros Hok. unfold createDisputes. destruct (result_ st) as [r|] eqn:Hr; [|by split].
  case_decide; [by split|]. set (r1 := set_compares _ r). set (st1 := set_result (Some r1) st).
  assert (quiet st st1) as Hq by by apply (quiet_disputes st st1 r r1).
  assert (round_ok P st1) as H1.
  { apply (round_ok_core P P st st1 r1); try done; [by eapply round_ok_not_open|].
    pose proof (rk_result _ _ Hok r Hr) as Hro. apply (result_ok_disputes P P st r r1); try done.
    apply Hro. }
  destruct (setID A (txns r) =? setID A o); [by split|].
  destruct (fold_ok P (fun st '(tx, _) => createDispute st tx) (differences (txns r) o) st1) as [H2 H3];
    [|done|split; [by etrans|done]].
  intros s [tx b] _ Hs. by apply createDispute_ok.
Qed.

(** Recording the votes of one peer in all the disputes. *)
Lemma voteAll_ok P cur acq ours ds n other :
  disputes_ok P cur acq ours ds -> n ∈ dom cur ->
  (forall x s, cur !! n = Some x -> acq !! position x = Some s -> s = other) ->
  disputes_ok (fun m => P m /\ m <> n) cur acq ours (voteAll n other ds).2.
Proof.
  intros Hds Hn Hs tx d'. simpl. intros (d & <- & Hd)%lookup_fmap_Some.
  destruct (Hds tx d Hd) as [D1 D2 D3 D4 D5].
  destruct (setVote_spec n (bool_decide (tx_ d ∈ other)) d) as [Hv _].
  split.
  - unfold setVote. repeat case_match; done.
  - rewrite <- D2. unfold setVote. repeat case_match; done.
  - by apply setVote_tallied.
  - rewrite Hv, dom_insert_L. clear -D4 Hn. set_solver.
  - intros m x s HP Hx Hacq. rewrite Hv. destruct (decide (m = n)) as [->|Hne].
    + rewrite lookup_insert_eq, D1. by rewrite (Hs x s Hx Hacq).
    + rewrite lookup_insert_ne by done. eapply D5; [|done..]. naive_solver.
Qed.

Lemma updateDisputes_ok P n other st :
  round_ok P st -> n ∈ dom (currPeerPositions_ st) ->
  (forall x s, currPeerPositions_ st !! n = Some x -> acquired_ st !! position x = Some s -> s = other) ->
  quiet st (updateDisputes A n other st)
  /\ (is_Some (result_ st) -> round_ok (fun m => P m /\ m <> n) (updateDisputes A n other st)).
Proof.
  intros Hok Hn Hs. unfold updateDisputes.
  set (st1 := match result_ st with Some _ => _ | None => _ end).
  assert (quiet st st1 /\ round_ok P st1) as [Hq1 H1].
  { subst st1. destruct (result_ st); [|done]. case_decide; [done|]. by apply createDisputes_ok. }
  destruct (quiet_core_fields _ _ Hq1) as (Ec & Ea & _).
  destruct (result_ st1) as [r1|] eqn:Hr1.
  - pose proof (rk_result _ _ H1 r1 Hr1) as Hro.
    pose proof (voteAll_ok P _ _ _ _ n other (ro_disputes _ _ _ Hro)) as Hv.
    destruct (voteAll n other (disputes r1)) as [changed ds]. simpl in Hv.
    set (st2 := if changed then _ else _).
    assert (core st2 = core st1 /\ result_ st2 = Some (set_disputes ds r1)) as [Hc2 Hr2]
      by by destruct changed.
    split; [etrans; [exact Hq1|by apply (quiet_disputes st1 st2 r1 (set_disputes ds r1))]|].
    intros _. rewrite Ec, Ea in Hv. specialize (Hv Hn Hs).
    apply (round_ok_core P _ st1 st2 (set_disputes ds r1)); try done; [by eapply round_ok_not_open|].
    apply (result_ok_disputes P _ st1 r1); [done..|]. by rewrite Ec, Ea.
  - split; [done|]. intros [r Hr]. destruct (qu_some _ _ Hq1 r Hr) as (? & ? & _). congruence.
Qed.

(** ** Peers' sets and positions *)

Lemma round_ok_same P st st' :
  phase_ st' = phase_ st -> prevLedgerID_ st' = prevLedgerID_ st -> deadNodes_ st' = deadNodes_ st ->
  currPeerPositions_ st' = currPeerPositions_ st -> acquired_ st' = acquired_ st ->
  result_ st' = result_ st -> firstRound_ st' = firstRound_ st -> round_ok P st -> round_ok P st'.
Proof.
  intros E1 E2 E3 E4 E5 E6 E7 [H1 H2 H3 H4]. split.
  - by rewrite E1, E6, E7.
  - rewrite E4. intros n x Hx. specialize (H2 n x Hx). unfold position_ok in *. by rewrite E2, E3.
  - by rewrite E5.
  - rewrite E6. intros r Hr. destruct (H4 r Hr). split; rewrite ?E4, ?E5; done.
Qed.

(** The loop over the peers at a position whose set has just become known. *)
Lemma updateLoop_ok id o l st :
  round_ok (fun n => exists x, (n, x) ∈ l /\ position x = id) st ->
  (forall n x, (n, x) ∈ l -> currPeerPositions_ st !! n = Some x) ->
  acquired_ st !! id = Some o -> is_Some (result_ st) ->
  let st' := foldl (fun st '(n, x) =>
    if position x =? id then updateDisputes A n o st else st) st l in
  quiet st st' /\ round_ok none st'.
Proof.
  revert st; induction l as [|[n x] l IH]; intros st Hok Hl Ha Hr.
  - split; [done|]. eapply round_ok_weaken, Hok. intros n (x & Hin & _). by apply elem_of_nil in Hin.
  - simpl. destruct (Z.eqb_spec (position x) id) as [E|E].
    + assert (currPeerPositions_ st !! n = Some x) as Hx by (apply Hl; left).
      destruct (updateDisputes_ok _ n o st Hok) as [Hq Hok'].
      { by apply elem_of_dom_2 in Hx. }
      { intros y s Hy Hs. rewrite Hx in Hy. simplify_eq. congruence. }
      destruct (quiet_core_fields _ _ Hq) as (Ec & Ea & _).
      destruct (IH (updateDisputes A n o st)) as [Hq' Hfin].
      * eapply round_ok_weaken, Hok', Hr. intros m ((y & [[= <- <-]|Hin]%elem_of_cons & Hy) & Hm); eauto. done.
      * intros m y Hin. rewrite Ec. apply Hl. by right.
      * by rewrite Ea.
      * destruct Hr as [r Hr]. destruct (qu_some _ _ Hq r Hr) as (r' & -> & _). eauto.
      * split; [by etrans|done].
    + apply IH; try done.
      * eapply round_ok_weaken, Hok. intros m (y & [[= <- <-]|Hin]%elem_of_cons & Hy); [done|eauto].
      * intros m y Hin. apply Hl. by right.
Qed.

(** The members that peers' messages do not change. *)
Definition control st :=
  (phase_ st, mode_ st, prevLedgerID_ st, previousLedger_ st, recentPeerPositions_ st,
   prevProposers_ st, prevRoundTime_ st).

Record calm st st' : Prop := {
  ca_control : control st' = control st;
  ca_none : result_ st = None -> result_ st' = None;
  ca_some : forall r, result_ st = Some r ->
    exists r', result_ st' = Some r' /\ txns r' = txns r /\ pos r' = pos r;
}.

#[local] Instance calm_preorder : PreOrder calm.
Proof.
  split; [split; eauto|]. intros a b c [C1 N1 S1] [C2 N2 S2]. split; [congruence|auto|].
  intros r Hr. destruct (S1 r Hr) as (r1 & H1 & E1 & E1').
  destruct (S2 r1 H1) as (r2 & H2 & E2 & E2'). exists r2. split_and!; congruence.
Qed.

Lemma calm_same st st' : control st' = control st -> result_ st' = result_ st -> calm st st'.
Proof. intros Hc Hr. split; [done|congruence|]. intros r E. exists r. by rewrite Hr. Qed.

Lemma quiet_calm st st' : quiet st st' -> calm st st'.
Proof.
  intros [Hc Hn Hs]. split; [|done..]. unfold control.
  by injection Hc as -> -> _ _ _ _ _ -> _ _ -> -> _ _ -> _ _ _ -> _ _.
Qed.

(** A set becomes known: the votes of the peers at its position are pending. *)
Lemma disputes_ok_acquire cur acq ours ds i s :
  disputes_ok none cur acq ours ds ->
  disputes_ok (fun n => exists x, (n, x) ∈ map_to_list cur /\ position x = i)
    cur (<[i := s]> acq) ours ds.
Proof.
  intros Hds tx d Hd. destruct (Hds tx d Hd) as [D1 D2 D3 D4 D5]. split; try done.
  intros n x t HP Hx. rewrite lookup_insert_ne; [by eauto|].
  intros E. apply HP. exists x. split; [by apply elem_of_map_to_list|done].
Qed.

Lemma gotTxSet_ok now s st :
  round_ok none st -> calm st (gotTxSet A now s st) /\ round_ok none (gotTxSet A now s st).
Proof.
  intros Hok. unfold gotTxSet. case_decide; [done|]. simpl. rewrite hash_fixed.
  destruct (acquired_ st !! H s) as [s0|] eqn:Ha; [split; [by apply calm_same|by apply (round_ok_same _ st)]|].
  set (st1 := set_acquired (<[H s := s]> (acquired_ st)) (set_now now st)).
  assert (calm st st1) as Hc by by apply calm_same.
  assert (round_ok (fun n => exists x, (n, x) ∈ positions st1 /\ position x = H s) st1) as H1.
  { destruct Hok as [P1 P2 P3 P4]. split; simpl; try done.
    - intros i t [[<- <-]|[_ Hi]]%lookup_insert_Some; [done|by apply P3].
    - intros r Hr. destruct (P4 r Hr) as [R1 R2 R3]. split; simpl; [done| |].
      + destruct (decide (H s = H (txns r))) as [->|Hne]; [rewrite lookup_insert_eq; eauto|].
        by rewrite lookup_insert_ne.
      + by apply disputes_ok_acquire. }
  destruct (result_ st) as [r|] eqn:Hr.
  - destruct (updateLoop_ok (H s) s (positions st1) st1 H1) as [Hq Hfin].
    + intros n x Hin. by apply elem_of_map_to_list in Hin.
    + apply lookup_insert_eq.
    + simpl. rewrite Hr. eauto.
    + split; [etrans; [exact Hc|by apply quiet_calm]|done].
  - split; [done|]. destruct H1 as [P1 P2 P3 _]. split; try done. simpl. congruence.
Qed.

Lemma unVoteAll_ok P cur acq ours n ds :
  disputes_ok P cur acq ours ds -> disputes_ok P (delete n cur) acq ours (unVote n <$> ds).
Proof.
  intros Hds tx d' (d & <- & Hd)%lookup_fmap_Some. destruct (Hds tx d Hd) as [D1 D2 D3 D4 D5]. split.
  - unfold unVote. repeat case_match; done.
  - rewrite <- D2. unfold unVote. repeat case_match; done.
  - by apply unVote_tallied.
  - rewrite unVote_votes, !dom_delete_L. clear -D4. set_solver.
  - intros m x s HP [Hne Hx]%lookup_delete_Some Hs. rewrite unVote_votes, lookup_delete_ne by done.
    by eapply D5.
Qed.

(** A peer leaves: its votes and its position go. *)
Lemma forget_ok P n st :
  round_ok P st ->
  calm st (set_currPeers (delete n (currPeerPositions_ st)) (on_result (unVoteAll n) st))
  /\ round_ok P (set_currPeers (delete n (currPeerPositions_ st)) (on_result (unVoteAll n) st)).
Proof.
  intros [P1 P2 P3 P4]. split; split; simpl; try done.
  - by intros ->.
  - intros r ->. simpl. eauto.
  - destruct (phase_ st); [by rewrite P1|by rewrite fmap_is_Some|rewrite fmap_is_Some; auto].
  - by apply map_Forall_delete.
  - intros r' (r & Hr & ->)%fmap_Some. destruct (P4 r Hr) as [R1 R2 R3].
    split; simpl; [done..|]. by apply unVoteAll_ok.
Qed.

Lemma round_ok_dead P n st :
  round_ok P st -> currPeerPositions_ st !! n = None ->
  round_ok P (set_deadNodes ({[n]} ∪ deadNodes_ st) st).
Proof.
  intros [P1 P2 P3 P4] Hn. split; simpl; try done.
  - intros m x Hx. destruct (P2 m x Hx) as (? & ? & ? & Hm). split_and!; try done. simpl.
    rewrite elem_of_union, elem_of_singleton. intros [->|?]; [congruence|done].
  - intros r Hr. by destruct (P4 r Hr).
Qed.

(** A new position of a peer; its votes are pending. *)
Lemma newPosition_ok x st :
  round_ok none st -> previousLedger x = prevLedgerID_ st -> isBowOut x = false ->
  nodeID x ∉ deadNodes_ st ->
  round_ok (fun m => m = nodeID x /\ is_Some (acquired_ st !! position x))
    (set_currPeers (<[nodeID x := x]> (currPeerPositions_ st)) st).
Proof.
  intros [P1 P2 P3 P4] Hp Hb Hd. split; simpl; try done.
  - by apply map_Forall_insert_2.
  - intros r Hr. destruct (P4 r Hr) as [R1 R2 R3]. split; simpl; try done.
    intros tx d Hd'. destruct (R3 tx d Hd') as [D1 D2 D3 D4 D5]. split; try done.
    + rewrite dom_insert_L. clear -D4. set_solver.
    + intros m y s HP [[<- <-]|[_ Hy]]%lookup_insert_Some Hs; [|by eauto].
      destruct HP. eauto.
Qed.

Lemma peerProposalInternal_ok now x st :
  round_ok none st ->
  calm st (peerProposalInternal A now x st).2 /\ round_ok none (peerProposalInternal A now x st).2.
Proof.
  intros Hok. unfold peerProposalInternal. case_decide; [done|].
  assert (calm st (set_now now st)) as Hc0 by by apply calm_same.
  assert (round_ok none (set_now now st)) as K0 by by apply (round_ok_same _ st).
  destruct (Z.eqb_spec (previousLedger x) (prevLedgerID_ (set_now now st))) as [Hp|]; simpl; [|done].
  case_decide as Hd; [done|]. case_match; [done|].
  destruct (isBowOut x) eqn:Hb; simpl.
  - destruct (forget_ok none (nodeID x) (set_now now st) K0) as [Hc1 K1]. split.
    + etrans; [exact Hc0|]. etrans; [exact Hc1|]. by apply calm_same.
    + apply (round_ok_dead none (nodeID x)) in K1; [done|]. simpl. apply lookup_delete_eq.
  - pose proof (newPosition_ok x (set_now now st) K0 Hp Hb Hd) as K1. simpl in K1.
    set (st1 := set_currPeers _ _) in *. set (st2 := if isInitial x then _ else st1).
    assert (calm st st2) as Hc2 by (etrans; [exact Hc0|]; subst st2; destruct (isInitial x); by apply calm_same).
    assert (round_ok (fun m => m = nodeID x /\ is_Some (acquired_ st !! position x)) st2) as K2
      by (subst st2; destruct (isInitial x); [by apply (round_ok_same _ st1)|done]).
    assert (acquired_ st2 = acquired_ st /\ currPeerPositions_ st2 !! nodeID x = Some x) as [Ea Ex].
    { subst st2 st1. destruct (isInitial x); simpl; by rewrite lookup_insert_eq. }
    rewrite Ea. destruct (acquired_ st !! position x) as [s|] eqn:Hs.
    + destruct (result_ st2) as [r|] eqn:Hr.
      * destruct (updateDisputes_ok _ (nodeID x) s st2 K2) as [Hq K3].
        { by apply elem_of_dom_2 in Ex. }
        { intros y t Hy. rewrite Ex in Hy. simplify_eq. rewrite Ea. congruence. }
        split; [etrans; [exact Hc2|by apply quiet_calm]|].
        eapply round_ok_weaken, K3; [|rewrite Hr; eauto]. intros m [[-> _] ?]. done.
      * split; [done|]. destruct K2 as [P1 P2 P3 _]. split; try done. congruence.
    + assert (round_ok none st2) as K3.
      { eapply round_ok_weaken, K2. intros m [_ [? ?]]. congruence. }
      destruct (acquireTxSet A (position x)) as [s|]; [|done].
      destruct (gotTxSet_ok (now_ st2) s st2 K3). split; [by etrans|done].
Qed.

Lemma playbackProposals_ok st :
  round_ok none st -> calm st (playbackProposals A st) /\ round_ok none (playbackProposals A st).
Proof.
  intros Hok. unfold playbackProposals.
  apply (foldl_inv (fun s => calm st s /\ round_ok none s)); [done|].
  intros s1 [n props] _ Hs1. apply (foldl_inv (fun s => calm st s /\ round_ok none s)); [done|].
  intros s2 x _ [Hc2 Hs2]. destruct (previousLedger x =? prevLedgerID_ s2); [|done].
  destruct (peerProposalInternal_ok (now_ s2) x s2 Hs2) as [Hc3 Hs3].
  destruct (peerProposalInternal A (now_ s2) x s2) as [ok s3]. simpl in *.
  assert (calm st s3) by by etrans. destruct ok; [|done].
  split; [etrans; [done|by apply calm_same]|by apply (round_ok_same _ s3)].
Qed.

(** ** Closing the ledger *)

(** The result constructor asserts that a position names its set. *)
Hypothesis onClose_position : forall l now m,
  position (onClose A l now m).2 = H (onClose A l now m).1.

Lemma closeLedger_ok st :
  round_ok none st -> round_ok none (closeLedger A st)
    /\ phase_ (closeLedger A st) = establish /\ is_Some (result_ (closeLedger A st))
    /\ mode_ (closeLedger A st) = mode_ st.
Proof.
  intros [P1 P2 P3 P4]. unfold closeLedger. simpl.
  pose proof (onClose_position (previousLedger_ st) (now_ st) (mode_ st)) as Hpos.
  destruct (onClose A (previousLedger_ st) (now_ st) (mode_ st)) as [s x]. simpl in Hpos. simpl.
  rewrite hash_fixed.
  match goal with |- context [set_result ?r ?s0] => set (st1 := set_result r s0) end.
  set (st2 := match acquired_ st !! H s with Some _ => st1 | None => _ end).
  assert (round_ok none st2 /\ phase_ st2 = establish /\ is_Some (result_ st2) /\ mode_ st2 = mode_ st) as Hst2.
  { assert (forall acq, (acq = acquired_ st \/ acq = <[H s := s]> (acquired_ st)) ->
      is_Some (acq !! H s) -> round_ok none (set_acquired acq st1)) as Hacq.
    { intros acq Hacq Hin. split; simpl; [eauto|done|..].
      - destruct Hacq as [->| ->]; [done|]. by apply map_Forall_insert_2.
      - intros r [= <-]. split; simpl; [done..|]. apply map_Forall_empty. }
    subst st2. destruct (acquired_ st !! H s) as [s0|] eqn:Ha.
    - split_and!; [|done|simpl; eauto|done].
      apply (round_ok_same _ (set_acquired (acquired_ st) st1)); try done. apply Hacq; [by left|eauto].
    - split_and!; [|done|simpl; eauto|done].
      apply (round_ok_same _ (set_acquired (<[H s := s]> (acquired_ st)) st1)); try done.
      apply Hacq; [by right|rewrite lookup_insert_eq; eauto]. }
  clearbody st2. clear st1. destruct Hst2 as (Hok2 & Hph2 & Hr2 & Hm2).
  set (st3 := if isProposing st2 then _ else st2).
  assert (round_ok none st3 /\ phase_ st3 = establish /\ is_Some (result_ st3) /\ mode_ st3 = mode_ st)
    as (Hok3 & Hph3 & Hr3 & Hm3).
  { subst st3. destruct (isProposing st2); [|done]. split_and!; try done. by apply (round_ok_same _ st2). }
  destruct (fold_ok none (fun st '(_, y) =>
    match acquired_ st !! position y with Some o => createDisputes A o st | None => st end)
    (positions st3) st3) as [Hq Hok4]; [|done|].
  - intros s0 [n y] _ Hs0. destruct (acquired_ s0 !! position y); [by apply createDisputes_ok|done].
  - destruct (quiet_core_fields _ _ Hq) as (_ & _ & E1 & E2 & _).
    split_and!; [done|congruence| |congruence].
    destruct Hr3 as [r Hr3]. destruct (qu_some _ _ Hq r Hr3) as (r' & -> & _). eauto.
Qed.

Lemma phaseOpen_ok st :
  round_ok none st -> round_ok none (phaseOpen A st) /\ mode_ (phaseOpen A st) = mode_ st
    /\ (phase_ (phaseOpen A st) = phase_ st \/ phase_ (phaseOpen A st) = establish).
Proof.
  intros Hok. unfold phaseOpen. cbv zeta.
  set (st1 := set_openTime _ st).
  assert (round_ok none st1) as K1 by by apply (round_ok_same _ st).
  case_match; [|by auto]. destruct (closeLedger_ok st1 K1) as (? & ? & _ & ?). auto.
Qed.

(** ** Updating our position *)

Lemma freshPositions_ok cutoff st :
  round_ok none st ->
  calm st (freshPositions cutoff st).1 /\ round_ok none (freshPositions cutoff st).1.
Proof.
  intros Hok. unfold freshPositions.
  cut (forall l st0 votes, (forall n x, (n, x) ∈ l -> nodeID x = n) -> round_ok none st0 ->
    let f := fun '(st, votes) '(n, x) =>
      if isStale cutoff x then
        (set_currPeers (delete n (currPeerPositions_ st)) (on_result (unVoteAll (nodeID x)) st), votes)
      else (st, countVote (asCloseTime st (closeTime x)) votes) in
    calm st0 (foldl f (st0, votes) l).1 /\ round_ok none (foldl f (st0, votes) l).1).
  { intros Hl. apply Hl; [|done]. intros n x Hx%elem_of_map_to_list. by apply (rk_peers _ _ Hok) in Hx as [? _]. }
  induction l as [|[n x] l IH]; intros st0 votes Hl Hok0; [done|]. simpl.
  assert (forall m y, (m, y) ∈ l -> nodeID y = m) as Hl' by (intros m y Hin; apply Hl; by right).
  destruct (isStale cutoff x); [|by apply IH].
  rewrite (Hl n x) by left.
  destruct (forget_ok none n st0 Hok0) as [Hc1 K1].
  destruct (IH _ votes Hl' K1) as [Hc2 K2]. split; [by etrans|done].
Qed.

Lemma updateVote_ourVote t pr p d :
  ourVote_ (updateVote t pr p d).2 =
  if (updateVote t pr p d).1 then negb (ourVote_ d) else ourVote_ d.
Proof.
  assert (forall a b : bool, Bool.eqb a b = false -> a = negb b) as Hn by by intros [] [].
  unfold updateVote. repeat (case_match; simpl; [done|]).
  destruct (getNeededWeight _ _ _ _ _). destruct (Bool.eqb _ _) eqn:E; simpl; [done|].
  by apply Hn.
Qed.

(** The votes and the set that goes with them change together. *)
Lemma reconsider_ok P cur acq st r :
  disputes_ok P cur acq (txns r) (disputes r) ->
  let '(r', newSet) := reconsider A st r in
  txns r' = txns r /\ pos r' = pos r
  /\ disputes_ok P cur acq (default (txns r) newSet) (disputes r').
Proof.
  intros Hds. unfold reconsider.
  cut (forall l acc, NoDup l.*1 -> (forall k d, (k, d) ∈ l -> disputes acc.1 !! k = Some d) ->
    txns acc.1 = txns r -> pos acc.1 = pos r ->
    disputes_ok P cur acq (default (txns r) acc.2) (disputes acc.1) ->
    let f := fun '(r, newSet) '(txId, d) =>
      let '(changed, d') := updateVote (convergePercent_ st) (isProposing st) (parms_ A) d in
      let r := set_disputes (<[txId := d']> (disputes r)) r in
      if changed : bool then
        let s := default (txns r) newSet in
        (r, Some (if getOurVote d' then {[tx_ d']} ∪ s else s ∖ {[txId]}))
      else (r, newSet) in
    let '(r', newSet) := foldl f acc l in
    txns r' = txns r /\ pos r' = pos r
    /\ disputes_ok P cur acq (default (txns r) newSet) (disputes r')).
  { intros Hl. apply (Hl _ (r, None)); try done; [apply NoDup_fst_map_to_list|].
    intros k d Hkd. by apply elem_of_map_to_list in Hkd. }
  induction l as [|[k d] l IH]; intros [r1 ns] Hnd Hl Ht Hp Hd1; [done|]. simpl in *.
  apply NoDup_cons in Hnd as [Hk Hnd].
  pose proof (Hl k d ltac:(left)) as Hkd. destruct (Hd1 k d Hkd) as [D1 D2 D3 D4 D5].
  pose proof (updateVote_ourVote (convergePercent_ st) (isProposing st) (parms_ A) d) as Hov.
  destruct (updateVote_votes (convergePercent_ st) (isProposing st) (parms_ A) d) as (Hv & _ & _ & Htx).
  pose proof (updateVote_tallied (convergePercent_ st) (isProposing st) (parms_ A) d D3) as Hta.
  destruct (updateVote _ _ _ d) as [changed d']. simpl in *.
  assert (forall j e, (j, e) ∈ l -> <[k := d']> (disputes r1) !! j = Some e) as Hl'.
  { intros j e Hin. rewrite lookup_insert_ne; [apply Hl; by right|].
    intros ->. apply Hk. apply list_elem_of_fmap. by exists (j, e). }
  assert (forall ours, ourVote_ d' = bool_decide (k ∈ ours) ->
    (forall j, j <> k -> j ∈ ours <-> j ∈ default (txns r) ns) ->
    disputes_ok P cur acq ours (<[k := d']> (disputes r1))) as Hnew.
  { intros ours Ho Hsame j e [[<- <-]|[Hne He]]%lookup_insert_Some.
    - split; [congruence|done|done|by rewrite Hv|by rewrite Hv].
    - destruct (Hd1 j e He) as [E1 E2 E3 E4 E5]. split; try done. rewrite E2.
      apply bool_decide_ext. by rewrite Hsame. }
  destruct changed.
  - apply IH; simpl; try done. rewrite Ht. unfold getOurVote. apply Hnew.
    + rewrite Htx, D1. destruct (ourVote_ d'); symmetry.
      * apply bool_decide_eq_true. set_solver.
      * apply bool_decide_eq_false. set_solver.
    + intros j Hj. rewrite Htx, D1. destruct (ourVote_ d'); set_solver.
  - apply IH; simpl; try done. apply Hnew; [congruence|done].
Qed.

(** What [updateOurPositions] keeps. *)
Record same_round st st' : Prop := {
  sr_phase : phase_ st' = phase_ st;
  sr_mode : mode_ st' = mode_ st;
  sr_prev : prevLedgerID_ st' = prevLedgerID_ st /\ previousLedger_ st' = previousLedger_ st;
  sr_result : is_Some (result_ st) -> is_Some (result_ st');
}.

#[local] Instance same_round_preorder : PreOrder same_round.
Proof.
  split; [by split|]. intros a b c [A1 A2 [A3 A3'] A4] [B1 B2 [B3 B3'] B4].
  split; [congruence..|split; congruence|auto].
Qed.

Lemma calm_same_round st st' : calm st st' -> same_round st st'.
Proof.
  intros [Hc _ Hs]. injection Hc as E1 E2 E3 E4 E5 E6 E7. split; [done..|].
  intros [r Hr]. destruct (Hs r Hr) as (r' & -> & _). eauto.
Qed.

Lemma chooseCloseTime_same votes ours st :
  let st' := (chooseCloseTime A votes ours st).2 in
  control st' = control st /\ result_ st' = result_ st /\ currPeerPositions_ st' = currPeerPositions_ st
  /\ acquired_ st' = acquired_ st /\ deadNodes_ st' = deadNodes_ st /\ now_ st' = now_ st.
Proof.
  unfold chooseCloseTime. case_match; [done|].
  destruct (getNeededWeight _ _ _ _ _) as [w [s|]]; simpl;
    destruct (tallyCloseTimes _ _ _) as [[? ?] ?]; done.
Qed.

Lemma adopt_ok s t st r :
  map_Forall (position_ok st) (currPeerPositions_ st) ->
  map_Forall (fun i s => H s = i) (acquired_ st) ->
  result_ st = Some r -> phase_ st = establish ->
  disputes_ok none (currPeerPositions_ st) (acquired_ st) s (disputes r) ->
  same_round st (adopt A s t st) /\ round_ok none (adopt A s t st).
Proof.
  intros P2 P3 Hr Hph Hd. unfold adopt. rewrite hash_fixed.
  set (r1 := set_pos (changePosition (H s) t (now_ st) (pos r)) (set_txns s r)).
  set (st1 := on_result _ st).
  assert (result_ st1 = Some r1) as Hr1 by (subst st1; simpl; by rewrite Hr).
  rewrite Hr1. set (bowed := isBowOut (pos r1)).
  set (st2 := match acquired_ st1 !! H s with Some _ => _ | None => _ end).
  assert (same_round st st2 /\ round_ok none st2) as [Hsr Hok2].
  { subst st2. simpl. destruct (acquired_ st !! H s) as [s0|] eqn:Ha.
    - split; [split; simpl; rewrite ?Hr; try done; eauto|]. split; simpl; try done.
      + rewrite Hph, Hr. simpl. eauto.
      + fold st1. rewrite Hr. intros r' [= <-]. split; simpl; [done|by eauto|done].
    - set (st3 := set_acquired (<[H s := s]> (acquired_ st)) st1).
      set (st4 := if negb bowed then _ else st3).
      assert (result_ st4 = Some r1 /\ phase_ st4 = phase_ st /\ acquired_ st4 = <[H s := s]> (acquired_ st)
        /\ currPeerPositions_ st4 = currPeerPositions_ st /\ prevLedgerID_ st4 = prevLedgerID_ st
        /\ deadNodes_ st4 = deadNodes_ st /\ mode_ st4 = mode_ st /\ previousLedger_ st4 = previousLedger_ st)
        as (E1 & E2 & E3 & E4 & E5 & E6 & E7 & E8) by (subst st4; destruct bowed; done).
      clearbody st4. destruct (updateLoop_ok (H s) s (positions st4) st4) as [Hq Hfin].
      + split.
        * rewrite E2, Hph, E1. eauto.
        * rewrite E4. intros n x Hx. specialize (P2 n x Hx). unfold position_ok in *. by rewrite E5, E6.
        * rewrite E3. by apply map_Forall_insert_2.
        * rewrite E1. intros r' [= <-]. split; simpl; rewrite ?E3, ?E4.
          -- done.
          -- rewrite lookup_insert_eq. eauto.
          -- unfold positions. rewrite E4. by apply disputes_ok_acquire.
      + intros n x Hin. by apply elem_of_map_to_list in Hin.
      + by rewrite E3, lookup_insert_eq.
      + rewrite E1. eauto.
      + split; [|done]. etrans; [|by apply calm_same_round, quiet_calm].
        split; [done..|by split|]. rewrite E1. eauto. }
  destruct (result_ st2) as [r2|]; [|done]. case_match; [|done].
  split; [|by apply (round_ok_same _ st2)]. etrans; [exact Hsr|]. by split.
Qed.

Lemma updateOurPositions_ok st :
  round_ok none st -> phase_ st = establish ->
  same_round st (updateOurPositions A st) /\ round_ok none (updateOurPositions A st).
Proof.
  intros Hok Hph. unfold updateOurPositions.
  match goal with |- context [freshPositions ?c st] => set (cutoff := c) end.
  destruct (freshPositions_ok cutoff st Hok) as [Hc1 K1].
  destruct (freshPositions cutoff st) as [st1 votes]. simpl in Hc1, K1.
  apply calm_same_round in Hc1 as Hs1. destruct (result_ st1) as [r|] eqn:Hr; [|done].
  pose proof (rk_result _ _ K1 r Hr) as Hro.
  pose proof (reconsider_ok none _ _ st1 r (ro_disputes _ _ _ Hro)) as Hre.
  destruct (reconsider A st1 r) as [r2 newSet]. destruct Hre as (Et & Ep & Hd).
  destruct (chooseCloseTime_same votes (closeTime (pos r2)) (set_result (Some r2) st1))
    as (F1 & F2 & F3 & F4 & F5 & F6).
  destruct (chooseCloseTime A votes _ _) as [cct st3]. simpl in F1, F2, F3, F4, F5, F6.
  injection F1 as G1 G2 G3 G4 G5 G6 G7.
  assert (same_round st st3) as Hs3.
  { etrans; [exact Hs1|]. split; simpl; [done..|by split|]. rewrite F2. eauto. }
  assert (phase_ st3 = establish) as Hph3 by (rewrite (sr_phase _ _ Hs3); done).
  assert (map_Forall (position_ok st3) (currPeerPositions_ st3)) as Q2.
  { rewrite F3. intros n x Hx. apply (rk_peers _ _ K1) in Hx. unfold position_ok in *.
    by rewrite G3, F5. }
  assert (map_Forall (fun i s => H s = i) (acquired_ st3)) as Q3
    by (rewrite F4; apply (rk_acquired _ _ K1)).
  assert (forall s, disputes_ok none (currPeerPositions_ st3) (acquired_ st3) s (disputes r2) ->
    same_round st (adopt A s cct st3) /\ round_ok none (adopt A s cct st3)) as Hadopt.
  { intros s Hs. destruct (adopt_ok s cct st3 r2 Q2 Q3 F2 Hph3 Hs). split; [by etrans|done]. }
  destruct newSet as [s|]; simpl in Hd.
  - apply Hadopt. by rewrite F3, F4.
  - rewrite <- Et in Hd. destruct (negb _ || _); [apply Hadopt; by rewrite F3, F4|]. split; [done|]. split.
    + rewrite Hph3, F2. eauto.
    + done.
    + done.
    + rewrite F2. intros r' [= <-]. destruct Hro as [R1 R2 _].
      split; rewrite ?Et, ?Ep, ?F3, ?F4; [done..|]. by rewrite <- Et.
Qed.

(** ** Concluding *)

Lemma leaveConsensus_ok P st :
  round_ok P st -> round_ok P (leaveConsensus st) /\ phase_ (leaveConsensus st) = phase_ st
    /\ mode_ (leaveConsensus st) = (if decide (mode_ st = proposing) then observing else mode_ st)
    /\ (is_Some (result_ st) -> is_Some (result_ (leaveConsensus st))).
Proof.
  intros Hok. unfold leaveConsensus, isProposing.
  destruct (decide (mode_ st = proposing)) as [Hm|Hm];
    [rewrite bool_decide_eq_true_2 by done|rewrite bool_decide_eq_false_2 by done; done].
  destruct (result_ st) as [r|] eqn:Hr; [|split_and!; try done; try (by apply (round_ok_same _ st)); simpl; rewrite Hr; eauto].
  destruct (negb (isBowOut (pos r))); [|split_and!; try done; try (by apply (round_ok_same _ st)); simpl; rewrite Hr; eauto].
  split_and!; try done.
  apply (round_ok_same _ (set_result (Some (set_pos (bowOut (now_ st) (pos r)) r)) st)); try done.
  apply (round_ok_core P P st _ (set_pos (bowOut (now_ st) (pos r)) r)); try done;
    [by eapply round_ok_not_open|]. by destruct (rk_result _ _ Hok r Hr).
Qed.

(** The ways a round can change the way we participate, until it is restarted. *)
Definition mode_step (m m' : ConsensusMode) : Prop := m' = m \/ (m = proposing /\ m' = observing).

Lemma haveConsensus_ok st :
  round_ok none st -> let '(ok, st') := haveConsensus A st in
  round_ok none st' /\ phase_ st' = phase_ st /\ mode_step (mode_ st) (mode_ st')
  /\ (is_Some (result_ st) -> is_Some (result_ st')).
Proof.
  intros Hok. unfold haveConsensus. destruct (result_ st) as [r|] eqn:Hr; [|by split_and!; [..|left|]].
  match goal with |- context [set_state ?x r] => set (s := x) end. clearbody s.
  set (st1 := set_result (Some (set_state s r)) st).
  assert (round_ok none st1) as K1.
  { apply (round_ok_core none none st st1 (set_state s r)); try done; [by eapply round_ok_not_open|].
    by destruct (rk_result _ _ Hok r Hr). }
  destruct (leaveConsensus_ok none st1 K1) as (L1 & L2 & L3 & L4).
  assert (mode_step (mode_ st) (mode_ (leaveConsensus st1))) as Hm.
  { rewrite L3. case_decide; [by right|by left]. }
  destruct s; try (by split_and!; [..|left|simpl; eauto]).
  destruct (_ <? _); [by split_and!; [..|left|simpl; eauto]|].
  split_and!; [done..|]. intros _. apply L4. simpl. eauto.
Qed.

Lemma phaseEstablish_ok st :
  round_ok none st -> phase_ st = establish ->
  round_ok none (phaseEstablish A st)
  /\ (phase_ (phaseEstablish A st) = establish \/ phase_ (phaseEstablish A st) = accepted)
  /\ mode_step (mode_ st) (mode_ (phaseEstablish A st)).
Proof.
  intros Hok Hph. unfold phaseEstablish. cbv zeta.
  match goal with |- context [set_convergePercent ?x ?s] => set (st1 := set_convergePercent x s) end.
  assert (round_ok none st1 /\ phase_ st1 = establish /\ mode_ st1 = mode_ st) as (K1 & E1 & M1).
  { split_and!; [|done..]. destruct Hok as [P1 P2 P3 P4]. split; simpl; try done.
    - rewrite Hph in *. by rewrite fmap_is_Some.
    - intros r' (r & Hr & ->)%fmap_Some. by destruct (P4 r Hr). }
  clearbody st1. case_match; [by split_and!; [|left|left]|].
  destruct (updateOurPositions_ok st1 K1 E1) as [Hs2 K2].
  set (st2 := updateOurPositions A st1) in *. clearbody st2. destruct Hs2 as [S1 S2 _ _].
  assert (mode_step (mode_ st) (mode_ st2)) as M2 by (left; congruence).
  destruct (shouldPause A st2); [by split_and!; [|left; congruence|]|].
  pose proof (haveConsensus_ok st2 K2) as K3.
  destruct (haveConsensus A st2) as [ok st3]. destruct K3 as (K3 & S3 & M3 & _).
  assert (mode_step (mode_ st) (mode_ st3)) as M4.
  { rewrite S2, M1 in M3. done. }
  destruct ok; simpl; [|by split_and!; [|left; congruence|]].
  destruct (haveCloseTimeConsensus_ st3); simpl; [|by split_and!; [|left; congruence|]].
  assert (forall st4, result_ st4 = result_ st3 -> prevLedgerID_ st4 = prevLedgerID_ st3 ->
    deadNodes_ st4 = deadNodes_ st3 -> currPeerPositions_ st4 = currPeerPositions_ st3 ->
    acquired_ st4 = acquired_ st3 -> phase_ st4 = accepted -> round_ok none st4) as Hacc.
  { intros st4 Q1 Q2 Q3 Q4 Q5 Q6. destruct K3 as [P1 P2 P3 P4]. split.
    - rewrite Q6, Q1. intros _. by rewrite S3, S1, E1 in P1.
    - rewrite Q4. intros n x Hx. specialize (P2 n x Hx). unfold position_ok in *. by rewrite Q2, Q3.
    - by rewrite Q5.
    - rewrite Q1. intros r Hr. destruct (P4 r Hr). by split; rewrite ?Q4, ?Q5. }
  destruct (result_ st3) as [r|] eqn:Hr; simpl; (split_and!; [by apply Hacc; simpl|by right|done]).
Qed.

(** ** Rounds and the timer *)

Lemma resetRound_ok now i l m st :
  let st' := resetRound A now i l m st in
  round_ok none st' /\ mode_ st' = m /\ phase_ st' = open /\ prevLedgerID_ st' = i
  /\ previousLedger_ st' = l.
Proof. by split_and!. Qed.

Lemma switchLedger_ok i st :
  round_ok none st -> let st' := switchLedger A i st in
  round_ok none st' /\ phase_ st' = phase_ st /\ mode_ st' = mode_ st /\ prevLedgerID_ st' = i
  /\ previousLedger_ st' = previousLedger_ st.
Proof.
  intros [P1 P2 P3 P4]. unfold switchLedger. simpl.
  match goal with |- context [playbackProposals A ?s] => set (st1 := s) end.
  assert (round_ok none st1) as K1.
  { split; simpl; try done.
    - destruct (phase_ st); [by rewrite P1|by rewrite fmap_is_Some|rewrite fmap_is_Some; auto].
    - intros r' (r & Hr & ->)%fmap_Some. destruct (P4 r Hr) as [R1 R2 R3]. by split. }
  destruct (playbackProposals_ok st1 K1) as [[Hc _ _] K2].
  injection Hc as E1 E2 E3 E4 E5 E6 E7. split_and!; [done|congruence..].
Qed.

(** A step of the timer never makes a node propose that was not proposing. *)
Definition timer_ok st st' : Prop :=
  round_ok none st' /\ (mode_ st' = proposing -> mode_ st = proposing).

Section Recursion.
Variable timer : Z -> Consensus -> option Consensus.
Hypothesis timer_sound : forall now st st',
  round_ok none st -> timer now st = Some st' -> timer_ok st st'.

Lemma startRoundInternal_ok now i l m st st' :
  startRoundInternal A timer now i l m st = Some st' ->
  round_ok none st' /\ (mode_ st' = proposing -> m = proposing).
Proof.
  unfold startRoundInternal.
  destruct (resetRound_ok now i l m st) as (K1 & M1 & _).
  destruct (playbackProposals_ok _ K1) as [[Hc _ _] K2].
  assert (mode_ (playbackProposals A (resetRound A now i l m st)) = m) as M2
    by (injection Hc as _ E _ _ _ _ _; congruence).
  destruct (_ <? _).
  - intros Ht. apply timer_sound in Ht as [K3 M3]; [|done]. split; [done|]. intros E. rewrite <- M2. auto.
  - intros [= <-]. split; [done|congruence].
Qed.

Lemma handleWrongLedger_ok i st st' :
  round_ok none st -> handleWrongLedger A timer i st = Some st' -> timer_ok st st'.
Proof.
  intros Hok. unfold handleWrongLedger.
  destruct (leaveConsensus_ok none st Hok) as (K1 & _ & M1 & _).
  assert (mode_ (leaveConsensus st) <> proposing) as M1'.
  { rewrite M1. by case_decide. }
  set (st1 := leaveConsensus st) in *. clearbody st1.
  set (st2 := if prevLedgerID_ st1 =? i then st1 else switchLedger A i st1).
  assert (round_ok none st2 /\ mode_ st2 <> proposing) as [K2 M2].
  { subst st2. destruct (prevLedgerID_ st1 =? i); [by split|]. destruct (switchLedger_ok i st1 K1) as (? & _ & E & _). split; [done|congruence]. }
  clearbody st2.
  destruct (ledger_id (previousLedger_ st2) =? prevLedgerID_ st2); [intros [= <-]; split; [done|intros E; by destruct M2]|].
  destruct (acquireLedger A (prevLedgerID_ st2)).
  - intros Hs. apply startRoundInternal_ok in Hs as [K3 M3]. split; [done|]. intros E. by specialize (M3 E).
  - intros [= <-]. split; [by apply (round_ok_same _ st2)|done].
Qed.

Lemma checkLedger_ok st st' :
  round_ok none st -> checkLedger A timer st = Some st' -> timer_ok st st'.
Proof.
  intros Hok. unfold checkLedger.
  destruct (negb (_ =? prevLedgerID_ st)); [by apply handleWrongLedger_ok|].
  destruct (negb (_ =? _)); [by apply handleWrongLedger_ok|]. intros [= <-]. by split.
Qed.

End Recursion.

Lemma timerEntry_ok fuel now st st' :
  round_ok none st -> timerEntry A fuel now st = Some st' -> timer_ok st st'.
Proof.
  revert now st st'. induction fuel as [|fuel IH]; intros now st st' Hok; [done|]. simpl.
  case_decide; [intros [= <-]; by split|].
  assert (round_ok none (set_now now st)) as K0 by by apply (round_ok_same _ st).
  destruct (checkLedger A (timerEntry A fuel) (set_now now st)) as [st1|] eqn:Hc; [|done].
  apply checkLedger_ok in Hc as [K1 M1]; [|intros; by eapply IH|done]. simpl in M1.
  intros [= <-]. destruct (phase_ st1) eqn:Hph.
  - destruct (phaseOpen_ok st1 K1) as (? & E & _). split; [done|]. rewrite E. done.
  - destruct (phaseEstablish_ok st1 K1 Hph) as (? & _ & [E|[E E']]); (split; [done|]).
    + by rewrite E.
    + by rewrite E'.
  - by split.
Qed.

Lemma startRound_ok fuel now i l un pr st st' :
  startRound A fuel now i l un pr st = Some st' ->
  round_ok none st' /\ (mode_ st' = proposing -> pr = true).
Proof.
  unfold startRound. set (st1 := set_recentPeers _ _). clearbody st1.
  match goal with |- context [let '(m, l') := ?e in _] => destruct e as [m l'] eqn:Em end.
  intros [K1 M1]%startRoundInternal_ok; [|intros; by eapply timerEntry_ok].
  split; [done|]. intros E. apply M1 in E. destruct pr; [done|]. repeat case_match; congruence.
Qed.

Lemma simulate_ok now delay st :
  round_ok none st ->
  round_ok none (simulate A now delay st) /\ phase_ (simulate A now delay st) = accepted.
Proof.
  intros Hok. unfold simulate.
  destruct (closeLedger_ok (set_now now st)) as ([P1 P2 P3 P4] & _ & [r Hr] & _);
    [by apply (round_ok_same _ st)|].
  set (st1 := closeLedger A (set_now now st)) in *. clearbody st1. simpl. rewrite Hr. simpl.
  split; [|done]. split; simpl; rewrite ?Hr; try done; simpl.
  intros r' [= <-]. by destruct (P4 r Hr).
Qed.

End Invariant.
