(* ===== verification/ConsensusRounds.v ===== *)
(** * Runs of the consensus state machine

    Sequences of calls to [Consensus] keep the invariants; the timer terminates
    when the adaptor's view of the network does not change during the call; a
    ledger is accepted only after agreement; a node that is not proposing stays
    silent. *)

From S2P Require Import Prelude ConsensusParms LedgerTiming DisputedTx ConsensusRules.
From S2P Require Import ConsensusProposal Consensus ConsensusFacts.

(** ** What messages from peers can cause *)

Definition sharing (e : Effect) : Prop :=
  match e with SharePosition _ | ShareTx _ | ShareTxSet _ => True | _ => False end.

(** The control state stays, and only sharing happens. *)
Record heard (st st' : Consensus) : Prop := {
  he_control : control st' = control st;
  he_effects : exists new, effects st' = effects st ++ new /\ Forall sharing new;
}.

#[export] Instance heard_preorder : PreOrder heard.
Proof.
  split.
  - intros st. split; [done|]. exists []. by rewrite app_nil_r.
  - intros a b c [C1 (n1 & E1 & F1)] [C2 (n2 & E2 & F2)]. split; [congruence|].
    exists (n1 ++ n2). split; [by rewrite E2, E1, app_assoc|by apply Forall_app].
Qed.

Lemma heard_same st st' : control st' = control st -> effects st' = effects st -> heard st st'.
Proof. intros E1 E2. split; [done|]. exists []. by rewrite app_nil_r. Qed.

Lemma heard_emit e st : sharing e -> heard st (emit e st).
Proof. intros He. split; [done|]. exists [e]. split; [done|]. by forall_list. Qed.

Lemma heard_fold {B} (f : Consensus -> B -> Consensus) l st :
  (forall st b, heard st (f st b)) -> heard st (foldl f st l).
Proof.
  intros Hf. apply (foldl_inv (fun s => heard st s)); [done|]. intros s b _ Hs. by etrans.
Qed.

Section Heard.
Variable A : Adaptor.

Lemma createDispute_heard st tx : heard st (createDispute st tx).
Proof.
  unfold createDispute. destruct (result_ st) as [r|]; [|done].
  destruct (disputes r !! tx); [done|]. destruct (peerVotes _ _ _) as [[] d].
  - etrans; [|etrans; [apply (heard_emit (ShareTx tx) (set_peerUnchanged 0 st)); done|]]; by apply heard_same.
  - etrans; [apply (heard_emit (ShareTx tx)); done|]. by apply heard_same.
Qed.

Lemma createDisputes_heard o st : heard st (createDisputes A o st).
Proof.
  unfold createDisputes. destruct (result_ st) as [r|]; [|done]. case_decide; [done|].
  destruct (_ =? _); [by apply heard_same|].
  etrans; [|apply heard_fold; intros s [tx b]; apply createDispute_heard]. by apply heard_same.
Qed.

Lemma updateDisputes_heard n o st : heard st (updateDisputes A n o st).
Proof.
  unfold updateDisputes. set (st1 := match result_ st with Some _ => _ | None => _ end).
  assert (heard st st1) as H1.
  { subst st1. destruct (result_ st); [|done]. case_decide; [done|apply createDisputes_heard]. }
  etrans; [exact H1|]. destruct (result_ st1) as [r|]; [|done].
  destruct (voteAll _ _ _) as [[] ds]; by apply heard_same.
Qed.

Lemma gotTxSet_heard now s st : heard st (gotTxSet A now s st).
Proof.
  unfold gotTxSet. case_decide; [done|]. simpl. destruct (acquired_ st !! _); [by apply heard_same|].
  destruct (result_ st); [|by apply heard_same].
  etrans; [|apply heard_fold; intros s1 [n x]; destruct (_ =? _); [apply updateDisputes_heard|done]].
  by apply heard_same.
Qed.

Lemma peerProposalInternal_heard now x st : heard st (peerProposalInternal A now x st).2.
Proof.
  unfold peerProposalInternal. case_decide; [done|]. destruct (negb _); [by apply heard_same|].
  case_decide; [by apply heard_same|]. destruct (match _ with Some _ => _ | None => _ end); [by apply heard_same|].
  destruct (isBowOut x); [by apply heard_same|]. cbv zeta.
  set (st1 := if isInitial x then _ else _).
  assert (heard st st1) as H1 by (subst st1; destruct (isInitial x); by apply heard_same).
  simpl. etrans; [exact H1|]. destruct (acquired_ st1 !! position x).
  - destruct (result_ st1); [apply updateDisputes_heard|done].
  - destruct (acquireTxSet A (position x)); [apply gotTxSet_heard|done].
Qed.

Lemma playbackProposals_heard st : heard st (playbackProposals A st).
Proof.
  unfold playbackProposals. apply heard_fold. intros s1 [n props]. apply heard_fold. intros s2 x.
  destruct (_ =? _); [|done]. pose proof (peerProposalInternal_heard (now_ s2) x s2) as Hh.
  destruct (peerProposalInternal A (now_ s2) x s2) as [[] s3]; simpl in Hh; [|done].
  etrans; [exact Hh|]. by apply heard_emit.
Qed.

End Heard.

(** ** Termination of the timer *)

Section Termination.
Variable A : Adaptor.

(** The adaptor names one ledger of the network and finds it by its identifier. *)
Variable net : Z.
Hypothesis net_stable : forall i l m, getPrevLedger A i l m = net.
Hypothesis acquire_id : forall i l, acquireLedger A i = Some l -> ledger_id l = i.

Definition in_sync (st : Consensus) : Prop :=
  prevLedgerID_ st = net /\ ledger_id (previousLedger_ st) = net.

Lemma checkLedger_in_sync timer st : in_sync st -> checkLedger A timer st = Some st.
Proof.
  intros [E1 E2]. unfold checkLedger. rewrite net_stable, E1, E2. by rewrite Z.eqb_refl.
Qed.

Lemma timerEntry_in_sync fuel now st :
  in_sync st -> is_Some (timerEntry A (S fuel) now st).
Proof.
  intros Hs. simpl. case_decide; [eauto|].
  rewrite checkLedger_in_sync by done. simpl. eauto.
Qed.

Lemma startRoundInternal_in_sync fuel now l m st :
  ledger_id l = net ->
  is_Some (startRoundInternal A (timerEntry A (S fuel)) now net l m st).
Proof.
  intros Hl. unfold startRoundInternal.
  pose proof (playbackProposals_heard A (resetRound A now net l m st)) as [Hc _].
  destruct (_ <? _); [|eauto]. apply timerEntry_in_sync.
  injection Hc as _ _ E1 E2 _ _ _. split; [by rewrite E1|by rewrite E2].
Qed.

Lemma timerEntry_total fuel now st : is_Some (timerEntry A (S (S fuel)) now st).
Proof.
  cbn [timerEntry]. case_decide; [eauto|].
  cut (is_Some (checkLedger A (timerEntry A (S fuel)) (set_now now st))).
  { intros [st' E]. cbn [timerEntry] in E. rewrite E. simpl. eauto. }
  unfold checkLedger. rewrite net_stable.
  assert (is_Some (handleWrongLedger A (timerEntry A (S fuel)) net (set_now now st))) as Hw.
  { unfold handleWrongLedger. set (st1 := leaveConsensus _).
    set (st2 := if _ =? net then st1 else switchLedger A net st1).
    assert (prevLedgerID_ st2 = net) as E2.
    { subst st2. destruct (Z.eqb_spec (prevLedgerID_ st1) net); [done|]. unfold switchLedger.
      match goal with |- context [playbackProposals A ?s] =>
        pose proof (playbackProposals_heard A s) as [Hc _] end.
      injection Hc as _ _ E _ _ _ _. by rewrite E. }
    clearbody st2. destruct (_ =? _); [eauto|]. rewrite E2.
    destruct (acquireLedger A net) as [l|] eqn:Ha; [|eauto].
    apply startRoundInternal_in_sync. by apply acquire_id. }
  destruct (negb _); [done|]. destruct (negb _); [done|eauto].
Qed.

Lemma startRound_total fuel now i l un pr st :
  is_Some (startRound A (S (S fuel)) now i l un pr st).
Proof.
  unfold startRound. match goal with |- context [let '(m, l') := ?e in _] => destruct e as [m l'] end.
  unfold startRoundInternal. destruct (_ <? _); [apply timerEntry_total|eauto].
Qed.

End Termination.

(** More fuel gives the same answer. *)
Lemma timerEntry_fuel A fuel now st st' :
  timerEntry A fuel now st = Some st' -> timerEntry A (S fuel) now st = Some st'.
Proof.
  revert now st st'. induction fuel as [|fuel IH]; intros now st st'; [done|].
  assert (forall i l m st1 st2 t, startRoundInternal A (timerEntry A fuel) t i l m st1 = Some st2 ->
    startRoundInternal A (timerEntry A (S fuel)) t i l m st1 = Some st2) as Hs.
  { intros i l m st1 st2 t. unfold startRoundInternal. destruct (_ <? _); [apply IH|done]. }
  assert (forall st1 st2, checkLedger A (timerEntry A fuel) st1 = Some st2 ->
    checkLedger A (timerEntry A (S fuel)) st1 = Some st2) as Hc.
  { intros st1 st2.
    assert (forall i, handleWrongLedger A (timerEntry A fuel) i st1 = Some st2 ->
      handleWrongLedger A (timerEntry A (S fuel)) i st1 = Some st2) as Hw.
    { intros i. unfold handleWrongLedger. generalize (leaveConsensus st1). intros st3.
      generalize (if prevLedgerID_ st3 =? i then st3 else switchLedger A i st3). intros st4.
      destruct (_ =? _); [done|]. destruct (acquireLedger A _); [apply Hs|done]. }
    unfold checkLedger. destruct (negb _); [apply Hw|]. destruct (negb _); [apply Hw|done]. }
  cbn [timerEntry]. case_decide; [done|].
  destruct (checkLedger A (timerEntry A fuel) (set_now now st)) as [st1|] eqn:E; [|done].
  apply Hc in E. cbn [timerEntry] in E. by rewrite E.
Qed.

(** ** A node that is not proposing proposes nothing *)

Definition notProposal (e : Effect) : Prop := match e with Propose _ => False | _ => True end.

Record silent (st st' : Consensus) : Prop := {
  si_mode : mode_ st <> proposing -> mode_ st' <> proposing;
  si_effects : mode_ st <> proposing ->
    exists new, effects st' = effects st ++ new /\ Forall notProposal new;
}.

#[export] Instance silent_preorder : PreOrder silent.
Proof.
  split.
  - intros st. split; [done|]. intros _. exists []. by rewrite app_nil_r.
  - intros a b c [M1 E1] [M2 E2]. split; [auto|]. intros Hm.
    destruct (E1 Hm) as (n1 & F1 & G1). destruct (E2 (M1 Hm)) as (n2 & F2 & G2).
    exists (n1 ++ n2). split; [by rewrite F2, F1, app_assoc|by apply Forall_app].
Qed.

Lemma silent_same st st' : mode_ st' = mode_ st -> effects st' = effects st -> silent st st'.
Proof.
  intros E1 E2. split; [congruence|]. intros _. exists []. by rewrite app_nil_r.
Qed.

Lemma silent_emit e st : notProposal e -> silent st (emit e st).
Proof. intros He. split; [done|]. intros _. exists [e]. split; [done|]. by forall_list. Qed.

Lemma silent_mode m st : m <> proposing -> silent st (set_mode m st).
Proof. intros Hm. split; [done|]. intros _. eexists. split; [done|]. by forall_list. Qed.

Lemma heard_silent st st' : heard st st' -> silent st st'.
Proof.
  intros [Hc (new & E & F)]. injection Hc as _ Em _ _ _ _ _. split; [congruence|].
  intros _. exists new. split; [done|]. eapply Forall_impl; [exact F|]. by intros [].
Qed.

Section Silence.
Variable A : Adaptor.

(** Emitting a proposal under the test of the source. *)
Lemma silent_propose (b : bool) x st :
  silent st (if b && isProposing st then emit (Propose x) st else st).
Proof.
  unfold isProposing. destruct b; [|done]. case_bool_decide as Hm; [|done]. simpl.
  split; by intros [].
Qed.

Lemma silent_fold {B} (f : Consensus -> B -> Consensus) l st :
  (forall st b, silent st (f st b)) -> silent st (foldl f st l).
Proof.
  intros Hf. apply (foldl_inv (fun s => silent st s)); [done|]. intros s b _ Hs. by etrans.
Qed.

Lemma closeLedger_silent st : silent st (closeLedger A st).
Proof.
  unfold closeLedger. cbv zeta.
  destruct (onClose A _ _ _) as [s x].
  match goal with |- context [set_result ?r ?s0] => set (st1 := set_result r s0) end.
  set (st2 := match acquired_ st1 !! setID A s with Some _ => _ | None => _ end).
  assert (silent st st2) as H2.
  { subst st2. destruct (acquired_ st1 !! setID A s); [by apply silent_same|].
    etrans; [|by apply silent_emit]. by apply silent_same. }
  pose proof (silent_propose true x st2) as H3. simpl in H3.
  etrans; [exact H2|]. etrans; [exact H3|]. apply silent_fold. intros s0 [n y].
  destruct (acquired_ s0 !! position y); [apply heard_silent, createDisputes_heard|done].
Qed.

Lemma leaveConsensus_silent st : silent st (leaveConsensus st).
Proof.
  unfold leaveConsensus, isProposing. case_bool_decide as Hm; [|done].
  split; by intros [].
Qed.

Lemma haveConsensus_silent st : silent st (haveConsensus A st).2.
Proof.
  unfold haveConsensus. destruct (result_ st) as [r|]; [|done].
  match goal with |- context [set_state ?x r] => set (s := x) end. clearbody s.
  destruct s; try (by apply silent_same). destruct (_ <? _); [by apply silent_same|]. simpl.
  etrans; [|apply leaveConsensus_silent]. by apply silent_same.
Qed.

Lemma freshPositions_silent cutoff st : silent st (freshPositions cutoff st).1.
Proof.
  unfold freshPositions.
  apply (foldl_inv (fun r : Consensus * gmap Z Z => silent st r.1)); [done|].
  intros [s v] [n x] _ Hs. simpl in *. destruct (isStale cutoff x); [|done].
  etrans; [exact Hs|]. by apply silent_same.
Qed.

Lemma adopt_silent s t st : silent st (adopt A s t st).
Proof.
  unfold adopt. cbv zeta. set (st1 := on_result _ st).
  generalize (match result_ st1 with Some r => isBowOut (pos r) | None => false end). intros bowed.
  set (st2 := match acquired_ st1 !! setID A s with Some _ => _ | None => _ end).
  assert (silent st st2) as H2.
  { subst st2. destruct (acquired_ st1 !! setID A s); [by apply silent_same|].
    etrans; [|apply silent_fold; intros s0 [n x]; destruct (_ =? _);
      [apply heard_silent, updateDisputes_heard|done]].
    destruct bowed; simpl; [by apply silent_same|]. etrans; [|by apply silent_emit]. by apply silent_same. }
  etrans; [exact H2|]. destruct (result_ st2); [|done]. apply silent_propose.
Qed.

Lemma updateOurPositions_silent st : silent st (updateOurPositions A st).
Proof.
  unfold updateOurPositions. cbv zeta.
  pose proof (freshPositions_silent (u32 (now_ st - proposeFRESHNESS (parms_ A))) st) as H1.
  destruct (freshPositions _ st) as [st1 votes]. simpl in H1. etrans; [exact H1|].
  destruct (result_ st1) as [r|]; [|done]. destruct (reconsider A st1 r) as [r2 ns].
  assert (silent st1 (chooseCloseTime A votes (closeTime (pos r2)) (set_result (Some r2) st1)).2) as H3.
  { unfold chooseCloseTime. destruct (_ =? 0); [by apply silent_same|].
    destruct (getNeededWeight _ _ _ _ _) as [w [s|]]; destruct (tallyCloseTimes _ _ _) as [[? ?] ?];
      by apply silent_same. }
  destruct (chooseCloseTime _ _ _ _) as [cct st3]. simpl in H3. etrans; [exact H3|].
  destruct (match ns with Some _ => _ | None => _ end); [apply adopt_silent|done].
Qed.

Lemma phaseEstablish_silent st : silent st (phaseEstablish A st).
Proof.
  unfold phaseEstablish. cbv zeta.
  match goal with |- context [set_convergePercent ?x ?s] => set (st1 := set_convergePercent x s) end.
  assert (silent st st1) as H1 by by apply silent_same.
  clearbody st1. etrans; [exact H1|]. destruct (_ <? _); [done|].
  etrans; [apply updateOurPositions_silent|]. generalize (updateOurPositions A st1). intros st2.
  destruct (shouldPause A st2); [done|]. pose proof (haveConsensus_silent st2) as H3.
  destruct (haveConsensus A st2) as [ok st3]. simpl in H3. etrans; [exact H3|].
  destruct (negb ok); [done|]. destruct (negb _); [done|].
  match goal with |- context [emit (UpdateOperatingMode ?n) st3] =>
    set (st4 := emit (UpdateOperatingMode n) st3) end.
  assert (silent st3 st4) as H4 by by apply silent_emit. etrans; [exact H4|].
  destruct (result_ _) as [r|]; [|by apply silent_same].
  etrans; [|by apply silent_emit]. by apply silent_same.
Qed.

Lemma timerEntry_silent fuel now st st' : timerEntry A fuel now st = Some st' -> silent st st'.
Proof.
  revert now st st'. induction fuel as [|fuel IH]; intros now st st'; [done|].
  assert (forall i l m t st1 st2, m <> proposing ->
    startRoundInternal A (timerEntry A fuel) t i l m st1 = Some st2 -> silent st1 st2) as Hs.
  { intros i l m t st1 st2 Hm. unfold startRoundInternal.
    assert (silent st1 (resetRound A t i l m st1)) as H1.
    { etrans; [|etrans; [by apply (silent_mode m (set_phase open st1))|]]; by apply silent_same. }
    pose proof (heard_silent _ _ (playbackProposals_heard A (resetRound A t i l m st1))) as H2.
    destruct (_ <? _).
    - intros H3%IH. etrans; [exact H1|]. by etrans.
    - intros [= <-]. by etrans. }
  assert (forall i st1 st2, handleWrongLedger A (timerEntry A fuel) i st1 = Some st2 -> silent st1 st2) as Hw.
  { intros i st1 st2. unfold handleWrongLedger. pose proof (leaveConsensus_silent st1) as H1.
    set (st3 := leaveConsensus st1) in *. clearbody st3.
    set (st4 := if prevLedgerID_ st3 =? i then st3 else switchLedger A i st3).
    assert (silent st3 st4) as H4.
    { subst st4. destruct (_ =? _); [done|]. unfold switchLedger.
      etrans; [|apply heard_silent, playbackProposals_heard]. by apply silent_same. }
    clearbody st4. assert (silent st1 st4) by by etrans.
    destruct (_ =? _); [intros [= <-]; done|]. destruct (acquireLedger A _).
    - intros H5%Hs; [by etrans|done].
    - intros [= <-]. etrans; [done|]. by apply silent_mode. }
  cbn [timerEntry]. case_decide; [intros [= <-]; done|].
  destruct (checkLedger A (timerEntry A fuel) (set_now now st)) as [st1|] eqn:E; [|done].
  assert (silent st st1) as H1.
  { etrans; [apply (silent_same st (set_now now st)); done|]. unfold checkLedger in E.
    destruct (negb _); [by eapply Hw|]. destruct (negb _); [by eapply Hw|]. by simplify_eq. }
  intros [= <-]. etrans; [exact H1|]. destruct (phase_ st1).
  - unfold phaseOpen. cbv zeta. destruct (shouldCloseLedger _ _ _ _ _ _ _ _ _); [|by apply silent_same].
    etrans; [|apply closeLedger_silent]. by apply silent_same.
  - apply phaseEstablish_silent.
  - done.
Qed.

End Silence.

(** ** Acceptance *)

(** The peers whose position is ours. *)
Definition agreeing (r : Result) (st : Consensus) : Z :=
  Z.of_nat (length (filter (fun nx : Z * Proposal => position nx.2 = position (pos r)) (positions st))).

(** The disputes are stalled, as [haveConsensus] sees it. *)
Definition allStalled (A : Adaptor) (st : Consensus) (r : Result) : bool :=
  haveCloseTimeConsensus_ st && negb (bool_decide (disputes r = ∅))
  && forallb (fun kd => stalled (parms_ A) (isProposing st) (peerUnchangedCounter_ st) kd.2)
       (map_to_list (disputes r)).

(** What [haveConsensus] decides when it answers yes. *)
Lemma haveConsensus_true A st st' :
  haveConsensus A st = (true, st') ->
  exists r, result_ st = Some r /\ currPeerPositions_ st' = currPeerPositions_ st
    /\ haveCloseTimeConsensus_ st' = haveCloseTimeConsensus_ st
    /\ let s := checkConsensus (prevProposers_ st) (peerCount st) (agreeing r st)
                  (proposersFinished A (previousLedger_ st) (prevLedgerID_ st)) (prevRoundTime_ st)
                  (dur_ (roundTime r)) (allStalled A st r) (parms_ A) (isProposing st) in
       s <> No /\ exists r', result_ st' = Some r' /\ state r' = s /\ txns r' = txns r
         /\ roundTime r' = roundTime r /\ position (pos r') = position (pos r)
         /\ (s = Yes -> st' = set_result (Some (set_state Yes r)) st).
Proof.
  unfold haveConsensus. destruct (result_ st) as [r|] eqn:Hr; [|done].
  replace (Z.of_nat (length (filter (fun '(_, x) => position x = position (pos r)) (positions st))))
    with (agreeing r st).
  2: { unfold agreeing. f_equal. f_equal. apply list_filter_iff. by intros [? ?]. }
  fold (allStalled A st r).
  intros Hc. exists r. split; [done|]. revert Hc. cbv zeta.
  generalize (checkConsensus (prevProposers_ st) (peerCount st) (agreeing r st)
    (proposersFinished A (previousLedger_ st) (prevLedgerID_ st)) (prevRoundTime_ st)
    (dur_ (roundTime r)) (allStalled A st r) (parms_ A) (isProposing st)).
  intros s Hc.
  assert (forall st1, st1 = set_result (Some (set_state s r)) st -> s <> No ->
    currPeerPositions_ st1 = currPeerPositions_ st
    /\ haveCloseTimeConsensus_ st1 = haveCloseTimeConsensus_ st
    /\ s <> No /\ exists r', result_ st1 = Some r' /\ state r' = s /\ txns r' = txns r
         /\ roundTime r' = roundTime r /\ position (pos r') = position (pos r)
         /\ (s = Yes -> st1 = set_result (Some (set_state Yes r)) st)) as Hst.
  { intros st1 -> Hs. split_and!; [done..|]. eexists. split_and!; try done. by intros ->. }
  destruct s; [done|injection Hc as <-; by apply (Hst _ eq_refl)| |injection Hc as <-; by apply (Hst _ eq_refl)].
  destruct (_ <? _); [done|]. injection Hc as <-. unfold leaveConsensus.
  destruct (isProposing _); [|by apply (Hst _ eq_refl)].
  simpl. destruct (isBowOut (pos r)); simpl; (split_and!; [done..|]); eexists; by split_and!.
Qed.

(** A round is concluded only after the minimum time, with a decision that is
    not [No], with agreement on the close time, and its result is handed over;
    a positive decision means that enough peers share our position. *)
Record accepted_well (A : Adaptor) (st : Consensus) (r : Result) : Prop := {
  aw_result : result_ st = Some r;
  aw_time : ledgerMIN_CONSENSUS (parms_ A) <= dur_ (roundTime r);
  aw_closeTime : haveCloseTimeConsensus_ st = true;
  aw_state : state r <> No;
  aw_handed : last (effects st) = Some (OnAccept r (previousLedger_ st) (mode_ st));
  aw_agreement : parms_ A = parms -> state r = Yes -> peerCount st < 2 ^ 56 ->
    peerCount st = 0 \/ allStalled A st r = true \/
    67 * (peerCount st + if isProposing st then 1 else 0)
      <= (agreeing r st + if isProposing st then 1 else 0) * 100;
}.

(** The time of the round is only set by the timer. *)
Definition clockOf (st : Consensus) : option ConsensusTimer := roundTime <$> result_ st.

Lemma createDisputes_clock A o st : clockOf (createDisputes A o st) = clockOf st.
Proof.
  unfold createDisputes. destruct (result_ st) as [r|] eqn:Hr; [|done]. case_decide; [done|].
  assert (clockOf st = Some (roundTime r)) as -> by (unfold clockOf; by rewrite Hr).
  destruct (_ =? _); [done|].
  apply (foldl_inv (fun s => clockOf s = Some (roundTime r))); [done|].
  intros s [tx b] _ Hs. unfold createDispute, clockOf in *. destruct (result_ s) as [r1|] eqn:Hr1; [|done].
  destruct (disputes r1 !! tx); [by rewrite Hr1|]. destruct (peerVotes _ _ _) as [[] d]; done.
Qed.

Lemma updateDisputes_clock A n o st : clockOf (updateDisputes A n o st) = clockOf st.
Proof.
  unfold updateDisputes. set (st1 := match result_ st with Some _ => _ | None => _ end).
  assert (clockOf st1 = clockOf st) as <-.
  { subst st1. destruct (result_ st); [|done]. case_decide; [done|apply createDisputes_clock]. }
  unfold clockOf. destruct (result_ st1) as [r|] eqn:Hr; [|by rewrite Hr].
  destruct (voteAll _ _ _) as [[] ds]; done.
Qed.

Lemma adopt_clock A s t st : clockOf (adopt A s t st) = clockOf st.
Proof.
  unfold adopt. cbv zeta. set (st1 := on_result _ st).
  assert (clockOf st1 = clockOf st) as <- by (unfold clockOf; simpl; by destruct (result_ st)).
  generalize (match result_ st1 with Some r => isBowOut (pos r) | None => false end). intros bowed.
  set (st2 := match acquired_ st1 !! setID A s with Some _ => _ | None => _ end).
  assert (clockOf st2 = clockOf st1) as <-.
  { subst st2. destruct (acquired_ st1 !! setID A s); [done|].
    apply (foldl_inv (fun x => clockOf x = clockOf st1)); [by destruct bowed|].
    intros s0 [n x] _ Hs0. destruct (_ =? _); [by rewrite updateDisputes_clock|done]. }
  destruct (result_ st2) as [r|] eqn:Hr; [|done]. by destruct (_ && _).
Qed.

Lemma updateOurPositions_clock A st : clockOf (updateOurPositions A st) = clockOf st.
Proof.
  unfold updateOurPositions. cbv zeta.
  set (cutoff := u32 (now_ st - proposeFRESHNESS (parms_ A))).
  assert (clockOf (freshPositions cutoff st).1 = clockOf st) as H1.
  { unfold freshPositions. apply (foldl_inv (fun r : Consensus * gmap Z Z => clockOf r.1 = clockOf st)); [done|].
    intros [s v] [n x] _ Hs. simpl in *. destruct (isStale cutoff x); [|done]. simpl. rewrite <- Hs.
    unfold clockOf. simpl. by destruct (result_ s). }
  destruct (freshPositions cutoff st) as [st1 votes]. simpl in H1. rewrite <- H1. clear H1.
  destruct (result_ st1) as [r|] eqn:Hr; [|done].
  assert (roundTime (reconsider A st1 r).1 = roundTime r) as H2.
  { unfold reconsider. apply (foldl_inv (fun x : Result * option TxSet => roundTime x.1 = roundTime r)); [done|].
    intros [r1 ns] [tx d] _ Hr1. simpl in *. destruct (updateVote _ _ _ _) as [[] d']; done. }
  destruct (reconsider A st1 r) as [r2 ns]. simpl in H2.
  assert (clockOf (chooseCloseTime A votes (closeTime (pos r2)) (set_result (Some r2) st1)).2 = clockOf st1) as H3.
  { unfold clockOf. rewrite Hr. destruct (chooseCloseTime_same A votes (closeTime (pos r2)) (set_result (Some r2) st1))
      as (_ & -> & _). simpl. by rewrite H2. }
  destruct (chooseCloseTime _ _ _ _) as [cct st3]. simpl in H3. rewrite <- H3.
  destruct (match ns with Some _ => _ | None => _ end); [apply adopt_clock|done].
Qed.

(** What a round relies on of its adaptor. *)
Record adaptor_ok (H : TxSet -> Z) (A : Adaptor) : Prop := {
  ad_hash : setID A = H;
  ad_onClose : forall l now m, position (onClose A l now m).2 = H (onClose A l now m).1;
}.

Lemma haveConsensus_accepted_well A st2 st3 st' :
  haveConsensus A st2 = (true, st3) -> haveCloseTimeConsensus_ st3 = true ->
  (forall r, result_ st2 = Some r -> ledgerMIN_CONSENSUS (parms_ A) <= dur_ (roundTime r)) ->
  result_ st' = result_ st3 -> mode_ st' = mode_ st3 -> currPeerPositions_ st' = currPeerPositions_ st3 ->
  haveCloseTimeConsensus_ st' = true -> peerUnchangedCounter_ st' = peerUnchangedCounter_ st3 ->
  (forall r, result_ st3 = Some r -> last (effects st') = Some (OnAccept r (previousLedger_ st') (mode_ st'))) ->
  exists r, accepted_well A st' r.
Proof.
  intros Hhc Hct Htime E1 E2 E3 E4 E5 Hlast.
  destruct (haveConsensus_true A st2 st3 Hhc) as (r & Hr & Ec & Eh & Hno & r' & Hr' & Hs & Ht & Hrt & Hp & Hyes).
  exists r'. split.
  - congruence.
  - rewrite Hrt. by apply Htime.
  - done.
  - congruence.
  - by apply Hlast.
  - intros Hparms Hst Hbound. rewrite Hst in Hs. symmetry in Hs. specialize (Hyes Hs). subst st3.
    simpl in *. simplify_eq.
    assert (peerCount st' = peerCount st2 /\ isProposing st' = isProposing st2
      /\ agreeing (set_state Yes r) st' = agreeing r st2
      /\ allStalled A st' (set_state Yes r) = allStalled A st2 r) as (F1 & F2 & F3 & F4).
    { unfold peerCount, isProposing, agreeing, allStalled, positions. simpl.
      rewrite E2, E3, E5, E4, <- Hct. unfold isProposing. by rewrite E2. }
    rewrite F1, F2, F3, F4 in *. rewrite Hparms in Hs.
    assert (agreeing r st2 <= peerCount st2) as Hle.
    { unfold agreeing, peerCount. rewrite <- length_map_to_list. apply inj_le.
      apply (sublist_length _ (positions st2)), sublist_filter. }
    apply checkConsensus_Yes_agreement in Hs; [done|unfold count, peerCount in *; lia|].
    unfold count. unfold agreeing at 1. lia.
Qed.

Lemma phaseEstablish_accepts H A st :
  adaptor_ok H A -> round_ok H none st ->
  phase_ st = establish -> phase_ (phaseEstablish A st) = accepted ->
  exists r, accepted_well A (phaseEstablish A st) r.
Proof.
  intros [Hh Ho] Hok Hph. unfold phaseEstablish. cbv zeta.
  match goal with |- context [set_convergePercent ?x ?s] => set (st1 := set_convergePercent x s) end.
  assert (phase_ st1 = establish /\ round_ok H none st1) as [H1 K1].
  { split; [done|]. destruct Hok as [P1 P2 P3 P4]. split; simpl; try done.
    - rewrite Hph in *. by rewrite fmap_is_Some.
    - intros r' (r & Hr & ->)%fmap_Some. by destruct (P4 r Hr). }
  clearbody st1. destruct (Z.ltb_spec (match result_ st1 with Some r => dur_ (roundTime r) | None => 0 end)
    (ledgerMIN_CONSENSUS (parms_ A))) as [|Htime]; [congruence|].
  pose proof (updateOurPositions_clock A st1) as Hclk.
  destruct (updateOurPositions_ok H A Hh Ho st1 K1 H1) as [[S1 _ _ _] K2].
  set (st2 := updateOurPositions A st1) in *. clearbody st2.
  destruct (shouldPause A st2); [congruence|].
  pose proof (haveConsensus_ok H A st2 K2) as K3.
  destruct (haveConsensus A st2) as [ok st3] eqn:Hhc. destruct K3 as (_ & S3 & _).
  destruct ok; simpl; [|congruence].
  destruct (haveCloseTimeConsensus_ st3) eqn:Hct; simpl; [|congruence].
  destruct (haveConsensus_true A st2 st3 Hhc) as (r & Hr & _ & _ & _ & r' & Hr' & _).
  rewrite Hr'. intros _. eapply (haveConsensus_accepted_well A st2 st3); try done.
  - intros r0 Hr0. unfold clockOf in Hclk. rewrite Hr0 in Hclk.
    destruct (result_ st1) as [r1|]; [|done]. simpl in Hclk. by injection Hclk as ->.
  - intros r0 Hr0. simpl. rewrite last_snoc. congruence.
Qed.

(** ** Agreement on the close time *)

Lemma tallyCloseTimes_spec votes threshVote threshConsensus :
  StronglySorted keyLt votes ->
  let '(best, v, have) := tallyCloseTimes votes threshVote threshConsensus in
  (best = 0 /\ have = false /\ Forall (fun tv => tv.2 < threshVote) votes)
  \/ ((best, v) ∈ votes /\ threshVote <= v /\ have = (threshConsensus <=? v)
      /\ Forall (fun tv => tv.2 < v \/ (tv.2 = v /\ tv.1 <= best)) votes).
Proof.
  intros Hs. unfold tallyCloseTimes.
  cut (forall l acc, StronglySorted keyLt (acc ++ l) -> forall best v have,
    (best = 0 /\ v = threshVote /\ have = false /\ Forall (fun tv : Z * Z => tv.2 < threshVote) acc)
    \/ ((best, v) ∈ acc /\ threshVote <= v /\ have = (threshConsensus <=? v)
      /\ Forall (fun tv => tv.2 < v \/ (tv.2 = v /\ tv.1 <= best)) acc) ->
    let '(best, v, have) := foldl (fun '(best, thresh, have) '(t, v) =>
      if thresh <=? v then (t, v, if threshConsensus <=? v then true else have)
      else (best, thresh, have)) (best, v, have) l in
    (best = 0 /\ have = false /\ Forall (fun tv => tv.2 < threshVote) (acc ++ l))
    \/ ((best, v) ∈ acc ++ l /\ threshVote <= v /\ have = (threshConsensus <=? v)
      /\ Forall (fun tv => tv.2 < v \/ (tv.2 = v /\ tv.1 <= best)) (acc ++ l))).
  { intros Hl. apply (Hl votes []); [done|]. by left. }
  induction l as [|[t w] l IH]; intros acc Hso best v have Hinv.
  - simpl. rewrite app_nil_r. naive_solver.
  - simpl. replace (acc ++ (t, w) :: l) with ((acc ++ [(t, w)]) ++ l) in * by by rewrite <- app_assoc.
    assert (Forall (fun tv => tv.1 < t) acc) as Hlt.
    { apply StronglySorted_app in Hso as (_ & Hso & _). apply StronglySorted_app in Hso as (Hx & _ & _).
      apply Forall_forall. intros y Hy. specialize (Hx y (t, w) Hy). apply Hx. by apply list_elem_of_singleton. }
    destruct (Z.leb_spec v w) as [Hle|Hgt].
    + apply IH; [done|]. right.
      assert (threshVote <= w) by naive_solver lia. split_and!; [set_solver|done| |].
      * destruct (Z.leb_spec threshConsensus w); [done|].
        destruct Hinv as [(_ & _ & -> & _)|(_ & _ & -> & _)]; [done|]. apply Z.leb_gt. lia.
      * apply Forall_app. split; [|forall_list; right; simpl; lia].
        apply Forall_forall. intros y Hy. rewrite Forall_forall in Hlt. specialize (Hlt y Hy).
        destruct Hinv as [(_ & -> & _ & Hf)|(_ & _ & _ & Hf)]; rewrite Forall_forall in Hf;
          specialize (Hf y Hy); simpl in *; lia.
    + apply IH; [done|]. destruct Hinv as [(-> & -> & -> & Hf)|(Hin & Hv & -> & Hf)].
      * left. split_and!; [done..|]. apply Forall_app. split; [done|]. by forall_list.
      * right. split_and!; [set_solver|done..|]. apply Forall_app. split; [done|].
        forall_list. left. simpl. lia.
Qed.

(** With any number of participants but two, the votes needed to declare
    agreement are a majority: at most one close time can have them. *)
Lemma closeTime_majority n :
  1 <= n -> n <> 2 -> n < 2 * participantsNeeded n (avCT_CONSENSUS_PCT parms).
Proof.
  intros H1 H2. unfold participantsNeeded. simpl avCT_CONSENSUS_PCT.
  change (Z.quot 75 2) with 37. rewrite Z.quot_div_nonneg by lia.
  pose proof (Z_div_mod_eq_full (n * 75 + 37) 100) as E.
  pose proof (Z.mod_pos_bound (n * 75 + 37) 100 ltac:(lia)).
  destruct (Z.eqb_spec ((n * 75 + 37) / 100) 0); lia.
Qed.

(** ** Runs *)

Inductive call :=
| StartRound (now prevLedgerID : Z) (prevLedger : Ledger) (nowUntrusted : gset Z) (isProposer : bool)
| PeerProposal (now : Z) (x : Proposal)
| TimerEntry (now : Z)
| GotTxSet (now : Z) (s : TxSet)
| Simulate (now : Z) (delay : option Z).

Definition perform_call (fuel : nat) (A : Adaptor) (c : call) (st : Consensus) : option Consensus :=
  match c with
  | StartRound now i l un pr => startRound A fuel now i l un pr st
  | PeerProposal now x => Some (peerProposal A now x st).2
  | TimerEntry now => timerEntry A fuel now st
  | GotTxSet now s => Some (gotTxSet A now s st)
  | Simulate now delay => Some (simulate A now delay st)
  end.

Fixpoint run_calls (fuel : nat) (cs : list (Adaptor * call)) (st : Consensus) : option Consensus :=
  match cs with
  | [] => Some st
  | (A, c) :: cs => perform_call fuel A c st ≫= run_calls fuel cs
  end.

Lemma newConsensus_ok H l : round_ok H none (newConsensus l).
Proof. split; simpl; try done. Qed.

Lemma perform_call_ok H A fuel c st st' :
  adaptor_ok H A -> round_ok H none st -> perform_call fuel A c st = Some st' -> round_ok H none st'.
Proof.
  intros [Hh Ho] Hok. destruct c; simpl.
  - intros Hs. by eapply startRound_ok in Hs as [? _].
  - intros [= <-]. unfold peerProposal.
    apply peerProposalInternal_ok; [done|]. by apply (round_ok_same _ _ st).
  - intros Hs. by eapply timerEntry_ok in Hs as [? _].
  - intros [= <-]. by apply gotTxSet_ok.
  - intros [= <-]. by apply simulate_ok.
Qed.

Lemma run_calls_ok H fuel cs st st' :
  Forall (fun ac => adaptor_ok H ac.1) cs -> round_ok H none st ->
  run_calls fuel cs st = Some st' -> round_ok H none st'.
Proof.
  intros Hcs. revert st. induction Hcs as [|[A c] cs Hc _ IH]; intros st Hok; simpl; [by intros [= <-]|].
  destruct (perform_call fuel A c st) as [st1|] eqn:E; [|done]. simpl.
  apply IH. by eapply perform_call_ok.
Qed.
