(* ===== verification/ConsensusProperties.v ===== *)
(** * Properties of the consensus round

    Theorems on arbitrary sequences of calls to [Consensus], with a concrete
    round of a proposer and three peers that ends in acceptance. *)

From S2P Require Import Prelude ConsensusParms LedgerTiming DisputedTx ConsensusRules.
From S2P Require Import ConsensusProposal Consensus ConsensusFacts ConsensusRounds.

(** The adaptor names one ledger of the network throughout the call, and finds
    ledgers by their identifiers. *)
Definition steady (A : Adaptor) : Prop :=
  exists net, (forall i l m, getPrevLedger A i l m = net) /\
              (forall i l, acquireLedger A i = Some l -> ledger_id l = i).

Lemma perform_call_total A c st : steady A -> is_Some (perform_call 2 A c st).
Proof.
  intros (net & Hn & Ha). destruct c; cbn [perform_call]; eauto.
  - by apply (startRound_total A net).
  - by apply (timerEntry_total A net).
Qed.

Lemma run_calls_total cs : forall st,
  Forall (fun ac => steady ac.1) cs -> is_Some (run_calls 2 cs st).
Proof.
  induction cs as [|[A c] cs IH]; intros st Hcs; cbn [run_calls]; [eauto|].
  apply Forall_cons in Hcs as [Hc Hcs].
  destruct (perform_call_total A c st Hc) as [st1 ->]. cbn. by apply IH.
Qed.

(** ** A concrete round *)

Module RoundExample.

Definition hash (s : TxSet) : Z := foldr Z.add 0 (elements s).

Definition base : Ledger := {|
  ledger_id := 100; ledger_seq := 7; closeTimeResolution := 30; closeAgree := true;
  ledgerCloseTime := 990; parentCloseTime := 980 |}.

Definition proposal (node seq t : Z) (s : TxSet) : Proposal := {|
  previousLedger := 100; position := hash s; closeTime := t; time_ := t;
  proposeSeq := seq; nodeID := node |}.

(** The adaptor at [ms] milliseconds; our open ledger holds 1 and 2. *)
Definition adaptor (ms : Z) : Adaptor := {|
  parms_ := parms; clock_now := ms * 1000000; setID := hash;
  acquireLedger i := if i =? 100 then Some base else None;
  acquireTxSet _ := None; hasOpenTransactions := true;
  proposersValidated _ := 0; proposersFinished _ _ := 0;
  getPrevLedger _ _ _ := 100;
  onClose _ now _ := ({[1; 2]}, proposal 0 0 now {[1; 2]});
  getValidLedgerIndex := 6; getQuorumKeys := (3, ∅);
  adaptor_laggards _ keys := (0, keys); validator := true; haveValidated := true |}.

Definition opening : list (Adaptor * call) :=
  [(adaptor 0, StartRound 1000 100 base ∅ true);
   (adaptor 100, PeerProposal 1000 (proposal 11 0 1000 {[1; 2]}));
   (adaptor 10000, TimerEntry 1010)].

Definition voting : list (Adaptor * call) :=
  opening ++
  [(adaptor 10100, PeerProposal 1010 (proposal 11 1 1010 {[1; 2]}));
   (adaptor 10200, PeerProposal 1010 (proposal 12 0 1010 {[1; 2]}));
   (adaptor 10300, PeerProposal 1010 (proposal 13 0 1010 {[1; 2]}))].

Definition after (cs : list (Adaptor * call)) : Consensus :=
  default (newConsensus base) (run_calls 2 cs (newConsensus base)).

Lemma adaptor_is_ok ms : adaptor_ok hash (adaptor ms).
Proof. by split. Qed.

Lemma adaptor_steady ms : steady (adaptor ms).
Proof.
  exists 100. split; [done|]. intros i l. cbn. destruct (Z.eqb_spec i 100) as [->|]; [|done].
  by intros [= <-].
Qed.

End RoundExample.
Import RoundExample.

(** ** Properties *)

(** C3: between any two calls the round is consistent, whatever the peers, the
    timer and the application do, as long as the adaptor hashes sets as it
    names them.  There is no result while the ledger is open, one in the
    establish phase, and one in the accepted phase once a first round has been
    started.  The peers' positions belong to this round and to peers that have
    not bowed out, transaction sets are filed under their hashes, our own set is
    one of them and our position names it.  Each dispute records our vote, its
    counts are those of the votes it holds, only peers with a position in the
    round have votes, and every such peer whose current set is known has the
    vote of that set.  Nothing is said of the vote of a peer whose current set
    is not known: the code leaves what an earlier set of that peer gave. *)
Theorem round_invariant (H : TxSet -> Z) (fuel : nat) (cs : list (Adaptor * call)) (l : Ledger)
    (st : Consensus)
    (Hadaptor : Forall (fun ac => adaptor_ok H ac.1) cs)
    (Hrun : run_calls fuel cs (newConsensus l) = Some st) :
  round_ok H none st.
Proof. eapply run_calls_ok; [done|apply newConsensus_ok|done]. Qed.

Lemma timerEntry_more A fuel now st st' k :
  timerEntry A fuel now st = Some st' -> timerEntry A (k + fuel) now st = Some st'.
Proof. induction k as [|k IH]; [done|]. intros Hs. by apply timerEntry_fuel, IH. Qed.

(** C21: the calls terminate.  [timerEntry] can restart the round, which calls
    [timerEntry] again; when the adaptor names one network ledger throughout
    the call, the recursion is at most two deep: with any fuel from two on the
    timer returns, and always the same state; and so do all calls of a run. *)
Theorem calls_terminate (A : Adaptor) (now : Z) (st : Consensus) (cs : list (Adaptor * call))
    (Hsteady : steady A) (Hsteadies : Forall (fun ac => steady ac.1) cs) :
  (exists st', forall k, timerEntry A (k + 2) now st = Some st') /\ is_Some (run_calls 2 cs st).
Proof.
  split; [|by apply run_calls_total]. destruct Hsteady as (net & Hn & Ha).
  destruct (timerEntry_total A net Hn Ha 0 now st) as [st' Hs].
  exists st'. intros k. by apply timerEntry_more.
Qed.

(** C18: a ledger is accepted only for cause.  When the establish phase of a
    reachable round ends, the minimum consensus time is over, the close time is
    agreed, the decision is not [No] and the result goes to the adaptor; and if
    the decision is [Yes], at least 67 percent of the participants share our
    position, or there are no peers, or every dispute is stalled. *)
Theorem acceptance_justified (H : TxSet -> Z) (fuel : nat) (cs : list (Adaptor * call)) (l : Ledger)
    (st : Consensus) (A : Adaptor)
    (Hadaptor : Forall (fun ac => adaptor_ok H ac.1) cs) (HA : adaptor_ok H A)
    (Hrun : run_calls fuel cs (newConsensus l) = Some st)
    (Hphase : phase_ st = establish) (Haccept : phase_ (phaseEstablish A st) = accepted) :
  exists r, accepted_well A (phaseEstablish A st) r.
Proof.
  eapply phaseEstablish_accepts; [done| |done|done].
  eapply run_calls_ok; [done|apply newConsensus_ok|done].
Qed.

(** A node that is not proposing makes no proposals: the timer neither puts
    it into proposing mode nor broadcasts a position of ours. *)
Theorem observer_stays_silent (A : Adaptor) (fuel : nat) (now : Z) (st st' : Consensus)
    (Hrun : timerEntry A fuel now st = Some st') (Hmode : mode_ st <> proposing) :
  mode_ st' <> proposing /\
  exists new, effects st' = effects st ++ new /\ Forall notProposal new.
Proof. destruct (timerEntry_silent A fuel now st st' Hrun) as [H1 H2]. auto. Qed.

(** Agreement on the close time is agreement of a majority.  With any number
    of participants but two, the close time on which the tally declares
    consensus has the votes of more than half of them, and of two close times
    with the same votes it is the later one. *)
Theorem closeTime_consensus_majority (votes : list (Z * Z)) (n threshVote best v : Z)
    (Hsorted : StronglySorted keyLt votes) (Hn : 1 <= n) (Htwo : n <> 2)
    (Htally : tallyCloseTimes votes threshVote (participantsNeeded n (avCT_CONSENSUS_PCT parms))
              = (best, v, true)) :
  (best, v) ∈ votes /\ n < 2 * v /\
  Forall (fun tv => tv.2 < v \/ (tv.2 = v /\ tv.1 <= best)) votes.
Proof.
  pose proof (tallyCloseTimes_spec votes threshVote
    (participantsNeeded n (avCT_CONSENSUS_PCT parms)) Hsorted) as Hs.
  rewrite Htally in Hs. destruct Hs as [(_ & ? & _)|(Hin & _ & Hle & Hall)]; [done|].
  pose proof (closeTime_majority n Hn Htwo). symmetry in Hle. b2p. split; [done|]. split; [lia|done].
Qed.

(** With two participants one vote is enough: a second, different close time
    with as many votes does not prevent the declaration of consensus. *)
Theorem closeTime_consensus_of_two :
  tallyCloseTimes [(1000, 1); (1030, 1)] 1 (participantsNeeded 2 (avCT_CONSENSUS_PCT parms))
  = (1030, 1, true).
Proof. reflexivity. Qed.

(** ** Witnesses *)

Lemma round_invariant_witness :
  exists st, run_calls 2 voting (newConsensus base) = Some st /\ phase_ st = establish /\
  round_ok hash none st.
Proof.
  exists (after voting). split; [vm_compute; reflexivity|]. split; [vm_compute; reflexivity|].
  apply (round_invariant hash 2 voting base); [|vm_compute; reflexivity].
  repeat constructor.
Defined.

Lemma calls_terminate_witness :
  (exists st', forall k, timerEntry (adaptor 12100) (k + 2) 1012 (after voting) = Some st') /\
  is_Some (run_calls 2 voting (newConsensus base)).
Proof.
  split.
  - apply (calls_terminate (adaptor 12100) 1012 (after voting) []); [apply adaptor_steady|constructor].
  - apply (calls_terminate (adaptor 0) 0 (newConsensus base) voting); [apply adaptor_steady|].
    repeat constructor; apply adaptor_steady.
Defined.

Lemma acceptance_justified_witness :
  exists r, accepted_well (adaptor 12100) (phaseEstablish (adaptor 12100) (after voting)) r.
Proof.
  apply (acceptance_justified hash 2 voting base (after voting) (adaptor 12100));
    [repeat constructor|by split|vm_compute; reflexivity..].
Defined.

Lemma observer_stays_silent_witness :
  let st := after [(adaptor 0, StartRound 1000 100 base ∅ false)] in
  exists st', timerEntry (adaptor 10000) 2 1010 st = Some st' /\
  phase_ st' = establish /\ mode_ st' <> proposing /\
  exists new, effects st' = effects st ++ new /\ Forall notProposal new.
Proof.
  intros st. eexists. split; [vm_compute; reflexivity|]. split; [reflexivity|].
  eapply (observer_stays_silent (adaptor 10000) 2 1010 st); [vm_compute; reflexivity|].
  vm_compute. done.
Defined.

Lemma closeTime_consensus_majority_witness :
  tallyCloseTimes [(1000, 1); (1030, 4)] 3 (participantsNeeded 5 (avCT_CONSENSUS_PCT parms))
    = (1030, 4, true) /\ 5 < 2 * 4.
Proof.
  split; [reflexivity|].
  apply (closeTime_consensus_majority [(1000, 1); (1030, 4)] 5 3 1030 4); [|done..].
  repeat constructor.
Defined.
