(* ===== verification/RemoteFetcher.v ===== *)
(** * Remote exclusion lists

    Models [RemoteExclusionListFetcher.h/.cpp]: the lists cached per source,
    the combined set of addresses, the flags a validator consults before it
    proposes changes, and the callbacks of the asynchronous requests.  The
    transport, the JSON reader and the signature schemes are arguments of the
    operations that call them.  [mutex_] is a [std::mutex], which its owner may
    not lock again: an operation that would do so is [None]. *)

From stdpp Require Import strings.
From S2P Require Import Prelude.

Record ExclusionEntry := { address : Z; entry_reason : string; entry_dateAdded : string }.

Record ExclusionList := {
  version : string;
  timestamp : string;
  issuerAddress : Z;
  blacklist : list ExclusionEntry;
  verified : bool;
}.

Record Source := { url : string; pubkey : string }.

Record SourceResult := {
  success : bool;
  result_list : option ExclusionList;
  errorMessage : string;
}.

Definition pending : SourceResult :=
  {| success := false; result_list := None; errorMessage := EmptyString |}.

Record Fetcher := mkFetcher {
  cachedLists_ : gmap string ExclusionList;
  combinedExclusions_ : gset Z;
  fetchResults_ : list SourceResult;
  running_ : bool;
  fetching_ : bool;
  stopping_ : bool;
  hasModifications_ : bool;
  allSourcesAccessible_ : bool;
  initialFetchComplete_ : bool;
  lastUpdateTime_ : Z;
  lastSuccessfulFetchTime_ : Z;
}.

Definition newFetcher (sources : list Source) : Fetcher :=
  mkFetcher ∅ ∅ (replicate (length sources) pending) false false false false false false 0 0.

Definition set_results (r : list SourceResult) (f : Fetcher) : Fetcher :=
  mkFetcher (cachedLists_ f) (combinedExclusions_ f) r (running_ f) (fetching_ f) (stopping_ f)
    (hasModifications_ f) (allSourcesAccessible_ f) (initialFetchComplete_ f)
    (lastUpdateTime_ f) (lastSuccessfulFetchTime_ f).

Definition set_fetching (b : bool) (f : Fetcher) : Fetcher :=
  mkFetcher (cachedLists_ f) (combinedExclusions_ f) (fetchResults_ f) (running_ f) b (stopping_ f)
    (hasModifications_ f) (allSourcesAccessible_ f) (initialFetchComplete_ f)
    (lastUpdateTime_ f) (lastSuccessfulFetchTime_ f).

Definition set_running (r s : bool) (f : Fetcher) : Fetcher :=
  mkFetcher (cachedLists_ f) (combinedExclusions_ f) (fetchResults_ f) r (fetching_ f) s
    (hasModifications_ f) (allSourcesAccessible_ f) (initialFetchComplete_ f)
    (lastUpdateTime_ f) (lastSuccessfulFetchTime_ f).

Definition set_accessible (b : bool) (f : Fetcher) : Fetcher :=
  mkFetcher (cachedLists_ f) (combinedExclusions_ f) (fetchResults_ f) (running_ f) (fetching_ f)
    (stopping_ f) (hasModifications_ f) b (initialFetchComplete_ f)
    (lastUpdateTime_ f) (lastSuccessfulFetchTime_ f).

Definition set_initial (f : Fetcher) : Fetcher :=
  mkFetcher (cachedLists_ f) (combinedExclusions_ f) (fetchResults_ f) (running_ f) (fetching_ f)
    (stopping_ f) (hasModifications_ f) (allSourcesAccessible_ f) true
    (lastUpdateTime_ f) (lastSuccessfulFetchTime_ f).

Definition addresses (x : ExclusionList) : list Z := address <$> blacklist x.

(** The addresses of the verified lists. *)
Definition combined (lists : gmap string ExclusionList) : gset Z :=
  foldl (fun s x => if verified x then s ∪ list_to_set (addresses x) else s) ∅
    (map_to_list lists).*2.

Definition updateCombinedExclusions (now : Z) (f : Fetcher) : Fetcher :=
  let newCombined := combined (cachedLists_ f) in
  if decide (newCombined = combinedExclusions_ f) then f
  else
    mkFetcher (cachedLists_ f) newCombined (fetchResults_ f) (running_ f) (fetching_ f) (stopping_ f)
      (if allSourcesAccessible_ f then true else hasModifications_ f)
      (allSourcesAccessible_ f) (initialFetchComplete_ f)
      (if allSourcesAccessible_ f then now else lastUpdateTime_ f)
      (lastSuccessfulFetchTime_ f).

(** [cachedLists_ = newLists; allSourcesAccessible_ = true; ...] *)
Definition install (lists : gmap string ExclusionList) (now : Z) (f : Fetcher) : Fetcher :=
  mkFetcher lists (combinedExclusions_ f) (fetchResults_ f) (running_ f) (fetching_ f) (stopping_ f)
    (hasModifications_ f) true (initialFetchComplete_ f) (lastUpdateTime_ f) now.

Definition discard (f : Fetcher) : Fetcher :=
  mkFetcher ∅ ∅ (fetchResults_ f) (running_ f) (fetching_ f) (stopping_ f)
    (hasModifications_ f) false (initialFetchComplete_ f) (lastUpdateTime_ f)
    (lastSuccessfulFetchTime_ f).

(** The list a source delivered: [result.success && result.list]. *)
Definition delivered (r : SourceResult) : option ExclusionList :=
  if success r then result_list r else None.

Definition newLists (sources : list Source) (results : list SourceResult)
    : gmap string ExclusionList :=
  foldl (fun m '(s, r) => match delivered r with Some x => <[url s := x]> m | None => m end)
    ∅ (zip sources results).

Definition successCount (results : list SourceResult) : nat :=
  length (omap delivered results).

Definition allSuccessful (results : list SourceResult) : bool :=
  forallb (fun r => bool_decide (is_Some (delivered r))) results.

Definition onAllFetchesComplete (sources : list Source) (now : Z) (locked : bool) (f : Fetcher)
    : option Fetcher :=
  if locked then None
  else
    let f1 :=
      if allSuccessful (fetchResults_ f)
      then updateCombinedExclusions now (install (newLists sources (fetchResults_ f)) now f)
      else if initialFetchComplete_ f && (0 <? successCount (fetchResults_ f))%nat
      then set_accessible false f
      else if negb (initialFetchComplete_ f) then discard f
      else f in
    Some (set_fetching false (set_initial f1)).

(** A request is outstanding while it has neither succeeded nor failed. *)
Definition outstanding (r : SourceResult) : bool :=
  negb (success r) && bool_decide (errorMessage r = EmptyString).

Definition checkAllFetchesComplete (sources : list Source) (now : Z) (locked : bool) (f : Fetcher)
    : option Fetcher :=
  if existsb outstanding (fetchResults_ f) then Some f
  else onAllFetchesComplete sources now locked f.

Definition failed (message : string) (r : SourceResult) : SourceResult :=
  {| success := false; result_list := result_list r; errorMessage := message |}.

Definition update_result (i : nat) (g : SourceResult -> SourceResult) (f : Fetcher) : Fetcher :=
  set_results (alter g i (fetchResults_ f)) f.

Section Requests.

Context (sources : list Source).
Context (parseExclusionList : string -> option ExclusionList).
Context (verifySignature : ExclusionList -> string -> string -> bool).

Definition mark_verified (x : ExclusionList) : ExclusionList :=
  {| version := version x; timestamp := timestamp x; issuerAddress := issuerAddress x;
     blacklist := blacklist x; verified := true |}.

(** What [onTextFetch] records for the source; [ec] is the error of the read. *)
Definition textResult (ec : option string) (res : string) (i : nat) (r : SourceResult)
    : SourceResult :=
  match ec with
  | Some message => failed message r
  | None =>
      match parseExclusionList res, sources !! i with
      | Some x, Some s =>
          if verifySignature x (pubkey s) res
          then {| success := true; result_list := Some (mark_verified x);
                  errorMessage := errorMessage r |}
          else failed "Parse/verify failed" r
      | _, _ => failed "Parse/verify failed" r
      end
  end.

Definition onTextFetch (now : Z) (ec : option string) (res : string) (i : nat) (f : Fetcher)
    : option Fetcher :=
  checkAllFetchesComplete sources now false (update_result i (textResult ec res i) f).

(** [status] is the HTTP status of the response, as an integer with its text. *)
Definition onFetchComplete (now : Z) (ec : option string) (status : Z) (statusText res : string)
    (i : nat) (f : Fetcher) : option Fetcher :=
  match ec with
  | Some message =>
      checkAllFetchesComplete sources now false (update_result i (failed message) f)
  | None =>
      if status =? 200 then onTextFetch now None res i f
      else checkAllFetchesComplete sources now false
             (update_result i (failed ("HTTP " +:+ statusText)) f)
  end.

(** [makeRequest] either starts a request or throws, with the message. *)
Context (makeRequest : Source -> option string).

Definition fetchFromSource (now : Z) (locked : bool) (s : Source) (i : nat) (f : Fetcher)
    : option Fetcher :=
  match makeRequest s with
  | None => Some f
  | Some message =>
      checkAllFetchesComplete sources now locked (update_result i (failed message) f)
  end.

Definition fetchAllLists (now : Z) (locked : bool) (f : Fetcher) : option Fetcher :=
  if fetching_ f then Some f
  else
    foldl (fun o '(i, s) => o ≫= fetchFromSource now locked s i)
      (Some (set_results (replicate (length sources) pending) (set_fetching true f)))
      (imap pair sources).

(** [start] holds [mutex_] while the first requests are made. *)
Definition start (now : Z) (f : Fetcher) : option Fetcher :=
  if running_ f then Some f
  else match sources with
  | [] => Some f
  | _ => fetchAllLists now true (set_running true false f)
  end.

End Requests.

(** [stop], once the requests in flight have completed. *)
Definition stop (f : Fetcher) : Fetcher := if running_ f then set_running false true f else f.

Definition hasBeenModified (resetFlag : bool) (f : Fetcher) : bool * Fetcher :=
  (hasModifications_ f,
   if resetFlag then
     mkFetcher (cachedLists_ f) (combinedExclusions_ f) (fetchResults_ f) (running_ f) (fetching_ f)
       (stopping_ f) false (allSourcesAccessible_ f) (initialFetchComplete_ f)
       (lastUpdateTime_ f) (lastSuccessfulFetchTime_ f)
   else f).

Definition getExclusionReasons (f : Fetcher) : gmap Z (string * string) :=
  foldl (fun m x =>
      if verified x
      then foldl (fun m e => <[address e := (entry_reason e, entry_dateAdded e)]> m) m (blacklist x)
      else m)
    ∅ (map_to_list (cachedLists_ f)).*2.

(** ** Only signed lists are used *)

Section Authentic.

Context (sources : list Source).
Context (parse : string -> option ExclusionList).
Context (verify : ExclusionList -> string -> string -> bool).
Context (makeRequest : Source -> option string).

(** The responses that arrived: the index of the source and the text. *)
Context (got : list (nat * string)).

(** [x] was parsed from a response of the source with index [i], whose signature
    was verified with the key configured for that source. *)
Definition authentic (i : nat) (x : ExclusionList) : Prop :=
  exists res y s, (i, res) ∈ got /\ sources !! i = Some s /\ parse res = Some y /\
    verify y (pubkey s) res = true /\ x = mark_verified y.

(** A cached list is that of a source with this URL. *)
Definition authenticAt (u : string) (x : ExclusionList) : Prop :=
  exists i s, sources !! i = Some s /\ url s = u /\ authentic i x.

Definition results_ok (results : list SourceResult) : Prop :=
  forall i r x, results !! i = Some r -> result_list r = Some x -> authentic i x.

Record fetcher_ok (f : Fetcher) : Prop := {
  fo_cached : map_Forall authenticAt (cachedLists_ f);
  fo_results : results_ok (fetchResults_ f);
  fo_combined : combinedExclusions_ f = combined (cachedLists_ f);
  fo_initial : initialFetchComplete_ f = false -> allSourcesAccessible_ f = false;
}.

Lemma pending_ok n : results_ok (replicate n pending).
Proof. intros i r x [-> _]%lookup_replicate. done. Qed.

Lemma newFetcher_ok : fetcher_ok (newFetcher sources).
Proof. split; try done. apply pending_ok. Qed.

Lemma newLists_authentic results :
  results_ok results -> map_Forall authenticAt (newLists sources results).
Proof.
  intros Hr. unfold newLists. apply foldl_inv; [apply map_Forall_empty|].
  intros m [s r] Hin Hm. apply list_elem_of_lookup in Hin as [i Hi].
  apply lookup_zip_Some in Hi as [Hs Hi]. cbn in Hs, Hi.
  unfold delivered. destruct (success r); [|done]. destruct (result_list r) as [x|] eqn:E; [|done].
  apply map_Forall_insert_2; [|done]. exists i, s. split_and!; [done..|]. by apply (Hr i r).
Qed.

Lemma updateCombinedExclusions_spec now f :
  cachedLists_ (updateCombinedExclusions now f) = cachedLists_ f /\
  fetchResults_ (updateCombinedExclusions now f) = fetchResults_ f /\
  allSourcesAccessible_ (updateCombinedExclusions now f) = allSourcesAccessible_ f /\
  initialFetchComplete_ (updateCombinedExclusions now f) = initialFetchComplete_ f /\
  combinedExclusions_ (updateCombinedExclusions now f) = combined (cachedLists_ f).
Proof. unfold updateCombinedExclusions. by case_decide. Qed.

Lemma onAllFetchesComplete_ok now locked f f' :
  fetcher_ok f -> onAllFetchesComplete sources now locked f = Some f' -> fetcher_ok f'.
Proof.
  intros [Hc Hr Hb Hi] E. unfold onAllFetchesComplete in E.
  destruct locked; [done|]. injection E as <-.
  destruct (allSuccessful _).
  - pose proof (updateCombinedExclusions_spec now
      (install (newLists sources (fetchResults_ f)) now f)) as (E1 & E2 & E3 & E4 & E5).
    cbn in E1, E2, E3, E4, E5. split; cbn; rewrite ?E1, ?E2, ?E3, ?E4, ?E5; try done.
    by apply newLists_authentic.
  - destruct (initialFetchComplete_ f) eqn:Ei; cbn; [|by split].
    destruct (successCount _); by split.
Qed.

Lemma checkAllFetchesComplete_ok now locked f f' :
  fetcher_ok f -> checkAllFetchesComplete sources now locked f = Some f' -> fetcher_ok f'.
Proof.
  intros Hf. unfold checkAllFetchesComplete.
  destruct (existsb _ _); [by intros [= <-]|]. by apply onAllFetchesComplete_ok.
Qed.

Lemma update_result_ok i g f :
  (forall r, (forall x, result_list r = Some x -> authentic i x) ->
     forall x, result_list (g r) = Some x -> authentic i x) ->
  fetcher_ok f -> fetcher_ok (update_result i g f).
Proof.
  intros Hg [Hc Hr Hb Hi]. split; try done. cbn. intros j r x. destruct (decide (i = j)) as [<-|Hne].
  - rewrite list_lookup_alter_eq. intros (r0 & Hr0 & ->)%fmap_Some. apply Hg. intros y. by apply (Hr i).
  - rewrite list_lookup_alter_ne by done. apply Hr.
Qed.

Lemma textResult_authentic ec res i r :
  (ec = None -> (i, res) ∈ got) -> (forall x, result_list r = Some x -> authentic i x) ->
  forall x, result_list (textResult sources parse verify ec res i r) = Some x -> authentic i x.
Proof.
  intros Hgot Hr x. unfold textResult. destruct ec; [by apply Hr|].
  destruct (parse res) as [y|] eqn:Ep; [|by apply Hr].
  destruct (sources !! i) as [s|] eqn:Es; [|by apply Hr].
  destruct (verify _ _ _) eqn:Ev; [|by apply Hr].
  intros [= <-]. exists res, y, s. split_and!; try done. by apply Hgot.
Qed.

Lemma fetchAllLists_ok now locked f f' :
  fetcher_ok f -> fetchAllLists sources makeRequest now locked f = Some f' -> fetcher_ok f'.
Proof.
  intros Hf. unfold fetchAllLists. destruct (fetching_ f); [by intros [= <-]|].
  assert (forall o, (forall f, o = Some f -> fetcher_ok f) -> forall l,
    forall f', foldl (fun o '(i, s) => o ≫= fetchFromSource sources makeRequest now locked s i)
      o l = Some f' -> fetcher_ok f') as Hloop.
  { intros o Ho l. revert o Ho. induction l as [|[i s] l IH]; intros o Ho; [done|]. cbn.
    apply IH. intros g Hg. apply bind_Some in Hg as (f1 & -> & Hg).
    unfold fetchFromSource in Hg. destruct (makeRequest s); [|injection Hg as <-; by apply Ho].
    eapply checkAllFetchesComplete_ok; [|done]. apply update_result_ok; [by intros ?|by apply Ho]. }
  apply Hloop. intros g [= <-]. destruct Hf as [Hc Hr Hb Hi].
  split; try done. apply pending_ok.
Qed.

(** What happens to a fetcher: its owner calls it, or a request completes. *)
Inductive event :=
| Start (now : Z)
| Timer (now : Z)
| File (now : Z) (ec : option string) (res : string) (i : nat)
| Http (now : Z) (ec : option string) (status : Z) (statusText res : string) (i : nat)
| Poll (resetFlag : bool)
| Stop.

Definition occur (e : event) (f : Fetcher) : option Fetcher :=
  match e with
  | Start now => start sources makeRequest now f
  | Timer now =>
      if negb (running_ f) || stopping_ f then Some f
      else fetchAllLists sources makeRequest now false f
  | File now ec res i => onTextFetch sources parse verify now ec res i f
  | Http now ec status text res i => onFetchComplete sources parse verify now ec status text res i f
  | Poll resetFlag => Some (snd (hasBeenModified resetFlag f))
  | Stop => Some (stop f)
  end.

(** The response that an event delivers, if it does. *)
Definition arrived (e : event) : option (nat * string) :=
  match e with
  | File _ None res i => Some (i, res)
  | Http _ None status _ res i => if status =? 200 then Some (i, res) else None
  | _ => None
  end.

Lemma occur_ok e f f' :
  (forall p, arrived e = Some p -> p ∈ got) -> fetcher_ok f -> occur e f = Some f' -> fetcher_ok f'.
Proof.
  intros Hgot Hf. destruct e as [now|now|now ec res i|now ec status text res i|b|]; cbn.
  - unfold start. destruct (running_ f); [by intros [= <-]|].
    destruct sources eqn:Es; [by intros [= <-]|]. rewrite <- Es.
    apply fetchAllLists_ok. by destruct Hf; split.
  - destruct (_ || _); [by intros [= <-]|]. by apply fetchAllLists_ok.
  - apply checkAllFetchesComplete_ok, update_result_ok; [|done]. intros r.
    apply textResult_authentic. intros ->. by apply Hgot.
  - unfold onFetchComplete. destruct ec.
    { apply checkAllFetchesComplete_ok, update_result_ok; [by intros ?|done]. }
    cbn in Hgot. destruct (status =? 200); apply checkAllFetchesComplete_ok, update_result_ok; try done.
    intros r. apply textResult_authentic. intros _. by apply Hgot.
  - intros [= <-]. destruct b; by destruct Hf; split.
  - intros [= <-]. unfold stop. destruct (running_ f); by destruct Hf; split.
Qed.

Definition history (es : list event) : option Fetcher :=
  foldl (fun o e => o ≫= occur e) (Some (newFetcher sources)) es.

Lemma history_ok es f :
  (forall p, p ∈ omap arrived es -> p ∈ got) -> history es = Some f -> fetcher_ok f.
Proof.
  unfold history. generalize newFetcher_ok. generalize (newFetcher sources).
  induction es as [|e es IH]; cbn; intros f0 Hf0 Hgot; [by intros [= <-]|].
  destruct (occur e f0) as [f1|] eqn:E.
  - apply IH; [eapply occur_ok; [|done..]|]; intros p Hp; apply Hgot; [rewrite Hp; by left|].
    destruct (arrived e); [by right|done].
  - clear. induction es; [done|]. done.
Qed.

Lemma combined_elem lists a :
  a ∈ combined lists <-> exists x, (exists u, lists !! u = Some x) /\ verified x = true /\ a ∈ addresses x.
Proof.
  unfold combined.
  assert (forall l (s : gset Z),
    a ∈ foldl (fun s x => if verified x then s ∪ list_to_set (addresses x) else s) s l <->
    a ∈ s \/ exists x, x ∈ l /\ verified x = true /\ a ∈ addresses x) as Hl.
  { induction l as [|x l IH]; intros s; cbn.
    { split; [by left|]. intros [?|(x & Hx & _)]; [done|]. by apply elem_of_nil in Hx. }
    rewrite IH. setoid_rewrite elem_of_cons.
    destruct (verified x) eqn:E; rewrite ?elem_of_union, ?elem_of_list_to_set; split.
    - intros [[?|?]|(y & ? & ?)]; [by left|right; by exists x; auto|right; exists y; auto].
    - intros [?|(y & [->|?] & ? & ?)]; auto. right. by exists y.
    - intros [?|(y & ? & ?)]; [by left|right; exists y; auto].
    - intros [?|(y & [->|?] & ? & ?)]; [by left|congruence|]. right. by exists y. }
  rewrite Hl. split.
  - intros [Hx|(x & Hx & ?)]; [by apply not_elem_of_empty in Hx|]. exists x. split; [|done].
    apply list_elem_of_fmap in Hx as ([u y] & -> & Hx). apply elem_of_map_to_list in Hx. by exists u.
  - intros (x & [u Hu] & ?). right. exists x. split; [|done].
    apply list_elem_of_fmap. exists (u, x). split; [done|]. by apply elem_of_map_to_list.
Qed.

Lemma combined_authentic f a :
  fetcher_ok f -> a ∈ combinedExclusions_ f ->
  exists i s res y, sources !! i = Some s /\ (i, res) ∈ got /\ parse res = Some y /\
    verify y (pubkey s) res = true /\ a ∈ addresses y /\ cachedLists_ f !! url s = Some (mark_verified y).
Proof.
  intros [Hc _ -> _] Ha. apply combined_elem in Ha as (x & [u Hu] & Hv & Hx).
  pose proof Hu as (i & s & Hs & <- & res & y & s' & ? & Hs' & ? & ? & ->)%Hc.
  assert (s' = s) as -> by congruence. exists i, s, res, y. by split_and!.
Qed.

End Authentic.
