(* ===== verification/ExclusionManager.v ===== *)
(** * The cache of excluded accounts

    Models [ExclusionManager.h/.cpp]: the exclusion list of every validator
    that has one, how many lists name each account, and the accounts named by
    enough of them, which [isExcluded] reports to the transaction checks.
    Accounts and public keys are integers; a [std::size_t] that counts entries
    of a container in memory is an unbounded integer. *)

From stdpp Require Import strings.
From S2P Require Import Prelude ConsensusParms RemoteFetcher.

(** ** What the cache reads of a ledger *)

(** An [AccountRoot] with its optional [sfExclusionList], each of whose entries
    has an optional [sfAccount]. *)
Record AccountRoot := {
  Balance : Z;
  Sequence : Z;
  OwnerCount : Z;
  exclusionList : option (list (option Z));
}.

Record Rules := {
  validatorVoteTracking : bool;
  accountExclusion : bool;
  deletableAccounts : bool;
}.

Record ReadView := { rules : Rules; accounts : gmap Z AccountRoot }.

(** The accounts an exclusion list names, in its order. *)
Definition named (entries : list (option Z)) : list Z := omap id entries.

Definition listOf (root : AccountRoot) : list (option Z) := default [] (exclusionList root).

(** ** State *)

Record ExclusionInfo := { reason : string; dateAdded : string; voteCount : Z }.

Record ExclusionManager := mkManager {
  validatorExclusions_ : gmap Z (gset Z);
  exclusionCounts_ : gmap Z Z;
  consensusExcluded_ : gset Z;
  exclusionInfoMap_ : gmap Z ExclusionInfo;
  remoteFetcher_ : bool;
  totalValidators_ : Z;
  initialized_ : bool;
}.

Definition newManager : ExclusionManager := mkManager ∅ ∅ ∅ ∅ false 0 false.

Definition isExcluded (account : Z) (m : ExclusionManager) : bool :=
  if initialized_ m then bool_decide (account ∈ consensusExcluded_ m) else false.

Definition isInitialized (m : ExclusionManager) : bool := initialized_ m.

Definition getConsensusThreshold (m : ExclusionManager) : Z :=
  if totalValidators_ m =? 0 then 1
  else Z.max 1 ((totalValidators_ m * minCONSENSUS_PCT parms + 99) / 100).

Definition recalculateConsensusExclusions (m : ExclusionManager) : ExclusionManager :=
  mkManager (validatorExclusions_ m) (exclusionCounts_ m)
    (if totalValidators_ m =? 0 then ∅
     else dom (filter (fun p => getConsensusThreshold m <= p.2) (exclusionCounts_ m)))
    (exclusionInfoMap_ m) (remoteFetcher_ m) (totalValidators_ m) (initialized_ m).

Definition decrement (counts : gmap Z Z) (account : Z) : gmap Z Z :=
  match counts !! account with
  | None => counts
  | Some c => if 1 <? c then <[account := c - 1]> counts else delete account counts
  end.

Definition increment (counts : gmap Z Z) (account : Z) : gmap Z Z :=
  <[account := default 0 (counts !! account) + 1]> counts.

(** The lists after a change, with the counts: [totalValidators_] becomes the
    number of lists. *)
Definition set_lists (lists : gmap Z (gset Z)) (counts : gmap Z Z) (m : ExclusionManager)
    : ExclusionManager :=
  mkManager lists counts (consensusExcluded_ m) (exclusionInfoMap_ m) (remoteFetcher_ m)
    (Z.of_nat (size lists)) (initialized_ m).

Definition updateValidatorExclusions (validator : Z) (exclusions : gset Z) (m : ExclusionManager)
    : ExclusionManager :=
  let oldExclusions := default ∅ (validatorExclusions_ m !! validator) in
  let lists := if decide (exclusions = ∅) then delete validator (validatorExclusions_ m)
               else <[validator := exclusions]> (validatorExclusions_ m) in
  let counts := foldl increment
                  (foldl decrement (exclusionCounts_ m) (elements oldExclusions))
                  (elements exclusions) in
  recalculateConsensusExclusions (set_lists lists counts m).

Definition removeValidator (validator : Z) (m : ExclusionManager) : ExclusionManager :=
  match validatorExclusions_ m !! validator with
  | None => m
  | Some old =>
      recalculateConsensusExclusions
        (set_lists (delete validator (validatorExclusions_ m))
           (foldl decrement (exclusionCounts_ m) (elements old)) m)
  end.

Section Rebuild.

(** [calcAccountID]: the account a master key signs for. *)
Context (calcAccountID : Z -> Z).

(** One iteration of the loop over the trusted keys; [totalValidators_] is
    overwritten after the loop and before its first use. *)
Definition readValidator (view : ReadView) (acc : gmap Z (gset Z) * gmap Z Z) (key : Z)
    : gmap Z (gset Z) * gmap Z Z :=
  let '(lists, counts) := acc in
  match accounts view !! calcAccountID key with
  | None => acc
  | Some root =>
      match exclusionList root with
      | None => acc
      | Some entries =>
          let exclusions : gset Z := list_to_set (named entries) in
          (if decide (exclusions = ∅) then lists else <[calcAccountID key := exclusions]> lists,
           foldl increment counts (named entries))
      end
  end.

Definition set_initialized (m : ExclusionManager) : ExclusionManager :=
  mkManager (validatorExclusions_ m) (exclusionCounts_ m) (consensusExcluded_ m)
    (exclusionInfoMap_ m) (remoteFetcher_ m) (totalValidators_ m) true.

(** [trustedKeys] are the master keys of the validators of the UNL. *)
Definition rebuildCache (trustedKeys : gset Z) (view : ReadView) (m : ExclusionManager)
    : ExclusionManager :=
  if negb (accountExclusion (rules view)) then set_initialized m
  else
    let '(lists, counts) := foldl (readValidator view) (∅, ∅) (elements trustedKeys) in
    set_initialized (recalculateConsensusExclusions (set_lists lists counts m)).

End Rebuild.

Record Stats := {
  totalValidators : Z;
  totalExcludedAddresses : Z;
  totalUniqueExclusions : Z;
}.

Definition getStats (m : ExclusionManager) : Stats :=
  let allExclusions : gset Z := ⋃ (map_values (validatorExclusions_ m)) in
  {| totalValidators := totalValidators_ m;
     totalExcludedAddresses := Z.of_nat (size (consensusExcluded_ m));
     totalUniqueExclusions := Z.of_nat (size allExclusions) |}.

Definition set_infos (infos : gmap Z ExclusionInfo) (m : ExclusionManager) : ExclusionManager :=
  mkManager (validatorExclusions_ m) (exclusionCounts_ m) (consensusExcluded_ m) infos
    (remoteFetcher_ m) (totalValidators_ m) (initialized_ m).

Definition infoOf (reasonPair : string * string) : ExclusionInfo :=
  {| reason := reasonPair.1; dateAdded := reasonPair.2; voteCount := 0 |}.

(** [getExclusionInfo] first takes over the reasons of the fetcher [f] when it
    is connected and has modifications. *)
Definition refreshReasons (f : Fetcher) (m : ExclusionManager) : ExclusionManager :=
  if remoteFetcher_ m && fst (hasBeenModified false f)
  then set_infos ((infoOf <$> getExclusionReasons f) ∪ exclusionInfoMap_ m) m
  else m.

Definition getExclusionInfo (f : Fetcher) (account : Z) (m : ExclusionManager)
    : option ExclusionInfo * ExclusionManager :=
  let m := refreshReasons f m in
  (match exclusionInfoMap_ m !! account with
   | Some info =>
       Some match exclusionCounts_ m !! account with
            | Some c => {| reason := reason info; dateAdded := dateAdded info; voteCount := c |}
            | None => info
            end
   | None =>
       match exclusionCounts_ m !! account with
       | Some c => Some {| reason := EmptyString; dateAdded := EmptyString; voteCount := c |}
       | None => None
       end
   end, m).

Definition updateExclusionReasons (reasons : gmap Z ExclusionInfo) (m : ExclusionManager)
    : ExclusionManager := set_infos (reasons ∪ exclusionInfoMap_ m) m.

Definition setRemoteFetcher (connected : bool) (m : ExclusionManager) : ExclusionManager :=
  mkManager (validatorExclusions_ m) (exclusionCounts_ m) (consensusExcluded_ m)
    (exclusionInfoMap_ m) connected (totalValidators_ m) (initialized_ m).
