(* ===== verification/ExclusionFacts.v ===== *)
(** * The cache agrees with the lists

    The counts of the cache are the numbers of lists that name each account and
    the excluded accounts are those named by at least [minCONSENSUS_PCT] percent
    of the lists; every operation keeps this, and a rebuild computes it from
    the ledger. *)

From stdpp Require Import strings.
From S2P Require Import Prelude ConsensusParms RemoteFetcher ExclusionManager.

(** How many of the lists name [a]. *)
Definition listing (lists : gmap Z (gset Z)) (a : Z) : Z :=
  Z.of_nat (size (filter (fun p => a ∈ p.2) lists)).

(** [counts] holds [f], an absent key being a zero. *)
Definition tallies (counts : gmap Z Z) (f : Z -> Z) : Prop :=
  forall a, counts !! a = if f a =? 0 then None else Some (f a).

Definition occurrences (l : list Z) (a : Z) : Z := Z.of_nat (length (filter (eq a) l)).

(** ** Counting *)

Lemma tallies_ext counts f g : (forall a, f a = g a) -> tallies counts f -> tallies counts g.
Proof. intros E Hf a. by rewrite <- E. Qed.

Lemma tallies_unique c d f : tallies c f -> tallies d f -> c = d.
Proof. intros Hc Hd. apply map_eq. intros a. by rewrite (Hc a), (Hd a). Qed.

Lemma tallies_empty : tallies ∅ (fun _ => 0).
Proof. done. Qed.

Lemma occurrences_cons x l a :
  occurrences (x :: l) a = (if decide (a = x) then 1 else 0) + occurrences l a.
Proof. unfold occurrences. rewrite filter_cons. case_decide; cbn [length]; lia. Qed.

Lemma occurrences_nonneg l a : 0 <= occurrences l a.
Proof. unfold occurrences. lia. Qed.

Lemma occurrences_nodup l a :
  NoDup l -> occurrences l a = if decide (a ∈ l) then 1 else 0.
Proof.
  induction 1 as [|x l Hx Hl IH]; [done|]. rewrite occurrences_cons, IH.
  destruct (decide (a = x)) as [->|], (decide (_ ∈ x :: l)) as [Hin|Hin], (decide (_ ∈ l));
    try done; set_solver.
Qed.

Lemma occurrences_elements (s : gset Z) a :
  occurrences (elements s) a = if decide (a ∈ s) then 1 else 0.
Proof.
  rewrite occurrences_nodup by apply NoDup_elements.
  do 2 case_decide; set_solver.
Qed.

Lemma increment_tallies counts f x :
  (forall a, 0 <= f a) -> tallies counts f ->
  tallies (increment counts x) (fun a => (if decide (a = x) then 1 else 0) + f a).
Proof.
  intros Hp Hf a. unfold increment. specialize (Hp x). pose proof (Hf x) as Ex.
  destruct (decide (a = x)) as [->|Hne].
  - rewrite lookup_insert_eq, Ex. destruct (Z.eqb_spec (f x) 0), (Z.eqb_spec (1 + f x) 0);
      cbn; try lia; f_equal; lia.
  - by rewrite lookup_insert_ne by done.
Qed.

Lemma decrement_tallies counts f x :
  1 <= f x -> tallies counts f ->
  tallies (decrement counts x) (fun a => f a - (if decide (a = x) then 1 else 0)).
Proof.
  intros Hp Hf a. unfold decrement. pose proof (Hf x) as Ex.
  destruct (Z.eqb_spec (f x) 0); [lia|]. rewrite Ex.
  destruct (decide (a = x)) as [->|Hne].
  - destruct (Z.ltb_spec 1 (f x)), (Z.eqb_spec (f x - 1) 0); try lia.
    + by rewrite lookup_insert_eq.
    + by rewrite lookup_delete_eq.
  - rewrite Z.sub_0_r. destruct (1 <? f x); [rewrite lookup_insert_ne by done|
      rewrite lookup_delete_ne by done]; apply Hf.
Qed.

Lemma increments_tallies l : forall counts f,
  (forall a, 0 <= f a) -> tallies counts f ->
  tallies (foldl increment counts l) (fun a => occurrences l a + f a).
Proof.
  induction l as [|x l IH]; intros counts f Hp Hf; [done|]. cbn.
  eapply tallies_ext; [|apply IH; [|by apply increment_tallies]].
  - intros a. rewrite occurrences_cons. lia.
  - intros a. specialize (Hp a). cbn; case_decide; lia.
Qed.

Lemma decrements_tallies l : forall counts f,
  (forall a, occurrences l a <= f a) -> tallies counts f ->
  tallies (foldl decrement counts l) (fun a => f a - occurrences l a).
Proof.
  induction l as [|x l IH]; intros counts f Hp Hf; cbn.
  - eapply tallies_ext; [|done]. intros a. change (occurrences [] a) with 0. lia.
  - eapply tallies_ext; [|apply IH; [|apply decrement_tallies; [|done]]].
    + intros a. cbn. rewrite occurrences_cons. lia.
    + intros a. specialize (Hp a). rewrite occurrences_cons in Hp. cbv beta. lia.
    + specialize (Hp x). rewrite occurrences_cons in Hp. pose proof (occurrences_nonneg l x).
      rewrite decide_True in Hp by done. lia.
Qed.

Lemma listing_nonneg lists a : 0 <= listing lists a.
Proof. unfold listing. lia. Qed.

Lemma listing_empty a : listing ∅ a = 0.
Proof. unfold listing. by rewrite map_filter_empty. Qed.

Lemma listing_insert_fresh lists v s a :
  lists !! v = None ->
  listing (<[v := s]> lists) a = (if decide (a ∈ s) then 1 else 0) + listing lists a.
Proof.
  intros Hv. unfold listing. case_decide.
  - rewrite map_filter_insert_True by done. rewrite map_size_insert_None; [lia|].
    apply map_lookup_filter_None. by left.
  - by rewrite map_filter_insert_False, delete_id by done.
Qed.

(** The account is counted once for [v] and once for each other list. *)
Lemma listing_split lists v a :
  listing lists a =
  (if decide (a ∈ default ∅ (lists !! v)) then 1 else 0) + listing (delete v lists) a.
Proof.
  destruct (lists !! v) as [s|] eqn:E; cbn.
  - rewrite <- (insert_delete_id lists v s) at 1 by done.
    rewrite listing_insert_fresh; [done|]. apply lookup_delete_eq.
  - rewrite decide_False by set_solver. by rewrite delete_id.
Qed.

Lemma listing_le_size lists a : listing lists a <= Z.of_nat (size lists).
Proof.
  unfold listing. apply inj_le, map_subseteq_size, map_filter_subseteq.
Qed.

(** ** The invariant *)

Record cache_ok (m : ExclusionManager) : Prop := {
  ck_lists : map_Forall (fun _ s => s <> ∅) (validatorExclusions_ m);
  ck_counts : tallies (exclusionCounts_ m) (listing (validatorExclusions_ m));
  ck_total : totalValidators_ m = Z.of_nat (size (validatorExclusions_ m));
  ck_excluded : forall a, a ∈ consensusExcluded_ m <->
    1 <= listing (validatorExclusions_ m) a /\
    minCONSENSUS_PCT parms * Z.of_nat (size (validatorExclusions_ m)) <=
      100 * listing (validatorExclusions_ m) a;
}.

Lemma threshold_le m n :
  0 <= totalValidators_ m ->
  getConsensusThreshold m <= n <->
  1 <= n /\ minCONSENSUS_PCT parms * totalValidators_ m <= 100 * n.
Proof.
  intros Ht. unfold getConsensusThreshold. cbn [minCONSENSUS_PCT parms].
  destruct (Z.eqb_spec (totalValidators_ m) 0) as [->|]; [lia|].
  rewrite Z.max_lub_iff. split; intros [H1 H2]; (split; [done|]).
  - pose proof (Z.mul_succ_div_gt (totalValidators_ m * 67 + 99) 100 ltac:(lia)). lia.
  - apply Z.lt_succ_r, Z.div_lt_upper_bound; lia.
Qed.

(** With the lists, the counts and their number in agreement, recalculating the
    excluded accounts establishes the invariant. *)
Lemma recalculate_ok lists counts m :
  map_Forall (fun _ s => s <> ∅) lists -> tallies counts (listing lists) ->
  cache_ok (recalculateConsensusExclusions (set_lists lists counts m)).
Proof.
  intros Hl Hc. split; try done. intros a. cbn.
  destruct (Z.eqb_spec (Z.of_nat (size lists)) 0) as [E|E].
  - pose proof (listing_le_size lists a). split; [set_solver|lia].
  - rewrite elem_of_dom. unfold is_Some.
    setoid_rewrite map_lookup_filter_Some. cbn.
    setoid_rewrite (threshold_le (set_lists lists counts m)); [|cbn; lia]. cbn.
    rewrite (Hc a). pose proof (listing_nonneg lists a).
    destruct (Z.eqb_spec (listing lists a) 0); naive_solver lia.
Qed.

Lemma newManager_ok : cache_ok newManager.
Proof.
  split; try done. intros a. cbn. rewrite listing_empty. set_solver by lia.
Qed.

Lemma updateValidatorExclusions_ok v s m :
  cache_ok m -> cache_ok (updateValidatorExclusions v s m).
Proof.
  intros [Hl Hc _ _]. apply recalculate_ok.
  - case_decide; [by apply map_Forall_delete|by apply map_Forall_insert_2].
  - set (old := default ∅ (validatorExclusions_ m !! v)).
    eapply tallies_ext; [|apply increments_tallies, decrements_tallies; [| |exact Hc]].
    + intros a. cbv beta. rewrite !occurrences_elements, (listing_split _ v a). fold old.
      destruct (decide (s = ∅)) as [->|Hs].
      * rewrite decide_False by set_solver. lia.
      * rewrite <- insert_delete_eq, listing_insert_fresh by apply lookup_delete_eq. lia.
    + intros a. cbn. rewrite occurrences_elements, (listing_split _ v a). fold old.
      pose proof (listing_nonneg (delete v (validatorExclusions_ m)) a). lia.
    + intros a. cbv beta. rewrite occurrences_elements, (listing_split _ v a). fold old.
      pose proof (listing_nonneg (delete v (validatorExclusions_ m)) a). lia.
Qed.

Lemma removeValidator_ok v m : cache_ok m -> cache_ok (removeValidator v m).
Proof.
  intros Hm. unfold removeValidator. destruct (_ !! v) as [old|] eqn:E; [|done].
  destruct Hm as [Hl Hc _ _]. apply recalculate_ok; [by apply map_Forall_delete|].
  eapply tallies_ext; [|apply decrements_tallies; [|exact Hc]]; intros a; cbn;
    rewrite occurrences_elements, (listing_split _ v a), E; cbn;
    pose proof (listing_nonneg (delete v (validatorExclusions_ m)) a); lia.
Qed.

(** ** Rebuilding from a ledger *)

(** The accounts that the list of [v] names, when there are any. *)
Definition listAt (view : ReadView) (v : Z) : option (gset Z) :=
  root ← accounts view !! v;
  let s : gset Z := list_to_set (named (listOf root)) in
  if decide (s = ∅) then None else Some s.

Section Rebuilding.

Context (calcAccountID : Z -> Z) (trusted : gset Z).

(** The validators of the UNL have different accounts. *)
Context (calcAccountID_inj : forall x y, x ∈ trusted -> y ∈ trusted ->
  calcAccountID x = calcAccountID y -> x = y).

Definition unl : gset Z := set_map calcAccountID trusted.

(** No account is twice in the list of a validator of the UNL. *)
Definition distinct (view : ReadView) : Prop :=
  forall v root, v ∈ unl -> accounts view !! v = Some root -> NoDup (named (listOf root)).

Definition ledgerLists (view : ReadView) (lists : gmap Z (gset Z)) : Prop :=
  forall v, lists !! v = if decide (v ∈ unl) then listAt view v else None.

Record reading (view : ReadView) (l : list Z) (acc : gmap Z (gset Z) * gmap Z Z) : Prop := {
  rd_lists : forall v, acc.1 !! v = if decide (v ∈ calcAccountID <$> l) then listAt view v else None;
  rd_counts : tallies acc.2 (listing acc.1);
}.

Lemma readValidator_spec view l acc x :
  distinct view -> x ∈ trusted -> calcAccountID x ∉ calcAccountID <$> l ->
  reading view l acc -> reading view (l ++ [x]) (readValidator calcAccountID view acc x).
Proof.
  intros Hd Hx Hfresh [Hl Hc]. destruct acc as [lists counts]. cbn [fst snd] in *.
  assert (lists !! calcAccountID x = None) as Hnone by (by rewrite Hl, decide_False).
  assert (forall v, v <> calcAccountID x ->
    (if decide (v ∈ calcAccountID <$> l ++ [x]) then listAt view v else None) = lists !! v) as Hother.
  { intros v Hv. rewrite Hl, fmap_app. apply decide_ext. set_solver. }
  assert (calcAccountID x ∈ calcAccountID <$> l ++ [x]) as Hself by (rewrite fmap_app; set_solver).
  unfold readValidator.
  destruct (accounts view !! calcAccountID x) as [root|] eqn:Er;
    [destruct (exclusionList root) as [entries|] eqn:Ee|].
  - assert (listOf root = entries) as El by (unfold listOf; by rewrite Ee).
    assert (NoDup (named entries)) as Hnd.
    { rewrite <- El. apply (Hd (calcAccountID x)); [|done]. by apply elem_of_map_2. }
    assert (listAt view (calcAccountID x) =
      if decide (list_to_set (named entries) = (∅ : gset Z)) then None
      else Some (list_to_set (named entries))) as Ea.
    { unfold listAt. rewrite Er. cbn. by rewrite El. }
    split; cbn.
    + intros v. destruct (decide (v = calcAccountID x)) as [->|Hv].
      * rewrite (decide_True _ _ Hself), Ea. case_decide; [done|]. apply lookup_insert_eq.
      * rewrite Hother by done. case_decide; [done|]. by apply lookup_insert_ne.
    + eapply tallies_ext; [|by apply increments_tallies; [apply listing_nonneg|]].
      intros a. cbn. rewrite occurrences_nodup by done. case_decide as Hs.
      * rewrite decide_False; [lia|]. intros Ha. apply (elem_of_list_to_set (C := gset Z)) in Ha.
        set_solver.
      * rewrite listing_insert_fresh by done. f_equal. apply decide_ext. by rewrite elem_of_list_to_set.
  - split; cbn; [|done]. intros v. destruct (decide (v = calcAccountID x)) as [->|Hv].
    + rewrite (decide_True _ _ Hself), Hnone. unfold listAt, listOf. by rewrite Er; cbn; rewrite Ee.
    + by rewrite Hother.
  - split; cbn; [|done]. intros v. destruct (decide (v = calcAccountID x)) as [->|Hv].
    + rewrite (decide_True _ _ Hself), Hnone. unfold listAt. by rewrite Er.
    + by rewrite Hother.
Qed.

Lemma readValidators_spec view l : forall l0 acc,
  distinct view -> (forall x, x ∈ l -> x ∈ trusted) -> NoDup (calcAccountID <$> l0 ++ l) ->
  reading view l0 acc -> reading view (l0 ++ l) (foldl (readValidator calcAccountID view) acc l).
Proof.
  induction l as [|x l IH]; intros l0 acc Hd Hin Hnd Hr; cbn; [by rewrite app_nil_r|].
  rewrite cons_middle, app_assoc. apply IH; [done|set_solver|by rewrite <- app_assoc|].
  apply readValidator_spec; [done|set_solver| |done].
  rewrite fmap_app, fmap_cons in Hnd. apply NoDup_app in Hnd as (_ & Hnd & _).
  intros Hx. apply (Hnd _ Hx). set_solver.
Qed.

Lemma readValidators_trusted view :
  distinct view ->
  reading view (elements trusted)
    (foldl (readValidator calcAccountID view) (∅, ∅) (elements trusted)).
Proof.
  intros Hd. pose proof (readValidators_spec view (elements trusted) [] (∅, ∅)) as Hr.
  rewrite app_nil_l in Hr. apply Hr; [done|set_solver| |done]. apply NoDup_fmap_2_strong; [|apply NoDup_elements].
  intros x y ?%elem_of_elements ?%elem_of_elements. by apply calcAccountID_inj.
Qed.

Lemma elem_of_unl v : v ∈ unl <-> v ∈ calcAccountID <$> elements trusted.
Proof.
  unfold unl. rewrite elem_of_map, list_elem_of_fmap. by setoid_rewrite elem_of_elements.
Qed.

Lemma rebuildCache_ok view m :
  distinct view -> accountExclusion (rules view) = true ->
  cache_ok (rebuildCache calcAccountID trusted view m) /\
  ledgerLists view (validatorExclusions_ (rebuildCache calcAccountID trusted view m)).
Proof.
  intros Hd Hon. unfold rebuildCache. rewrite Hon. cbn [negb].
  destruct (readValidators_trusted view Hd) as [Hl Hc].
  destruct (foldl _ _ _) as [lists counts]. cbn [fst snd] in *. split.
  - enough (cache_ok (recalculateConsensusExclusions (set_lists lists counts m))) as [] by (by split).
    apply recalculate_ok; [|done]. intros v s. rewrite Hl. unfold listAt.
    case_decide; [|done]. destruct (accounts view !! v); cbn; [|done]. by case_decide; [|intros [= <-]].
  - intros v. cbn. rewrite Hl. apply decide_ext. symmetry. apply elem_of_unl.
Qed.

(** A cache that agrees with the ledger is what a rebuild would make of it. *)
Lemma rebuildCache_id view m :
  distinct view -> accountExclusion (rules view) = true -> cache_ok m -> initialized_ m = true ->
  ledgerLists view (validatorExclusions_ m) -> rebuildCache calcAccountID trusted view m = m.
Proof.
  intros Hd Hon Hm Hi Hl. pose proof (rebuildCache_ok view m Hd Hon) as [Hm' Hl'].
  revert Hm' Hl'. unfold rebuildCache. rewrite Hon. cbn [negb].
  destruct (foldl _ _ _) as [lists counts]. intros Hm' Hl'. cbn in Hl'.
  assert (lists = validatorExclusions_ m) as -> by (apply map_eq; intros v; by rewrite Hl', Hl).
  destruct Hm as [? Hc Ht He], Hm' as [? Hc' Ht' He']. cbn in Hc', He'.
  assert (counts = exclusionCounts_ m) as -> by (by eapply tallies_unique).
  destruct m as [ls cs ex infos fetcher total ini]. cbn in *. subst ini.
  unfold set_initialized, recalculateConsensusExclusions, set_lists. cbn.
  f_equal; [|done]. apply set_eq. intros a. by rewrite He', He.
Qed.

End Rebuilding.
