(* ===== verification/ValidatorVote.v ===== *)
(** * Validator votes

    Models [ValidatorVoteTracker.h/.cpp], which turns the validations of a
    ledger into [ValidatorVote] pseudo-transactions, and
    [Change::applyValidatorVote], which counts them in the ledger and edits the
    exclusion list of the validator.  A pseudo-transaction stands for its own
    identifier; the owner directory is the argument [dirInsert], which gives
    the page an entry was put on. *)

From S2P Require Import Prelude RemoteFetcher ExclusionManager ExclusionFacts.

(** ** The tracker *)

Record Vote := {
  validatorKey : Z;
  ledgerHash : Z;
  ledgerSeq : Z;
  validationHash : Z;
  voteTime : Z;
  exclusionAdd : option Z;
  exclusionRemove : option Z;
}.

Record VoteTx := {
  tx_LedgerSequence : Z;
  tx_LedgerHash : Z;
  tx_ValidatorPublicKey : Z;
  tx_ValidationHash : Z;
  tx_CloseTime : option Z;
  tx_ExclusionAdd : option Z;
  tx_ExclusionRemove : option Z;
}.

#[export] Instance VoteTx_eq_dec : EqDecision VoteTx.
Proof. solve_decision. Defined.

Record VoteTracker := mkTracker {
  votesByLedger_ : gmap Z (list Vote);
  processedValidators_ : gmap Z (gset Z);
}.

Definition newTracker : VoteTracker := mkTracker ∅ ∅.

Definition recordVote (vote : Vote) (t : VoteTracker) : VoteTracker :=
  mkTracker (<[ledgerSeq vote := default [] (votesByLedger_ t !! ledgerSeq vote) ++ [vote]]>
               (votesByLedger_ t))
    (processedValidators_ t).

Definition voteTx (vote : Vote) : VoteTx := {|
  tx_LedgerSequence := ledgerSeq vote;
  tx_LedgerHash := ledgerHash vote;
  tx_ValidatorPublicKey := validatorKey vote;
  tx_ValidationHash := validationHash vote;
  tx_CloseTime := if voteTime vote =? 0 then None else Some (voteTime vote);
  tx_ExclusionAdd := exclusionAdd vote;
  tx_ExclusionRemove := exclusionRemove vote |}.

(** [SHAMap::addItem] refuses an item that is already in the set. *)
Definition addItem (tx : VoteTx) (position : list VoteTx) : list VoteTx :=
  if decide (tx ∈ position) then position else position ++ [tx].

(** One iteration over the votes: the position, the validators processed for
    the ledger and those seen in this batch. *)
Definition considerVote (acc : list VoteTx * gset Z * gset Z) (vote : Vote)
    : list VoteTx * gset Z * gset Z :=
  let '(position, processed, uniqueValidators) := acc in
  if decide (validatorKey vote ∈ processed) then acc
  else if decide (validatorKey vote ∈ uniqueValidators) then acc
  else (addItem (voteTx vote) position, {[validatorKey vote]} ∪ processed,
        {[validatorKey vote]} ∪ uniqueValidators).

Definition cleanup (currentLedger : Z) (t : VoteTracker) : VoteTracker :=
  let keepAfter := if 10 <? currentLedger then currentLedger - 10 else 0 in
  mkTracker (filter (fun p => keepAfter <= p.1) (votesByLedger_ t))
    (filter (fun p => keepAfter <= p.1) (processedValidators_ t)).

Definition doVoting (enabled : bool) (currentSeq : Z) (position : list VoteTx) (t : VoteTracker)
    : list VoteTx * VoteTracker :=
  if negb enabled then (position, t)
  else match votesByLedger_ t !! currentSeq with
  | None | Some [] => (position, t)
  | Some votes =>
      let processed := default ∅ (processedValidators_ t !! currentSeq) in
      let '(position, processed, _) := foldl considerVote (position, processed, ∅) votes in
      (position,
       cleanup currentSeq
         (mkTracker (votesByLedger_ t) (<[currentSeq := processed]> (processedValidators_ t))))
  end.

(** ** The votes of one ledger *)

(** The votes of the validators outside [done], the first one of each. *)
Fixpoint firstVotes (seen : gset Z) (votes : list Vote) : list Vote :=
  match votes with
  | [] => []
  | vote :: votes =>
      if decide (validatorKey vote ∈ seen) then firstVotes seen votes
      else vote :: firstVotes ({[validatorKey vote]} ∪ seen) votes
  end.

Definition addItems (txs : list VoteTx) (position : list VoteTx) : list VoteTx :=
  foldl (fun p tx => addItem tx p) position txs.

Lemma considerVotes_spec votes : forall position processed batch,
  batch ⊆ processed ->
  exists batch',
  foldl considerVote (position, processed, batch) votes =
    (addItems (voteTx <$> firstVotes processed votes) position,
     list_to_set (validatorKey <$> votes) ∪ processed, batch').
Proof.
  induction votes as [|vote votes IH]; intros position processed batch Hb; cbn.
  { exists batch. do 2 f_equal. set_solver. }
  destruct (decide (validatorKey vote ∈ processed)) as [Hin|Hin].
  - destruct (IH position processed batch Hb) as [batch' ->].
    exists batch'. do 2 f_equal. set_solver.
  - rewrite decide_False by set_solver.
    destruct (IH (addItem (voteTx vote) position) ({[validatorKey vote]} ∪ processed)
      ({[validatorKey vote]} ∪ batch)) as [batch' ->]; [set_solver|].
    exists batch'. do 2 f_equal. set_solver.
Qed.

Lemma firstVotes_keys seen votes vote :
  vote ∈ firstVotes seen votes -> vote ∈ votes /\ validatorKey vote ∉ seen.
Proof.
  revert seen. induction votes as [|v votes IH]; intros seen; cbn; [set_solver|].
  case_decide.
  - intros Hv%IH. set_solver.
  - intros [->|Hv%IH]%elem_of_cons; set_solver.
Qed.

Lemma firstVotes_nodup seen votes : NoDup (validatorKey <$> firstVotes seen votes).
Proof.
  revert seen. induction votes as [|v votes IH]; intros seen; cbn; [constructor|].
  case_decide; [done|]. cbn. constructor; [|done].
  intros (v' & E & Hv%firstVotes_keys)%list_elem_of_fmap. set_solver.
Qed.

(** Every validator outside [seen] that voted is represented. *)
Lemma firstVotes_complete seen votes k :
  k ∉ seen -> k ∈ validatorKey <$> votes -> k ∈ validatorKey <$> firstVotes seen votes.
Proof.
  revert seen. induction votes as [|v votes IH]; intros seen Hk; cbn; [done|].
  intros [->|Hin]%elem_of_cons.
  - rewrite decide_False by done. cbn. set_solver.
  - case_decide; [by apply IH|]. cbn. destruct (decide (k = validatorKey v)) as [->|]; [set_solver|].
    apply elem_of_cons. right. apply IH; set_solver.
Qed.

Lemma firstVotes_none seen votes :
  list_to_set (validatorKey <$> votes) ⊆ seen -> firstVotes seen votes = [].
Proof.
  revert seen. induction votes as [|v votes IH]; intros seen; cbn; [done|].
  intros Hs. rewrite decide_True by set_solver. apply IH. set_solver.
Qed.

Lemma addItems_elem txs position tx :
  tx ∈ addItems txs position <-> tx ∈ txs \/ tx ∈ position.
Proof.
  revert position. induction txs as [|x txs IH]; intros position; cbn; [set_solver|].
  change (foldl _ _ txs) with (addItems txs (addItem x position)). rewrite IH. unfold addItem. case_decide; set_solver.
Qed.

(** Transactions of different validators are all put in. *)
Lemma addItems_distinct txs position :
  NoDup (tx_ValidatorPublicKey <$> position ++ txs) -> addItems txs position = position ++ txs.
Proof.
  revert position. induction txs as [|x txs IH]; intros position Hnd; cbn; [by rewrite app_nil_r|].
  assert (addItem x position = position ++ [x]) as Ea.
  { unfold addItem. rewrite decide_False; [done|]. intros Hin. rewrite fmap_app in Hnd.
    apply NoDup_app in Hnd as (_ & Hnd & _). apply (Hnd (tx_ValidatorPublicKey x)); [by apply list_elem_of_fmap_2|by left]. }
  rewrite Ea. change (foldl _ _ txs) with (addItems txs (position ++ [x])). rewrite IH; rewrite <- app_assoc; done.
Qed.

Lemma voteTx_keys (votes : list Vote) : tx_ValidatorPublicKey <$> (voteTx <$> votes) = validatorKey <$> votes.
Proof. by rewrite <- list_fmap_compose. Qed.

(** A vote of a validator that has not voted before is among those chosen. *)
Lemma firstVotes_split vote seen l1 l2 :
  validatorKey vote ∉ seen -> (forall v, v ∈ l1 -> validatorKey v <> validatorKey vote) ->
  exists k1 k2, firstVotes seen (l1 ++ vote :: l2) = k1 ++ vote :: k2 /\
    (forall v, v ∈ k1 -> v ∈ l1) /\ (forall v, v ∈ k2 -> v ∈ l2).
Proof.
  revert seen. induction l1 as [|x l1 IH]; intros seen Hs Hl; cbn.
  - rewrite decide_False by done. exists [], (firstVotes ({[validatorKey vote]} ∪ seen) l2).
    split_and!; [done|done|]. by intros v [? _]%firstVotes_keys.
  - assert (validatorKey x <> validatorKey vote) as Hx by (apply Hl; by left).
    assert (forall seen, validatorKey vote ∉ seen -> exists k1 k2, firstVotes seen (l1 ++ vote :: l2) = k1 ++ vote :: k2 /\
      (forall v, v ∈ k1 -> v ∈ l1) /\ (forall v, v ∈ k2 -> v ∈ l2)) as IH'
      by (intros seen' Hs'; apply IH; [done|intros v Hv; apply Hl; by right]).
    case_decide.
    + destruct (IH' seen Hs) as (k1 & k2 & -> & H1 & H2). exists k1, k2. split_and!; [done| |done].
      intros v Hv. right. by apply H1.
    + destruct (IH' ({[validatorKey x]} ∪ seen)) as (k1 & k2 & -> & H1 & H2); [set_solver|].
      exists (x :: k1), k2. split_and!; [done| |done]. intros v [->|Hv]%elem_of_cons; [by left|right; by apply H1].
Qed.

Lemma doVoting_spec currentSeq position t votes :
  0 <= currentSeq ->
  votesByLedger_ t !! currentSeq = Some votes -> votes <> [] ->
  let processed := default ∅ (processedValidators_ t !! currentSeq) in
  exists t',
  doVoting true currentSeq position t =
    (addItems (voteTx <$> firstVotes processed votes) position, t') /\
  votesByLedger_ t' !! currentSeq = Some votes /\
  processedValidators_ t' !! currentSeq =
    Some (list_to_set (validatorKey <$> votes) ∪ processed).
Proof.
  intros H0 Hv Hne processed. unfold doVoting. cbn [negb]. rewrite Hv. fold processed.
  destruct votes as [|vote votes]; [done|].
  destruct (considerVotes_spec (vote :: votes) position processed ∅) as [batch ->]; [set_solver|].
  eexists. split; [done|]. unfold cleanup. cbn [votesByLedger_ processedValidators_].
  assert ((if 10 <? currentSeq then currentSeq - 10 else 0) <= currentSeq)
    by (destruct (10 <? currentSeq); lia).
  split; apply map_lookup_filter_Some; (split; [|done]); [done|apply lookup_insert_eq].
Qed.

(** Voting on a ledger brings in nothing for later ones. *)
Lemma doVoting_later enabled currentSeq position t s :
  currentSeq < s -> votesByLedger_ t !! s = None -> processedValidators_ t !! s = None ->
  votesByLedger_ (doVoting enabled currentSeq position t).2 !! s = None /\
  processedValidators_ (doVoting enabled currentSeq position t).2 !! s = None.
Proof.
  intros Hs Hv Hp. unfold doVoting. destruct (negb enabled); [done|].
  destruct (votesByLedger_ t !! currentSeq) as [[|v votes]|]; [done| |done].
  destruct (foldl considerVote _ _) as [[position' processed'] batch]. cbn.
  split; apply map_lookup_filter_None; left; [done|]. by rewrite lookup_insert_ne by lia.
Qed.

(** Votes recorded for a ledger. *)
Definition recordVotes (votes : list Vote) (t : VoteTracker) : VoteTracker := foldl (fun t v => recordVote v t) t votes.

Lemma recordVotes_spec votes t seq :
  Forall (fun v => ledgerSeq v = seq) votes ->
  processedValidators_ (recordVotes votes t) = processedValidators_ t /\
  (forall s, s <> seq -> votesByLedger_ (recordVotes votes t) !! s = votesByLedger_ t !! s) /\
  default [] (votesByLedger_ (recordVotes votes t) !! seq) = default [] (votesByLedger_ t !! seq) ++ votes.
Proof.
  unfold recordVotes. intros Hv. revert t. induction Hv as [|v votes <- _ IH]; intros t; cbn; [by rewrite app_nil_r|].
  destruct (IH (recordVote v t)) as (-> & H2 & ->). split_and!; [done| |].
  - intros s Hs. rewrite H2 by done. cbn. by rewrite lookup_insert_ne.
  - cbn. rewrite lookup_insert_eq. cbn. by rewrite <- app_assoc.
Qed.

(** A second call for the same ledger proposes nothing new. *)
Lemma doVoting_twice currentSeq p q t :
  0 <= currentSeq ->
  fst (doVoting true currentSeq q (snd (doVoting true currentSeq p t))) = q.
Proof.
  intros H0. destruct (votesByLedger_ t !! currentSeq) as [votes|] eqn:Ev.
  2:{ unfold doVoting; cbn [negb]; rewrite Ev; cbn; by rewrite Ev. }
  destruct votes as [|v votes]; [unfold doVoting; cbn [negb]; rewrite Ev; cbn; by rewrite Ev|].
  destruct (doVoting_spec currentSeq p t _ H0 Ev ltac:(done)) as (t' & -> & Ev' & Ep). cbn [snd].
  destruct (doVoting_spec currentSeq q t' _ H0 Ev' ltac:(done)) as (t'' & -> & _). cbn [fst].
  rewrite Ep. cbn [default]. by rewrite firstVotes_none by set_solver.
Qed.
