(* ===== verification/ApplyVote.v ===== *)
(** * Applying a validator vote

    Models [Change::applyValidatorVote]: the vote is counted in the
    [ValidatorVoteStats] of the validator, its exclusion list is edited and the
    cache of excluded accounts is told the new list.  The theorems show that
    the lists stay small and without repetition and that the cache stays what
    a rebuild from the ledger would make it. *)

From S2P Require Import Prelude ConsensusParms RemoteFetcher ExclusionManager ExclusionFacts ValidatorVote.

Record VoteStats := {
  vs_Account : Z;
  vs_VoteCount : Z;
  vs_OwnerNode : Z;
  vs_PreviousTxnID : VoteTx;
  vs_PreviousTxnLgrSeq : Z;
}.

Record ApplyView := mkView {
  ledger : ReadView;
  voteStats : gmap Z VoteStats;
  viewSeq : Z;
}.

Inductive TER := temDISABLED | tecDIR_FULL | tesSUCCESS.

Definition maxExclusions : nat := 100.

Definition removeExclusion (toRemove : Z) (entries : list (option Z)) : list (option Z) :=
  filter (fun e => e <> Some toRemove) entries.

Definition addExclusion (toAdd : Z) (entries : list (option Z)) : list (option Z) :=
  if decide (Some toAdd ∈ entries) then entries
  else if decide (length entries < maxExclusions)%nat then entries ++ [Some toAdd]
  else entries.

Definition editList (tx : VoteTx) (entries : list (option Z)) : list (option Z) :=
  let entries := match tx_ExclusionRemove tx with
                 | Some a => removeExclusion a entries | None => entries end in
  match tx_ExclusionAdd tx with Some a => addExclusion a entries | None => entries end.

Definition set_account (v : Z) (root : AccountRoot) (view : ReadView) : ReadView :=
  {| rules := rules view; accounts := <[v := root]> (accounts view) |}.

Section Apply.

Context (calcAccountID : Z -> Z) (dirInsert : ApplyView -> Z -> option Z).

(** [ValidatorVoteStats]: created on the first vote, then counted up. *)
Definition countVote (tx : VoteTx) (av : ApplyView) : option ApplyView :=
  let v := calcAccountID (tx_ValidatorPublicKey tx) in
  match voteStats av !! v with
  | None =>
      match dirInsert av v with
      | None => None
      | Some page =>
          Some (mkView (ledger av)
            (<[v := {| vs_Account := v; vs_VoteCount := 1; vs_OwnerNode := page;
                       vs_PreviousTxnID := tx; vs_PreviousTxnLgrSeq := viewSeq av |}]> (voteStats av))
            (viewSeq av))
      end
  | Some s =>
      Some (mkView (ledger av)
        (<[v := {| vs_Account := vs_Account s; vs_VoteCount := u32 (vs_VoteCount s + 1);
                   vs_OwnerNode := vs_OwnerNode s; vs_PreviousTxnID := tx;
                   vs_PreviousTxnLgrSeq := viewSeq av |}]> (voteStats av))
        (viewSeq av))
  end.

(** The account of the validator, created when the ledger has none. *)
Definition validatorRoot (v : Z) (av : ApplyView) : AccountRoot :=
  match accounts (ledger av) !! v with
  | Some root => root
  | None => {| Balance := 0;
               Sequence := if deletableAccounts (rules (ledger av)) then viewSeq av else 1;
               OwnerCount := 0; exclusionList := None |}
  end.

Definition editExclusions (tx : VoteTx) (av : ApplyView) (m : ExclusionManager)
    : ApplyView * ExclusionManager :=
  let v := calcAccountID (tx_ValidatorPublicKey tx) in
  let root := validatorRoot v av in
  let entries := editList tx (listOf root) in
  let root' := {| Balance := Balance root; Sequence := Sequence root; OwnerCount := OwnerCount root;
                  exclusionList := match entries with [] => None | _ => Some entries end |} in
  (mkView (set_account v root' (ledger av)) (voteStats av) (viewSeq av),
   updateValidatorExclusions v (list_to_set (named entries)) m).

Definition applyValidatorVote (tx : VoteTx) (st : ApplyView * ExclusionManager)
    : TER * (ApplyView * ExclusionManager) :=
  let '(av, m) := st in
  if negb (validatorVoteTracking (rules (ledger av))) then (temDISABLED, st)
  else match countVote tx av with
  | None => (tecDIR_FULL, st)
  | Some av =>
      (tesSUCCESS,
       if accountExclusion (rules (ledger av)) &&
          (bool_decide (is_Some (tx_ExclusionAdd tx)) ||
           bool_decide (is_Some (tx_ExclusionRemove tx)))
       then editExclusions tx av m
       else (av, m))
  end.

(** ** The exclusion lists *)

Lemma elem_of_named a entries : a ∈ named entries <-> Some a ∈ entries.
Proof.
  unfold named. rewrite list_elem_of_omap. split; [by intros (? & ? & [= ->])|by exists (Some a)].
Qed.

Lemma named_remove a entries : named (removeExclusion a entries) = filter (fun b => b <> a) (named entries).
Proof.
  unfold removeExclusion. induction entries as [|[b|] entries IH]; [done| |]; rewrite filter_cons.
  - change (named (Some b :: entries)) with (b :: named entries). rewrite filter_cons.
    destruct (decide (b = a)) as [->|Hne].
    + rewrite !decide_False by (intros Hn; by apply Hn). apply IH.
    + rewrite !decide_True by congruence. rewrite <- IH. done.
  - rewrite decide_True by done. apply IH.
Qed.

Lemma named_app l k : named (l ++ k) = named l ++ named k.
Proof. unfold named. apply omap_app. Qed.

Record list_ok (entries : list (option Z)) : Prop := {
  lo_nodup : NoDup (named entries);
  lo_short : (length entries <= maxExclusions)%nat;
}.

Lemma removeExclusion_ok a entries : list_ok entries -> list_ok (removeExclusion a entries).
Proof.
  intros [Hn Hs]. split.
  - rewrite named_remove. by apply NoDup_filter.
  - unfold removeExclusion. etrans; [apply length_filter|done].
Qed.

Lemma addExclusion_ok a entries : list_ok entries -> list_ok (addExclusion a entries).
Proof.
  intros [Hn Hs]. unfold addExclusion. case_decide as Hin; [done|]. case_decide; [|done]. split.
  - rewrite named_app. apply NoDup_app. split_and!; [done| |by apply NoDup_singleton].
    intros b Hb%elem_of_named Hb'. cbn in Hb'. set_solver.
  - rewrite length_app. cbn. lia.
Qed.

Lemma editList_ok tx entries : list_ok entries -> list_ok (editList tx entries).
Proof.
  intros Hl. unfold editList. destruct (tx_ExclusionRemove tx), (tx_ExclusionAdd tx);
    auto using removeExclusion_ok, addExclusion_ok.
Qed.

Definition lists_ok (view : ReadView) : Prop :=
  map_Forall (fun _ root => list_ok (listOf root)) (accounts view).

Lemma listOf_edited entries b s o :
  listOf {| Balance := b; Sequence := s; OwnerCount := o;
            exclusionList := match entries with [] => None | _ => Some entries end |} = entries.
Proof. by destruct entries. Qed.

Lemma countVote_ledger tx av av' : countVote tx av = Some av' -> ledger av' = ledger av.
Proof.
  unfold countVote. destruct (voteStats av !! _); [by intros [= <-]|].
  destruct (dirInsert _ _); [by intros [= <-]|done].
Qed.

Lemma validatorRoot_ok v av : lists_ok (ledger av) -> list_ok (listOf (validatorRoot v av)).
Proof.
  intros Hl. unfold validatorRoot. destruct (accounts _ !! v) eqn:E; [by apply (Hl v)|].
  split; cbn; [constructor|unfold maxExclusions; lia].
Qed.

Lemma editExclusions_lists_ok tx av m :
  lists_ok (ledger av) -> lists_ok (ledger (editExclusions tx av m).1).
Proof.
  intros Hl. cbn. apply map_Forall_insert_2; [|done].
  rewrite listOf_edited. by apply editList_ok, validatorRoot_ok.
Qed.

Lemma applyValidatorVote_lists_ok tx st :
  lists_ok (ledger st.1) -> lists_ok (ledger (applyValidatorVote tx st).2.1).
Proof.
  destruct st as [av m]. intros Hl. unfold applyValidatorVote.
  destruct (negb _); [done|]. destruct (countVote tx av) as [av'|] eqn:E; [|done].
  apply countVote_ledger in E. cbn [snd]. destruct (_ && _); [|by cbn; rewrite E].
  apply editExclusions_lists_ok. by rewrite E.
Qed.

(** ** Cache and ledger *)

(** The cache holds the lists that the ledger has for the validators [trusted]. *)
Record coherent (trusted : gset Z) (st : ApplyView * ExclusionManager) : Prop := {
  co_lists : lists_ok (ledger st.1);
  co_cache : cache_ok st.2;
  co_ready : initialized_ st.2 = true;
  co_agree : ledgerLists calcAccountID trusted (ledger st.1) (validatorExclusions_ st.2);
}.

Lemma update_lookup v s m u :
  validatorExclusions_ (updateValidatorExclusions v s m) !! u =
  if decide (u = v) then (if decide (s = ∅) then None else Some s)
  else validatorExclusions_ m !! u.
Proof.
  unfold updateValidatorExclusions. cbn.
  destruct (decide (u = v)) as [->|Hne]; case_decide;
    rewrite ?lookup_insert_eq, ?lookup_delete_eq, ?lookup_insert_ne, ?lookup_delete_ne by done; done.
Qed.

Lemma listAt_set_account u v root view :
  listAt (set_account v root view) u =
  if decide (u = v)
  then (if decide (list_to_set (named (listOf root)) = (∅ : gset Z)) then None
        else Some (list_to_set (named (listOf root))))
  else listAt view u.
Proof.
  unfold listAt, set_account. cbn. destruct (decide (u = v)) as [->|Hne].
  - by rewrite lookup_insert_eq.
  - by rewrite lookup_insert_ne.
Qed.

Lemma editExclusions_coherent trusted tx av m :
  coherent trusted (av, m) -> coherent ({[tx_ValidatorPublicKey tx]} ∪ trusted) (editExclusions tx av m).
Proof.
  intros [Hl Hc Hr Ha]. split.
  - by apply editExclusions_lists_ok.
  - by apply updateValidatorExclusions_ok.
  - done.
  - intros u. unfold editExclusions. cbn [fst snd ledger].
    rewrite update_lookup, listAt_set_account, listOf_edited.
    destruct (decide (u = _)) as [->|Hne].
    + rewrite (decide_True (P := _ ∈ unl _ _)); [done|]. apply elem_of_map_2. set_solver.
    + cbn in Ha. rewrite Ha. apply decide_ext. unfold unl. rewrite set_map_union, set_map_singleton. set_solver.
Qed.

(** The vote is applied and touches an exclusion list. *)
Definition edits (tx : VoteTx) (av : ApplyView) : bool :=
  validatorVoteTracking (rules (ledger av)) && bool_decide (is_Some (countVote tx av)) &&
  accountExclusion (rules (ledger av)) &&
  (bool_decide (is_Some (tx_ExclusionAdd tx)) || bool_decide (is_Some (tx_ExclusionRemove tx))).

Definition applyVotes (txs : list VoteTx) (st : ApplyView * ExclusionManager)
    : ApplyView * ExclusionManager :=
  foldl (fun st tx => (applyValidatorVote tx st).2) st txs.

(** The validators whose lists the votes touched. *)
Fixpoint heard (txs : list VoteTx) (st : ApplyView * ExclusionManager) : gset Z :=
  match txs with
  | [] => ∅
  | tx :: txs =>
      (if edits tx st.1 then {[tx_ValidatorPublicKey tx]} else ∅) ∪ heard txs (applyValidatorVote tx st).2
  end.

Lemma applyValidatorVote_coherent trusted tx st :
  coherent trusted st ->
  coherent ((if edits tx st.1 then {[tx_ValidatorPublicKey tx]} else ∅) ∪ trusted) (applyValidatorVote tx st).2.
Proof.
  destruct st as [av m]. intros Hco. unfold applyValidatorVote, edits. cbn [fst].
  assert (coherent (∅ ∪ trusted) (av, m)) as Hco' by by rewrite (left_id_L ∅ (∪)).
  destruct (validatorVoteTracking _); [|done]. cbn [negb andb].
  destruct (countVote tx av) as [av'|] eqn:E; [|by rewrite bool_decide_eq_false_2 by by intros [? ?]].
  rewrite bool_decide_eq_true_2 by eauto. apply countVote_ledger in E. rewrite E. cbn [snd andb].
  assert (forall T, coherent T (av, m) -> coherent T (av', m)) as Hsame
    by (intros T [? ? ? ?]; split; cbn in *; by rewrite ?E).
  destruct (_ && _); [apply editExclusions_coherent|]; by apply Hsame.
Qed.

Lemma applyVotes_coherent trusted txs st :
  coherent trusted st -> coherent (trusted ∪ heard txs st) (applyVotes txs st).
Proof.
  revert trusted st. induction txs as [|tx txs IH]; intros trusted st Hco; cbn.
  - by rewrite (right_id_L ∅ (∪)).
  - rewrite (assoc_L (∪)), (comm_L (∪) trusted). by apply IH, applyValidatorVote_coherent.
Qed.

Lemma heard_voters txs st : heard txs st ⊆ list_to_set (tx_ValidatorPublicKey <$> txs).
Proof.
  revert st. induction txs as [|tx txs IH]; intros st; cbn; [done|]. specialize (IH (applyValidatorVote tx st).2).
  destruct (edits tx st.1); set_solver.
Qed.

(** Accounts are told apart by [calcAccountID] for the validators in [T]. *)
Definition tells_apart (T : gset Z) : Prop :=
  forall x y, x ∈ T -> y ∈ T -> calcAccountID x = calcAccountID y -> x = y.

Lemma lists_ok_distinct trusted view : lists_ok view -> distinct calcAccountID trusted view.
Proof. intros Hl v root _ Hv. by apply (Hl v). Qed.

Lemma rebuild_coherent trusted av m :
  tells_apart trusted -> lists_ok (ledger av) -> accountExclusion (rules (ledger av)) = true ->
  coherent trusted (av, rebuildCache calcAccountID trusted (ledger av) m).
Proof.
  intros Hinj Hl Hon.
  destruct (rebuildCache_ok calcAccountID trusted Hinj (ledger av) m) as [Hc Ha];
    [by apply lists_ok_distinct|done|].
  split; try done. cbn. unfold rebuildCache. rewrite Hon. cbn. by destruct (foldl _ _ _).
Qed.

Lemma applyVotes_rules txs st :
  rules (ledger (applyVotes txs st).1) = rules (ledger st.1).
Proof.
  unfold applyVotes. apply (foldl_inv (fun st' => rules (ledger st'.1) = rules (ledger st.1))); [done|].
  intros [av m] tx _ <-. unfold applyValidatorVote. destruct (negb _); [done|].
  destruct (countVote tx av) eqn:E; [|done]. apply countVote_ledger in E. cbn [snd].
  destruct (_ && _); cbn; by rewrite E.
Qed.

(** Without the amendment nothing happens to the cache. *)
Lemma applyVotes_off txs st :
  accountExclusion (rules (ledger st.1)) = false -> (applyVotes txs st).2 = st.2.
Proof.
  intros Hoff. revert st Hoff. induction txs as [|tx txs IH]; intros [av m] Hoff; cbn in *; [done|].
  unfold applyValidatorVote at 1. destruct (negb _); [by apply (IH (av, m))|].
  destruct (countVote tx av) as [av'|] eqn:E; [|by apply (IH (av, m))].
  apply countVote_ledger in E. rewrite E, Hoff. cbn. apply (IH (av', m)). cbn. by rewrite E.
Qed.

(** A rebuild depends on the ledger only. *)
Lemma rebuild_excluded trusted view m m' a :
  accountExclusion (rules view) = true ->
  isExcluded a (rebuildCache calcAccountID trusted view m) = isExcluded a (rebuildCache calcAccountID trusted view m').
Proof. intros Hon. unfold rebuildCache. rewrite Hon. cbn. by destruct (foldl _ _ _). Qed.

(** Updating the cache vote by vote and rebuilding it give the same cache. *)
Lemma incremental_is_rebuild trusted txs av m :
  tells_apart (trusted ∪ list_to_set (tx_ValidatorPublicKey <$> txs)) -> lists_ok (ledger av) ->
  let st := (av, rebuildCache calcAccountID trusted (ledger av) m) in
  let '(av', m') := applyVotes txs st in
  rebuildCache calcAccountID (trusted ∪ heard txs st) (ledger av') m' = m'.
Proof.
  intros Hinj Hl st.
  pose proof (applyVotes_rules txs st) as Hru. pose proof (applyVotes_off txs st) as Hoff.
  pose proof (heard_voters txs st) as Hheard.
  destruct (accountExclusion (rules (ledger av))) eqn:Hon.
  - assert (coherent trusted st) as Hco.
    { apply rebuild_coherent; try done. intros x y ? ?. apply Hinj; set_solver. }
    apply (applyVotes_coherent _ txs) in Hco.
    destruct (applyVotes txs st) as [av' m']. destruct Hco as [Hl' Hc' Hr' Ha']. cbn in *.
    apply rebuildCache_id; try done; [|by apply lists_ok_distinct|by rewrite Hru].
    intros x y ? ?. apply Hinj; set_solver.
  - specialize (Hoff Hon). destruct (applyVotes txs st) as [av' m']. cbn in *. subst m'.
    unfold rebuildCache. rewrite Hru, Hon. done.
Qed.

End Apply.
