(* ===== verification/OwnExclusions.v ===== *)
(** * The exclusions a validator asks for

    Models [ValidatorExclusionManager.h/.cpp]: the validator compares the
    accounts it wants excluded (its configuration and the remote lists) with
    its list in the ledger, queues the differences and attaches at most one of
    them to a validation every [CHANGE_INTERVAL] ledgers.  The remote fetcher
    and the cache of excluded accounts are passed along; the ledger the node
    closed last and the validator's master key are arguments. *)

From S2P Require Import Prelude ConsensusParms RemoteFetcher ExclusionManager ExclusionFacts.
From S2P Require Import ValidatorVote ApplyVote.

Record ValidatorManager := mkValidatorManager {
  configuredExclusions_ : gset Z;
  hasFetcher : bool;
  pendingChanges_ : list (bool * Z);
  lastChangeLedger_ : Z;
  ready_ : bool;
  validatorAccount_ : option Z;
}.

Definition CHANGE_INTERVAL : Z := 10.

(** The constructor also starts the fetcher and connects it to the cache. *)
Definition newValidatorManager (configured : gset Z) (sources : list Source) : ValidatorManager :=
  mkValidatorManager configured (bool_decide (sources <> [])) [] 0 false None.

Definition set_pending (p : list (bool * Z)) (vm : ValidatorManager) : ValidatorManager :=
  mkValidatorManager (configuredExclusions_ vm) (hasFetcher vm) p (lastChangeLedger_ vm)
    (ready_ vm) (validatorAccount_ vm).

(** The fetcher, when there is one, has fetched every source. *)
Definition fetcherReady (f : Fetcher) (vm : ValidatorManager) : bool :=
  if hasFetcher vm then initialFetchComplete_ f && allSourcesAccessible_ f else true.

(** The accounts the validator wants on its list. *)
Definition wanted (f : Fetcher) (vm : ValidatorManager) : gset Z :=
  configuredExclusions_ vm ∪ (if hasFetcher vm then combinedExclusions_ f else ∅).

Definition updatePendingChanges (currentExclusions : gset Z) (f : Fetcher) (vm : ValidatorManager)
    : ValidatorManager :=
  set_pending
    (if negb (fetcherReady f vm) then []
     else (pair true <$> elements (wanted f vm ∖ currentExclusions)) ++
          (pair false <$> elements (currentExclusions ∖ wanted f vm)))
    vm.

(** The accounts on the list of [v] in a ledger. *)
Definition exclusionsIn (view : ReadView) (v : Z) : gset Z :=
  match accounts view !! v with
  | Some root => list_to_set (named (listOf root))
  | None => ∅
  end.

Definition getCurrentExclusionsFromLedger (closed : option ReadView) (vm : ValidatorManager)
    : gset Z :=
  match validatorAccount_ vm, closed with
  | Some v, Some view => exclusionsIn view v
  | _, _ => ∅
  end.

Definition reasonsOf (f : Fetcher) (em : ExclusionManager) : ExclusionManager :=
  let reasons := getExclusionReasons f in
  if decide (reasons = ∅) then em else updateExclusionReasons (infoOf <$> reasons) em.

Definition updateExclusionManagerReasons (f : Fetcher) (vm : ValidatorManager)
    (em : ExclusionManager) : ExclusionManager :=
  if hasFetcher vm then reasonsOf f em else em.

(** The part of [getExclusionChange] that follows the remote lists. *)
Definition followRemote (closed : option ReadView) (f : Fetcher) (vm : ValidatorManager)
    (em : ExclusionManager) : Fetcher * ValidatorManager * ExclusionManager :=
  if hasFetcher vm then
    let '(modified, f) := hasBeenModified true f in
    if modified
    then (f, updatePendingChanges (getCurrentExclusionsFromLedger closed vm) f vm, reasonsOf f em)
    else (f, vm, em)
  else (f, vm, em).

(** The rate limit and the queue. *)
Definition nextChange (seq : Z) (vm : ValidatorManager)
    : option (option Z * option Z) * ValidatorManager :=
  if seq <? u32 (lastChangeLedger_ vm + CHANGE_INTERVAL) then (None, vm)
  else match pendingChanges_ vm with
  | [] => (None, vm)
  | (isAdd, account) :: rest =>
      (Some (if isAdd : bool then (Some account, None) else (None, Some account)),
       mkValidatorManager (configuredExclusions_ vm) (hasFetcher vm) rest seq
         (ready_ vm) (validatorAccount_ vm))
  end.

Definition getExclusionChange (seq : Z) (closed : option ReadView) (f : Fetcher)
    (vm : ValidatorManager) (em : ExclusionManager)
    : option (option Z * option Z) * Fetcher * ValidatorManager * ExclusionManager :=
  if negb (ready_ vm) then (None, f, vm, em)
  else if negb (fetcherReady f vm) then (None, f, vm, em)
  else
    let '(f, vm, em) := followRemote closed f vm em in
    let '(change, vm) := nextChange seq vm in
    (change, f, vm, em).

Section Initialize.

Context (calcAccountID : Z -> Z) (getTrustedKey getListedKey : Z -> option Z).

Definition keyForAccount (validatorPubKey : Z) : Z :=
  default validatorPubKey
    (match getTrustedKey validatorPubKey with
     | Some k => Some k | None => getListedKey validatorPubKey end).

Definition set_ready (account : option Z) (vm : ValidatorManager) : ValidatorManager :=
  mkValidatorManager (configuredExclusions_ vm) (hasFetcher vm) (pendingChanges_ vm)
    (lastChangeLedger_ vm) true account.

Definition initialize (validatorPubKey : Z) (view : ReadView) (f : Fetcher)
    (vm : ValidatorManager) : ValidatorManager :=
  if ready_ vm then vm
  else if negb (accountExclusion (rules view)) then set_ready (validatorAccount_ vm) vm
  else
    let v := calcAccountID (keyForAccount validatorPubKey) in
    set_ready (Some v) (updatePendingChanges (exclusionsIn view v) f vm).

End Initialize.

(** ** The queue leads from the list to the wanted accounts *)

Definition applyChange (s : gset Z) (c : bool * Z) : gset Z :=
  if c.1 then {[c.2]} ∪ s else s ∖ {[c.2]}.

Definition applyChanges (changes : list (bool * Z)) (s : gset Z) : gset Z :=
  foldl applyChange s changes.

Lemma applyChanges_add l s : applyChanges (pair true <$> l) s = list_to_set l ∪ s.
Proof.
  unfold applyChanges. revert s. induction l as [|a l IH]; intros s; cbn; [set_solver|].
  rewrite IH. set_solver.
Qed.

Lemma applyChanges_remove l s : applyChanges (pair false <$> l) s = s ∖ list_to_set l.
Proof.
  unfold applyChanges. revert s. induction l as [|a l IH]; intros s; cbn; [set_solver|].
  rewrite IH. set_solver.
Qed.

Lemma updatePendingChanges_spec current f vm :
  fetcherReady f vm = true ->
  applyChanges (pendingChanges_ (updatePendingChanges current f vm)) current = wanted f vm.
Proof.
  intros Hr. unfold updatePendingChanges. rewrite Hr. cbn [negb set_pending pendingChanges_].
  unfold applyChanges. rewrite foldl_app.
  change (foldl applyChange current ?l) with (applyChanges l current).
  change (foldl applyChange ?s ?l) with (applyChanges l s).
  rewrite applyChanges_remove, applyChanges_add, !list_to_set_elements_L.
  generalize (wanted f vm). intros w. apply set_eq. intros a.
  destruct (decide (a ∈ w)), (decide (a ∈ current)); set_solver.
Qed.

(** The additions a queue still holds. *)
Definition additions (changes : list (bool * Z)) : nat := length (filter (fun c => c.1 = true) changes).

(** ** Rate limit *)

Lemma nextChange_spaced seq vm change vm' :
  0 <= lastChangeLedger_ vm < 2 ^ 32 - CHANGE_INTERVAL ->
  nextChange seq vm = (Some change, vm') ->
  lastChangeLedger_ vm + CHANGE_INTERVAL <= seq /\ lastChangeLedger_ vm' = seq.
Proof.
  intros Hb. unfold nextChange. unfold CHANGE_INTERVAL in *.
  rewrite u32_id by lia. destruct (Z.ltb_spec seq (lastChangeLedger_ vm + 10)); [done|].
  destruct (pendingChanges_ vm) as [|[b a] rest]; [done|]. intros [= _ <-]. done.
Qed.

Lemma followRemote_last closed f vm em :
  lastChangeLedger_ (followRemote closed f vm em).1.2 = lastChangeLedger_ vm /\
  ready_ (followRemote closed f vm em).1.2 = ready_ vm.
Proof.
  unfold followRemote. destruct (hasFetcher vm); [|done]. cbn.
  by destruct (hasModifications_ f).
Qed.

Lemma getExclusionChange_last seq closed f vm em change f' vm' em' :
  0 <= lastChangeLedger_ vm < 2 ^ 32 - CHANGE_INTERVAL ->
  getExclusionChange seq closed f vm em = (change, f', vm', em') ->
  match change with
  | Some _ => lastChangeLedger_ vm + CHANGE_INTERVAL <= seq /\ lastChangeLedger_ vm' = seq
  | None => lastChangeLedger_ vm' = lastChangeLedger_ vm
  end.
Proof.
  intros Hb. unfold getExclusionChange.
  destruct (negb (ready_ vm)); [by intros [= <- _ <- _]|].
  destruct (negb (fetcherReady f vm)); [by intros [= <- _ <- _]|].
  pose proof (followRemote_last closed f vm em) as [Hl _].
  destruct (followRemote closed f vm em) as [[f1 vm1] em1]. cbn in Hl. rewrite <- Hl in Hb |- *.
  destruct (nextChange seq vm1) as [c vm2] eqn:E. intros [= <- _ <- _].
  destruct c as [c|]; [by eapply nextChange_spaced|]. unfold nextChange in E.
  destruct (_ <? _); [by injection E as <-|].
  destruct (pendingChanges_ vm1) as [|[b a] ?]; [by injection E as <-|done].
Qed.

(** A validator's calls, in order: the ledger validated, the ledger closed and
    the fetcher as the call finds it; the result is the ledgers at which a
    change was handed out. *)
Fixpoint changeLedgers (calls : list (Z * option ReadView * Fetcher)) (vm : ValidatorManager)
    (em : ExclusionManager) : list Z :=
  match calls with
  | [] => []
  | (seq, closed, f) :: calls =>
      let '(change, _, vm, em) := getExclusionChange seq closed f vm em in
      match change with
      | Some _ => seq :: changeLedgers calls vm em
      | None => changeLedgers calls vm em
      end
  end.

(** Each ledger of the list is at least [CHANGE_INTERVAL] after the one before. *)
Fixpoint spaced (last : Z) (l : list Z) : Prop :=
  match l with
  | [] => True
  | seq :: l => last + CHANGE_INTERVAL <= seq /\ spaced seq l
  end.

Lemma changeLedgers_spaced calls : forall vm em,
  0 <= lastChangeLedger_ vm < 2 ^ 32 - CHANGE_INTERVAL ->
  Forall (fun c => 0 <= c.1.1 < 2 ^ 32 - CHANGE_INTERVAL) calls ->
  spaced (lastChangeLedger_ vm) (changeLedgers calls vm em).
Proof.
  induction calls as [|[[seq closed] f] calls IH]; intros vm em Hb Hc; cbn; [done|].
  apply Forall_cons in Hc as [Hs Hc]. cbn in Hs.
  destruct (getExclusionChange seq closed f vm em) as [[[change f'] vm'] em'] eqn:E.
  pose proof (getExclusionChange_last _ _ _ _ _ _ _ _ _ Hb E) as Hl.
  destruct change.
  - destruct Hl as [H1 H2]. split; [done|]. rewrite <- H2 in Hs |- *. by apply IH.
  - rewrite <- Hl in Hb |- *. by apply IH.
Qed.

(** ** From the configuration to the ledger *)

Section Convergence.

Context (calcAccountID : Z -> Z) (dirInsert : ApplyView -> Z -> option Z).
Context (key : Z) (hashes : Z -> Z * Z).

Abbreviation account := (calcAccountID key).

(** The votes of other validators for a ledger that arrive before and after the
    validator's own. *)
Context (before after : Z -> list Vote).
Context (others : forall seq v, v ∈ before seq \/ v ∈ after seq ->
  ledgerSeq v = seq /\ calcAccountID (validatorKey v) <> account).

(** One ledger [seq]: the validator validates it with the change it has, the
    votes are recorded, proposed and applied to the next ledger. *)
Definition validatedVote (seq : Z) (change : option (option Z * option Z)) : Vote := {|
  validatorKey := key; ledgerHash := (hashes seq).1; ledgerSeq := seq;
  validationHash := (hashes seq).2; voteTime := 0;
  exclusionAdd := change ≫= fst; exclusionRemove := change ≫= snd |}.

Record Node := mkNode {
  node_own : ValidatorManager;
  node_fetcher : Fetcher;
  node_tracker : VoteTracker;
  node_view : ApplyView;
  node_cache : ExclusionManager;
}.

Definition votingRound (st : Node) (seq : Z) : Node :=
  let '(mkNode vm f t av em) := st in
  let '(change, f, vm, em) := getExclusionChange seq (Some (ledger av)) f vm em in
  let '(txs, t) := doVoting (validatorVoteTracking (rules (ledger av))) seq []
    (recordVotes (before seq ++ validatedVote seq change :: after seq) t) in
  let '(av, em) := applyVotes calcAccountID dirInsert txs (av, em) in
  mkNode vm f t av em.

(** The validator's vote is proposed, among others. *)
Lemma doVoting_own seq t change :
  0 <= seq -> votesByLedger_ t !! seq = None -> processedValidators_ t !! seq = None ->
  exists l1 l2 t', doVoting true seq [] (recordVotes (before seq ++ validatedVote seq change :: after seq) t) =
    (l1 ++ voteTx (validatedVote seq change) :: l2, t') /\
    Forall (fun tx => calcAccountID (tx_ValidatorPublicKey tx) <> account) (l1 ++ l2) /\
    forall s, seq < s -> votesByLedger_ t !! s = None -> processedValidators_ t !! s = None ->
      votesByLedger_ t' !! s = None /\ processedValidators_ t' !! s = None.
Proof using others.
  intros H0 Hv Hp. set (mine := validatedVote seq change). set (votes := before seq ++ mine :: after seq).
  destruct (recordVotes_spec votes t seq) as (Ep & Eo & Ev).
  { apply Forall_app. split; [|apply Forall_cons; split; [done|]];
      apply Forall_forall; intros v Hin; apply (others seq v); auto. }
  rewrite Hv in Ev. cbn in Ev.
  assert (votesByLedger_ (recordVotes votes t) !! seq = Some votes) as Ev'.
  { destruct (votesByLedger_ (recordVotes votes t) !! seq); cbn in Ev; [by rewrite Ev|].
    symmetry in Ev. by apply app_nil in Ev as [_ ?]. }
  destruct (doVoting_spec seq [] (recordVotes votes t) votes H0 Ev') as (t' & Ed & _).
  { intros E. by apply app_nil in E as [_ ?]. }
  pose proof (fun s => doVoting_later true seq [] (recordVotes votes t) s) as Hlater.
  rewrite Ed in Hlater |- *. rewrite Ep in Hlater |- *. rewrite Hp in Hlater |- *. cbn [snd default] in Hlater |- *.
  destruct (firstVotes_split mine ∅ (before seq) (after seq)) as (k1 & k2 & Ef & H1 & H2); [set_solver| |].
  { intros v Hin E. destruct (others seq v) as [_ Hne]; [by left|]. apply Hne. by rewrite E. }
  exists (voteTx <$> k1), (voteTx <$> k2), t'. split_and!.
  - f_equal. change (from_option id ∅ None) with (∅ : gset Z). unfold votes. rewrite Ef, addItems_distinct.
    + by rewrite fmap_app, fmap_cons.
    + cbn [app]. rewrite voteTx_keys, <- Ef. apply firstVotes_nodup.
  - rewrite <- fmap_app. apply Forall_fmap, Forall_forall. intros v Hin. cbn.
    apply (others seq v). apply elem_of_app in Hin as [Hin|Hin]; auto.
  - intros s Hs Hs1 Hs2. apply Hlater; [done| |done]. rewrite Eo by lia. done.
Qed.

Lemma exclusionsIn_root av v :
  exclusionsIn (ledger av) v = list_to_set (named (listOf (validatorRoot v av))).
Proof. unfold exclusionsIn, validatorRoot. by destruct (accounts (ledger av) !! v). Qed.

Lemma listOf_root av av' :
  ledger av' = ledger av -> listOf (validatorRoot account av') = listOf (validatorRoot account av).
Proof. intros E. unfold validatorRoot. rewrite E. by destruct (accounts (ledger av) !! account). Qed.

Lemma named_add a entries :
  (length entries < maxExclusions)%nat ->
  list_to_set (named (addExclusion a entries)) = ({[a]} ∪ list_to_set (named entries) : gset Z).
Proof.
  intros Hlen. unfold addExclusion. case_decide as Hin.
  - apply elem_of_named in Hin. apply (elem_of_list_to_set (C := gset Z)) in Hin. set_solver.
  - rewrite decide_True by done. rewrite named_app, list_to_set_app_L. cbn. set_solver.
Qed.

Lemma named_removed a entries :
  list_to_set (named (removeExclusion a entries)) = (list_to_set (named entries) ∖ {[a]} : gset Z).
Proof.
  rewrite named_remove. apply set_eq. intros b.
  rewrite elem_of_difference, !elem_of_list_to_set, list_elem_of_filter. set_solver.
Qed.

Lemma addExclusion_length a entries : (length (addExclusion a entries) <= S (length entries))%nat.
Proof.
  unfold addExclusion. case_decide; [lia|]. case_decide; [|lia]. rewrite length_app. cbn. lia.
Qed.

(** The change [c] as the vote carries it. *)
Definition carries (c : bool * Z) (tx : VoteTx) : Prop :=
  (tx_ExclusionAdd tx, tx_ExclusionRemove tx) =
  if c.1 then (Some c.2, None) else (None, Some c.2).

Lemma editList_change c tx entries :
  carries c tx -> (length entries + (if c.1 then 1 else 0) <= maxExclusions)%nat ->
  list_to_set (named (editList tx entries)) = applyChange (list_to_set (named entries)) c /\
  (length (editList tx entries) <= length entries + (if c.1 then 1 else 0))%nat.
Proof.
  unfold carries, editList, applyChange. destruct c as [[] a]; cbn; intros [= -> ->] Hlen.
  - split; [apply named_add; lia|]. pose proof (addExclusion_length a entries). lia.
  - split; [apply named_removed|]. unfold removeExclusion. rewrite Nat.add_0_r. apply length_filter.
Qed.

(** What a round relies on. *)
Record voting (av : ApplyView) : Prop := {
  vo_tracking : validatorVoteTracking (rules (ledger av)) = true;
  vo_exclusion : accountExclusion (rules (ledger av)) = true;
  vo_known : is_Some (voteStats av !! account) \/ forall av', is_Some (dirInsert av' account);
}.

Lemma countVote_known tx av :
  tx_ValidatorPublicKey tx = key -> voting av ->
  exists av', countVote calcAccountID dirInsert tx av = Some av' /\ voting av' /\ ledger av' = ledger av.
Proof.
  intros Hk [Ht He Hs]. unfold countVote. rewrite Hk. destruct (voteStats av !! account) as [s|] eqn:E.
  - eexists. split; [done|]. split; [|done]. split; try done. left. cbn. rewrite lookup_insert_eq. eauto.
  - destruct Hs as [[? ?]|Hd]; [done|]. destruct (Hd av) as [page ->].
    eexists. split; [done|]. split; [|done]. split; try done. by right.
Qed.

(** The votes of others leave the validator's list alone. *)
Lemma other_votes txs av em :
  Forall (fun tx => calcAccountID (tx_ValidatorPublicKey tx) <> account) txs -> voting av ->
  let av' := (applyVotes calcAccountID dirInsert txs (av, em)).1 in
  voting av' /\ listOf (validatorRoot account av') = listOf (validatorRoot account av).
Proof.
  intros Ho Hv. unfold applyVotes.
  apply (foldl_inv (fun st => voting st.1 /\
    listOf (validatorRoot account st.1) = listOf (validatorRoot account av))); [done|].
  intros [av1 em1] tx Hin [[V1 V2 V3] <-]. cbn [fst] in *. rewrite Forall_forall in Ho. specialize (Ho tx Hin).
  unfold applyValidatorVote. destruct (negb _); [by split|].
  destruct (countVote calcAccountID dirInsert tx av1) as [av2|] eqn:E; [|by split].
  pose proof (countVote_ledger _ _ _ _ _ E) as El.
  assert (is_Some (voteStats av2 !! account) \/ forall av', is_Some (dirInsert av' account)) as V3'.
  { destruct V3 as [V3|]; [left|by right]. unfold countVote in E.
    destruct (voteStats av1 !! calcAccountID (tx_ValidatorPublicKey tx)); [|destruct (dirInsert av1 _); [|done]];
      injection E as <-; cbn; by rewrite lookup_insert_ne. }
  cbn [snd]. rewrite El, V2. destruct (true && _); cbn [fst editExclusions].
  - split; [split; cbn; rewrite ?El; done|]. unfold validatorRoot. cbn. rewrite lookup_insert_ne by done.
    rewrite El. by destruct (accounts (ledger av1) !! account).
  - split; [split; rewrite ?El; done|]. by apply listOf_root.
Qed.

Lemma vote_change c tx av em :
  tx_ValidatorPublicKey tx = key -> carries c tx -> voting av ->
  (length (listOf (validatorRoot account av)) + (if c.1 then 1 else 0) <= maxExclusions)%nat ->
  let av' := (applyVotes calcAccountID dirInsert [tx] (av, em)).1 in
  voting av' /\
  exclusionsIn (ledger av') account = applyChange (exclusionsIn (ledger av) account) c /\
  (length (listOf (validatorRoot account av')) <=
   length (listOf (validatorRoot account av)) + (if c.1 then 1 else 0))%nat.
Proof.
  intros Hk Hc Hv Hlen. cbn. unfold applyValidatorVote. rewrite (vo_tracking av Hv). cbn [negb].
  destruct (countVote_known tx av Hk Hv) as (av1 & -> & Hv1 & Hl). cbn [snd].
  rewrite (vo_exclusion av1 Hv1).
  assert (bool_decide (is_Some (tx_ExclusionAdd tx)) ||
          bool_decide (is_Some (tx_ExclusionRemove tx)) = true) as ->.
  { revert Hc. unfold carries. destruct c as [[] a]; cbn; by intros [= -> ->]. }
  cbn [andb]. rewrite exclusionsIn_root, (exclusionsIn_root av).
  assert (listOf (validatorRoot account av1) = listOf (validatorRoot account av)) as Er.
  { by apply listOf_root. }
  assert (listOf (validatorRoot account (editExclusions calcAccountID tx av1 em).1) =
          editList tx (listOf (validatorRoot account av))) as ->.
  { unfold editExclusions. rewrite Hk. unfold validatorRoot at 1. cbn. rewrite lookup_insert_eq.
    by rewrite listOf_edited, Er. }
  split; [|by apply editList_change]. unfold editExclusions. by destruct Hv1; split.
Qed.

Lemma vote_nothing tx av em :
  tx_ValidatorPublicKey tx = key -> tx_ExclusionAdd tx = None -> tx_ExclusionRemove tx = None ->
  voting av ->
  let av' := (applyVotes calcAccountID dirInsert [tx] (av, em)).1 in
  voting av' /\ ledger av' = ledger av.
Proof.
  intros Hk Ha Hr Hv. cbn. unfold applyValidatorVote. rewrite (vo_tracking av Hv). cbn [negb].
  destruct (countVote_known tx av Hk Hv) as (av1 & -> & Hv1 & Hl). cbn [snd].
  rewrite Ha, Hr. cbn. by rewrite andb_false_r.
Qed.

(** The validator's vote among others. *)
Lemma votes_around l1 tx l2 av em :
  Forall (fun tx => calcAccountID (tx_ValidatorPublicKey tx) <> account) (l1 ++ l2) -> voting av ->
  exists av1 em1, voting av1 /\ listOf (validatorRoot account av1) = listOf (validatorRoot account av) /\
  let av2 := (applyVotes calcAccountID dirInsert [tx] (av1, em1)).1 in
  let av3 := (applyVotes calcAccountID dirInsert (l1 ++ tx :: l2) (av, em)).1 in
  voting av2 -> voting av3 /\ listOf (validatorRoot account av3) = listOf (validatorRoot account av2).
Proof.
  intros [H1 H2]%Forall_app Hv. destruct (other_votes l1 av em H1 Hv) as [Hv1 E1].
  destruct (applyVotes calcAccountID dirInsert l1 (av, em)) as [av1 em1] eqn:Ea. cbn in Hv1, E1.
  exists av1, em1. split_and!; [done..|]. cbv zeta.
  replace (applyVotes calcAccountID dirInsert (l1 ++ tx :: l2) (av, em)) with
    (applyVotes calcAccountID dirInsert l2 (applyVotes calcAccountID dirInsert [tx] (av1, em1)))
    by (rewrite <- Ea; unfold applyVotes; by rewrite foldl_app).
  destruct (applyVotes calcAccountID dirInsert [tx] (av1, em1)) as [av2 em2]. cbn [fst]. by apply other_votes.
Qed.

(** The state after some rounds: the changes [p] are left and lead to [w]; a
    change of the remote lists that was not looked at yet leads to the same. *)
Record underway (w : gset Z) (p : list (bool * Z)) (last : Z) (st : Node) : Prop := {
  uw_ready : ready_ (node_own st) = true;
  uw_fetched : fetcherReady (node_fetcher st) (node_own st) = true;
  uw_pending : pendingChanges_ (node_own st) = p;
  uw_modified : hasFetcher (node_own st) = true -> hasModifications_ (node_fetcher st) = true ->
    validatorAccount_ (node_own st) = Some account /\
    pendingChanges_ (updatePendingChanges (exclusionsIn (ledger (node_view st)) account)
      (node_fetcher st) (node_own st)) = p;
  uw_last : lastChangeLedger_ (node_own st) <= last;
  uw_nonneg : 0 <= lastChangeLedger_ (node_own st);
  uw_tracker : forall s, last < s ->
    votesByLedger_ (node_tracker st) !! s = None /\ processedValidators_ (node_tracker st) !! s = None;
  uw_voting : voting (node_view st);
  uw_room : (length (listOf (validatorRoot account (node_view st))) + additions p <= maxExclusions)%nat;
  uw_target : applyChanges p (exclusionsIn (ledger (node_view st)) account) = w;
}.

(** What [getExclusionChange] does between two changes of the remote lists. *)
Lemma getExclusionChange_steady w p last st seq :
  underway w p last st ->
  let '(change, f', vm', em') := getExclusionChange seq (Some (ledger (node_view st))) (node_fetcher st)
    (node_own st) (node_cache st) in
  ready_ vm' = true /\ fetcherReady f' vm' = true /\
  (hasFetcher vm' = true -> hasModifications_ f' = false) /\
  if seq <? u32 (lastChangeLedger_ (node_own st) + CHANGE_INTERVAL)
  then change = None /\ pendingChanges_ vm' = p /\ lastChangeLedger_ vm' = lastChangeLedger_ (node_own st)
  else match p with
       | [] => change = None /\ pendingChanges_ vm' = [] /\ lastChangeLedger_ vm' = lastChangeLedger_ (node_own st)
       | c :: p' => change = Some (if c.1 then (Some c.2, None) else (None, Some c.2)) /\
           pendingChanges_ vm' = p' /\ lastChangeLedger_ vm' = seq
       end.
Proof.
  intros [Hr Hf Hp Hm _ _ _ _ _ _]. unfold getExclusionChange. rewrite Hr, Hf. cbn [negb].
  destruct (followRemote (Some (ledger (node_view st))) (node_fetcher st) (node_own st) (node_cache st))
    as [[f1 vm1] em1] eqn:E.
  assert (ready_ vm1 = true /\ fetcherReady f1 vm1 = true /\ pendingChanges_ vm1 = p /\
    lastChangeLedger_ vm1 = lastChangeLedger_ (node_own st) /\
    (hasFetcher vm1 = true -> hasModifications_ f1 = false)) as (H1 & H2 & H3 & H4 & H5).
  { unfold followRemote in E. destruct (hasFetcher (node_own st)) eqn:Eh.
    2:{ injection E as <- <- <-. split_and!; [done..|congruence]. }
    unfold hasBeenModified in E. cbn in E. unfold fetcherReady in Hf. rewrite Eh in Hf.
    destruct (hasModifications_ (node_fetcher st)) eqn:Em; injection E as <- <- <-.
    - destruct (Hm eq_refl eq_refl) as [Ha Hp']. unfold getCurrentExclusionsFromLedger. rewrite Ha.
      unfold fetcherReady. cbn. rewrite Eh. by split_and!.
    - unfold fetcherReady. cbn. rewrite Eh. by split_and!. }
  unfold nextChange. rewrite H3, H4. destruct (seq <? _); [by split_and!|].
  destruct p as [|[b a] p]; by split_and!.
Qed.

Lemma additions_cons c p : additions (c :: p) = ((if c.1 then 1 else 0) + additions p)%nat.
Proof. unfold additions. rewrite filter_cons. by destruct c as [[] a]. Qed.

Lemma exclusionsIn_list av av' :
  listOf (validatorRoot account av') = listOf (validatorRoot account av) ->
  exclusionsIn (ledger av') account = exclusionsIn (ledger av) account.
Proof. intros E. by rewrite !exclusionsIn_root, E. Qed.

Lemma votingRound_step w p last st seq :
  0 <= last -> last + CHANGE_INTERVAL <= seq < 2 ^ 32 ->
  underway w p last st -> underway w (drop 1 p) seq (votingRound st seq).
Proof using others.
  intros H0 Hs Hu. pose proof (getExclusionChange_steady w p last st seq Hu) as Hc.
  destruct Hu as [_ _ _ _ Hl Hn Htr Hv Hroom Ht]. destruct st as [vm f t av em]. cbn in *.
  destruct (getExclusionChange seq (Some (ledger av)) f vm em) as [[[change f'] vm'] em'].
  destruct Hc as (Hr' & Hf' & Hm' & Hc).
  unfold CHANGE_INTERVAL in *. rewrite u32_id in Hc by lia.
  rewrite (proj2 (Z.ltb_ge seq (lastChangeLedger_ vm + 10))) in Hc by lia.
  rewrite (vo_tracking av Hv). destruct (Htr seq) as [Ht1 Ht2]; [lia|].
  destruct (doVoting_own seq t change ltac:(lia) Ht1 Ht2) as (l1 & l2 & t' & Ed & Ho & Hlater). rewrite Ed.
  destruct (votes_around l1 (voteTx (validatedVote seq change)) l2 av em' Ho Hv) as (av1 & em1 & Hv1 & E1 & Hrest).
  destruct (applyVotes calcAccountID dirInsert (l1 ++ _ :: l2) (av, em')) as [av3 em3]. cbn [fst] in Hrest.
  assert (forall s, seq < s -> votesByLedger_ t' !! s = None /\ processedValidators_ t' !! s = None) as Htr'.
  { intros s Hs'. destruct (Htr s) as [? ?]; [lia|]. by apply Hlater. }
  apply exclusionsIn_list in E1 as E1'.
  destruct p as [|c p]; cbn [drop]; destruct Hc as (-> & Ep & El).
  - destruct (vote_nothing (voteTx (validatedVote seq None)) av1 em1) as [Hv2 Hl2]; try done.
    destruct (Hrest Hv2) as [Hv3 E3]. rewrite (listOf_root _ _ Hl2), E1 in E3.
    split; cbn; try done; [intros Hh Hmod; by rewrite Hm' in Hmod|lia|lia|by rewrite E3|].
    by rewrite (exclusionsIn_list _ _ E3).
  - rewrite additions_cons in Hroom.
    set (change := Some (if c.1 then (Some c.2, None) else (None, Some c.2))) in *.
    destruct (vote_change c (voteTx (validatedVote seq change)) av1 em1) as (Hv2 & He & Hlen);
      [done|by destruct c as [[] a]|done|rewrite E1; lia|].
    destruct (Hrest Hv2) as [Hv3 E3]. rewrite E1 in Hlen.
    split; cbn; rewrite ?drop_0; try done; [intros Hh Hmod; by rewrite Hm' in Hmod|lia|lia|rewrite E3; lia|].
    rewrite (exclusionsIn_list _ _ E3), He, E1'. done.
Qed.

Lemma votingRounds_underway seqs : forall w p last st,
  0 <= last -> spaced last seqs -> Forall (fun seq => seq < 2 ^ 32) seqs ->
  underway w p last st ->
  exists last', underway w (drop (length seqs) p) last' (foldl votingRound st seqs).
Proof using others.
  induction seqs as [|seq seqs IH]; intros w p last st H0 Hsp Hb Hu; cbn.
  { exists last. by rewrite drop_0. }
  destruct Hsp as [Hs Hsp]. apply Forall_cons in Hb as [Hb1 Hb].
  change (S (length seqs)) with (1 + length seqs)%nat. rewrite <- drop_drop.
  unfold CHANGE_INTERVAL in Hs.
  apply (IH _ _ seq); [lia|done|done|]. by apply (votingRound_step _ _ last).
Qed.

(** Enough ledgers after its initialisation, a validator has exactly the
    accounts it wants on its list in the ledger. *)
Lemma exclusions_converge getTrustedKey getListedKey pubKey configured sources f av em seqs :
  keyForAccount getTrustedKey getListedKey pubKey = key -> voting av ->
  let new := newValidatorManager configured sources in
  fetcherReady f new = true ->
  let vm := initialize calcAccountID getTrustedKey getListedKey pubKey (ledger av) f new in
  (length (listOf (validatorRoot account av)) + additions (pendingChanges_ vm) <= maxExclusions)%nat ->
  spaced 0 seqs -> Forall (fun seq => seq < 2 ^ 32) seqs ->
  (length (pendingChanges_ vm) <= length seqs)%nat ->
  exclusionsIn (ledger (node_view (foldl votingRound (mkNode vm f newTracker av em) seqs))) account = wanted f new.
Proof using others.
  intros Hkey Hv new Hf vm Hroom Hsp Hb Hlen.
  assert (vm = set_ready (Some account) (updatePendingChanges (exclusionsIn (ledger av) account) f new)) as Evm.
  { unfold vm, initialize. cbn [ready_ newValidatorManager]. by rewrite (vo_exclusion av Hv), Hkey. }
  destruct (votingRounds_underway seqs (wanted f new) (pendingChanges_ vm) 0 (mkNode vm f newTracker av em))
    as [last [_ _ _ _ _ _ _ _ _ Ht]]; [done..| |].
  { split; try done; try (by rewrite Evm). rewrite Evm. cbn [node_view].
    change (pendingChanges_ (set_ready ?x ?y)) with (pendingChanges_ y).
    by rewrite updatePendingChanges_spec. }
  rewrite drop_ge in Ht by done. done.
Qed.

End Convergence.
