(* ===== verification/HandleValidation.v ===== *)
(** * Validations as they arrive

    Models [handleNewValidation] of [RCLValidations.cpp], which connects the
    validation store with the vote tracker: a validation is attributed to the
    master key of its signer, added to the store, and recorded as a vote when it
    is trusted and current.  What the validator list and the clocks answer are
    arguments; the request to [LedgerMaster::checkAccept] is part of the
    result.  Logging is left out. *)

From S2P Require Import Prelude AgedMap LedgerTrie LedgerTrieFacts TrieQueries.
From S2P Require Import Preferred RCLValidations Validations ValidationsFacts.
From S2P Require Import RemoteFetcher ExclusionManager ExclusionFacts ValidatorVote.

Record STValidation := {
  st_validation : Validation;
  st_signingHash : Z;
  st_exclusionAdd : option Z;
  st_exclusionRemove : option Z;
}.

(** What the application answers during one call. *)
Record Application := {
  getTrustedKey : Z -> option Z;
  getListedKey : Z -> option Z;
  closeTime_ : Z;                 (* timeKeeper().closeTime() *)
}.

Section Handle.
Context {L : Type} {LO : LedgerOps L}.
Context (parms : ValidationParms) (calcNodeID : Z -> Z).

(** The master key of the signer, if it is trusted or listed, else its own. *)
Definition signer (app : Application) (signingKey : Z) : Z :=
  default signingKey
    (match getTrustedKey app signingKey with
     | Some k => Some k | None => getListedKey app signingKey end).

Definition handleNewValidation (app : Application) (env : Env L) (bypassAccept : bool)
    (val : STValidation) (st : Validations L * VoteTracker)
    : (Validations L * VoteTracker) * option (Z * Z) :=
  let '(validations, tracker) := st in
  let signingKey := v_key (st_validation val) in
  let v := if negb (v_trusted (st_validation val)) && bool_decide (is_Some (getTrustedKey app signingKey))
           then setTrusted (st_validation val) else st_validation val in
  let key := signer app signingKey in
  let '(outcome, validations) := add parms env (calcNodeID key) v validations in
  if bool_decide (outcome = current) && v_trusted v then
    let vote := {| validatorKey := key; ledgerHash := v_ledgerID v; ledgerSeq := v_seq v;
                   validationHash := st_signingHash val; voteTime := closeTime_ app;
                   exclusionAdd := st_exclusionAdd val; exclusionRemove := st_exclusionRemove val |} in
    ((validations, recordVote vote tracker),
     if bypassAccept then None else Some (v_ledgerID v, v_seq v))
  else ((validations, tracker), None).

(** A sequence of arriving validations. *)
Definition arrivals (vals : list (Application * Env L * bool * STValidation))
    : Validations L * VoteTracker :=
  foldl (fun st '(app, env, bypass, val) => (handleNewValidation app env bypass val st).1)
    (newValidations, newTracker) vals.

(** The keys the validations are attributed to. *)
Definition signers (vals : list (Application * Env L * bool * STValidation)) : list Z :=
  (fun '(app, _, _, val) => signer app (v_key (st_validation val))) <$> vals.

(** ** One vote per validator and ledger *)

(** No two of the signing validators have the same node identifier. *)
Context (keys : list Z).
Context (calcNodeID_inj : forall x y, x ∈ keys -> y ∈ keys -> calcNodeID x = calcNodeID y -> x = y).
Context (t0 : Z).

Definition enforcerOf (validations : Validations L) (key : Z) : SeqEnforcer :=
  default newEnforcer (seqEnforcers_ validations !! calcNodeID key).

(** The votes recorded for a ledger are votes for it, of different validators,
    whose enforcers have passed the ledger since [t0]. *)
Record recorded (st : Validations L * VoteTracker) : Prop := {
  re_seq : forall s votes v, votesByLedger_ st.2 !! s = Some votes -> v ∈ votes ->
    validatorKey v ∈ keys /\ ledgerSeq v = s /\ s <= seq_ (enforcerOf st.1 (validatorKey v)) /\
    t0 <= when_ (enforcerOf st.1 (validatorKey v));
  re_once : forall s votes, votesByLedger_ st.2 !! s = Some votes -> NoDup (validatorKey <$> votes);
}.

(** [add] moves the enforcer of the node and no other. *)
Lemma add_enforcers env n v validations :
  seqEnforcers_ (add parms env n v validations).2 =
  if isCurrent parms (now env) (v_signTime v) (v_seenTime v)
  then <[n := (enforce parms (clock env) (v_seq v)
                 (default newEnforcer (seqEnforcers_ validations !! n))).2]>
         (seqEnforcers_ validations)
  else seqEnforcers_ validations.
Proof.
  assert (forall st st' : Validations L, frame st = frame st' -> seqEnforcers_ st = seqEnforcers_ st')
    as Hf by (by intros ? ? [=]).
  unfold add. destruct (isCurrent _ _ _ _); cbn [negb]; [|done].
  destruct (enforce _ _ _ _) as [[] e]; cbn [negb snd].
  - destruct (current_ _ !! n) as [old|]; [destruct (v_signTime old <? v_signTime v)|];
      try destruct (v_trusted v); cbn [snd]; rewrite ?(Hf _ _ (updateTrie_frame _ _ _ _ _)); done.
  - repeat case_match; done.
Qed.

Lemma enforce_mono now s e :
  t0 <= now <= t0 + seconds (validationSET_EXPIRES parms) -> t0 <= when_ e ->
  let '(ok, e') := enforce parms now s e in
  seq_ e <= seq_ e' /\ t0 <= when_ e' /\ (ok = true -> seq_ e < s /\ s = seq_ e').
Proof.
  intros Hn Hw. unfold enforce. rewrite (proj2 (Z.ltb_ge _ _)) by lia.
  destruct (Z.leb_spec s (seq_ e)); cbn; [split_and!; done || lia|lia].
Qed.

Lemma enforce_accepted now s e :
  t0 <= now -> (enforce parms now s e).1 = true ->
  seq_ (enforce parms now s e).2 = s /\ t0 <= when_ (enforce parms now s e).2.
Proof. unfold enforce. intros Hn. destruct (s <=? _); cbn; [done|]. done. Qed.

Lemma add_advances env key v validations k :
  t0 <= clock env <= t0 + seconds (validationSET_EXPIRES parms) -> key ∈ keys -> k ∈ keys ->
  let validations' := (add parms env (calcNodeID key) v validations).2 in
  t0 <= when_ (enforcerOf validations k) ->
  seq_ (enforcerOf validations k) <= seq_ (enforcerOf validations' k) /\
  t0 <= when_ (enforcerOf validations' k).
Proof.
  intros Hclk Hkey Hk validations' Hw. unfold validations', enforcerOf in *. rewrite add_enforcers.
  destruct (isCurrent _ _ _ _); [|lia]. destruct (decide (k = key)) as [->|Hne].
  - rewrite lookup_insert_eq. cbn [default].
    pose proof (enforce_mono (clock env) (v_seq v) _ Hclk Hw) as Hm.
    destruct (enforce _ _ _ _) as [ok e']. cbn. lia.
  - rewrite lookup_insert_ne by (intros E; apply Hne; symmetry; by apply calcNodeID_inj). lia.
Qed.

Lemma add_recorded env key v validations tracker :
  t0 <= clock env <= t0 + seconds (validationSET_EXPIRES parms) -> key ∈ keys ->
  recorded (validations, tracker) ->
  recorded ((add parms env (calcNodeID key) v validations).2, tracker).
Proof.
  intros Hclk Hkey [Hs Ho]. split; [|done]. intros s votes w Hv Hw.
  destruct (Hs s votes w Hv Hw) as (Hk & H1 & H2 & H3). cbn [fst snd] in *.
  destruct (add_advances env key v validations _ Hclk Hkey Hk H3). split_and!; [done..|lia|done].
Qed.

(** A validation that [add] accepts has moved the enforcer of its signer to its sequence. *)
Lemma add_moves env key v validations :
  t0 <= clock env -> (add parms env (calcNodeID key) v validations).1 = current ->
  let e := enforcerOf (add parms env (calcNodeID key) v validations).2 key in
  seq_ e = v_seq v /\ t0 <= when_ e.
Proof.
  intros Hclk (Hcur & Hacc & _)%add_current_iff. unfold enforcerOf.
  rewrite add_enforcers, Hcur, lookup_insert_eq. by apply enforce_accepted.
Qed.

Lemma add_exceeds env key v validations :
  t0 <= clock env <= t0 + seconds (validationSET_EXPIRES parms) ->
  (add parms env (calcNodeID key) v validations).1 = current ->
  t0 <= when_ (enforcerOf validations key) -> seq_ (enforcerOf validations key) < v_seq v.
Proof.
  intros Hclk (_ & Hacc & _)%add_current_iff Hw.
  pose proof (enforce_mono (clock env) (v_seq v) _ Hclk Hw) as Hm. unfold enforcerOf in *.
  destruct (enforce _ _ _ _) as [ok e']. cbn in Hacc. subst ok. lia.
Qed.

Lemma recordVote_recorded vote validations tracker :
  recorded (validations, tracker) -> validatorKey vote ∈ keys ->
  ledgerSeq vote <= seq_ (enforcerOf validations (validatorKey vote)) ->
  t0 <= when_ (enforcerOf validations (validatorKey vote)) ->
  (forall votes w, votesByLedger_ tracker !! ledgerSeq vote = Some votes -> w ∈ votes ->
     validatorKey w <> validatorKey vote) ->
  recorded (validations, recordVote vote tracker).
Proof.
  intros [Hs Ho] Hkey Hseq Hwhen Hother. cbn [fst snd] in *.
  split; cbn [fst snd votesByLedger_ recordVote]; intros s votes;
    (destruct (decide (s = ledgerSeq vote)) as [->|Hne];
     [rewrite lookup_insert_eq|rewrite lookup_insert_ne by done; eauto]);
    destruct (votesByLedger_ tracker !! ledgerSeq vote) as [old|] eqn:E; cbn [default].
  - intros w [= <-] [Hw| ->%list_elem_of_singleton]%elem_of_app; [by eapply Hs|done].
  - by intros w [= <-] ->%list_elem_of_singleton.
  - intros [= <-]. rewrite fmap_app. apply NoDup_app.
    split_and!; [by eapply Ho| |by apply NoDup_singleton].
    intros k (w & -> & Hw)%list_elem_of_fmap Hk%list_elem_of_singleton. by eapply Hother.
  - intros [= <-]. by apply NoDup_singleton.
Qed.

Lemma handleNewValidation_recorded app env bypass val st :
  t0 <= clock env <= t0 + seconds (validationSET_EXPIRES parms) ->
  signer app (v_key (st_validation val)) ∈ keys ->
  recorded st -> recorded (handleNewValidation app env bypass val st).1.
Proof.
  intros Hclk Hkey Hst. destruct st as [validations tracker]. unfold handleNewValidation.
  set (v := if negb _ && _ then _ else _). set (key := signer app _) in *.
  pose proof (add_recorded env key v _ _ Hclk Hkey Hst) as Hrec.
  pose proof (add_moves env key v validations (proj1 Hclk)) as Hmoves.
  pose proof (add_exceeds env key v validations Hclk) as Hexceeds.
  destruct (add parms env (calcNodeID key) v validations) as [outcome validations']. cbn [fst snd] in *.
  destruct (decide (outcome = current)) as [Eo|Eo];
    [rewrite bool_decide_eq_true_2 by done|by rewrite bool_decide_eq_false_2].
  destruct (v_trusted v); [|done]. destruct (Hmoves Eo) as [Hseq Hwhen].
  apply recordVote_recorded; cbn [validatorKey ledgerSeq]; [done..|lia|done|].
  intros votes w Hv Hw E. destruct (re_seq _ Hst _ _ _ Hv Hw) as (_ & _ & Hle & Hwh).
  cbn [fst] in *. rewrite E in Hle, Hwh. specialize (Hexceeds Eo Hwh). lia.
Qed.

Lemma arrivals_recorded vals :
  Forall (fun c => t0 <= clock c.1.1.2 <= t0 + seconds (validationSET_EXPIRES parms)) vals ->
  signers vals ⊆ keys -> recorded (arrivals vals).
Proof.
  intros Hv Hkeys. unfold arrivals. apply foldl_inv; [by split|].
  intros st [[[app env] bypass] val] Hin. rewrite Forall_forall in Hv.
  apply handleNewValidation_recorded; [by apply (Hv _ Hin)|].
  apply Hkeys, list_elem_of_fmap. by eexists (_, _, _, _).
Qed.

End Handle.

(** C26: a validator has one vote per ledger.  However validations arrive during
    one expiry window, duplicated, conflicting or out of order, the tracker has
    at most one vote of a validator for a ledger sequence, and each vote is
    filed under the sequence it is for. *)
Theorem validations_become_votes_once {L} {LO : LedgerOps L} (parms : ValidationParms)
    (calcNodeID : Z -> Z) (t0 : Z) (vals : list (Application * Env L * bool * STValidation))
    (s : Z) (votes : list Vote)
    (Hinj : forall x y, x ∈ signers vals -> y ∈ signers vals -> calcNodeID x = calcNodeID y -> x = y)
    (Hwindow : Forall (fun c => t0 <= clock c.1.1.2 <= t0 + seconds (validationSET_EXPIRES parms)) vals)
    (Hvotes : votesByLedger_ (arrivals parms calcNodeID vals).2 !! s = Some votes) :
  NoDup (validatorKey <$> votes) /\ Forall (fun v => ledgerSeq v = s) votes.
Proof.
  destruct (arrivals_recorded parms calcNodeID _ Hinj t0 vals Hwindow ltac:(done)) as [Hs Ho].
  split; [by eapply Ho|]. apply Forall_forall. intros v Hv. by eapply Hs.
Qed.

Module ArrivalExample.
Import BinaryChain.

(** Signing key 7 belongs to the trusted master key 70. *)
Definition app : Application := {|
  getTrustedKey k := if k =? 7 then Some 70 else None; getListedKey _ := None; closeTime_ := 0 |}.

Definition env (t : Z) : Env CompleteLedger := {| now := t; clock := seconds t; acquire _ := None |}.

Definition validation (id s t : Z) : STValidation := {|
  st_validation := {| v_ledgerID := id; v_seq := s; v_signTime := t; v_seenTime := t; v_key := 7;
                      v_trusted := false; v_full := true; v_loadFee := None; v_cookie := 0 |};
  st_signingHash := 0; st_exclusionAdd := Some 77; st_exclusionRemove := None |}.

(** A validation of ledger 3, the same again, a conflicting one and one of ledger 4. *)
Definition vals : list (Application * Env CompleteLedger * bool * STValidation) :=
  [(app, env 1000, false, validation 5 3 1000); (app, env 1001, false, validation 5 3 1001);
   (app, env 1002, false, validation 6 3 1002); (app, env 1003, false, validation 11 4 1003)].

Definition final : Validations CompleteLedger * VoteTracker := arrivals validationParms id vals.

End ArrivalExample.
Import ArrivalExample.

Lemma validations_become_votes_once_witness :
  exists votes, votesByLedger_ final.2 !! 3 = Some votes /\ length votes = 1%nat /\
  NoDup (validatorKey <$> votes) /\ Forall (fun v => ledgerSeq v = 3) votes.
Proof.
  eexists. split; [vm_compute; reflexivity|]. split; [reflexivity|].
  eapply (validations_become_votes_once validationParms id (seconds 1000) vals 3);
    [done|repeat constructor; vm_compute; done|vm_compute; reflexivity].
Defined.
