(* ===== verification/ExclusionProperties.v ===== *)
(** * Properties of account exclusion

    The cache of excluded accounts, the votes that change it and the validators
    and remote lists behind the votes; with concrete runs, and with runs that
    show where the code and its documentation part. *)

From stdpp Require Import strings.
From S2P Require Import Prelude ConsensusParms RemoteFetcher ExclusionManager ExclusionFacts.
From S2P Require Import ValidatorVote ApplyVote OwnExclusions.

(** ** Calls to the cache *)

Section Cache.
Context (calcAccountID : Z -> Z).

Inductive cacheCall :=
| Update (validator : Z) (exclusions : gset Z)
| Forget (validator : Z)
| Rebuild (trustedKeys : gset Z) (view : ReadView)
| Info (f : Fetcher) (account : Z)
| Reasons (reasons : gmap Z ExclusionInfo)
| Connect (connected : bool).

Definition cacheStep (m : ExclusionManager) (c : cacheCall) : ExclusionManager :=
  match c with
  | Update v s => updateValidatorExclusions v s m
  | Forget v => removeValidator v m
  | Rebuild trusted view => rebuildCache calcAccountID trusted view m
  | Info f a => (getExclusionInfo f a m).2
  | Reasons r => updateExclusionReasons r m
  | Connect b => setRemoteFetcher b m
  end.

(** A rebuild reads a ledger whose lists do not repeat accounts, for validators
    with different accounts. *)
Definition readable (c : cacheCall) : Prop :=
  match c with
  | Rebuild trusted view =>
      (forall x y, x ∈ trusted -> y ∈ trusted -> calcAccountID x = calcAccountID y -> x = y) /\
      distinct calcAccountID trusted view
  | _ => True
  end.

Lemma cacheStep_ok m c : readable c -> cache_ok m -> cache_ok (cacheStep m c).
Proof.
  intros Hc Hm. destruct c as [v s|v|trusted view|f a|r|b]; cbn.
  - by apply updateValidatorExclusions_ok.
  - by apply removeValidator_ok.
  - destruct Hc as [Hinj Hd]. destruct (accountExclusion (rules view)) eqn:E.
    + by apply rebuildCache_ok.
    + unfold rebuildCache. rewrite E. by destruct Hm.
  - unfold refreshReasons. destruct (_ && _); [|done]. by destruct Hm.
  - by destruct Hm.
  - by destruct Hm.
Qed.

Definition cacheRun (cs : list cacheCall) : ExclusionManager := foldl cacheStep newManager cs.

Lemma cacheRun_ok cs : Forall readable cs -> cache_ok (cacheRun cs).
Proof.
  intros Hcs. unfold cacheRun. apply foldl_inv; [apply newManager_ok|].
  intros m c Hin. apply cacheStep_ok. rewrite Forall_forall in Hcs. by apply Hcs.
Qed.

End Cache.



(** The counts never drift.  After any calls, the count kept for an account
    is the number of lists that name it, no list in the cache is empty, and
    [totalValidators_] is the number of lists. *)
Theorem exclusionCounts_exact (calcAccountID : Z -> Z) (cs : list cacheCall)
    (Hreadable : Forall (readable calcAccountID) cs) :
  let m := cacheRun calcAccountID cs in
  (forall a, default 0 (exclusionCounts_ m !! a) = listing (validatorExclusions_ m) a) /\
  map_Forall (fun _ s => s <> ∅) (validatorExclusions_ m) /\
  totalValidators_ m = Z.of_nat (size (validatorExclusions_ m)).
Proof.
  intros m. destruct (cacheRun_ok calcAccountID cs Hreadable) as [Hl Hc Ht _].
  fold m in Hl, Hc, Ht. split; [|done]. intros a. rewrite (Hc a).
  destruct (Z.eqb_spec (listing (validatorExclusions_ m) a) 0); done.
Qed.

(** C9: the cache follows the ledger.  Built from a ledger whose lists have no
    repetitions and then told of each vote as it is applied, it is at every
    point the cache that a rebuild from the current ledger would give for the
    trusted validators and those other validators whose votes changed a list
    meanwhile; with the amendment on, a node that starts at this ledger with
    these validators excludes the same accounts.  If all votes come from
    trusted validators, these are the trusted validators alone; the code does
    not check that, so the cache also counts the lists of voters that a rebuild
    would leave out. *)
Theorem cache_follows_ledger (calcAccountID : Z -> Z) (dirInsert : ApplyView -> Z -> option Z)
    (trusted : gset Z) (txs : list VoteTx) (av : ApplyView) (m : ExclusionManager)
    (Hinj : tells_apart calcAccountID (trusted ∪ list_to_set (tx_ValidatorPublicKey <$> txs)))
    (Hlists : lists_ok (ledger av)) :
  let st := (av, rebuildCache calcAccountID trusted (ledger av) m) in
  let counted := trusted ∪ heard calcAccountID dirInsert txs st in
  let '(av', m') := applyVotes calcAccountID dirInsert txs st in
  rebuildCache calcAccountID counted (ledger av') m' = m' /\
  (accountExclusion (rules (ledger av')) = true -> forall m2 a,
     isExcluded a (rebuildCache calcAccountID counted (ledger av') m2) = isExcluded a m') /\
  (Forall (fun tx => tx_ValidatorPublicKey tx ∈ trusted) txs -> counted = trusted).
Proof.
  intros st counted. pose proof (incremental_is_rebuild calcAccountID dirInsert trusted txs av m Hinj Hlists) as H.
  cbv zeta in H. fold st in H. fold counted in H. destruct (applyVotes _ _ txs st) as [av' m']. split_and!; [done| |].
  - intros Hon m2 a. rewrite (rebuild_excluded _ _ _ m2 m') by done. by rewrite H.
  - rewrite Forall_forall. intros Ht. pose proof (heard_voters calcAccountID dirInsert txs st) as Hv.
    subst counted. apply set_eq. intros x. rewrite elem_of_union. split; [|by left].
    intros [|Hx%Hv]; [done|]. apply elem_of_list_to_set, list_elem_of_fmap in Hx as (tx & -> & Hin). by apply Ht.
Qed.

(** Votes keep every exclusion list of the ledger free of repetitions and
    within 100 entries, and a disabled or refused vote changes nothing. *)
Theorem votes_keep_lists (calcAccountID : Z -> Z) (dirInsert : ApplyView -> Z -> option Z)
    (txs : list VoteTx) (tx : VoteTx) (st : ApplyView * ExclusionManager)
    (Hlists : lists_ok (ledger st.1)) :
  lists_ok (ledger (applyVotes calcAccountID dirInsert txs st).1) /\
  ((applyValidatorVote calcAccountID dirInsert tx st).1 <> tesSUCCESS ->
   (applyValidatorVote calcAccountID dirInsert tx st).2 = st).
Proof.
  split.
  - unfold applyVotes. apply foldl_inv; [done|]. intros st' tx' _.
    apply applyValidatorVote_lists_ok.
  - destruct st as [av m]. unfold applyValidatorVote.
    destruct (negb _); [done|]. by destruct (countVote _ _ _ _).
Qed.

(** C22: a validator gets what it configured, under these conditions.  Both
    amendments (vote tracking and account exclusion) are on when it is
    initialised and stay on; its remote sources, if it has any, are all fetched
    by then and their lists do not change; its vote can be counted (it has vote
    statistics or its owner directory takes them); its list has room for all
    additions.  Then, if each ledger it validates leads to its vote being
    recorded, proposed and applied along with any votes of validators with
    other accounts, the list of the validator in the ledger is the set
    configured together with the remote exclusions, once there were as many
    ledgers, ten apart, as changes to make. *)
Theorem configuration_reaches_ledger (calcAccountID : Z -> Z)
    (dirInsert : ApplyView -> Z -> option Z) (key : Z) (hashes : Z -> Z * Z)
    (before after : Z -> list Vote) (getTrustedKey getListedKey : Z -> option Z) (pubKey : Z)
    (configured : gset Z) (sources : list Source) (f : Fetcher)
    (av : ApplyView) (em : ExclusionManager) (seqs : list Z)
    (Hothers : forall seq v, v ∈ before seq \/ v ∈ after seq ->
       ledgerSeq v = seq /\ calcAccountID (validatorKey v) <> calcAccountID key)
    (Hkey : keyForAccount getTrustedKey getListedKey pubKey = key)
    (Hvoting : voting calcAccountID dirInsert key av)
    (Hfetched : sources <> [] -> initialFetchComplete_ f = true /\ allSourcesAccessible_ f = true) :
  let vm := initialize calcAccountID getTrustedKey getListedKey pubKey (ledger av) f
              (newValidatorManager configured sources) in
  (length (listOf (validatorRoot (calcAccountID key) av)) + additions (pendingChanges_ vm)
     <= maxExclusions)%nat ->
  spaced 0 seqs -> Forall (fun seq => seq < 2 ^ 32) seqs ->
  (length (pendingChanges_ vm) <= length seqs)%nat ->
  exclusionsIn
    (ledger (node_view (foldl (votingRound calcAccountID dirInsert key hashes before after)
       (mkNode vm f newTracker av em) seqs)))
    (calcAccountID key) =
  configured ∪ (if decide (sources = []) then ∅ else combinedExclusions_ f).
Proof.
  intros vm Hroom Hsp Hb Hlen.
  assert (fetcherReady f (newValidatorManager configured sources) = true) as Hf.
  { unfold fetcherReady. cbn. destruct sources as [|s l]; [done|].
    destruct Hfetched as [-> ->]; [done|]. by rewrite bool_decide_eq_true_2. }
  etrans; [by apply (exclusions_converge _ _ _ _ _ _ Hothers getTrustedKey getListedKey pubKey configured sources f)|].
  unfold wanted. cbn. by destruct sources.
Qed.

(** The changes a validator asks for are at least ten ledgers apart, however
    often it is asked and whatever the remote lists do in between. *)
Theorem changes_are_spaced (calls : list (Z * option ReadView * Fetcher)) (vm : ValidatorManager)
    (em : ExclusionManager)
    (Hlast : 0 <= lastChangeLedger_ vm < 2 ^ 32 - CHANGE_INTERVAL)
    (Hseqs : Forall (fun c => 0 <= c.1.1 < 2 ^ 32 - CHANGE_INTERVAL) calls) :
  spaced (lastChangeLedger_ vm) (changeLedgers calls vm em).
Proof. by apply changeLedgers_spaced. Qed.

(** Every validator is counted once per ledger.  The pseudo-transactions
    proposed for a ledger are one for each validator with a recorded vote and
    not processed before, made from its first vote; proposing again for the
    same ledger adds nothing. *)
Theorem one_vote_per_validator (currentSeq : Z) (position q : list VoteTx) (t : VoteTracker)
    (votes : list Vote)
    (Hseq : 0 <= currentSeq) (Hvotes : votesByLedger_ t !! currentSeq = Some votes)
    (Hsome : votes <> []) :
  let processed := default ∅ (processedValidators_ t !! currentSeq) in
  let chosen := firstVotes processed votes in
  let '(position', t') := doVoting true currentSeq position t in
  (forall tx, tx ∈ position' <-> tx ∈ position \/ exists v, v ∈ chosen /\ tx = voteTx v) /\
  NoDup (validatorKey <$> chosen) /\
  (forall v, v ∈ chosen -> v ∈ votes /\ validatorKey v ∉ processed) /\
  (forall k, k ∈ validatorKey <$> votes -> k ∉ processed -> k ∈ validatorKey <$> chosen) /\
  fst (doVoting true currentSeq q t') = q.
Proof.
  intros processed chosen.
  destruct (doVoting_spec currentSeq position t votes Hseq Hvotes Hsome) as (t' & E & _).
  pose proof (doVoting_twice currentSeq position q t Hseq) as Ht. rewrite E in Ht |- *.
  split_and!.
  - intros tx. rewrite addItems_elem, list_elem_of_fmap. split.
    + intros [(v & -> & Hv)|]; [right; by exists v|by left].
    + intros [|(v & Hv & ->)]; [by right|left; by exists v].
  - apply firstVotes_nodup.
  - intros v. apply firstVotes_keys.
  - intros k Hk Hn. by apply firstVotes_complete.
  - exact Ht.
Qed.

(** C35: only signed lists count.  Whatever responses arrive, in whatever order,
    every account of the combined remote exclusions is on a list that is cached
    for a configured source, was parsed from a response (the contents of a file,
    or an HTTP response with status 200) that arrived for that very source, and
    was verified with the key configured for it. *)
Theorem combined_exclusions_authentic (sources : list Source)
    (parse : string -> option ExclusionList) (verify : ExclusionList -> string -> string -> bool)
    (makeRequest : Source -> option string) (es : list event) (f : Fetcher) (a : Z)
    (Hrun : history sources parse verify makeRequest es = Some f)
    (Ha : a ∈ combinedExclusions_ f) :
  exists i s res y, sources !! i = Some s /\ (i, res) ∈ omap arrived es /\ parse res = Some y /\
    verify y (pubkey s) res = true /\ a ∈ addresses y /\ cachedLists_ f !! url s = Some (mark_verified y).
Proof. eapply combined_authentic; [by eapply history_ok|done]. Qed.

(** A fetch that misses a source changes no exclusions: after the first
    fetch, if some source did not deliver, the cached lists and the combined
    exclusions stay what they were; if all delivered, the combined exclusions
    are those of the new lists, and a change is flagged. *)
Theorem fetch_all_or_nothing (sources : list Source) (now : Z) (f : Fetcher)
    (Hfirst : initialFetchComplete_ f = true) :
  exists f', onAllFetchesComplete sources now false f = Some f' /\ fetching_ f' = false /\
  if allSuccessful (fetchResults_ f)
  then combinedExclusions_ f' = combined (newLists sources (fetchResults_ f)) /\
       allSourcesAccessible_ f' = true /\
       (combinedExclusions_ f' <> combinedExclusions_ f -> hasModifications_ f' = true)
  else cachedLists_ f' = cachedLists_ f /\ combinedExclusions_ f' = combinedExclusions_ f /\
       hasModifications_ f' = hasModifications_ f.
Proof.
  eexists. split; [reflexivity|]. split; [reflexivity|]. rewrite Hfirst.
  destruct (allSuccessful _).
  - unfold updateCombinedExclusions. cbn. case_decide as E; cbn; done.
  - by destruct (_ && _).
Qed.

(** ** Concrete runs *)

Module ExclusionExample.

Definition on : Rules :=
  {| validatorVoteTracking := true; accountExclusion := true; deletableAccounts := true |}.

Definition rootWith (l : option (list (option Z))) : AccountRoot :=
  {| Balance := 0; Sequence := 1; OwnerCount := 0; exclusionList := l |}.

(** Five validators with the keys and accounts 1 to 5; one of them, validator 1,
    has account 77 on its list. *)
Definition view : ReadView := {|
  rules := on;
  accounts := <[1 := rootWith (Some [Some 77])]> (<[2 := rootWith None]> (<[3 := rootWith None]>
    (<[4 := rootWith None]> (<[5 := rootWith None]> ∅)))) |}.

Definition unl5 : gset Z := {[1; 2; 3; 4; 5]}.

Definition cache : ExclusionManager := rebuildCache id unl5 view newManager.

Definition stats (v : Z) (tx : VoteTx) : VoteStats := {|
  vs_Account := v; vs_VoteCount := 1; vs_OwnerNode := 0; vs_PreviousTxnID := tx;
  vs_PreviousTxnLgrSeq := 1 |}.

Definition plain (key seq : Z) : Vote := {|
  validatorKey := key; ledgerHash := 0; ledgerSeq := seq; validationHash := 0; voteTime := 0;
  exclusionAdd := None; exclusionRemove := None |}.

Definition adding (key seq a : Z) : Vote := {|
  validatorKey := key; ledgerHash := 0; ledgerSeq := seq; validationHash := 0; voteTime := 0;
  exclusionAdd := Some a; exclusionRemove := None |}.

Definition start_view : ApplyView :=
  mkView view (<[1 := stats 1 (voteTx (plain 1 1))]> (<[2 := stats 2 (voteTx (plain 2 1))]> ∅)) 2.

(** Validators 2 and 3 join validator 1. *)
Definition txs : list VoteTx := [voteTx (adding 2 1 77); voteTx (adding 3 1 77)].

Definition page (_ : ApplyView) (_ : Z) : option Z := Some 0.

(** The keys of the validators, for a validator that is its own master. *)
Definition self (_ : Z) : option Z := None.

Definition source : Source := {| url := "https://lists"; pubkey := "nKey" |}.

Definition listed (a : Z) : ExclusionList := {|
  version := "1"; timestamp := "now"; issuerAddress := 0;
  blacklist := [{| address := a; entry_reason := "fraud"; entry_dateAdded := "today" |}];
  verified := false |}.

Definition parse (s : string) : option ExclusionList :=
  if decide (s = "seventy-seven") then Some (listed 77)
  else if decide (s = "nothing")
  then Some {| version := "1"; timestamp := "now"; issuerAddress := 0; blacklist := [];
               verified := false |}
  else None.

Definition verify (x : ExclusionList) (key res : string) : bool := bool_decide (key = "nKey").
Definition request (_ : Source) : option string := None.
Definition badURL (s : Source) : option string := Some ("Invalid URL: " +:+ url s).

(** A first fetch that delivers account 77. *)
Definition fetched : list event := [Start 0; Http 1 None 200 "200" "seventy-seven" 0].

(** A second one in which the source cannot be reached. *)
Definition unreachable : list event :=
  fetched ++ [Timer 100; Http 101 (Some "Host unreachable") 0 EmptyString EmptyString 0].

(** A ledger where validator 1 lists the accounts 1001 to 1100. *)
Definition full : ApplyView :=
  mkView {| rules := on;
            accounts := {[1 := rootWith (Some ((fun i => Some (1001 + Z.of_nat i)) <$> seq 0 100))]} |}
    {[1 := stats 1 (voteTx (plain 1 1))]} 2.

(** Two hundred ledgers, ten apart. *)
Definition ledgers : list Z := (fun i => 10 * Z.of_nat (S i)) <$> seq 0 200.

Definition rounds (vm : ValidatorManager) (av : ApplyView) : Node :=
  foldl (votingRound id page 1 (fun _ => (0, 0)) (fun _ => []) (fun _ => []))
    (mkNode vm (newFetcher []) newTracker av newManager) ledgers.

End ExclusionExample.
Import ExclusionExample.

(** ** Where code and documentation part *)

(** A minority can exclude an account.  The threshold is 67 percent of the
    validators that have a list, not of the validators of the UNL: in a UNL of
    five, the list of a single validator excludes an account. *)
Theorem minority_excludes :
  size unl5 = 5%nat /\ (forall v, v ∈ unl5 -> is_Some (accounts view !! v)) /\
  listing (validatorExclusions_ cache) 77 = 1 /\ isExcluded 77 cache = true.
Proof.
  split; [reflexivity|]. split; [|split; reflexivity].
  intros v Hv. unfold unl5 in Hv. rewrite !elem_of_union, !elem_of_singleton in Hv.
  destruct_or!; subst v; vm_compute; eauto.
Qed.

(** Losing every source goes unnoticed.  After a successful fetch, a fetch
    in which no source can be reached leaves [areAllSourcesAccessible] true. *)
Theorem unreachable_still_accessible :
  exists f, history [source] parse verify request unreachable = Some f /\
  allSuccessful (fetchResults_ f) = false /\ fetching_ f = false /\
  allSourcesAccessible_ f = true.
Proof. eexists. split; [vm_compute; reflexivity|]. done. Qed.

Section Start.
Context (sources : list Source) (makeRequest : Source -> option string) (now : Z).

(** Every request fails at once, with a message. *)
Context (Hfails : forall s, exists message, makeRequest s = Some message /\ message <> EmptyString).

Lemma requests_lock_out l : forall i f tried,
  l <> [] -> fetchResults_ f = tried ++ replicate (length l) pending -> length tried = i ->
  existsb outstanding tried = false ->
  foldl (fun o '(i, s) => o ≫= fetchFromSource sources makeRequest now true s i) (Some f)
    (imap (fun j s => (i + j, s)%nat) l) = None.
Proof.
  induction l as [|s l IH]; intros i f tried Hne Hr Hi Ho; [done|]. cbn [imap foldl].
  rewrite Nat.add_0_r. cbn [mbind option_bind]. unfold fetchFromSource at 2.
  destruct (Hfails s) as (message & -> & Hm). unfold checkAllFetchesComplete.
  assert (fetchResults_ (update_result i (failed message) f) =
          (tried ++ [failed message pending]) ++ replicate (length l) pending) as Er.
  { cbn. rewrite Hr. cbn [length replicate]. rewrite <- Hi, <- (Nat.add_0_r (length tried)).
    rewrite alter_app_r. cbn. by rewrite <- app_assoc. }
  rewrite Er, existsb_app.
  assert (existsb outstanding (tried ++ [failed message pending]) = false) as Ho'.
  { rewrite existsb_app, Ho. cbn. unfold outstanding. cbn.
    by rewrite (bool_decide_eq_false_2 _ Hm). }
  rewrite Ho'. destruct l as [|s' l]; [done|]. cbn [length replicate existsb orb].
  change (outstanding pending) with true. cbn [orb].
  replace (imap ((fun (j : nat) (s0 : Source) => ((i + j)%nat, s0)) ∘ S) (s' :: l))
    with (imap (fun (j : nat) (s0 : Source) => ((S i + j)%nat, s0)) (s' :: l)).
  2:{ apply imap_ext. intros j x _. cbn. f_equal. lia. }
  apply (IH (S i) _ (tried ++ [failed message pending])); [done|exact Er| |done].
  rewrite length_app. cbn. lia.
Qed.

Lemma start_None : sources <> [] -> start sources makeRequest now (newFetcher sources) = None.
Proof.
  intros Hne. unfold start. cbn [running_ newFetcher].
  assert (fetchAllLists sources makeRequest now true (set_running true false (newFetcher sources)) = None).
  { apply (requests_lock_out sources 0 _ []); done. }
  by destruct sources.
Qed.

End Start.

(** [start] can lock itself out.  It holds [mutex_] while the requests are
    made; when all of them fail at once, as with malformed URLs, the end of the
    fetch locks the same mutex again and [start] does not return. *)
Theorem start_locks_itself_out (sources : list Source) (makeRequest : Source -> option string)
    (now : Z) (Hsome : sources <> [])
    (Hfails : forall s, exists message, makeRequest s = Some message /\ message <> EmptyString) :
  start sources makeRequest now (newFetcher sources) = None.
Proof. by apply start_None. Qed.

(** An amendment that comes late is missed.  A validator initialised on a
    ledger where account exclusion is not enabled counts as initialised for
    good: later ledgers queue nothing and its configured exclusions are never
    voted for. *)
Theorem late_amendment_missed (calcAccountID : Z -> Z) (getTrustedKey getListedKey : Z -> option Z)
    (pubKey : Z) (configured : gset Z) (view0 : ReadView) (f0 : Fetcher)
    (Hoff : accountExclusion (rules view0) = false) :
  let vm := initialize calcAccountID getTrustedKey getListedKey pubKey view0 f0
              (newValidatorManager configured []) in
  (forall view f, initialize calcAccountID getTrustedKey getListedKey pubKey view f vm = vm) /\
  (forall seq closed f em, getExclusionChange seq closed f vm em = (None, f, vm, em)).
Proof.
  unfold initialize at 1. cbn [ready_ newValidatorManager]. rewrite Hoff. cbn [negb].
  split; [done|]. intros seq closed f em. unfold getExclusionChange, fetcherReady, followRemote, nextChange.
  cbn. by destruct (_ <? _).
Qed.

(** Additions are queued before removals: on a full list the addition of the
    only configured account is dropped, and after all the removals the list is
    empty instead of holding it. *)
Theorem addition_lost_on_full_list :
  let vm := initialize id self self 1 (ledger full) (newFetcher []) (newValidatorManager {[77]} []) in
  length (pendingChanges_ vm) = 101%nat /\ pendingChanges_ (node_own (rounds vm full)) = [] /\
  exclusionsIn (ledger (node_view (rounds vm full))) 1 = ∅.
Proof. vm_compute. done. Qed.

(** A remote list without accounts keeps the configured ones from being voted
    for: initialised before the first fetch, the validator waits for a change
    of the combined remote exclusions, which stay empty. *)
Theorem empty_remote_list_blocks :
  let vm := initialize id self self 1 view (newFetcher [source]) (newValidatorManager {[78]} [source]) in
  exists f, history [source] parse verify request [Start 0; Http 1 None 200 "200" "nothing" 0] = Some f /\
  fetcherReady f vm = true /\ wanted f vm = {[78]} /\
  (getExclusionChange 100 (Some view) f vm newManager).1.1.1 = None /\
  (getExclusionChange 100 (Some view) f vm newManager).1.2 = vm.
Proof. eexists. split; [vm_compute; reflexivity|]. vm_compute. done. Qed.

(** ** Witnesses *)

Lemma view_lists : lists_ok view.
Proof.
  unfold lists_ok. cbn. repeat apply map_Forall_insert_2; [..|apply map_Forall_empty];
    (split; [repeat constructor; set_solver|vm_compute; lia]).
Qed.

Lemma view_distinct trusted : distinct id trusted view.
Proof. apply lists_ok_distinct, view_lists. Qed.



Lemma exclusionCounts_exact_witness :
  let m := cacheRun id [Rebuild unl5 view; Update 2 {[77; 78]}] in
  exclusionCounts_ m !! 77 = Some 2 /\
  totalValidators_ m = Z.of_nat (size (validatorExclusions_ m)).
Proof.
  split; [reflexivity|].
  apply (exclusionCounts_exact id [Rebuild unl5 view; Update 2 {[77; 78]}]).
  constructor; [split; [done|apply view_distinct]|repeat constructor].
Defined.

Lemma cache_follows_ledger_witness :
  let '(av', m') := applyVotes id page txs (start_view, rebuildCache id unl5 view newManager) in
  listing (validatorExclusions_ m') 77 = 3 /\ rebuildCache id unl5 (ledger av') m' = m'.
Proof.
  pose proof (cache_follows_ledger id page unl5 txs start_view newManager ltac:(by intros x y)
    view_lists) as Hc.
  change (ledger start_view) with view in Hc. cbv zeta in Hc.
  assert (listing (validatorExclusions_
    (applyVotes id page txs (start_view, rebuildCache id unl5 view newManager)).2) 77 = 3) as Hn
    by (vm_compute; reflexivity).
  destruct (applyVotes _ _ _ _) as [av' m']. destruct Hc as (Hc & _ & Ht).
  rewrite Ht in Hc by (repeat constructor; vm_compute; done). split; [exact Hn|exact Hc].
Defined.

Lemma votes_keep_lists_witness :
  exclusionsIn (ledger (applyVotes id page txs (start_view, newManager)).1) 2 = {[77]} /\
  lists_ok (ledger (applyVotes id page txs (start_view, newManager)).1).
Proof.
  split; [vm_compute; reflexivity|].
  apply (votes_keep_lists id page txs (voteTx (plain 1 1)) (start_view, newManager)).
  apply view_lists.
Defined.

(** A validator with a remote source, whose list has account 77, among others. *)
Definition remoteLists : Fetcher := default (newFetcher [source]) (history [source] parse verify request fetched).

Lemma configuration_reaches_ledger_witness :
  let vm := initialize id self self 1 view remoteLists (newValidatorManager {[78; 79]} [source]) in
  let before := fun seq => [plain 2 seq] in
  let after := fun seq => [adding 3 seq 99] in
  hasModifications_ remoteLists = true /\ length (pendingChanges_ vm) = 2%nat /\
  exclusionsIn (ledger (node_view (foldl (votingRound id page 1 (fun _ => (0, 0)) before after)
    (mkNode vm remoteLists newTracker start_view newManager) [10; 20; 30]))) 1 = {[77; 78; 79]}.
Proof.
  split; [vm_compute; reflexivity|]. split; [vm_compute; reflexivity|].
  eapply eq_trans; [apply (configuration_reaches_ledger id page 1 (fun _ => (0, 0)) (fun seq => [plain 2 seq])
    (fun seq => [adding 3 seq 99]) self self 1
    {[78; 79]} [source] remoteLists start_view newManager [10; 20; 30])|vm_compute; reflexivity].
  - intros seq v. rewrite !list_elem_of_singleton. by intros [->| ->].
  - reflexivity.
  - split; [done|done|]. left. vm_compute. eauto.
  - intros _. vm_compute. done.
  - vm_compute. lia.
  - cbn. unfold CHANGE_INTERVAL. lia.
  - repeat constructor.
  - vm_compute. lia.
Defined.

Lemma changes_are_spaced_witness :
  let vm := initialize id self self 1 view (newFetcher []) (newValidatorManager {[78; 79]} []) in
  let calls := [(9, Some view, newFetcher []); (15, Some view, newFetcher []);
                (20, Some view, newFetcher []); (25, Some view, newFetcher [])] in
  changeLedgers calls vm newManager = [15; 25] /\
  spaced (lastChangeLedger_ vm) (changeLedgers calls vm newManager).
Proof.
  split; [vm_compute; reflexivity|].
  apply (changes_are_spaced _ (initialize id self self 1 view (newFetcher [])
    (newValidatorManager {[78; 79]} [])) newManager).
  - vm_compute. done.
  - repeat constructor; vm_compute; done.
Defined.

Lemma one_vote_per_validator_witness :
  let t := recordVote (adding 1 5 77) (recordVote (plain 2 5) (recordVote (plain 1 5) newTracker)) in
  (doVoting true 5 [] t).1 = [voteTx (plain 1 5); voteTx (plain 2 5)] /\
  (doVoting true 5 [] (doVoting true 5 [] t).2).1 = [].
Proof.
  intros t. split; [vm_compute; reflexivity|].
  pose proof (one_vote_per_validator 5 [] [] t [plain 1 5; plain 2 5; adding 1 5 77]
    ltac:(lia) ltac:(vm_compute; reflexivity) ltac:(done)) as Hv.
  cbv zeta in Hv. destruct (doVoting true 5 [] t) as [position' t']. apply Hv.
Defined.

Lemma combined_exclusions_authentic_witness :
  exists f, history [source] parse verify request fetched = Some f /\
  combinedExclusions_ f = {[77]} /\
  exists i s res y, [source] !! i = Some s /\ (i, res) ∈ omap arrived fetched /\ parse res = Some y /\
    verify y (pubkey s) res = true /\ 77 ∈ addresses y /\ cachedLists_ f !! url s = Some (mark_verified y).
Proof.
  eexists. split; [vm_compute; reflexivity|]. split; [vm_compute; reflexivity|].
  eapply (combined_exclusions_authentic [source] parse verify request fetched);
    [vm_compute; reflexivity|]. apply (bool_decide_unpack _). vm_compute. exact I.
Defined.

Lemma fetch_all_or_nothing_witness :
  exists f, history [source] parse verify request (fetched ++ [Timer 100]) = Some f /\
  allSuccessful (fetchResults_ f) = false /\
  exists f', onAllFetchesComplete [source] 101 false f = Some f' /\
    combinedExclusions_ f' = combinedExclusions_ f.
Proof.
  eexists. split; [vm_compute; reflexivity|]. split; [reflexivity|].
  match goal with |- exists f', onAllFetchesComplete _ _ _ ?f = _ /\ _ =>
    destruct (fetch_all_or_nothing [source] 101 f eq_refl) as (f' & E & _ & Hf) end.
  exists f'. split; [exact E|]. apply Hf.
Defined.

Lemma start_locks_itself_out_witness :
  start [source] badURL 0 (newFetcher [source]) = None.
Proof.
  apply (start_locks_itself_out [source] badURL 0); [done|].
  intros s. eexists. split; [reflexivity|]. done.
Defined.

Lemma late_amendment_missed_witness :
  let view0 := {| rules := {| validatorVoteTracking := true; accountExclusion := false;
                              deletableAccounts := true |}; accounts := accounts view |} in
  let vm := initialize id self self 1 view0 (newFetcher []) (newValidatorManager {[78]} []) in
  initialize id self self 1 view (newFetcher []) vm = vm.
Proof.
  intros view0. apply (late_amendment_missed id self self 1 {[78]} view0 (newFetcher [])).
  reflexivity.
Defined.
