(* ===== verification/Outcome.v ===== *)
(** * Calls that may throw

    A C++ call that can throw an exception returns an [outcome]: the result, or
    the message of the exception.  The bind of the monad is written with the
    notation of stdpp. *)

From stdpp Require Import strings.
From S2P Require Import Prelude.

Inductive outcome (A : Type) :=
| Throw (what : string)
| Ret (a : A).
Arguments Throw {A}.
Arguments Ret {A}.

#[export] Instance outcome_ret : MRet outcome := @Ret.
#[export] Instance outcome_bind : MBind outcome :=
  fun A B f m => match m with Throw what => Throw what | Ret a => f a end.

#[export] Instance outcome_fmap : FMap outcome :=
  fun A B f m => match m with Throw what => Throw what | Ret a => Ret (f a) end.

(** A pointer that the code dereferences or throws [what]. *)
Definition require {A} (what : string) (o : option A) : outcome A :=
  match o with Some a => Ret a | None => Throw what end.

(** [if (b) Throw<...>(what)]. *)
Definition refuse (what : string) (b : bool) : outcome unit :=
  if b then Throw what else Ret tt.

Definition returns {A} (m : outcome A) : Prop := exists a, m = Ret a.

Lemma bind_Ret {A B} (m : outcome A) (f : A -> outcome B) b :
  m ≫= f = Ret b <-> exists a, m = Ret a /\ f a = Ret b.
Proof. destruct m; cbn; naive_solver. Qed.

Lemma Ret_bind {A B} (a : A) (f : A -> outcome B) : Ret a ≫= f = f a.
Proof. reflexivity. Qed.

Lemma require_Some {A} what (o : option A) a : o = Some a -> require what o = Ret a.
Proof. by intros ->. Qed.

Lemma refuse_false what b : b = false -> refuse what b = Ret tt.
Proof. by intros ->. Qed.
