(* ===== verification/Directory.v ===== *)
(** * Ledger directories

    Models the directory operations of [src/libxrpl/ledger/ApplyView.cpp] and
    the walks over directories of [View.cpp] and [Dir.cpp].  A directory is a
    doubly linked ring of pages; its state is the map from page number to page
    ([keylet::page] of different numbers are different keys).  Page 0 is the
    root.  A page that is read again after an update is looked up again, since
    [peek] answers the same object.  The entries of a page other than its
    indexes and links, which [describe] sets, are left out. *)

From stdpp Require Import strings.
From S2P Require Import Prelude Outcome.

(** A page; the optional fields as they are present in the object. *)
Record DirNode := mkDir {
  sfIndexes : list Z;
  sfIndexNext : option Z;
  sfIndexPrevious : option Z;
}.

#[export] Instance DirNode_eq_dec : EqDecision DirNode.
Proof. solve_decision. Defined.

(** [getFieldU64]: an absent field reads as 0. *)
Definition getNext (n : DirNode) : Z := default 0 (sfIndexNext n).
Definition getPrevious (n : DirNode) : Z := default 0 (sfIndexPrevious n).

Definition setNext (p : Z) (n : DirNode) : DirNode := mkDir (sfIndexes n) (Some p) (sfIndexPrevious n).
Definition setPrevious (p : Z) (n : DirNode) : DirNode := mkDir (sfIndexes n) (sfIndexNext n) (Some p).
Definition setIndexes (l : list Z) (n : DirNode) : DirNode :=
  mkDir l (sfIndexNext n) (sfIndexPrevious n).

Abbreviation dir := (gmap Z DirNode).

Definition dirNodeMaxEntries : nat := 32.
Definition dirNodeMaxPages : Z := 262144.

(** ** Adding *)

Definition createRoot (key : Z) (v : dir) : dir := <[0 := mkDir [key] None None]> v.

(** The last page: the number and the page. *)
Definition findPreviousPage (v : dir) (start : DirNode) : outcome (Z * DirNode) :=
  let page := getPrevious start in
  if page =? 0 then Ret (0, start)
  else pair page <$> require "Directory chain: root back-pointer broken." (v !! page).

(** [std::lower_bound] and [insert] on a sorted vector. *)
Fixpoint insertSorted (key : Z) (l : list Z) : list Z :=
  match l with
  | [] => [key]
  | x :: l' => if x <? key then x :: insertSorted key l' else key :: l
  end.

Definition insertKey (page : Z) (preserveOrder : bool) (indexes : list Z) (key : Z) (v : dir)
    : outcome (option Z * dir) :=
  refuse "dirInsert: double insertion" (bool_decide (key ∈ indexes)) ≫= fun _ =>
  let indexes := if preserveOrder then indexes ++ [key]
                 else insertSorted key (merge_sort Z.le indexes) in
  Ret (Some page, alter (setIndexes indexes) page v).

(** A new page after the last one, [page]; [fixDirectoryLimit] is the amendment. *)
Definition insertPage (fixDirectoryLimit : bool) (page key : Z) (v : dir) : option Z * dir :=
  let last := page in
  let page := u64 (page + 1) in
  if page =? 0 then (None, v)
  else if negb fixDirectoryLimit && (dirNodeMaxPages <=? page) then (None, v)
  else
    let v := alter (setNext page) last v in
    let v := alter (setPrevious page) 0 v in
    let previous := if page =? 1 then None else Some (page - 1) in
    (Some page, <[page := mkDir [key] None previous]> v).

Definition dirAdd (fixDirectoryLimit preserveOrder : bool) (key : Z) (v : dir)
    : outcome (option Z * dir) :=
  match v !! 0 with
  | None => Ret (Some 0, createRoot key v)
  | Some root =>
      findPreviousPage v root ≫= fun '(page, node) =>
      if decide (length (sfIndexes node) < dirNodeMaxEntries)%nat
      then insertKey page preserveOrder (sfIndexes node) key v
      else Ret (insertPage fixDirectoryLimit page key v)
  end.

(** [isOffer]: the key is that of an offer; only those are appended. *)
Definition dirAppend (fixDirectoryLimit isOffer : bool) (key : Z) (v : dir) : outcome (option Z * dir) :=
  if negb isOffer then Ret (None, v) else dirAdd fixDirectoryLimit true key v.

Definition dirInsert (fixDirectoryLimit : bool) := dirAdd fixDirectoryLimit false.

(** ** Removing *)

(** [std::find] and [erase]: the first occurrence goes. *)
Fixpoint eraseKey (key : Z) (l : list Z) : list Z :=
  match l with
  | [] => []
  | x :: l' => if decide (x = key) then l' else x :: eraseKey key l'
  end.

(** The links of a root without entries: both or none. *)
Definition checkRoot (prevPage nextPage : Z) : outcome unit :=
  refuse "Directory chain: fwd link broken" ((nextPage =? 0) && negb (prevPage =? 0)) ≫= fun _ =>
  refuse "Directory chain: rev link broken" ((prevPage =? 0) && negb (nextPage =? 0)).

(** The part of [dirRemove] for an emptied root. *)
Definition removeRoot (keepRoot : bool) (node : DirNode) (v : dir) : outcome (bool * dir) :=
  let prevPage := getPrevious node in
  let nextPage := getNext node in
  checkRoot prevPage nextPage ≫= fun _ =>
  (if (nextPage =? prevPage) && negb (nextPage =? 0) then
     require "Directory chain: fwd link broken." (v !! nextPage) ≫= fun last =>
     Ret (if decide (sfIndexes last = [])
          then (0, 0, delete nextPage (alter (fun n => setPrevious 0 (setNext 0 n)) 0 v))
          else (nextPage, prevPage, v))
   else Ret (nextPage, prevPage, v)) ≫= fun '(nextPage, prevPage, v) =>
  Ret (true, if keepRoot then v
             else if (nextPage =? 0) && (prevPage =? 0) then delete 0 v else v).

(** The part of [dirRemove] for an emptied page that is not the root: unlink it. *)
Definition removePage (keepRoot : bool) (page : Z) (node : DirNode) (v : dir)
    : outcome (bool * dir) :=
  let prevPage := getPrevious node in
  let nextPage := getNext node in
  refuse "Directory chain: fwd link broken" (nextPage =? page) ≫= fun _ =>
  refuse "Directory chain: rev link broken" (prevPage =? page) ≫= fun _ =>
  require "Directory chain: fwd link broken." (v !! prevPage) ≫= fun _ =>
  let v := alter (setNext nextPage) prevPage v in
  require "Directory chain: rev link broken." (v !! nextPage) ≫= fun _ =>
  let v := alter (setPrevious prevPage) nextPage v in
  let v := delete page v in
  (match v !! nextPage with
   | Some next =>
       if negb (nextPage =? 0) && (getNext next =? 0) && bool_decide (sfIndexes next = []) then
         let v := delete nextPage v in
         let v := alter (setNext 0) prevPage v in
         require "Directory chain: root link broken." (v !! 0) ≫= fun _ =>
         Ret (0, alter (setPrevious prevPage) 0 v)
       else Ret (nextPage, v)
   | None => Ret (nextPage, v)
   end) ≫= fun '(nextPage, v) =>
  Ret (true,
       if negb keepRoot && (nextPage =? 0) && (prevPage =? 0) then
         match v !! 0 with
         | Some root => if decide (sfIndexes root = []) then delete 0 v else v
         | None => v
         end
       else v).

Definition dirRemove (page key : Z) (keepRoot : bool) (v : dir) : outcome (bool * dir) :=
  match v !! page with
  | None => Ret (false, v)
  | Some node =>
      if decide (key ∉ sfIndexes node) then Ret (false, v)
      else
        let entries := eraseKey key (sfIndexes node) in
        let v := alter (setIndexes entries) page v in
        if decide (entries <> []) then Ret (true, v)
        else if page =? 0 then removeRoot keepRoot node v
        else removePage keepRoot page node v
  end.

Definition emptyDirDelete (v : dir) : outcome (bool * dir) :=
  match v !! 0 with
  | None => Ret (false, v)
  | Some node =>
      if decide (sfIndexes node <> []) then Ret (false, v)
      else
        let prevPage := getPrevious node in
        let nextPage := getNext node in
        checkRoot prevPage nextPage ≫= fun _ =>
        if (nextPage =? prevPage) && negb (nextPage =? 0) then
          require "Directory chain: fwd link broken." (v !! nextPage) ≫= fun last =>
          Ret (if decide (sfIndexes last <> []) then (false, v)
               else (true, delete 0 (delete nextPage
                             (alter (fun n => setPrevious 0 (setNext 0 n)) 0 v))))
        else Ret (true, if (nextPage =? 0) && (prevPage =? 0) then delete 0 v else v)
  end.

(** [dirDelete]: the keys the callback gets, and whether it succeeded.  The
    loop is cut by [fuel]. *)
Fixpoint dirDelete (fuel : nat) (pi : Z) (v : dir) : option (bool * list Z * dir) :=
  match fuel with
  | O => None
  | S fuel =>
      match v !! pi with
      | None => Some (false, [], v)
      | Some page =>
          let v := delete pi v in
          match sfIndexNext page with
          | None => Some (true, sfIndexes page, v)
          | Some next =>
              '(ok, keys, v) ← dirDelete fuel next v; Some (ok, sfIndexes page ++ keys, v)
          end
      end
  end.

(** ** Walking *)

(** The keys [forEachItem] passes to its argument. *)
Fixpoint forEachItem (fuel : nat) (pos : Z) (v : dir) : option (list Z) :=
  match fuel with
  | O => None
  | S fuel =>
      match v !! pos with
      | None => Some []
      | Some sle =>
          if getNext sle =? 0 then Some (sfIndexes sle)
          else keys ← forEachItem fuel (getNext sle) v; Some (sfIndexes sle ++ keys)
      end
  end.

(** The cursor of [dirNext]: the page and the index in it; the answer is the
    entry and the new cursor, or nothing at the end. *)
Fixpoint internalDirNext (fuel : nat) (v : dir) (page : DirNode) (index : nat)
    : option (option (Z * (DirNode * nat))) :=
  match fuel with
  | O => None
  | S fuel =>
      match sfIndexes page !! index with
      | Some entry => Some (Some (entry, (page, S index)))
      | None =>
          if getNext page =? 0 then Some None
          else match v !! getNext page with
               | None => Some None
               | Some page => internalDirNext fuel v page 0
               end
      end
  end.

Definition internalDirFirst (fuel : nat) (v : dir) : option (option (Z * (DirNode * nat))) :=
  match v !! 0 with
  | None => Some None
  | Some page => internalDirNext fuel v page 0
  end.

(** The loop of the callers: [if (dirFirst(...)) do ... while (dirNext(...))].
    [pages] bounds the pages one call skips. *)
Fixpoint dirLoop (fuel pages : nat) (v : dir) (r : option (option (Z * (DirNode * nat))))
    : option (list Z) :=
  match fuel, r with
  | S fuel, Some (Some (entry, (page, index))) =>
      keys ← dirLoop fuel pages v (internalDirNext pages v page index); Some (entry :: keys)
  | S _, Some None => Some []
  | _, _ => None
  end.

Definition dirIsEmpty (v : dir) : bool :=
  match v !! 0 with
  | None => true
  | Some node => bool_decide (sfIndexes node = []) && (getNext node =? 0)
  end.

(** [Dir::const_iterator]: the page, the position in it and the entry, 0 at the
    end; two iterators are equal when page and entry are. *)
Record iterator := mkIter { it_page : Z; it_pos : nat; it_index : Z }.

Definition Dir_end : iterator := mkIter 0 0 0.

Definition Dir_begin (v : dir) : iterator :=
  match v !! 0 with
  | Some sle => mkIter 0 0 (default 0 (sfIndexes sle !! 0%nat))
  | None => Dir_end
  end.

Definition iter_eqb (a b : iterator) : bool := (it_page a =? it_page b) && (it_index a =? it_index b).

Definition next_page (v : dir) (it : iterator) : iterator :=
  match v !! it_page it with
  | None => Dir_end
  | Some sle =>
      if getNext sle =? 0 then mkIter 0 0 0
      else mkIter (getNext sle) 0
             (default 0 (v !! getNext sle ≫= fun sle => sfIndexes sle !! 0%nat))
  end.

Definition iter_next (v : dir) (it : iterator) : iterator :=
  match v !! it_page it ≫= fun sle => sfIndexes sle !! S (it_pos it) with
  | Some index => mkIter (it_page it) (S (it_pos it)) index
  | None => next_page v it
  end.

(** [for (auto const& x : Dir(view, key))]. *)
Fixpoint Dir_walk (fuel : nat) (v : dir) (it : iterator) : option (list Z) :=
  match fuel with
  | O => None
  | S fuel =>
      if iter_eqb it Dir_end then Some []
      else keys ← Dir_walk fuel v (iter_next v it); Some (it_index it :: keys)
  end.
