(* ===== verification/DirectoryFacts.v ===== *)
(** * Directories are rings of pages

    A well-formed directory is a ring of pages in increasing order, none but the
    root empty and none over its size, in which no key occurs twice.  Adding a
    new key and removing any key keep it so, never throw, and change the
    contents as they should.  The loops over the pages visit every entry once. *)

From stdpp Require Import strings.
From S2P Require Import Prelude Outcome Directory.

Definition nextOf (v : dir) (p : Z) : option Z := getNext <$> v !! p.
Definition prevOf (v : dir) (p : Z) : option Z := getPrevious <$> v !! p.

(** [q] follows [p] in the ring. *)
Definition edge (v : dir) (p q : Z) : Prop := nextOf v p = Some q /\ prevOf v q = Some p.

Definition entriesOf (v : dir) (p : Z) : option (list Z) := sfIndexes <$> v !! p.

(** The key [k] is on page [p]. *)
Definition holds (v : dir) (p k : Z) : Prop := exists l, entriesOf v p = Some l /\ k ∈ l.

Record page_ok (p : Z) (l : list Z) : Prop := {
  po_size : (length l <= dirNodeMaxEntries)%nat;
  po_nodup : NoDup l;
  po_nonempty : p <> 0 -> l <> [];
}.

(** The pages after the root are [ps]. *)
Record dir_wf (v : dir) (ps : list Z) : Prop := {
  dw_dom : forall p, is_Some (entriesOf v p) <-> p ∈ 0 :: ps;
  dw_sorted : StronglySorted Z.lt (0 :: ps);
  dw_bound : Forall (fun p => p < 2 ^ 64) ps;
  dw_ring : Forall2 (edge v) (0 :: ps) (ps ++ [0]);
  dw_pages : forall p l, entriesOf v p = Some l -> page_ok p l;
  dw_distinct : forall p q k, holds v p k -> holds v q k -> p = q;
}.

Definition dir_ok (v : dir) : Prop := v = ∅ \/ exists ps, dir_wf v ps.

(** The contents as a map from keys to pages. *)
Definition contents (v : dir) (A : gmap Z Z) : Prop := forall k p, A !! k = Some p <-> holds v p k.

(** ** Links under updates *)

(** A field of a page after [alter] of a page. *)
Ltac altered f :=
  unfold f; match goal with |- context [alter _ ?p ?v !! ?x] =>
    destruct (decide (x = p)) as [->|]; [rewrite lookup_alter_eq|by rewrite lookup_alter_ne];
    rewrite ?decide_True by done; by destruct (v !! p)
  end.

Lemma nextOf_setNext v p q x :
  nextOf (alter (setNext q) p v) x = if decide (x = p) then const q <$> v !! p else nextOf v x.
Proof. by altered nextOf. Qed.

Lemma prevOf_setNext v p q x : prevOf (alter (setNext q) p v) x = prevOf v x.
Proof. by altered prevOf. Qed.

Lemma nextOf_setPrevious v p q x : nextOf (alter (setPrevious q) p v) x = nextOf v x.
Proof. by altered nextOf. Qed.

Lemma prevOf_setPrevious v p q x :
  prevOf (alter (setPrevious q) p v) x = if decide (x = p) then const q <$> v !! p else prevOf v x.
Proof. by altered prevOf. Qed.

Lemma nextOf_setIndexes v p l x : nextOf (alter (setIndexes l) p v) x = nextOf v x.
Proof. by altered nextOf. Qed.

Lemma prevOf_setIndexes v p l x : prevOf (alter (setIndexes l) p v) x = prevOf v x.
Proof. by altered prevOf. Qed.

Lemma nextOf_insert v p n x : nextOf (<[p := n]> v) x = if decide (x = p) then Some (getNext n) else nextOf v x.
Proof. unfold nextOf. case_decide; [subst; by rewrite lookup_insert_eq|by rewrite lookup_insert_ne]. Qed.

Lemma prevOf_insert v p n x :
  prevOf (<[p := n]> v) x = if decide (x = p) then Some (getPrevious n) else prevOf v x.
Proof. unfold prevOf. case_decide; [subst; by rewrite lookup_insert_eq|by rewrite lookup_insert_ne]. Qed.

Lemma nextOf_delete v p x : x <> p -> nextOf (delete p v) x = nextOf v x.
Proof. intros. unfold nextOf. by rewrite lookup_delete_ne. Qed.

Lemma prevOf_delete v p x : x <> p -> prevOf (delete p v) x = prevOf v x.
Proof. intros. unfold prevOf. by rewrite lookup_delete_ne. Qed.

Lemma entriesOf_setNext v p q x : entriesOf (alter (setNext q) p v) x = entriesOf v x.
Proof. by altered entriesOf. Qed.

Lemma entriesOf_setPrevious v p q x : entriesOf (alter (setPrevious q) p v) x = entriesOf v x.
Proof. by altered entriesOf. Qed.

Lemma entriesOf_setIndexes v p l x :
  entriesOf (alter (setIndexes l) p v) x = if decide (x = p) then const l <$> v !! p else entriesOf v x.
Proof. by altered entriesOf. Qed.

Lemma entriesOf_insert v p n x :
  entriesOf (<[p := n]> v) x = if decide (x = p) then Some (sfIndexes n) else entriesOf v x.
Proof. unfold entriesOf. case_decide; [subst; by rewrite lookup_insert_eq|by rewrite lookup_insert_ne]. Qed.

Lemma entriesOf_delete v p x :
  entriesOf (delete p v) x = if decide (x = p) then None else entriesOf v x.
Proof. unfold entriesOf. case_decide; [subst; by rewrite lookup_delete_eq|by rewrite lookup_delete_ne]. Qed.

Create Rewrite HintDb links.
#[export] Hint Rewrite nextOf_setNext prevOf_setNext nextOf_setPrevious prevOf_setPrevious
  nextOf_setIndexes prevOf_setIndexes nextOf_insert prevOf_insert
  entriesOf_setNext entriesOf_setPrevious entriesOf_setIndexes entriesOf_insert entriesOf_delete : links.

(** An update that touches neither the next link of the sources nor the
    previous link of the targets keeps the edges. *)
Lemma edges_frame v v' l m :
  (forall x, x ∈ l -> nextOf v' x = nextOf v x) -> (forall y, y ∈ m -> prevOf v' y = prevOf v y) ->
  Forall2 (edge v) l m -> Forall2 (edge v') l m.
Proof.
  intros Hl Hm H. revert Hl Hm. induction H as [|x y l m [Hn Hp] _ IH]; intros Hl Hm; [constructor|].
  constructor; [|apply IH; intros; [apply Hl|apply Hm]; by right].
  split; [rewrite Hl by left|rewrite Hm by left]; done.
Qed.

(** ** The ring *)

Section Ring.
Context (v : dir) (ps : list Z) (W : dir_wf v ps).

Lemma ring_positive p : p ∈ ps -> 0 < p.
Proof.
  intros Hp. pose proof (dw_sorted _ _ W) as Hs. inversion Hs as [|? ? _ Hall]; subst.
  rewrite Forall_forall in Hall. by apply Hall.
Qed.

Lemma ring_nodup : NoDup (0 :: ps).
Proof.
  pose proof (dw_sorted _ _ W) as Hs. induction Hs as [|x l _ IH Hall]; constructor; [|done].
  rewrite Forall_forall in Hall. intros Hx. specialize (Hall _ Hx). lia.
Qed.

Lemma ring_root : exists n, v !! 0 = Some n.
Proof. apply fmap_is_Some with sfIndexes, (dw_dom _ _ W). by left. Qed.

(** The last page is the predecessor of the root. *)
Lemma ring_last :
  exists s l, 0 :: ps = s ++ [l] /\ Forall2 (edge v) s ps /\ edge v l 0 /\
  Forall (fun x => x < l) s /\ 0 <= l /\ l < 2 ^ 64.
Proof.
  destruct (exists_last (l := 0 :: ps)) as (s & l & E); [done|]. exists s, l.
  pose proof (dw_ring _ _ W) as R. rewrite E in R.
  apply Forall2_app_inv in R as [Hs Hl]; [|apply (f_equal length) in E; rewrite length_app in E; cbn in E; lia].
  pose proof (dw_sorted _ _ W) as Hsorted. rewrite E in Hsorted.
  apply StronglySorted_app in Hsorted as (Hlt & _ & _).
  assert (l ∈ 0 :: ps) as Hin by (rewrite E; set_solver).
  split_and!; [done|done|by inversion Hl| | |].
  - apply Forall_forall. intros x Hx. apply Hlt; set_solver.
  - apply elem_of_cons in Hin as [->|Hin]; [lia|]. pose proof (ring_positive _ Hin). lia.
  - apply elem_of_cons in Hin as [->|Hin]; [lia|]. pose proof (dw_bound _ _ W) as Hb.
    rewrite Forall_forall in Hb. by apply Hb.
Qed.

(** The neighbours of a page. *)
Lemma ring_split p :
  p ∈ ps -> exists l1 l2 s a b t, ps = l1 ++ p :: l2 /\ 0 :: l1 = s ++ [a] /\ l2 ++ [0] = b :: t /\
  Forall2 (edge v) s l1 /\ edge v a p /\ edge v p b /\ Forall2 (edge v) l2 t.
Proof.
  intros (l1 & l2 & E)%list_elem_of_split. exists l1, l2.
  destruct (exists_last (l := 0 :: l1)) as (s & a & Es); [done|].
  destruct (l2 ++ [0]) as [|b t] eqn:Et; [by destruct l2|].
  exists s, a, b, t. pose proof (dw_ring _ _ W) as R. rewrite E in R.
  rewrite <- app_assoc in R. cbn in R. rewrite Et in R.
  rewrite app_comm_cons, Es, <- app_assoc in R. cbn in R.
  apply Forall2_app_inv in R as [Hs R];
    [|apply (f_equal length) in Es; rewrite length_app in Es; cbn in Es; lia].
  inversion R as [|? ? ? ? Ha R']; subst. inversion R'; subst. done.
Qed.

End Ring.

(** ** Adding a key *)

Lemma insertSorted_perm k l : insertSorted k l ≡ₚ k :: l.
Proof.
  induction l as [|x l IH]; [done|]. cbn. case_match; [|done]. rewrite IH. constructor.
Qed.

Lemma holds_ext v v' : (forall p, entriesOf v' p = entriesOf v p) -> forall p k, holds v' p k <-> holds v p k.
Proof. intros E p k. unfold holds. by rewrite E. Qed.

Lemma setIndexes_holds v p l l' q j :
  entriesOf v p = Some l ->
  holds (alter (setIndexes l') p v) q j <-> if decide (q = p) then j ∈ l' else holds v q j.
Proof.
  intros E. unfold holds. rewrite entriesOf_setIndexes. unfold entriesOf in E.
  destruct (v !! p); [|done]. case_decide; cbn; naive_solver.
Qed.

(** The entries of one page change; no key comes twice. *)
Lemma setIndexes_wf v ps p l l' :
  dir_wf v ps -> entriesOf v p = Some l -> page_ok p l' ->
  (forall j, j ∈ l' -> j ∈ l \/ forall q, ~ holds v q j) -> dir_wf (alter (setIndexes l') p v) ps.
Proof.
  intros W E Hl' Hnew.
  assert (forall q j, holds (alter (setIndexes l') p v) q j -> q = p /\ j ∈ l' \/ q <> p /\ holds v q j) as Hh.
  { intros q j H%(setIndexes_holds _ _ _ _ _ _ E). case_decide; naive_solver. }
  split; try apply W.
  - intros q. rewrite <- (dw_dom _ _ W), entriesOf_setIndexes. unfold entriesOf in *.
    case_decide as Eq; [subst|done]. destruct (v !! p); [|done]. cbn. done.
  - eapply edges_frame; [..|apply (dw_ring _ _ W)]; intros; by autorewrite with links.
  - intros q m. rewrite entriesOf_setIndexes. case_decide as Eq; [subst|by apply (dw_pages _ _ W)].
    unfold entriesOf in E. destruct (v !! p); [|done]. by intros [= <-].
  - intros q r j [[-> Hj]|[Hne Hq]]%Hh [[-> Hj']|[Hne' Hr]]%Hh; [done|..|by eapply (dw_distinct _ _ W)].
    + destruct (Hnew _ Hj) as [Hin|Hno]; [|by destruct (Hno r)].
      eapply (dw_distinct _ _ W); [exists l; by split|done].
    + destruct (Hnew _ Hj') as [Hin|Hno]; [|by destruct (Hno q)].
      eapply (dw_distinct _ _ W); [done|exists l; by split].
Qed.

Lemma createRoot_wf k : dir_wf (createRoot k ∅) [].
Proof.
  unfold createRoot. split.
  - intros p. unfold entriesOf. rewrite fmap_is_Some, lookup_insert_is_Some, lookup_empty.
    rewrite elem_of_cons. split; [intros [->|[_ [? ?]]]; [by left|done]|].
    intros [->|Hp]; [by left|by apply elem_of_nil in Hp].
  - repeat constructor.
  - constructor.
  - constructor; [by split|constructor].
  - intros p l. unfold entriesOf. rewrite lookup_insert. case_decide; [|done]. intros [= <-].
    split; [cbn; unfold dirNodeMaxEntries; lia|apply NoDup_singleton|done].
  - intros p q j (l & Hp & _) (m & Hq & _). unfold entriesOf in *.
    rewrite lookup_insert in Hp, Hq. repeat case_decide; by subst.
Qed.

(** The directory after [insertPage] adds page [q] behind the last page [l]. *)
Definition extended (q l k : Z) (v : dir) : dir :=
  <[q := mkDir [k] None (if q =? 1 then None else Some (q - 1))]>
    (alter (setPrevious q) 0 (alter (setNext q) l v)).

Lemma extended_holds v ps q l k p j :
  dir_wf v ps -> q ∉ 0 :: ps ->
  holds (extended q l k v) p j <-> holds v p j \/ p = q /\ j = k.
Proof.
  intros W Hq. unfold holds, extended. autorewrite with links.
  assert (entriesOf v q = None) as En.
  { apply eq_None_not_Some. by rewrite (dw_dom _ _ W). }
  case_decide as E; [subst|naive_solver]. rewrite En. split.
  - intros (m & [= <-] & ->%list_elem_of_singleton). by right.
  - intros [(m & ? & _)|[_ ->]]; [done|]. exists [k]. split; [done|by left].
Qed.

Lemma extended_wf v ps k l :
  dir_wf v ps -> edge v l 0 -> l + 1 < 2 ^ 64 -> (forall p, ~ holds v p k) ->
  dir_wf (extended (l + 1) l k v) (ps ++ [l + 1]).
Proof.
  intros W Hl Hb Hk. destruct (ring_last _ _ W) as (s & l' & Es & Hs & Hl' & Hlt & H0 & _).
  assert (l' = l) as -> by (destruct Hl as [_ Hl], Hl' as [_ Hl']; congruence).
  assert (forall x, x ∈ 0 :: ps -> x <= l) as Hmax.
  { intros x. rewrite Es, elem_of_app, list_elem_of_singleton. rewrite Forall_forall in Hlt.
    intros [Hx| ->]; [specialize (Hlt _ Hx)|]; lia. }
  assert (l + 1 ∉ 0 :: ps) as Hq by (intros Hin%Hmax; lia).
  assert (0 :: ps ++ [l + 1] = s ++ [l; l + 1]) as Eq by (rewrite app_comm_cons, Es, <- app_assoc; done).
  assert (is_Some (v !! 0) /\ is_Some (v !! l)) as [[n0 E0] [nl El]].
  { unfold edge, nextOf, prevOf in Hl. destruct Hl as [Hl0 Hl1].
    destruct (v !! l), (v !! 0); naive_solver. }
  assert (forall p j, holds (extended (l + 1) l k v) p j -> holds v p j \/ p = l + 1 /\ j = k) as Hh
    by (intros p j; by apply (extended_holds _ _ _ _ _ _ _ W)).
  split.
  - intros p. unfold extended. autorewrite with links. rewrite app_comm_cons, elem_of_app, list_elem_of_singleton.
    rewrite <- (dw_dom _ _ W). case_decide; naive_solver.
  - rewrite Eq. change [l; l + 1] with ([l] ++ [l + 1]). rewrite app_assoc, <- Es.
    apply StronglySorted_app. split_and!; [|apply W|repeat constructor].
    intros x y Hx%Hmax ->%list_elem_of_singleton. lia.
  - apply Forall_app. split; [apply W|]. constructor; [done|constructor].
  - rewrite Eq, <- app_assoc. apply Forall2_app.
    + pose proof (ring_nodup _ _ W) as Hnd. eapply edges_frame; [..|exact Hs].
      * intros x Hx. unfold extended. autorewrite with links. rewrite Forall_forall in Hlt.
        specialize (Hlt _ Hx). by rewrite !decide_False by lia.
      * intros y Hy. unfold extended. autorewrite with links. pose proof (ring_positive _ _ W _ Hy).
        rewrite !decide_False; [done|lia|intros ->; apply Hq; by right].
    + constructor; [|constructor; [|constructor]]; split; unfold extended; autorewrite with links.
      * by rewrite decide_False, decide_True, El by lia.
      * rewrite decide_True by done. unfold getPrevious. cbn. destruct (Z.eqb_spec (l + 1) 1); cbn; f_equal; lia.
      * by rewrite decide_True by done.
      * rewrite decide_False, decide_True, lookup_alter by lia. by case_decide; [subst; rewrite E0|rewrite E0].
  - intros p m. unfold extended. autorewrite with links. case_decide as Ep; [|apply (dw_pages _ _ W)].
    intros [= <-]. split; [cbn; unfold dirNodeMaxEntries; lia|apply NoDup_singleton|done].
  - intros p p' j [Hp|[-> ->]]%Hh [Hp'|[-> Hj]]%Hh; [by eapply (dw_distinct _ _ W)|by subst; destruct (Hk p)|
      by destruct (Hk p')|done].
Qed.

(** The page for a new key, given the last page and the number of its entries:
    the last page while it has room, then a new one, as long as there are page
    numbers left; the amendment lifts the old limit. *)
Definition pageLimit (fixDirectoryLimit : bool) : Z := if fixDirectoryLimit then 2 ^ 64 else dirNodeMaxPages.

Definition roomAt (fixDirectoryLimit : bool) (l : Z) (n : nat) : option Z :=
  if decide (n < dirNodeMaxEntries)%nat then Some l
  else if decide (l + 1 < pageLimit fixDirectoryLimit) then Some (l + 1) else None.

(** Where the next key goes: to the root of a new directory, or to the end. *)
Definition room (fixDirectoryLimit : bool) (v : dir) (r : option Z) : Prop :=
  v = ∅ /\ r = Some 0 \/
  exists l entries, edge v l 0 /\ entriesOf v l = Some entries /\ r = roomAt fixDirectoryLimit l (length entries).

Lemma findPreviousPage_last v ps root :
  dir_wf v ps -> v !! 0 = Some root ->
  exists l node, edge v l 0 /\ v !! l = Some node /\ findPreviousPage v root = Ret (l, node).
Proof.
  intros W Hr. destruct (ring_last _ _ W) as (s & l & Es & _ & Hl & _).
  assert (is_Some (v !! l)) as [node Hn] by (destruct Hl as [Hl _]; unfold nextOf in Hl; destruct (v !! l); naive_solver).
  exists l, node. split_and!; [done..|]. destruct Hl as [_ Hp]. unfold prevOf in Hp. rewrite Hr in Hp.
  injection Hp as Hp. unfold findPreviousPage. rewrite Hp.
  destruct (Z.eqb_spec l 0) as [->|]; [|by rewrite Hn]. rewrite Hr in Hn. by injection Hn as ->.
Qed.

(** The answer [r] and the directory [v'] after a new key [k] was to be added. *)
Definition added (fixDirectoryLimit : bool) (k : Z) (v : dir) (r : option Z) (v' : dir) : Prop :=
  room fixDirectoryLimit v r /\
  match r with
  | Some p => (exists ps', dir_wf v' ps') /\ forall q j, holds v' q j <-> holds v q j \/ q = p /\ j = k
  | None => v' = v
  end.

Section Adding.
Context (fixDirectoryLimit : bool) (k : Z) (v : dir) (ps : list Z) (l : Z) (node : DirNode).
Context (W : dir_wf v ps) (Hk : forall p, ~ holds v p k) (Hl : edge v l 0) (Hn : v !! l = Some node).

Lemma insertKey_spec preserve :
  (length (sfIndexes node) < dirNodeMaxEntries)%nat ->
  exists r v', insertKey l preserve (sfIndexes node) k v = Ret (r, v') /\ added fixDirectoryLimit k v r v'.
Proof.
  intros Hlen. assert (entriesOf v l = Some (sfIndexes node)) as En by (unfold entriesOf; by rewrite Hn).
  assert (k ∉ sfIndexes node) as Hnew by (intros ?; apply (Hk l); by exists (sfIndexes node)).
  unfold insertKey. rewrite bool_decide_eq_false_2 by done. cbn. set (l' := if preserve then _ else _).
  assert (l' ≡ₚ k :: sfIndexes node) as Hp.
  { unfold l'. destruct preserve; [by rewrite Permutation_app_comm|].
    by rewrite insertSorted_perm, merge_sort_Permutation. }
  eexists (Some l), _. split; [done|]. split; [|split].
  - right. exists l, (sfIndexes node). split_and!; [done..|]. unfold roomAt. by rewrite decide_True.
  - exists ps. eapply setIndexes_wf; [done..| |].
    + split; [rewrite Hp; cbn; unfold dirNodeMaxEntries in *; lia| |intros _ ->; by apply Permutation_nil_cons in Hp].
      rewrite Hp. constructor; [done|]. apply (dw_pages _ _ W _ _ En).
    + intros j. rewrite Hp, elem_of_cons. intros [->|?]; [by right|by left].
  - intros q j. rewrite setIndexes_holds by done. case_decide as Eq; [subst|naive_solver].
    rewrite Hp, elem_of_cons. unfold holds at 1. rewrite En. naive_solver.
Qed.

Lemma insertPage_spec :
  length (sfIndexes node) = dirNodeMaxEntries ->
  exists r v', insertPage fixDirectoryLimit l k v = (r, v') /\ added fixDirectoryLimit k v r v'.
Proof.
  intros Hlen. assert (entriesOf v l = Some (sfIndexes node)) as En by (unfold entriesOf; by rewrite Hn).
  destruct (ring_last _ _ W) as (s & l0 & Es & _ & Hl0 & Hlt & H0 & Hb).
  assert (l0 = l) as -> by (destruct Hl as [_ Hl'], Hl0 as [_ Hl0']; congruence).
  assert (forall r, r = (if decide (l + 1 < pageLimit fixDirectoryLimit) then Some (l + 1) else None) ->
    room fixDirectoryLimit v r) as Hroom.
  { intros r ->. right. exists l, (sfIndexes node). split_and!; [done..|]. unfold roomAt. by rewrite Hlen. }
  unfold insertPage. destruct (Z.eqb_spec (u64 (l + 1)) 0) as [Eu|Eu].
  { eexists None, v. split; [done|]. split; [|done]. apply Hroom. rewrite decide_False; [done|].
    unfold u64 in Eu. apply Z.mod_divide in Eu as [z Ez]; [|lia].
    assert (l + 1 = 2 ^ 64) as -> by nia. by destruct fixDirectoryLimit. }
  assert (l + 1 < 2 ^ 64) as Hlt'.
  { destruct (decide (l + 1 = 2 ^ 64)) as [E|]; [|lia]. destruct Eu. by rewrite E. }
  rewrite u64_id in * by lia.
  destruct (negb fixDirectoryLimit && (dirNodeMaxPages <=? l + 1)) eqn:Elim.
  { b2p. eexists None, v. split; [done|]. split; [|done]. apply Hroom. rewrite decide_False; [done|].
    subst. unfold pageLimit. lia. }
  eexists (Some (l + 1)), _. split; [done|]. split; [|split].
  - apply Hroom. rewrite decide_True; [done|].
    destruct fixDirectoryLimit; [done|]. unfold pageLimit. cbn in Elim. b2p. lia.
  - exists (ps ++ [l + 1]). by apply (extended_wf _ ps).
  - intros q j. apply (extended_holds _ ps); [done|]. rewrite Es.
    rewrite Forall_forall in Hlt. intros [Hx%Hlt|Hx%list_elem_of_singleton]%elem_of_app; lia.
Qed.

End Adding.

Lemma dirAdd_spec fixDirectoryLimit preserve k v :
  dir_ok v -> (forall p, ~ holds v p k) ->
  exists r v', dirAdd fixDirectoryLimit preserve k v = Ret (r, v') /\ added fixDirectoryLimit k v r v'.
Proof.
  intros [->|[ps W]] Hk.
  { eexists (Some 0), _. split; [done|]. split; [by left|]. split; [exists []; apply createRoot_wf|]. intros q j.
    unfold holds, entriesOf, createRoot. rewrite lookup_insert, lookup_empty.
    case_decide; [subst|naive_solver]. cbn. split; [|naive_solver (set_solver)].
    intros (? & [= <-] & ->%list_elem_of_singleton). by right. }
  destruct (ring_root _ _ W) as [root Hr].
  destruct (findPreviousPage_last _ _ _ W Hr) as (l & node & Hl & Hn & Ef).
  unfold dirAdd. rewrite Hr, Ef. cbn. case_decide as Hlen; [by eapply insertKey_spec|].
  destruct (insertPage_spec fixDirectoryLimit k v ps l node W Hk Hl Hn) as (r & v' & -> & Ha); [|by eauto].
  assert (entriesOf v l = Some (sfIndexes node)) as En by (unfold entriesOf; by rewrite Hn).
  pose proof (po_size _ _ (dw_pages _ _ W _ _ En)). lia.
Qed.

(** ** Removing a key *)

(** The directory after page [p] between [a] and [b] was unlinked. *)
Definition unlinked (a p b : Z) (v : dir) : dir :=
  delete p (alter (setPrevious a) b (alter (setNext b) a v)).

Lemma entriesOf_unlinked a p b v x :
  entriesOf (unlinked a p b v) x = if decide (x = p) then None else entriesOf v x.
Proof. unfold unlinked. by autorewrite with links. Qed.

Lemma unlinked_holds a p b v q j : holds (unlinked a p b v) q j <-> holds v q j /\ q <> p.
Proof. unfold holds. rewrite entriesOf_unlinked. case_decide; naive_solver. Qed.

Lemma edge_Some v p q : edge v p q -> is_Some (v !! p) /\ is_Some (v !! q).
Proof. unfold edge, nextOf, prevOf. destruct (v !! p), (v !! q); naive_solver. Qed.

(** The page [p] with its neighbours [a] and [b] in the ring: [l1] and [l2] are
    the pages before and after it, [s] and [t] the ring around the gap. *)
Record between (v : dir) (ps : list Z) (p a b : Z) (l1 l2 s t : list Z) : Prop := {
  bt_ps : ps = l1 ++ p :: l2;
  bt_s : 0 :: l1 = s ++ [a];
  bt_t : l2 ++ [0] = b :: t;
  bt_before : Forall2 (edge v) s l1;
  bt_after : Forall2 (edge v) l2 t;
  bt_out : p ∉ 0 :: l1 ++ l2;
  bt_s_ne : forall x, x ∈ s -> x <> a;
  bt_l1_ne : forall x, x ∈ l1 -> x <> b;
  bt_l2_ne : forall x, x ∈ l2 -> x <> a;
  bt_t_ne : forall x, x ∈ t -> x <> b;
}.

Lemma between_exists v ps p a b :
  dir_wf v ps -> p ∈ ps -> edge v a p -> edge v p b -> exists l1 l2 s t, between v ps p a b l1 l2 s t.
Proof.
  intros W Hp Ha Hb.
  destruct (ring_split _ _ W _ Hp) as (l1 & l2 & s & a' & b' & t & Eps & Es & Et & Hs & Ha' & Hb' & Ht).
  assert (a' = a /\ b' = b) as [-> ->] by (unfold edge in *; naive_solver).
  pose proof (ring_nodup _ _ W) as Hnd. pose proof Hnd as Hnd0.
  rewrite Eps, app_comm_cons in Hnd. apply NoDup_app in Hnd as (Hnd1 & Hdis & Hnd2).
  apply NoDup_cons in Hnd2 as [Hp2 Hnd2]. apply NoDup_cons in Hnd0 as [H0 _]. rewrite Eps in H0.
  assert (NoDup (b :: t)) as Hbt.
  { rewrite <- Et. apply NoDup_app. split_and!; [done| |apply NoDup_singleton].
    intros x Hx ->%list_elem_of_singleton. set_solver. }
  assert (b = 0 \/ b ∈ l2) as Hb0.
  { assert (b ∈ l2 ++ [0]) as Hin by (rewrite Et; by left). set_solver. }
  exists l1, l2, s, t. split; try done.
  - set_solver.
  - rewrite Es in Hnd1. apply NoDup_app in Hnd1 as (_ & Hsa & _). intros x Hx ->. apply (Hsa a Hx). by left.
  - intros x Hx ->. destruct Hb0 as [->|]; set_solver.
  - intros x Hx ->. apply (Hdis a); [rewrite Es|]; set_solver.
  - apply NoDup_cons in Hbt as [Hbt _]. by intros x Hx ->.
Qed.

Section Unlink.
Context (v : dir) (ps : list Z) (p a b : Z) (l1 l2 s t : list Z).
Context (W : dir_wf v ps) (Ha : edge v a p) (Hb : edge v p b) (B : between v ps p a b l1 l2 s t).

Lemma between_ne x : x ∈ s \/ x = a \/ x ∈ l1 \/ x ∈ l2 \/ x = b \/ x ∈ t -> x <> p.
Proof using B.
  clear W Ha Hb.
  intros H ->. pose proof (bt_s _ _ _ _ _ _ _ _ _ B) as Es. pose proof (bt_t _ _ _ _ _ _ _ _ _ B) as Et.
  apply (bt_out _ _ _ _ _ _ _ _ _ B).
  assert (p ∈ 0 :: l1 \/ p ∈ l2 ++ [0]) as Hin.
  { destruct H as [H|[H|[H|[H|[H|H]]]]]; [left; rewrite Es|left; rewrite Es|left|right|right; rewrite Et|right; rewrite Et]; set_solver. }
  set_solver.
Qed.

Lemma unlinked_ring : Forall2 (edge (unlinked a p b v)) (0 :: l1 ++ l2) ((l1 ++ l2) ++ [0]).
Proof.
  rewrite app_comm_cons, (bt_s _ _ _ _ _ _ _ _ _ B), <- !app_assoc, (bt_t _ _ _ _ _ _ _ _ _ B). cbn.
  destruct (edge_Some _ _ _ Ha) as [[na Ena] _], (edge_Some _ _ _ Hb) as [_ [nb Enb]].
  assert (forall x, x <> a -> x <> p -> nextOf (unlinked a p b v) x = nextOf v x) as Hn.
  { intros. unfold unlinked. rewrite nextOf_delete by done. autorewrite with links. by rewrite decide_False. }
  assert (forall x, x <> b -> x <> p -> prevOf (unlinked a p b v) x = prevOf v x) as Hp.
  { intros. unfold unlinked. rewrite prevOf_delete by done. autorewrite with links. by rewrite decide_False. }
  apply Forall2_app; [|constructor].
  - eapply edges_frame; [..|apply B]; intros x Hx; [apply Hn; [by apply B|]|apply Hp; [by apply B|]];
      apply between_ne; tauto.
  - split; unfold unlinked; [rewrite nextOf_delete|rewrite prevOf_delete]; try (apply between_ne; tauto);
      autorewrite with links; rewrite decide_True by done; [by rewrite Ena|].
    rewrite lookup_alter. case_decide; subst; by rewrite Enb.
  - eapply edges_frame; [..|apply (bt_after _ _ _ _ _ _ _ _ _ B)]; intros x Hx;
      [apply Hn; [by apply (bt_l2_ne _ _ _ _ _ _ _ _ _ B)|]|apply Hp; [by apply (bt_t_ne _ _ _ _ _ _ _ _ _ B)|]];
      apply between_ne; tauto.
Qed.

Lemma unlinked_wf : dir_wf (unlinked a p b v) (l1 ++ l2).
Proof.
  pose proof (bt_ps _ _ _ _ _ _ _ _ _ B) as Eps. split.
  - intros x. rewrite entriesOf_unlinked. pose proof (dw_dom _ _ W x) as Hd. rewrite Eps in Hd.
    pose proof (bt_out _ _ _ _ _ _ _ _ _ B). case_decide as E; [subst; split; [by intros []|done]|].
    rewrite Hd. set_solver.
  - pose proof (dw_sorted _ _ W) as Hso. rewrite Eps, app_comm_cons in Hso.
    apply StronglySorted_app in Hso as (Hlt & H1 & H2). inversion H2; subst.
    rewrite app_comm_cons. apply StronglySorted_app. split_and!; [|done..].
    intros x y Hx Hy. apply Hlt; [done|by right].
  - pose proof (dw_bound _ _ W) as Hbo. rewrite Eps in Hbo.
    apply Forall_app in Hbo as [H1 H2]. inversion H2; subst. by apply Forall_app.
  - apply unlinked_ring.
  - intros x m. rewrite entriesOf_unlinked. case_decide; [done|]. apply (dw_pages _ _ W).
  - intros x y j [Hx _]%unlinked_holds [Hy _]%unlinked_holds. by eapply (dw_distinct _ _ W).
Qed.

(** Only the root is left if it was on both sides. *)
Lemma between_only : a = 0 -> b = 0 -> l1 ++ l2 = [].
Proof using W B.
  clear Ha Hb.
  pose proof (ring_nodup _ _ W) as Hnd. pose proof (bt_s _ _ _ _ _ _ _ _ _ B) as Es.
  pose proof (bt_t _ _ _ _ _ _ _ _ _ B) as Et. rewrite (bt_ps _ _ _ _ _ _ _ _ _ B) in Hnd.
  apply NoDup_cons in Hnd as [H0 _]. intros -> ->. destruct l1 as [|y l].
  - destruct l2 as [|x l']; [done|]. injection Et as -> _. set_solver.
  - destruct s as [|z s']; [done|]. injection Es as _ Es. rewrite Es in H0. set_solver.
Qed.

End Unlink.

Lemma eraseKey_elem k l j : NoDup l -> j ∈ eraseKey k l <-> j ∈ l /\ j <> k.
Proof.
  induction 1 as [|x l Hx _ IH]; cbn; [set_solver|]. case_decide; subst; set_solver.
Qed.

Lemma eraseKey_sublist k l : eraseKey k l `sublist_of` l.
Proof. induction l as [|x l IH]; cbn; [done|]. case_decide; by constructor. Qed.

Lemma eraseKey_ok p k l : page_ok p l -> eraseKey k l <> [] \/ p = 0 -> page_ok p (eraseKey k l).
Proof.
  intros Hl Hne. pose proof (eraseKey_sublist k l) as Hs. split; [|by eapply sublist_NoDup; [apply Hl|]|naive_solver].
  apply sublist_length in Hs. pose proof (po_size _ _ Hl). lia.
Qed.

(** The entry [k] of page [p] is gone, the others are there. *)
Definition removed (p k : Z) (v v' : dir) : Prop :=
  forall q j, holds v' q j <-> holds v q j /\ ~ (q = p /\ j = k).

Lemma wf_root_only v : dir_wf v [] -> delete 0 v = ∅.
Proof.
  intros W. apply map_eq. intros x. rewrite lookup_empty.
  destruct (decide (x = 0)) as [->|Hx]; [apply lookup_delete_eq|]. rewrite lookup_delete_ne by done.
  apply eq_None_not_Some. intros H. apply Hx.
  assert (x ∈ [0]) as Hin; [|by apply list_elem_of_singleton in Hin].
  apply (dw_dom _ _ W). by apply fmap_is_Some.
Qed.

(** The links of the root: both 0 or both not. *)
Lemma ring_root_links v ps n :
  dir_wf v ps -> v !! 0 = Some n ->
  (ps = [] /\ getNext n = 0 /\ getPrevious n = 0) \/
  (ps <> [] /\ getNext n ∈ ps /\ getPrevious n ∈ ps).
Proof.
  intros W Hn. pose proof (dw_ring _ _ W) as R.
  destruct (ring_last _ _ W) as (s & l & Es & _ & [_ Hl] & _). unfold prevOf in Hl. rewrite Hn in Hl.
  injection Hl as Hl. destruct ps as [|q ps]; cbn in R; inversion R as [|? ? ? ? [Hq _] _]; subst;
    unfold nextOf in Hq; rewrite Hn in Hq; injection Hq as Hq; [left|right].
  - by destruct s as [|? [|]]; simplify_eq/=.
  - split_and!; [done|set_solver|]. destruct s as [|x s]; [done|]. injection Es as _ Es. rewrite Es. set_solver.
Qed.

Lemma removeRoot_spec keepRoot v ps node n :
  dir_wf v ps -> v !! 0 = Some n -> getNext node = getNext n -> getPrevious node = getPrevious n ->
  removeRoot keepRoot node v =
  Ret (true, if keepRoot then v else if decide (ps = []) then ∅ else v).
Proof.
  intros W Hn En Ep. unfold removeRoot, checkRoot. rewrite En, Ep.
  destruct (ring_root_links _ _ _ W Hn) as [(-> & -> & ->)|(Hne & H1 & H2)]; cbn.
  { rewrite (wf_root_only _ W). by destruct keepRoot. }
  pose proof (ring_positive _ _ W _ H1). pose proof (ring_positive _ _ W _ H2).
  rewrite !(proj2 (Z.eqb_neq _ 0)) by lia. cbn. rewrite (decide_False (P := ps = [])) by done.
  assert (is_Some (entriesOf v (getNext n))) as [m Hm] by (apply (dw_dom _ _ W); by right).
  pose proof (po_nonempty _ _ (dw_pages _ _ W _ _ Hm) ltac:(lia)) as Hne'.
  unfold entriesOf in Hm. destruct (v !! getNext n) as [last|]; [|done]. injection Hm as Hm.
  destruct (getNext n =? getPrevious n); cbn.
  - rewrite decide_False by (by rewrite Hm). cbn. rewrite (proj2 (Z.eqb_neq _ 0)) by lia. by destruct keepRoot.
  - rewrite (proj2 (Z.eqb_neq _ 0)) by lia. by destruct keepRoot.
Qed.

(** A well-formed directory has an entry, or only an empty root. *)
Lemma wf_entry v ps :
  dir_wf v ps -> (ps = [] /\ entriesOf v 0 = Some []) \/ exists q j, holds v q j.
Proof.
  intros W. assert (forall q, q ∈ 0 :: ps -> exists l, entriesOf v q = Some l) as Hq
    by (intros q; apply (dw_dom _ _ W)).
  destruct ps as [|q ps].
  - destruct (Hq 0) as [[|j l] Hl]; [by left|by left|right]. exists 0, j, (j :: l). split; [done|by left].
  - right. destruct (Hq q) as [l Hl]; [by right; left|].
    pose proof (ring_positive _ _ W q ltac:(by left)).
    destruct l as [|j l]; [by destruct (po_nonempty _ _ (dw_pages _ _ W _ _ Hl) ltac:(lia))|].
    exists q, j, (j :: l). split; [done|by left].
Qed.

Lemma between_alone v ps p a b l1 l2 s t :
  between v ps p a b l1 l2 s t -> l1 ++ l2 = [] -> a = 0 /\ b = 0.
Proof.
  intros B [-> ->]%app_nil. pose proof (bt_s _ _ _ _ _ _ _ _ _ B) as Es.
  pose proof (bt_t _ _ _ _ _ _ _ _ _ B) as Et. injection Et as <- _.
  by destruct s as [|? [|]]; simplify_eq/=.
Qed.

(** What [removePage] computes when it has emptied page [p] of a well-formed [v]. *)
Lemma removePage_eq keepRoot v ps p node a b l1 l2 s t l :
  dir_wf v ps -> v !! p = Some node -> edge v a p -> edge v p b -> between v ps p a b l1 l2 s t ->
  let u := unlinked a p b v in
  removePage keepRoot p node (alter (setIndexes l) p v) =
  Ret (true, if negb keepRoot && (b =? 0) && (a =? 0) && bool_decide (entriesOf u 0 = Some [])
             then delete 0 u else u).
Proof.
  intros W Hn Ha Hb B u. pose proof (unlinked_wf _ _ _ _ _ _ _ _ _ W Ha Hb B) as W'.
  assert (a <> p /\ b <> p) as [Hap Hbp]
    by (split; apply (between_ne _ _ _ _ _ _ _ _ _ B); tauto).
  assert (getPrevious node = a /\ getNext node = b) as [Ea Eb].
  { unfold edge, nextOf, prevOf in *. rewrite Hn in *. naive_solver. }
  unfold removePage. rewrite Ea, Eb. rewrite (proj2 (Z.eqb_neq b p)), (proj2 (Z.eqb_neq a p)) by done. cbn.
  destruct (edge_Some _ _ _ Ha) as [[na Ena] _], (edge_Some _ _ _ Hb) as [_ [nb Enb]].
  rewrite (lookup_alter_ne _ _ _ a), Ena by done. cbn.
  assert (is_Some (alter (setNext b) a (alter (setIndexes l) p v) !! b)) as [nb' ->].
  { rewrite lookup_alter_is_Some, lookup_alter_is_Some, Enb. by eexists. }
  cbn. set (u' := delete p _).
  assert (u' = u) as ->.
  { unfold u', u, unlinked. apply map_eq. intros x. destruct (decide (x = p)) as [->|Hx].
    { by rewrite !lookup_delete_eq. }
    rewrite !lookup_delete_ne, !lookup_alter by done.
    repeat case_decide; subst; try done; by rewrite ?Enb, ?Ena. }
  assert (is_Some (entriesOf u b)) as [m Hm].
  { unfold u. rewrite entriesOf_unlinked, decide_False by done. unfold entriesOf. by rewrite Enb. }
  pose proof (po_nonempty _ _ (dw_pages _ _ W' _ _ Hm)) as Hne.
  unfold entriesOf in *. destruct (u !! b) as [next|] eqn:Enext; [|done]. injection Hm as Hm.
  assert (negb (b =? 0) && (getNext next =? 0) && bool_decide (sfIndexes next = []) = false) as ->.
  { destruct (Z.eqb_spec b 0); [done|]. rewrite bool_decide_eq_false_2 by (rewrite Hm; by apply Hne).
    by rewrite andb_false_r. }
  cbn. f_equal. f_equal. destruct (negb keepRoot && (b =? 0) && (a =? 0)); [|done]. cbn.
  destruct (u !! 0) as [r|]; cbn; [|done].
  case_decide; [rewrite bool_decide_eq_true_2|rewrite bool_decide_eq_false_2]; congruence.
Qed.

Lemma removePage_spec keepRoot v ps p node l :
  dir_wf v ps -> p <> 0 -> v !! p = Some node ->
  exists v', removePage keepRoot p node (alter (setIndexes l) p v) = Ret (true, v') /\
  (forall q j, holds v' q j <-> holds v q j /\ q <> p) /\ dir_ok v' /\
  (keepRoot = false -> (forall q j, ~ holds v' q j) -> v' = ∅) /\ (keepRoot = true -> v' <> ∅).
Proof.
  intros W Hp0 Hn.
  assert (p ∈ ps) as Hp.
  { assert (p ∈ 0 :: ps) as Hin; [|set_solver]. apply (dw_dom _ _ W), fmap_is_Some. by exists node. }
  destruct (ring_split _ _ W _ Hp) as (? & ? & ? & a & b & ? & _ & _ & _ & _ & Ha & Hb & _).
  destruct (between_exists _ _ _ _ _ W Hp Ha Hb) as (l1 & l2 & s & t & B).
  pose proof (unlinked_wf _ _ _ _ _ _ _ _ _ W Ha Hb B) as W'.
  rewrite (removePage_eq keepRoot _ _ _ _ _ _ _ _ _ _ _ W Hn Ha Hb B).
  pose proof (unlinked_holds a p b v) as Hh. set (u := unlinked a p b v) in *.
  eexists. split; [done|]. destruct (_ && bool_decide _) eqn:E.
  - b2p. subst. apply bool_decide_eq_true in H0.
    rewrite (between_only _ _ _ _ _ _ _ _ _ W B eq_refl eq_refl) in W'. rewrite (wf_root_only _ W').
    split_and!; [|by left|done..]. intros q j. rewrite <- Hh. split; [intros (m & ? & _); done|].
    intros (m & Hm & Hj). exfalso. assert (q ∈ [0]) as ->%list_elem_of_singleton by (apply (dw_dom _ _ W'); by exists m).
    rewrite H0 in Hm. injection Hm as <-. by apply elem_of_nil in Hj.
  - split_and!; [done|right; by eexists| |].
    + intros -> Hno. exfalso. destruct (wf_entry _ _ W') as [El|(q & j & Hq)]; [|by apply (Hno q j)].
      destruct (between_alone _ _ _ _ _ _ _ _ _ B (proj1 El)) as [-> ->].
      rewrite (proj2 El), bool_decide_eq_true_2 in E; done.
    + intros _ ->. by destruct (ring_root _ _ W') as [n ?%lookup_empty_Some].
Qed.

(** What a successful removal leaves. *)
Record removal (p k : Z) (keepRoot : bool) (v v' : dir) : Prop := {
  rm_ok : dir_ok v';
  rm_gone : removed p k v v';
  rm_empty : keepRoot = false -> (forall q j, ~ holds v' q j) -> v' = ∅;
  rm_kept : keepRoot = true -> v' <> ∅;
}.

Lemma wf_removal p k keepRoot v v' ps :
  dir_wf v' ps -> removed p k v v' -> (exists q j, holds v' q j) \/ keepRoot = true ->
  removal p k keepRoot v v'.
Proof.
  intros W Hr Hsome. split; [right; by exists ps|done| |].
  - intros -> Hno. destruct Hsome as [(q & j & Hq)|]; [by destruct (Hno q j)|done].
  - intros _ ->. destruct (ring_root _ _ W) as [n Hn]. by rewrite lookup_empty in Hn.
Qed.

Section Removing.
Context (p k : Z) (keepRoot : bool) (v : dir) (ps : list Z) (node : DirNode).
Context (W : dir_wf v ps) (Hn : v !! p = Some node) (Hk : k ∈ sfIndexes node).

Local Abbreviation rest := (eraseKey k (sfIndexes node)).

Lemma erased_entries : entriesOf v p = Some (sfIndexes node).
Proof using Hn. unfold entriesOf. by rewrite Hn. Qed.

Lemma erased_elem j : j ∈ rest <-> j ∈ sfIndexes node /\ j <> k.
Proof using W Hn. apply eraseKey_elem, (dw_pages _ _ W _ _ erased_entries). Qed.

Lemma erased_removed : removed p k v (alter (setIndexes rest) p v).
Proof using W Hn.
  intros q j. rewrite (setIndexes_holds _ _ _ _ _ _ erased_entries).
  case_decide as E; [subst|naive_solver]. rewrite erased_elem. unfold holds. rewrite erased_entries. naive_solver.
Qed.

Lemma erased_wf : rest <> [] \/ p = 0 -> dir_wf (alter (setIndexes rest) p v) ps.
Proof using W Hn.
  intros Hl. eapply setIndexes_wf; [done|apply erased_entries|apply eraseKey_ok; [|done]|].
  - apply (dw_pages _ _ W _ _ erased_entries).
  - intros j [? _]%erased_elem. by left.
Qed.

Lemma dirRemove_present :
  exists v', dirRemove p k keepRoot v = Ret (true, v') /\ removal p k keepRoot v v'.
Proof using W Hn Hk.
  unfold dirRemove. rewrite Hn. rewrite decide_False by auto. case_decide as Hl.
  - eexists. split; [done|]. eapply wf_removal; [apply erased_wf; by left|apply erased_removed|left].
    destruct rest as [|j l] eqn:E; [done|]. exists p, j. rewrite setIndexes_holds by apply erased_entries.
    rewrite decide_True by done. by left.
  - destruct (Z.eqb_spec p 0) as [E|Hp].
    + pose proof (erased_wf ltac:(by right)) as W1. pose proof erased_removed as Hrem.
      rewrite (removeRoot_spec _ _ _ _ (setIndexes rest node) W1) by (by rewrite <- ?E, ?lookup_alter_eq, ?Hn).
      eexists. split; [done|]. destruct keepRoot; [by eapply wf_removal; [..|right]|].
      assert (ps = [] -> forall q j, ~ holds (alter (setIndexes rest) p v) q j) as Hnone.
      { intros -> q j (m & Hm & Hj). assert (q ∈ [0]) as Hq by (apply (dw_dom _ _ W1); by exists m).
        apply list_elem_of_singleton in Hq. rewrite entriesOf_setIndexes, decide_True, Hn in Hm by lia.
        injection Hm as <-. rewrite Hl in Hj. by apply elem_of_nil in Hj. }
      case_decide as Eps.
      * split; [by left| |done..]. intros q j. rewrite <- (Hrem q j).
        split; [by intros (? & ? & _)|by intros ?%Hnone].
      * destruct (wf_entry _ _ W1) as [[? _]|Hsome]; [done|]. by eapply wf_removal; [..|left].
    + destruct (removePage_spec keepRoot _ _ _ _ rest W Hp Hn) as (v' & -> & Hh & Hok & He & Hkeep).
      exists v'. split; [done|]. split; [done| |done..]. intros q j. rewrite Hh.
      split; [naive_solver|]. intros [Hq Hne]. split; [done|]. intros ->. apply Hne. split; [done|].
      destruct Hq as (m & Hm & Hj). rewrite erased_entries in Hm. injection Hm as <-.
      destruct (decide (j = k)); [done|]. assert (j ∈ rest) as Hin by (by apply erased_elem).
      rewrite Hl in Hin. by apply elem_of_nil in Hin.
Qed.

End Removing.

Lemma dirRemove_spec p k keepRoot v :
  dir_ok v ->
  exists b v', dirRemove p k keepRoot v = Ret (b, v') /\ (b = true <-> holds v p k) /\
  if b then removal p k keepRoot v v' else v' = v.
Proof.
  intros Hok. destruct (v !! p) as [node|] eqn:Hn; cycle 1.
  { exists false, v. split_and!; [unfold dirRemove; by rewrite Hn|split; [done|]|done].
    intros (l & Hl & _). unfold entriesOf in Hl. by rewrite Hn in Hl. }
  destruct Hok as [->|[ps W]]; [done|]. destruct (decide (k ∈ sfIndexes node)) as [Hk|Hk].
  - destruct (dirRemove_present p k keepRoot v ps node W Hn Hk) as (v' & -> & Hv').
    exists true, v'. split_and!; [done| |done]. split; [|done]. intros _.
    exists (sfIndexes node). split; [unfold entriesOf; by rewrite Hn|done].
  - exists false, v. split_and!; [unfold dirRemove; by rewrite Hn, decide_True|split; [done|]|done].
    intros (l & Hl & ?). unfold entriesOf in Hl. rewrite Hn in Hl. by injection Hl as <-.
Qed.

(** ** Walks over a directory

    The loops over the pages of a well-formed directory visit the entries in
    the order of the ring, each once, and end. *)

Definition entriesAt (v : dir) (p : Z) : list Z := default [] (entriesOf v p).

(** The entries of the pages [ps], in order. *)
Definition keysOf (v : dir) (ps : list Z) : list Z := concat (entriesAt v <$> ps).

Lemma keysOf_cons v p ps : keysOf v (p :: ps) = entriesAt v p ++ keysOf v ps.
Proof. done. Qed.

#[global] Arguments keysOf : simpl never.

Lemma keysOf_elem v ps k : k ∈ keysOf v ps <-> exists p, p ∈ ps /\ holds v p k.
Proof.
  induction ps as [|p ps IH]; [cbn; set_solver|]. rewrite keysOf_cons, elem_of_app, IH. unfold entriesAt, holds.
  destruct (entriesOf v p) as [l|] eqn:E; cbn; [|set_solver].
  split; [intros [?|(q & ? & ?)]; [exists p; set_solver|exists q; set_solver]|].
  intros (q & [->|?]%elem_of_cons & Hq); [left; naive_solver|right; eauto].
Qed.

Section Walk.
Context (v : dir) (ps : list Z) (W : dir_wf v ps).

Lemma ring_keys_elem k : k ∈ keysOf v (0 :: ps) <-> exists p, holds v p k.
Proof.
  rewrite keysOf_elem. split; [naive_solver|]. intros [p Hp]. exists p. split; [|done].
  apply (dw_dom _ _ W). destruct Hp as (l & -> & _). done.
Qed.

Lemma ring_keys_nodup : NoDup (keysOf v (0 :: ps)).
Proof.
  pose proof (ring_nodup _ _ W) as Hnd. induction Hnd as [|p l Hp _ IH]; [constructor|].
  rewrite keysOf_cons. apply NoDup_app. split_and!; [| |done].
  - unfold entriesAt. destruct (entriesOf v p) as [m|] eqn:E; [apply (dw_pages _ _ W _ _ E)|constructor].
  - intros k Hk (q & Hq & Hqk)%keysOf_elem. unfold entriesAt in Hk.
    destruct (entriesOf v p) as [m|] eqn:E; [|by apply elem_of_nil in Hk].
    assert (p = q) as -> by (eapply (dw_distinct _ _ W); [exists m; by split|done]). done.
Qed.

(** A stretch of the ring up to the root: the page [x] and those after it. *)
Definition tail (x : Z) (t : list Z) : Prop :=
  Forall2 (edge v) (x :: t) (t ++ [0]) /\ Forall (fun p => p <> 0) t.

Lemma ring_tail : tail 0 ps.
Proof.
  split; [apply W|]. apply Forall_forall. intros p Hp%(ring_positive _ _ W). lia.
Qed.

Lemma tail_cons x y t : tail x (y :: t) -> tail y t.
Proof. intros [H Hz]. inversion H; inversion Hz; subst. by split. Qed.

Lemma tail_page x t :
  tail x t -> exists n, v !! x = Some n /\ entriesAt v x = sfIndexes n /\
    match t with [] => getNext n = 0 | y :: _ => getNext n = y /\ y <> 0 end.
Proof.
  intros [H Hz]. assert (exists y, nextOf v x = Some y /\ match t with [] => y = 0 | z :: _ => y = z /\ z <> 0 end)
    as (y & Hy & Ht).
  { destruct t; inversion H as [|? ? ? ? [Hn _]]; subst; [by eauto|]. inversion Hz; subst. eauto. }
  unfold nextOf in Hy. unfold entriesAt, entriesOf. destruct (v !! x) as [n|]; [|done].
  exists n. split_and!; [done..|]. injection Hy as ->. by destruct t.
Qed.

Lemma forEachItem_tail x t fuel :
  tail x t -> (length t < fuel)%nat -> forEachItem fuel x v = Some (keysOf v (x :: t)).
Proof.
  revert x fuel. induction t as [|y t IH]; intros x [|fuel] Ht Hf; try (cbn in Hf; lia).
  - destruct (tail_page _ _ Ht) as (n & Hn & En & E0). cbn [forEachItem]. rewrite Hn, E0, keysOf_cons, En.
    by rewrite app_nil_r.
  - destruct (tail_page _ _ Ht) as (n & Hn & En & E0 & Hy). cbn [forEachItem]. rewrite Hn, E0, (proj2 (Z.eqb_neq _ _)) by done.
    rewrite (IH y fuel) by (first [by eapply tail_cons|cbn in Hf; lia]). cbn. by rewrite (keysOf_cons v x), En.
Qed.

Lemma forEachItem_ring fuel :
  (length ps < fuel)%nat -> forEachItem fuel 0 v = Some (keysOf v (0 :: ps)).
Proof. apply forEachItem_tail, ring_tail. Qed.

(** One step of [dirNext] at entry [i] of page [x]. *)
Lemma internalDirNext_step x t n i pages :
  tail x t -> v !! x = Some n -> (2 <= pages)%nat ->
  match drop i (sfIndexes n) ++ keysOf v t with
  | [] => internalDirNext pages v n i = Some None
  | k :: l => exists y u m j, internalDirNext pages v n i = Some (Some (k, (m, j))) /\
      tail y u /\ v !! y = Some m /\ l = drop j (sfIndexes m) ++ keysOf v u
  end.
Proof.
  intros Ht Hn Hp. destruct pages as [|[|pages]]; [lia..|].
  destruct (tail_page _ _ Ht) as (n' & Hn' & _ & E0). rewrite Hn in Hn'. injection Hn' as <-.
  destruct (drop i (sfIndexes n)) as [|k l] eqn:El; cbn [app].
  - assert (sfIndexes n !! i = None) as Hi.
    { apply lookup_ge_None. apply (f_equal length) in El. rewrite length_drop in El. cbn in El. lia. }
    destruct t as [|y t]; cbn [internalDirNext]; rewrite Hi.
    { cbn. by rewrite E0. }
    destruct E0 as [E0 Hy]. rewrite E0, (proj2 (Z.eqb_neq _ _)) by done.
    destruct (tail_page _ _ (tail_cons _ _ _ Ht)) as (m & Hm & Em & _). rewrite Hm, keysOf_cons, Em.
    assert (sfIndexes m <> []) as Hne.
    { apply (po_nonempty y); [|done]. apply (dw_pages _ _ W). unfold entriesOf. by rewrite Hm. }
    destruct (sfIndexes m) as [|k l] eqn:Ek; [done|]. cbn.
    exists y, t, m, 1%nat. split_and!; [done|by eapply tail_cons|done|by rewrite Ek].
  - assert (sfIndexes n !! i = Some k) as Hk by (rewrite <- (Nat.add_0_r i), <- lookup_drop, El; done).
    cbn [internalDirNext]. rewrite Hk. exists x, t, n, (S i). split_and!; [done..|].
    rewrite (drop_S _ _ _ Hk) in El. by injection El as ->.
Qed.

Lemma dirLoop_tail l x t n i fuel pages :
  tail x t -> v !! x = Some n -> l = drop i (sfIndexes n) ++ keysOf v t ->
  (2 <= pages)%nat -> (length l < fuel)%nat ->
  dirLoop fuel pages v (internalDirNext pages v n i) = Some l.
Proof.
  revert x t n i fuel. induction l as [|k l IH]; intros x t n i [|fuel] Ht Hn El Hp Hf; try (cbn in Hf; lia);
    pose proof (internalDirNext_step _ _ _ i pages Ht Hn Hp) as Hs; rewrite <- El in Hs.
  - by rewrite Hs.
  - destruct Hs as (y & u & m & j & -> & Hy & Hm & E'). cbn [dirLoop].
    rewrite (IH y u m j fuel) by (done || (cbn in Hf; lia)). done.
Qed.

Lemma dirLoop_ring fuel pages :
  (2 <= pages)%nat -> (length (keysOf v (0%Z :: ps)) < fuel)%nat ->
  dirLoop fuel pages v (internalDirFirst pages v) = Some (keysOf v (0 :: ps)).
Proof.
  intros Hp Hf. destruct (tail_page _ _ ring_tail) as (n & Hn & En & _).
  unfold internalDirFirst. rewrite Hn. eapply dirLoop_tail; [apply ring_tail|done|..]; try done.
  by rewrite keysOf_cons, En.
Qed.

(** [dirDelete] erases every page and reports every entry; it succeeds exactly
    if the last page has no explicit next link. *)
Definition lastUnlinked (x : Z) (t : list Z) : Prop :=
  sfIndexNext <$> v !! default x (last t) = Some None.

Lemma dirDelete_tail x t fuel (v' : dir) :
  tail x t -> NoDup (x :: t) -> (S (length t) < fuel)%nat ->
  (forall p, v' !! p = if decide (p ∈ x :: t) then v !! p else None) ->
  exists ok, dirDelete fuel x v' = Some (ok, keysOf v (x :: t), ∅) /\ (ok = true <-> lastUnlinked x t).
Proof.
  revert x fuel v'. induction t as [|y t IH]; intros x [|fuel] v' Ht Hnd Hf Hv'; try (cbn in Hf; lia);
    destruct (tail_page _ _ Ht) as (n & Hn & En & E0); cbn [dirDelete];
    rewrite Hv', decide_True, Hn by (by left); rewrite keysOf_cons, En.
  - assert (delete x v' = ∅) as Hd.
    { apply map_eq. intros p. rewrite lookup_empty, lookup_delete, Hv'. repeat case_decide; set_solver. }
    change (keysOf v []) with (@nil Z). rewrite Hd, app_nil_r. unfold getNext in E0. unfold lastUnlinked. cbn. rewrite Hn. cbn.
    destruct (sfIndexNext n) as [q|]; cbn in E0; [subst q|by exists true].
    destruct fuel as [|fuel]; [cbn in Hf; lia|]. cbn. rewrite lookup_empty. cbn. rewrite app_nil_r.
    exists false. by split.
  - destruct E0 as [E0 Hy]. unfold getNext in E0. destruct (sfIndexNext n) as [q|] eqn:Eq; cbn in E0; [subst q|congruence].
    apply NoDup_cons in Hnd as [Hx Hnd].
    destruct (IH y fuel (delete x v')) as (ok & -> & Hok); [by eapply tail_cons|done|cbn in Hf; lia| |].
    + intros p. rewrite lookup_delete, Hv'. destruct (decide (x = p)) as [->|]; [by rewrite decide_False|].
      destruct (decide (p ∈ y :: t)); [rewrite decide_True by (by right)|rewrite decide_False by set_solver]; done.
    + exists ok. split; [done|]. rewrite Hok. unfold lastUnlinked. rewrite last_cons. by destruct (last t).
Qed.

End Walk.

(** The iterator of [Dir] visits nothing if the root is empty. *)
Lemma Dir_walk_empty_root v fuel :
  entriesOf v 0 = Some [] -> Dir_walk (S fuel) v (Dir_begin v) = Some [].
Proof.
  unfold entriesOf, Dir_begin. destruct (v !! 0) as [n|]; [|done]. intros [= E]. by rewrite E.
Qed.
