(* ===== verification/DirectoryProperties.v ===== *)
(** * A directory is a map from keys to pages

    The abstract specification of a directory is the map that says on which
    page each key is; it alone determines where the next key goes and when the
    directory is full.  The operations of [ApplyView] implement it, the walks
    enumerate it. *)

From stdpp Require Import strings.
From S2P Require Import Prelude Outcome Directory DirectoryFacts.

(** ** The specification *)

Inductive dir_call :=
| CallAdd (preserveOrder : bool) (key : Z)
| CallRemove (page key : Z) (keepRoot : bool).

Inductive dir_answer :=
| Stored (page : option Z)
| Found (found : bool).

Definition dirCall (fixDirectoryLimit : bool) (c : dir_call) (v : dir) : outcome (dir_answer * dir) :=
  match c with
  | CallAdd preserveOrder key =>
      dirAdd fixDirectoryLimit preserveOrder key v ≫= fun '(p, v) => Ret (Stored p, v)
  | CallRemove page key keepRoot =>
      dirRemove page key keepRoot v ≫= fun '(b, v) => Ret (Found b, v)
  end.

(** What a caller may ask: a key is added only where it is not yet. *)
Definition allowed (A : gmap Z Z) (c : dir_call) : Prop :=
  match c with CallAdd _ key => A !! key = None | CallRemove _ _ _ => True end.

(** The last page of a map, the number of keys on a page, and the page that the
    next key goes to: the last page until it has its 32 keys, then the one after
    it, unless that is beyond the limit on page numbers. *)
Definition lastPage (A : gmap Z Z) : Z := map_fold (fun _ p m => Z.max p m) 0 A.
Definition keysOn (A : gmap Z Z) (p : Z) : nat := size (filter (fun kp : Z * Z => kp.2 = p) A).
Definition nextRoom (fixDirectoryLimit : bool) (A : gmap Z Z) : option Z :=
  roomAt fixDirectoryLimit (lastPage A) (keysOn A (lastPage A)).

Inductive spec_step (fixDirectoryLimit : bool) (A : gmap Z Z) : dir_call -> dir_answer -> gmap Z Z -> Prop :=
| spec_stored o k p : A !! k = None -> nextRoom fixDirectoryLimit A = Some p ->
    spec_step fixDirectoryLimit A (CallAdd o k) (Stored (Some p)) (<[k := p]> A)
| spec_full o k : nextRoom fixDirectoryLimit A = None ->
    spec_step fixDirectoryLimit A (CallAdd o k) (Stored None) A
| spec_removed p k r : A !! k = Some p ->
    spec_step fixDirectoryLimit A (CallRemove p k r) (Found true) (delete k A)
| spec_absent p k r : A !! k <> Some p ->
    spec_step fixDirectoryLimit A (CallRemove p k r) (Found false) A.

(** The directory [v] represents the map [A]. *)
Definition represents (v : dir) (A : gmap Z Z) : Prop := dir_ok v /\ contents v A.

(** States reached from nothing by allowed calls of the code. *)
Inductive dir_reach (fixDirectoryLimit : bool) : dir -> gmap Z Z -> Prop :=
| dir_reach_empty : dir_reach fixDirectoryLimit ∅ ∅
| dir_reach_call v A c a v' A' :
    dir_reach fixDirectoryLimit v A -> allowed A c ->
    dirCall fixDirectoryLimit c v = Ret (a, v') -> spec_step fixDirectoryLimit A c a A' ->
    dir_reach fixDirectoryLimit v' A'.

(** ** Lemmas *)

Lemma empty_represents : represents ∅ ∅.
Proof.
  split; [by left|]. intros k p. rewrite lookup_empty. unfold holds, entriesOf. rewrite lookup_empty. naive_solver.
Qed.

Lemma contents_fresh v A k : contents v A -> A !! k = None -> forall p, ~ holds v p k.
Proof. intros HA Hk p Hp%HA. congruence. Qed.

Lemma contents_added v v' A k p :
  contents v A -> A !! k = None -> (forall q j, holds v' q j <-> holds v q j \/ q = p /\ j = k) ->
  contents v' (<[k := p]> A).
Proof.
  intros HA Hk H j q. rewrite H, <- (HA j q), lookup_insert_Some. destruct (decide (k = j)); naive_solver.
Qed.

Lemma contents_removed v v' A k p :
  contents v A -> A !! k = Some p -> removed p k v v' -> contents v' (delete k A).
Proof.
  intros HA Hk H j q. unfold removed in H. rewrite H, <- (HA j q), lookup_delete_Some. naive_solver.
Qed.

Lemma contents_empty v A : contents v A -> A = ∅ <-> forall p k, ~ holds v p k.
Proof.
  intros HA. split.
  - intros -> p k Hk%HA. by rewrite lookup_empty in Hk.
  - intros H. apply map_empty. intros k. destruct (A !! k) as [p|] eqn:E; [|done]. by apply HA, H in E.
Qed.

Lemma lastPage_spec A :
  0 <= lastPage A /\ (forall k q, A !! k = Some q -> q <= lastPage A) /\
  (lastPage A = 0 \/ exists k, A !! k = Some (lastPage A)).
Proof.
  unfold lastPage. apply (map_fold_weak_ind (fun m A => 0 <= m /\ (forall k q, A !! k = Some q -> q <= m) /\
    (m = 0 \/ exists k, A !! k = Some m))).
  - split_and!; [done| |by left]. intros k q. by rewrite lookup_empty.
  - intros k p A' m Hk (H0 & Hle & Hm). split_and!; [lia| |].
    + intros j q [[_ <-]|[_ Hj%Hle]]%lookup_insert_Some; lia.
    + destruct (Z.max_spec p m) as [[? ->]|[? ->]].
      * destruct Hm as [->|[j Hj]]; [by left|right; exists j]. rewrite lookup_insert_ne; [done|congruence].
      * right. exists k. apply lookup_insert_eq.
Qed.

(** The map determines where the next key goes. *)
Lemma room_next fixDirectoryLimit v A r :
  represents v A -> room fixDirectoryLimit v r -> r = nextRoom fixDirectoryLimit A.
Proof.
  intros [Hok HA] [[-> ->]|(l & entries & Hl & He & ->)].
  { assert (A = ∅) as ->; [|done]. apply (contents_empty _ _ HA). intros p k (m & Hm & _). done. }
  destruct Hok as [->|[ps W]]; [done|].
  destruct (ring_last _ _ W) as (s & l' & Es & _ & Hl' & Hlt & H0 & _).
  assert (l' = l) as -> by (destruct Hl as [_ Hl], Hl' as [_ Hl']; congruence).
  assert (forall k q, A !! k = Some q -> q <= l) as Hmax.
  { intros k q (m & Hm & _)%HA. assert (q ∈ 0 :: ps) as Hq by (apply (dw_dom _ _ W); eauto).
    rewrite Es, elem_of_app, list_elem_of_singleton in Hq. rewrite Forall_forall in Hlt.
    destruct Hq as [Hq%Hlt| ->]; lia. }
  unfold nextRoom. assert (lastPage A = l) as ->.
  { destruct (lastPage_spec A) as (G0 & Gle & G). destruct (decide (l = 0)) as [->|Hne].
    - destruct G as [G|[k Hk%Hmax]]; lia.
    - destruct entries as [|k entries]; [by destruct (po_nonempty _ _ (dw_pages _ _ W _ _ He) Hne)|].
      assert (A !! k = Some l) as Hk by (apply HA; exists (k :: entries); split; [done|by left]).
      apply Gle in Hk. destruct G as [G|[j Hj%Hmax]]; lia. }
  f_equal. unfold keysOn. rewrite <- size_dom.
  rewrite <- (size_list_to_set (C := gset Z)) by apply (dw_pages _ _ W _ _ He).
  f_equal. apply set_eq. intros k. rewrite elem_of_list_to_set, elem_of_dom. unfold is_Some. split.
  - intros Hk. exists l. apply map_lookup_filter_Some. split; [apply HA; by exists entries|done].
  - intros [q [(m & Hm & Hk)%HA ?]%map_lookup_filter_Some]. cbn in *. subst q. congruence.
Qed.

Lemma dirCall_simulates fixDirectoryLimit v A c :
  represents v A -> allowed A c ->
  exists a v' A', dirCall fixDirectoryLimit c v = Ret (a, v') /\ spec_step fixDirectoryLimit A c a A' /\ represents v' A'.
Proof.
  intros [Hok HA] Hc. destruct c as [o k|p k r]; cbn in Hc |- *.
  - destruct (dirAdd_spec fixDirectoryLimit o k v Hok (contents_fresh _ _ _ HA Hc)) as (r & v' & -> & Hr & H).
    apply (room_next _ _ A) in Hr; [|by split]. destruct r as [p|].
    + destruct H as [[ps' W'] H]. eexists _, _, _. split; [done|]. split; [by constructor|].
      split; [right; by exists ps'|by eapply contents_added].
    + subst v'. eexists _, _, _. split; [done|]. split; [by constructor|by split].
  - destruct (dirRemove_spec p k r v Hok) as ([] & v' & -> & Hb & H).
    + assert (A !! k = Some p) as Hk by (by apply HA, Hb).
      eexists _, _, _. split; [done|]. split; [by constructor|].
      split; [apply H|by eapply contents_removed, (rm_gone _ _ _ _ _ H)].
    + subst v'. eexists _, _, _. split; [done|]. split; [constructor|by split].
      intros Hk%HA%Hb. done.
Qed.

Lemma reach_represents fixDirectoryLimit v A : dir_reach fixDirectoryLimit v A -> represents v A.
Proof.
  induction 1 as [|v A c a v' A' _ IH Hc Hcall Hs]; [apply empty_represents|].
  destruct (dirCall_simulates fixDirectoryLimit _ _ _ IH Hc) as (a2 & v2 & A2 & E & Hs2 & HR).
  rewrite Hcall in E. injection E as <- <-.
  inversion Hs; subst; inversion Hs2; subst; try done; congruence.
Qed.

(** The pages of the ring are those of the map. *)
Lemma wf_size v ps : dir_wf v ps -> size v = S (length ps).
Proof.
  intros W. rewrite <- size_dom. replace (dom v) with (list_to_set (C := gset Z) (0 :: ps)).
  - by rewrite size_list_to_set by apply (ring_nodup _ _ W).
  - apply set_eq. intros p. rewrite elem_of_list_to_set, <- (dw_dom _ _ W), elem_of_dom.
    unfold entriesOf. by rewrite fmap_is_Some.
Qed.

Lemma keys_size v A ps : dir_wf v ps -> contents v A -> length (keysOf v (0 :: ps)) = size A.
Proof.
  intros W HA. rewrite <- size_dom, <- (size_list_to_set (C := gset Z)) by by apply ring_keys_nodup.
  f_equal. apply set_eq. intros k. rewrite elem_of_list_to_set, (ring_keys_elem _ _ W), elem_of_dom.
  unfold is_Some. split; intros [p Hp]; exists p; by apply HA.
Qed.

Lemma dirIsEmpty_wf v ps : dir_wf v ps -> dirIsEmpty v = true <-> ps = [] /\ entriesOf v 0 = Some [].
Proof.
  intros W. unfold dirIsEmpty, entriesOf. destruct (ring_root _ _ W) as [n Hn]. rewrite Hn. cbn.
  destruct (ring_root_links _ _ _ W Hn) as [(-> & -> & _)|(Hne & Hin & _)].
  - rewrite andb_true_r, bool_decide_eq_true.
    split; [by intros ->|by intros [_ [= ?]]].
  - apply (ring_positive _ _ W) in Hin. rewrite (proj2 (Z.eqb_neq _ _)) by lia. rewrite andb_false_r. by split; [|intros [? _]].
Qed.

(** ** Runs

    The calls of a list, with the map kept beside the directory. *)

Definition record (fixDirectoryLimit : bool) (A : gmap Z Z) (c : dir_call) (a : dir_answer) : option (gmap Z Z) :=
  match c, a with
  | CallAdd _ k, Stored (Some p) => if decide (A !! k = None /\ nextRoom fixDirectoryLimit A = Some p) then Some (<[k := p]> A) else None
  | CallRemove p k _, Found true => if decide (A !! k = Some p) then Some (delete k A) else None
  | _, _ => None
  end.

Fixpoint runCalls (fixDirectoryLimit : bool) (cs : list dir_call) (v : dir) (A : gmap Z Z)
    : option (dir * gmap Z Z) :=
  match cs with
  | [] => Some (v, A)
  | c :: cs =>
      match dirCall fixDirectoryLimit c v with
      | Ret (a, v) => A ← record fixDirectoryLimit A c a; runCalls fixDirectoryLimit cs v A
      | Throw _ => None
      end
  end.

Lemma record_spec fixDirectoryLimit A c a A' :
  record fixDirectoryLimit A c a = Some A' -> allowed A c /\ spec_step fixDirectoryLimit A c a A'.
Proof.
  destruct c, a as [[]|[]]; cbn; try done; case_decide as H; intros [= <-]; [destruct H|]; split; by try constructor.
Qed.

Lemma runCalls_reach fixDirectoryLimit cs v A v' A' :
  dir_reach fixDirectoryLimit v A -> runCalls fixDirectoryLimit cs v A = Some (v', A') ->
  dir_reach fixDirectoryLimit v' A'.
Proof.
  revert v A. induction cs as [|c cs IH]; intros v A Hr; cbn; [by intros [= <- <-]|].
  destruct (dirCall fixDirectoryLimit c v) as [|[a w]] eqn:E; [done|].
  destruct (record fixDirectoryLimit A c a) as [B|] eqn:EB; [|done]. apply record_spec in EB as [? ?]. cbn. intros Hrun.
  eapply IH; [|exact Hrun]. by eapply dir_reach_call.
Qed.

(** [n] keys from [k] on, added; [n] keys from [k] on, removed from page [p]. *)
Definition addKeys (k n : Z) : list dir_call := CallAdd false <$> seqZ k n.
Definition removeKeys (p k n : Z) : list dir_call := (fun k => CallRemove p k false) <$> seqZ k n.

(** The state after a list of calls. *)
Definition stateAfter (cs : list dir_call) : dir * gmap Z Z := default (∅, ∅) (runCalls true cs ∅ ∅).

Lemma stateAfter_reach cs : dir_reach true (stateAfter cs).1 (stateAfter cs).2.
Proof.
  unfold stateAfter. destruct (runCalls true cs ∅ ∅) as [[v A]|] eqn:E; [|constructor].
  eapply runCalls_reach; [constructor|exact E].
Qed.

(** The root emptied after one, or after two more pages were begun. *)
Definition rootEmptied1 := stateAfter (addKeys 1 33 ++ removeKeys 0 1 32).
Definition rootEmptied2 := stateAfter (addKeys 1 65 ++ removeKeys 0 1 32).
(** A second page begun and removed. *)
Definition secondRemoved := stateAfter (addKeys 1 33 ++ removeKeys 1 33 1).

(** ** Properties *)

(** C6: a directory implements the map from keys to pages.  In every state
    reached from the empty one by adding keys that are not yet in it and by
    removing any, the next such call does not throw, and its answer and the new
    state are those of the map.  A new key goes to the last page that holds
    keys until that has 32 of them, then to a new page; it is refused, and
    nothing changes, only if that page's number is 2^64, or, without the
    fixDirectoryLimit amendment, 262144 or more.  A removal answers that it
    found the key exactly if the key is on the page named, and then only that
    key goes. *)
Theorem directory_refines_map fixDirectoryLimit v A c :
  dir_reach fixDirectoryLimit v A -> allowed A c ->
  exists a v' A', dirCall fixDirectoryLimit c v = Ret (a, v') /\ spec_step fixDirectoryLimit A c a A' /\
    dir_reach fixDirectoryLimit v' A' /\ represents v' A'.
Proof.
  intros Hr Hc.
  destruct (dirCall_simulates fixDirectoryLimit v A c (reach_represents _ _ _ Hr) Hc) as (a & v' & A' & E & Hs & HR).
  exists a, v', A'. split_and!; [done|done|by eapply dir_reach_call|done].
Qed.

(** The loops over a directory visit each of its keys once and end: with
    [forEachItem] and with [dirFirst]/[dirNext], which answer the same keys in
    the same order; [dirIsEmpty] answers whether there are any. *)
Theorem directory_walks fixDirectoryLimit v A :
  dir_reach fixDirectoryLimit v A ->
  exists keys, NoDup keys /\ (forall k, k ∈ keys <-> is_Some (A !! k)) /\
    forEachItem (S (size v)) 0 v = Some keys /\
    dirLoop (S (size A)) 2 v (internalDirFirst 2 v) = Some keys /\
    dirIsEmpty v = bool_decide (A = ∅).
Proof.
  intros [[->|[ps W]] HA]%reach_represents.
  { assert (A = ∅) as ->.
    { apply (contents_empty _ _ HA). intros p k (l & Hl & _). unfold entriesOf in Hl. by rewrite lookup_empty in Hl. }
    exists []. split_and!; [constructor| |done..]. intros k. rewrite lookup_empty, elem_of_nil. split; [done|by intros [? ?]]. }
  exists (keysOf v (0 :: ps)). split_and!.
  - by apply ring_keys_nodup.
  - intros k. rewrite (ring_keys_elem _ _ W). unfold is_Some. split; intros [p Hp]; exists p; by apply HA.
  - apply forEachItem_ring; [done|]. rewrite (wf_size _ _ W). lia.
  - apply dirLoop_ring; [done|lia|]. rewrite (keys_size _ _ _ W HA). lia.
  - apply eq_bool_prop_intro. rewrite !Is_true_true, bool_decide_eq_true, (dirIsEmpty_wf _ _ W), (contents_empty _ _ HA).
    split; [|intros H; destruct (wf_entry _ _ W) as [?|(q & j & Hq)]; [done|by apply H in Hq]].
    intros [-> H0] p k (l & Hl & Hk). assert (p = 0) as -> by (by apply list_elem_of_singleton, (dw_dom _ _ W); exists l).
    rewrite H0 in Hl. injection Hl as <-. by apply elem_of_nil in Hk.
Qed.

(** Removing the last entry erases the directory unless the caller keeps
    the root; a kept root stays, without entries. *)
Theorem directory_last_entry fixDirectoryLimit v A p k keepRoot :
  dir_reach fixDirectoryLimit v A -> A = {[k := p]} ->
  exists v', dirRemove p k keepRoot v = Ret (true, v') /\
    (if keepRoot then v' <> ∅ /\ dirIsEmpty v' = true else v' = ∅).
Proof.
  intros [Hok HA]%reach_represents ->.
  destruct (dirRemove_spec p k keepRoot v Hok) as (b & v' & E & Hb & H).
  assert (b = true) as -> by (apply Hb, HA, lookup_singleton_eq). exists v'. split; [done|].
  assert (forall q j, ~ holds v' q j) as Hno.
  { apply (contents_empty v' ∅); [|done]. rewrite <- (delete_singleton_eq k p).
    eapply contents_removed; [done|apply lookup_singleton_eq|apply (rm_gone _ _ _ _ _ H)]. }
  destruct keepRoot; [|by apply (rm_empty _ _ _ _ _ H)].
  pose proof (rm_kept _ _ _ _ _ H eq_refl) as Hne. split; [done|].
  destruct (rm_ok _ _ _ _ _ H) as [->|[ps W]]; [done|].
  apply (dirIsEmpty_wf _ _ W). destruct (wf_entry _ _ W) as [?|(q & j & Hq)]; [done|by apply Hno in Hq].
Qed.

(** The iterator of [Dir] visits nothing of a directory whose root has no
    entries although a later page has; [forEachItem] visits it. *)
Theorem dir_iterator_misses_pages :
  exists v A, dir_reach true v A /\ A = {[33 := 1]} /\ dirIsEmpty v = false /\
    forEachItem 3 0 v = Some [33] /\ forall fuel, Dir_walk (S fuel) v (Dir_begin v) = Some [].
Proof.
  exists rootEmptied1.1, rootEmptied1.2. split; [apply stateAfter_reach|].
  split; [vm_compute; reflexivity|]. split; [vm_compute; reflexivity|]. split; [vm_compute; reflexivity|].
  intros fuel. apply Dir_walk_empty_root. vm_compute. reflexivity.
Qed.

(** [emptyDirDelete] answers that it deleted a directory whose root has no
    entries, and leaves it and its other entries where they are, once two
    more pages are there. *)
Theorem emptyDirDelete_keeps :
  exists v A, dir_reach true v A /\ size A = 33%nat /\ emptyDirDelete v = Ret (true, v).
Proof.
  exists rootEmptied2.1, rootEmptied2.2. split; [apply stateAfter_reach|].
  split; vm_compute; reflexivity.
Qed.

(** [dirDelete] reports failure after it has deleted the whole directory
    if the last page was removed before, since the link to it stays present
    as 0. *)
Theorem dirDelete_reports_failure :
  exists v A, dir_reach true v A /\ size A = 32%nat /\ dirDelete 3 0 v = Some (false, seqZ 1 32, ∅).
Proof.
  exists secondRemoved.1, secondRemoved.2. split; [apply stateAfter_reach|].
  split; vm_compute; reflexivity.
Qed.

(** ** Witnesses *)

Lemma directory_refines_map_witness :
  exists a v' A', dirCall true (CallAdd true 99) (stateAfter (addKeys 1 33)).1 = Ret (a, v') /\
    spec_step true (stateAfter (addKeys 1 33)).2 (CallAdd true 99) a A' /\
    dir_reach true v' A' /\ represents v' A'.
Proof.
  apply (directory_refines_map true _ _ (CallAdd true 99) (stateAfter_reach (addKeys 1 33))).
  vm_compute. reflexivity.
Defined.

Lemma directory_walks_witness :
  exists keys, NoDup keys /\ (forall k, k ∈ keys <-> is_Some (rootEmptied2.2 !! k)) /\
    forEachItem (S (size rootEmptied2.1)) 0 rootEmptied2.1 = Some keys /\
    dirLoop (S (size rootEmptied2.2)) 2 rootEmptied2.1 (internalDirFirst 2 rootEmptied2.1) = Some keys /\
    dirIsEmpty rootEmptied2.1 = bool_decide (rootEmptied2.2 = ∅).
Proof. apply (directory_walks true _ _ (stateAfter_reach (addKeys 1 65 ++ removeKeys 0 1 32))). Defined.

Lemma directory_last_entry_witness :
  exists v', dirRemove 1 33 true rootEmptied1.1 = Ret (true, v') /\ v' <> ∅ /\ dirIsEmpty v' = true.
Proof.
  apply (directory_last_entry true _ _ 1 33 true (stateAfter_reach (addKeys 1 33 ++ removeKeys 0 1 32))).
  vm_compute. reflexivity.
Defined.
