(* ===== verification/Serializer.v ===== *)
(** * Serializer and SerialIter

    Models [include/xrpl/protocol/Serializer.h] and
    [src/libxrpl/protocol/Serializer.cpp]: the buffer that ledger objects and
    transactions are written to and the cursor that reads them.  A buffer is
    the list of its bytes, a byte an integer in [0..255].  Every [add] answers
    the size before it, as the code does. *)

From stdpp Require Import strings.
From S2P Require Import Prelude Outcome.

Abbreviation Blob := (list Z).

(** [static_cast<unsigned char>]. *)
Definition u8 (z : Z) : Z := z mod 256.
Definition u16 (z : Z) : Z := z mod 2 ^ 16.

Definition is_byte (b : Z) : Prop := 0 <= b < 256.

Definition lengthZ (s : Blob) : Z := Z.of_nat (length s).

(** ** Serializer *)

(** [addRaw], in all its forms; [push_back] of one byte after the other. *)
Definition addRaw (bytes : Blob) (s : Blob) : Z * Blob := (lengthZ s, s ++ bytes).

Definition add8 (i : Z) : Blob -> Z * Blob := addRaw [u8 i].

Definition add16 (i : Z) : Blob -> Z * Blob := addRaw [u8 (Z.shiftr i 8); u8 (Z.land i 255)].

(** For signed arguments too: [>>] of a negative number is arithmetic. *)
Definition add32 (i : Z) : Blob -> Z * Blob :=
  addRaw [u8 (Z.land (Z.shiftr i 24) 255); u8 (Z.land (Z.shiftr i 16) 255);
          u8 (Z.land (Z.shiftr i 8) 255); u8 (Z.land i 255)].

Definition add64 (i : Z) : Blob -> Z * Blob :=
  addRaw [u8 (Z.land (Z.shiftr i 56) 255); u8 (Z.land (Z.shiftr i 48) 255);
          u8 (Z.land (Z.shiftr i 40) 255); u8 (Z.land (Z.shiftr i 32) 255);
          u8 (Z.land (Z.shiftr i 24) 255); u8 (Z.land (Z.shiftr i 16) 255);
          u8 (Z.land (Z.shiftr i 8) 255); u8 (Z.land i 255)].

(** The bytes of a [base_uint], most significant first. *)
Definition addBitString (v : Blob) : Blob -> Z * Blob := addRaw v.

Definition addFieldID (type name : Z) : Blob -> Z * Blob :=
  if type <? 16 then
    if name <? 16 then addRaw [u8 (Z.lor (Z.shiftl type 4) name)]
    else addRaw [u8 (Z.shiftl type 4); u8 name]
  else if name <? 16 then addRaw [u8 name; u8 type]
  else addRaw [u8 0; u8 type; u8 name].

Definition addEncoded (length : Z) (s : Blob) : outcome (Z * Blob) :=
  if length <=? 192 then Ret (addRaw [u8 length] s)
  else if length <=? 12480 then
    let length := length - 193 in
    Ret (addRaw [u8 (193 + u8 (Z.shiftr length 8)); u8 (Z.land length 255)] s)
  else if length <=? 918744 then
    let length := length - 12481 in
    Ret (addRaw [u8 (241 + u8 (Z.shiftr length 16)); u8 (Z.land (Z.shiftr length 8) 255);
                 u8 (Z.land length 255)] s)
  else Throw "lenlen".

(** [addVL] of a vector, a slice or a pointer and length. *)
Definition addVL (vector : Blob) (s : Blob) : outcome (Z * Blob) :=
  addEncoded (lengthZ vector) s ≫= fun '(ret, s) => Ret (ret, (addRaw vector s).2).

Definition encodeLengthLength (length : Z) : outcome Z :=
  if length <? 0 then Throw "len<0"
  else if length <=? 192 then Ret 1
  else if length <=? 12480 then Ret 2
  else if length <=? 918744 then Ret 3
  else Throw "len>918744".

(** [get8] at an offset; an [int] is compared with the size as a [std::size_t]. *)
Definition get8At (offset : Z) (s : Blob) : option Z :=
  if lengthZ s <=? u64 offset then None else s !! Z.to_nat offset.

(** [getInteger] of a type with [bytes] bytes. *)
Definition getInteger (bytes : nat) (offset : nat) (s : Blob) : option Z :=
  if decide (length s < offset + bytes)%nat then None
  else Some (foldl (fun number b => Z.lor (Z.shiftl number 8) b) 0 (take bytes (drop offset s))).

Definition getBitStringAt (bytes : nat) (offset : nat) (s : Blob) : option Blob :=
  if decide (offset + bytes <= length s)%nat then Some (take bytes (drop offset s)) else None.

Definition chop (num : Z) (s : Blob) : bool * Blob :=
  if lengthZ s <? u64 num then (false, s) else (true, take (Z.to_nat (lengthZ s - num)) s).

Definition decodeLengthLength (b1 : Z) : outcome Z :=
  if b1 <? 0 then Throw "b1<0"
  else if b1 <=? 192 then Ret 1
  else if b1 <=? 240 then Ret 2
  else if b1 <=? 254 then Ret 3
  else Throw "b1>254".

Definition decodeVLLength1 (b1 : Z) : outcome Z :=
  if b1 <? 0 then Throw "b1<0" else if 254 <? b1 then Throw "b1>254" else Ret b1.

Definition decodeVLLength2 (b1 b2 : Z) : outcome Z :=
  if b1 <? 193 then Throw "b1<193" else if 240 <? b1 then Throw "b1>240"
  else Ret (193 + (b1 - 193) * 256 + b2).

Definition decodeVLLength3 (b1 b2 b3 : Z) : outcome Z :=
  if b1 <? 241 then Throw "b1<241" else if 254 <? b1 then Throw "b1>254"
  else Ret (12481 + (b1 - 241) * 65536 + b2 * 256 + b3).

(** ** SerialIter

    The bytes already read, last first, and the bytes from [p_] on; [used_] and
    [remain_] are their numbers. *)
Record SerialIter := mkSerialIter { behind : Blob; ahead : Blob }.

Definition used_ (it : SerialIter) : Z := lengthZ (behind it).
Definition remain_ (it : SerialIter) : Z := lengthZ (ahead it).

Definition newSerialIter (data : Blob) : SerialIter := mkSerialIter [] data.

Definition empty (it : SerialIter) : bool := remain_ it =? 0.

Definition reset (it : SerialIter) : SerialIter := mkSerialIter [] (reverse (behind it) ++ ahead it).

(** A [get] changes the cursor or throws. *)
Definition reader (A : Type) := SerialIter -> outcome (A * SerialIter).

#[export] Instance reader_ret : MRet reader := fun A a it => Ret (a, it).
#[export] Instance reader_bind : MBind reader :=
  fun A B f m it => m it ≫= fun '(a, it) => f a it.

Definition throw {A} (what : string) : reader A := fun _ => Throw what.

(** The check of [remain_] against an unsigned [n] and the move of [p_] over [n] bytes. *)
Definition advance (what : string) (n : Z) : reader Blob := fun it =>
  if remain_ it <? n then Throw what
  else let t := take (Z.to_nat n) (ahead it) in
       Ret (t, mkSerialIter (reverse t ++ behind it) (drop (Z.to_nat n) (ahead it))).

(** The byte [t[i]]. *)
Definition at_ (t : Blob) (i : nat) : Z := default 0 (t !! i).

(** An [int] is compared with [remain_] as a [std::size_t]. *)
Definition skip (length : Z) : reader unit :=
  advance "invalid SerialIter skip" (u64 length) ≫= fun _ => mret tt.

Definition get8 : reader Z :=
  advance "invalid SerialIter get8" 1 ≫= fun t => mret (at_ t 0).

Definition get16 : reader Z :=
  advance "invalid SerialIter get16" 2 ≫= fun t => mret (u16 (Z.shiftl (at_ t 0) 8 + at_ t 1)).

Definition get32 : reader Z :=
  advance "invalid SerialIter get32" 4 ≫= fun t =>
  mret (u32 (Z.shiftl (at_ t 0) 24 + Z.shiftl (at_ t 1) 16 + Z.shiftl (at_ t 2) 8 + at_ t 3)).

Definition get64 : reader Z :=
  advance "invalid SerialIter get64" 8 ≫= fun t =>
  mret (u64 (Z.shiftl (at_ t 0) 56 + Z.shiftl (at_ t 1) 48 + Z.shiftl (at_ t 2) 40 + Z.shiftl (at_ t 3) 32
             + Z.shiftl (at_ t 4) 24 + Z.shiftl (at_ t 5) 16 + Z.shiftl (at_ t 6) 8 + at_ t 7)).

(** [boost::endian::load_big_s32] and [load_big_s64] are arguments. *)
Definition geti32 (load_big_s32 : Blob -> Z) : reader Z :=
  advance "invalid SerialIter geti32" 4 ≫= fun t => mret (load_big_s32 t).

Definition geti64 (load_big_s64 : Blob -> Z) : reader Z :=
  advance "invalid SerialIter geti64" 8 ≫= fun t => mret (load_big_s64 t).

(** [getBitString] of [n] bytes. *)
Definition getBitString (n : Z) : reader Blob := advance "invalid SerialIter getBitString" n.

Definition getFieldID : reader (Z * Z) :=
  get8 ≫= fun type =>
  let name := Z.land type 15 in
  let type := Z.shiftr type 4 in
  (if type =? 0 then
     get8 ≫= fun type => if type <? 16 then throw "gFID: uncommon type out of range" else mret type
   else mret type) ≫= fun type =>
  (if name =? 0 then
     get8 ≫= fun name => if name <? 16 then throw "gFID: uncommon name out of range" else mret name
   else mret name) ≫= fun name =>
  mret (type, name).

(** [getRawHelper], of a [Blob] and of a [Buffer]. *)
Definition getRaw (size : Z) : reader Blob := advance "invalid SerialIter getRaw" (u64 size).

Definition lift {A} (m : outcome A) : reader A := fun it => m ≫= fun a => Ret (a, it).

Definition getVLDataLength : reader Z :=
  get8 ≫= fun b1 =>
  lift (decodeLengthLength b1) ≫= fun lenLen =>
  if lenLen =? 1 then lift (decodeVLLength1 b1)
  else if lenLen =? 2 then get8 ≫= fun b2 => lift (decodeVLLength2 b1 b2)
  else get8 ≫= fun b2 => get8 ≫= fun b3 => lift (decodeVLLength3 b1 b2 b3).

Definition getSlice (bytes : Z) : reader Blob := advance "invalid SerialIter getSlice" bytes.

(** [getVL] and [getVLBuffer]. *)
Definition getVL : reader Blob := getVLDataLength ≫= getRaw.
