(* ===== verification/SerializerFacts.v ===== *)
(** * Writers and readers

    What a reader does with the bytes of a writer ([reads]), what a reader that
    returned has read ([consumes]), and the interface of a type whose writer
    and reader fit ([Codec]), with its instances. *)

From stdpp Require Import strings.
From S2P Require Import Prelude Outcome Serializer.

Create HintDb readers.

(** ** Bytes of an integer *)

Lemma land_255 z : Z.land z 255 = z mod 256.
Proof. change 255 with (Z.ones 8). by rewrite Z.land_ones by lia. Qed.

Lemma land_15 z : Z.land z 15 = z mod 16.
Proof. change 15 with (Z.ones 4). by rewrite Z.land_ones by lia. Qed.

Lemma u8_range z : is_byte (u8 z).
Proof. unfold is_byte, u8. apply Z.mod_pos_bound. lia. Qed.

Lemma u8_id z : is_byte z -> u8 z = z.
Proof. intros. by apply Z.mod_small. Qed.

Lemma u8_u8 z : u8 (u8 z) = u8 z.
Proof. apply u8_id, u8_range. Qed.

(** [z / 2^(8k)] one byte further. *)
Lemma shift_byte z k : 0 <= k -> Z.shiftr z k = 256 * Z.shiftr z (k + 8) + u8 (Z.shiftr z k).
Proof.
  intros Hk. rewrite <- Z.shiftr_shiftr by lia. rewrite (Z.shiftr_div_pow2 _ 8) by lia. unfold u8. change (2 ^ 8) with 256.
  pose proof (Z.div_mod (Z.shiftr z k) 256). lia.
Qed.

(** Big-endian: [n] bytes of [i], and the number of a list of bytes. *)
Fixpoint bigEndian (n : nat) (i : Z) : Blob :=
  match n with
  | O => []
  | S n => u8 (Z.shiftr i (8 * Z.of_nat n)) :: bigEndian n i
  end.

Definition fromBytes (bs : Blob) : Z := foldl (fun x b => 256 * x + b) 0 bs.

Lemma length_bigEndian n i : length (bigEndian n i) = n.
Proof. induction n; cbn; auto. Qed.

Lemma bytes_bigEndian n i : Forall is_byte (bigEndian n i).
Proof. induction n; cbn; constructor; auto using u8_range. Qed.

Lemma foldl_bytes_shift bs x : foldl (fun x b => 256 * x + b) x bs = x * 256 ^ lengthZ bs + fromBytes bs.
Proof.
  unfold fromBytes, lengthZ. revert x. induction bs as [|b bs IH]; intros x; [cbn; lia|]. cbn [foldl length].
  rewrite (IH (256 * x + b)), (IH (256 * 0 + b)), Nat2Z.inj_succ, Z.pow_succ_r by lia. lia.
Qed.

Lemma fromBytes_cons b bs : fromBytes (b :: bs) = b * 256 ^ lengthZ bs + fromBytes bs.
Proof. unfold fromBytes at 1. cbn [foldl]. rewrite foldl_bytes_shift. lia. Qed.

Lemma fromBytes_range bs : Forall is_byte bs -> 0 <= fromBytes bs < 256 ^ lengthZ bs.
Proof.
  induction 1 as [|b bs Hb _ IH]; [done|]. rewrite fromBytes_cons. unfold lengthZ in *. cbn [length].
  rewrite Nat2Z.inj_succ, Z.pow_succ_r by lia. unfold is_byte in Hb.
  pose proof (Z.mul_le_mono_nonneg_r b 255 (256 ^ Z.of_nat (length bs))). nia.
Qed.

Lemma fromBytes_bigEndian n i : fromBytes (bigEndian n i) = i mod 256 ^ Z.of_nat n.
Proof.
  induction n as [|n IH]; [by rewrite Z.mod_1_r|]. cbn [bigEndian]. rewrite fromBytes_cons, IH.
  unfold lengthZ. rewrite length_bigEndian, Nat2Z.inj_succ, Z.pow_succ_r by lia.
  rewrite (Z.mul_comm 256), Z.rem_mul_r by lia. unfold u8.
  rewrite Z.shiftr_div_pow2, Z.pow_mul_r by lia. change (2 ^ 8) with 256. lia.
Qed.

(** Higher bytes do not count. *)
Lemma bigEndian_add n m b z : (n <= m)%nat -> bigEndian n (b * 256 ^ Z.of_nat m + z) = bigEndian n z.
Proof.
  induction n as [|n IH]; intros Hm; [done|]. cbn [bigEndian]. rewrite IH by lia. f_equal.
  rewrite !Z.shiftr_div_pow2, Z.pow_mul_r by lia. change (2 ^ 8) with 256. unfold u8.
  replace (Z.of_nat m) with (Z.of_nat (m - S n) + 1 + Z.of_nat n) by lia.
  rewrite !Z.pow_add_r, Z.pow_1_r, Z.mul_assoc, Z.div_add_l, (Z.mul_assoc b) by lia.
  by rewrite Z.add_comm, Z_mod_plus_full.
Qed.

Lemma bigEndian_fromBytes bs : Forall is_byte bs -> bigEndian (length bs) (fromBytes bs) = bs.
Proof.
  intros H. induction H as [|b bs Hb Hbs IH]; [done|]. cbn [length bigEndian].
  pose proof (fromBytes_range _ Hbs) as Hr. rewrite fromBytes_cons. unfold lengthZ in *.
  f_equal; [|by rewrite bigEndian_add].
  rewrite Z.shiftr_div_pow2, Z.pow_mul_r by lia. change (2 ^ 8) with 256.
  rewrite Z.div_add_l, Z.div_small, Z.add_0_r by lia. by apply u8_id.
Qed.

(** The operations write and read big-endian numbers. *)
Lemma add16_bigEndian i s : add16 i s = addRaw (bigEndian 2 i) s.
Proof. unfold add16. cbn. rewrite land_255, Z.shiftr_0_r. fold (u8 i). by rewrite u8_u8. Qed.

Lemma add32_bigEndian i s : add32 i s = addRaw (bigEndian 4 i) s.
Proof.
  unfold add32. cbn. rewrite !land_255, Z.shiftr_0_r. repeat change (?x mod 256) with (u8 x). by rewrite !u8_u8.
Qed.

Lemma add64_bigEndian i s : add64 i s = addRaw (bigEndian 8 i) s.
Proof.
  unfold add64. cbn. rewrite !land_255, Z.shiftr_0_r. repeat change (?x mod 256) with (u8 x). by rewrite !u8_u8.
Qed.

(** ** Readers *)

(** [m] reads exactly [bs], whatever is before and after, and answers [a]. *)
Definition reads {A} (m : reader A) (bs : Blob) (a : A) : Prop :=
  forall b r, m (mkSerialIter b (bs ++ r)) = Ret (a, mkSerialIter (reverse bs ++ b) r).

(** When [m] returns, it has moved over bytes [bs] that are [P]. *)
Definition consumes {A} (m : reader A) (P : A -> Blob -> Prop) : Prop :=
  forall b l a it, Forall is_byte l -> m (mkSerialIter b l) = Ret (a, it) ->
  exists bs r, l = bs ++ r /\ it = mkSerialIter (reverse bs ++ b) r /\ P a bs.

Lemma reads_ret {A} (a : A) : reads (mret a) [] a.
Proof. by intros b r. Qed.

Lemma reads_bind {A B} (m : reader A) (f : A -> reader B) bs cs a b :
  reads m bs a -> reads (f a) cs b -> reads (m ≫= f) (bs ++ cs) b.
Proof.
  intros Hm Hf p r. unfold mbind, reader_bind, mbind, outcome_bind. rewrite <- app_assoc, Hm, Hf.
  by rewrite reverse_app, app_assoc.
Qed.

Lemma reads_lift {A} (m : outcome A) a : m = Ret a -> reads (lift m) [] a.
Proof. intros -> b r. done. Qed.

Lemma reads_advance what n bs : n = lengthZ bs -> reads (advance what n) bs bs.
Proof.
  intros -> b r. unfold advance, remain_, lengthZ. cbn. rewrite length_app.
  rewrite (proj2 (Z.ltb_ge _ _)) by lia. rewrite Nat2Z.id. by rewrite take_app_length, drop_app_length.
Qed.

(** A reader that ends by a pure function of what it read. *)
Lemma reads_advance_ret {A} what n bs (f : Blob -> A) a :
  n = lengthZ bs -> f bs = a -> reads (advance what n ≫= fun t => mret (f t)) bs a.
Proof.
  intros Hn <-. assert (reads (advance what n ≫= fun t => mret (f t)) (bs ++ []) (f bs)) as H.
  { eapply reads_bind; [by apply reads_advance|apply reads_ret]. }
  by rewrite app_nil_r in H.
Qed.

Lemma consumes_ret {A} (a : A) P : P a [] -> consumes (mret a) P.
Proof. intros HP b l a' it _ [= <- <-]. exists [], l. done. Qed.

Lemma consumes_throw {A} what (P : A -> Blob -> Prop) : consumes (throw what) P.
Proof. intros b l a it _ [=]. Qed.

Lemma consumes_bind {A B} (m : reader A) (f : A -> reader B) P Q :
  consumes m P -> (forall a bs, Forall is_byte bs -> P a bs -> consumes (f a) (fun b cs => Q b (bs ++ cs))) ->
  consumes (m ≫= f) Q.
Proof.
  intros Hm Hf p l b it Hl. unfold mbind, reader_bind, mbind, outcome_bind.
  destruct (m (mkSerialIter p l)) as [|[a it1]] eqn:E; [done|]. intros E2.
  destruct (Hm _ _ _ _ Hl E) as (bs & r & -> & -> & HP). apply Forall_app in Hl as [Hbs Hr].
  destruct (Hf _ _ Hbs HP _ _ _ _ Hr E2) as (cs & r' & -> & -> & HQ).
  exists (bs ++ cs), r'. by rewrite reverse_app, !app_assoc.
Qed.

Lemma consumes_lift {A} (m : outcome A) (P : A -> Blob -> Prop) :
  (forall a, m = Ret a -> P a []) -> consumes (lift m) P.
Proof. intros H b l a it _. unfold lift, mbind, outcome_bind. destruct m; [done|]. intros [= <- <-]. exists [], l. auto. Qed.

Lemma consumes_weaken {A} (m : reader A) (P Q : A -> Blob -> Prop) :
  consumes m P -> (forall a bs, Forall is_byte bs -> P a bs -> Q a bs) -> consumes m Q.
Proof.
  intros H HPQ b l a it Hl E. destruct (H _ _ _ _ Hl E) as (bs & r & -> & -> & HP).
  apply Forall_app in Hl as [Hbs _]. exists bs, r. auto.
Qed.

Lemma consumes_advance what n : 0 <= n -> consumes (advance what n) (fun a bs => a = bs /\ lengthZ bs = n).
Proof.
  intros Hn b l a it _. unfold advance, remain_, lengthZ. cbn. destruct (Z.ltb_spec (Z.of_nat (length l)) n); [done|].
  intros [= <- <-]. eexists _, _. rewrite take_drop. split_and!; [done..|]. rewrite length_take. lia.
Qed.

(** More bytes at the end change nothing for a reader that returns. *)
Definition extends {A} (m : reader A) : Prop :=
  forall b l a it r, m (mkSerialIter b l) = Ret (a, it) ->
  m (mkSerialIter b (l ++ r)) = Ret (a, mkSerialIter (behind it) (ahead it ++ r)).

Lemma extends_ret {A} (a : A) : extends (mret a).
Proof. by intros b l a' it r [= <- <-]. Qed.

Lemma extends_throw {A} what : extends (@throw A what).
Proof. by intros b l a it r [=]. Qed.

Lemma extends_lift {A} (m : outcome A) : extends (lift m).
Proof. intros b l a it r. unfold lift, mbind, outcome_bind. destruct m; [done|]. by intros [= <- <-]. Qed.

Lemma extends_bind {A B} (m : reader A) (f : A -> reader B) :
  extends m -> (forall a, extends (f a)) -> extends (m ≫= f).
Proof.
  intros Hm Hf b l a it r. unfold mbind, reader_bind, mbind, outcome_bind.
  destruct (m (mkSerialIter b l)) as [|[x [b' l']]] eqn:E; [done|]. rewrite (Hm _ _ _ _ r E). apply Hf.
Qed.

Lemma extends_advance what n : extends (advance what n).
Proof.
  intros b l a it r. unfold advance, remain_, lengthZ. cbn. rewrite length_app.
  destruct (Z.ltb_spec (Z.of_nat (length l)) n); [done|]. rewrite (proj2 (Z.ltb_ge _ _)) by lia.
  intros [= <- <-]. cbn. by rewrite take_app_le, drop_app_le by lia.
Qed.

#[export] Hint Resolve extends_ret extends_throw extends_lift extends_bind extends_advance : readers.

(** A proper prefix of what a reader reads is refused. *)
Lemma extends_prefix {A} (m : reader A) bs a b l r :
  extends m -> reads m bs a -> bs = l ++ r -> r <> [] -> exists what, m (mkSerialIter b l) = Throw what.
Proof.
  intros He Hr -> Hne. destruct (m (mkSerialIter b l)) as [what|[a' [b' l']]] eqn:E; [by exists what|].
  apply (He _ _ _ _ r) in E. specialize (Hr b []). rewrite app_nil_r in Hr. rewrite E in Hr.
  injection Hr as _ _ Hnil. cbn in Hnil. apply app_nil in Hnil. naive_solver.
Qed.

(** The bytes of a list of known length. *)
Ltac byte_list bs :=
  repeat (destruct bs as [|? bs]; try (unfold lengthZ in *; cbn in *; lia)).

Lemma reads_get8 b : is_byte b -> reads get8 [b] b.
Proof. intros Hb. by apply reads_advance_ret. Qed.

Lemma consumes_get8 : consumes get8 (fun a bs => bs = [a] /\ is_byte a).
Proof.
  eapply consumes_bind; [by apply consumes_advance|]. intros t bs Hbs [-> Hl]. apply consumes_ret. rewrite app_nil_r.
  byte_list bs. inversion Hbs. done.
Qed.

(** The value of a [get] of a fixed number of bytes. *)
Lemma fromBytes_2 b0 b1 : Z.shiftl b0 8 + b1 = fromBytes [b0; b1].
Proof. rewrite Z.shiftl_mul_pow2 by lia. unfold fromBytes. cbn [foldl]. lia. Qed.

Lemma fromBytes_4 b0 b1 b2 b3 :
  Z.shiftl b0 24 + Z.shiftl b1 16 + Z.shiftl b2 8 + b3 = fromBytes [b0; b1; b2; b3].
Proof. rewrite !Z.shiftl_mul_pow2 by lia. unfold fromBytes. cbn [foldl]. lia. Qed.

Lemma fromBytes_8 b0 b1 b2 b3 b4 b5 b6 b7 :
  Z.shiftl b0 56 + Z.shiftl b1 48 + Z.shiftl b2 40 + Z.shiftl b3 32 + Z.shiftl b4 24 + Z.shiftl b5 16
  + Z.shiftl b6 8 + b7 = fromBytes [b0; b1; b2; b3; b4; b5; b6; b7].
Proof. rewrite !Z.shiftl_mul_pow2 by lia. unfold fromBytes. cbn [foldl]. lia. Qed.

(** [f] is the big-endian number of [n] bytes. *)
Definition number (n : nat) (f : Blob -> Z) : Prop :=
  forall t, length t = n -> f t = fromBytes t mod 256 ^ Z.of_nat n.

Lemma reads_number what n f i :
  number n f -> 0 <= i < 256 ^ Z.of_nat n ->
  reads (advance what (Z.of_nat n) ≫= fun t => mret (f t)) (bigEndian n i) i.
Proof.
  intros Hf Hi. apply reads_advance_ret; [unfold lengthZ; by rewrite length_bigEndian|].
  rewrite Hf by apply length_bigEndian. by rewrite fromBytes_bigEndian, Z.mod_mod, Z.mod_small by lia.
Qed.

Lemma consumes_number what n f :
  number n f ->
  consumes (advance what (Z.of_nat n) ≫= fun t => mret (f t))
    (fun a bs => bs = bigEndian n a /\ 0 <= a < 256 ^ Z.of_nat n).
Proof.
  intros Hf. eapply consumes_bind; [apply consumes_advance; lia|]. intros t bs Hbs [-> Hl]. apply consumes_ret.
  rewrite app_nil_r. assert (length bs = n) as <- by (unfold lengthZ in Hl; lia).
  pose proof (fromBytes_range _ Hbs) as Hr. rewrite Hf, Z.mod_small by done. split; [|done].
  by rewrite bigEndian_fromBytes.
Qed.

Ltac number_of lem :=
  intros t H; repeat (destruct t as [|? t]; try discriminate H); unfold at_;
  cbn [lookup list_lookup default from_option]; rewrite lem; done.

Lemma number16 : number 2 (fun t => u16 (Z.shiftl (at_ t 0) 8 + at_ t 1)).
Proof. number_of fromBytes_2. Qed.

Lemma number32 : number 4 (fun t =>
  u32 (Z.shiftl (at_ t 0) 24 + Z.shiftl (at_ t 1) 16 + Z.shiftl (at_ t 2) 8 + at_ t 3)).
Proof. number_of fromBytes_4. Qed.

Lemma number64 : number 8 (fun t =>
  u64 (Z.shiftl (at_ t 0) 56 + Z.shiftl (at_ t 1) 48 + Z.shiftl (at_ t 2) 40 + Z.shiftl (at_ t 3) 32
       + Z.shiftl (at_ t 4) 24 + Z.shiftl (at_ t 5) 16 + Z.shiftl (at_ t 6) 8 + at_ t 7)).
Proof. number_of fromBytes_8. Qed.

(** ** Types with a writer and a reader *)

(** What the serializer promises for a type: the values that [fits] are
    written, as bytes, and read back wherever they are; and what is read of
    any bytes and fits is written as these bytes again; bytes that follow do
    not count. *)
Record codec (A : Type) := mkCodec {
  fits : A -> Prop;
  encode : A -> Blob -> outcome (Z * Blob);
  decode : reader A;
  codec_writes a : fits a -> exists bs, Forall is_byte bs /\
    (forall s, encode a s = Ret (lengthZ s, s ++ bs)) /\ reads decode bs a;
  codec_canonical : consumes decode (fun a bs => fits a -> forall s, encode a s = Ret (lengthZ s, s ++ bs));
  codec_extends : extends decode;
}.
Arguments fits {A}.
Arguments encode {A}.
Arguments decode {A}.
Arguments codec_writes {A}.
Arguments codec_canonical {A}.
Arguments codec_extends {A}.

Ltac extends_solve := repeat first [apply extends_bind; [|intros ?] | case_match | progress eauto with readers].

Program Definition codec8 : codec Z :=
  mkCodec _ is_byte (fun i s => Ret (add8 i s)) get8 _ _ _.
Next Obligation.
  intros a Ha. exists [u8 a]. split_and!; [repeat constructor; apply u8_range|done|].
  rewrite u8_id by done. by apply reads_get8.
Qed.
Next Obligation.
  eapply consumes_weaken; [apply consumes_get8|]. intros a bs _ [-> Ha] _ s. unfold add8. by rewrite u8_id.
Qed.
Next Obligation. intros. extends_solve. Qed.

(** The codec of the unsigned numbers of [n] bytes. *)
Program Definition codecNumber (n : nat) (add : Z -> Blob -> Z * Blob) (what : string) (f : Blob -> Z)
    (Hadd : forall i s, add i s = addRaw (bigEndian n i) s) (Hf : number n f) : codec Z :=
  mkCodec _ (fun i => 0 <= i < 256 ^ Z.of_nat n) (fun i s => Ret (add i s))
    (advance what (Z.of_nat n) ≫= fun t => mret (f t)) _ _ _.
Next Obligation.
  intros n add what f Hadd Hf a Ha. exists (bigEndian n a).
  split_and!; [apply bytes_bigEndian|intros s; by rewrite Hadd|by apply reads_number].
Qed.
Next Obligation.
  intros n add what f Hadd Hf. eapply consumes_weaken; [by apply consumes_number|].
  intros a bs _ [-> _] _ s. by rewrite Hadd.
Qed.
Next Obligation. intros. extends_solve. Qed.

Definition codec16 : codec Z := codecNumber 2 add16 "invalid SerialIter get16" _ add16_bigEndian number16.
Definition codec32 : codec Z := codecNumber 4 add32 "invalid SerialIter get32" _ add32_bigEndian number32.
Definition codec64 : codec Z := codecNumber 8 add64 "invalid SerialIter get64" _ add64_bigEndian number64.

Lemma decode16 : decode codec16 = get16.
Proof. done. Qed.
Lemma decode32 : decode codec32 = get32.
Proof. done. Qed.
Lemma decode64 : decode codec64 = get64.
Proof. done. Qed.

(** The bytes of a [base_uint] of [n] bytes. *)
Program Definition codecBits (n : nat) : codec Blob :=
  mkCodec _ (fun v => length v = n /\ Forall is_byte v) (fun v s => Ret (addBitString v s))
    (getBitString (Z.of_nat n)) _ _ _.
Next Obligation.
  intros n a [Hl Ha]. exists a. split_and!; [done..|]. apply reads_advance. unfold lengthZ. by rewrite Hl.
Qed.
Next Obligation.
  intros n. eapply consumes_weaken; [apply consumes_advance; lia|]. by intros a bs _ [-> _] _ s.
Qed.
Next Obligation. intros. extends_solve. Qed.

(** *** Field identifiers *)

Definition idBytes (type name : Z) : Blob :=
  if type <? 16 then
    if name <? 16 then [16 * type + name] else [16 * type; name]
  else if name <? 16 then [name; type] else [0; type; name].

Lemma nibbles type name : 0 <= type < 16 -> 0 <= name < 16 -> Z.lor (Z.shiftl type 4) name = 16 * type + name.
Proof.
  intros Ht Hn.
  assert (Forall (fun t => Forall (fun n => Z.lor (Z.shiftl t 4) n = 16 * t + n) (seqZ 0 16)) (seqZ 0 16)) as H
    by (apply (bool_decide_unpack _); vm_compute; exact I).
  rewrite Forall_forall in H. specialize (H type). rewrite Forall_forall in H. apply H; apply elem_of_seqZ; lia.
Qed.

(** The identifiers that can be written: [XRPL_ASSERT] of [addFieldID]. *)
Definition field_ok (f : Z * Z) : Prop := 0 < f.1 < 256 /\ 0 < f.2 < 256.

Lemma addFieldID_code type name s :
  field_ok (type, name) -> addFieldID type name s = addRaw (idBytes type name) s.
Proof.
  unfold field_ok. cbn. intros [Ht Hn]. unfold addFieldID, idBytes.
  destruct (Z.ltb_spec type 16), (Z.ltb_spec name 16); rewrite ?nibbles, ?Z.shiftl_mul_pow2 by lia;
    rewrite !u8_id by (unfold is_byte; lia); try done. by rewrite Z.mul_comm.
Qed.

Lemma idBytes_bytes type name : field_ok (type, name) -> Forall is_byte (idBytes type name).
Proof.
  unfold field_ok, idBytes, is_byte. cbn. intros [Ht Hn].
  destruct (Z.ltb_spec type 16), (Z.ltb_spec name 16); repeat constructor; lia.
Qed.

(** The byte of two nibbles taken apart. *)
Lemma nibble_name t n : 0 <= n < 16 -> Z.land (16 * t + n) 15 = n.
Proof. intros. rewrite land_15. rewrite Z.add_comm, Z.mul_comm, Z_mod_plus_full. by apply Z.mod_small. Qed.

Lemma nibble_type t n : 0 <= n < 16 -> Z.shiftr (16 * t + n) 4 = t.
Proof.
  intros. rewrite Z.shiftr_div_pow2 by lia. change (2 ^ 4) with 16.
  rewrite Z.mul_comm, Z.div_add_l, Z.div_small by lia. lia.
Qed.

Lemma nibble_split b : is_byte b -> exists t n, b = 16 * t + n /\ 0 <= n < 16 /\ 0 <= t < 16.
Proof. intros H. exists (b / 16), (b mod 16). unfold is_byte in H. Z.to_euclidean_division_equations; lia. Qed.

(** The two parts of [getFieldID] for a nibble that may be followed by a byte. *)
Lemma reads_nibble what x bs :
  0 < x < 256 -> bs = (if x <? 16 then [] else [x]) ->
  reads (if (if x <? 16 then x else 0) =? 0
         then get8 ≫= fun y => if y <? 16 then throw what else mret y
         else mret (if x <? 16 then x else 0)) bs x.
Proof.
  intros Hx ->. destruct (Z.ltb_spec x 16) as [Hlt|Hge].
  - rewrite (proj2 (Z.eqb_neq x 0)) by lia. apply reads_ret.
  - cbn. apply (reads_bind get8 _ [x] [] x); [apply reads_get8; unfold is_byte; lia|].
    rewrite (proj2 (Z.ltb_ge _ _)) by lia. apply reads_ret.
Qed.

Lemma consumes_nibble what x :
  0 <= x < 16 ->
  consumes (if x =? 0 then get8 ≫= fun y => if y <? 16 then throw what else mret y else mret x)
    (fun y bs => 0 < y < 256 /\ x = (if y <? 16 then y else 0) /\ bs = (if y <? 16 then [] else [y])).
Proof.
  intros Hx. destruct (Z.eqb_spec x 0) as [->|].
  - eapply consumes_bind; [apply consumes_get8|]. intros y bs _ [-> Hy]. unfold is_byte in Hy.
    destruct (Z.ltb_spec y 16); [apply consumes_throw|]. apply consumes_ret.
    rewrite (proj2 (Z.ltb_ge _ _)) by lia. split_and!; [lia..|done|done].
  - apply consumes_ret. rewrite (proj2 (Z.ltb_lt _ _)) by lia. split_and!; [lia..|done|done].
Qed.

(** The first byte of an identifier, then the type, then the name. *)
Lemma idBytes_split type name :
  idBytes type name =
  [16 * (if type <? 16 then type else 0) + (if name <? 16 then name else 0)]
  ++ (if type <? 16 then [] else [type]) ++ (if name <? 16 then [] else [name]).
Proof. unfold idBytes. destruct (type <? 16), (name <? 16); cbn; by rewrite ?Z.add_0_r. Qed.

Lemma reads_getFieldID type name :
  field_ok (type, name) -> reads getFieldID (idBytes type name) (type, name).
Proof.
  unfold field_ok. cbn. intros [Ht Hn]. rewrite idBytes_split. unfold getFieldID.
  set (t := if type <? 16 then type else 0). set (n := if name <? 16 then name else 0).
  assert (0 <= t < 16) by (subst t; destruct (Z.ltb_spec type 16); lia).
  assert (0 <= n < 16) by (subst n; destruct (Z.ltb_spec name 16); lia).
  eapply reads_bind; [apply reads_get8; unfold is_byte; lia|].
  rewrite nibble_name, nibble_type by done.
  eapply (reads_bind _ _ _ _ type); [by apply reads_nibble|].
  rewrite <- (app_nil_r (if name <? 16 then [] else [name])).
  eapply (reads_bind _ _ _ _ name); [by apply reads_nibble|]. apply reads_ret.
Qed.

Lemma consumes_getFieldID :
  consumes getFieldID (fun f bs => field_ok f /\ bs = idBytes f.1 f.2).
Proof.
  eapply consumes_bind; [apply consumes_get8|]. intros b bs _ [-> Hb].
  destruct (nibble_split _ Hb) as (t & n & -> & Hn & Ht). rewrite nibble_name, nibble_type by done.
  eapply consumes_bind; [by apply consumes_nibble|]. intros type ts _ (Htype & -> & ->).
  eapply consumes_bind; [by apply consumes_nibble|]. intros name ns _ (Hname & -> & ->).
  apply consumes_ret. cbn. split; [done|]. by rewrite app_nil_r, idBytes_split.
Qed.

Program Definition codecField : codec (Z * Z) :=
  mkCodec _ field_ok (fun f s => Ret (addFieldID f.1 f.2 s)) getFieldID _ _ _.
Next Obligation.
  intros [type name] Hf. exists (idBytes type name). split_and!; [by apply idBytes_bytes| |by apply reads_getFieldID].
  intros s. cbn. by rewrite addFieldID_code.
Qed.
Next Obligation.
  eapply consumes_weaken; [apply consumes_getFieldID|]. intros [type name] bs _ [Hf ->] _ s. cbn.
  by rewrite addFieldID_code.
Qed.
Next Obligation. intros. extends_solve. Qed.

(** *** Variable length *)

(** The code of a length; the longest that [addEncoded] writes and the longest
    that [getVLDataLength] reads. *)
Definition lengthCode (n : Z) : Blob :=
  if n <=? 192 then [n]
  else if n <=? 12480 then [193 + (n - 193) / 256; (n - 193) mod 256]
  else [241 + (n - 12481) / 65536; (n - 12481) / 256 mod 256; (n - 12481) mod 256].

Definition maxEncoded : Z := 918744.
Definition maxDecoded : Z := 929984.

Lemma addEncoded_code n s : 0 <= n <= maxEncoded -> addEncoded n s = Ret (addRaw (lengthCode n) s).
Proof.
  unfold maxEncoded. intros Hn. unfold addEncoded, lengthCode.
  destruct (Z.leb_spec n 192); [by rewrite u8_id by (unfold is_byte; lia)|].
  destruct (Z.leb_spec n 12480); rewrite ?land_255, ?Z.shiftr_div_pow2 by lia;
    change (2 ^ 8) with 256; change (2 ^ 16) with 65536.
  - rewrite !u8_id by (unfold is_byte, u8; Z.to_euclidean_division_equations; lia). done.
  - rewrite (proj2 (Z.leb_le n 918744)) by lia.
    rewrite !u8_id by (unfold is_byte, u8; Z.to_euclidean_division_equations; lia). done.
Qed.

Lemma addEncoded_too_long n s : maxEncoded < n -> addEncoded n s = Throw "lenlen".
Proof. unfold maxEncoded. intros Hn. unfold addEncoded. by rewrite !(proj2 (Z.leb_gt _ _)) by lia. Qed.

Lemma lengthCode_bytes n : 0 <= n <= maxDecoded -> Forall is_byte (lengthCode n).
Proof.
  unfold maxDecoded, lengthCode, is_byte. intros Hn.
  destruct (Z.leb_spec n 192); [|destruct (Z.leb_spec n 12480)]; repeat constructor;
    Z.to_euclidean_division_equations; lia.
Qed.

Lemma reads_getVLDataLength n : 0 <= n <= maxDecoded -> reads getVLDataLength (lengthCode n) n.
Proof.
  intros Hn. pose proof (lengthCode_bytes n Hn) as Hb. revert Hb. unfold maxDecoded in Hn.
  unfold lengthCode, getVLDataLength, decodeLengthLength, decodeVLLength1, decodeVLLength2, decodeVLLength3.
  destruct (Z.leb_spec n 192); [|destruct (Z.leb_spec n 12480)]; intros Hb; decompose_Forall_hyps.
  - apply (reads_bind _ _ [n] [] n); [by apply reads_get8|].
    apply (reads_bind _ _ [] [] 1); [apply reads_lift|cbn; apply reads_lift];
      repeat case_match; b2p; try done; lia.
  - set (b1 := 193 + _) in *. set (b2 := _ mod _) in *.
    apply (reads_bind _ _ [b1] [b2] b1); [by apply reads_get8|].
    assert (193 <= b1 <= 240) by (subst b1; Z.to_euclidean_division_equations; lia).
    apply (reads_bind _ _ [] [b2] 2); [apply reads_lift; repeat case_match; b2p; try done; lia|cbn].
    apply (reads_bind _ _ [b2] [] b2); [by apply reads_get8|apply reads_lift].
    repeat case_match; b2p; try lia. f_equal. subst b1 b2. Z.to_euclidean_division_equations; lia.
  - set (b1 := 241 + _) in *. set (b2 := _ / 256 mod _) in *. set (b3 := (_ - _) mod _) in *.
    apply (reads_bind _ _ [b1] [b2; b3] b1); [by apply reads_get8|].
    assert (241 <= b1 <= 254) by (subst b1; Z.to_euclidean_division_equations; lia).
    apply (reads_bind _ _ [] [b2; b3] 3); [apply reads_lift; repeat case_match; b2p; try done; lia|cbn].
    apply (reads_bind _ _ [b2] [b3] b2); [by apply reads_get8|].
    apply (reads_bind _ _ [b3] [] b3); [by apply reads_get8|apply reads_lift].
    repeat case_match; b2p; try lia. f_equal. subst b1 b2 b3. Z.to_euclidean_division_equations; lia.
Qed.

(** The lengths of one, two and three bytes. *)
Lemma lengthCode_1 b1 : 0 <= b1 <= 192 -> lengthCode b1 = [b1].
Proof. intros H. unfold lengthCode. by rewrite (proj2 (Z.leb_le _ _)) by lia. Qed.

Lemma lengthCode_2 b1 b2 :
  193 <= b1 <= 240 -> is_byte b2 -> lengthCode (193 + (b1 - 193) * 256 + b2) = [b1; b2].
Proof.
  unfold is_byte. intros H1 H2. unfold lengthCode.
  rewrite (proj2 (Z.leb_gt _ 192)), (proj2 (Z.leb_le _ 12480)) by lia.
  f_equal; [|f_equal]; Z.to_euclidean_division_equations; lia.
Qed.

Lemma lengthCode_3 b1 b2 b3 :
  241 <= b1 <= 254 -> is_byte b2 -> is_byte b3 ->
  lengthCode (12481 + (b1 - 241) * 65536 + b2 * 256 + b3) = [b1; b2; b3].
Proof.
  unfold is_byte. intros H1 H2 H3. unfold lengthCode.
  rewrite (proj2 (Z.leb_gt _ 192)), (proj2 (Z.leb_gt _ 12480)) by lia.
  f_equal; [|f_equal; [|f_equal]]; Z.to_euclidean_division_equations; lia.
Qed.

Lemma consumes_getVLDataLength :
  consumes getVLDataLength (fun n bs => 0 <= n <= maxDecoded /\ bs = lengthCode n).
Proof.
  unfold maxDecoded. eapply consumes_bind; [apply consumes_get8|]. intros b1 bs _ [-> Hb1]. unfold is_byte in Hb1.
  eapply (consumes_bind _ _ (fun l bs => bs = [] /\ decodeLengthLength b1 = Ret l)); [by apply consumes_lift|].
  intros l ? _ [-> Hl]. unfold decodeLengthLength in Hl.
  destruct (Z.ltb_spec b1 0), (Z.leb_spec b1 192), (Z.leb_spec b1 240), (Z.leb_spec b1 254);
    try lia; try done; injection Hl as <-; cbn.
  - apply consumes_lift. unfold decodeVLLength1. intros n. repeat case_match; b2p; try done.
    intros [= <-]. split; [lia|by rewrite lengthCode_1].
  - eapply consumes_bind; [apply consumes_get8|]. intros b2 bs _ [-> Hb2]. apply consumes_lift.
    unfold decodeVLLength2. intros n. repeat case_match; b2p; try done. intros [= <-].
    split; [unfold is_byte in *; lia|by rewrite lengthCode_2].
  - eapply consumes_bind; [apply consumes_get8|]. intros b2 bs _ [-> Hb2].
    eapply consumes_bind; [apply consumes_get8|]. intros b3 bs _ [-> Hb3]. apply consumes_lift.
    unfold decodeVLLength3. intros n. repeat case_match; b2p; try done. intros [= <-].
    split; [unfold is_byte in *; lia|by rewrite lengthCode_3].
Qed.

Lemma reads_getRaw bs : lengthZ bs < 2 ^ 64 -> reads (getRaw (lengthZ bs)) bs bs.
Proof. intros H. apply reads_advance. apply u64_id. unfold lengthZ in *. lia. Qed.

Program Definition codecVL : codec Blob :=
  mkCodec _ (fun v => lengthZ v <= maxEncoded /\ Forall is_byte v) addVL getVL _ _ _.
Next Obligation.
  intros a [Hl Ha]. assert (0 <= lengthZ a) by (unfold lengthZ; lia).
  exists (lengthCode (lengthZ a) ++ a). split_and!.
  - apply Forall_app. split; [apply lengthCode_bytes; unfold maxEncoded, maxDecoded in *; lia|done].
  - intros s. unfold addVL. rewrite addEncoded_code by lia. cbn. by rewrite app_assoc.
  - eapply reads_bind; [apply reads_getVLDataLength|apply reads_getRaw]; unfold maxEncoded, maxDecoded in *; lia.
Qed.
Next Obligation.
  eapply consumes_bind; [apply consumes_getVLDataLength|]. intros n bs _ [Hn ->]. unfold maxDecoded in Hn.
  unfold getRaw. rewrite u64_id by lia. eapply consumes_weaken; [apply consumes_advance; lia|].
  intros v ? _ [<- Hl] [Hfit _] s. unfold addVL. rewrite Hl in *. rewrite addEncoded_code by lia. cbn.
  by rewrite app_assoc.
Qed.
Next Obligation. intros. extends_solve. Qed.
