(* ===== verification/SerializerProperties.v ===== *)
(** * Properties of the serializer

    Any sequence of [add] calls, of mixed kinds, is read back by the sequence of
    [get] calls of the same kinds. *)

From stdpp Require Import strings.
From S2P Require Import Prelude Outcome Serializer SerializerFacts.

(** ** Sequences of writes and reads *)

Inductive kind := K8 | K16 | K32 | K64 | KBits (n : nat) | KField | KVL.

Definition content (k : kind) : Type :=
  match k with K8 | K16 | K32 | K64 => Z | KField => Z * Z | KBits _ | KVL => Blob end.

(** What a caller may write: a value of the type, an identifier that the assertion
    of [addFieldID] admits, a blob that has a length code. *)
Definition writable (k : kind) : content k -> Prop :=
  match k with
  | K8 => fun i => 0 <= i < 2 ^ 8
  | K16 => fun i => 0 <= i < 2 ^ 16
  | K32 => fun i => 0 <= i < 2 ^ 32
  | K64 => fun i => 0 <= i < 2 ^ 64
  | KBits n => fun v => length v = n /\ Forall is_byte v
  | KField => fun f => 0 < f.1 < 256 /\ 0 < f.2 < 256
  | KVL => fun v => lengthZ v <= 918744 /\ Forall is_byte v
  end.

Definition write (k : kind) : content k -> Blob -> outcome (Z * Blob) :=
  match k with
  | K8 => fun i s => Ret (add8 i s)
  | K16 => fun i s => Ret (add16 i s)
  | K32 => fun i s => Ret (add32 i s)
  | K64 => fun i s => Ret (add64 i s)
  | KBits n => fun v s => Ret (addBitString v s)
  | KField => fun f s => Ret (addFieldID f.1 f.2 s)
  | KVL => addVL
  end.

Definition read (k : kind) : reader (content k) :=
  match k with
  | K8 => get8
  | K16 => get16
  | K32 => get32
  | K64 => get64
  | KBits n => getBitString (Z.of_nat n)
  | KField => getFieldID
  | KVL => getVL
  end.

Abbreviation item := {k : kind & content k}.

Fixpoint writeAll (items : list item) (s : Blob) : outcome Blob :=
  match items with
  | [] => Ret s
  | existT k a :: items => write k a s ≫= fun '(_, s) => writeAll items s
  end.

Fixpoint readAll (kinds : list kind) : reader (list item) :=
  match kinds with
  | [] => mret []
  | k :: kinds => read k ≫= fun a => readAll kinds ≫= fun items => mret (existT k a :: items)
  end.

Definition writables (items : list item) : Prop := Forall (fun i => writable (projT1 i) (projT2 i)) items.

(** Every kind has a codec. *)
Definition codecOf (k : kind) : codec (content k) :=
  match k with
  | K8 => codec8 | K16 => codec16 | K32 => codec32 | K64 => codec64
  | KBits n => codecBits n | KField => codecField | KVL => codecVL
  end.

Lemma codecOf_spec k :
  fits (codecOf k) = writable k /\ encode (codecOf k) = write k /\ decode (codecOf k) = read k.
Proof. by destruct k. Qed.

Lemma writeAll_ok items : writables items ->
  exists bs, Forall is_byte bs /\ (forall s, writeAll items s = Ret (s ++ bs)) /\
    reads (readAll (map projT1 items)) bs items.
Proof.
  unfold writables. induction 1 as [|[k a] items Hf _ (bs & Hb & Hw & Hr)].
  { exists []. split_and!; [done|intros s; by rewrite app_nil_r|apply reads_ret]. }
  destruct (codecOf_spec k) as (E1 & E2 & E3). cbn in Hf. rewrite <- E1 in Hf.
  destruct (codec_writes (codecOf k) a Hf) as (cs & Hc & Hwk & Hrk). rewrite E2 in Hwk. rewrite E3 in Hrk.
  exists (cs ++ bs). split_and!; [by apply Forall_app|intros s; cbn; rewrite Hwk; cbn; by rewrite Hw, app_assoc|].
  cbn. eapply reads_bind; [done|]. rewrite <- (app_nil_r bs). eapply reads_bind; [done|apply reads_ret].
Qed.

Lemma readAll_extends kinds : extends (readAll kinds).
Proof.
  induction kinds as [|k kinds IH]; cbn; [apply extends_ret|].
  destruct (codecOf_spec k) as (_ & _ & <-). pose proof (codec_extends (codecOf k)). extends_solve.
Qed.

Lemma readAll_consumes kinds :
  consumes (readAll kinds) (fun items bs => map projT1 items = kinds /\
    (writables items -> forall s, writeAll items s = Ret (s ++ bs))).
Proof.
  induction kinds as [|k kinds IH]; cbn.
  { apply consumes_ret. split; [done|]. intros _ s. cbn. by rewrite app_nil_r. }
  destruct (codecOf_spec k) as (E1 & E2 & <-).
  eapply consumes_bind; [apply codec_canonical|]. intros a bs _ Ha. cbn beta in Ha. rewrite E1, E2 in Ha.
  eapply consumes_bind; [apply IH|]. intros items cs _ [Hk Hi]. apply consumes_ret. cbn. rewrite Hk.
  split; [done|]. intros [Hw1 Hw2]%Forall_cons s. cbn in Hw1. rewrite (Ha Hw1 s). cbn.
  by rewrite (Hi Hw2), app_nil_r, app_assoc.
Qed.

(** ** Theorems *)

(** C33: Whatever is written can be read: after any sequence of [add8], [add16],
    [add32], [add64], [addBitString], [addFieldID] and [addVL] calls on writable
    values, in any order and from any buffer [s], the [get] calls of the same
    kinds on the new bytes answer the written values and stop right behind them;
    and if the data stops anywhere before the last of these bytes, the [get]
    calls throw instead of returning anything. *)
Theorem serializer_roundtrip (items : list item) (s : Blob) :
  writables items ->
  exists bs, writeAll items s = Ret (s ++ bs) /\
    (forall before after, readAll (map projT1 items) (mkSerialIter before (bs ++ after)) =
                     Ret (items, mkSerialIter (reverse bs ++ before) after)) /\
    (forall l r before, bs = l ++ r -> r <> [] ->
       exists what, readAll (map projT1 items) (mkSerialIter before l) = Throw what).
Proof.
  intros Hi. destruct (writeAll_ok items Hi) as (bs & _ & Hw & Hr). exists bs.
  split_and!; [done|done|]. intros l r before. apply (extends_prefix _ _ items); [apply readAll_extends|done].
Qed.

Definition sampleItems : list item :=
  [existT KField (1, 2); existT K16 25; existT KField (2, 27); existT K32 1000;
   existT KField (19, 3); existT KVL [7; 8; 9]; existT (KBits 4) [1; 2; 3; 4]; existT K64 (2 ^ 63); existT K8 255].

Lemma sampleItems_writable : writables sampleItems.
Proof. unfold writables, sampleItems. repeat constructor; cbn; vm_compute; discriminate. Qed.

Lemma serializer_roundtrip_witness :
  writeAll sampleItems [] = Ret [18; 0; 25; 32; 27; 0; 0; 3; 232; 3; 19; 3; 7; 8; 9; 1; 2; 3; 4;
                                 128; 0; 0; 0; 0; 0; 0; 0; 255] /\
  exists bs, writeAll sampleItems [] = Ret ([] ++ bs) /\
    (forall before after, readAll (map projT1 sampleItems) (mkSerialIter before (bs ++ after)) =
                     Ret (sampleItems, mkSerialIter (reverse bs ++ before) after)) /\
    (forall l r before, bs = l ++ r -> r <> [] ->
       exists what, readAll (map projT1 sampleItems) (mkSerialIter before l) = Throw what).
Proof.
  split; [vm_compute; reflexivity|]. apply (serializer_roundtrip sampleItems []), sampleItems_writable.
Defined.

(** The encoding is unique: when a sequence of [get] calls on some bytes
    returns values that can be written, writing them again gives exactly the
    bytes that were read. *)
Theorem serializer_canonical (kinds : list kind) (data : Blob) items it :
  Forall is_byte data ->
  readAll kinds (newSerialIter data) = Ret (items, it) ->
  map projT1 items = kinds /\ reverse (behind it) ++ ahead it = data /\
  (writables items -> writeAll items [] = Ret (reverse (behind it))).
Proof.
  intros Hd Hr. destruct (readAll_consumes _ _ _ _ _ Hd Hr) as (bs & r & -> & -> & Hk & Hw). cbn [behind ahead].
  rewrite app_nil_r, reverse_involutive. split_and!; [done..|]. intros Hi. by apply (Hw Hi []).
Qed.

Lemma serializer_canonical_witness :
  exists items it, readAll [KField; K16] (newSerialIter [18; 0; 25; 99]) = Ret (items, it) /\
    map projT1 items = [KField; K16] /\ reverse (behind it) ++ ahead it = [18; 0; 25; 99] /\
    (writables items -> writeAll items [] = Ret (reverse (behind it))).
Proof.
  eexists _, _. split; [vm_compute; reflexivity|].
  apply (serializer_canonical [KField; K16] [18; 0; 25; 99]); [|vm_compute; reflexivity].
  repeat constructor; cbn; vm_compute; discriminate.
Defined.
