(* ===== verification/SFields.v ===== *)
(** * SField

    Models [include/xrpl/protocol/SField.h], [src/libxrpl/protocol/SField.cpp] and
    the table of [include/xrpl/protocol/detail/sfields.macro]: the identifiers of
    the fields of serialized objects.  The order of the table is the order in
    which the code registers the fields; [fieldNum] is the position in it. *)

From stdpp Require Import strings.
From S2P Require Import Prelude.

Inductive SerializedTypeID :=
| STI_UNKNOWN | STI_NOTPRESENT | STI_UINT16
| STI_UINT32 | STI_UINT64 | STI_UINT128 | STI_UINT256 | STI_AMOUNT | STI_VL | STI_ACCOUNT
| STI_NUMBER | STI_INT32 | STI_INT64 | STI_OBJECT | STI_ARRAY
| STI_UINT8 | STI_UINT160 | STI_PATHSET | STI_VECTOR256 | STI_UINT96 | STI_UINT192
| STI_UINT384 | STI_UINT512 | STI_ISSUE | STI_XCHAIN_BRIDGE | STI_CURRENCY
| STI_TRANSACTION | STI_LEDGERENTRY | STI_VALIDATION | STI_METADATA.

#[export] Instance SerializedTypeID_eq_dec : EqDecision SerializedTypeID.
Proof. solve_decision. Defined.

(** The value of the enumerator. *)
Definition sti (t : SerializedTypeID) : Z :=
  match t with
  | STI_UNKNOWN => -2
  | STI_NOTPRESENT => 0
  | STI_UINT16 => 1
  | STI_UINT32 => 2
  | STI_UINT64 => 3
  | STI_UINT128 => 4
  | STI_UINT256 => 5
  | STI_AMOUNT => 6
  | STI_VL => 7
  | STI_ACCOUNT => 8
  | STI_NUMBER => 9
  | STI_INT32 => 10
  | STI_INT64 => 11
  | STI_OBJECT => 14
  | STI_ARRAY => 15
  | STI_UINT8 => 16
  | STI_UINT160 => 17
  | STI_PATHSET => 18
  | STI_VECTOR256 => 19
  | STI_UINT96 => 20
  | STI_UINT192 => 21
  | STI_UINT384 => 22
  | STI_UINT512 => 23
  | STI_ISSUE => 24
  | STI_XCHAIN_BRIDGE => 25
  | STI_CURRENCY => 26
  | STI_TRANSACTION => 10001
  | STI_LEDGERENTRY => 10002
  | STI_VALIDATION => 10003
  | STI_METADATA => 10004
  end.

Definition field_code (id index : Z) : Z := Z.lor (Z.shiftl id 16) index.

Definition sMD_Never : Z := 0.
Definition sMD_ChangeOrig : Z := 1.
Definition sMD_ChangeNew : Z := 2.
Definition sMD_DeleteFinal : Z := 4.
Definition sMD_Create : Z := 8.
Definition sMD_Always : Z := 16.
Definition sMD_BaseTen : Z := 32.
Definition sMD_PseudoAccount : Z := 64.
Definition sMD_NeedsAsset : Z := 128.
Definition sMD_Default : Z :=
  Z.lor (Z.lor (Z.lor sMD_ChangeOrig sMD_ChangeNew) sMD_DeleteFinal) sMD_Create.

Record SField := mkSField {
  fieldCode : Z;
  fieldType : SerializedTypeID;
  fieldValue : Z;
  fieldName : string;
  fieldMeta : Z;
  signingField : bool;
}.

#[export] Instance SField_eq_dec : EqDecision SField.
Proof. solve_decision. Defined.

(** The constructors. *)
Definition sfield (fn : string) (tid : SerializedTypeID) (fv meta : Z) (signing : bool) : SField :=
  mkSField (field_code (sti tid) fv) tid fv fn meta signing.

Definition sf (fn : string) (tid : SerializedTypeID) (fv : Z) : SField := sfield fn tid fv sMD_Default true.

Definition sfOfCode (fc : Z) (fn : string) : SField := mkSField fc STI_UNKNOWN 0 fn sMD_Never true.

Definition hasName (f : SField) : bool := 0 <? fieldCode f.
Definition isInvalid (f : SField) : bool := fieldCode f =? -1.
Definition isUseful (f : SField) : bool := 0 <? fieldCode f.
Definition isBinary (f : SField) : bool := fieldValue f <? 256.
Definition isDiscardable (f : SField) : bool := 256 <? fieldValue f.
Definition shouldMeta (c : Z) (f : SField) : bool := negb (Z.land (fieldMeta f) c =? 0).
Definition shouldInclude (withSigningField : bool) (f : SField) : bool :=
  (fieldValue f <? 256) && (withSigningField || signingField f).

(** [operator==]. *)
Definition sf_eqb (f g : SField) : bool := fieldCode f =? fieldCode g.

Definition compare (f1 f2 : SField) : Z :=
  if (fieldCode f1 <=? 0) || (fieldCode f2 <=? 0) then 0
  else if fieldCode f1 <? fieldCode f2 then -1
  else if fieldCode f2 <? fieldCode f1 then 1 else 0.

(** ** The table *)

Definition sfInvalid : SField := sfOfCode (-1) EmptyString.
Definition sfGeneric : SField := sfOfCode 0 "Generic".
Definition sfHash : SField := sf "hash" STI_UINT256 257.
Definition sfIndex : SField := sf "index" STI_UINT256 258.

Definition untypedFields : list SField :=
  [ sf "LedgerEntry" STI_LEDGERENTRY 257
  ; sf "Transaction" STI_TRANSACTION 257
  ; sf "Validation" STI_VALIDATION 257
  ; sf "Metadata" STI_METADATA 257 ].

Definition uint8Fields : list SField :=
  [ sf "CloseResolution" STI_UINT8 1
  ; sf "Method" STI_UINT8 2
  ; sf "TransactionResult" STI_UINT8 3
  ; sf "Scale" STI_UINT8 4
  ; sf "AssetScale" STI_UINT8 5
  ; sf "TickSize" STI_UINT8 16
  ; sf "UNLModifyDisabling" STI_UINT8 17
  ; sf "HookResult" STI_UINT8 18
  ; sf "WasLockingChainSend" STI_UINT8 19
  ; sf "WithdrawalPolicy" STI_UINT8 20 ].

Definition uint16Fields : list SField :=
  [ sfield "LedgerEntryType" STI_UINT16 1 sMD_Never true
  ; sf "TransactionType" STI_UINT16 2
  ; sf "SignerWeight" STI_UINT16 3
  ; sf "TransferFee" STI_UINT16 4
  ; sf "TradingFee" STI_UINT16 5
  ; sf "DiscountedFee" STI_UINT16 6
  ; sf "Version" STI_UINT16 16
  ; sf "HookStateChangeCount" STI_UINT16 17
  ; sf "HookEmitCount" STI_UINT16 18
  ; sf "HookExecutionIndex" STI_UINT16 19
  ; sf "HookApiVersion" STI_UINT16 20
  ; sf "LedgerFixType" STI_UINT16 21
  ; sf "ManagementFeeRate" STI_UINT16 22 ].

Definition uint32Fields : list SField :=
  [ sf "NetworkID" STI_UINT32 1
  ; sf "Flags" STI_UINT32 2
  ; sf "SourceTag" STI_UINT32 3
  ; sf "Sequence" STI_UINT32 4
  ; sfield "PreviousTxnLgrSeq" STI_UINT32 5 sMD_DeleteFinal true
  ; sf "LedgerSequence" STI_UINT32 6
  ; sf "CloseTime" STI_UINT32 7
  ; sf "ParentCloseTime" STI_UINT32 8
  ; sf "SigningTime" STI_UINT32 9
  ; sf "Expiration" STI_UINT32 10
  ; sf "TransferRate" STI_UINT32 11
  ; sf "WalletSize" STI_UINT32 12
  ; sf "OwnerCount" STI_UINT32 13
  ; sf "DestinationTag" STI_UINT32 14
  ; sf "LastUpdateTime" STI_UINT32 15
  ; sf "HighQualityIn" STI_UINT32 16
  ; sf "HighQualityOut" STI_UINT32 17
  ; sf "LowQualityIn" STI_UINT32 18
  ; sf "LowQualityOut" STI_UINT32 19
  ; sf "QualityIn" STI_UINT32 20
  ; sf "QualityOut" STI_UINT32 21
  ; sf "StampEscrow" STI_UINT32 22
  ; sf "BondAmount" STI_UINT32 23
  ; sf "LoadFee" STI_UINT32 24
  ; sf "OfferSequence" STI_UINT32 25
  ; sf "FirstLedgerSequence" STI_UINT32 26
  ; sf "LastLedgerSequence" STI_UINT32 27
  ; sf "TransactionIndex" STI_UINT32 28
  ; sf "OperationLimit" STI_UINT32 29
  ; sf "ReferenceFeeUnits" STI_UINT32 30
  ; sf "ReserveBase" STI_UINT32 31
  ; sf "ReserveIncrement" STI_UINT32 32
  ; sf "SetFlag" STI_UINT32 33
  ; sf "ClearFlag" STI_UINT32 34
  ; sf "SignerQuorum" STI_UINT32 35
  ; sf "CancelAfter" STI_UINT32 36
  ; sf "FinishAfter" STI_UINT32 37
  ; sf "SignerListID" STI_UINT32 38
  ; sf "SettleDelay" STI_UINT32 39
  ; sf "TicketCount" STI_UINT32 40
  ; sf "TicketSequence" STI_UINT32 41
  ; sf "NFTokenTaxon" STI_UINT32 42
  ; sf "MintedNFTokens" STI_UINT32 43
  ; sf "BurnedNFTokens" STI_UINT32 44
  ; sf "HookStateCount" STI_UINT32 45
  ; sf "EmitGeneration" STI_UINT32 46
  ; sf "VoteWeight" STI_UINT32 48
  ; sf "FirstNFTokenSequence" STI_UINT32 50
  ; sf "OracleDocumentID" STI_UINT32 51
  ; sf "PermissionValue" STI_UINT32 52
  ; sf "MutableFlags" STI_UINT32 53
  ; sf "StartDate" STI_UINT32 54
  ; sf "PaymentInterval" STI_UINT32 55
  ; sf "GracePeriod" STI_UINT32 56
  ; sf "PreviousPaymentDueDate" STI_UINT32 57
  ; sf "NextPaymentDueDate" STI_UINT32 58
  ; sf "PaymentRemaining" STI_UINT32 59
  ; sf "PaymentTotal" STI_UINT32 60
  ; sf "LoanSequence" STI_UINT32 61
  ; sf "CoverRateMinimum" STI_UINT32 62
  ; sf "CoverRateLiquidation" STI_UINT32 63
  ; sf "OverpaymentFee" STI_UINT32 64
  ; sf "InterestRate" STI_UINT32 65
  ; sf "LateInterestRate" STI_UINT32 66
  ; sf "CloseInterestRate" STI_UINT32 67
  ; sf "OverpaymentInterestRate" STI_UINT32 68
  ; sf "VoteCount" STI_UINT32 201 ].

Definition uint64Fields : list SField :=
  [ sf "IndexNext" STI_UINT64 1
  ; sf "IndexPrevious" STI_UINT64 2
  ; sf "BookNode" STI_UINT64 3
  ; sf "OwnerNode" STI_UINT64 4
  ; sf "BaseFee" STI_UINT64 5
  ; sf "ExchangeRate" STI_UINT64 6
  ; sf "LowNode" STI_UINT64 7
  ; sf "HighNode" STI_UINT64 8
  ; sf "DestinationNode" STI_UINT64 9
  ; sf "Cookie" STI_UINT64 10
  ; sf "ServerVersion" STI_UINT64 11
  ; sf "NFTokenOfferNode" STI_UINT64 12
  ; sf "EmitBurden" STI_UINT64 13
  ; sf "HookOn" STI_UINT64 16
  ; sf "HookInstructionCount" STI_UINT64 17
  ; sf "HookReturnCode" STI_UINT64 18
  ; sf "ReferenceCount" STI_UINT64 19
  ; sf "XChainClaimID" STI_UINT64 20
  ; sf "XChainAccountCreateCount" STI_UINT64 21
  ; sf "XChainAccountClaimCount" STI_UINT64 22
  ; sf "AssetPrice" STI_UINT64 23
  ; sfield "MaximumAmount" STI_UINT64 24 (Z.lor sMD_BaseTen sMD_Default) true
  ; sfield "OutstandingAmount" STI_UINT64 25 (Z.lor sMD_BaseTen sMD_Default) true
  ; sfield "MPTAmount" STI_UINT64 26 (Z.lor sMD_BaseTen sMD_Default) true
  ; sf "IssuerNode" STI_UINT64 27
  ; sf "SubjectNode" STI_UINT64 28
  ; sfield "LockedAmount" STI_UINT64 29 (Z.lor sMD_BaseTen sMD_Default) true
  ; sf "VaultNode" STI_UINT64 30
  ; sf "LoanBrokerNode" STI_UINT64 31 ].

Definition hashFields : list SField :=
  [ sf "EmailHash" STI_UINT128 1
  ; sf "TakerPaysCurrency" STI_UINT160 1
  ; sf "TakerPaysIssuer" STI_UINT160 2
  ; sf "TakerGetsCurrency" STI_UINT160 3
  ; sf "TakerGetsIssuer" STI_UINT160 4
  ; sf "MPTokenIssuanceID" STI_UINT192 1
  ; sf "ShareMPTID" STI_UINT192 2
  ; sf "LedgerHash" STI_UINT256 1
  ; sf "ParentHash" STI_UINT256 2
  ; sf "TransactionHash" STI_UINT256 3
  ; sf "AccountHash" STI_UINT256 4
  ; sfield "PreviousTxnID" STI_UINT256 5 sMD_DeleteFinal true
  ; sf "LedgerIndex" STI_UINT256 6
  ; sf "WalletLocator" STI_UINT256 7
  ; sfield "RootIndex" STI_UINT256 8 sMD_Always true
  ; sf "AccountTxnID" STI_UINT256 9
  ; sf "NFTokenID" STI_UINT256 10
  ; sf "EmitParentTxnID" STI_UINT256 11
  ; sf "EmitNonce" STI_UINT256 12
  ; sf "EmitHookHash" STI_UINT256 13
  ; sfield "AMMID" STI_UINT256 14 (Z.lor sMD_PseudoAccount sMD_Default) true
  ; sf "BookDirectory" STI_UINT256 16
  ; sf "InvoiceID" STI_UINT256 17
  ; sf "Nickname" STI_UINT256 18
  ; sf "Amendment" STI_UINT256 19
  ; sf "Digest" STI_UINT256 21
  ; sf "Channel" STI_UINT256 22
  ; sf "ConsensusHash" STI_UINT256 23
  ; sf "CheckID" STI_UINT256 24
  ; sf "ValidatedHash" STI_UINT256 25
  ; sf "PreviousPageMin" STI_UINT256 26
  ; sf "NextPageMin" STI_UINT256 27
  ; sf "NFTokenBuyOffer" STI_UINT256 28
  ; sf "NFTokenSellOffer" STI_UINT256 29
  ; sf "HookStateKey" STI_UINT256 30
  ; sf "HookHash" STI_UINT256 31
  ; sf "HookNamespace" STI_UINT256 32
  ; sf "HookSetTxnID" STI_UINT256 33
  ; sf "DomainID" STI_UINT256 34
  ; sfield "VaultID" STI_UINT256 35 (Z.lor sMD_PseudoAccount sMD_Default) true
  ; sf "ParentBatchID" STI_UINT256 36
  ; sfield "LoanBrokerID" STI_UINT256 37 (Z.lor sMD_PseudoAccount sMD_Default) true
  ; sf "LoanID" STI_UINT256 38
  ; sf "ValidationHash" STI_UINT256 201 ].

Definition numberFields : list SField :=
  [ sf "Number" STI_NUMBER 1
  ; sfield "AssetsAvailable" STI_NUMBER 2 (Z.lor sMD_NeedsAsset sMD_Default) true
  ; sfield "AssetsMaximum" STI_NUMBER 3 (Z.lor sMD_NeedsAsset sMD_Default) true
  ; sfield "AssetsTotal" STI_NUMBER 4 (Z.lor sMD_NeedsAsset sMD_Default) true
  ; sfield "LossUnrealized" STI_NUMBER 5 (Z.lor sMD_NeedsAsset sMD_Default) true
  ; sfield "DebtTotal" STI_NUMBER 6 (Z.lor sMD_NeedsAsset sMD_Default) true
  ; sfield "DebtMaximum" STI_NUMBER 7 (Z.lor sMD_NeedsAsset sMD_Default) true
  ; sfield "CoverAvailable" STI_NUMBER 8 (Z.lor sMD_NeedsAsset sMD_Default) true
  ; sf "LoanOriginationFee" STI_NUMBER 9
  ; sf "LoanServiceFee" STI_NUMBER 10
  ; sf "LatePaymentFee" STI_NUMBER 11
  ; sf "ClosePaymentFee" STI_NUMBER 12
  ; sfield "PrincipalOutstanding" STI_NUMBER 13 (Z.lor sMD_NeedsAsset sMD_Default) true
  ; sf "PrincipalRequested" STI_NUMBER 14
  ; sfield "TotalValueOutstanding" STI_NUMBER 15 (Z.lor sMD_NeedsAsset sMD_Default) true
  ; sf "PeriodicPayment" STI_NUMBER 16
  ; sfield "ManagementFeeOutstanding" STI_NUMBER 17 (Z.lor sMD_NeedsAsset sMD_Default) true
  ; sf "LoanScale" STI_INT32 1 ].

Definition amountFields : list SField :=
  [ sf "Amount" STI_AMOUNT 1
  ; sf "Balance" STI_AMOUNT 2
  ; sf "LimitAmount" STI_AMOUNT 3
  ; sf "TakerPays" STI_AMOUNT 4
  ; sf "TakerGets" STI_AMOUNT 5
  ; sf "LowLimit" STI_AMOUNT 6
  ; sf "HighLimit" STI_AMOUNT 7
  ; sf "Fee" STI_AMOUNT 8
  ; sf "SendMax" STI_AMOUNT 9
  ; sf "DeliverMin" STI_AMOUNT 10
  ; sf "Amount2" STI_AMOUNT 11
  ; sf "BidMin" STI_AMOUNT 12
  ; sf "BidMax" STI_AMOUNT 13
  ; sf "MinimumOffer" STI_AMOUNT 16
  ; sf "RippleEscrow" STI_AMOUNT 17
  ; sf "DeliveredAmount" STI_AMOUNT 18
  ; sf "NFTokenBrokerFee" STI_AMOUNT 19
  ; sf "BaseFeeDrops" STI_AMOUNT 22
  ; sf "ReserveBaseDrops" STI_AMOUNT 23
  ; sf "ReserveIncrementDrops" STI_AMOUNT 24
  ; sf "LPTokenOut" STI_AMOUNT 25
  ; sf "LPTokenIn" STI_AMOUNT 26
  ; sf "EPrice" STI_AMOUNT 27
  ; sf "Price" STI_AMOUNT 28
  ; sf "SignatureReward" STI_AMOUNT 29
  ; sf "MinAccountCreateAmount" STI_AMOUNT 30
  ; sf "LPTokenBalance" STI_AMOUNT 31 ].

Definition blobFields : list SField :=
  [ sf "PublicKey" STI_VL 1
  ; sf "MessageKey" STI_VL 2
  ; sf "SigningPubKey" STI_VL 3
  ; sfield "TxnSignature" STI_VL 4 sMD_Default false
  ; sf "URI" STI_VL 5
  ; sfield "Signature" STI_VL 6 sMD_Default false
  ; sf "Domain" STI_VL 7
  ; sf "FundCode" STI_VL 8
  ; sf "RemoveCode" STI_VL 9
  ; sf "ExpireCode" STI_VL 10
  ; sf "CreateCode" STI_VL 11
  ; sf "MemoType" STI_VL 12
  ; sf "MemoData" STI_VL 13
  ; sf "MemoFormat" STI_VL 14
  ; sf "Fulfillment" STI_VL 16
  ; sf "Condition" STI_VL 17
  ; sfield "MasterSignature" STI_VL 18 sMD_Default false
  ; sf "UNLModifyValidator" STI_VL 19
  ; sf "ValidatorToDisable" STI_VL 20
  ; sf "ValidatorToReEnable" STI_VL 21
  ; sf "HookStateData" STI_VL 22
  ; sf "HookReturnString" STI_VL 23
  ; sf "HookParameterName" STI_VL 24
  ; sf "HookParameterValue" STI_VL 25
  ; sf "DIDDocument" STI_VL 26
  ; sf "Data" STI_VL 27
  ; sf "AssetClass" STI_VL 28
  ; sf "Provider" STI_VL 29
  ; sf "MPTokenMetadata" STI_VL 30
  ; sf "CredentialType" STI_VL 31
  ; sf "ValidatorPublicKey" STI_VL 201 ].

Definition accountFields : list SField :=
  [ sf "Account" STI_ACCOUNT 1
  ; sf "Owner" STI_ACCOUNT 2
  ; sf "Destination" STI_ACCOUNT 3
  ; sf "Issuer" STI_ACCOUNT 4
  ; sf "Authorize" STI_ACCOUNT 5
  ; sf "Unauthorize" STI_ACCOUNT 6
  ; sf "RegularKey" STI_ACCOUNT 8
  ; sf "NFTokenMinter" STI_ACCOUNT 9
  ; sf "EmitCallback" STI_ACCOUNT 10
  ; sf "Holder" STI_ACCOUNT 11
  ; sf "Delegate" STI_ACCOUNT 12
  ; sf "HookAccount" STI_ACCOUNT 16
  ; sf "OtherChainSource" STI_ACCOUNT 18
  ; sf "OtherChainDestination" STI_ACCOUNT 19
  ; sf "AttestationSignerAccount" STI_ACCOUNT 20
  ; sf "AttestationRewardAccount" STI_ACCOUNT 21
  ; sf "LockingChainDoor" STI_ACCOUNT 22
  ; sf "IssuingChainDoor" STI_ACCOUNT 23
  ; sf "Subject" STI_ACCOUNT 24
  ; sf "Borrower" STI_ACCOUNT 25
  ; sf "Counterparty" STI_ACCOUNT 26
  ; sf "ExclusionAdd" STI_ACCOUNT 201
  ; sf "ExclusionRemove" STI_ACCOUNT 202 ].

Definition otherFields : list SField :=
  [ sfield "Indexes" STI_VECTOR256 1 sMD_Never true
  ; sf "Hashes" STI_VECTOR256 2
  ; sf "Amendments" STI_VECTOR256 3
  ; sf "NFTokenOffers" STI_VECTOR256 4
  ; sf "CredentialIDs" STI_VECTOR256 5
  ; sf "Paths" STI_PATHSET 1
  ; sf "BaseAsset" STI_CURRENCY 1
  ; sf "QuoteAsset" STI_CURRENCY 2
  ; sf "LockingChainIssue" STI_ISSUE 1
  ; sf "IssuingChainIssue" STI_ISSUE 2
  ; sf "Asset" STI_ISSUE 3
  ; sf "Asset2" STI_ISSUE 4
  ; sf "XChainBridge" STI_XCHAIN_BRIDGE 1 ].

Definition objectFields : list SField :=
  [ sf "TransactionMetaData" STI_OBJECT 2
  ; sf "CreatedNode" STI_OBJECT 3
  ; sf "DeletedNode" STI_OBJECT 4
  ; sf "ModifiedNode" STI_OBJECT 5
  ; sf "PreviousFields" STI_OBJECT 6
  ; sf "FinalFields" STI_OBJECT 7
  ; sf "NewFields" STI_OBJECT 8
  ; sf "TemplateEntry" STI_OBJECT 9
  ; sf "Memo" STI_OBJECT 10
  ; sf "SignerEntry" STI_OBJECT 11
  ; sf "NFToken" STI_OBJECT 12
  ; sf "EmitDetails" STI_OBJECT 13
  ; sf "Hook" STI_OBJECT 14
  ; sf "Permission" STI_OBJECT 15
  ; sf "Signer" STI_OBJECT 16
  ; sf "Majority" STI_OBJECT 18
  ; sf "DisabledValidator" STI_OBJECT 19
  ; sf "EmittedTxn" STI_OBJECT 20
  ; sf "HookExecution" STI_OBJECT 21
  ; sf "HookDefinition" STI_OBJECT 22
  ; sf "HookParameter" STI_OBJECT 23
  ; sf "HookGrant" STI_OBJECT 24
  ; sf "VoteEntry" STI_OBJECT 25
  ; sf "AuctionSlot" STI_OBJECT 26
  ; sf "AuthAccount" STI_OBJECT 27
  ; sf "XChainClaimProofSig" STI_OBJECT 28
  ; sf "XChainCreateAccountProofSig" STI_OBJECT 29
  ; sf "XChainClaimAttestationCollectionElement" STI_OBJECT 30
  ; sf "XChainCreateAccountAttestationCollectionElement" STI_OBJECT 31
  ; sf "PriceData" STI_OBJECT 32
  ; sf "Credential" STI_OBJECT 33
  ; sf "RawTransaction" STI_OBJECT 34
  ; sf "BatchSigner" STI_OBJECT 35
  ; sf "Book" STI_OBJECT 36
  ; sfield "CounterpartySignature" STI_OBJECT 37 sMD_Default false
  ; sf "ExclusionEntry" STI_OBJECT 201 ].

Definition arrayFields : list SField :=
  [ sfield "Signers" STI_ARRAY 3 sMD_Default false
  ; sf "SignerEntries" STI_ARRAY 4
  ; sf "Template" STI_ARRAY 5
  ; sf "Necessary" STI_ARRAY 6
  ; sf "Sufficient" STI_ARRAY 7
  ; sf "AffectedNodes" STI_ARRAY 8
  ; sf "Memos" STI_ARRAY 9
  ; sf "NFTokens" STI_ARRAY 10
  ; sf "Hooks" STI_ARRAY 11
  ; sf "VoteSlots" STI_ARRAY 12
  ; sf "AdditionalBooks" STI_ARRAY 13
  ; sf "Majorities" STI_ARRAY 16
  ; sf "DisabledValidators" STI_ARRAY 17
  ; sf "HookExecutions" STI_ARRAY 18
  ; sf "HookParameters" STI_ARRAY 19
  ; sf "HookGrants" STI_ARRAY 20
  ; sf "XChainClaimAttestations" STI_ARRAY 21
  ; sf "XChainCreateAccountAttestations" STI_ARRAY 22
  ; sf "PriceDataSeries" STI_ARRAY 24
  ; sf "AuthAccounts" STI_ARRAY 25
  ; sf "AuthorizeCredentials" STI_ARRAY 26
  ; sf "UnauthorizeCredentials" STI_ARRAY 27
  ; sf "AcceptedCredentials" STI_ARRAY 28
  ; sf "Permissions" STI_ARRAY 29
  ; sf "RawTransactions" STI_ARRAY 30
  ; sfield "BatchSigners" STI_ARRAY 31 sMD_Default false
  ; sf "ExclusionList" STI_ARRAY 201 ].

Definition sfields : list SField :=
  untypedFields ++ uint8Fields ++ uint16Fields ++ uint32Fields ++ uint64Fields ++ hashFields ++ 
  numberFields ++ amountFields ++ blobFields ++ accountFields ++ otherFields ++ objectFields ++ 
  arrayFields.

(** The fields in the order of registration. *)
Definition knownFields : list SField := [sfInvalid; sfGeneric; sfHash; sfIndex] ++ sfields.

(** [getField] of a code, of a type and a value, and of a name. *)
Definition getField (code : Z) : SField :=
  default sfInvalid (List.find (fun f => fieldCode f =? code) knownFields).

Definition getFieldTV (type value : Z) : SField := getField (field_code type value).

Definition getFieldByName (name : string) : SField :=
  default sfInvalid (List.find (fun f => bool_decide (fieldName f = name)) knownFields).
