(* ===== verification/Number.v ===== *)
(** * Number

    Models [include/xrpl/basics/Number.h] and [src/libxrpl/basics/Number.cpp]:
    decimal floating point with a sign, a 64-bit mantissa in a range of decimal
    digits and an exponent.  The thread-local rounding mode and mantissa range
    are arguments.  Intermediate mantissas are 128 bits wide; exponents are
    [int]s, and stay far from the limits of that type.  An operation that can
    throw returns an [outcome]. *)

From stdpp Require Import strings.
From S2P Require Import Prelude Outcome.

Definition u128 (z : Z) : Z := z mod 2 ^ 128.

(** ** Ranges *)

Inductive mantissa_scale := small | large.

#[export] Instance mantissa_scale_eq_dec : EqDecision mantissa_scale.
Proof. solve_decision. Defined.

Definition getMin (scale : mantissa_scale) : Z :=
  match scale with small => 1000000000000000 | large => 1000000000000000000 end.

(** [logTen]; the loop divides at most as often as the value has digits. *)
Fixpoint logTenLoop (fuel : nat) (value log : Z) : option Z :=
  match fuel with
  | O => None
  | S fuel =>
      if (10 <=? value) && (value mod 10 =? 0) then logTenLoop fuel (value / 10) (log + 1)
      else if value =? 1 then Some log else None
  end.

Definition logTen (value : Z) : option Z := logTenLoop 21 value 0.

Definition isPowerOfTen (value : Z) : bool := bool_decide (is_Some (logTen value)).

Record MantissaRange := mkRange { rmin : Z; rmax : Z; rlog : Z; rscale : mantissa_scale }.

Definition rangeOf (scale : mantissa_scale) : MantissaRange :=
  mkRange (getMin scale) (u64 (getMin scale * 10 - 1)) (default (-1) (logTen (getMin scale))) scale.

Definition smallRange : MantissaRange := rangeOf small.
Definition largeRange : MantissaRange := rangeOf large.

(** ** The number *)

Record Number := mkNumber { negative_ : bool; mantissa_ : Z; exponent_ : Z }.

#[export] Instance Number_eq_dec : EqDecision Number.
Proof. solve_decision. Defined.

Definition minExponent : Z := -32768.
Definition maxExponent : Z := 32768.
Definition maxRep : Z := 9223372036854775807.
Definition lowestInt : Z := - 2 ^ 31.

(** [Number{}]. *)
Definition zero : Number := mkNumber false 0 lowestInt.

Definition num_eqb (x y : Number) : bool := bool_decide (x = y).

Definition num_ltb (x y : Number) : bool :=
  let lneg := negative_ x in
  let rneg := negative_ y in
  if negb (eqb lneg rneg) then lneg
  else if mantissa_ x =? 0 then 0 <? mantissa_ y
  else if mantissa_ y =? 0 then false
  else if exponent_ y <? exponent_ x then lneg
  else if exponent_ x <? exponent_ y then negb lneg
  else mantissa_ x <? mantissa_ y.

Definition signum (x : Number) : Z := if negative_ x then -1 else if mantissa_ x =? 0 then 0 else 1.

(** [operator-]. *)
Definition opp (x : Number) : Number :=
  if mantissa_ x =? 0 then zero else mkNumber (negb (negative_ x)) (mantissa_ x) (exponent_ x).

Definition num_abs (x : Number) : Number := if num_ltb x zero then opp x else x.

Definition squelch (x limit : Number) : Number := if num_ltb (num_abs x) limit then zero else x.

(** The external view. *)
Definition mantissa (x : Number) : Z :=
  let m := mantissa_ x in
  let m := if maxRep <? m then m / 10 else m in
  (if negative_ x then -1 else 1) * m.

Definition exponent (x : Number) : Z :=
  if maxRep <? mantissa_ x then exponent_ x + 1 else exponent_ x.

Definition externalToInternal (mantissa : Z) : Z :=
  if 0 <=? mantissa then mantissa
  else if - maxRep <=? mantissa then - mantissa
  else u64 (- mantissa).

(** ** Guard digits *)

Inductive rounding_mode := to_nearest | towards_zero | downward | upward.

#[export] Instance rounding_mode_eq_dec : EqDecision rounding_mode.
Proof. solve_decision. Defined.

Record Guard := mkGuard { digits_ : Z; xbit_ : bool; sbit_ : bool }.

Definition newGuard : Guard := mkGuard 0 false false.
Definition set_negative (g : Guard) : Guard := mkGuard (digits_ g) (xbit_ g) true.

Definition push (d : Z) (g : Guard) : Guard :=
  mkGuard (Z.lor (Z.shiftr (digits_ g) 4) (u64 (Z.shiftl (Z.land d 15) 60)))
    (xbit_ g || negb (Z.land (digits_ g) 15 =? 0)) (sbit_ g).

Definition pop (g : Guard) : Z * Guard :=
  (Z.shiftr (Z.land (digits_ g) 0xF000000000000000) 60,
   mkGuard (u64 (Z.shiftl (digits_ g) 4)) (xbit_ g) (sbit_ g)).

Definition half : Z := 0x5000000000000000.

Definition round (mode : rounding_mode) (g : Guard) : Z :=
  let inexact := (0 <? digits_ g) || xbit_ g in
  match mode with
  | towards_zero => -1
  | downward => if sbit_ g && inexact then 1 else -1
  | upward => if sbit_ g then -1 else if inexact then 1 else -1
  | to_nearest =>
      if half <? digits_ g then 1 else if digits_ g <? half then -1 else if xbit_ g then 1 else 0
  end.

Definition bringIntoRange (minMantissa : Z) (x : Number) : Number :=
  let x := if mantissa_ x <? minMantissa then mkNumber (negative_ x) (mantissa_ x * 10) (exponent_ x - 1) else x in
  if exponent_ x <? minExponent then zero else x.

(** Round away from zero. *)
Definition roundsUp (mode : rounding_mode) (g : Guard) (m : Z) : bool :=
  let r := round mode g in (r =? 1) || ((r =? 0) && (Z.land m 1 =? 1)).

Definition doRoundUp (mode : rounding_mode) (g : Guard) (x : Number) (minMantissa maxMantissa : Z)
    (location : string) : outcome Number :=
  let x :=
    if roundsUp mode g (mantissa_ x) then
      let m := mantissa_ x + 1 in
      if (maxMantissa <? m) || (maxRep <? m) then mkNumber (negative_ x) (m / 10) (exponent_ x + 1)
      else mkNumber (negative_ x) m (exponent_ x)
    else x in
  let x := bringIntoRange minMantissa x in
  if maxExponent <? exponent_ x then Throw location else Ret x.

Definition doRoundDown (mode : rounding_mode) (g : Guard) (x : Number) (minMantissa : Z) : Number :=
  let x :=
    if roundsUp mode g (mantissa_ x) then
      let m := mantissa_ x - 1 in
      if m <? minMantissa then mkNumber (negative_ x) (m * 10) (exponent_ x - 1)
      else mkNumber (negative_ x) m (exponent_ x)
    else x in
  bringIntoRange minMantissa x.

(** The rounding of [operator rep]. *)
Definition doRound (mode : rounding_mode) (g : Guard) (drops : Z) (location : string) : outcome Z :=
  (if roundsUp mode g drops then
     if maxRep <=? drops then Throw location else Ret (drops + 1)
   else Ret drops) ≫= fun drops =>
  Ret (if sbit_ g then - drops else drops).

(** ** Normalization *)

(** [while ((m < minMantissa) && (exponent_ > minExponent))]. *)
Fixpoint scaleUp (fuel : nat) (minMantissa m e : Z) : Z * Z :=
  match fuel with
  | O => (m, e)
  | S fuel => if (m <? minMantissa) && (minExponent <? e) then scaleUp fuel minMantissa (m * 10) (e - 1) else (m, e)
  end.

(** [while (m > maxMantissa)]; [None] if the exponent grows too large. *)
Fixpoint scaleDown (fuel : nat) (maxMantissa m e : Z) (g : Guard) : option (Z * Z * Guard) :=
  match fuel with
  | O => Some (m, e, g)
  | S fuel =>
      if maxMantissa <? m then
        if maxExponent <=? e then None
        else scaleDown fuel maxMantissa (m / 10) (e + 1) (push (m mod 10) g)
      else Some (m, e, g)
  end.

(** A 128-bit mantissa has at most 39 digits. *)
Definition digitFuel : nat := 40.

Definition doNormalize (mode : rounding_mode) (x : Number) (minMantissa maxMantissa : Z) : outcome Number :=
  if mantissa_ x =? 0 then Ret zero
  else
    let '(m, e) := scaleUp digitFuel minMantissa (mantissa_ x) (exponent_ x) in
    let g := if negative_ x then set_negative newGuard else newGuard in
    match scaleDown digitFuel maxMantissa m e g with
    | None => Throw "Number::normalize 1"
    | Some (m, e, g) =>
        if (e <? minExponent) || (m <? minMantissa) then Ret zero
        else
          (if maxRep <? m then
             if maxExponent <=? e then Throw "Number::normalize 1.5"
             else Ret (m / 10, e + 1, push (m mod 10) g)
           else Ret (m, e, g)) ≫= fun '(m, e, g) =>
          doRoundUp mode g (mkNumber (negative_ x) m e) minMantissa maxMantissa "Number::normalize 2"
    end.

Section Context.
Context (mode : rounding_mode) (scale : mantissa_scale).

Local Abbreviation minMantissa := (rmin (rangeOf scale)).
Local Abbreviation maxMantissa := (rmax (rangeOf scale)).

Definition normalize (x : Number) : outcome Number := doNormalize mode x minMantissa maxMantissa.

(** [Number(rep mantissa, int exponent)]. *)
Definition fromRep (m e : Z) : outcome Number :=
  normalize (mkNumber (m <? 0) (externalToInternal m) e).

Definition one : Number :=
  match scale with
  | small => mkNumber false (rmin smallRange) (- rlog smallRange)
  | large => mkNumber false (rmin largeRange) (- rlog largeRange)
  end.

Definition num_min : Number := mkNumber false minMantissa minExponent.
Definition num_max : Number := mkNumber false (Z.min maxMantissa maxRep) maxExponent.
Definition num_lowest : Number := mkNumber true (Z.min maxMantissa maxRep) maxExponent.

Definition isnormal (x : Number) : bool :=
  num_eqb x zero ||
  ((minMantissa <=? mantissa_ x) && (mantissa_ x <=? maxMantissa) &&
   ((mantissa_ x <=? maxRep) || (mantissa_ x mod 10 =? 0)) &&
   (minExponent <=? exponent_ x) && (exponent_ x <=? maxExponent)).

(** [normalizeToRange] of a type with [bits] bits. *)
Definition normalizeToRange (signed : bool) (minM maxM : Z) (x : Number) : outcome (Z * Z) :=
  doNormalize mode x (u64 minM) (u64 maxM) ≫= fun y =>
  let v := u64 ((if negative_ y then -1 else 1) * mantissa_ y) in
  Ret (if signed && (2 ^ 63 <=? v) then v - 2 ^ 64 else v, exponent_ y).

Definition shiftExponent (delta : Z) (x : Number) : outcome Number :=
  let newExponent := exponent_ x + delta in
  if maxExponent <=? newExponent then Throw "Number::shiftExponent"
  else if newExponent <? minExponent then Ret zero
  else Ret (mkNumber (negative_ x) (mantissa_ x) newExponent).

(** ** Addition *)

(** The digits of the operand with the smaller exponent go to the guard. *)
Fixpoint align (n : nat) (m : Z) (g : Guard) : Z * Guard :=
  match n with
  | O => (m, g)
  | S n => align n (m / 10) (push (m mod 10) g)
  end.

(** [while (xm < minMantissa && xm * 10 <= maxRep)]. *)
Fixpoint recover (fuel : nat) (m e : Z) (g : Guard) : Z * Z * Guard :=
  match fuel with
  | O => (m, e, g)
  | S fuel =>
      if (m <? minMantissa) && (u128 (m * 10) <=? maxRep) then
        let '(d, g) := pop g in recover fuel (u128 (u128 (m * 10) - d)) (e - 1) g
      else (m, e, g)
  end.

Definition add (x y : Number) : outcome Number :=
  if num_eqb y zero then Ret x
  else if num_eqb x zero then Ret y
  else if num_eqb x (opp y) then Ret zero
  else
    let xn := negative_ x in
    let yn := negative_ y in
    let n := Z.to_nat (Z.abs (exponent_ x - exponent_ y)) in
    let '(xm, ym, e, g) :=
      if exponent_ x <? exponent_ y then
        let '(xm, g) := align n (mantissa_ x) (if xn then set_negative newGuard else newGuard) in
        (xm, mantissa_ y, exponent_ y, g)
      else
        let '(ym, g) := align n (mantissa_ y)
                          (if (exponent_ y <? exponent_ x) && yn then set_negative newGuard else newGuard) in
        (mantissa_ x, ym, exponent_ x, g) in
    (if eqb xn yn then
       let xm := u128 (xm + ym) in
       let '(xm, e, g) :=
         if (maxMantissa <? xm) || (maxRep <? xm) then (xm / 10, e + 1, push (xm mod 10) g) else (xm, e, g) in
       doRoundUp mode g (mkNumber xn xm e) minMantissa maxMantissa "Number::addition overflow"
     else
       let '(xm, xn) := if ym <? xm then (u128 (xm - ym), xn) else (u128 (ym - xm), yn) in
       let '(xm, e, g) := recover digitFuel xm e g in
       Ret (doRoundDown mode g (mkNumber xn xm e) minMantissa)) ≫= fun z =>
    normalize (mkNumber (negative_ z) (u64 (mantissa_ z)) (exponent_ z)).

Definition sub (x y : Number) : outcome Number := add x (opp y).

(** ** Multiplication *)

(** [divu10]: the remainder and the quotient. *)
Definition divu10 (u : Z) : Z * Z :=
  let q := u128 (Z.shiftr u 1 + Z.shiftr u 2) in
  let q := u128 (q + Z.shiftr q 4) in
  let q := u128 (q + Z.shiftr q 8) in
  let q := u128 (q + Z.shiftr q 16) in
  let q := u128 (q + Z.shiftr q 32) in
  let q := u128 (q + Z.shiftr q 64) in
  let q := Z.shiftr q 3 in
  let r := u32 (u - (u128 (Z.shiftl q 3) + u128 (Z.shiftl q 1))) in
  let c := Z.shiftr (u32 (r + 6)) 4 in
  (u32 (r - u32 (c * 10)), u128 (q + c)).

(** [while (zm > maxMantissa || zm > maxRep)]. *)
Fixpoint shrink (fuel : nat) (m e : Z) (g : Guard) : Z * Z * Guard :=
  match fuel with
  | O => (m, e, g)
  | S fuel =>
      if (maxMantissa <? m) || (maxRep <? m) then
        let '(d, m) := divu10 m in shrink fuel m (e + 1) (push d g)
      else (m, e, g)
  end.

Definition mul (x y : Number) : outcome Number :=
  if num_eqb x zero then Ret x
  else if num_eqb y zero then Ret y
  else
    let zn := xorb (negative_ x) (negative_ y) in
    let zm := u128 (mantissa_ x * mantissa_ y) in
    let ze := exponent_ x + exponent_ y in
    let g := if zn then set_negative newGuard else newGuard in
    let '(zm, ze, g) := shrink digitFuel zm ze g in
    doRoundUp mode g (mkNumber zn (u64 zm) ze) minMantissa maxMantissa "Number::multiplication overflow"
      ≫= normalize.

(** ** Division *)

Definition div (x y : Number) : outcome Number :=
  if num_eqb y zero then Throw "Number: divide by 0"
  else if num_eqb x zero then Ret x
  else
    let isSmall := bool_decide (scale = small) in
    let f := if isSmall then 100000000000000000 else 10000000000000000000 in
    let dmu := mantissa_ y in
    let correctionFactor := 1000 in
    let numerator := u128 (mantissa_ x * f) in
    let zm := numerator / dmu in
    let ze := exponent_ x - exponent_ y - (if isSmall then 17 else 19) in
    let zn := xorb (negative_ x) (negative_ y) in
    let remainder := numerator mod dmu in
    let '(zm, ze) :=
      if negb isSmall && negb (remainder =? 0) then
        (u128 (u128 (zm * correctionFactor) + u128 (remainder * correctionFactor) / dmu), ze - 3)
      else (zm, ze) in
    doNormalize mode (mkNumber zn zm ze) minMantissa maxMantissa.

(** ** Conversions *)

(** [for (; offset > 0; --offset)]. *)
Fixpoint growDrops (n : nat) (drops : Z) : option Z :=
  match n with
  | O => Some drops
  | S n => if maxRep / 10 <? drops then None else growDrops n (drops * 10)
  end.

(** [operator rep]. *)
Definition toRep (x : Number) : outcome Z :=
  let drops := mantissa x in
  let offset := exponent x in
  if drops =? 0 then Ret drops
  else
    let '(drops, g) := if negative_ x then (- drops, set_negative newGuard) else (drops, newGuard) in
    let '(drops, g) := align (Z.to_nat (- offset)) drops g in
    require "Number::operator rep() overflow" (growDrops (Z.to_nat offset) drops) ≫= fun drops =>
    doRound mode g drops "Number::operator rep() rounding overflow".

(** [while (ret.exponent_ < 0 && ret.mantissa_ != 0)]. *)
Fixpoint truncateLoop (fuel : nat) (m e : Z) : Z * Z :=
  match fuel with
  | O => (m, e)
  | S fuel => if (e <? 0) && negb (m =? 0) then truncateLoop fuel (m / 10) (e + 1) else (m, e)
  end.

Definition truncate (x : Number) : outcome Number :=
  if (0 <=? exponent_ x) || (mantissa_ x =? 0) then Ret x
  else
    let '(m, e) := truncateLoop digitFuel (mantissa_ x) (exponent_ x) in
    normalize (mkNumber (negative_ x) m e).

(** [power(f, n)]; [n] is halved, so its number of bits is enough fuel. *)
Fixpoint powerLoop (fuel : nat) (f : Number) (n : Z) : outcome Number :=
  match fuel with
  | O => Throw "out of fuel"
  | S fuel =>
      if n =? 0 then Ret one
      else if n =? 1 then Ret f
      else
        powerLoop fuel f (n / 2) ≫= fun r =>
        mul r r ≫= fun r =>
        if negb (n mod 2 =? 0) then mul r f else Ret r
  end.

Definition power (f : Number) (n : Z) : outcome Number := powerLoop 33 f n.

End Context.
