(* ===== verification/NumberFacts.v ===== *)
(** * Guard digits and rounding

    The guard of [Number] stands for the digits that were cut off: [tracks]
    relates it to the remainder [r] of a division by [10^k].  From it, what the
    rounding of a mantissa does to the value in each mode, and that
    normalization and multiplication round as the mode says. *)

From Stdlib Require Import QArith Qpower Lqa.
From stdpp Require Import strings.
From S2P Require Import Prelude Outcome Number.
Local Open Scope Z_scope.

(** ** The guard *)

Record tracks (k : nat) (r : Z) (g : Guard) : Prop := {
  tr_range : 0 <= digits_ g < 2 ^ 64;
  tr_rem : 0 <= r < 10 ^ Z.of_nat k;
  tr_zero : digits_ g = 0 /\ xbit_ g = false <-> r = 0;
  tr_top : (0 < k)%nat -> digits_ g / 2 ^ 60 = r / 10 ^ (Z.of_nat k - 1);
  tr_rest : (0 < k)%nat ->
    digits_ g mod 2 ^ 60 = 0 /\ xbit_ g = false <-> r mod 10 ^ (Z.of_nat k - 1) = 0;
}.

Lemma tracks_new s : tracks 0 0 (mkGuard 0 false s).
Proof. split; cbn; try lia; done. Qed.

Lemma digits_push d g :
  0 <= d < 10 -> 0 <= digits_ g < 2 ^ 64 -> digits_ (push d g) = digits_ g / 16 + d * 2 ^ 60.
Proof.
  intros Hd Hg. unfold push, digits_ at 1. rewrite Z.shiftr_div_pow2 by lia. change (2 ^ 4) with 16.
  change 15 with (Z.ones 4). rewrite land_low, Z.mod_small, Z.shiftl_mul_pow2 by lia.
  rewrite u64_id by lia. apply lor_shifted; [lia|]. split; [apply Z.div_pos; lia|]. apply Z.div_lt_upper_bound; lia.
Qed.

Lemma xbit_push d g : xbit_ (push d g) = xbit_ g || negb (digits_ g mod 16 =? 0).
Proof. cbn. change 15 with (Z.ones 4). by rewrite land_low by lia. Qed.

Lemma tracks_push k r g d :
  tracks k r g -> 0 <= d < 10 -> tracks (S k) (r + d * 10 ^ Z.of_nat k) (push d g).
Proof.
  intros [Hg Hr Hz _ _] Hd.
  assert (digits_ g / 16 + d * 2 ^ 60 = digits_ (push d g)) as Ed by by rewrite digits_push.
  assert (0 <= digits_ g / 16 < 2 ^ 60) as Hlow.
  { split; [apply Z.div_pos; lia|]. apply Z.div_lt_upper_bound; lia. }
  assert ((digits_ g / 16 = 0 /\ xbit_ (push d g) = false) <-> digits_ g = 0 /\ xbit_ g = false) as Hrest.
  { rewrite xbit_push, orb_false_iff, negb_false_iff, Z.eqb_eq.
    pose proof (Z.div_mod (digits_ g) 16). split; [intros (? & ? & ?)|intros [-> ->]]; split_and!; try done; lia. }
  assert (Z.of_nat (S k) - 1 = Z.of_nat k) as Ek by lia.
  split; rewrite ?Ek, <- ?Ed.
  - lia.
  - rewrite Nat2Z.inj_succ, Z.pow_succ_r by lia. nia.
  - split; [intros [H1 H2]; assert (d = 0) as -> by lia; rewrite Z.mul_0_l, Z.add_0_r;
            apply Hz, Hrest; split; [lia|done]|].
    intros H. assert (d = 0 /\ r = 0) as [-> ->] by nia. assert (digits_ g / 16 = 0 /\ xbit_ (push 0 g) = false) as [-> ?].
    { apply Hrest, Hz. done. }
    done.
  - intros _. rewrite Z.add_comm, Z.div_add_l, Z.div_small, Z.add_0_r by lia.
    by rewrite Z.add_comm, Z.div_add_l, Z.div_small, Z.add_0_r by lia.
  - intros _. rewrite Z_mod_plus_full, Z.mod_small, Z_mod_plus_full, (Z.mod_small r) by lia.
    rewrite Hrest. apply Hz.
Qed.

(** What a guard of remainder [r] below a mantissa of parity [odd] makes: away
    from zero or not. *)
Definition up (mode : rounding_mode) (neg odd : bool) (k : nat) (r : Z) : bool :=
  match mode with
  | towards_zero => false
  | downward => neg && (0 <? r)
  | upward => negb neg && (0 <? r)
  | to_nearest => (10 ^ Z.of_nat k <? 2 * r) || ((2 * r =? 10 ^ Z.of_nat k) && odd)
  end.

Lemma inexact_spec k r g : tracks k r g -> (0 <? digits_ g) || xbit_ g = (0 <? r).
Proof.
  intros T. pose proof (tr_range _ _ _ T). pose proof (tr_rem _ _ _ T). pose proof (tr_zero _ _ _ T) as Hz.
  destruct (Z.ltb_spec 0 r) as [Hr|Hr].
  - destruct (Z.ltb_spec 0 (digits_ g)); [done|]. destruct (xbit_ g); [done|].
    assert (r = 0) by (apply Hz; split; [lia|done]). lia.
  - assert (digits_ g = 0 /\ xbit_ g = false) as [-> ->] by (apply Hz; lia). done.
Qed.

Lemma nearest_spec k r g :
  tracks k r g ->
  round to_nearest g =
  if 10 ^ Z.of_nat k <? 2 * r then 1 else if 2 * r =? 10 ^ Z.of_nat k then 0 else -1.
Proof.
  intros T. pose proof (tr_range _ _ _ T) as Hg. pose proof (tr_rem _ _ _ T) as Hr.
  pose proof (tr_zero _ _ _ T) as Hz. unfold round, half.
  destruct k as [|k].
  { assert (r = 0) as -> by lia. assert (digits_ g = 0 /\ xbit_ g = false) as [-> ->] by (by apply Hz). done. }
  pose proof (tr_top _ _ _ T ltac:(lia)) as Ht. pose proof (tr_rest _ _ _ T ltac:(lia)) as Hl.
  replace (Z.of_nat (S k) - 1) with (Z.of_nat k) in Ht, Hl by lia.
  replace (10 ^ Z.of_nat (S k)) with (10 * 10 ^ Z.of_nat k) in * by (rewrite <- Z.pow_succ_r by lia; f_equal; lia).
  set (p := 10 ^ Z.of_nat k) in *. assert (0 < p) as Hp by (subst p; lia).
  pose proof (Z.div_mod (digits_ g) (2 ^ 60)) as Ed. pose proof (Z.mod_pos_bound (digits_ g) (2 ^ 60)) as Bd.
  pose proof (Z.div_mod r p) as Er. pose proof (Z.mod_pos_bound r p Hp) as Br.
  set (t := r / p) in *. rewrite Ht in Ed.
  assert (t < 5 -> p * t <= p * 4) by nia. assert (5 < t -> p * 6 <= p * t) by nia.
  assert (t = 5 -> p * t = p * 5) by (by intros ->).
  assert (t = 5 -> r mod p = 0 -> xbit_ g = false) by naive_solver.
  assert (t = 5 -> r mod p <> 0 -> digits_ g mod 2 ^ 60 = 0 -> xbit_ g = true).
  { intros. destruct (xbit_ g); [done|naive_solver]. }
  assert (t = 5 -> r mod p = 0 -> digits_ g mod 2 ^ 60 = 0) by naive_solver.
  assert (t < 5 \/ t = 5 \/ 5 < t) as [Ht5|[Ht5|Ht5]] by lia.
  - rewrite (proj2 (Z.ltb_ge _ _)), (proj2 (Z.ltb_lt _ _)), (proj2 (Z.ltb_ge _ _)), (proj2 (Z.eqb_neq _ _)) by lia. done.
  - rewrite !(proj2 (Z.ltb_ge (digits_ g) _)) by lia.
    destruct (Z.eq_dec (r mod p) 0) as [E0|E0].
    + rewrite (proj2 (Z.ltb_ge _ _)), (proj2 (Z.ltb_ge _ _)), (proj2 (Z.eqb_eq _ _)) by lia. by rewrite H2.
    + rewrite (proj2 (Z.ltb_lt (10 * p) _)) by lia. destruct (Z.eq_dec (digits_ g mod 2 ^ 60) 0) as [E1|E1].
      * rewrite (proj2 (Z.ltb_ge _ _)) by lia. by rewrite H3.
      * rewrite (proj2 (Z.ltb_lt _ _)) by lia. done.
  - rewrite (proj2 (Z.ltb_lt _ _)), (proj2 (Z.ltb_lt _ _)) by lia. done.
Qed.

Lemma roundsUp_spec mode k r g m :
  tracks k r g -> roundsUp mode g m = up mode (sbit_ g) (Z.odd m) k r.
Proof.
  intros T. unfold roundsUp. assert ((Z.land m 1 =? 1) = Z.odd m) as ->.
  { change 1 with (Z.ones 1) at 1. rewrite land_low by lia. change (2 ^ 1) with 2.
    rewrite Zmod_odd. by destruct (Z.odd m). }
  destruct mode; cbn [up].
  - rewrite (nearest_spec _ _ _ T).
    by destruct (10 ^ Z.of_nat k <? 2 * r), (2 * r =? 10 ^ Z.of_nat k), (Z.odd m).
  - done.
  - unfold round. rewrite (inexact_spec _ _ _ T). destruct (sbit_ g), (0 <? r); done.
  - unfold round. rewrite (inexact_spec _ _ _ T). destruct (sbit_ g), (0 <? r); done.
Qed.

(** ** Values *)

(** The value [m * 10^e]. *)
Definition val (m e : Z) : Q := inject_Z m * (10 # 1) ^ e.

Lemma ten_pos e : (0 < (10 # 1) ^ e)%Q.
Proof. apply Qpower_0_lt. done. Qed.

Lemma val_shift m e k : 0 <= k -> (val (m * 10 ^ k) e == val m (e + k))%Q.
Proof.
  intros Hk. unfold val. rewrite inject_Z_mult, Qpower_plus by done.
  assert (inject_Z (10 ^ k) == (10 # 1) ^ k)%Q as -> by (by rewrite Zpower_Qpower by done). ring.
Qed.

Lemma val_shift' m e e' k : 0 <= k -> e' = e + k -> (val (m * 10 ^ k) e == val m e')%Q.
Proof. intros ? ->. by apply val_shift. Qed.

Lemma val_le m n e : m <= n -> (val m e <= val n e)%Q.
Proof. intros H. unfold val. apply Qmult_le_compat_r; [by rewrite <- Zle_Qle|apply Qlt_le_weak, ten_pos]. Qed.

Lemma val_lt m n e : m < n -> (val m e < val n e)%Q.
Proof. intros H. unfold val. apply Qmult_lt_compat_r; [apply ten_pos|by rewrite <- Zlt_Qlt]. Qed.

(** The exponent may be lower for the smaller number. *)
Lemma val_inj m n e : (val m e == val n e)%Q -> m = n.
Proof.
  intros H. destruct (Z.lt_trichotomy m n) as [Hl|[|Hl]]; [|done|]; apply (val_lt _ _ e) in Hl; lra.
Qed.

Lemma val_mono_exp m e e' : 0 <= m -> e <= e' -> (val m e <= val m e')%Q.
Proof.
  intros Hm He. rewrite <- (val_shift' m e e' (e' - e)) by lia. apply val_le.
  assert (1 <= 10 ^ (e' - e)) by lia. nia.
Qed.

Lemma val_lt_exp m n e e' : e <= e' -> m < n -> 0 < n -> (val m e < val n e')%Q.
Proof.
  intros He Hm Hn. rewrite <- (val_shift' n e e' (e' - e)) by lia. apply val_lt.
  assert (1 <= 10 ^ (e' - e)) by (apply Z.pow_pos_nonneg || idtac; lia). nia.
Qed.

Lemma val_add m n e : (val (m + n) e == val m e + val n e)%Q.
Proof. unfold val. rewrite inject_Z_plus. ring. Qed.

Lemma val_sub m n e : (val (m - n) e == val m e - val n e)%Q.
Proof. unfold val, Z.sub. rewrite inject_Z_plus, inject_Z_opp. ring. Qed.

Lemma val_zero e : (val 0 e == 0)%Q.
Proof. unfold val. ring. Qed.

#[global] Opaque val.

(** ** Cutting digits off *)

(** [m] with exponent [e] and the guard [g] is the number [M], [e0] with [k]
    digits cut off. *)
Record cut (M e0 : Z) (neg : bool) (m e : Z) (g : Guard) (k : nat) : Prop := {
  cut_tracks : tracks k (M - m * 10 ^ Z.of_nat k) g;
  cut_exp : e = e0 + Z.of_nat k;
  cut_sign : sbit_ g = neg;
}.

Lemma cut_new M e0 neg :
  cut M e0 neg M e0 (if neg then set_negative newGuard else newGuard) 0.
Proof.
  split; [|lia|by destruct neg]. replace (M - M * 10 ^ Z.of_nat 0) with 0 by lia.
  destruct neg; apply tracks_new.
Qed.

Lemma cut_push M e0 neg m e g k :
  cut M e0 neg m e g k -> cut M e0 neg (m / 10) (e + 1) (push (m mod 10) g) (S k).
Proof.
  intros [T He Hs]. split; [|lia|done].
  replace (M - m / 10 * 10 ^ Z.of_nat (S k)) with (M - m * 10 ^ Z.of_nat k + m mod 10 * 10 ^ Z.of_nat k).
  - apply tracks_push; [done|]. apply Z.mod_pos_bound. lia.
  - rewrite Nat2Z.inj_succ, Z.pow_succ_r by lia. pose proof (Z.div_mod m 10). nia.
Qed.

Lemma cut_div M e0 neg m e g k : cut M e0 neg m e g k -> m = M / 10 ^ Z.of_nat k.
Proof. intros [T _ _]. pose proof (tr_rem _ _ _ T). apply Z.div_unique with (M - m * 10 ^ Z.of_nat k); lia. Qed.

Lemma cut_lower M e0 neg m e g k : cut M e0 neg m e g k -> (val m e <= val M e0)%Q.
Proof.
  intros [T -> _]. rewrite <- val_shift by lia. apply val_le. pose proof (tr_rem _ _ _ T). lia.
Qed.

Lemma cut_upper M e0 neg m e g k : cut M e0 neg m e g k -> (val M e0 < val (m + 1) e)%Q.
Proof.
  intros [T -> _]. rewrite <- val_shift by lia. apply val_lt. pose proof (tr_rem _ _ _ T). lia.
Qed.

(** The mantissa that results when [k] digits of [M] are rounded off. *)
Definition roundedTo (mode : rounding_mode) (neg : bool) (M : Z) (k : nat) : Z :=
  let m := M / 10 ^ Z.of_nat k in
  m + if up mode neg (Z.odd m) k (M mod 10 ^ Z.of_nat k) then 1 else 0.

Lemma cut_rounded mode M e0 neg m e g k :
  cut M e0 neg m e g k -> roundedTo mode neg M k = m + if roundsUp mode g m then 1 else 0.
Proof.
  intros C. pose proof (cut_div _ _ _ _ _ _ _ C) as Hm. destruct C as [T He Hs].
  assert (10 ^ Z.of_nat k <> 0) by (apply Z.pow_nonzero; lia).
  assert (M mod 10 ^ Z.of_nat k = M - m * 10 ^ Z.of_nat k) as Hr by (rewrite Z.mod_eq, <- Hm by done; lia).
  unfold roundedTo. by rewrite (roundsUp_spec _ _ _ _ _ T), Hs, <- Hm, Hr.
Qed.

(** [n] units of size [p] are the number [M] rounded in the mode. *)
Definition rounding (mode : rounding_mode) (neg : bool) (M p n : Z) : Prop :=
  match mode with
  | to_nearest => 2 * Z.abs (n * p - M) <= p /\ (2 * Z.abs (n * p - M) = p -> Z.even n = true)
  | towards_zero => n * p <= M < n * p + p
  | downward => if neg then M <= n * p < M + p else n * p <= M < n * p + p
  | upward => if neg then n * p <= M < n * p + p else M <= n * p < M + p
  end.

Lemma roundedTo_rounding mode neg M k : rounding mode neg M (10 ^ Z.of_nat k) (roundedTo mode neg M k).
Proof.
  unfold roundedTo, rounding. set (p := 10 ^ Z.of_nat k). assert (0 < p) as Hp by (subst p; lia).
  pose proof (Z.div_mod M p ltac:(lia)) as E. pose proof (Z.mod_pos_bound M p Hp) as B.
  set (m := M / p) in *. set (r := M mod p) in *. clearbody m r.
  assert (M = m * p + r) as -> by lia. clear E.
  destruct mode; cbn [up]; try (destruct neg; cbn; destruct (Z.ltb_spec 0 r); lia).
  fold p. destruct (Z.ltb_spec p (2 * r)) as [H1|H1]; cbn.
  { replace ((m + 1) * p - (m * p + r)) with (p - r) by lia. split; lia. }
  destruct (Z.eqb_spec (2 * r) p) as [H2|H2]; cbn.
  - destruct (Z.odd m) eqn:Eo.
    + replace ((m + 1) * p - (m * p + r)) with (p - r) by lia. split; [lia|]. intros _.
      by rewrite Z.even_add, <- Z.negb_odd, Eo.
    + replace ((m + 0) * p - (m * p + r)) with (- r) by lia. split; [lia|]. intros _.
      by rewrite Z.add_0_r, <- Z.negb_odd, Eo.
  - replace ((m + 0) * p - (m * p + r)) with (- r) by lia. split; lia.
Qed.

(** ** Normalization *)

Lemma scaleUp_spec fuel mn m e m' e' :
  0 < mn -> 0 < m -> mn <= m * 10 ^ Z.of_nat fuel -> scaleUp fuel mn m e = (m', e') ->
  exists j : nat, m' = m * 10 ^ Z.of_nat j /\ e' = e - Z.of_nat j /\
    (mn <= m' \/ e' <= minExponent) /\ (j = 0%nat \/ m' < 10 * mn /\ minExponent <= e').
Proof.
  intros Hmn. revert m e. induction fuel as [|fuel IH]; intros m e Hm Hf; cbn.
  { intros [= <- <-]. exists 0%nat. cbn in *. split_and!; lia. }
  destruct (Z.ltb_spec m mn), (Z.ltb_spec minExponent e); cbn;
    try (intros [= <- <-]; exists 0%nat; cbn; split_and!; lia).
  rewrite Nat2Z.inj_succ, Z.pow_succ_r in Hf by lia.
  intros (j & Hj & He & H1 & H2)%IH; [|lia..]. exists (S j).
  rewrite Nat2Z.inj_succ, Z.pow_succ_r by lia. split_and!; [lia..|].
  right. destruct H2 as [->|H2]; [cbn in *; lia|done].
Qed.

Lemma scaleDown_spec fuel mn M e0 neg m e g k :
  0 < mn -> cut M e0 neg m e g k -> m < 10 * mn * 10 ^ Z.of_nat fuel ->
  match scaleDown fuel (10 * mn - 1) m e g with
  | None => (val (10 * mn - 1) maxExponent < val M e0)%Q
  | Some (m', e', g') => exists j, cut M e0 neg m' e' g' (k + j)%nat /\ m' < 10 * mn /\
      (j = 0%nat /\ m' = m /\ e' = e \/
       mn <= m' /\ e < e' <= maxExponent /\ 10 * mn - 1 < M / 10 ^ (Z.of_nat (k + j) - 1))
  end.
Proof.
  intros Hmn. revert m e g k. induction fuel as [|fuel IH]; intros m e g k C Hf; cbn [scaleDown].
  { exists 0%nat. rewrite Nat.add_0_r. cbn in Hf. split_and!; [done|lia|by left]. }
  destruct (Z.ltb_spec (10 * mn - 1) m) as [Hlt|Hge]; cycle 1.
  { exists 0%nat. rewrite Nat.add_0_r. split_and!; [done|lia|by left]. }
  destruct (Z.leb_spec maxExponent e) as [He|He].
  { eapply Qlt_le_trans; [|by eapply cut_lower]. apply val_lt_exp; lia. }
  rewrite Nat2Z.inj_succ, Z.pow_succ_r in Hf by lia.
  specialize (IH (m / 10) (e + 1) (push (m mod 10) g) (S k) (cut_push _ _ _ _ _ _ _ C)).
  assert (m / 10 < 10 * mn * 10 ^ Z.of_nat fuel) as Hf' by (apply Z.div_lt_upper_bound; lia).
  specialize (IH Hf'). destruct (scaleDown fuel (10 * mn - 1) (m / 10) (e + 1) (push (m mod 10) g)) as [[[m' e'] g']|]; [|done].
  destruct IH as (j & C' & Hm' & Hj). exists (S j). rewrite Nat.add_succ_r, <- Nat.add_succ_l. split_and!; [done..|].
  right. destruct Hj as [(-> & -> & ->)|(? & ? & ?)]; [|split_and!; [lia..|done]].
  split; [apply Z.div_le_lower_bound; lia|]. split; [lia|].
  replace (Z.of_nat (S k + 0) - 1) with (Z.of_nat k) by lia. by rewrite <- (cut_div _ _ _ _ _ _ _ C).
Qed.

(** ** Fitting a rounded mantissa into the range *)

Abbreviation minM scale := (rmin (rangeOf scale)).
Abbreviation maxM scale := (rmax (rangeOf scale)).

(** The largest mantissa that is rounded to. *)
Definition top (scale : mantissa_scale) : Z := Z.min (maxM scale) maxRep.

Lemma range_small : minM small = 10 ^ 15 /\ maxM small = 10 ^ 16 - 1 /\ top small = 10 ^ 16 - 1.
Proof. done. Qed.

Lemma range_large : minM large = 10 ^ 18 /\ maxM large = 10 ^ 19 - 1 /\ top large = maxRep.
Proof. done. Qed.

Lemma maxM_minM scale : maxM scale = 10 * minM scale - 1.
Proof. by destruct scale. Qed.

(** The number of [n] units with exponent [e], before the exponent is checked. *)
Definition fit (scale : mantissa_scale) (neg : bool) (n e : Z) : Number :=
  if top scale <? n then
    match scale with
    | small => mkNumber neg (minM small) (e + 1)
    | large => mkNumber neg 9223372036854775800 e
    end
  else if n <? minM scale then mkNumber neg (n * 10) (e - 1)
  else mkNumber neg n e.

Definition checked (location : string) (y : Number) : outcome Number :=
  if exponent_ y <? minExponent then Ret zero
  else if maxExponent <? exponent_ y then Throw location
  else Ret y.

(** The mantissas that can be rounded: at most one digit short of the range. *)
Definition roundable (scale : mantissa_scale) (m : Z) : Prop :=
  match scale with
  | small => 10 ^ 15 <= m < 10 ^ 16
  | large => 922337203685477580 <= m <= maxRep
  end.

Lemma checked_zero location neg m e :
  checked location (mkNumber neg m e) =
  (let y := if e <? minExponent then zero else mkNumber neg m e in
   if maxExponent <? exponent_ y then Throw location else Ret y).
Proof. unfold checked. cbn. by destruct (e <? minExponent). Qed.

Lemma doRoundUp_fit mode g scale neg m e location :
  roundable scale m ->
  doRoundUp mode g (mkNumber neg m e) (minM scale) (maxM scale) location =
  checked location (fit scale neg (m + if roundsUp mode g m then 1 else 0) e).
Proof.
  intros Hm. unfold doRoundUp, bringIntoRange, fit, checked. cbn [mantissa_ negative_ exponent_].
  destruct scale; cbn [roundable] in Hm.
  - destruct range_small as (-> & -> & ->). unfold maxRep.
    destruct (roundsUp mode g m); cbn [mantissa_ negative_ exponent_].
    + destruct (Z.ltb_spec (10 ^ 16 - 1) (m + 1)); cbn [orb mantissa_ negative_ exponent_].
      * assert (m + 1 = 10 * 10 ^ 15) as E by lia. rewrite E. change (10 * 10 ^ 15 / 10) with (10 ^ 15).
        rewrite Z.ltb_irrefl. cbn [mantissa_ negative_ exponent_]. by destruct (e + 1 <? minExponent).
      * rewrite (proj2 (Z.ltb_ge 9223372036854775807 _)) by lia. cbn [mantissa_ negative_ exponent_].
        rewrite !(proj2 (Z.ltb_ge (m + 1) _)) by lia. cbn [mantissa_ negative_ exponent_]. by destruct (e <? minExponent).
    + rewrite Z.add_0_r, (proj2 (Z.ltb_ge (10 ^ 16 - 1) m)), (proj2 (Z.ltb_ge m (10 ^ 15))) by lia.
      cbn [mantissa_ negative_ exponent_]. by destruct (e <? minExponent).
  - destruct range_large as (-> & -> & ->). unfold maxRep in *.
    destruct (roundsUp mode g m); cbn [mantissa_ negative_ exponent_].
    + rewrite (proj2 (Z.ltb_ge (10 ^ 19 - 1) _)) by lia. cbn [orb].
      destruct (Z.ltb_spec 9223372036854775807 (m + 1)); cbn [mantissa_ negative_ exponent_].
      * assert (m + 1 = 9223372036854775808) as E by lia. rewrite E.
        change (9223372036854775808 / 10) with 922337203685477580. cbn [mantissa_ negative_ exponent_].
        change (922337203685477580 <? 10 ^ 18) with true. cbn [mantissa_ negative_ exponent_].
        change (922337203685477580 * 10) with 9223372036854775800. replace (e + 1 - 1) with e by lia. by destruct (e <? minExponent).
      * destruct (m + 1 <? 10 ^ 18); cbn [mantissa_ negative_ exponent_]; by destruct (_ <? minExponent).
    + rewrite Z.add_0_r, (proj2 (Z.ltb_ge 9223372036854775807 _)) by lia.
      destruct (m <? 10 ^ 18); cbn [mantissa_ negative_ exponent_]; by destruct (_ <? minExponent).
Qed.

(** ** What rounding promises *)

(** [M] with [k] digits rounded off, no more than are needed to fit, is [n]. *)
Definition roundsTo (scale : mantissa_scale) (mode : rounding_mode) (neg : bool) (M : Z) (k : nat) (n : Z) : Prop :=
  rounding mode neg M (10 ^ Z.of_nat k) n /\
  (k = 0%nat \/ top scale < M / 10 ^ (Z.of_nat k - 1)) /\ M / 10 ^ Z.of_nat k <= top scale.

(** [y] is normal and is [M * 10^e0] rounded. *)
Definition rounded (scale : mantissa_scale) (mode : rounding_mode) (neg : bool) (M e0 : Z) (y : Number) : Prop :=
  isnormal scale y = true /\ negative_ y = neg /\ exists (k : nat) (n : Z),
    roundsTo scale mode neg M k n /\ (val (mantissa_ y) (exponent_ y) == val n (e0 + Z.of_nat k))%Q.

(** The result of a rounded operation of exact magnitude [M * 10^e0]: it throws
    only above the largest number, and is zero only below the smallest. *)
Definition result (scale : mantissa_scale) (mode : rounding_mode) (neg : bool) (M e0 : Z) (r : outcome Number) : Prop :=
  match r with
  | Throw _ => (val (top scale) maxExponent < val M e0)%Q
  | Ret y => y = zero /\ (val M e0 < val (minM scale) minExponent)%Q \/ rounded scale mode neg M e0 y
  end.

(** [M] is rounded up to [maxRep + 1], which has as many digits as [maxRep] but
    does not fit. *)
Definition roundsToLimit (scale : mantissa_scale) (mode : rounding_mode) (neg : bool) (M : Z) : Prop :=
  scale = large /\ exists k : nat, roundsTo scale mode neg M k (maxRep + 1).

(** The result in this case: the last digit, an 8, is lost. *)
Definition limitResult (scale : mantissa_scale) (mode : rounding_mode) (neg : bool) (M e0 : Z) (r : outcome Number) : Prop :=
  match r with
  | Throw _ => (val (top scale) maxExponent < val M e0)%Q
  | Ret y => y = zero /\ (val M e0 < val (minM scale) minExponent)%Q \/
      exists k : nat, roundsTo scale mode neg M k (maxRep + 1) /\ y = mkNumber neg (maxRep + 1 - 8) (e0 + Z.of_nat k)
  end.

(** Both cases in one: what the code makes of a rounded mantissa. *)
Definition fitted (scale : mantissa_scale) (mode : rounding_mode) (neg : bool) (M e0 : Z) (y : Number) : Prop :=
  isnormal scale y = true /\ negative_ y = neg /\ exists (k : nat) (n : Z),
    rounding mode neg M (10 ^ Z.of_nat k) n /\
    (k = 0%nat \/ top scale < M / 10 ^ (Z.of_nat k - 1)) /\ M / 10 ^ Z.of_nat k <= top scale /\
    if decide (scale = large /\ n = maxRep + 1)
    then mantissa_ y = 9223372036854775800 /\ exponent_ y = e0 + Z.of_nat k
    else (val (mantissa_ y) (exponent_ y) == val n (e0 + Z.of_nat k))%Q.

Definition fitResult (scale : mantissa_scale) (mode : rounding_mode) (neg : bool) (M e0 : Z) (r : outcome Number) : Prop :=
  match r with
  | Throw _ => (val (top scale) maxExponent < val M e0)%Q
  | Ret y => y = zero /\ (val M e0 < val (minM scale) minExponent)%Q \/ fitted scale mode neg M e0 y
  end.

Lemma fitted_small mode neg M e0 y : fitted small mode neg M e0 y -> rounded small mode neg M e0 y.
Proof.
  intros (Hn & Hs & k & n & Hr & Hk & Ht & Hv). split_and!; [done..|]. exists k, n. split; [done|].
  rewrite decide_False in Hv; [done|]. by intros [? _].
Qed.

(** A number is rounded to one mantissa. *)
Lemma rounding_unique mode neg M p n n' : 0 < p -> rounding mode neg M p n -> rounding mode neg M p n' -> n = n'.
Proof.
  intros Hp. assert (forall a b, a * p < b * p + p -> b * p < a * p + p -> a = b) as Hnear.
  { intros a b H1 H2. assert (a < b + 1) by (apply (Z.mul_lt_mono_pos_r p); lia).
    assert (b < a + 1) by (apply (Z.mul_lt_mono_pos_r p); lia). lia. }
  unfold rounding. destruct mode; [|intros ? ?; apply Hnear; lia|destruct neg; intros ? ?; apply Hnear; lia..].
  intros [H1 E1] [H2 E2]. destruct (decide (n = n')) as [|Hne]; [done|].
  assert (n * p < n' * p + p \/ n * p = n' * p + p) as Ha by lia.
  assert (n' * p < n * p + p \/ n' * p = n * p + p) as Hb by lia.
  destruct Ha as [Ha|Ha], Hb as [Hb|Hb]; [by apply Hnear| | |lia].
  - assert (n' = n + 1) as -> by (apply (Z.mul_reg_r _ _ p); lia).
    specialize (E1 ltac:(lia)). specialize (E2 ltac:(lia)). rewrite Z.even_add, E1 in E2. done.
  - assert (n = n' + 1) as -> by (apply (Z.mul_reg_r _ _ p); lia).
    specialize (E1 ltac:(lia)). specialize (E2 ltac:(lia)). rewrite Z.even_add, E2 in E1. done.
Qed.

Lemma roundsTo_unique scale mode neg M k n k' n' :
  0 <= M -> roundsTo scale mode neg M k n -> roundsTo scale mode neg M k' n' -> k = k' /\ n = n'.
Proof.
  intros HM. assert (forall k k' n n', roundsTo scale mode neg M k n -> roundsTo scale mode neg M k' n' -> (k' <= k)%nat) as Hle.
  { clear - HM. intros k k' n n' (_ & _ & H1) (_ & H2 & _). destruct (decide (k' <= k)%nat) as [|Hlt]; [done|].
    destruct H2 as [->|H2]; [lia|]. assert (M / 10 ^ (Z.of_nat k' - 1) <= M / 10 ^ Z.of_nat k); [|lia].
    apply Z.div_le_compat_l; [done|]. split; [apply Z.pow_pos_nonneg; lia|apply Z.pow_le_mono_r; lia]. }
  intros H1 H2. assert (k = k') as -> by (apply (Nat.le_antisymm k k'); by eapply Hle). split; [done|].
  eapply rounding_unique; [|apply H1|apply H2]. apply Z.pow_pos_nonneg; lia.
Qed.

Lemma fitResult_cases scale mode neg M e0 r :
  0 <= M -> fitResult scale mode neg M e0 r ->
  (~ roundsToLimit scale mode neg M -> result scale mode neg M e0 r) /\
  (roundsToLimit scale mode neg M -> limitResult scale mode neg M e0 r).
Proof.
  intros HM Hr. destruct r as [w|y]; cbn in Hr |- *; [done|].
  destruct Hr as [Hr|(Hn & Hs & k & n & H1 & H2 & H3 & Hv)]; [by split; intros _; left|].
  assert (roundsTo scale mode neg M k n) as Hto by done. split; intros Hlim; right.
  - split_and!; [done..|]. exists k, n. split; [done|]. rewrite decide_False in Hv; [done|].
    intros [Es ->]. apply Hlim. split; [done|]. by exists k.
  - destruct Hlim as [-> [k' Hk']]. destruct (roundsTo_unique _ _ _ _ _ _ _ _ HM Hto Hk') as [<- ->].
    rewrite decide_True in Hv by done. destruct Hv as [Em Ee]. exists k. split; [done|].
    destruct y as [s m e]. cbn in *. by subst.
Qed.

Lemma up_positive mode neg odd k r : 0 <= r -> up mode neg odd k r = true -> 0 < r.
Proof.
  intros Hr. pose proof (Z.pow_pos_nonneg 10 (Z.of_nat k)). unfold up. destruct mode; [|done|..]; intros Hup; b2p; [|lia..].
  destruct Hup as [Hup|Hup]; b2p; lia.
Qed.

Lemma top_small : top small = 9999999999999999.
Proof. done. Qed.

Lemma top_large : top large = 9223372036854775807.
Proof. done. Qed.

Lemma roundable_top scale m : roundable scale m -> 0 < m <= top scale.
Proof. destruct scale; cbn; [rewrite top_small|rewrite top_large; unfold maxRep]; lia. Qed.

(** The exact mantissas survive [fit]. *)
Lemma fit_val scale neg n e :
  n <= top scale \/ scale = small /\ n = top small + 1 ->
  (val (mantissa_ (fit scale neg n e)) (exponent_ (fit scale neg n e)) == val n e)%Q.
Proof.
  intros Hn. unfold fit. destruct (Z.ltb_spec (top scale) n) as [Ht|Ht].
  - destruct Hn as [?|[-> ->]]; [lia|]. cbn [mantissa_ exponent_]. symmetry.
    change (top small + 1) with (minM small * 10 ^ 1). by apply val_shift'.
  - destruct (Z.ltb_spec n (minM scale)); cbn [mantissa_ exponent_]; [|done].
    change (n * 10) with (n * 10 ^ 1). apply val_shift'; lia.
Qed.

Lemma fit_normal scale neg m b e :
  roundable scale m -> b = 0 \/ b = 1 ->
  let y := fit scale neg (m + b) e in
  minExponent <= exponent_ y <= maxExponent -> isnormal scale y = true.
Proof.
  intros Hm Hb. cbn zeta. unfold isnormal. destruct scale; unfold fit; cbn [roundable] in Hm.
  - destruct range_small as (-> & -> & ->). unfold maxRep. destruct (Z.ltb_spec (10 ^ 16 - 1) (m + b)).
    2: rewrite (proj2 (Z.ltb_ge (m + b) _)) by lia.
    all: cbn [mantissa_ exponent_]; intros He; apply orb_true_iff; right; rewrite !andb_true_iff, !orb_true_iff, !Z.leb_le; lia.
  - destruct range_large as (-> & -> & ->). unfold maxRep in *. destruct (Z.ltb_spec 9223372036854775807 (m + b)).
    2: destruct (Z.ltb_spec (m + b) (10 ^ 18)).
    all: cbn [mantissa_ exponent_]; intros He; apply orb_true_iff; right;
      rewrite !andb_true_iff, !orb_true_iff, !Z.leb_le, Z.eqb_eq; split_and!; try lia.
    right. by rewrite Z.mod_mul.
Qed.

Section Rounding.
Context (mode : rounding_mode) (scale : mantissa_scale) (neg : bool) (M e0 m e : Z) (g : Guard) (k : nat).
Context (C : cut M e0 neg m e g k) (Hm : roundable scale m).

Local Abbreviation b := (if roundsUp mode g m then 1 else 0).
Local Abbreviation y := (fit scale neg (m + b) e).

Lemma round_underflow : exponent_ y < minExponent -> (val M e0 < val (minM scale) minExponent)%Q.
Proof using C Hm.
  intros He. eapply Qlt_le_trans; [by eapply cut_upper|]. pose proof (roundable_top _ _ Hm) as Ht.
  assert (top scale + 1 <= minM scale * 10 ^ 1) as Htop by by destruct scale.
  assert (e < minExponent \/ e <= minExponent /\ m < minM scale) as [Hlt|[Hle Hlt]].
  { unfold fit in He. destruct (Z.ltb_spec (top scale) (m + b)); [left; destruct scale; cbn in He; lia|].
    destruct (Z.ltb_spec (m + b) (minM scale)); cbn in He; [right; destruct (roundsUp mode g m); lia|by left]. }
  - rewrite <- (val_shift' (minM scale) (minExponent - 1) minExponent 1) by lia.
    eapply Qle_trans; [apply (val_mono_exp _ _ (minExponent - 1)); lia|apply val_le; lia].
  - eapply Qle_trans; [apply (val_mono_exp _ _ minExponent); lia|apply val_le; lia].
Qed.

Lemma round_overflow : maxExponent < exponent_ y -> (val (top scale) maxExponent < val M e0)%Q.
Proof using C Hm.
  intros He. pose proof (roundable_top _ _ Hm) as Ht.
  assert (top scale < m + b -> maxExponent <= e -> (val (top scale) maxExponent < val M e0)%Q) as Hup.
  { intros Hn Hexp. assert (m = top scale /\ roundsUp mode g m = true) as [Em Er].
    { destruct (roundsUp mode g m); split; try done; lia. }
    eapply Qle_lt_trans; [apply (val_mono_exp _ _ e); lia|]. destruct C as [T -> _]. rewrite <- Em, <- val_shift by lia.
    apply val_lt. rewrite (roundsUp_spec _ _ _ _ _ T) in Er. pose proof (tr_rem _ _ _ T).
    apply up_positive in Er; lia. }
  assert (forall j, 0 <= j -> maxExponent + j <= e -> top scale < m * 10 ^ j -> (val (top scale) maxExponent < val M e0)%Q) as Hbig.
  { intros j Hj Hexp Hlt. eapply Qlt_le_trans; [|by eapply cut_lower].
    eapply Qlt_le_trans; [|apply (val_mono_exp m (maxExponent + j)); lia]. rewrite <- val_shift by done. by apply val_lt. }
  unfold fit in He. destruct (Z.ltb_spec (top scale) (m + b)) as [Hn|Hn]; [apply Hup; destruct scale; cbn in He; lia|].
  destruct (Z.ltb_spec (m + b) (minM scale)) as [Hs|Hs]; cbn in He; destruct scale; cbn [roundable] in Hm.
  - destruct (roundsUp mode g m); destruct range_small as (E & _ & _); lia.
  - apply (Hbig 2); rewrite ?top_large; lia.
  - apply (Hbig 1); rewrite ?top_small; lia.
  - apply (Hbig 1); [lia..|]. rewrite top_large. destruct range_large as (E & _ & _). destruct (roundsUp mode g m); lia.
Qed.

Lemma round_result location :
  k = 0%nat \/ top scale < M / 10 ^ (Z.of_nat k - 1) ->
  fitResult scale mode neg M e0 (doRoundUp mode g (mkNumber neg m e) (minM scale) (maxM scale) location).
Proof using C Hm.
  intros Hk. rewrite doRoundUp_fit by done. unfold checked.
  destruct (Z.ltb_spec (exponent_ y) minExponent) as [Hlo|Hlo]; [left; split; [done|by apply round_underflow]|].
  destruct (Z.ltb_spec maxExponent (exponent_ y)) as [Hhi|Hhi]; [by apply round_overflow|]. right.
  split; [apply fit_normal; [done|destruct (roundsUp mode g m); auto|done]|].
  split; [unfold fit; destruct (_ <? _); [by destruct scale|by destruct (_ <? _)]|].
  exists k, (m + b). pose proof (roundable_top _ _ Hm) as Ht. pose proof (cut_exp _ _ _ _ _ _ _ C) as Ee.
  split; [rewrite <- (cut_rounded mode _ _ _ _ _ _ _ C); apply roundedTo_rounding|]. split; [done|].
  split; [rewrite <- (cut_div _ _ _ _ _ _ _ C); lia|]. rewrite <- Ee. case_decide as Hd.
  - destruct Hd as [Es En]. unfold fit. rewrite En, Es. rewrite (proj2 (Z.ltb_lt _ _)) by (rewrite top_large; unfold maxRep; lia). done.
  - apply fit_val. destruct scale; [|left]; unfold maxRep in *.
    + destruct (decide (m + b <= top small)); [by left|right]. split; [done|]. destruct (roundsUp mode g m); lia.
    + rewrite top_large in *. destruct (roundsUp mode g m); [|lia]. assert (m + 1 <> 9223372036854775808) by tauto. lia.
Qed.

End Rounding.

(** ** Normalization and multiplication round as the mode says

    [doNormalize] and [operator*=] answer the exact value rounded once: see
    [fitResult] of NumberFacts.  Also here: the division by ten of [divu10]. *)

(** ** Normalization *)

Lemma minM_pos scale : 0 < minM scale.
Proof. by destruct scale. Qed.

Lemma minM_le scale : minM scale <= 10 ^ 18.
Proof. destruct scale; vm_compute; discriminate. Qed.

Lemma top_maxM scale : top scale <= maxM scale.
Proof. unfold top. lia. Qed.

(** A mantissa in the range is below the smallest number if its exponent is. *)
Lemma val_below scale m e :
  0 <= m <= maxM scale -> e < minExponent -> (val (m + 1) e <= val (minM scale) minExponent)%Q.
Proof.
  intros Hm He. rewrite <- (val_shift' (minM scale) (minExponent - 1) minExponent 1) by lia.
  pose proof (maxM_minM scale). eapply Qle_trans; [apply (val_mono_exp _ _ (minExponent - 1)); lia|apply val_le; lia].
Qed.

(** The part of [doNormalize] after the digits fit. *)
Lemma normalize_tail mode scale neg M e0 m e g k :
  cut M e0 neg m e g k -> minM scale <= m <= maxM scale ->
  k = 0%nat \/ maxM scale < M / 10 ^ (Z.of_nat k - 1) ->
  fitResult scale mode neg M e0
    ((if maxRep <? m then
        if maxExponent <=? e then Throw "Number::normalize 1.5"
        else Ret (m / 10, e + 1, push (m mod 10) g)
      else Ret (m, e, g)) ≫= fun '(m, e, g) =>
     doRoundUp mode g (mkNumber neg m e) (minM scale) (maxM scale) "Number::normalize 2").
Proof.
  intros C Hm Hk. pose proof (top_maxM scale). destruct (Z.ltb_spec maxRep m) as [Hr|Hr]; cycle 1.
  { apply (round_result _ _ _ _ _ _ _ _ _ C); [|destruct Hk; [by left|right; lia]].
    destruct scale; cbn; [destruct range_small as (E1 & E2 & _)|destruct range_large as (E1 & E2 & _)]; lia. }
  assert (scale = large) as ->.
  { destruct scale; [|done]. destruct range_small as (_ & E & _). unfold maxRep in *. lia. }
  destruct (Z.leb_spec maxExponent e) as [He|He].
  - cbn. eapply Qlt_le_trans; [|by eapply cut_lower]. apply val_lt_exp; [done| |unfold maxRep in *; lia].
    rewrite top_large. unfold maxRep in *. lia.
  - unfold mbind, outcome_bind. apply (round_result _ _ _ _ _ _ _ _ _ (cut_push _ _ _ _ _ _ _ C)).
    + destruct range_large as (E1 & E2 & _). unfold maxRep in *. cbn. unfold maxRep.
      split; [apply Z.div_le_lower_bound; lia|]. apply Z.lt_succ_r, Z.div_lt_upper_bound; lia.
    + right. replace (Z.of_nat (S k) - 1) with (Z.of_nat k) by lia. rewrite <- (cut_div _ _ _ _ _ _ _ C), top_large.
      unfold maxRep in *. lia.
Qed.

Lemma rounding_exact mode neg q p n : 0 < p -> rounding mode neg (q * p) p n -> n = q.
Proof. intros Hp. unfold rounding. destruct mode; [|try destruct neg..]; nia. Qed.

Lemma rounding_refl mode neg q : rounding mode neg q 1 q.
Proof. unfold rounding. destruct mode; [|try destruct neg..]; lia. Qed.

Lemma top_large_bound scale n : n <= top scale -> ~ (scale = large /\ n = maxRep + 1).
Proof. intros H [-> ->]. rewrite top_large in H. unfold maxRep in H. lia. Qed.

Lemma minM_top scale : minM scale <= top scale.
Proof. by destruct scale. Qed.

(** Zeros at the end of the mantissa do not count. *)
Lemma rounding_scale mode neg M p n c : 0 < c -> rounding mode neg (M * c) (p * c) n -> rounding mode neg M p n.
Proof.
  intros Hc. unfold rounding. destruct mode; [|destruct neg; nia..].
  replace (n * (p * c) - M * c) with ((n * p - M) * c) by lia. rewrite Z.abs_mul, (Z.abs_eq c) by lia.
  intros [H1 H2]. split; [nia|]. intros E. apply H2. nia.
Qed.

Lemma result_scaled mode scale neg M e0 (j : nat) r :
  0 <= M -> fitResult scale mode neg (M * 10 ^ Z.of_nat j) (e0 - Z.of_nat j) r -> fitResult scale mode neg M e0 r.
Proof.
  assert (forall j : nat, (val (M * 10 ^ Z.of_nat j) (e0 - Z.of_nat j) == val M e0)%Q) as Hv
    by (intros i; apply val_shift'; lia).
  intros HM. unfold fitResult. destruct r as [w|y]; rewrite Hv; [done|].
  intros [?|(Hn & Hs & k & n & Hr & Hk & Htop & Hval)]; [by left|right]. split_and!; [done..|].
  assert (forall i i', i = i' + Z.of_nat j -> 0 <= i' -> M * 10 ^ Z.of_nat j / 10 ^ i = M / 10 ^ i') as Hdiv.
  { intros i i' -> Hi. rewrite Z.pow_add_r by lia. apply Z.div_mul_cancel_r; lia. }
  destruct (Nat.le_gt_cases j k) as [Hjk|Hjk].
  - exists (k - j)%nat, n. assert (Z.of_nat (k - j) = Z.of_nat k - Z.of_nat j) as Ek by lia. rewrite Ek. split_and!.
    + apply (rounding_scale _ _ _ _ _ (10 ^ Z.of_nat j)); [lia|]. rewrite <- Z.pow_add_r by lia. by rewrite Z.sub_add.
    + destruct (decide (k = j)) as [->|]; [left; lia|right]. destruct Hk as [->|Hk]; [lia|].
      rewrite (Hdiv _ (Z.of_nat k - Z.of_nat j - 1)) in Hk by lia. done.
    + rewrite (Hdiv _ (Z.of_nat k - Z.of_nat j)) in Htop by lia. done.
    + destruct (decide _); [lia|]. by replace (e0 + (Z.of_nat k - Z.of_nat j)) with (e0 - Z.of_nat j + Z.of_nat k) by lia.
  - assert (M * 10 ^ Z.of_nat j = M * 10 ^ (Z.of_nat j - Z.of_nat k) * 10 ^ Z.of_nat k) as E.
    { rewrite <- Z.mul_assoc, <- Z.pow_add_r by lia. do 2 f_equal. lia. }
    rewrite E in Hr, Htop. apply rounding_exact in Hr; [|lia]. rewrite Z.div_mul in Htop by (apply Z.pow_nonzero; lia).
    rewrite decide_False in Hval by (apply top_large_bound; lia). exists 0%nat, M. split; [apply rounding_refl|]. split; [by left|].
    assert (M <= top scale) as HMtop by (assert (1 <= 10 ^ (Z.of_nat j - Z.of_nat k)) by lia; nia).
    split; [by rewrite Z.div_1_r|]. rewrite decide_False by (by apply top_large_bound).
    rewrite Hval, Hr. apply val_shift'; lia.
Qed.

Lemma normalize_result mode scale x :
  0 < mantissa_ x < 2 ^ 128 ->
  fitResult scale mode (negative_ x) (mantissa_ x) (exponent_ x) (normalize mode scale x).
Proof.
  destruct x as [neg M e0]; cbn [negative_ mantissa_ exponent_]. intros HM. unfold normalize, doNormalize.
  cbn [negative_ mantissa_ exponent_]. rewrite (proj2 (Z.eqb_neq _ _)) by lia.
  pose proof (minM_pos scale) as Hmn. pose proof (maxM_minM scale) as Hmx.
  pose proof (minM_le scale) as Hmn18.
  destruct (scaleUp digitFuel (minM scale) M e0) as [m1 e1] eqn:E1.
  apply scaleUp_spec in E1 as (j & -> & -> & Hup & Hj); [|lia|lia|change (Z.of_nat digitFuel) with 40; lia].
  apply (result_scaled _ _ _ _ _ j); [lia|].
  set (M1 := M * 10 ^ Z.of_nat j) in *. set (e1 := e0 - Z.of_nat j) in *.
  assert (M1 < 10 * minM scale * 10 ^ Z.of_nat digitFuel) as Hf.
  { subst M1. destruct Hj as [->|[]]; [|nia]. change (Z.of_nat digitFuel) with 40. rewrite Z.mul_1_r. nia. }
  assert (0 < M1) as HM1 by (subst M1; assert (1 <= 10 ^ Z.of_nat j) by lia; nia).
  pose proof (scaleDown_spec _ _ _ _ _ _ _ _ _ Hmn (cut_new M1 e1 neg) Hf) as Hd. rewrite <- Hmx in Hd.
  destruct (scaleDown _ _ _ _ _) as [[[m e] g]|]; cycle 1.
  { eapply Qle_lt_trans; [|exact Hd]. apply val_le, top_maxM. }
  destruct Hd as (k & C & Hm & Hk). cbn [Nat.add] in C, Hk.
  destruct (Z.ltb_spec e minExponent) as [He|He]; cbn [orb].
  - left. split; [done|]. eapply Qlt_le_trans; [by eapply cut_upper|]. apply val_below; [|done].
    destruct Hk as [(_ & -> & _)|[? _]]; lia.
  - destruct (Z.ltb_spec m (minM scale)) as [Hlo|Hlo].
    + left. split; [done|]. destruct Hk as [(-> & -> & ->)|[? _]]; [|lia].
      eapply Qlt_le_trans; [apply (val_lt _ _ _ Hlo)|]. apply val_mono_exp; lia.
    + apply (normalize_tail _ _ _ _ _ _ _ _ _ C); [lia|]. destruct Hk as [(-> & _)|(_ & _ & ?)]; [by left|by right].
Qed.

(** ** Division by ten *)

(** One step of the iteration towards [4/5 u]. *)
Lemma divu10_step q k b :
  0 <= k -> 0 <= q -> q * (2 ^ k + 1) < b * 2 ^ k -> b <= 2 ^ 128 ->
  let q' := u128 (q + Z.shiftr q k) in
  q' = q + q / 2 ^ k /\ 2 ^ k * q' <= (2 ^ k + 1) * q /\ (2 ^ k + 1) * q < 2 ^ k * q' + 2 ^ k.
Proof.
  intros Hk Hq Hb Hb128. cbn zeta. rewrite Z.shiftr_div_pow2 by done.
  assert (0 < 2 ^ k) as Hp by lia. pose proof (Z.div_mod q (2 ^ k) ltac:(lia)) as E.
  pose proof (Z.mod_pos_bound q (2 ^ k) Hp). pose proof (Z.div_pos q (2 ^ k) Hq Hp).
  assert (q + q / 2 ^ k < b) by nia. unfold u128. rewrite Z.mod_small by lia. split; [done|]. nia.
Qed.

Lemma divu10_spec u : 0 <= u < 2 ^ 128 -> divu10 u = (u mod 10, u / 10).
Proof.
  intros Hu. unfold divu10.
  assert (exists q0, q0 = u128 (Z.shiftr u 1 + Z.shiftr u 2) /\ 4 * q0 <= 3 * u /\ 3 * u <= 4 * q0 + 5 /\ 0 <= q0)
    as (q0 & <- & Hq0).
  { eexists. split; [done|]. rewrite !Z.shiftr_div_pow2 by lia. change (2 ^ 1) with 2. change (2 ^ 2) with 4.
    unfold u128. rewrite Z.mod_small; Z.to_euclidean_division_equations; lia. }
  destruct (divu10_step q0 4 (2 ^ 128)) as (E1 & B1); [lia..|]. cbn zeta in *. set (q1 := u128 _) in *. clearbody q1.
  destruct (divu10_step q1 8 (2 ^ 128)) as (E2 & B2); [lia..|]. cbn zeta in *. set (q2 := u128 _) in *. clearbody q2.
  destruct (divu10_step q2 16 (2 ^ 128)) as (E3 & B3); [lia..|]. cbn zeta in *. set (q3 := u128 _) in *. clearbody q3.
  destruct (divu10_step q3 32 (2 ^ 128)) as (E4 & B4); [lia..|]. cbn zeta in *. set (q4 := u128 _) in *. clearbody q4.
  destruct (divu10_step q4 64 (2 ^ 128)) as (E5 & B5); [lia..|]. cbn zeta in *. set (q5 := u128 _) in *. clearbody q5.
  assert (0 <= q5 /\ 5 * q5 <= 4 * u /\ 4 * u <= 5 * q5 + 40) as Hq5 by lia.
  clear E1 B1 E2 B2 E3 B3 E4 B4 E5 B5 Hq0 q0 q1 q2 q3 q4.
  rewrite Z.shiftr_div_pow2 by lia. change (2 ^ 3) with 8.
  set (q := q5 / 8). assert (0 <= q /\ 10 * q <= u < 10 * q + 20) as Hq by (subst q; Z.to_euclidean_division_equations; lia).
  clearbody q. rewrite !Z.shiftl_mul_pow2 by lia. change (2 ^ 3) with 8. change (2 ^ 1) with 2.
  unfold u128. rewrite !(Z.mod_small (q * _)) by lia.
  replace (u - (q * 8 + q * 2)) with (u - 10 * q) by lia. rewrite (u32_id (u - 10 * q)), (u32_id (_ + 6)) by lia.
  rewrite Z.shiftr_div_pow2 by lia. change (2 ^ 4) with 16.
  destruct (Z.lt_ge_cases (u - 10 * q) 10) as [H|H].
  - rewrite (Z.div_small (_ + 6)) by lia. rewrite (u32_id (0 * 10)), u32_id, Z.mod_small by lia.
    f_equal; [apply Z.mod_unique with q|apply Z.div_unique with (u - 10 * q)]; lia.
  - assert ((u - 10 * q + 6) / 16 = 1) as -> by (symmetry; apply Z.div_unique with (u - 10 * q - 10); lia).
    rewrite (u32_id (1 * 10)), u32_id, Z.mod_small by lia.
    f_equal; [apply Z.mod_unique with (q + 1)|apply Z.div_unique with (u - 10 * q - 10)]; lia.
Qed.

(** ** Normal numbers *)

Lemma isnormal_cases scale y :
  isnormal scale y = true ->
  y = zero \/ minM scale <= mantissa_ y <= maxM scale /\ (mantissa_ y <= maxRep \/ mantissa_ y mod 10 = 0) /\
    minExponent <= exponent_ y <= maxExponent.
Proof.
  unfold isnormal, num_eqb. rewrite orb_true_iff, bool_decide_eq_true, !andb_true_iff, orb_true_iff, !Z.leb_le, Z.eqb_eq.
  naive_solver.
Qed.

Lemma no_roundsUp mode g m : digits_ g = 0 -> xbit_ g = false -> roundsUp mode g m = false.
Proof. intros Hd Hx. unfold roundsUp, round. rewrite Hd, Hx. destruct mode; cbn; [done|done|by rewrite andb_false_r|by destruct (sbit_ g)]. Qed.

Lemma scaleUp_stop fuel mn m e : mn <= m -> scaleUp fuel mn m e = (m, e).
Proof. intros H. destruct fuel; [done|]. cbn [scaleUp]. by rewrite (proj2 (Z.ltb_ge _ _)). Qed.

Lemma scaleDown_stop fuel mx m e g : m <= mx -> scaleDown fuel mx m e g = Some (m, e, g).
Proof. intros H. destruct fuel; [done|]. cbn [scaleDown]. by rewrite (proj2 (Z.ltb_ge _ _)). Qed.

(** A normal number stays as it is, or has a mantissa that does not fit 63 bits
    together with the largest exponent. *)
Lemma normalize_normal mode scale y :
  isnormal scale y = true ->
  normalize mode scale y = Ret y \/
  maxRep < mantissa_ y /\ exponent_ y = maxExponent /\ exists w, normalize mode scale y = Throw w.
Proof.
  intros [->|(Hm & Hr & He)]%isnormal_cases; [by left|]. destruct y as [neg m e]; cbn [mantissa_ exponent_] in *.
  pose proof (minM_pos scale). unfold normalize, doNormalize. cbn [negative_ mantissa_ exponent_].
  rewrite (proj2 (Z.eqb_neq _ _)), scaleUp_stop, scaleDown_stop by lia.
  rewrite (proj2 (Z.ltb_ge e minExponent)), (proj2 (Z.ltb_ge m (minM scale))) by lia. cbn [orb].
  set (g := if neg then _ else _). assert (digits_ g = 0 /\ xbit_ g = false) as [Hd Hx] by (subst g; by destruct neg).
  destruct (Z.ltb_spec maxRep m) as [Hlt|Hle].
  - destruct (Z.leb_spec maxExponent e); [right; split_and!; [done|lia|by eexists]|]. left.
    destruct Hr as [?|Hr]; [lia|]. unfold mbind, outcome_bind.
    assert (scale = large) as -> by (destruct scale; [unfold maxRep in *; destruct range_small as (_ & E & _); lia|done]).
    destruct range_large as (E1 & E2 & _). unfold maxRep in *.
    rewrite doRoundUp_fit; cycle 1.
    { cbn. unfold maxRep. split; [apply Z.div_le_lower_bound; lia|]. apply Z.lt_succ_r, Z.div_lt_upper_bound; lia. }
    rewrite no_roundsUp; cycle 1.
    { rewrite Hr, digits_push, Hd by lia. reflexivity. }
    { rewrite xbit_push, Hd, Hx. reflexivity. }
    rewrite Z.add_0_r. unfold fit, checked. rewrite top_large, E1.
    assert (m / 10 < 10 ^ 18) by (apply Z.div_lt_upper_bound; lia).
    rewrite (proj2 (Z.ltb_ge _ (m / 10))), (proj2 (Z.ltb_lt (m / 10) _)) by lia. cbn [exponent_].
    rewrite (proj2 (Z.ltb_ge (e + 1 - 1) _)), (proj2 (Z.ltb_ge _ (e + 1 - 1))) by lia.
    do 2 f_equal; [|lia]. pose proof (Z.div_mod m 10). lia.
  - left. unfold mbind, outcome_bind. rewrite doRoundUp_fit; cycle 1.
    { destruct scale; cbn; [destruct range_small as (E1 & E2 & _)|destruct range_large as (E1 & E2 & _)]; lia. }
    rewrite no_roundsUp, Z.add_0_r by done. unfold fit, checked.
    rewrite (proj2 (Z.ltb_ge (top scale) m)), (proj2 (Z.ltb_ge m (minM scale))) by (unfold top; lia). cbn [exponent_].
    by rewrite (proj2 (Z.ltb_ge e _)), (proj2 (Z.ltb_ge _ e)) by lia.
Qed.

(** ** Multiplication *)

Lemma rounding_bounds mode neg M p n : 0 < p -> 0 <= M -> rounding mode neg M p n -> M / p <= n <= M / p + 1.
Proof.
  intros Hp HM. pose proof (Z.div_mod M p ltac:(lia)) as E. pose proof (Z.mod_pos_bound M p Hp).
  unfold rounding. destruct mode; [|try destruct neg..]; nia.
Qed.

(** Normalizing a rounded result again changes nothing, or finds the overflow. *)
Lemma rounded_normalize mode scale neg M e0 y :
  0 <= M -> fitted scale mode neg M e0 y -> fitResult scale mode neg M e0 (normalize mode scale y).
Proof.
  intros HM Hy. pose proof Hy as (Hn & Hs & k & n & Hr & Hk & Htop & Hval).
  destruct (normalize_normal mode scale y Hn) as [->|(Hlt & He & w & ->)]; [by right|]. cbn.
  assert (scale = large) as ->.
  { destruct scale; [|done]. apply isnormal_cases in Hn as [->|(? & _ & _)]; [cbn in He; discriminate He|].
    destruct range_small as (_ & E & _). unfold maxRep in *. lia. }
  rewrite top_large in Htop, Hk |- *. unfold maxRep in *. case_decide as Hd; [destruct Hval; lia|].
  destruct Hk as [->|Hk].
  - assert (n = M) as -> by (eapply (rounding_exact mode neg _ 1); [lia|by rewrite Z.mul_1_r]).
    rewrite Z.add_0_r in Hval. rewrite <- Hval, He. by apply val_lt.
  - apply rounding_bounds in Hr; [|lia|done].
    assert (maxExponent < e0 + Z.of_nat k) as Hexp.
    { destruct (Z.lt_ge_cases maxExponent (e0 + Z.of_nat k)) as [|Hexp]; [done|exfalso].
      assert (n < mantissa_ y) as Hny.
      { assert (n <> 9223372036854775808) by (intros ->; by apply Hd). lia. }
      rewrite He in Hval. assert (val n (e0 + Z.of_nat k) < val (mantissa_ y) maxExponent)%Q as Hlt' by (apply val_lt_exp; lia).
      rewrite Hval in Hlt'. by apply Qlt_irrefl in Hlt'. }
    eapply (Qlt_le_trans _ (val (M / 10 ^ (Z.of_nat k - 1)) (e0 + (Z.of_nat k - 1)))); [apply val_lt_exp; lia|].
    assert (0 <= Z.of_nat k - 1) as Hk0.
    { destruct k; [|lia]. cbn in Hk. rewrite Z.div_0_r in Hk. lia. }
    rewrite <- val_shift by done. apply val_le.
    pose proof (Z.mul_div_le M (10 ^ (Z.of_nat k - 1)) ltac:(lia)). lia.
Qed.

Lemma shrink_spec scale fuel M e0 neg m e g k :
  cut M e0 neg m e g k -> 0 <= m < 2 ^ 128 -> m <= top scale * 10 ^ Z.of_nat fuel ->
  let '(m', e', g') := shrink scale fuel m e g in
  exists j, cut M e0 neg m' e' g' (k + j)%nat /\ m' <= top scale /\
    (j = 0%nat \/ top scale < M / 10 ^ (Z.of_nat (k + j) - 1) /\ (top scale + 1) / 10 <= m').
Proof.
  revert m e g k. induction fuel as [|fuel IH]; intros m e g k C Hm Hf; cbn [shrink].
  { exists 0%nat. rewrite Nat.add_0_r. cbn in Hf. split_and!; [done|lia|by left]. }
  assert ((maxM scale <? m) || (maxRep <? m) = (top scale <? m)) as ->.
  { unfold top. destruct (Z.ltb_spec (maxM scale) m), (Z.ltb_spec maxRep m), (Z.ltb_spec (Z.min (maxM scale) maxRep) m); done || lia. }
  destruct (Z.ltb_spec (top scale) m) as [Ht|Ht]; cycle 1.
  { exists 0%nat. rewrite Nat.add_0_r. split_and!; [done..|by left]. }
  rewrite divu10_spec by lia. rewrite Nat2Z.inj_succ, Z.pow_succ_r in Hf by lia.
  assert (m / 10 <= top scale * 10 ^ Z.of_nat fuel) as Hf' by (apply Z.div_le_upper_bound; lia).
  pose proof (cut_push _ _ _ _ _ _ _ C) as Cp. specialize (IH (m / 10) (e + 1) (push (m mod 10) g) (S k) Cp).
  destruct (shrink scale fuel (m / 10) (e + 1) (push (m mod 10) g)) as [[m' e'] g'].
  destruct IH as (j & C' & Hm' & Hj); [split; [apply Z.div_pos; lia|apply Z.div_lt_upper_bound; lia]|done|].
  exists (S j). rewrite Nat.add_succ_r, <- Nat.add_succ_l. split_and!; [done..|]. right.
  destruct Hj as [->|Hj]; [|done]. replace (Z.of_nat (S k + 0) - 1) with (Z.of_nat k) by lia.
  rewrite <- (cut_div _ _ _ _ _ _ _ C). split; [done|]. rewrite Nat.add_0_r in C'.
  rewrite (cut_div _ _ _ _ _ _ _ C'), <- (cut_div _ _ _ _ _ _ _ Cp). apply Z.div_le_mono; lia.
Qed.

(** The numbers the operations are meant for: normal and not zero. *)
Lemma normal_mantissa scale x :
  isnormal scale x = true -> x <> zero -> minM scale <= mantissa_ x <= maxM scale.
Proof. intros [->|(? & _)]%isnormal_cases; done. Qed.

Lemma roundable_bounds scale m : (top scale + 1) / 10 <= m <= top scale -> roundable scale m.
Proof.
  destruct scale; cbn [roundable]; [rewrite top_small|rewrite top_large; unfold maxRep].
  - change ((9999999999999999 + 1) / 10) with 1000000000000000. lia.
  - change ((9223372036854775807 + 1) / 10) with 922337203685477580. lia.
Qed.

Lemma result_normalize mode scale neg M e0 r :
  0 <= M -> fitResult scale mode neg M e0 r -> fitResult scale mode neg M e0 (r ≫= normalize mode scale).
Proof.
  intros HM. destruct r as [w|y]; [done|]. intros [[-> Hz]|Hy]; [by left|]. by apply rounded_normalize.
Qed.

Lemma top_bounds scale : top scale < minM scale * minM scale /\ top scale < 2 ^ 63.
Proof. by destruct scale; vm_compute. Qed.

Lemma mul_result mode scale x y :
  isnormal scale x = true -> isnormal scale y = true -> x <> zero -> y <> zero ->
  fitResult scale mode (xorb (negative_ x) (negative_ y)) (mantissa_ x * mantissa_ y) (exponent_ x + exponent_ y)
    (mul mode scale x y).
Proof.
  intros Hx Hy Hx0 Hy0. unfold mul, num_eqb. rewrite !bool_decide_eq_false_2 by done.
  pose proof (normal_mantissa _ _ Hx Hx0) as Bx. pose proof (normal_mantissa _ _ Hy Hy0) as By.
  pose proof (minM_pos scale). pose proof (maxM_minM scale). pose proof (minM_le scale).
  set (M := mantissa_ x * mantissa_ y). set (e0 := exponent_ x + exponent_ y). set (neg := xorb _ _).
  assert (minM scale * minM scale <= M < (10 * 10 ^ 18) * (10 * 10 ^ 18)) as HM by (subst M; nia).
  unfold u128. rewrite Z.mod_small by lia.
  pose proof (shrink_spec scale digitFuel _ _ _ _ _ _ _ (cut_new M e0 neg)) as Hs.
  destruct (shrink scale digitFuel M e0 _) as [[m e] g].
  destruct Hs as (k & C & Ht & Hk); [nia| |].
  { change (Z.of_nat digitFuel) with 40. pose proof (minM_top scale). nia. }
  cbn [Nat.add] in C, Hk. destruct Hk as [->|[Hk Hlo]].
  { exfalso. apply cut_div in C. rewrite Z.div_1_r in C.
    pose proof (top_bounds scale). lia. }
  assert (roundable scale m) as Hm by (apply roundable_bounds; lia).
  rewrite u64_id by (pose proof (top_bounds scale); apply roundable_top in Hm; lia).
  apply result_normalize; [nia|]. apply (round_result _ _ _ _ _ _ _ _ _ C); [done|by right].
Qed.
