(* ===== verification/NumberAdd.v ===== *)
(** * Addition

    The sum of two normal numbers of one sign is rounded once, as
    multiplication is.  The sum of numbers of different signs is off by less
    than two units, on the side that the mode names.  Where the code does
    otherwise (towards zero, and negative numbers with equal exponents) is
    shown in NumberProperties. *)

From Stdlib Require Import QArith Qpower Lqa.
From stdpp Require Import strings.
From S2P Require Import Prelude Outcome Number NumberFacts.
Local Open Scope Z_scope.

(** ** Alignment *)

Lemma align_cut n M e0 neg m e g k :
  cut M e0 neg m e g k ->
  let '(m', g') := align n m g in cut M e0 neg m' (e + Z.of_nat n) g' (k + n)%nat.
Proof.
  revert m e g k. induction n as [|n IH]; intros m e g k C; cbn [align].
  { by rewrite Z.add_0_r, Nat.add_0_r. }
  specialize (IH _ _ _ _ (cut_push _ _ _ _ _ _ _ C)). destruct (align n (m / 10) (push (m mod 10) g)) as [m' g'].
  rewrite Nat.add_succ_r, <- Nat.add_succ_l. by replace (e + Z.of_nat (S n)) with (e + 1 + Z.of_nat n) by lia.
Qed.

(** The guard of an aligned operand serves the sum too. *)
Lemma cut_sum M e0 neg m e g k H :
  cut M e0 neg m e g k -> cut (H * 10 ^ Z.of_nat k + M) e0 neg (H + m) e g k.
Proof.
  intros [T He Hs]. split; [|done..].
  by replace (H * 10 ^ Z.of_nat k + M - (H + m) * 10 ^ Z.of_nat k) with (M - m * 10 ^ Z.of_nat k) by lia.
Qed.

(** A sum of two mantissas may have one digit too many. *)
Lemma sum_result mode scale neg M e0 m e g k location :
  cut M e0 neg m e g k -> minM scale <= m <= 2 * maxM scale ->
  k = 0%nat \/ top scale < M / 10 ^ (Z.of_nat k - 1) ->
  fitResult scale mode neg M e0
    (let '(m, e, g) := if (maxM scale <? m) || (maxRep <? m) then (m / 10, e + 1, push (m mod 10) g) else (m, e, g) in
     doRoundUp mode g (mkNumber neg m e) (minM scale) (maxM scale) location).
Proof.
  intros C Hm Hk.
  assert ((maxM scale <? m) || (maxRep <? m) = (top scale <? m)) as ->.
  { unfold top. destruct (Z.ltb_spec (maxM scale) m), (Z.ltb_spec maxRep m), (Z.ltb_spec (Z.min (maxM scale) maxRep) m); done || lia. }
  destruct (Z.ltb_spec (top scale) m) as [Ht|Ht].
  - apply (round_result _ _ _ _ _ _ _ _ _ (cut_push _ _ _ _ _ _ _ C)).
    + apply roundable_bounds. split; [apply Z.div_le_mono; lia|]. apply Z.div_le_upper_bound; [lia|].
      destruct scale; [rewrite top_small in *; destruct range_small as (_ & E & _)|rewrite top_large in *; destruct range_large as (_ & E & _)]; lia.
    + right. replace (Z.of_nat (S k) - 1) with (Z.of_nat k) by lia. by rewrite <- (cut_div _ _ _ _ _ _ _ C).
  - apply (round_result _ _ _ _ _ _ _ _ _ C); [|done].
    destruct scale; cbn [roundable]; [rewrite top_small in *; destruct range_small as (E & _)|rewrite top_large in *; unfold maxRep; destruct range_large as (E & _)]; lia.
Qed.

(** ** Numbers of one sign *)

(** The exact sum of two magnitudes, at the smaller exponent. *)
Definition sumMag (x y : Number) : Z :=
  let e := Z.min (exponent_ x) (exponent_ y) in
  mantissa_ x * 10 ^ (exponent_ x - e) + mantissa_ y * 10 ^ (exponent_ y - e).

(** The guard has the sign of the sum. *)
Definition signKnown (mode : rounding_mode) (x y : Number) : Prop :=
  exponent_ x <> exponent_ y \/ negative_ x = false \/ mode = to_nearest \/ mode = towards_zero.

Lemma add_same_eq mode scale x y :
  x <> zero -> y <> zero -> x <> opp y -> negative_ x = negative_ y ->
  let lo := if exponent_ x <? exponent_ y then x else y in
  let hi := if exponent_ x <? exponent_ y then y else x in
  let n := Z.to_nat (exponent_ hi - exponent_ lo) in
  let g := if (exponent_ lo <? exponent_ hi) && negative_ x then set_negative newGuard else newGuard in
  add mode scale x y =
  (let '(lm, g) := align n (mantissa_ lo) g in
   let m := u128 (mantissa_ hi + lm) in
   let '(m, e, g) :=
     if (maxM scale <? m) || (maxRep <? m) then (m / 10, exponent_ hi + 1, push (m mod 10) g) else (m, exponent_ hi, g) in
   doRoundUp mode g (mkNumber (negative_ x) m e) (minM scale) (maxM scale) "Number::addition overflow") ≫= fun z =>
  normalize mode scale (mkNumber (negative_ z) (u64 (mantissa_ z)) (exponent_ z)).
Proof.
  intros Hx Hy Hxy Hs. cbn zeta. unfold add, num_eqb. rewrite !bool_decide_eq_false_2 by done. rewrite <- Hs, eqb_reflx.
  destruct (Z.ltb_spec (exponent_ x) (exponent_ y)) as [H|H].
  - replace (Z.abs (exponent_ x - exponent_ y)) with (exponent_ y - exponent_ x) by lia.
    rewrite (proj2 (Z.ltb_lt _ _)) by done. cbn [andb]. destruct (align _ _ _) as [lm g]. by rewrite (Z.add_comm lm).
  - replace (Z.abs (exponent_ x - exponent_ y)) with (exponent_ x - exponent_ y) by lia.
    destruct (align _ _ _) as [lm g]. done.
Qed.

(** To nearest and towards zero the sign of the guard does not matter. *)
Lemma doRoundUp_sign mode g x mn mx location :
  mode = to_nearest \/ mode = towards_zero ->
  doRoundUp mode (set_negative g) x mn mx location = doRoundUp mode g x mn mx location.
Proof. by intros [-> | ->]. Qed.

Lemma push_sign d g : push d (set_negative g) = set_negative (push d g).
Proof. done. Qed.

Lemma result_u64 mode scale neg M e0 r :
  0 <= M -> fitResult scale mode neg M e0 r ->
  fitResult scale mode neg M e0
    (r ≫= fun z => normalize mode scale (mkNumber (negative_ z) (u64 (mantissa_ z)) (exponent_ z))).
Proof.
  intros HM Hr. apply (result_normalize _ _ _ _ _ _ HM) in Hr as Hn. destruct r as [w|y]; [done|]. cbn in Hn |- *.
  destruct Hr as [[-> Hz]|(Hy & _)]; [by left|]. rewrite u64_id; [by destruct y|].
  apply isnormal_cases in Hy as [->|(Hm & _)]; [cbn; lia|]. pose proof (minM_pos scale). pose proof (minM_le scale).
  pose proof (maxM_minM scale). lia.
Qed.

Section SameSign.
Context (mode : rounding_mode) (scale : mantissa_scale) (hi lo : Number) (neg : bool).
Context (Hhi : minM scale <= mantissa_ hi <= maxM scale) (Hlo : minM scale <= mantissa_ lo <= maxM scale).
Context (He : exponent_ lo <= exponent_ hi).

Local Abbreviation n := (Z.to_nat (exponent_ hi - exponent_ lo)).
Local Abbreviation total := (mantissa_ hi * 10 ^ (exponent_ hi - exponent_ lo) + mantissa_ lo).

Lemma aligned_sum g :
  sbit_ g = neg -> g = mkGuard 0 false neg ->
  let '(lm, g') := align n (mantissa_ lo) g in
  cut total (exponent_ lo) neg (mantissa_ hi + lm) (exponent_ hi) g' n /\ 0 <= lm <= mantissa_ lo.
Proof using He Hlo Hhi.
  intros Hg Eg. pose proof (cut_new (mantissa_ lo) (exponent_ lo) neg) as C. pose proof (minM_pos scale).
  replace (if neg then set_negative newGuard else newGuard) with g in C by (subst g; by destruct neg).
  pose proof (align_cut n _ _ _ _ _ _ _ C) as Ca. destruct (align n (mantissa_ lo) g) as [lm g'].
  cbn [Nat.add] in Ca. split.
  - replace (exponent_ hi) with (exponent_ lo + Z.of_nat n) at 2 by lia.
    replace (exponent_ hi - exponent_ lo) with (Z.of_nat n) at 1 by lia. by apply cut_sum.
  - rewrite (cut_div _ _ _ _ _ _ _ Ca). split; [apply Z.div_pos; lia|]. apply Z.div_le_upper_bound; [lia|].
    assert (1 <= 10 ^ Z.of_nat n) by lia. nia.
Qed.

(** The digits cut off are needed: the larger operand fills the range. *)
Lemma aligned_needed : n = 0%nat \/ top scale < total / 10 ^ (Z.of_nat n - 1).
Proof using He Hlo Hhi.
  destruct (decide (n = 0%nat)) as [|Hn]; [by left|right]. pose proof (minM_pos scale). pose proof (maxM_minM scale).
  pose proof (top_maxM scale). apply Z.lt_le_trans with (10 * mantissa_ hi); [lia|].
  apply Z.div_le_lower_bound; [lia|].
  assert (10 ^ (exponent_ hi - exponent_ lo) = 10 * 10 ^ (Z.of_nat n - 1)) as ->.
  { rewrite <- Z.pow_succ_r by lia. f_equal. lia. }
  lia.
Qed.

Lemma same_sign_sum g :
  g = mkGuard 0 false neg \/ n = 0%nat /\ g = mkGuard 0 false false /\ (mode = to_nearest \/ mode = towards_zero) ->
  fitResult scale mode neg total (exponent_ lo)
    ((let '(lm, g) := align n (mantissa_ lo) g in
      let m := u128 (mantissa_ hi + lm) in
      let '(m, e, g) :=
        if (maxM scale <? m) || (maxRep <? m) then (m / 10, exponent_ hi + 1, push (m mod 10) g) else (m, exponent_ hi, g) in
      doRoundUp mode g (mkNumber neg m e) (minM scale) (maxM scale) "Number::addition overflow") ≫= fun z =>
     normalize mode scale (mkNumber (negative_ z) (u64 (mantissa_ z)) (exponent_ z))).
Proof using He Hlo Hhi.
  intros Hg. pose proof (minM_pos scale). pose proof (minM_le scale). pose proof (maxM_minM scale).
  apply result_u64; [nia|].
  pose proof (aligned_sum (mkGuard 0 false neg) eq_refl eq_refl) as Ha. pose proof aligned_needed as Hneed.
  assert (forall lm g', cut total (exponent_ lo) neg (mantissa_ hi + lm) (exponent_ hi) g' n -> 0 <= lm <= mantissa_ lo ->
    fitResult scale mode neg total (exponent_ lo)
      (let '(m, e, g) := if (maxM scale <? u128 (mantissa_ hi + lm)) || (maxRep <? u128 (mantissa_ hi + lm))
        then (u128 (mantissa_ hi + lm) / 10, exponent_ hi + 1, push (u128 (mantissa_ hi + lm) mod 10) g')
        else (u128 (mantissa_ hi + lm), exponent_ hi, g') in
       doRoundUp mode g (mkNumber neg m e) (minM scale) (maxM scale) "Number::addition overflow")) as Hsum.
  { intros lm g' C Hl. unfold u128. rewrite Z.mod_small by lia. apply sum_result with n; [done|lia|done]. }
  destruct Hg as [->|(En & -> & Hmode)].
  - destruct (align n (mantissa_ lo) (mkGuard 0 false neg)) as [lm g']. destruct Ha as [C Hl]. apply Hsum; assumption.
  - rewrite En in *. cbn [align] in Ha |- *. destruct Ha as [C Hl]. specialize (Hsum _ _ C Hl). cbn zeta.
    destruct ((_ <? _) || (_ <? _)), neg; try exact Hsum; rewrite <- doRoundUp_sign by done; exact Hsum.
Qed.

End SameSign.

Lemma opp_sign x : x <> zero -> mantissa_ x <> 0 -> negative_ (opp x) = negb (negative_ x).
Proof. intros Hx Hm. unfold opp. by rewrite (proj2 (Z.eqb_neq _ _)). Qed.

Lemma add_same_result mode scale x y :
  isnormal scale x = true -> isnormal scale y = true -> x <> zero -> y <> zero ->
  negative_ x = negative_ y -> signKnown mode x y ->
  fitResult scale mode (negative_ x) (sumMag x y) (Z.min (exponent_ x) (exponent_ y)) (add mode scale x y).
Proof.
  intros Hx Hy Hx0 Hy0 Hs Hk. pose proof (normal_mantissa _ _ Hx Hx0) as Bx. pose proof (normal_mantissa _ _ Hy Hy0) as By.
  pose proof (minM_pos scale). rewrite add_same_eq; [|done..| |done].
  2: { intros E. apply (f_equal negative_) in E. rewrite opp_sign in E by (done || lia). rewrite Hs in E. by destruct (negative_ y). }
  unfold sumMag. destruct (Z.ltb_spec (exponent_ x) (exponent_ y)) as [H1|H1].
  - rewrite Z.min_l by lia. rewrite Z.sub_diag, Z.mul_1_r, Z.add_comm.
    apply same_sign_sum; [done..|lia|]. left. rewrite (proj2 (Z.ltb_lt _ _)) by done. by destruct (negative_ x).
  - rewrite Z.min_r by lia. rewrite Z.sub_diag, Z.mul_1_r.
    apply same_sign_sum; [done..|lia|]. destruct (Z.ltb_spec (exponent_ y) (exponent_ x)) as [H2|H2].
    + left. by destruct (negative_ x).
    + destruct Hk as [?|[->|Hmode]]; [lia|by left|]. destruct (negative_ x); [right|by left].
      split_and!; [lia|done|done].
Qed.

(** ** Numbers of different signs *)

(** A digit comes back from the guard. *)
Lemma pop_push d g :
  0 <= d < 10 -> 0 <= digits_ g < 2 ^ 64 ->
  pop (push d g) = (d, mkGuard (16 * (digits_ g / 16)) (xbit_ (push d g)) (sbit_ g)).
Proof.
  intros Hd Hg. unfold pop. rewrite digits_push by done.
  assert (0 <= digits_ g / 16 < 2 ^ 60) as Hlow.
  { split; [apply Z.div_pos; lia|]. apply Z.div_lt_upper_bound; lia. }
  rewrite Z.shiftr_land. change (Z.shiftr 0xF000000000000000 60) with (Z.ones 4).
  rewrite land_low, Z.shiftr_div_pow2, Z.shiftl_mul_pow2 by lia.
  rewrite Z.div_add, (Z.div_small (_ / 16)) by lia. rewrite Z.mod_small by lia. f_equal.
  f_equal. unfold u64. change (2 ^ 4) with 16. rewrite Z.mul_add_distr_r, <- Z.mul_assoc.
  change (2 ^ 60 * 16) with (2 ^ 64). rewrite Z_mod_plus_full, Z.mod_small by lia. lia.
Qed.

(** The lowest digit of a guard may be replaced by the flag. *)
Lemma tracks_low k r g b :
  (xbit_ g || negb (digits_ g mod 16 =? 0)) = b ->
  tracks k r g -> tracks k r (mkGuard (16 * (digits_ g / 16)) b (sbit_ g)).
Proof.
  intros Hb [Hg Hr Hz Ht Hl]. pose proof (Z.div_mod (digits_ g) 16 ltac:(lia)) as E.
  pose proof (Z.mod_pos_bound (digits_ g) 16 ltac:(lia)) as Bm.
  assert (b = false <-> xbit_ g = false /\ digits_ g mod 16 = 0) as Hb'.
  { rewrite <- Hb, orb_false_iff, negb_false_iff, Z.eqb_eq. done. }
  split; cbn [digits_ xbit_].
  - lia.
  - done.
  - rewrite <- Hz, Hb'. split; [intros (? & ? & ?); split; [lia|done]|intros [E0 Hx]]. split_and!; [|done|]; lia.
  - intros Hk. rewrite <- (Ht Hk). change (2 ^ 60) with (16 * 2 ^ 56). rewrite <- !Z.div_div by lia.
    by rewrite Z.mul_comm, Z.div_mul by lia.
  - intros Hk. rewrite <- (Hl Hk), Hb'. change (2 ^ 60) with (16 * 2 ^ 56).
    rewrite (Z.rem_mul_r (digits_ g)), Z.mul_mod_distr_l by lia. split; [intros (? & ? & ?)|intros [? ?]]; split_and!; lia || done.
Qed.

Lemma tracks_pop k r g d :
  tracks k r g -> 0 <= d < 10 -> exists g', pop (push d g) = (d, g') /\ tracks k r g' /\ sbit_ g' = sbit_ g.
Proof.
  intros T Hd. rewrite pop_push by (try apply T; done). eexists. split_and!; [done| |done].
  apply tracks_low; [by rewrite xbit_push|done].
Qed.

(** [m] with the guard subtracted is the number [M], [e0]. *)
Record short (M e0 : Z) (neg : bool) (m e : Z) (g : Guard) (k : nat) : Prop := {
  sh_tracks : tracks k (m * 10 ^ Z.of_nat k - M) g;
  sh_exp : e = e0 + Z.of_nat k;
  sh_sign : k = 0%nat \/ sbit_ g = negb neg;
}.

(** On which side of the exact magnitude [b] a magnitude [a] lies. *)
Definition side (mode : rounding_mode) (neg : bool) (a b : Q) : Prop :=
  match mode with
  | downward => if neg then (b <= a)%Q else (a <= b)%Q
  | upward => if neg then (a <= b)%Q else (b <= a)%Q
  | _ => True
  end.

#[export] Instance side_proper mode neg : Proper (Qeq ==> Qeq ==> iff) (side mode neg).
Proof. intros a a' Ha b b' Hb. unfold side. destruct mode, neg; try done; by rewrite Ha, Hb. Qed.

Lemma side_refl mode neg a b : (a == b)%Q -> side mode neg a b.
Proof. intros E. unfold side. destruct mode, neg; try done; rewrite E; apply Qle_refl. Qed.

Lemma side_trans mode neg a b c : side mode neg a b -> side mode neg b c -> side mode neg a c.
Proof. unfold side. destruct mode, neg; try done; intros; by eapply Qle_trans. Qed.

(** The mantissa after the rounding of a difference. *)
Definition lessRounded (mode : rounding_mode) (g : Guard) (m : Z) : Z := m - if roundsUp mode g m then 1 else 0.

Lemma short_rounded mode M e0 neg m e g k :
  short M e0 neg m e g k ->
  let n := lessRounded mode g m in
  (val (n - 1) e < val M e0)%Q /\ (val M e0 < val (n + 1) e)%Q /\ side mode neg (val n e) (val M e0).
Proof.
  intros [T -> Hs] n. pose proof (tr_rem _ _ _ T) as Hr. rewrite <- !val_shift by lia.
  subst n. unfold lessRounded. rewrite (roundsUp_spec _ _ _ _ _ T).
  set (u := up _ _ _ _ _) in *. assert (u = true -> 0 < m * 10 ^ Z.of_nat k - M) as Hu by (intros; by eapply up_positive; [lia|]).
  split; [|split]; [apply val_lt; destruct u; lia..|].
  assert (forall a b, a <= b -> (val a e0 <= val b e0)%Q) as Hle by (intros; by apply val_le).
  assert (k = 0%nat -> m * 10 ^ Z.of_nat k = M) as Hk0 by (intros ->; cbn in *; lia).
  unfold side. destruct mode; try done; destruct Hs as [Hk|Hs].
  - assert (u = false) as -> by (destruct u; [specialize (Hu eq_refl); rewrite Hk0 in Hu by done; lia|done]).
    change (if false then 1 else 0) with 0. rewrite Z.sub_0_r, (Hk0 Hk). destruct neg; apply Qle_refl.
  - subst u. rewrite Hs. cbn [up]. destruct neg; cbn [negb andb]; apply Hle; [lia|].
    destruct (Z.ltb_spec 0 (m * 10 ^ Z.of_nat k - M)); lia.
  - assert (u = false) as -> by (destruct u; [specialize (Hu eq_refl); rewrite Hk0 in Hu by done; lia|done]).
    change (if false then 1 else 0) with 0. rewrite Z.sub_0_r, (Hk0 Hk). destruct neg; apply Qle_refl.
  - subst u. rewrite Hs. cbn [up]. destruct neg; cbn [negb andb]; apply Hle; [|lia].
    destruct (Z.ltb_spec 0 (m * 10 ^ Z.of_nat k - M)); lia.
Qed.

(** The mantissas after [recover]: in the range, or one digit short of it and
    too large for another. *)
Definition recovered (scale : mantissa_scale) (m : Z) : Prop :=
  minM scale <= m <= maxM scale \/ m < minM scale /\ maxRep < m * 10.

Definition fitDown (scale : mantissa_scale) (neg : bool) (n e : Z) : Number :=
  if n <? minM scale then mkNumber neg (n * 10) (e - 1) else mkNumber neg n e.

Lemma doRoundDown_fit mode g scale neg m e :
  recovered scale m ->
  doRoundDown mode g (mkNumber neg m e) (minM scale) =
  let z := fitDown scale neg (lessRounded mode g m) e in
  if exponent_ z <? minExponent then zero else z.
Proof.
  intros Hm. unfold doRoundDown, bringIntoRange, fitDown, lessRounded. cbn [mantissa_ negative_ exponent_].
  pose proof (minM_le scale). pose proof (minM_pos scale). unfold recovered, maxRep in Hm.
  destruct (roundsUp mode g m); cbn zeta; cbn [mantissa_ negative_ exponent_].
  - destruct (Z.ltb_spec (m - 1) (minM scale)); cbn [mantissa_ negative_ exponent_].
    + assert (minM scale <= (m - 1) * 10).
      { destruct Hm as [Hm|Hm]; [|lia]. destruct scale; [destruct range_small as (E & _)|destruct range_large as (E & _)]; lia. }
      by rewrite (proj2 (Z.ltb_ge ((m - 1) * 10) _)).
    + by rewrite (proj2 (Z.ltb_ge (m - 1) _)).
  - rewrite Z.sub_0_r. done.
Qed.

Lemma pop_zero g : digits_ g = 0 -> pop g = (0, g).
Proof. destruct g as [d x s]. cbn. by intros ->. Qed.

Lemma recover_stop scale fuel m e g :
  minM scale <= m \/ maxRep < m * 10 -> 0 <= m < 2 ^ 100 -> recover scale fuel m e g = (m, e, g).
Proof.
  intros Hm Hb. destruct fuel; [done|]. cbn [recover]. destruct (Z.ltb_spec m (minM scale)); [|done]. cbn [andb].
  unfold u128. rewrite Z.mod_small by lia. rewrite (proj2 (Z.leb_gt _ _)) by lia. done.
Qed.

Lemma recover_pop scale fuel m e g d g' :
  m < minM scale -> m * 10 <= maxRep -> 0 <= d <= m * 10 -> pop g = (d, g') ->
  recover scale (S fuel) m e g = recover scale fuel (m * 10 - d) (e - 1) g'.
Proof.
  intros Hm Hr Hd Hp. cbn [recover]. pose proof (minM_le scale). unfold maxRep, u128 in *.
  rewrite (Z.mod_small (m * 10)) by lia. rewrite (proj2 (Z.ltb_lt _ _)), (proj2 (Z.leb_le _ _)) by lia. cbn [andb].
  rewrite Hp. by rewrite Z.mod_small by lia.
Qed.

Lemma recover_exact scale fuel m e g :
  digits_ g = 0 -> 0 < m <= maxM scale -> minM scale <= m * 10 ^ Z.of_nat fuel ->
  exists j : nat, recover scale fuel m e g = (m * 10 ^ Z.of_nat j, e - Z.of_nat j, g) /\
    recovered scale (m * 10 ^ Z.of_nat j).
Proof.
  intros Hg. pose proof (minM_le scale). pose proof (minM_pos scale). pose proof (maxM_minM scale).
  revert m e. induction fuel as [|fuel IH]; intros m e Hm Hf.
  { exists 0%nat. change (10 ^ Z.of_nat 0) with 1 in *. rewrite Z.mul_1_r, Z.sub_0_r in *. split; [done|left; lia]. }
  destruct (Z.lt_ge_cases m (minM scale)) as [Hlt|Hge], (Z.lt_ge_cases maxRep (m * 10)) as [Hr|Hr].
  - exists 0%nat. rewrite recover_stop by lia. change (10 ^ Z.of_nat 0) with 1. rewrite Z.mul_1_r, Z.sub_0_r. split; [done|right; lia].
  - rewrite (recover_pop _ _ _ _ _ 0 g) by (lia || by apply pop_zero). rewrite Z.sub_0_r.
    rewrite Nat2Z.inj_succ, Z.pow_succ_r in Hf by lia.
    destruct (IH (m * 10) (e - 1)) as (j & -> & Hj); [lia..|]. exists (S j).
    rewrite Nat2Z.inj_succ, Z.pow_succ_r, Z.mul_assoc by lia. split; [do 2 f_equal; lia|done].
  - exists 0%nat. rewrite recover_stop by lia. change (10 ^ Z.of_nat 0) with 1. rewrite Z.mul_1_r, Z.sub_0_r. split; [done|left; lia].
  - exists 0%nat. rewrite recover_stop by lia. change (10 ^ Z.of_nat 0) with 1. rewrite Z.mul_1_r, Z.sub_0_r. split; [done|left; lia].
Qed.

Lemma align_last n m g :
  align (S n) m g = let '(m', g') := align n m g in (m' / 10, push (m' mod 10) g').
Proof. revert m g. induction n as [|n IH]; intros m g; [done|]. cbn [align]. by rewrite <- IH. Qed.

(** The difference of two aligned mantissas, after [recover]. *)
Definition difference (scale : mantissa_scale) (neg : bool) (M e0 hm eh : Z) (r : Z * Z * Guard) : Prop :=
  exists (j k : nat) (m e : Z) (g : Guard), r = (m, e, g) /\
    short (M * 10 ^ Z.of_nat j) (e0 - Z.of_nat j) neg m e g k /\ recovered scale m /\
    (e = eh /\ m <= hm \/ e < eh).

Lemma difference_exact scale neg M e g fuel :
  digits_ g = 0 -> xbit_ g = false -> 0 < M <= maxM scale -> (18 <= fuel)%nat ->
  difference scale neg M e M e (recover scale fuel M e g).
Proof.
  intros Hd Hx HM Hf. destruct (recover_exact scale fuel M e g) as (j & E & Hr); [done..| |].
  { pose proof (minM_le scale). assert (10 ^ 18 <= 10 ^ Z.of_nat fuel) by (apply Z.pow_le_mono_r; lia). nia. }
  exists j, 0%nat, (M * 10 ^ Z.of_nat j), (e - Z.of_nat j), g. split; [done|]. split; [|split; [done|]].
  - split; [|lia|by left]. replace (_ * 10 ^ Z.of_nat 0 - _) with 0 by lia.
    destruct g as [d x s]. cbn in Hd, Hx. subst. apply tracks_new.
  - destruct j; [left; split; lia|right; lia].
Qed.

Section Difference.
Context (scale : mantissa_scale) (neg : bool) (hm lm eh el : Z) (n : nat).
Context (Hh : minM scale <= hm <= maxM scale) (Hl : minM scale <= lm <= maxM scale) (He : eh = el + Z.of_nat (S n)).

Local Abbreviation M := (hm * 10 ^ Z.of_nat (S n) - lm).

Lemma recover_difference :
  let '(ym, g) := align (S n) lm (mkGuard 0 false (negb neg)) in
  ym < hm /\ 0 <= ym /\ difference scale neg M el hm eh (recover scale digitFuel (hm - ym) eh g).
Proof using Hh Hl He.
  pose proof (minM_pos scale) as Hmn. pose proof (maxM_minM scale) as Hmx. pose proof (minM_le scale).
  pose proof (cut_new lm el (negb neg)) as C.
  replace (if negb neg then set_negative newGuard else newGuard) with (mkGuard 0 false (negb neg)) in C by by destruct neg.
  pose proof (align_cut n _ _ _ _ _ _ _ C) as C0. rewrite align_last.
  destruct (align n lm (mkGuard 0 false (negb neg))) as [m1 g0]. cbn [Nat.add] in C0.
  pose proof (cut_div _ _ _ _ _ _ _ C0) as Em1. pose proof (cut_push _ _ _ _ _ _ _ C0) as C1.
  assert (0 <= m1 <= lm) as Hm1.
  { rewrite Em1. split; [apply Z.div_pos; lia|]. apply Z.div_le_upper_bound; [lia|].
    assert (1 <= 10 ^ Z.of_nat n) by lia. nia. }
  pose proof (Z.div_mod m1 10 ltac:(lia)) as Ed. pose proof (Z.mod_pos_bound m1 10 ltac:(lia)) as Bd.
  set (d := m1 mod 10) in *. set (q := m1 / 10) in *.
  assert (0 <= q < minM scale) as Hq by lia. split; [lia|]. split; [lia|].
  assert (10 ^ Z.of_nat (S n) = 10 * 10 ^ Z.of_nat n) as Ep by (rewrite Nat2Z.inj_succ, Z.pow_succ_r by lia; done).
  destruct (decide (minM scale <= hm - q \/ maxRep < (hm - q) * 10)) as [Hstop|Hgo].
  - rewrite recover_stop by lia. exists 0%nat, (S n), (hm - q), eh, (push d g0). split; [done|].
    change (10 ^ Z.of_nat 0) with 1. rewrite Z.mul_1_r, Z.sub_0_r. split; [|split; [unfold recovered; lia|left; lia]].
    split; [|lia|right; apply (cut_sign _ _ _ _ _ _ _ C1)].
    replace ((hm - q) * 10 ^ Z.of_nat (S n) - M) with (lm - q * 10 ^ Z.of_nat (S n)) by lia. apply C1.
  - destruct (tracks_pop _ _ _ d (cut_tracks _ _ _ _ _ _ _ C0)) as (g' & Hpop & T' & Hs'); [lia|].
    change digitFuel with (S 39). rewrite (recover_pop _ _ _ _ _ d g') by (done || lia).
    replace ((hm - q) * 10 - d) with (10 * hm - m1) by lia.
    destruct n as [|n'] eqn:En.
    + assert (m1 = lm) as -> by (rewrite Em1; apply Z.div_1_r).
      assert (digits_ g' = 0 /\ xbit_ g' = false) as [Hd0 Hx0].
      { apply (tr_zero _ _ _ T'). pose proof (tr_rem _ _ _ T'). cbn in *. lia. }
      destruct (difference_exact scale neg (10 * hm - lm) (eh - 1) g' 39) as (j & k & m & e & g & E & Hsh & Hr & Hlast);
        [done..|lia|lia|].
      exists j, k, m, e, g. change (10 ^ Z.of_nat 1) with 10. rewrite (Z.mul_comm hm 10). replace el with (eh - 1) by lia.
      split_and!; [done..|right; lia].
    + assert (m1 < minM scale) as Hsmall.
      { rewrite Em1. apply Z.div_lt_upper_bound; [lia|]. rewrite Nat2Z.inj_succ, Z.pow_succ_r by lia.
        assert (1 <= 10 ^ Z.of_nat n') by lia. nia. }
      rewrite recover_stop by lia. exists 0%nat, (S n'), (10 * hm - m1), (eh - 1), g'. split; [done|].
      change (10 ^ Z.of_nat 0) with 1. rewrite Z.mul_1_r, Z.sub_0_r. split; [|split; [left; lia|right; lia]].
      split; [|lia|right; rewrite Hs'; apply (cut_sign _ _ _ _ _ _ _ C0)].
      rewrite Ep. replace ((10 * hm - m1) * 10 ^ Z.of_nat (S n') - (hm * (10 * 10 ^ Z.of_nat (S n')) - lm)) with (lm - m1 * 10 ^ Z.of_nat (S n')) by lia. done.
Qed.

End Difference.

(** ** The rounded difference *)

(** [y] is zero and the exact magnitude too small, or [y] is normal, has the
    sign, lies on the side of the mode and is less than two units off. *)
Definition near (scale : mantissa_scale) (mode : rounding_mode) (neg : bool) (M e0 : Z) (y : Number) : Prop :=
  y = zero /\ (val M e0 < val (minM scale) minExponent)%Q \/
  isnormal scale y = true /\ negative_ y = neg /\
  side mode neg (val (mantissa_ y) (exponent_ y)) (val M e0) /\
  (val M e0 - val 2 (exponent_ y + 1) < val (mantissa_ y) (exponent_ y) < val M e0 + val 2 (exponent_ y + 1))%Q.

Section Near.
Context (scale : mantissa_scale) (mode : rounding_mode) (neg : bool) (M e0 m e : Z) (g : Guard) (k : nat).
Context (Sh : short M e0 neg m e g k) (Hm : recovered scale m).

Local Abbreviation n := (lessRounded mode g m).
Local Abbreviation z := (fitDown scale neg n e).

Lemma lessRounded_bounds : m - 1 <= n <= m.
Proof. unfold lessRounded. destruct (roundsUp mode g m); lia. Qed.

Lemma fitDown_val : (val (mantissa_ z) (exponent_ z) == val n e)%Q.
Proof.
  unfold fitDown. destruct (n <? minM scale); cbn [mantissa_ exponent_]; [|done].
  change (n * 10) with (n * 10 ^ 1). apply val_shift'; lia.
Qed.

Lemma fitDown_range : minM scale <= mantissa_ z <= maxM scale /\ negative_ z = neg.
Proof using Hm.
  pose proof lessRounded_bounds. pose proof (minM_pos scale). pose proof (maxM_minM scale). pose proof (minM_le scale).
  unfold fitDown, recovered, maxRep in *. destruct (Z.ltb_spec n (minM scale)); cbn [mantissa_ negative_]; split; try done; [|lia].
  destruct Hm as [?|?]; [|lia]. destruct scale; [destruct range_small as (E & _)|destruct range_large as (E & _)]; lia.
Qed.

Lemma near_underflow : exponent_ z < minExponent -> (val M e0 < val (minM scale) minExponent)%Q.
Proof using Sh Hm.
  intros He. destruct (short_rounded mode _ _ _ _ _ _ _ Sh) as (_ & Hhi & _). eapply Qlt_le_trans; [exact Hhi|].
  pose proof fitDown_range as [Hr _]. pose proof (minM_pos scale). pose proof (maxM_minM scale).
  unfold fitDown in He, Hr. destruct (Z.ltb_spec n (minM scale)) as [Hn|Hn]; cbn [mantissa_ exponent_] in He, Hr.
  - eapply Qle_trans; [apply (val_mono_exp _ _ minExponent); lia|apply val_le; lia].
  - apply val_below; lia.
Qed.

(** The exact value is less than ten units of the result's exponent away. *)
Lemma near_first :
  (val M e0 - val 10 (exponent_ z) < val (mantissa_ z) (exponent_ z) < val M e0 + val 10 (exponent_ z))%Q /\
  exponent_ z <= e /\ side mode neg (val (mantissa_ z) (exponent_ z)) (val M e0).
Proof using Sh.
  destruct (short_rounded mode _ _ _ _ _ _ _ Sh) as (Hlo & Hhi & Hs). rewrite val_sub in Hlo. rewrite val_add in Hhi.
  rewrite fitDown_val. assert (exponent_ z <= e <= exponent_ z + 1) as He.
  { unfold fitDown. destruct (n <? minM scale); cbn; lia. }
  assert (val 1 e <= val 10 (exponent_ z))%Q as H1.
  { change 10 with (1 * 10 ^ 1). rewrite val_shift by lia. apply val_mono_exp; lia. }
  split; [lra|]. split; [lia|done].
Qed.

Lemma two_units d e' e'' : 0 <= d <= 20 -> e' <= e'' -> (val d e' <= val 2 (e'' + 1))%Q.
Proof.
  intros Hd He. eapply Qle_trans; [apply (val_le d (2 * 10 ^ 1)); lia|]. rewrite val_shift by lia.
  apply val_mono_exp; lia.
Qed.

Lemma near_normal : isnormal scale z = true -> near scale mode neg M e0 z.
Proof using Sh Hm.
  intros Hz. right. destruct near_first as (Hf & _ & Hs). destruct fitDown_range as [_ Hneg].
  assert (val 10 (exponent_ z) <= val 2 (exponent_ z + 1))%Q as H2 by (apply two_units; lia).
  split_and!; [done..| |]; lra.
Qed.

(** A mantissa that does not fit 63 bits is rounded once more. *)
Lemma near_again y :
  scale = large -> maxRep < mantissa_ z -> fitted scale mode neg (mantissa_ z) (exponent_ z) y ->
  near scale mode neg M e0 y.
Proof using Sh Hm.
  intros Hl Hbig (Hy & Hneg & k' & n' & Hr & Hk & Htop & Hval). right. destruct near_first as (Hf & _ & Hs).
  pose proof fitDown_range as [Hz _]. set (zm := mantissa_ z) in *. set (ze := exponent_ z) in *.
  rewrite Hl in *. destruct range_large as (E1 & E2 & _). rewrite top_large in *. unfold maxRep in *.
  assert (k' = 1%nat) as ->.
  { destruct k' as [|[|k']]; [change (10 ^ Z.of_nat 0) with 1 in Htop; rewrite Z.div_1_r in Htop; lia|reflexivity|exfalso].
    destruct Hk as [Hk|Hk]; [discriminate Hk|].
    assert (zm / 10 ^ (Z.of_nat (S (S k')) - 1) < 10 ^ 18); [|lia].
    replace (Z.of_nat (S (S k')) - 1) with (Z.succ (Z.of_nat k')) by lia. rewrite Z.pow_succ_r by lia.
    apply Z.div_lt_upper_bound; [lia|]. assert (1 <= 10 ^ Z.of_nat k') by lia. nia. }
  change (10 ^ Z.of_nat 1) with 10 in *. rewrite decide_False in Hval; cycle 1.
  { intros [_ ->]. apply rounding_bounds in Hr; [|lia..]. assert (zm / 10 <= 10 ^ 18) by (apply Z.div_le_upper_bound; lia). lia. }
  rewrite <- val_shift in Hval by lia. change (10 ^ Z.of_nat 1) with 10 in Hval.
  assert (zm - 10 < n' * 10 < zm + 10) as Herr by (unfold rounding in Hr; destruct mode, neg; lia).
  assert (ze <= exponent_ y) as Hey.
  { destruct (Z.lt_ge_cases (exponent_ y) ze) as [Hlt|]; [exfalso|done].
    assert (val (10 ^ 18) ze < val (n' * 10) ze)%Q as Hbig' by (apply val_lt; lia). rewrite <- Hval in Hbig'.
    apply isnormal_cases in Hy as [->|(Hmy & _)].
    - cbn [mantissa_ zero] in Hbig'. rewrite val_zero in Hbig'. pose proof (val_lt 0 (10 ^ 18) ze) as H0.
      rewrite val_zero in H0. specialize (H0 ltac:(lia)). lra.
    - rewrite <- (val_shift' (10 ^ 18) (ze - 1) ze 1) in Hbig' by lia.
      pose proof (val_mono_exp (mantissa_ y) (exponent_ y) (ze - 1) ltac:(lia) ltac:(lia)).
      pose proof (val_lt (mantissa_ y) (10 ^ 18 * 10 ^ 1) (ze - 1) ltac:(lia)). lra. }
  assert (val 20 ze <= val 2 (exponent_ y + 1))%Q as H2 by (apply two_units; lia).
  assert (val (zm - 10) ze < val (n' * 10) ze)%Q as Hlo by (apply val_lt; lia).
  assert (val (n' * 10) ze < val (zm + 10) ze)%Q as Hhi by (apply val_lt; lia).
  rewrite val_sub in Hlo. rewrite val_add in Hhi. assert (val 20 ze == val 10 ze + val 10 ze)%Q as H20 by apply (val_add 10 10).
  rewrite <- Hval in Hlo, Hhi. split_and!; [done..| |lra|lra].
  eapply side_trans; [|exact Hs]. rewrite Hval. unfold side, rounding in *.
  destruct mode; [exact I|exact I| |]; destruct neg; apply val_le; lia.
Qed.

Lemma near_normalize :
  minExponent <= exponent_ z <= maxExponent -> mantissa_ z <= maxRep \/ exponent_ z < maxExponent ->
  exists y, normalize mode scale z = Ret y /\ near scale mode neg M e0 y.
Proof using Sh Hm.
  intros He Hfit. pose proof fitDown_range as [Hz Hneg]. pose proof (minM_pos scale). pose proof (maxM_minM scale).
  destruct (decide (mantissa_ z <= maxRep \/ mantissa_ z mod 10 = 0)) as [Hmod|Hmod].
  - assert (isnormal scale z = true) as Hn.
    { unfold isnormal. rewrite orb_true_iff, !andb_true_iff, orb_true_iff, !Z.leb_le, Z.eqb_eq. right. lia. }
    exists z. split; [|by apply near_normal].
    destruct (normalize_normal mode scale z Hn) as [|(? & ? & _)]; [done|lia].
  - assert (maxRep < mantissa_ z) as Hbig by lia.
    assert (scale = large) as Hl.
    { destruct scale; [|done]. destruct range_small as (_ & E & _). unfold maxRep in *. lia. }
    pose proof (normalize_result mode scale z) as Hr. pose proof (minM_le scale). specialize (Hr ltac:(lia)).
    assert (mantissa_ z < 10 ^ 19 /\ exponent_ z < maxExponent) as [Hz19 Hexp] by lia.
    assert (top scale = 9223372036854775807) as Htop by (by rewrite Hl, top_large).
    destruct (normalize mode scale z) as [w|y]; unfold fitResult in Hr.
    + exfalso. rewrite Htop in Hr.
      pose proof (val_lt_exp (mantissa_ z) (10 ^ 19) (exponent_ z) (maxExponent - 1) ltac:(lia) ltac:(lia) ltac:(lia)) as Hlt.
      change (10 ^ 19) with (10 ^ 18 * 10 ^ 1) in Hlt. rewrite (val_shift' (10 ^ 18) (maxExponent - 1) maxExponent) in Hlt by lia.
      pose proof (val_lt (10 ^ 18) 9223372036854775807 maxExponent ltac:(lia)). lra.
    + destruct Hr as [[-> Hlt]|Hr].
      * exfalso. pose proof (val_mono_exp (minM scale) minExponent (exponent_ z) ltac:(lia) ltac:(lia)).
        pose proof (val_le (minM scale) (mantissa_ z) (exponent_ z) ltac:(lia)). lra.
      * exists y. split; [done|]. rewrite Hneg in Hr. by apply near_again.
Qed.
End Near.

Lemma near_val scale mode neg M e0 M' e0' y :
  (val M e0 == val M' e0')%Q -> near scale mode neg M e0 y -> near scale mode neg M' e0' y.
Proof.
  intros E [[-> H]|(H1 & H2 & H3 & H4 & H5)]; [left; by rewrite <- E|right].
  rewrite E in H3, H4, H5. done.
Qed.

Lemma difference_near scale mode neg M e0 hm eh r :
  difference scale neg M e0 hm eh r -> hm <= maxRep \/ eh < maxExponent -> eh <= maxExponent ->
  exists y, (let '(m, e, g) := r in Ret (doRoundDown mode g (mkNumber neg m e) (minM scale))) ≫=
    (fun z => normalize mode scale (mkNumber (negative_ z) (u64 (mantissa_ z)) (exponent_ z))) = Ret y /\
  near scale mode neg M e0 y.
Proof.
  intros (j & k & m & e & g & -> & Sh & Hm & Hlast) Hfit Heh. cbn [mbind outcome_bind].
  pose proof (val_shift' M (e0 - Z.of_nat j) e0 (Z.of_nat j) ltac:(lia) ltac:(lia)) as Ev.
  unfold mbind, outcome_bind. rewrite doRoundDown_fit by done. cbn zeta.
  set (z := fitDown scale neg (lessRounded mode g m) e).
  pose proof (fitDown_range scale mode neg m e g Hm) as [Hz Hneg]. fold z in Hz, Hneg.
  pose proof (minM_pos scale). pose proof (maxM_minM scale). pose proof (minM_le scale).
  destruct (Z.ltb_spec (exponent_ z) minExponent) as [Hlo|Hlo].
  - exists zero. split; [done|]. apply (near_val _ _ _ _ _ _ _ _ Ev). left. split; [done|].
    by eapply near_underflow.
  - rewrite u64_id by lia. replace (mkNumber (negative_ z) (mantissa_ z) (exponent_ z)) with z by (by destruct z).
    destruct (near_normalize scale mode neg _ _ _ _ _ _ Sh Hm) as (y & Hy & Hnear); fold z.
    + pose proof (near_first scale mode neg _ _ _ _ _ _ Sh) as (_ & Hze & _). fold z in Hze. lia.
    + pose proof (lessRounded_bounds mode m g). subst z. unfold fitDown.
      destruct (_ <? _); cbn [mantissa_ exponent_]; lia.
    + exists y. split; [exact Hy|]. by apply (near_val _ _ _ _ _ _ _ _ Ev).
Qed.

(** The exact sum of numbers of different signs: positive if the first is larger. *)
Definition diffMag (x y : Number) : Z :=
  let e := Z.min (exponent_ x) (exponent_ y) in
  mantissa_ x * 10 ^ (exponent_ x - e) - mantissa_ y * 10 ^ (exponent_ y - e).

(** The mantissa fits 63 bits or the exponent can grow: the external view of
    the number has an exponent in range. *)
Definition external_ok (x : Number) : Prop := mantissa_ x <= maxRep \/ exponent_ x < maxExponent.

Section Different.
Context (mode : rounding_mode) (scale : mantissa_scale) (x y : Number).
Context (Hx : isnormal scale x = true) (Hy : isnormal scale y = true) (Hx0 : x <> zero) (Hy0 : y <> zero).
Context (Hxe : external_ok x) (Hye : external_ok y) (Hs : negative_ y = negb (negative_ x)) (Hxy : x <> opp y).

Lemma different_parts :
  minM scale <= mantissa_ x <= maxM scale /\ minM scale <= mantissa_ y <= maxM scale /\
  exponent_ x <= maxExponent /\ exponent_ y <= maxExponent /\
  (exponent_ x = exponent_ y -> mantissa_ x <> mantissa_ y).
Proof using Hx Hy Hx0 Hy0 Hs Hxy.
  clear mode Hxe Hye.
  pose proof (normal_mantissa _ _ Hx Hx0) as Bx. pose proof (normal_mantissa _ _ Hy Hy0) as By. pose proof (minM_pos scale).
  apply isnormal_cases in Hx as [|(_ & _ & ?)]; [done|]. apply isnormal_cases in Hy as [|(_ & _ & ?)]; [done|].
  split_and!; [lia..|]. intros Ee Em. apply Hxy. unfold opp. rewrite (proj2 (Z.eqb_neq _ _)) by lia.
  rewrite Hs, negb_involutive, <- Ee, <- Em. by destruct x.
Qed.

(** The part of [add] after the operands are aligned. *)
Local Abbreviation finish xm ym e g :=
  ((let '(xm', xn) := if ym <? xm then (u128 (xm - ym), negative_ x) else (u128 (ym - xm), negative_ y) in
    let '(xm', e', g') := recover scale digitFuel xm' e g in
    Ret (doRoundDown mode g' (mkNumber xn xm' e') (minM scale))) ≫=
   (fun z => normalize mode scale (mkNumber (negative_ z) (u64 (mantissa_ z)) (exponent_ z)))).

Lemma add_diff_eq :
  add mode scale x y =
  let n := Z.to_nat (Z.abs (exponent_ x - exponent_ y)) in
  if exponent_ x <? exponent_ y then
    let '(xm, g) := align n (mantissa_ x) (mkGuard 0 false (negative_ x)) in finish xm (mantissa_ y) (exponent_ y) g
  else
    let '(ym, g) := align n (mantissa_ y) (mkGuard 0 false ((exponent_ y <? exponent_ x) && negative_ y)) in
    finish (mantissa_ x) ym (exponent_ x) g.
Proof using Hx0 Hy0 Hs Hxy.
  clear Hx Hy Hxe Hye. unfold add, num_eqb. rewrite !bool_decide_eq_false_2 by done.
  assert (eqb (negative_ x) (negative_ y) = false) as -> by (rewrite Hs; by destruct (negative_ x)). cbn zeta.
  destruct (exponent_ x <? exponent_ y).
  - replace (if negative_ x then set_negative newGuard else newGuard) with (mkGuard 0 false (negative_ x)) by by destruct (negative_ x).
    destruct (align _ _ _) as [xm g]. by destruct (mantissa_ y <? xm).
  - replace (if (exponent_ y <? exponent_ x) && negative_ y then set_negative newGuard else newGuard)
      with (mkGuard 0 false ((exponent_ y <? exponent_ x) && negative_ y)) by by destruct (_ && _).
    destruct (align _ _ _) as [ym g]. by destruct (ym <? mantissa_ x).
Qed.

Lemma add_diff_near :
  exists z, add mode scale x y = Ret z /\
  near scale mode (if 0 <? diffMag x y then negative_ x else negative_ y) (Z.abs (diffMag x y))
    (Z.min (exponent_ x) (exponent_ y)) z.
Proof.
  destruct different_parts as (Bx & By & Ex & Ey & Hne). rewrite add_diff_eq. cbn zeta.
  pose proof (minM_pos scale). pose proof (maxM_minM scale). pose proof (minM_le scale). unfold diffMag.
  assert (forall hm lm (n : nat), minM scale <= hm <= maxM scale -> lm <= maxM scale -> lm < hm * 10 ^ Z.of_nat (S n)) as Hbig.
  { intros hm lm n Hh Hl. rewrite Nat2Z.inj_succ, Z.pow_succ_r by lia. assert (1 <= 10 ^ Z.of_nat n) by lia. nia. }
  destruct (Z.ltb_spec (exponent_ x) (exponent_ y)) as [Hlt|Hge].
  - rewrite Z.min_l, Z.sub_diag, Z.mul_1_r by lia.
    destruct (Z.to_nat (Z.abs (exponent_ x - exponent_ y))) as [|n] eqn:En; [lia|].
    replace (exponent_ y - exponent_ x) with (Z.of_nat (S n)) by lia.
    pose proof (Hbig _ (mantissa_ x) n By ltac:(lia)). rewrite (proj2 (Z.ltb_ge _ _)) by lia.
    pose proof (recover_difference scale (negative_ y) (mantissa_ y) (mantissa_ x) (exponent_ y) (exponent_ x) n By Bx ltac:(lia)) as Hd.
    rewrite Hs, negb_involutive in Hd. destruct (align (S n) (mantissa_ x) _) as [xm g]. destruct Hd as (Hxm & Hxm0 & Hd).
    rewrite (proj2 (Z.ltb_ge _ _)) by lia. unfold u128. rewrite Z.mod_small by lia. rewrite <- Hs in Hd.
    rewrite Z.abs_neq by lia. replace (- (mantissa_ x - mantissa_ y * 10 ^ Z.of_nat (S n))) with (mantissa_ y * 10 ^ Z.of_nat (S n) - mantissa_ x) by lia.
    apply (difference_near _ _ _ _ _ _ _ _ Hd); done.
  - destruct (decide (exponent_ x = exponent_ y)) as [Ee|Ee].
    + rewrite Ee, Z.min_id, Z.sub_diag, !Z.mul_1_r, Z.abs_0. change (Z.to_nat 0) with 0%nat. cbn [align]. specialize (Hne Ee).
      assert (forall neg d, d = Z.abs (mantissa_ x - mantissa_ y) -> exists z,
        (let '(m, e, g) := recover scale digitFuel d (exponent_ y) (mkGuard 0 false ((exponent_ y <? exponent_ y) && negative_ y)) in
         Ret (doRoundDown mode g (mkNumber neg m e) (minM scale))) ≫=
        (fun z => normalize mode scale (mkNumber (negative_ z) (u64 (mantissa_ z)) (exponent_ z))) = Ret z /\
        near scale mode neg d (exponent_ y) z) as Hex.
      { intros neg d Hd. eapply difference_near; [apply difference_exact; [done|done|lia|unfold digitFuel; lia]| |done].
        left. unfold maxRep. lia. }
      unfold u128. destruct (Z.ltb_spec (mantissa_ y) (mantissa_ x)).
      * rewrite Z.mod_small, (proj2 (Z.ltb_lt 0 _)) by lia. rewrite Z.abs_eq by lia. apply Hex. lia.
      * rewrite Z.mod_small, (proj2 (Z.ltb_ge 0 _)) by lia. rewrite Z.abs_neq by lia.
        replace (- (mantissa_ x - mantissa_ y)) with (mantissa_ y - mantissa_ x) by lia. apply Hex. lia.
    + rewrite Z.min_r, Z.sub_diag, Z.mul_1_r, (proj2 (Z.ltb_lt (exponent_ y) _)) by lia. cbn [andb].
      destruct (Z.to_nat (Z.abs (exponent_ x - exponent_ y))) as [|n] eqn:En; [lia|].
      replace (exponent_ x - exponent_ y) with (Z.of_nat (S n)) by lia.
      pose proof (Hbig _ (mantissa_ y) n Bx ltac:(lia)). rewrite (proj2 (Z.ltb_lt 0 _)) by lia.
      pose proof (recover_difference scale (negative_ x) (mantissa_ x) (mantissa_ y) (exponent_ x) (exponent_ y) n Bx By ltac:(lia)) as Hd.
      rewrite <- Hs in Hd. destruct (align (S n) (mantissa_ y) _) as [ym g]. destruct Hd as (Hym & Hym0 & Hd).
      rewrite (proj2 (Z.ltb_lt ym _)) by lia. unfold u128. rewrite Z.mod_small by lia. rewrite Z.abs_eq by lia.
      apply (difference_near _ _ _ _ _ _ _ _ Hd); done.
Qed.

End Different.

(** * Division, conversion to integers and truncation *)

(** ** Division *)

Definition divFactor (scale : mantissa_scale) : Z := match scale with small => 10 ^ 17 | large => 10 ^ 19 end.

Lemma divFactor_bounds scale :
  maxM scale < divFactor scale /\ maxM scale * divFactor scale < 2 ^ 128 /\
  maxM scale * divFactor scale * 1000 < minM scale * 2 ^ 128 /\ maxM scale * 1000 < 2 ^ 128.
Proof. by destruct scale; vm_compute. Qed.

(** [operator/=] rounds the quotient cut off after some digits: with [q] and
    [e], [q * y <= x < (q + 1) * y]. *)
Lemma div_result mode scale x y :
  isnormal scale x = true -> isnormal scale y = true -> x <> zero -> y <> zero ->
  exists q e, 0 < q /\
    (val (q * mantissa_ y) (e + exponent_ y) <= val (mantissa_ x) (exponent_ x) < val ((q + 1) * mantissa_ y) (e + exponent_ y))%Q /\
    fitResult scale mode (xorb (negative_ x) (negative_ y)) q e (div mode scale x y).
Proof.
  intros Hx Hy Hx0 Hy0. pose proof (normal_mantissa _ _ Hx Hx0) as Bx. pose proof (normal_mantissa _ _ Hy Hy0) as By.
  pose proof (minM_pos scale). pose proof (divFactor_bounds scale) as (F1 & F2 & F3 & F4).
  unfold div, num_eqb. rewrite !bool_decide_eq_false_2 by done.
  set (xm := mantissa_ x) in *. set (ym := mantissa_ y) in *. set (neg := xorb _ _).
  assert ((if bool_decide (scale = small) then 100000000000000000 else 10000000000000000000) = divFactor scale) as -> by by destruct scale.
  set (f := divFactor scale) in *. unfold u128. rewrite (Z.mod_small (xm * f)) by nia.
  set (q0 := xm * f / ym). set (r := xm * f mod ym).
  pose proof (Z.div_mod (xm * f) ym ltac:(lia)) as E. pose proof (Z.mod_pos_bound (xm * f) ym ltac:(lia)) as Br.
  fold q0 r in E, Br. assert (0 < q0) as Hq0 by nia. assert (q0 * ym <= xm * f) as Hq0u by lia.
  set (c := if bool_decide (scale = small) then 17 else 19).
  assert (f = 10 ^ c) as Ef by (subst f c; by destruct scale). assert (0 <= c) as Hc by (subst c; by destruct scale).
  assert (forall q j, 0 <= j -> 0 < q -> q * ym <= xm * f * 10 ^ j < (q + 1) * ym -> q < 2 ^ 128 ->
    let e := exponent_ x - exponent_ y - c - j in
    (val (q * ym) (e + exponent_ y) <= val xm (exponent_ x) < val ((q + 1) * ym) (e + exponent_ y))%Q /\
    fitResult scale mode neg q e (doNormalize mode (mkNumber neg q e) (minM scale) (maxM scale))) as Hfin.
  { intros q j Hj Hq Hb H128. cbn zeta. replace (exponent_ x - exponent_ y - c - j + exponent_ y) with (exponent_ x - (c + j)) by lia.
    rewrite <- (val_shift' xm (exponent_ x - (c + j)) (exponent_ x) (c + j)) by lia.
    rewrite Z.pow_add_r, Z.mul_assoc, <- Ef by lia. split; [split; [apply val_le|apply val_lt]; lia|].
    by apply (normalize_result mode scale (mkNumber neg q _)). }
  destruct (negb (bool_decide (scale = small)) && negb (r =? 0)) eqn:Ec.
  - b2p. assert (q0 * 1000 < 2 ^ 128) as Hq1000 by nia.
    rewrite (Z.mod_small (q0 * 1000)), (Z.mod_small (r * 1000)) by lia.
    pose proof (Z.div_mod (r * 1000) ym ltac:(lia)) as E1. pose proof (Z.mod_pos_bound (r * 1000) ym ltac:(lia)) as B1.
    pose proof (Z.div_pos (r * 1000) ym ltac:(lia) ltac:(lia)). set (d := r * 1000 / ym) in *.
    assert ((q0 * 1000 + d) * ym <= xm * f * 10 ^ 3 < (q0 * 1000 + d + 1) * ym) as Hb by nia.
    assert (q0 * 1000 + d < 2 ^ 128) by nia. rewrite Z.mod_small by lia.
    eexists _, _. destruct (Hfin (q0 * 1000 + d) 3) as [Hv Hr]; [lia..|]. split; [|split; [exact Hv|exact Hr]]. lia.
  - eexists _, _. destruct (Hfin q0 0) as [Hv Hr]; [lia|lia|rewrite Z.mul_1_r; nia|nia|]. rewrite Z.sub_0_r in Hv, Hr.
    split; [|split; [exact Hv|exact Hr]]. lia.
Qed.

(** ** Conversion to an integer *)

Lemma growDrops_spec n d :
  0 < d <= maxRep ->
  growDrops n d = if d * 10 ^ Z.of_nat n <=? maxRep then Some (d * 10 ^ Z.of_nat n) else None.
Proof.
  unfold maxRep. revert d. induction n as [|n IH]; intros d Hd; cbn [growDrops].
  { rewrite Z.mul_1_r, (proj2 (Z.leb_le _ _)) by lia. done. }
  unfold maxRep. change (9223372036854775807 / 10) with 922337203685477580.
  rewrite Nat2Z.inj_succ, Z.pow_succ_r, Z.mul_assoc by lia.
  destruct (Z.ltb_spec 922337203685477580 d) as [H|H]; [|by rewrite IH by lia].
  assert (1 <= 10 ^ Z.of_nat n) by lia. rewrite (proj2 (Z.leb_gt _ _)) by nia. done.
Qed.

(** The magnitude of the external view. *)
Definition magnitude (x : Number) : Z := if maxRep <? mantissa_ x then mantissa_ x / 10 else mantissa_ x.

Lemma magnitude_bounds scale x :
  isnormal scale x = true -> x <> zero -> 0 < magnitude x <= maxRep.
Proof.
  intros Hx Hx0. pose proof (normal_mantissa _ _ Hx Hx0) as B. pose proof (minM_pos scale). pose proof (minM_le scale).
  pose proof (maxM_minM scale). unfold magnitude, maxRep in *. destruct (Z.ltb_spec 9223372036854775807 (mantissa_ x)); [|lia].
  split; [apply Z.div_str_pos; lia|]. apply Z.div_le_upper_bound; lia.
Qed.

Definition signed (neg : bool) (n : Z) : Z := if neg then - n else n.

Lemma toRep_eq mode x :
  magnitude x <> 0 ->
  toRep mode x =
  let '(d, g) := align (Z.to_nat (- exponent x)) (magnitude x) (if negative_ x then set_negative newGuard else newGuard) in
  require "Number::operator rep() overflow" (growDrops (Z.to_nat (exponent x)) d) ≫= fun d =>
  doRound mode g d "Number::operator rep() rounding overflow".
Proof.
  intros Hm. unfold toRep, mantissa. fold (magnitude x). rewrite (proj2 (Z.eqb_neq _ _)) by (destruct (negative_ x); lia).
  destruct (negative_ x); [replace (- (-1 * magnitude x)) with (magnitude x) by lia|rewrite Z.mul_1_l]; done.
Qed.

(** Any number whose magnitude fits, normal or not. *)
Lemma toRep_rounds mode x :
  0 < magnitude x <= maxRep ->
  if 0 <? exponent x
  then toRep mode x = if magnitude x * 10 ^ exponent x <=? maxRep then Ret (signed (negative_ x) (magnitude x * 10 ^ exponent x))
                      else Throw "Number::operator rep() overflow"
  else exists n, toRep mode x = Ret (signed (negative_ x) n) /\ 
         rounding mode (negative_ x) (magnitude x) (10 ^ (- exponent x)) n.
Proof.
  intros Hm. rewrite toRep_eq by lia.
  set (m := magnitude x) in *. set (e := exponent x). set (neg := negative_ x).
  pose proof (cut_new m e neg) as C. destruct (Z.ltb_spec 0 e) as [He|He].
  - replace (Z.to_nat (- e)) with 0%nat by lia. cbn [align]. rewrite growDrops_spec by lia. rewrite Z2Nat.id by lia.
    destruct (m * 10 ^ e <=? maxRep); [|done]. cbn [require mbind outcome_bind]. unfold doRound.
    rewrite no_roundsUp by (by destruct neg). by destruct neg.
  - pose proof (align_cut (Z.to_nat (- e)) _ _ _ _ _ _ _ C) as Ca.
    destruct (align _ m _) as [d g]. cbn [Nat.add] in Ca. replace (Z.to_nat e) with 0%nat by lia.
    cbn [growDrops require mbind outcome_bind]. unfold doRound. exists (roundedTo mode neg m (Z.to_nat (- e))).
    assert (roundsUp mode g d = true -> d < maxRep) as Hlt.
    { intros Hu. pose proof (cut_tracks _ _ _ _ _ _ _ Ca) as T. rewrite (roundsUp_spec _ _ _ _ _ T) in Hu.
      apply up_positive in Hu; [|apply T]. pose proof (cut_div _ _ _ _ _ _ _ Ca) as Ed.
      assert (0 <= d) by (rewrite Ed; apply Z.div_pos; lia). assert (1 <= 10 ^ Z.of_nat (Z.to_nat (- e))) by lia. nia. }
    split; [|replace (- e) with (Z.of_nat (Z.to_nat (- e))) at 1 by lia; apply roundedTo_rounding].
    rewrite (cut_rounded mode _ _ _ _ _ _ _ Ca), (cut_sign _ _ _ _ _ _ _ Ca). destruct (roundsUp mode g d).
    + rewrite (proj2 (Z.leb_gt _ _)) by (by apply Hlt). done.
    + by rewrite Z.add_0_r.
Qed.

Lemma toRep_result mode scale x :
  isnormal scale x = true -> x <> zero ->
  if 0 <? exponent x
  then toRep mode x = if magnitude x * 10 ^ exponent x <=? maxRep then Ret (signed (negative_ x) (magnitude x * 10 ^ exponent x))
                      else Throw "Number::operator rep() overflow"
  else exists n, toRep mode x = Ret (signed (negative_ x) n) /\ 
         rounding mode (negative_ x) (magnitude x) (10 ^ (- exponent x)) n.
Proof. intros Hx Hx0. by eapply toRep_rounds, magnitude_bounds. Qed.

(** ** Truncation *)

Lemma truncateLoop_spec fuel m e :
  0 <= m < 10 ^ Z.of_nat fuel ->
  let '(m', e') := truncateLoop fuel m e in
  exists j : nat, m' = m / 10 ^ Z.of_nat j /\ e' = e + Z.of_nat j /\ (0 <= e' \/ m' = 0) /\ (j = 0%nat \/ e' <= 0).
Proof.
  revert m e. induction fuel as [|fuel IH]; intros m e Hm; cbn [truncateLoop].
  { exists 0%nat. rewrite Z.div_1_r. cbn in Hm. split_and!; lia. }
  destruct (Z.ltb_spec e 0); [|exists 0%nat; rewrite Z.div_1_r; split_and!; lia]. cbn [andb].
  destruct (Z.eqb_spec m 0); cbn [negb]; [exists 0%nat; rewrite Z.div_1_r; split_and!; lia|].
  rewrite Nat2Z.inj_succ, Z.pow_succ_r in Hm by lia. specialize (IH (m / 10) (e + 1)).
  destruct (truncateLoop fuel (m / 10) (e + 1)) as [m' e'].
  destruct IH as (j & -> & -> & H1 & H2); [split; [apply Z.div_pos|apply Z.div_lt_upper_bound]; lia|].
  exists (S j). rewrite Nat2Z.inj_succ, Z.pow_succ_r, <- Z.div_div by lia. split_and!; lia.
Qed.

(** A multiple of a unit that fits the range is normalized without rounding. *)
Lemma exact_digits M e0 q e (k : nat) t :
  0 < M -> 0 < q <= t -> (val M e0 == val q e)%Q ->
  k = 0%nat \/ t < M / 10 ^ (Z.of_nat k - 1) -> exists q', M = q' * 10 ^ Z.of_nat k.
Proof.
  intros HM Hq Hv [->|Hk]; [exists M; lia|]. destruct k as [|k]; [exists M; lia|].
  replace (Z.of_nat (S k) - 1) with (Z.of_nat k) in Hk by lia.
  destruct (Z.le_gt_cases e0 e) as [He|He].
  - rewrite <- (val_shift' q e0 e (e - e0)) in Hv by lia. apply val_inj in Hv. subst M.
    destruct (Z.le_gt_cases (Z.of_nat (S k)) (e - e0)) as [Hle|Hgt].
    + exists (q * 10 ^ (e - e0 - Z.of_nat (S k))). rewrite <- Z.mul_assoc, <- Z.pow_add_r by lia. do 2 f_equal. lia.
    + exfalso. assert (q * 10 ^ (e - e0) / 10 ^ Z.of_nat k <= q); [|lia].
      apply Z.div_le_upper_bound; [lia|]. assert (10 ^ (e - e0) <= 10 ^ Z.of_nat k) by (apply Z.pow_le_mono_r; lia). nia.
  - rewrite <- (val_shift' M e e0 (e0 - e)) in Hv by lia. apply val_inj in Hv. exfalso.
    assert (1 <= 10 ^ (e0 - e)) by lia. assert (M / 10 ^ Z.of_nat k <= M); [|nia].
    apply Z.div_le_upper_bound; [lia|]. assert (1 <= 10 ^ Z.of_nat k) by lia. nia.
Qed.

Lemma normalize_exact mode scale neg M e0 q e :
  0 < M < 2 ^ 128 -> 0 < q <= top scale -> (val M e0 == val q e)%Q ->
  minExponent + 18 <= e <= maxExponent ->
  exists y, normalize mode scale (mkNumber neg M e0) = Ret y /\ isnormal scale y = true /\ negative_ y = neg /\
    (val (mantissa_ y) (exponent_ y) == val M e0)%Q.
Proof.
  intros HM Hq Hv He. pose proof (minM_le scale) as Hmn. pose proof (minM_pos scale).
  pose proof (normalize_result mode scale (mkNumber neg M e0)) as Hr. cbn [negative_ mantissa_ exponent_] in Hr.
  specialize (Hr ltac:(lia)). destruct (normalize mode scale (mkNumber neg M e0)) as [w|y]; unfold fitResult in Hr.
  - exfalso. pose proof (val_mono_exp (top scale) e maxExponent ltac:(lia) ltac:(lia)).
    pose proof (val_le q (top scale) e ltac:(lia)). lra.
  - exists y. split; [done|]. destruct Hr as [[_ Hlt]|(Hn & Hs & k & n & Hr & Hk & Htop & Hval)].
    + exfalso. pose proof (val_le (minM scale) (1 * 10 ^ 18) minExponent ltac:(lia)).
      pose proof (val_mono_exp (1 * 10 ^ 18) minExponent (e - 18) ltac:(lia) ltac:(lia)) as H2.
      rewrite (val_shift' 1 (e - 18) e 18) in H2 by lia. pose proof (val_le 1 q e ltac:(lia)). lra.
    + destruct (exact_digits M e0 q e k (top scale) ltac:(lia) Hq Hv Hk) as [q' ->].
      rewrite Z.div_mul in Htop by lia. apply rounding_exact in Hr; [|lia]. subst n.
      rewrite decide_False in Hval by (apply top_large_bound; lia). split_and!; [done..|].
      rewrite Hval. symmetry. apply val_shift'; lia.
Qed.

Lemma truncate_result mode scale x :
  isnormal scale x = true -> exponent_ x < 0 -> x <> zero ->
  let m := mantissa_ x / 10 ^ (- exponent_ x) in
  if m =? 0 then truncate mode scale x = Ret zero
  else exists y, truncate mode scale x = Ret y /\ isnormal scale y = true /\ negative_ y = negative_ x /\
    (val (mantissa_ y) (exponent_ y) == val m 0)%Q.
Proof.
  intros Hx He Hx0. cbn zeta. pose proof (normal_mantissa _ _ Hx Hx0) as B. pose proof (minM_pos scale).
  pose proof (minM_le scale). pose proof (maxM_minM scale). pose proof (minM_top scale).
  unfold truncate. rewrite (proj2 (Z.leb_gt _ _)), (proj2 (Z.eqb_neq (mantissa_ x) 0)) by lia. cbn [orb].
  pose proof (truncateLoop_spec digitFuel (mantissa_ x) (exponent_ x)) as Ht.
  destruct (truncateLoop _ _ _) as [m' e']. destruct Ht as (j & -> & -> & Hend & Hj0).
  { split; [lia|]. change (Z.of_nat digitFuel) with 40. lia. }
  destruct Hj0 as [->|Hj0].
  { exfalso. rewrite Z.div_1_r in Hend. lia. }
  assert (0 <= Z.of_nat j <= - exponent_ x) as Hj by lia.
  destruct (decide (mantissa_ x / 10 ^ Z.of_nat j = 0)) as [Hz|Hz].
  - assert (mantissa_ x / 10 ^ (- exponent_ x) = 0) as ->.
    { apply Z.div_small_iff in Hz; [|lia]. apply Z.div_small. destruct Hz as [Hz|Hz]; [|lia]. split; [lia|].
      eapply Z.lt_le_trans; [apply Hz|]. apply Z.pow_le_mono_r; lia. }
    rewrite Hz. done.
  - assert (exponent_ x + Z.of_nat j = 0) as Ej by lia. assert (Z.of_nat j = - exponent_ x) as E by lia.
    rewrite Ej, E in *. rewrite (proj2 (Z.eqb_neq _ _)) by done.
    assert (0 <= mantissa_ x / 10 ^ (- exponent_ x)) by (apply Z.div_pos; lia).
    assert (mantissa_ x / 10 ^ (- exponent_ x) < minM scale).
    2: { apply (normalize_exact _ _ _ _ _ (mantissa_ x / 10 ^ (- exponent_ x)) 0); [lia|lia|done|unfold minExponent, maxExponent; lia]. }
    apply Z.div_lt_upper_bound; [lia|].
    replace (- exponent_ x) with (Z.succ (- exponent_ x - 1)) by lia. rewrite Z.pow_succ_r by lia.
    assert (1 <= 10 ^ (- exponent_ x - 1)) by lia. nia.
Qed.
