(* ===== verification/NumberProperties.v ===== *)
(** * Properties of Number *)

From Stdlib Require Import QArith Qpower Lqa.
From stdpp Require Import strings.
From S2P Require Import Prelude Outcome Number NumberFacts NumberAdd.
Local Open Scope Z_scope.

(** The value of a number. *)
Definition value (x : Number) : Q :=
  let v := val (mantissa_ x) (exponent_ x) in if negative_ x then (- v)%Q else v.

(** ** Order *)

Lemma isnormal_zero scale : isnormal scale zero = true.
Proof. by destruct scale. Qed.

Lemma isnormal_mantissa scale x : isnormal scale x = true -> mantissa_ x = 0 -> x = zero.
Proof. intros [->|(Hm & _)]%isnormal_cases; [done|]. pose proof (minM_pos scale). lia. Qed.

Lemma val_exp_lt scale m n e e' :
  minM scale <= n -> 0 <= m <= maxM scale -> e < e' -> (val m e < val n e')%Q.
Proof.
  intros Hn Hm He. pose proof (maxM_minM scale). pose proof (minM_pos scale).
  eapply Qlt_le_trans; [apply (val_lt m (n * 10 ^ 1)); lia|]. rewrite val_shift by lia. apply val_mono_exp; lia.
Qed.

(** The test on magnitudes that [operator<] makes for numbers of one sign. *)
Lemma magnitude_order scale x y :
  isnormal scale x = true -> isnormal scale y = true -> x <> zero -> y <> zero ->
  (exponent_ x < exponent_ y \/ exponent_ x = exponent_ y /\ mantissa_ x < mantissa_ y) <->
  (val (mantissa_ x) (exponent_ x) < val (mantissa_ y) (exponent_ y))%Q.
Proof.
  intros Hx Hy Hx0 Hy0. pose proof (normal_mantissa _ _ Hx Hx0). pose proof (normal_mantissa _ _ Hy Hy0).
  pose proof (minM_pos scale).
  destruct (Z.lt_trichotomy (exponent_ x) (exponent_ y)) as [He|[He|He]].
  - split; [intros _; apply (val_exp_lt scale); lia|by left].
  - rewrite He. split; [intros [?|[_ ?]]; [lia|by apply val_lt]|]. intros Hlt. right. split; [done|].
    destruct (Z.lt_ge_cases (mantissa_ x) (mantissa_ y)) as [|Hge]; [done|].
    pose proof (val_le _ _ (exponent_ y) Hge). lra.
  - split; [lia|]. intros Hlt.
    assert (val (mantissa_ y) (exponent_ y) < val (mantissa_ x) (exponent_ x))%Q by (apply (val_exp_lt scale); lia). lra.
Qed.

Lemma value_positive scale x : isnormal scale x = true -> x <> zero -> (0 < val (mantissa_ x) (exponent_ x))%Q.
Proof.
  intros Hx Hx0. pose proof (normal_mantissa _ _ Hx Hx0). pose proof (minM_pos scale).
  rewrite <- (val_zero (exponent_ x)). apply val_lt. lia.
Qed.

Lemma value_zero : (value zero == 0)%Q.
Proof. unfold value. cbn. apply val_zero. Qed.

(** Two negative numbers with one exponent. *)
Definition bothNegative (x y : Number) : Prop :=
  negative_ x = true /\ negative_ y = true /\ exponent_ x = exponent_ y.

Lemma num_ltb_spec scale x y :
  isnormal scale x = true -> isnormal scale y = true -> ~ bothNegative x y ->
  num_ltb x y = true <-> (value x < value y)%Q.
Proof.
  intros Hx Hy Hb. unfold num_ltb.
  destruct (decide (x = zero)) as [->|Hx0], (decide (y = zero)) as [->|Hy0]; try rewrite value_zero; unfold value.
  - cbn. split; [done|]. lra.
  - pose proof (value_positive _ _ Hy Hy0). pose proof (normal_mantissa _ _ Hy Hy0). pose proof (minM_pos scale).
    destruct (negative_ y); cbn; [split; [done|lra]|]. rewrite Z.ltb_lt. split; [done|lia].
  - pose proof (value_positive _ _ Hx Hx0). pose proof (normal_mantissa _ _ Hx Hx0). pose proof (minM_pos scale).
    destruct (negative_ x); cbn; [split; [lra|done]|]. rewrite (proj2 (Z.eqb_neq _ _)) by lia. split; [done|lra].
  - pose proof (value_positive _ _ Hx Hx0). pose proof (value_positive _ _ Hy Hy0).
    pose proof (normal_mantissa _ _ Hx Hx0). pose proof (normal_mantissa _ _ Hy Hy0). pose proof (minM_pos scale).
    pose proof (magnitude_order _ _ _ Hx Hy Hx0 Hy0) as Ho. pose proof (magnitude_order _ _ _ Hy Hx Hy0 Hx0) as Ho'.
    rewrite !(proj2 (Z.eqb_neq _ 0)) by lia.
    destruct (negative_ x) eqn:Nx, (negative_ y) eqn:Ny; cbn [eqb negb]; [|split; [lra|done]|split; [done|lra]|].
    + assert (exponent_ x <> exponent_ y) as Hne by (intros ?; by apply Hb).
      assert (forall a b, (- a < - b <-> b < a)%Q) as Hopp by (intros; split; lra). rewrite Hopp, <- Ho'.
      destruct (Z.ltb_spec (exponent_ y) (exponent_ x)); [split; [by left|done]|].
      rewrite (proj2 (Z.ltb_lt _ _)) by lia. cbn. split; [done|lia].
    + rewrite <- Ho. destruct (Z.ltb_spec (exponent_ y) (exponent_ x)); [split; [done|lia]|].
      destruct (Z.ltb_spec (exponent_ x) (exponent_ y)); [split; [lia|done]|]. rewrite Z.ltb_lt. lia.
Qed.

(** ** Normal results *)

Lemma rounded_normal scale mode neg M e r y : fitResult scale mode neg M e r -> r = Ret y -> isnormal scale y = true.
Proof. intros Hr ->. destruct Hr as [[-> _]|[? _]]; [apply isnormal_zero|done]. Qed.

Lemma opp_normal scale x : isnormal scale x = true -> isnormal scale (opp x) = true.
Proof.
  intros Hx. unfold opp. destruct (Z.eqb_spec (mantissa_ x) 0); [apply isnormal_zero|].
  apply isnormal_cases in Hx as [->|(Hm & Hr & He)]; [done|]. unfold isnormal. cbn [mantissa_ exponent_].
  rewrite orb_true_iff, !andb_true_iff, orb_true_iff, !Z.leb_le, Z.eqb_eq. right. lia.
Qed.

Lemma doRoundUp_normal mode g scale neg m e location y :
  roundable scale m -> doRoundUp mode g (mkNumber neg m e) (minM scale) (maxM scale) location = Ret y ->
  isnormal scale y = true.
Proof.
  intros Hm. rewrite doRoundUp_fit by done. unfold checked.
  destruct (Z.ltb_spec (exponent_ (fit scale neg (m + if roundsUp mode g m then 1 else 0) e)) minExponent).
  { intros [= <-]. apply isnormal_zero. }
  destruct (Z.ltb_spec maxExponent (exponent_ (fit scale neg (m + if roundsUp mode g m then 1 else 0) e))); [done|].
  intros [= <-]. apply fit_normal; [done|destruct (roundsUp mode g m); auto|done].
Qed.

Lemma renormalized mode scale y z :
  isnormal scale y = true ->
  normalize mode scale (mkNumber (negative_ y) (u64 (mantissa_ y)) (exponent_ y)) = Ret z -> isnormal scale z = true.
Proof.
  intros Hy. assert (0 <= mantissa_ y < 2 ^ 64).
  { pose proof Hy as Hy'. apply isnormal_cases in Hy' as [->|(Hm & _)]; [cbn; lia|]. pose proof (minM_pos scale).
    pose proof (minM_le scale). pose proof (maxM_minM scale). lia. }
  rewrite u64_id by done. replace (mkNumber (negative_ y) (mantissa_ y) (exponent_ y)) with y by by destruct y.
  destruct (normalize_normal mode scale y Hy) as [->|(_ & _ & w & ->)]; [by intros [= <-]|done].
Qed.

(** Equal exponents: the guard has no sign, but the result is normal all the same. *)
Lemma add_equal_normal mode scale x y z :
  isnormal scale x = true -> isnormal scale y = true -> x <> zero -> y <> zero -> x <> opp y ->
  negative_ x = negative_ y -> exponent_ x = exponent_ y ->
  add mode scale x y = Ret z -> isnormal scale z = true.
Proof.
  intros Hx Hy Hx0 Hy0 Hxy Hs He. rewrite add_same_eq by done. rewrite He, Z.ltb_irrefl. cbv beta iota zeta. rewrite He, Z.sub_diag, Z.ltb_irrefl.
  change (Z.to_nat 0) with 0%nat. cbn [align andb]. pose proof (normal_mantissa _ _ Hx Hx0). pose proof (normal_mantissa _ _ Hy Hy0).
  pose proof (minM_pos scale). pose proof (minM_le scale). pose proof (maxM_minM scale). pose proof (minM_top scale).
  unfold u128. rewrite Z.mod_small by lia. set (m := mantissa_ x + mantissa_ y).
  destruct ((maxM scale <? m) || (maxRep <? m)) eqn:Hb; intros (r & Hr & Hz)%bind_Ret.
  - eapply renormalized; [|exact Hz]. eapply doRoundUp_normal; [|exact Hr]. apply roundable_bounds.
    assert (top scale < m) by (apply orb_true_iff in Hb; unfold top; destruct Hb; b2p; lia).
    split; [apply Z.div_le_mono; lia|]. apply Z.div_le_upper_bound; [lia|]. subst m.
    destruct scale; [rewrite top_small in *; destruct range_small as (_ & E & _)|rewrite top_large in *; destruct range_large as (_ & E & _)]; lia.
  - eapply renormalized; [|exact Hz]. eapply doRoundUp_normal; [|exact Hr]. b2p. subst m. unfold maxRep in *.
    destruct scale; cbn [roundable]; unfold maxRep; [destruct range_small as (E1 & E2 & _)|destruct range_large as (E1 & E2 & _)]; lia.
Qed.

Lemma add_normal mode scale x y z :
  isnormal scale x = true -> isnormal scale y = true -> external_ok x -> external_ok y ->
  add mode scale x y = Ret z -> isnormal scale z = true.
Proof.
  intros Hx Hy Hxe Hye Hz.
  destruct (decide (y = zero)) as [->|Hy0].
  { unfold add, num_eqb in Hz. rewrite bool_decide_eq_true_2 in Hz by done. by injection Hz as <-. }
  destruct (decide (x = zero)) as [->|Hx0].
  { unfold add, num_eqb in Hz. rewrite bool_decide_eq_false_2, bool_decide_eq_true_2 in Hz by done. by injection Hz as <-. }
  destruct (decide (x = opp y)) as [E|Hxy].
  { unfold add, num_eqb in Hz. rewrite !bool_decide_eq_false_2, bool_decide_eq_true_2 in Hz by done.
    injection Hz as <-. apply isnormal_zero. }
  destruct (decide (negative_ x = negative_ y)) as [Hs|Hs].
  - destruct (decide (exponent_ x = exponent_ y)) as [He|He]; [by apply (add_equal_normal mode scale x y z)|].
    eapply rounded_normal; [|exact Hz]. apply add_same_result; try done. by left.
  - destruct (add_diff_near mode scale x y) as (z' & E & Hn); try done; [by destruct (negative_ x), (negative_ y)|].
    rewrite Hz in E. injection E as <-. destruct Hn as [[-> _]|[? _]]; [apply isnormal_zero|done].
Qed.

Lemma mul_zero mode scale x y z :
  x = zero \/ y = zero -> mul mode scale x y = Ret z -> z = zero.
Proof.
  unfold mul, num_eqb. intros Hxy. destruct (decide (x = zero)) as [->|Hx0].
  { rewrite bool_decide_eq_true_2 by done. by intros [= <-]. }
  destruct Hxy as [?|Hy]; [done|]. rewrite (bool_decide_eq_false_2 (x = zero)), (bool_decide_eq_true_2 (y = zero)) by done.
  by intros [= <-].
Qed.

Lemma div_zero mode scale x y z :
  x = zero \/ y = zero -> div mode scale x y = Ret z -> z = zero.
Proof.
  unfold div, num_eqb. intros Hxy. destruct (decide (y = zero)) as [->|Hy0].
  { rewrite bool_decide_eq_true_2 by done. done. }
  destruct Hxy as [Hx|?]; [|done]. rewrite (bool_decide_eq_false_2 (y = zero)), (bool_decide_eq_true_2 (x = zero)) by done.
  by intros [= <-].
Qed.

Lemma normal_nonneg scale x : isnormal scale x = true -> 0 <= mantissa_ x.
Proof. intros [->|(Hm & _)]%isnormal_cases; [done|]. pose proof (minM_pos scale). lia. Qed.

(** ** Properties *)

(** C20: the product of two nonzero normal numbers is the exact product rounded
    once in the rounding mode: as many digits as needed are dropped, the mantissa
    is rounded to nearest (ties to even), towards zero, down or up as the mode
    says, the result is normal and has the sign of the product; the product
    throws only above the largest number and is zero only below the smallest.
    The exception: in the large scale, when the rounded mantissa would be 2^63,
    one more than the largest, its last digit is lost and the mantissa is
    9223372036854775800, eight units below. *)
Theorem multiplication_rounds mode scale x y :
  isnormal scale x = true -> isnormal scale y = true -> x <> zero -> y <> zero ->
  let neg := xorb (negative_ x) (negative_ y) in
  let M := mantissa_ x * mantissa_ y in
  (~ roundsToLimit scale mode neg M -> result scale mode neg M (exponent_ x + exponent_ y) (mul mode scale x y)) /\
  (roundsToLimit scale mode neg M -> limitResult scale mode neg M (exponent_ x + exponent_ y) (mul mode scale x y)).
Proof.
  intros Hx Hy Hx0 Hy0 neg M. apply fitResult_cases; [|by apply mul_result].
  pose proof (normal_nonneg _ _ Hx). pose proof (normal_nonneg _ _ Hy). by apply Z.mul_nonneg_nonneg.
Qed.

(** C19: the sum of two nonzero normal numbers of one sign is the exact sum
    rounded once in the mode (see the product), with the same exception in the
    large scale when the rounded mantissa would be 2^63.  Not covered is the sum
    of two negative numbers with one exponent in the modes down and up, which the
    code rounds as if they were positive. *)
Theorem addition_rounds mode scale x y :
  isnormal scale x = true -> isnormal scale y = true -> x <> zero -> y <> zero ->
  negative_ x = negative_ y -> signKnown mode x y ->
  let e := Z.min (exponent_ x) (exponent_ y) in
  (~ roundsToLimit scale mode (negative_ x) (sumMag x y) ->
   result scale mode (negative_ x) (sumMag x y) e (add mode scale x y)) /\
  (roundsToLimit scale mode (negative_ x) (sumMag x y) ->
   limitResult scale mode (negative_ x) (sumMag x y) e (add mode scale x y)).
Proof.
  intros Hx Hy Hx0 Hy0 Hs Hk e. apply fitResult_cases; [|by apply add_same_result].
  pose proof (normal_nonneg _ _ Hx). pose proof (normal_nonneg _ _ Hy). unfold sumMag.
  apply Z.add_nonneg_nonneg; apply Z.mul_nonneg_nonneg; try done; apply Z.pow_nonneg; lia.
Qed.

(** The sum of two normal numbers of different signs never throws; it is
    zero only if the exact sum is below the smallest number, and otherwise has
    the sign of the larger operand, is less than two units of the last place
    from the exact sum, and not above it (below it) when the mode is downward
    (upward). *)
Theorem subtraction_near mode scale x y :
  isnormal scale x = true -> isnormal scale y = true -> x <> zero -> y <> zero ->
  external_ok x -> external_ok y -> negative_ y = negb (negative_ x) -> x <> opp y ->
  exists z, add mode scale x y = Ret z /\
  near scale mode (if 0 <? diffMag x y then negative_ x else negative_ y) (Z.abs (diffMag x y))
    (Z.min (exponent_ x) (exponent_ y)) z.
Proof. apply add_diff_near. Qed.

(** C39: the result of every arithmetic operation on normal numbers is normal:
    mantissa and exponent are in the range of the scale. *)
Theorem arithmetic_normal mode scale x y z :
  isnormal scale x = true -> isnormal scale y = true -> external_ok x -> external_ok y ->
  add mode scale x y = Ret z \/ sub mode scale x y = Ret z \/ mul mode scale x y = Ret z \/ div mode scale x y = Ret z ->
  isnormal scale z = true.
Proof.
  intros Hx Hy Hxe Hye [Hz|[Hz|[Hz|Hz]]].
  - by apply (add_normal mode scale x y z).
  - apply (add_normal mode scale x (opp y) z); try done; [by apply opp_normal|].
    unfold opp, external_ok in *. destruct (_ =? _); [cbn; left; unfold maxRep; lia|done].
  - destruct (decide (x = zero \/ y = zero)) as [H0|H0]; [rewrite (mul_zero mode scale x y z) by done; apply isnormal_zero|].
    eapply rounded_normal; [|exact Hz]. apply mul_result; tauto.
  - destruct (decide (x = zero \/ y = zero)) as [H0|H0]; [rewrite (div_zero mode scale x y z) by done; apply isnormal_zero|].
    destruct (div_result mode scale x y) as (q & e & _ & _ & Hr); [tauto..|]. eapply rounded_normal; [exact Hr|exact Hz].
Qed.

(** [divu10], the optimised division of a 128-bit number by ten, answers
    its remainder and leaves its quotient. *)
Theorem divu10_divides u : 0 <= u < 2 ^ 128 -> divu10 u = (u mod 10, u / 10).
Proof. apply divu10_spec. Qed.

(** [operator<] orders normal numbers by value, except two negative numbers
    with one exponent, which it orders the other way round. *)
Theorem comparison_by_value scale x y :
  isnormal scale x = true -> isnormal scale y = true ->
  if decide (bothNegative x y)
  then num_ltb x y = true <-> (value y < value x)%Q
  else num_ltb x y = true <-> (value x < value y)%Q.
Proof.
  intros Hx Hy. case_decide as Hb; [|by apply (num_ltb_spec scale)].
  destruct Hb as (Nx & Ny & He). unfold num_ltb, value. rewrite Nx, Ny, He, Z.ltb_irrefl. cbn [eqb negb].
  assert (x <> zero /\ y <> zero) as [Hx0 Hy0] by (split; intros ->; done).
  pose proof (normal_mantissa _ _ Hx Hx0). pose proof (normal_mantissa _ _ Hy Hy0). pose proof (minM_pos scale).
  rewrite !(proj2 (Z.eqb_neq _ 0)), Z.ltb_lt by lia.
  pose proof (magnitude_order _ _ _ Hx Hy Hx0 Hy0) as Ho. rewrite He in Ho.
  split; [intros Hlt; assert (val (mantissa_ x) (exponent_ y) < val (mantissa_ y) (exponent_ y))%Q by (apply Ho; by right); lra|].
  intros Hlt. destruct Ho as [_ Ho]. destruct Ho as [?|[_ ?]]; [lra|lia|done].
Qed.

(** [operator rep] converts a normal number to the nearest integer in the
    mode; it throws only if the number is an integer beyond 63 bits. *)
Theorem conversion_rounds mode scale x :
  isnormal scale x = true -> x <> zero ->
  if 0 <? exponent x
  then toRep mode x = if magnitude x * 10 ^ exponent x <=? maxRep then Ret (signed (negative_ x) (magnitude x * 10 ^ exponent x))
                      else Throw "Number::operator rep() overflow"
  else exists n, toRep mode x = Ret (signed (negative_ x) n) /\
         rounding mode (negative_ x) (magnitude x) (10 ^ (- exponent x)) n.
Proof. apply toRep_result. Qed.

(** Results of normal numbers that the mode does not allow: a difference
    rounded towards zero that is too large; a sum of negative numbers rounded
    downward that is too large; a sum to nearest that is smaller than its
    first operand though the second is positive; a quotient rounded upward
    that is too small. *)
Theorem rounding_departures :
  (exists x y z, isnormal small x = true /\ isnormal small y = true /\ add towards_zero small x y = Ret z /\
     0 < value x + value y < value z)%Q /\
  (exists x y z, isnormal small x = true /\ isnormal small y = true /\ add downward small x y = Ret z /\
     value x + value y < value z)%Q /\
  (exists x y z, isnormal large x = true /\ isnormal large y = true /\ add to_nearest large x y = Ret z /\
     0 < value y /\ value z < value x)%Q /\
  (exists x y z, isnormal small x = true /\ isnormal small y = true /\ div upward small x y = Ret z /\
     0 < value y /\ value z * value y < value x)%Q.
Proof.
  split_and!.
  - exists (one small), (mkNumber true (10 ^ 15) (-45)), (one small).
    split_and!; [vm_compute; reflexivity..|].
    vm_compute; reflexivity.
  - exists (mkNumber true 9999999999999999 0), (mkNumber true 9999999999999998 0), (mkNumber true 1999999999999999 1).
    split_and!; vm_compute; reflexivity.
  - exists (mkNumber false 9223372036854775807 0), (mkNumber false (6 * 10 ^ 18) (-19)), (mkNumber false 9223372036854775800 0).
    split_and!; vm_compute; reflexivity.
  - exists (one small), (mkNumber false 1110000000000000 (-13)), (mkNumber false 9009009009009009 (-18)).
    split_and!; vm_compute; reflexivity.
Qed.

(** ** Witnesses *)

Lemma multiplication_rounds_witness :
  result small upward false (1333333333333333 * 7000000000000001) (-20 + 3)
    (mul upward small (mkNumber false 1333333333333333 (-20)) (mkNumber false 7000000000000001 3)).
Proof.
  refine (proj1 (multiplication_rounds upward small (mkNumber false 1333333333333333 (-20)) (mkNumber false 7000000000000001 3) _ _ _ _) _);
    [reflexivity|reflexivity|discriminate|discriminate|]. by intros [? _].
Defined.

Lemma addition_rounds_witness :
  result small downward true (1333333333333333 * 10 ^ (-18 - -20) + 7000000000000001 * 10 ^ (-20 - -20)) (-20)
    (add downward small (mkNumber true 1333333333333333 (-18)) (mkNumber true 7000000000000001 (-20))) /\
  limitResult large to_nearest false (9223372036854775807 * 10 ^ 19 + 6 * 10 ^ 18) (-19)
    (add to_nearest large (mkNumber false 9223372036854775807 0) (mkNumber false 6000000000000000000 (-19))).
Proof.
  split.
  - refine (proj1 (addition_rounds downward small (mkNumber true 1333333333333333 (-18)) (mkNumber true 7000000000000001 (-20)) _ _ _ _ _ _) _);
      [reflexivity|reflexivity|discriminate|discriminate|reflexivity|left; discriminate|]. by intros [? _].
  - refine (proj2 (addition_rounds to_nearest large (mkNumber false 9223372036854775807 0) (mkNumber false 6000000000000000000 (-19)) _ _ _ _ _ _) _);
      [reflexivity|reflexivity|discriminate|discriminate|reflexivity|left; discriminate|].
    split; [reflexivity|]. exists 19%nat. split; [|split; [right|]]; vm_compute; [split|..]; (reflexivity || discriminate).
Defined.

Lemma subtraction_near_witness :
  exists z, add upward small (mkNumber true 1333333333333333 (-18)) (mkNumber false 7000000000000001 (-19)) = Ret z /\
    near small upward true 6333333333333329 (-19) z.
Proof.
  apply (subtraction_near upward small (mkNumber true 1333333333333333 (-18)) (mkNumber false 7000000000000001 (-19)));
    try (vm_compute; (reflexivity || discriminate)); left; vm_compute; discriminate.
Defined.

Lemma arithmetic_normal_witness : isnormal large (mkNumber false 9223372036854775800 0) = true.
Proof.
  apply (arithmetic_normal to_nearest large (mkNumber false 9223372036854775807 0) (mkNumber false (6 * 10 ^ 18) (-19)));
    [vm_compute; reflexivity..|left; vm_compute; discriminate|left; vm_compute; discriminate|left; vm_compute; reflexivity].
Defined.

Lemma divu10_divides_witness : divu10 (2 ^ 128 - 1) = (5, 34028236692093846346337460743176821145).
Proof. apply (divu10_divides (2 ^ 128 - 1)). vm_compute. split; [discriminate|reflexivity]. Defined.

Lemma comparison_by_value_witness :
  num_ltb (mkNumber true (2 * 10 ^ 18) (-18)) (mkNumber true (3 * 10 ^ 18) (-18)) = true <->
  (value (mkNumber true (3 * 10 ^ 18) (-18)) < value (mkNumber true (2 * 10 ^ 18) (-18)))%Q.
Proof.
  pose proof (comparison_by_value large (mkNumber true (2 * 10 ^ 18) (-18)) (mkNumber true (3 * 10 ^ 18) (-18))) as H.
  rewrite decide_True in H by (split_and!; reflexivity). apply H; vm_compute; reflexivity.
Defined.

Lemma conversion_rounds_witness :
  exists n, toRep to_nearest (mkNumber true 2500000000000000 (-15)) = Ret (signed true n) /\
    rounding to_nearest true 2500000000000000 (10 ^ 15) n.
Proof. apply (conversion_rounds to_nearest small (mkNumber true 2500000000000000 (-15))); vm_compute; (reflexivity || discriminate). Defined.
