(* ===== verification/Amount.v ===== *)
(** * Assets, IOUAmount and STAmount

    Models [include/xrpl/protocol/Issue.h], [MPTIssue.h], [Asset.h],
    [src/libxrpl/protocol/IOUAmount.cpp] and the construction, canonicalization,
    addition, comparison and serialization of
    [src/libxrpl/protocol/STAmount.cpp] and [include/xrpl/protocol/STAmount.h].
    The thread-local switches that the code reads are the fields of [settings].
    A currency, an account and an MPT issuance are the bytes of the code's
    [base_uint]s. *)

From stdpp Require Import strings.
From S2P Require Import Prelude Outcome Serializer Number.

(** ** Assets *)

(** [== beast::zero]. *)
Definition isXRP (v : Blob) : bool := forallb (Z.eqb 0) v.

Definition xrpCurrency : Blob := replicate 20 0.
Definition xrpAccount : Blob := replicate 20 0.
Definition noCurrency : Blob := replicate 19 0 ++ [1].
Definition noAccount : Blob := replicate 19 0 ++ [1].

Record Issue := mkIssue { currency : Blob; account : Blob }.

#[export] Instance Issue_eq_dec : EqDecision Issue.
Proof. solve_decision. Defined.

Definition xrpIssue : Issue := mkIssue xrpCurrency xrpAccount.
Definition noIssue : Issue := mkIssue noCurrency noAccount.

Definition issue_eqb (lhs rhs : Issue) : bool :=
  bool_decide (currency lhs = currency rhs) &&
  (isXRP (currency lhs) || bool_decide (account lhs = account rhs)).

Definition issue_native (i : Issue) : bool := issue_eqb i xrpIssue.

Definition isConsistent (i : Issue) : bool := Bool.eqb (isXRP (currency i)) (isXRP (account i)).

Inductive Asset := AIssue (i : Issue) | AMPT (mptID : Blob).

#[export] Instance Asset_eq_dec : EqDecision Asset.
Proof. solve_decision. Defined.

Definition asset_native (a : Asset) : bool :=
  match a with AIssue i => issue_native i | AMPT _ => false end.

Definition asset_integral (a : Asset) : bool :=
  match a with AIssue i => issue_native i | AMPT _ => true end.

Definition holdsMPT (a : Asset) : bool := match a with AIssue _ => false | AMPT _ => true end.

(** ** Settings *)

Record settings := mkSettings {
  roundMode : rounding_mode;
  mantissaScale : mantissa_scale;
  stNumberSwitchover : bool;
  stAmountCanonicalizeSwitchover : bool;
}.

Definition cMinOffset : Z := -96.
Definition cMaxOffset : Z := 80.
Definition cMinValue : Z := 1000000000000000.
Definition cMaxValue : Z := cMinValue * 10 - 1.
Definition cMaxNativeN : Z := 100000000000000000.
Definition cIssuedCurrency : Z := 9223372036854775808.
Definition cPositive : Z := 4611686018427387904.
Definition cMPToken : Z := 2305843009213693952.
Definition cValueMask : Z := Z.lxor (2 ^ 64 - 1) (Z.lor cPositive cMPToken).
Definition maxMPTokenAmount : Z := 9223372036854775807.

(** [static_cast<std::int64_t>]. *)
Definition s64 (z : Z) : Z := (z + 2 ^ 63) mod 2 ^ 64 - 2 ^ 63.

Section Settings.
Context (cfg : settings).

(** ** IOUAmount *)

Record IOUAmount := mkIOU { iouMantissa : Z; iouExponent : Z }.

(** [*this = beast::zero]; the -100 lets zero sort below the positive values. *)
Definition iouZero : IOUAmount := mkIOU 0 (-100).

Definition minPositiveAmount : IOUAmount := mkIOU cMinValue cMinOffset.

Definition fromNumber (number : Number) : outcome IOUAmount :=
  normalizeToRange (roundMode cfg) true cMinValue cMaxValue number ≫= fun '(m, e) => Ret (mkIOU m e).

(** The checks behind [fromNumber] in [normalize] and in the constructor. *)
Definition iouInRange (x : IOUAmount) : outcome IOUAmount :=
  if cMaxOffset <? iouExponent x then Throw "value overflow"
  else if iouExponent x <? cMinOffset then Ret iouZero
  else Ret x.

(** [IOUAmount(Number const&)]. *)
Definition iouOfNumber (number : Number) : outcome IOUAmount := fromNumber number ≫= iouInRange.

(** [while ((mantissa_ < minMantissa) && (exponent_ > minExponent))]. *)
Fixpoint iouScaleUp (fuel : nat) (m e : Z) : Z * Z :=
  match fuel with
  | O => (m, e)
  | S fuel => if (m <? cMinValue) && (cMinOffset <? e) then iouScaleUp fuel (m * 10) (e - 1) else (m, e)
  end.

(** [while (mantissa_ > maxMantissa)]. *)
Fixpoint iouScaleDown (what : string) (fuel : nat) (m e : Z) : outcome (Z * Z) :=
  match fuel with
  | O => Ret (m, e)
  | S fuel =>
      if cMaxValue <? m then
        if cMaxOffset <=? e then Throw what else iouScaleDown what fuel (m / 10) (e + 1)
      else Ret (m, e)
  end.

(** The loops without [Number], shared by [IOUAmount::normalize] and
    [STAmount::canonicalize]; a value of 64 bits has at most 20 digits.
    [None] is zero. *)
Definition legacyNormalize (what : string) (m e : Z) : outcome (option (Z * Z)) :=
  let '(m, e) := iouScaleUp 20 m e in
  iouScaleDown what 20 m e ≫= fun '(m, e) =>
  if (e <? cMinOffset) || (m <? cMinValue) then Ret None
  else if cMaxOffset <? e then Throw "value overflow"
  else Ret (Some (m, e)).

Definition iouNormalize (x : IOUAmount) : outcome IOUAmount :=
  if iouMantissa x =? 0 then Ret iouZero
  else if stNumberSwitchover cfg then
    fromRep (roundMode cfg) (mantissaScale cfg) (iouMantissa x) (iouExponent x) ≫= fun v =>
    fromNumber v ≫= iouInRange
  else
    let negative := iouMantissa x <? 0 in
    legacyNormalize "IOUAmount::normalize" (Z.abs (iouMantissa x)) (iouExponent x) ≫= fun r =>
    match r with
    | None => Ret iouZero
    | Some (m, e) => Ret (mkIOU (if negative then - m else m) e)
    end.

(** [operator Number]. *)
Definition iouNumber (x : IOUAmount) : outcome Number :=
  fromRep (roundMode cfg) (mantissaScale cfg) (iouMantissa x) (iouExponent x).

(** [signum() == 0] of a comparison with [beast::zero]. *)
Definition iouIsZero (x : IOUAmount) : bool := iouMantissa x =? 0.

(** [while (exponent_ < e) { mantissa_ /= 10; ++exponent_; }]: division of signed
    integers truncates. *)
Fixpoint dropDigits (n : nat) (m : Z) : Z :=
  match n with O => m | S n => dropDigits n (Z.quot m 10) end.

(** [operator+=]. *)
Definition iouAdd (x other : IOUAmount) : outcome IOUAmount :=
  if iouIsZero other then Ret x
  else if iouIsZero x then Ret other
  else if stNumberSwitchover cfg then
    iouNumber x ≫= fun a =>
    iouNumber other ≫= fun b =>
    Number.add (roundMode cfg) (mantissaScale cfg) a b ≫= iouOfNumber
  else
    let mx := dropDigits (Z.to_nat (iouExponent other - iouExponent x)) (iouMantissa x) in
    let my := dropDigits (Z.to_nat (iouExponent x - iouExponent other)) (iouMantissa other) in
    let e := Z.max (iouExponent x) (iouExponent other) in
    let m := mx + my in
    if (-10 <=? m) && (m <=? 10) then Ret iouZero else iouNormalize (mkIOU m e).

(** ** STAmount *)

Record STAmount := mkSTAmount { mAsset : Asset; mValue : Z; mOffset : Z; mIsNegative : bool }.

#[global] Instance STAmount_eq_dec : EqDecision STAmount.
Proof. solve_decision. Defined.

Definition native (a : STAmount) : bool := asset_native (mAsset a).
Definition integral (a : STAmount) : bool := asset_integral (mAsset a).

(** [== beast::zero], by [signum]. *)
Definition isZero (a : STAmount) : bool := mValue a =? 0.

Definition amount_signum (a : STAmount) : Z :=
  if mValue a =? 0 then 0 else if mIsNegative a then -1 else 1.

(** The conversions to the amount types of the assets. *)
Definition signedValue (a : STAmount) : Z :=
  if mIsNegative a then - s64 (mValue a) else s64 (mValue a).

Definition xrp (a : STAmount) : outcome Z :=
  if native a then Ret (signedValue a) else Throw "Cannot return non-native STAmount as XRPAmount".

Definition mpt (a : STAmount) : outcome Z :=
  if holdsMPT (mAsset a) then Ret (signedValue a) else Throw "Cannot return STAmount as MPTAmount".

Definition iou (a : STAmount) : outcome IOUAmount :=
  if integral a then Throw "Cannot return non-IOU STAmount as IOUAmount"
  else iouNormalize (mkIOU (signedValue a) (mOffset a)).

(** [operator Number]. *)
Definition amountNumber (a : STAmount) : outcome Number :=
  if native a then xrp a ≫= fun v => fromRep (roundMode cfg) (mantissaScale cfg) v 0
  else if holdsMPT (mAsset a) then mpt a ≫= fun v => fromRep (roundMode cfg) (mantissaScale cfg) v 0
  else iou a ≫= iouNumber.

(** [operator=(IOUAmount const&)]. *)
Definition assignIOU (a : STAmount) (x : IOUAmount) : STAmount :=
  mkSTAmount (mAsset a) (Z.abs (iouMantissa x)) (iouExponent x) (iouMantissa x <? 0).

(** [while (mOffset < 0)] and [while (mOffset > 0)] of an integral amount. *)
Definition shrinkValue (n : nat) (v : Z) : Z := Nat.iter n (fun v => v / 10) v.

Fixpoint growValue (n : nat) (nat_ : bool) (v : Z) : outcome Z :=
  match n with
  | O => Ret v
  | S n =>
      if stAmountCanonicalizeSwitchover cfg then
        if nat_ && (cMaxNativeN <? v) then Throw "Native currency amount out of range"
        else if negb nat_ && (maxMPTokenAmount <? v) then Throw "MPT amount out of range"
        else growValue n nat_ (u64 (v * 10))
      else growValue n nat_ (u64 (v * 10))
  end.

(** The value and sign of an integral amount that is not zero. *)
Definition integralValue (a : STAmount) : outcome (Z * bool) :=
  if stAmountCanonicalizeSwitchover cfg && (native a && (17 <? mOffset a))
  then Throw "Native currency amount out of range"
  else if stAmountCanonicalizeSwitchover cfg && (holdsMPT (mAsset a) && (18 <? mOffset a))
  then Throw "MPT amount out of range"
  else if stNumberSwitchover cfg && stAmountCanonicalizeSwitchover cfg then
    toRep (roundMode cfg) (mkNumber (mIsNegative a) (mValue a) (mOffset a)) ≫= fun value =>
    Ret (Z.abs value, value <? 0)
  else
    growValue (Z.to_nat (mOffset a)) (native a) (shrinkValue (Z.to_nat (- mOffset a)) (mValue a)) ≫= fun v =>
    Ret (v, mIsNegative a).

Definition canonicalize (a : STAmount) : outcome STAmount :=
  if integral a then
    if (mValue a =? 0) || (mOffset a <=? -20) then Ret (mkSTAmount (mAsset a) 0 0 false)
    else
      integralValue a ≫= fun '(v, neg) =>
      if native a && (cMaxNativeN <? v) then Throw "Native currency amount out of range"
      else if negb (native a) && (maxMPTokenAmount <? v) then Throw "MPT amount out of range"
      else Ret (mkSTAmount (mAsset a) v 0 neg)
  else if stNumberSwitchover cfg then iou a ≫= fun x => Ret (assignIOU a x)
  else if mValue a =? 0 then Ret (mkSTAmount (mAsset a) 0 (-100) false)
  else
    legacyNormalize "value overflow" (mValue a) (mOffset a) ≫= fun r =>
    match r with
    | None => Ret (mkSTAmount (mAsset a) 0 (-100) false)
    | Some (m, e) => Ret (mkSTAmount (mAsset a) m e (mIsNegative a))
    end.

(** The constructors with an asset: without a field name, with one, and of a
    signed mantissa. *)
Definition amount (asset : Asset) (mantissa exponent : Z) (negative : bool) : outcome STAmount :=
  canonicalize (mkSTAmount asset mantissa exponent negative).

Definition namedAmount (asset : Asset) (mantissa exponent : Z) (negative : bool) : outcome STAmount :=
  if bool_decide (mantissaScale cfg = large) && (asset_integral asset && (2 ^ 63 - 1 <? mantissa))
  then Throw "STAmount mantissa is too large"
  else amount asset mantissa exponent negative.

Definition signedAmount (asset : Asset) (mantissa exponent : Z) : outcome STAmount :=
  amount asset (Z.abs mantissa) exponent (mantissa <? 0).

(** [STAmount(SField const&, std::int64_t)]: not canonicalized. *)
Definition nativeAmount (mantissa : Z) : STAmount :=
  mkSTAmount (AIssue xrpIssue) (Z.abs mantissa) 0 (mantissa <? 0).

Definition clear (a : STAmount) : STAmount :=
  mkSTAmount (mAsset a) 0 (if integral a then 0 else -100) false.

(** [negate] and unary [operator-]. *)
Definition negate (a : STAmount) : STAmount :=
  if mValue a =? 0 then a else mkSTAmount (mAsset a) (mValue a) (mOffset a) (negb (mIsNegative a)).

Definition areComparable (v1 v2 : STAmount) : bool :=
  match mAsset v1, mAsset v2 with
  | AIssue i1, AIssue i2 => Bool.eqb (native v1) (native v2) && bool_decide (currency i1 = currency i2)
  | AMPT m1, AMPT m2 => bool_decide (m1 = m2)
  | _, _ => false
  end.

Definition amount_eqb (lhs rhs : STAmount) : bool :=
  areComparable lhs rhs && Bool.eqb (mIsNegative lhs) (mIsNegative rhs) &&
  (mOffset lhs =? mOffset rhs) && (mValue lhs =? mValue rhs).

Definition amount_ltb (lhs rhs : STAmount) : outcome bool :=
  if negb (areComparable lhs rhs) then Throw "Can't compare amounts that are't comparable!"
  else Ret
    (if negb (Bool.eqb (mIsNegative lhs) (mIsNegative rhs)) then mIsNegative lhs
     else if mValue lhs =? 0 then if mIsNegative rhs then false else negb (mValue rhs =? 0)
     else if mValue rhs =? 0 then false
     else if mOffset rhs <? mOffset lhs then mIsNegative lhs
     else if mOffset lhs <? mOffset rhs then negb (mIsNegative lhs)
     else if mValue rhs <? mValue lhs then mIsNegative lhs
     else if mValue lhs <? mValue rhs then negb (mIsNegative lhs)
     else false).

(** [getSNValue]. *)
Definition getSNValue (a : STAmount) : outcome Z :=
  if native a then Ret (signedValue a) else Throw "amount is not native!".

(** [operator+]. *)
Definition amount_add (v1 v2 : STAmount) : outcome STAmount :=
  if negb (areComparable v1 v2) then Throw "Can't add amounts that are't comparable!"
  else if isZero v2 then Ret v1
  else if isZero v1 then namedAmount (mAsset v1) (mValue v2) (mOffset v2) (mIsNegative v2)
  else if native v1 then
    getSNValue v1 ≫= fun a => getSNValue v2 ≫= fun b => Ret (nativeAmount (s64 (a + b)))
  else if holdsMPT (mAsset v1) then
    mpt v1 ≫= fun a => mpt v2 ≫= fun b => signedAmount (mAsset v1) (s64 (a + b)) 0
  else if stNumberSwitchover cfg then
    iou v1 ≫= fun a => iou v2 ≫= fun b => iouAdd a b ≫= fun x => Ret (assignIOU v1 x)
  else
    let vv1 := dropDigits (Z.to_nat (mOffset v2 - mOffset v1)) (signedValue v1) in
    let vv2 := dropDigits (Z.to_nat (mOffset v1 - mOffset v2)) (signedValue v2) in
    let ov1 := Z.max (mOffset v1) (mOffset v2) in
    let fv := vv1 + vv2 in
    if (-10 <=? fv) && (fv <=? 10) then namedAmount (mAsset v1) 0 0 false
    else if 0 <=? fv then namedAmount (mAsset v1) fv ov1 false
    else namedAmount (mAsset v1) (- fv) ov1 true.

Definition amount_sub (v1 v2 : STAmount) : outcome STAmount := amount_add v1 (negate v2).

(** ** The wire format *)

Definition addAmount (a : STAmount) (s : Blob) : Blob :=
  match mAsset a with
  | AMPT mptID =>
      let u := u8 (Z.shiftr cMPToken 56) in
      let u := if mIsNegative a then u else Z.lor u (u8 (Z.shiftr cPositive 56)) in
      let s := (add8 u s).2 in
      let s := (add64 (mValue a) s).2 in
      (addBitString mptID s).2
  | AIssue issue =>
      if issue_native issue then
        (add64 (if mIsNegative a then mValue a else Z.lor (mValue a) cPositive) s).2
      else
        let v :=
          if isZero a then cIssuedCurrency
          else if mIsNegative a then Z.lor (mValue a) (u64 (Z.shiftl (u64 (mOffset a + 512 + 97)) 54))
          else Z.lor (mValue a) (u64 (Z.shiftl (u64 (mOffset a + 512 + 256 + 97)) 54)) in
        let s := (add64 v s).2 in
        let s := (addBitString (currency issue) s).2 in
        (addBitString (account issue) s).2
  end.

(** The constructor from a [SerialIter]. *)
Definition getAmount : reader STAmount :=
  get64 ≫= fun value =>
  if Z.land value cIssuedCurrency =? 0 then
    if negb (Z.land value cMPToken =? 0) then
      get8 ≫= fun b =>
      getBitString 24 ≫= fun id =>
      mret (mkSTAmount (AMPT id) (Z.lor (u64 (Z.shiftl value 8)) b) 0 (Z.land value cPositive =? 0))
    else if negb (Z.land value cPositive =? 0) then
      mret (mkSTAmount (AIssue xrpIssue) (Z.land value cValueMask) 0 false)
    else if value =? 0 then throw "negative zero is not canonical"
    else mret (mkSTAmount (AIssue xrpIssue) (Z.land value cValueMask) 0 true)
  else
    getBitString 20 ≫= fun cur =>
    if isXRP cur then throw "invalid native currency"
    else
      getBitString 20 ≫= fun acc =>
      if isXRP acc then throw "invalid native account"
      else
        let issue := AIssue (mkIssue cur acc) in
        let offset := Z.shiftr value 54 in
        let value := Z.land value (Z.lxor (2 ^ 64 - 1) (Z.shiftl 1023 54)) in
        if negb (value =? 0) then
          let isNegative := Z.land offset 256 =? 0 in
          let offset := Z.land offset 255 - 97 in
          if (value <? cMinValue) || (cMaxValue <? value) || (offset <? cMinOffset) || (cMaxOffset <? offset)
          then throw "invalid currency value"
          else lift (canonicalize (mkSTAmount issue value offset isNegative))
        else if negb (offset =? 512) then throw "invalid currency value"
        else lift (canonicalize (mkSTAmount issue 0 0 false)).

Definition amount_isDefault (a : STAmount) : bool := (mValue a =? 0) && native a.

End Settings.
