(* ===== verification/AmountFacts.v ===== *)
(** * Canonical amounts

    The amounts that [canonicalize] leaves, that it leaves them as they are,
    and that the wire format keeps them. *)

From Stdlib Require Import QArith Qpower Lqa.
From stdpp Require Import strings.
From S2P Require Import Prelude Outcome Serializer SerializerFacts Number NumberFacts NumberAdd Amount.
Local Open Scope Z_scope.

(** ** Numbers of 16 digits *)

Lemma normal_unique scale neg m e y :
  isnormal scale y = true -> negative_ y = neg -> minM scale <= m <= maxM scale ->
  (val (mantissa_ y) (exponent_ y) == val m e)%Q -> y = mkNumber neg m e.
Proof.
  intros [->|(Hm & _)]%isnormal_cases Hs Hr Hv.
  { exfalso. cbn [mantissa_ exponent_ zero] in Hv. pose proof (minM_pos scale).
    assert (val 0 lowestInt < val m e)%Q; [|lra]. rewrite val_zero, <- (val_zero e). apply val_lt. lia. }
  pose proof (maxM_minM scale). pose proof (minM_pos scale).
  assert (forall m e m' e', minM scale <= m <= maxM scale -> minM scale <= m' <= maxM scale -> e < e' ->
            (val m e == val m' e')%Q -> False) as Hlt.
  { clear. intros m e m' e' Hm Hm' He Hv. pose proof (maxM_minM scale). pose proof (minM_pos scale).
    rewrite <- (val_shift' m' e e' (e' - e)) in Hv by lia. apply val_inj in Hv.
    assert (10 ^ 1 <= 10 ^ (e' - e)) by (apply Z.pow_le_mono_r; lia). nia. }
  destruct y as [n my ey]. cbn [negative_ mantissa_ exponent_] in *. subst n.
  destruct (Z.lt_trichotomy ey e) as [He|[->|He]]; [by destruct (Hlt my ey m e)| |by destruct (Hlt m e my ey)].
  apply val_inj in Hv. by subst.
Qed.

Lemma isnormal_nonzero scale y : isnormal scale y = true -> 0 <= mantissa_ y <= maxM scale.
Proof. intros [->|(Hm & _)]%isnormal_cases; [by destruct scale|]. pose proof (minM_pos scale). lia. Qed.

Lemma normalize_isnormal mode scale x y :
  0 <= mantissa_ x < 2 ^ 128 -> normalize mode scale x = Ret y -> isnormal scale y = true.
Proof.
  intros Hx Hy. destruct (decide (mantissa_ x = 0)) as [E|E].
  { unfold normalize, doNormalize in Hy. rewrite E in Hy. injection Hy as <-. by destruct scale. }
  pose proof (normalize_result mode scale x ltac:(lia)) as Hr. rewrite Hy in Hr.
  destruct Hr as [[-> _]|(Hn & _)]; [by destruct scale|done].
Qed.

Lemma externalToInternal_range m : - 2 ^ 63 <= m < 2 ^ 64 -> 0 <= externalToInternal m < 2 ^ 64 /\ externalToInternal m = Z.abs m.
Proof. intros Hm. unfold externalToInternal, maxRep. repeat case_match; b2p; rewrite ?u64_id by lia; lia. Qed.

Lemma fromRep_isnormal mode scale m e y :
  - 2 ^ 63 <= m < 2 ^ 64 -> fromRep mode scale m e = Ret y -> isnormal scale y = true.
Proof.
  intros Hm. unfold fromRep. apply normalize_isnormal. cbn [mantissa_]. pose proof (externalToInternal_range m Hm). lia.
Qed.

Section Settings.
Context (cfg : settings).

Lemma fromNumber_eq x :
  0 <= mantissa_ x < 2 ^ 128 ->
  fromNumber cfg x = normalize (roundMode cfg) small x ≫= fun y => Ret (mkIOU (signed (negative_ y) (mantissa_ y)) (exponent_ y)).
Proof.
  intros Hx. unfold fromNumber, normalizeToRange.
  change (doNormalize (roundMode cfg) x (u64 cMinValue) (u64 cMaxValue)) with (normalize (roundMode cfg) small x).
  destruct (normalize (roundMode cfg) small x) as [w|y] eqn:E; [done|]. unfold mbind, outcome_bind. do 2 f_equal.
  apply normalize_isnormal in E; [|done]. apply isnormal_nonzero in E. destruct range_small as (_ & R & _). rewrite R in E.
  unfold signed, u64. destruct (negative_ y); cbn [andb].
  - destruct (decide (mantissa_ y = 0)) as [->|]; [reflexivity|].
    replace (-1 * mantissa_ y) with (2 ^ 64 - mantissa_ y + (-1) * 2 ^ 64) by lia.
    rewrite Z_mod_plus_full, Z.mod_small by lia. rewrite (proj2 (Z.leb_le _ _)) by lia. lia.
  - rewrite Z.mul_1_l, Z.mod_small, (proj2 (Z.leb_gt _ _)) by lia. done.
Qed.

(** ** IOU amounts *)

Definition iouCanonical (x : IOUAmount) : Prop :=
  x = iouZero \/
  cMinValue <= Z.abs (iouMantissa x) <= cMaxValue /\ cMinOffset <= iouExponent x <= cMaxOffset.

Lemma abs_signed neg m : 0 <= m -> Z.abs (signed neg m) = m.
Proof. intros. unfold signed. destruct neg; lia. Qed.

Lemma iouInRange_canonical x z :
  0 <= mantissa_ x < 2 ^ 128 -> fromNumber cfg x ≫= iouInRange = Ret z -> iouCanonical z.
Proof.
  intros Hx (y & Hy & Hz)%bind_Ret. rewrite fromNumber_eq in Hy by done. apply bind_Ret in Hy as (w & Hw & [= <-]).
  apply normalize_isnormal in Hw; [|done]. unfold iouInRange in Hz. cbn [iouExponent] in Hz.
  destruct (Z.ltb_spec cMaxOffset (exponent_ w)); [done|]. destruct (Z.ltb_spec (exponent_ w) cMinOffset); injection Hz as <-; [by left|].
  right. cbn [iouMantissa iouExponent]. apply isnormal_cases in Hw as [->|(Hm & _)]; [unfold zero, lowestInt, cMinOffset in *; cbn [exponent_] in *; lia|].
  destruct range_small as (E1 & E2 & _). rewrite E1, E2 in Hm. rewrite abs_signed by lia. unfold cMinValue, cMaxValue, cMinValue in *. lia.
Qed.

Lemma iouScaleUp_spec fuel m e :
  0 < m -> exists j : nat, iouScaleUp fuel m e = (m * 10 ^ Z.of_nat j, e - Z.of_nat j) /\
    (j = 0%nat \/ m * 10 ^ Z.of_nat j < 10 * cMinValue).
Proof.
  revert m e. induction fuel as [|fuel IH]; intros m e Hm; cbn [iouScaleUp].
  { exists 0%nat. rewrite Z.mul_1_r, Z.sub_0_r. auto. }
  destruct (Z.ltb_spec m cMinValue); cbn [andb]; cycle 1.
  { exists 0%nat. rewrite Z.mul_1_r, Z.sub_0_r. auto. }
  destruct (cMinOffset <? e); [|exists 0%nat; rewrite Z.mul_1_r, Z.sub_0_r; auto].
  destruct (IH (m * 10) (e - 1) ltac:(lia)) as (j & -> & Hj). exists (S j).
  rewrite Nat2Z.inj_succ, Z.pow_succ_r by lia. split; [f_equal; lia|]. right.
  destruct Hj as [->|?]; [change (10 ^ Z.of_nat 0) with 1|]; lia.
Qed.

Lemma iouScaleDown_spec what fuel m e m' e' :
  0 < m < 10 * cMinValue * 10 ^ Z.of_nat fuel -> iouScaleDown what fuel m e = Ret (m', e') -> 0 <= m' <= cMaxValue.
Proof.
  revert m e. induction fuel as [|fuel IH]; intros m e Hm; cbn [iouScaleDown].
  { intros [= <- <-]. change (10 ^ Z.of_nat 0) with 1 in Hm. unfold cMaxValue. lia. }
  destruct (Z.ltb_spec cMaxValue m); [|intros [= <- <-]; lia]. destruct (cMaxOffset <=? e); [done|]. apply IH.
  rewrite Nat2Z.inj_succ, Z.pow_succ_r in Hm by lia. unfold cMaxValue, cMinValue in *.
  split; [apply Z.div_str_pos; lia|apply Z.div_lt_upper_bound; lia].
Qed.

Lemma legacyNormalize_range what m e m' e' :
  0 < m < 2 ^ 64 -> legacyNormalize what m e = Ret (Some (m', e')) ->
  cMinValue <= m' <= cMaxValue /\ cMinOffset <= e' <= cMaxOffset.
Proof.
  intros Hm. unfold legacyNormalize. destruct (iouScaleUp_spec 20 m e ltac:(lia)) as (j & -> & Hj).
  intros ([m1 e1] & Hd & Hr)%bind_Ret. apply iouScaleDown_spec in Hd; cycle 1.
  { unfold cMinValue in *. change (10 ^ Z.of_nat 20) with 100000000000000000000. assert (1 <= 10 ^ Z.of_nat j) by lia.
    destruct Hj as [->|?]; [change (10 ^ Z.of_nat 0) with 1; lia|nia]. }
  repeat case_match; b2p; try discriminate Hr. injection Hr as <- <-. lia.
Qed.

Lemma legacyNormalize_id what m e :
  cMinValue <= m <= cMaxValue -> cMinOffset <= e <= cMaxOffset -> legacyNormalize what m e = Ret (Some (m, e)).
Proof.
  intros Hm He. unfold legacyNormalize. cbn [iouScaleUp]. rewrite (proj2 (Z.ltb_ge m cMinValue)) by lia. cbn [andb iouScaleDown].
  rewrite (proj2 (Z.ltb_ge _ m)) by lia. unfold mbind, outcome_bind.
  rewrite (proj2 (Z.ltb_ge e _)), (proj2 (Z.ltb_ge m _)), (proj2 (Z.ltb_ge _ e)) by lia. reflexivity.
Qed.

Lemma iouNormalize_canonical x z :
  - 2 ^ 63 < iouMantissa x < 2 ^ 63 -> iouNormalize cfg x = Ret z -> iouCanonical z.
Proof.
  intros Hm. unfold iouNormalize. destruct (Z.eqb_spec (iouMantissa x) 0); [intros [= <-]; by left|].
  destruct (stNumberSwitchover cfg).
  - intros (v & Hv & Hz)%bind_Ret. apply fromRep_isnormal in Hv; [|lia]. apply isnormal_nonzero in Hv.
    eapply iouInRange_canonical; [|done]. pose proof (minM_le (mantissaScale cfg)). pose proof (maxM_minM (mantissaScale cfg)). lia.
  - intros ([[m e]|] & Hr & Hz)%bind_Ret; injection Hz as <-; [|by left]. right. cbn [iouMantissa iouExponent].
    apply legacyNormalize_range in Hr; [|lia]. destruct (iouMantissa x <? 0); unfold cMinValue in *; lia.
Qed.

Lemma cMax_top scale : cMaxValue <= top scale.
Proof. by destruct scale; vm_compute. Qed.

(** A number that is worth [m * 10^e], with 16 digits. *)
Lemma fromNumber_exact y neg m e :
  isnormal (mantissaScale cfg) y = true -> negative_ y = neg -> cMinValue <= m <= cMaxValue ->
  cMinOffset <= e <= cMaxOffset -> (val (mantissa_ y) (exponent_ y) == val m e)%Q ->
  fromNumber cfg y ≫= iouInRange = Ret (mkIOU (signed neg m) e).
Proof.
  intros Hy Hs Hm He Hv. pose proof (isnormal_nonzero _ _ Hy) as B. pose proof (minM_le (mantissaScale cfg)).
  pose proof (maxM_minM (mantissaScale cfg)). unfold cMinOffset, cMaxOffset in He.
  assert (mantissa_ y <> 0) as Hy0.
  { intros E. rewrite E, val_zero, <- (val_zero e) in Hv. apply val_inj in Hv. unfold cMinValue in Hm. lia. }
  rewrite fromNumber_eq by lia.
  destruct (normalize_exact (roundMode cfg) small neg (mantissa_ y) (exponent_ y) m e) as (z & Hz & Hn & Hsz & Hvz);
    [lia|split; [unfold cMinValue in *; lia|pose proof (cMax_top small); lia]|done|unfold minExponent, maxExponent; lia|].
  assert (z = mkNumber neg m e) as ->.
  { apply (normal_unique small); [done..| |by rewrite Hvz]. destruct range_small as (-> & -> & _). unfold cMaxValue, cMinValue in *. lia. }
  replace y with (mkNumber neg (mantissa_ y) (exponent_ y)) by (destruct y; cbn in *; by subst).
  rewrite Hz. unfold mbind, outcome_bind, iouInRange. cbn [negative_ mantissa_ exponent_ iouExponent].
  rewrite (proj2 (Z.ltb_ge _ e)), (proj2 (Z.ltb_ge e _)) by (unfold cMinOffset, cMaxOffset; lia). done.
Qed.

Lemma fromRep_exact m e :
  cMinValue <= Z.abs m <= cMaxValue -> cMinOffset <= e <= cMaxOffset ->
  exists y, fromRep (roundMode cfg) (mantissaScale cfg) m e = Ret y /\ isnormal (mantissaScale cfg) y = true /\
    negative_ y = (m <? 0) /\ (val (mantissa_ y) (exponent_ y) == val (Z.abs m) e)%Q.
Proof.
  intros Hm He. unfold fromRep. unfold cMinOffset, cMaxOffset, cMinValue in *. pose proof (cMax_top (mantissaScale cfg)).
  assert (cMaxValue < 2 ^ 63) by reflexivity.
  destruct (externalToInternal_range m ltac:(lia)) as [_ ->].
  apply (normalize_exact _ _ _ _ _ (Z.abs m) e); [lia|lia|done|unfold minExponent, maxExponent; lia].
Qed.

Lemma iouNormalize_id x : iouCanonical x -> iouNormalize cfg x = Ret x.
Proof.
  intros [->|[Hm He]]; [done|]. destruct x as [m e]. cbn [iouMantissa iouExponent] in *. unfold iouNormalize.
  cbn [iouMantissa iouExponent]. rewrite (proj2 (Z.eqb_neq m 0)) by (unfold cMinValue in Hm; lia).
  destruct (stNumberSwitchover cfg).
  - destruct (fromRep_exact m e Hm He) as (y & -> & Hn & Hs & Hv). rewrite Ret_bind.
    rewrite (fromNumber_exact y (m <? 0) (Z.abs m) e) by done. unfold signed.
    destruct (Z.ltb_spec m 0); do 2 f_equal; lia.
  - rewrite legacyNormalize_id by done. unfold mbind, outcome_bind. destruct (Z.ltb_spec m 0); do 2 f_equal; lia.
Qed.

End Settings.

(** ** What canonicalization makes of an amount *)

(** The internal form that the code documents. *)
Definition canonical (a : STAmount) : Prop :=
  if integral a then
    mOffset a = 0 /\ 0 <= mValue a <= (if native a then cMaxNativeN else maxMPTokenAmount) /\
    (mValue a = 0 -> mIsNegative a = false)
  else
    mValue a = 0 /\ mOffset a = -100 /\ mIsNegative a = false \/
    cMinValue <= mValue a <= cMaxValue /\ cMinOffset <= mOffset a <= cMaxOffset.

(** The settings of current ledgers. *)
Definition switched (cfg : settings) : Prop :=
  stNumberSwitchover cfg = true /\ stAmountCanonicalizeSwitchover cfg = true.

Lemma s64_id z : - 2 ^ 63 <= z < 2 ^ 63 -> s64 z = z.
Proof. intros. unfold s64. rewrite Z.mod_small by lia. lia. Qed.

Lemma signedValue_eq a : 0 <= mValue a < 2 ^ 63 -> signedValue a = signed (mIsNegative a) (mValue a).
Proof. intros. unfold signedValue, signed. by rewrite s64_id by lia. Qed.

Lemma native_integral a : native a = true -> integral a = true.
Proof. unfold native, integral. by destruct (mAsset a). Qed.

Section Settings.
Context (cfg : settings).

(** ** Integral amounts *)

(** The number of units of [mValue * 10^mOffset]. *)
Definition units (a : STAmount) (n : Z) : Prop :=
  if 0 <? mOffset a then n = mValue a * 10 ^ mOffset a
  else rounding (roundMode cfg) (mIsNegative a) (mValue a) (10 ^ (- mOffset a)) n.

Lemma rounding_nonneg mode neg M p n : 0 < p -> 0 <= M -> rounding mode neg M p n -> 0 <= n.
Proof. intros Hp HM Hr. pose proof (rounding_bounds _ _ _ _ _ Hp HM Hr). assert (0 <= M / p) by (apply Z.div_pos; lia). lia. Qed.

Lemma units_nonneg a n : 0 <= mValue a -> units a n -> 0 <= n.
Proof.
  intros Ha. unfold units. destruct (Z.ltb_spec 0 (mOffset a)); [intros ->; apply Z.mul_nonneg_nonneg; lia|].
  apply rounding_nonneg; lia.
Qed.

Lemma integral_toRep a :
  0 < mValue a <= maxRep ->
  exists n, units a n /\
    toRep (roundMode cfg) (mkNumber (mIsNegative a) (mValue a) (mOffset a)) =
    if (0 <? mOffset a) && (maxRep <? n) then Throw "Number::operator rep() overflow"
    else Ret (signed (mIsNegative a) n).
Proof.
  intros Ha. set (x := mkNumber _ _ _).
  assert (magnitude x = mValue a /\ exponent x = mOffset a) as [E1 E2].
  { unfold magnitude, exponent. cbn [x mantissa_ exponent_]. by rewrite (proj2 (Z.ltb_ge _ _)) by lia. }
  pose proof (toRep_rounds (roundMode cfg) x) as Hr. rewrite E1, E2 in Hr. specialize (Hr Ha). unfold units.
  change (negative_ x) with (mIsNegative a) in Hr.
  destruct (Z.ltb_spec 0 (mOffset a)); cbn [andb].
  - eexists. split; [done|]. rewrite Hr. rewrite Z.leb_antisym. by destruct (maxRep <? _).
  - destruct Hr as (n & Hn & Hr). by exists n.
Qed.

(** An amount of an integral asset is rounded to whole units, and refused above
    the largest number of them. *)
Lemma canonicalize_integral a :
  switched cfg -> integral a = true -> 0 < mValue a <= maxRep -> -20 < mOffset a ->
  let cap := if native a then cMaxNativeN else maxMPTokenAmount in
  exists n, units a n /\
    if n <=? cap
    then canonicalize cfg a = Ret (mkSTAmount (mAsset a) n 0 (mIsNegative a && negb (n =? 0)))
    else exists what, canonicalize cfg a = Throw what.
Proof.
  intros [S1 S2] Hi Hv Ho cap. destruct (integral_toRep a Hv) as (n & Hn & Ht). exists n. split; [done|].
  pose proof (units_nonneg a n ltac:(lia) Hn) as Hn0.
  assert (cap < maxRep + 1) as Hcap by (subst cap; unfold maxRep; destruct (native a); reflexivity).
  assert (17 < mOffset a -> native a = true -> cap < n /\ cap < maxRep + 1) as Big.
  { intros H17 Hnat. subst cap. rewrite Hnat in *. unfold units in Hn. rewrite (proj2 (Z.ltb_lt _ _)) in Hn by lia. subst n.
    split; [|done]. assert (10 ^ 18 <= 10 ^ mOffset a) by (apply Z.pow_le_mono_r; lia). unfold cMaxNativeN. nia. }
  assert (18 < mOffset a -> cap < n) as Big'.
  { intros H18. unfold units in Hn. rewrite (proj2 (Z.ltb_lt _ _)) in Hn by lia. subst n.
    assert (10 ^ 19 <= 10 ^ mOffset a) by (apply Z.pow_le_mono_r; lia). unfold maxRep in *. nia. }
  unfold canonicalize, integralValue. rewrite Hi, S1, S2, (proj2 (Z.eqb_neq _ 0)), (proj2 (Z.leb_gt _ (-20))) by lia.
  cbn [orb andb].
  destruct (native a && (17 <? mOffset a)) eqn:G1; [b2p; rewrite (proj2 (Z.leb_gt _ _)) by (by apply Big); by eexists|].
  destruct (holdsMPT (mAsset a) && (18 <? mOffset a)) eqn:G2; [b2p; rewrite (proj2 (Z.leb_gt _ _)) by (by apply Big'); by eexists|].
  rewrite Ht. destruct ((0 <? mOffset a) && (maxRep <? n)) eqn:G3.
  { b2p. rewrite (proj2 (Z.leb_gt _ _)) by lia. by eexists. }
  rewrite !Ret_bind. replace (Z.abs (signed (mIsNegative a) n)) with n by (symmetry; by apply abs_signed).
  assert ((signed (mIsNegative a) n <? 0) = mIsNegative a && negb (n =? 0)) as ->.
  { unfold signed. destruct (mIsNegative a), (Z.eqb_spec n 0); cbn; lia. }
  clear G3 Ht. subst cap.
  destruct (native a); cbn [andb negb]; rewrite Z.leb_antisym; case (_ <? n); cbn [negb]; first [reflexivity|by eexists].
Qed.

(** ** IOU amounts *)

Lemma iou_eq a :
  integral a = false -> 0 <= mValue a < 2 ^ 63 ->
  iou cfg a = iouNormalize cfg (mkIOU (signed (mIsNegative a) (mValue a)) (mOffset a)).
Proof. intros Hi Hv. unfold iou. rewrite Hi. by rewrite signedValue_eq. Qed.

(** Conversion to a number of the larger range first changes nothing. *)
Lemma iou_number neg m e :
  0 < m < 2 ^ 63 -> minExponent + 18 <= e <= maxExponent ->
  exists r, fitResult small (roundMode cfg) neg m e r /\
    (fromRep (roundMode cfg) (mantissaScale cfg) (signed neg m) e ≫= fun v => fromNumber cfg v ≫= iouInRange) =
    (r ≫= fun y => iouInRange (mkIOU (signed (negative_ y) (mantissa_ y)) (exponent_ y))).
Proof.
  intros Hm He. unfold fromRep.
  destruct (externalToInternal_range (signed neg m)) as [_ ->]; [unfold signed; destruct neg; lia|].
  rewrite abs_signed by lia. replace (signed neg m <? 0) with neg by (unfold signed; destruct neg; lia).
  pose proof (normalize_result (roundMode cfg) small (mkNumber neg m e)) as Hr. cbn [negative_ mantissa_ exponent_] in Hr.
  specialize (Hr ltac:(lia)). destruct (mantissaScale cfg).
  - eexists. split; [exact Hr|]. destruct (normalize _ small _) as [w|y] eqn:Ey; [done|]. rewrite !Ret_bind.
    apply normalize_isnormal in Ey; [|cbn; lia]. pose proof (isnormal_nonzero _ _ Ey) as B. destruct range_small as (_ & R & _).
    rewrite R in B. rewrite fromNumber_eq by lia. destruct (normalize_normal (roundMode cfg) small y Ey) as [->|[? _]]; [done|].
    unfold maxRep in *. lia.
  - destruct (normalize_exact (roundMode cfg) large neg m e m e) as (y & Hy & Hn & Hs & Hv);
      [lia|rewrite top_large; lia|done|done|].
    rewrite Hy, Ret_bind. pose proof (isnormal_nonzero _ _ Hn) as B. destruct range_large as (R1 & R2 & _).
    rewrite fromNumber_eq by lia.
    assert (mantissa_ y <> 0) as Hy0.
    { intros E. rewrite E, val_zero, <- (val_zero e) in Hv. apply val_inj in Hv. lia. }
    pose proof (normalize_result (roundMode cfg) small y ltac:(lia)) as Hr'. rewrite Hs in Hr'.
    exists (normalize (roundMode cfg) small y). split; [|by destruct (normalize _ _ y)].
    destruct (Z.le_gt_cases (exponent_ y) e) as [Hle|Hgt].
    + rewrite <- (val_shift' m (exponent_ y) e (e - exponent_ y)) in Hv by lia. apply val_inj in Hv.
      apply (result_scaled _ _ _ _ _ (Z.to_nat (e - exponent_ y))); [lia|]. rewrite Z2Nat.id by lia. rewrite <- Hv.
      by replace (e - (e - exponent_ y)) with (exponent_ y) by lia.
    + exfalso. rewrite <- (val_shift' (mantissa_ y) e (exponent_ y) (exponent_ y - e)) in Hv by lia. apply val_inj in Hv.
      apply isnormal_cases in Hn as [->|(Hm' & _)]; [apply Hy0; reflexivity|]. rewrite R1 in Hm'.
      assert (10 ^ 1 <= 10 ^ (exponent_ y - e)) by (apply Z.pow_le_mono_r; lia). nia.
Qed.

End Settings.

(** *** Rounded numbers outside the exponents of an amount *)

Lemma val_step m e : (val (m * 10) e == val m (e + 1))%Q.
Proof. change (m * 10) with (m * 10 ^ 1). apply val_shift'; lia. Qed.

(** The parts of a number of 16 digits that was rounded: nothing was rounded
    off, or the digits left are full. *)
Lemma rounded_parts mode neg M e0 y :
  0 < M -> rounded small mode neg M e0 y ->
  exists m q k n, 0 <= k /\ m = mantissa_ y /\ 10 ^ 15 <= m <= 10 ^ 16 - 1 /\ (val m (exponent_ y) == val n (e0 + k))%Q /\
    q * 10 ^ k <= M < (q + 1) * 10 ^ k /\ (n = q \/ n = q + 1 /\ q * 10 ^ k < M) /\
    (k = 0 /\ n = M \/ 10 ^ 15 <= q <= 10 ^ 16 - 1).
Proof.
  intros HM (Hn & _ & k & n & (Hr & Hk & Htop) & Hval).
  change (top small) with (10 ^ 16 - 1) in *. set (p := 10 ^ Z.of_nat k) in *. assert (0 < p) by (subst p; lia).
  pose proof (rounding_bounds mode neg M p n ltac:(done) ltac:(lia) Hr) as B. pose proof (Z.div_mod M p ltac:(lia)) as Ediv.
  pose proof (Z.mod_pos_bound M p ltac:(lia)).
  assert (0 < n) as Hn0.
  { destruct (decide (k = 0%nat)) as [->|Hk0]; [subst p; rewrite Z.div_1_r in B; lia|]. destruct Hk as [Hk|Hk]; [contradiction|].
    assert (0 < M / p); [|lia]. apply Z.div_str_pos. split; [lia|]. apply Z.lt_le_incl.
    replace p with (10 * 10 ^ (Z.of_nat k - 1)) by (subst p; rewrite <- Z.pow_succ_r by lia; f_equal; lia).
    apply Z.lt_le_trans with ((10 ^ 16 - 1) * 10 ^ (Z.of_nat k - 1)); [apply Z.mul_lt_mono_pos_r; lia|].
    pose proof (Z.mul_div_le M (10 ^ (Z.of_nat k - 1)) ltac:(lia)). nia. }
  apply isnormal_cases in Hn as [->|(Hm & _)].
  { exfalso. cbn [mantissa_ exponent_ zero] in Hval. rewrite val_zero, <- (val_zero (e0 + Z.of_nat k)) in Hval. apply val_inj in Hval. lia. }
  destruct range_small as (E1 & E2 & _). rewrite E1, E2 in Hm.
  exists (mantissa_ y), (M / p), (Z.of_nat k), n. fold p. split_and!; [lia|done|lia..|done|lia|lia| |].
  - destruct (decide (n = M / p)); [by left|right]. split; [lia|]. destruct (decide (M mod p = 0)) as [E|]; [exfalso|lia].
    assert (M = M / p * p) as EM by lia. rewrite EM in Hr at 1. apply rounding_exact in Hr; [lia|lia].
  - destruct (decide (k = 0%nat)) as [->|Hk0].
    { left. subst p. split; [done|]. change (10 ^ Z.of_nat 0) with 1 in Hr. rewrite <- (Z.mul_1_r M) in Hr.
      by apply rounding_exact in Hr. }
    right. destruct Hk as [Hk|Hk]; [contradiction|]. split; [|lia]. apply Z.div_le_lower_bound; [lia|].
    replace p with (10 * 10 ^ (Z.of_nat k - 1)) by (subst p; rewrite <- Z.pow_succ_r by lia; f_equal; lia).
    pose proof (Z.mul_div_le M (10 ^ (Z.of_nat k - 1)) ltac:(lia)). nia.
Qed.

Lemma rounded_underflow mode neg M e0 y :
  0 < M -> rounded small mode neg M e0 y -> exponent_ y < cMinOffset -> (val M e0 < val cMinValue cMinOffset)%Q.
Proof.
  intros HM Hr He. unfold cMinOffset in *. destruct (rounded_parts _ _ _ _ _ HM Hr) as (m & q & k & n & Hk & _ & Hm & Hv & Hq & Hn & Hc).
  change cMinValue with (10 ^ 15). rewrite <- (val_step (10 ^ 15) (-97)). change (10 ^ 15 * 10) with (10 ^ 16).
  destruct Hc as [[-> ->]|Hc].
  - rewrite Z.add_0_r in Hv. rewrite <- Hv. apply val_lt_exp; lia.
  - assert (e0 + k <= exponent_ y) as Hle.
    { destruct (Z.le_gt_cases (e0 + k) (exponent_ y)) as [|Hgt]; [done|exfalso].
      assert (val m (exponent_ y) < val (10 ^ 16) (exponent_ y))%Q by (apply val_lt; lia).
      assert (val (10 ^ 15) (exponent_ y + 1) <= val (10 ^ 15) (e0 + k))%Q by (apply val_mono_exp; lia).
      assert (val (10 ^ 15) (e0 + k) <= val n (e0 + k))%Q by (apply val_le; lia).
      pose proof (val_step (10 ^ 15) (exponent_ y)) as Hs. change (10 ^ 15 * 10) with (10 ^ 16) in Hs. lra. }
    assert (val M e0 < val ((q + 1) * 10 ^ k) e0)%Q by (apply val_lt; lia).
    rewrite (val_shift' (q + 1) e0 (e0 + k) k) in * by lia.
    assert (val (q + 1) (e0 + k) <= val (10 ^ 16) (e0 + k))%Q by (apply val_le; lia).
    assert (val (10 ^ 16) (e0 + k) <= val (10 ^ 16) (-97))%Q by (apply val_mono_exp; lia). lra.
Qed.

Lemma rounded_overflow mode neg M e0 y :
  0 < M -> rounded small mode neg M e0 y -> cMaxOffset < exponent_ y -> (val cMaxValue cMaxOffset < val M e0)%Q.
Proof.
  intros HM Hr He. unfold cMaxOffset in *. destruct (rounded_parts _ _ _ _ _ HM Hr) as (m & q & k & n & Hk & _ & Hm & Hv & Hq & Hn & Hc).
  change cMaxValue with (10 ^ 16 - 1).
  assert (val (10 ^ 16 - 1) 80 < val (10 ^ 16) 80)%Q as T1 by (apply val_lt; lia).
  assert (val (10 ^ 16) 80 <= val m (exponent_ y))%Q as T2.
  { change (10 ^ 16) with (10 ^ 15 * 10). rewrite val_step. eapply Qle_trans; [apply (val_mono_exp _ _ (exponent_ y)); lia|].
    apply val_le. lia. }
  destruct Hc as [[-> ->]|Hc]; [rewrite Z.add_0_r in Hv; lra|].
  assert (val (q * 10 ^ k) e0 <= val M e0)%Q as T3 by (apply val_le; lia). rewrite (val_shift' q e0 (e0 + k) k) in T3 by lia.
  assert (forall c, n <= 10 ^ 16 - c -> c = 0 \/ c = 1 -> 80 + c <= e0 + k) as Hexp.
  { intros c Hnc Hc01. destruct (Z.le_gt_cases (80 + c) (e0 + k)) as [|Hgt]; [done|exfalso].
    assert (val n (e0 + k) <= val n (79 + c))%Q by (apply val_mono_exp; lia).
    assert (val n (79 + c) <= val (10 ^ 16 - c) (79 + c))%Q by (apply val_le; lia). destruct Hc01 as [->| ->].
    - assert (val (10 ^ 16) 79 < val (10 ^ 16) 80)%Q; [|rewrite Z.sub_0_r in *; change (79 + 0) with 79 in *; lra].
      change (val (10 ^ 16) 80) with (val (10 ^ 16) (79 + 1)). rewrite <- val_step. apply val_lt. lia.
    - change (79 + 1) with 80 in *. lra. }
  destruct Hn as [->|[-> Hlt]].
  - assert (81 <= e0 + k) by (apply (Hexp 1); lia).
    assert (val (10 ^ 15) 81 <= val (10 ^ 15) (e0 + k))%Q by (apply val_mono_exp; lia).
    assert (val (10 ^ 15) (e0 + k) <= val q (e0 + k))%Q by (apply val_le; lia).
    pose proof (val_step (10 ^ 15) 80) as Hs. change (10 ^ 15 * 10) with (10 ^ 16) in Hs. change (80 + 1) with 81 in Hs. lra.
  - assert (val (q * 10 ^ k) e0 < val M e0)%Q as T4 by (apply val_lt; lia). rewrite (val_shift' q e0 (e0 + k) k) in T4 by lia.
    destruct (decide (q = 10 ^ 16 - 1)) as [->|Hq'].
    + assert (80 <= e0 + k) by (apply (Hexp 0); lia).
      assert (val (10 ^ 16 - 1) 80 <= val (10 ^ 16 - 1) (e0 + k))%Q by (apply val_mono_exp; lia). lra.
    + assert (81 <= e0 + k) by (apply (Hexp 1); lia).
      assert (val (10 ^ 15) 81 <= val (10 ^ 15) (e0 + k))%Q by (apply val_mono_exp; lia).
      assert (val (10 ^ 15) (e0 + k) <= val q (e0 + k))%Q by (apply val_le; lia).
      pose proof (val_step (10 ^ 15) 80) as Hs. change (10 ^ 15 * 10) with (10 ^ 16) in Hs. change (80 + 1) with 81 in Hs. lra.
Qed.

Section Canonical.
Context (cfg : settings).

(** An amount of an issued currency is rounded once, to 16 digits; it is refused
    only above the largest amount, and becomes zero only below the smallest. *)
Lemma canonicalize_iou a :
  stNumberSwitchover cfg = true -> integral a = false -> 0 < mValue a < 2 ^ 63 ->
  minExponent + 18 <= mOffset a <= maxExponent ->
  match canonicalize cfg a with
  | Throw _ => (val cMaxValue cMaxOffset < val (mValue a) (mOffset a))%Q
  | Ret b =>
      mAsset b = mAsset a /\ canonical b /\
      (mValue b = 0 /\ (val (mValue a) (mOffset a) < val cMinValue cMinOffset)%Q \/
       rounded small (roundMode cfg) (mIsNegative a) (mValue a) (mOffset a) (mkNumber (mIsNegative b) (mValue b) (mOffset b)))
  end.
Proof.
  intros Hs Hi Hv Ho. unfold canonicalize. rewrite Hi, Hs, iou_eq by (done || lia). unfold iouNormalize.
  cbn [iouMantissa iouExponent]. rewrite Hs, (proj2 (Z.eqb_neq _ 0)) by (unfold signed; destruct (mIsNegative a); lia).
  destruct (iou_number cfg (mIsNegative a) (mValue a) (mOffset a) Hv Ho) as (r & Hr & ->).
  assert (forall b, mAsset b = mAsset a -> mValue b = 0 -> mOffset b = -100 -> mIsNegative b = false -> canonical b) as Cz.
  { intros b Hb. unfold canonical, integral. rewrite Hb. unfold integral in Hi. rewrite Hi. by left. }
  destruct r as [w|y]; cbn [mbind outcome_bind].
  { eapply Qle_lt_trans; [|exact Hr]. eapply Qle_trans; [apply (val_mono_exp _ _ maxExponent); [done|unfold cMaxOffset, maxExponent; lia]|].
    apply val_le. apply cMax_top. }
  destruct Hr as [[-> Hlt]|Hr%fitted_small].
  { change (iouInRange _) with (Ret iouZero). rewrite Ret_bind. split_and!; [done|by apply Cz|]. left. split; [done|].
    eapply Qlt_le_trans; [exact Hlt|]. change (minM small) with cMinValue. apply val_mono_exp; [done|unfold cMinOffset, minExponent; lia]. }
  unfold iouInRange. cbn [iouExponent]. destruct (Z.ltb_spec cMaxOffset (exponent_ y)).
  { cbn [mbind outcome_bind]. eapply rounded_overflow; [|done..]. lia. }
  destruct (Z.ltb_spec (exponent_ y) cMinOffset); rewrite Ret_bind.
  { split_and!; [done|by apply Cz|]. left. split; [done|]. eapply rounded_underflow; [|done..]. lia. }
  destruct (rounded_parts _ _ _ _ _ (proj1 Hv) Hr) as (m & _ & _ & _ & _ & -> & Hm & _).
  unfold assignIOU. cbn [mAsset mValue mOffset mIsNegative iouMantissa iouExponent]. rewrite abs_signed by lia.
  replace (signed (negative_ y) (mantissa_ y) <? 0) with (negative_ y) by (unfold signed; destruct (negative_ y); lia).
  split; [done|]. split; [|right; by destruct y]. unfold canonical, integral. cbn [mAsset mValue mOffset mIsNegative].
  unfold integral in Hi. rewrite Hi. right. unfold cMaxValue, cMinValue. lia.
Qed.

Lemma canonicalize_id a : canonical a -> canonicalize cfg a = Ret a.
Proof.
  unfold canonical. destruct a as [asset v o neg]. unfold canonicalize. destruct (integral _) eqn:Hi; cbn [mAsset mValue mOffset mIsNegative].
  - intros (-> & Hv & Hz). cbn [Z.leb]. rewrite orb_false_r. destruct (Z.eqb_spec v 0) as [->|Hv0]; [by rewrite Hz|].
    set (a := mkSTAmount asset v 0 neg) in *. assert (v <= maxRep) as Hmax.
    { unfold maxRep, cMaxNativeN, maxMPTokenAmount in *. destruct (native a); lia. }
    assert (integralValue cfg a = Ret (v, neg)) as ->.
    { subst a. unfold integralValue. cbn [mAsset mValue mOffset mIsNegative]. rewrite !andb_false_r.
      destruct (stNumberSwitchover cfg && stAmountCanonicalizeSwitchover cfg); [|done].
      destruct (integral_toRep cfg (mkSTAmount asset v 0 neg) ltac:(cbn; lia)) as (n & Hn & Ht).
      cbn [mAsset mValue mOffset mIsNegative] in Ht. rewrite Ht. change (0 <? 0) with false. cbn [andb].
      change (rounding (roundMode cfg) neg v 1 n) in Hn.
      rewrite <- (Z.mul_1_r v) in Hn. apply rounding_exact in Hn; [|done]. subst n. rewrite Ret_bind, abs_signed by lia. f_equal. f_equal.
      unfold signed. destruct neg; lia. }
    rewrite Ret_bind. destruct (native a); cbn [andb negb]; by rewrite (proj2 (Z.ltb_ge _ _)) by lia.
  - intros Hc. destruct (stNumberSwitchover cfg) eqn:Hs.
    + rewrite iou_eq; [|done|cbn; destruct Hc as [(-> & _)|[Hc _]]; [lia|unfold cMaxValue, cMinValue in Hc; lia]].
      cbn [mAsset mValue mOffset mIsNegative]. rewrite iouNormalize_id; cycle 1.
      { destruct Hc as [(-> & -> & ->)|[Hv Ho]]; [by left|right]. cbn. rewrite abs_signed by (unfold cMinValue in *; lia). done. }
      rewrite Ret_bind. unfold assignIOU. cbn [iouMantissa iouExponent mAsset]. do 2 f_equal; [destruct Hc as [(-> & _)|[Hc _]]; unfold signed; destruct neg; unfold cMinValue in *; lia|].
      destruct Hc as [(-> & _ & ->)|[Hc _]]; [done|]. unfold signed, cMinValue in *. destruct neg; lia.
    + destruct Hc as [(-> & -> & ->)|[Hv Ho]]; [done|]. rewrite (proj2 (Z.eqb_neq v 0)) by (unfold cMinValue in *; lia).
      by rewrite legacyNormalize_id.
Qed.

(** Whatever is canonicalized is canonical. *)
Lemma canonicalize_canonical a b :
  switched cfg -> 0 <= mValue a < 2 ^ 63 -> canonicalize cfg a = Ret b -> canonical b /\ mAsset b = mAsset a.
Proof.
  intros Hs Hv Hb. destruct (integral a) eqn:Hi.
  - destruct ((mValue a =? 0) || (mOffset a <=? -20)) eqn:Hz.
    { unfold canonicalize in Hb. rewrite Hi, Hz in Hb. injection Hb as <-. split; [|done]. unfold canonical, integral, native in *.
      cbn. rewrite Hi. split_and!; [done|done|by destruct (asset_native _)|done]. }
    b2p. destruct (canonicalize_integral cfg a Hs Hi) as (n & Hn & Hc); [unfold maxRep; lia|lia|].
    pose proof (units_nonneg cfg a n ltac:(lia) Hn). destruct (Z.leb_spec n (if native a then cMaxNativeN else maxMPTokenAmount)).
    + rewrite Hc in Hb. injection Hb as <-. split; [|done]. unfold canonical, integral, native in *. cbn. rewrite Hi.
      split_and!; [done|lia|done|]. intros ->. by rewrite andb_false_r.
    + destruct Hc as [what Hc]. by rewrite Hc in Hb.
  - destruct Hs as [Hs _]. unfold canonicalize in Hb. rewrite Hi, Hs, iou_eq in Hb by done.
    apply bind_Ret in Hb as (x & Hx & [= <-]). apply iouNormalize_canonical in Hx; [|unfold signed; cbn; destruct (mIsNegative a); lia].
    split; [|done]. unfold canonical, integral in *. cbn [mAsset assignIOU mValue mOffset mIsNegative]. rewrite Hi.
    destruct Hx as [->|[Hm He]]; [by left|by right].
Qed.

End Canonical.

(** ** The wire format of amounts

    A canonical amount of a well-formed asset is read back as it was written. *)

(** ** Values that are written and read back *)

(** [enc] writes the values that are [ok] as bytes from which [dec] reads them. *)
Definition roundtrips {A} (ok : A -> Prop) (enc : A -> Blob -> outcome Blob) (dec : reader A) : Prop :=
  forall a, ok a -> exists bs, Forall is_byte bs /\ (forall s, enc a s = Ret (s ++ bs)) /\ reads dec bs a.

Lemma codec_roundtrips {A} (c : codec A) :
  roundtrips (fits c) (fun a s => encode c a s ≫= fun r => Ret r.2) (decode c).
Proof.
  intros a Ha. destruct (codec_writes c a Ha) as (bs & Hb & Hw & Hr). exists bs. split_and!; [done| |done].
  intros s. by rewrite Hw.
Qed.

(** ** Bits *)

Lemma land_pow2 w k : 0 <= k -> Z.land w (2 ^ k) = (w / 2 ^ k mod 2) * 2 ^ k.
Proof.
  intros Hk. apply Z.bits_inj'. intros i Hi. rewrite Z.land_spec, Z.pow2_bits_eqb by done.
  rewrite <- Z.shiftl_mul_pow2, Z.shiftl_spec by done. destruct (Z.eqb_spec k i) as [->|Hne].
  - rewrite andb_true_r, Z.sub_diag. rewrite <- (Z.testbit_spec' w i) by lia. by destruct (Z.testbit w i).
  - rewrite andb_false_r. symmetry. destruct (Z.lt_ge_cases i k) as [|Hge]; [apply Z.testbit_neg_r; lia|].
    rewrite <- (Z.testbit_spec' w k) by lia.
    destruct (Z.testbit w k); cbn [Z.b2z]; [|apply Z.bits_0].
    change 1 with (2 ^ 0). rewrite Z.pow2_bits_eqb by lia. lia.
Qed.

(** The test of one bit of [h * 2^k + l]. *)
Lemma bit_test h l k : 0 <= k -> 0 <= l < 2 ^ k -> (Z.land (h * 2 ^ k + l) (2 ^ k) =? 0) = Z.even h.
Proof.
  intros Hk Hl. rewrite land_pow2 by done. rewrite Z.div_add_l, (Z.div_small l), Z.add_0_r by lia.
  rewrite Zmod_even. destruct (Z.even h); [done|]. apply Z.eqb_neq. lia.
Qed.

(** ** Bytes *)

Lemma bigEndian_small n z :
  0 <= z < 256 ^ Z.of_nat n -> exists bs, bs = bigEndian n z /\ length bs = n /\ Forall is_byte bs /\ fromBytes bs = z.
Proof.
  intros Hz. exists (bigEndian n z). split_and!; [done|apply length_bigEndian|apply bytes_bigEndian|].
  rewrite fromBytes_bigEndian. by apply Z.mod_small.
Qed.

Lemma fromBytes_app xs ys : fromBytes (xs ++ ys) = fromBytes xs * 256 ^ lengthZ ys + fromBytes ys.
Proof. unfold fromBytes at 1. rewrite foldl_app. fold (fromBytes xs). apply foldl_bytes_shift. Qed.

Lemma bytes_unique xs ys :
  Forall is_byte xs -> Forall is_byte ys -> length xs = length ys -> fromBytes xs = fromBytes ys -> xs = ys.
Proof. intros Hx Hy Hl E. rewrite <- (bigEndian_fromBytes xs), <- (bigEndian_fromBytes ys) by done. by rewrite Hl, E. Qed.

(** A byte before eight bytes is eight bytes before the last one. *)
Lemma bigEndian_shift u v :
  is_byte u -> 0 <= v < 2 ^ 64 -> u :: bigEndian 8 v = bigEndian 8 (u * 2 ^ 56 + v / 256) ++ [v mod 256].
Proof.
  intros Hu Hv. unfold is_byte in Hu. assert (0 <= v / 256 < 2 ^ 56) as Hq by (Z.to_euclidean_division_equations; lia).
  pose proof (Z.mod_pos_bound v 256 ltac:(lia)). pose proof (Z.div_mod v 256 ltac:(lia)). apply bytes_unique.
  - constructor; [done|apply bytes_bigEndian].
  - apply Forall_app. split; [apply bytes_bigEndian|]. repeat constructor; unfold is_byte; lia.
  - cbn [length]. by rewrite length_app, !length_bigEndian.
  - rewrite fromBytes_cons, fromBytes_app, !fromBytes_bigEndian. unfold lengthZ. rewrite length_bigEndian. cbn [length].
    change (256 ^ Z.of_nat 8) with (2 ^ 64). change (256 ^ Z.of_nat 1) with 256. rewrite (Z.mod_small v (2 ^ 64)), (Z.mod_small _ (2 ^ 64)) by lia.
    unfold fromBytes. cbn [foldl]. lia.
Qed.

Lemma reads_get64 v : 0 <= v < 2 ^ 64 -> reads get64 (bigEndian 8 v) v.
Proof. intros Hv. apply (reads_number _ 8 _ _ number64). exact Hv. Qed.

Lemma reads_bits n v : length v = n -> reads (getBitString (Z.of_nat n)) v v.
Proof. intros <-. by apply reads_advance. Qed.

(** ** Assets *)

Definition bytesOf (n : nat) (v : Blob) : Prop := length v = n /\ Forall is_byte v.

Lemma isXRP_zero v : isXRP v = true -> v = replicate (length v) 0.
Proof.
  induction v as [|b v IH]; [done|]. unfold isXRP. cbn [forallb length replicate]. intros [Hb Hv]%andb_true_iff.
  apply Z.eqb_eq in Hb. subst b. f_equal. by apply IH.
Qed.

Lemma native_currency i : length (currency i) = 20%nat -> issue_native i = isXRP (currency i).
Proof.
  intros Hl. unfold issue_native, issue_eqb. destruct (isXRP (currency i)) eqn:E; cbn.
  - rewrite andb_true_r. apply bool_decide_eq_true. apply isXRP_zero in E. rewrite E, Hl. done.
  - apply andb_false_iff. left. apply bool_decide_eq_false. intros E2. by rewrite E2 in E.
Qed.

(** The assets of amounts in serialized objects: the native one is [xrpIssue],
    an issued currency has an issuer. *)
Definition asset_ok (a : Asset) : Prop :=
  match a with
  | AIssue i => i = xrpIssue \/
      bytesOf 20 (currency i) /\ bytesOf 20 (account i) /\ isXRP (currency i) = false /\ isXRP (account i) = false
  | AMPT id => bytesOf 24 id
  end.

(** ** Amounts *)

Definition amount_ok (a : STAmount) : Prop := asset_ok (mAsset a) /\ canonical a.

Section Settings.
Context (cfg : settings).

Lemma reads_native v neg :
  0 <= v < 2 ^ 61 -> (v = 0 -> neg = false) ->
  reads (getAmount cfg) (bigEndian 8 (if neg then v else v + 2 ^ 62)) (mkSTAmount (AIssue xrpIssue) v 0 neg).
Proof.
  intros Hv Hz. set (w := if neg then v else v + 2 ^ 62).
  assert (0 <= w < 2 ^ 63) by (subst w; destruct neg; lia).
  rewrite <- (app_nil_r (bigEndian 8 w)). eapply reads_bind; [apply reads_get64; lia|].
  assert ((Z.land w cIssuedCurrency =? 0) = true) as ->.
  { change cIssuedCurrency with (2 ^ 63). replace w with (0 * 2 ^ 63 + w) by lia. by rewrite bit_test by lia. }
  assert ((Z.land w cMPToken =? 0) = true) as ->.
  { change cMPToken with (2 ^ 61). subst w. destruct neg;
      [replace v with (0 * 2 ^ 61 + v) by lia|replace (v + 2 ^ 62) with (2 * 2 ^ 61 + v) by lia]; by rewrite bit_test by lia. }
  assert ((Z.land w cPositive =? 0) = neg) as ->.
  { change cPositive with (2 ^ 62). subst w. destruct neg;
      [replace v with (0 * 2 ^ 62 + v) by lia|replace (v + 2 ^ 62) with (1 * 2 ^ 62 + v) by lia]; by rewrite bit_test by lia. }
  assert (Z.land w cValueMask = v) as ->.
  { change cValueMask with (Z.lor (Z.ones 61) (2 ^ 63)). rewrite Z.land_lor_distr_r, land_low, land_pow2 by lia.
    rewrite (Z.div_small w (2 ^ 63)), Z.mul_0_l, Z.lor_0_r by lia. subst w. destruct neg; [by apply Z.mod_small|].
    replace (v + 2 ^ 62) with (v + 2 * 2 ^ 61) by lia. rewrite Z_mod_plus_full. by apply Z.mod_small. }
  cbn [negb]. destruct neg; cbn [negb]; [|apply reads_ret].
  subst w. rewrite (proj2 (Z.eqb_neq v 0)) by naive_solver. apply reads_ret.
Qed.

Lemma reads_mpt v (neg : bool) id :
  0 <= v < 2 ^ 64 -> bytesOf 24 id ->
  reads (getAmount cfg) ((if neg then 32 else 96) :: bigEndian 8 v ++ id) (mkSTAmount (AMPT id) v 0 neg).
Proof.
  intros Hv [Hl Hid]. set (u := if neg then 32 else 96). assert (is_byte u) as Hu by (subst u; by destruct neg).
  rewrite app_comm_cons, bigEndian_shift, <- app_assoc by done.
  set (l := v / 256). assert (0 <= l < 2 ^ 56) as Hl56 by (subst l; Z.to_euclidean_division_equations; lia).
  assert (0 <= v mod 256 < 256) as Hm by (Z.to_euclidean_division_equations; lia).
  eapply reads_bind; [apply reads_get64; subst u; destruct neg; lia|].
  assert ((Z.land (u * 2 ^ 56 + l) cIssuedCurrency =? 0) = true) as ->.
  { change cIssuedCurrency with (2 ^ 63). replace (u * 2 ^ 56 + l) with (0 * 2 ^ 63 + (u * 2 ^ 56 + l)) by lia.
    rewrite bit_test; [done|lia|subst u; destruct neg; lia]. }
  assert ((Z.land (u * 2 ^ 56 + l) cMPToken =? 0) = false) as ->.
  { change cMPToken with (2 ^ 61). subst u. destruct neg;
      [replace (32 * 2 ^ 56 + l) with (1 * 2 ^ 61 + l) by lia|replace (96 * 2 ^ 56 + l) with (3 * 2 ^ 61 + l) by lia]; by rewrite bit_test by lia. }
  assert ((Z.land (u * 2 ^ 56 + l) cPositive =? 0) = neg) as ->.
  { change cPositive with (2 ^ 62). subst u. destruct neg;
      [replace (32 * 2 ^ 56 + l) with (0 * 2 ^ 62 + (2 ^ 61 + l)) by lia|replace (96 * 2 ^ 56 + l) with (1 * 2 ^ 62 + (2 ^ 61 + l)) by lia];
      by rewrite bit_test by lia. }
  cbn [negb]. eapply reads_bind; [by apply reads_get8|]. rewrite <- (app_nil_r id).
  eapply reads_bind; [by apply (reads_bits 24)|].
  assert (Z.lor (u64 (Z.shiftl (u * 2 ^ 56 + l) 8)) (v mod 256) = v) as ->; [|rewrite app_nil_r; apply reads_ret].
  rewrite Z.shiftl_mul_pow2 by lia. unfold u64. replace ((u * 2 ^ 56 + l) * 2 ^ 8) with (l * 2 ^ 8 + u * 2 ^ 64) by lia.
  rewrite Z_mod_plus_full, Z.mod_small, Z.lor_comm, lor_shifted by lia. subst l. change (2 ^ 8) with 256.
  pose proof (Z.div_mod v 256). lia.
Qed.

Lemma canonicalize_zero asset :
  asset_integral asset = false -> canonicalize cfg (mkSTAmount asset 0 0 false) = Ret (mkSTAmount asset 0 (-100) false).
Proof. intros Ha. unfold canonicalize, integral, iou, integral. cbn [mAsset]. rewrite Ha. by destruct (stNumberSwitchover cfg). Qed.

(** The ten high bits and the 54 low bits of an issued amount. *)
Lemma issued_parts h v :
  0 <= v < 2 ^ 54 -> 512 <= h < 1024 ->
  (Z.land (h * 2 ^ 54 + v) cIssuedCurrency =? 0) = false /\ Z.shiftr (h * 2 ^ 54 + v) 54 = h /\
  Z.land (h * 2 ^ 54 + v) (Z.lxor (2 ^ 64 - 1) (Z.shiftl 1023 54)) = v.
Proof.
  intros Hv Hh. split_and!.
  - change cIssuedCurrency with (2 ^ 63). replace (h * 2 ^ 54 + v) with (1 * 2 ^ 63 + ((h - 512) * 2 ^ 54 + v)) by lia.
    by rewrite bit_test by lia.
  - rewrite Z.shiftr_div_pow2, Z.div_add_l, Z.div_small by lia. lia.
  - change (Z.lxor _ _) with (Z.ones 54). rewrite land_low by lia. rewrite Z.add_comm, Z_mod_plus_full. by apply Z.mod_small.
Qed.

Lemma reads_issued h v b i :
  0 <= v < 2 ^ 54 -> 512 <= h < 1024 -> asset_ok (AIssue i) -> issue_native i = false ->
  reads (if negb (v =? 0) then
           if (v <? cMinValue) || (cMaxValue <? v) || (Z.land h 255 - 97 <? cMinOffset) || (cMaxOffset <? Z.land h 255 - 97)
           then throw "invalid currency value"
           else lift (canonicalize cfg (mkSTAmount (AIssue i) v (Z.land h 255 - 97) (Z.land h 256 =? 0)))
         else if negb (h =? 512) then throw "invalid currency value"
         else lift (canonicalize cfg (mkSTAmount (AIssue i) 0 0 false))) [] b ->
  reads (getAmount cfg) (bigEndian 8 (h * 2 ^ 54 + v) ++ currency i ++ account i) b.
Proof.
  intros Hv Hh Hi Hn Hrest. destruct (issued_parts h v Hv Hh) as (E1 & E2 & E3).
  destruct Hi as [->|([Lc Hc] & [La Ha] & Xc & Xa)]; [done|].
  eapply reads_bind; [apply reads_get64; lia|]. rewrite E1, E2, E3.
  eapply reads_bind; [by apply (reads_bits 20)|]. rewrite Xc. rewrite <- (app_nil_r (account i)).
  eapply reads_bind; [by apply (reads_bits 20)|]. rewrite Xa. destruct i. by apply Hrest.
Qed.

Lemma amount_reads a :
  amount_ok a ->
  exists bs, Forall is_byte bs /\ (forall s, addAmount a s = s ++ bs) /\ reads (getAmount cfg) bs a.
Proof.
  destruct a as [asset v o neg]. unfold amount_ok. cbn [mAsset]. intros [Ha Hc]. unfold addAmount. cbn [mAsset mValue mOffset mIsNegative].
  destruct asset as [i|id].
  - destruct (issue_native i) eqn:Hn.
    + unfold canonical, integral, native in Hc. cbn in Hc. rewrite Hn in Hc. destruct Hc as (-> & Hv & Hz). unfold cMaxNativeN in Hv.
      destruct Ha as [->|([Lc _] & _ & Xc & _)]; [|rewrite native_currency in Hn by done; congruence].
      exists (bigEndian 8 (if neg then v else v + 2 ^ 62)). split_and!; [apply bytes_bigEndian| |apply reads_native; [lia|done]].
      intros s. rewrite add64_bigEndian. cbn [addRaw snd]. do 2 f_equal. destruct neg; [done|]. change cPositive with (1 * 2 ^ 62).
      by rewrite lor_shifted by lia.
    + set (h := if v =? 0 then 512 else if neg then o + 609 else o + 865).
      assert (0 <= v < 2 ^ 54 /\ 512 <= h < 1024) as [Hv Hh].
      { unfold canonical, integral in Hc. cbn in Hc. rewrite Hn in Hc. subst h. unfold cMaxValue, cMinValue, cMinOffset, cMaxOffset in Hc.
        destruct (Z.eqb_spec v 0), neg; lia. }
      exists (bigEndian 8 (h * 2 ^ 54 + v) ++ currency i ++ account i). split_and!.
      * apply Forall_app. split; [apply bytes_bigEndian|]. destruct Ha as [->|([_ ?] & [_ ?] & _)]; [done|by apply Forall_app].
      * intros s. rewrite add64_bigEndian. unfold addBitString, addRaw. cbn [snd]. rewrite <- !app_assoc.
        match goal with |- s ++ bigEndian 8 ?w ++ _ = _ => assert (w = h * 2 ^ 54 + v) as ->; [|done] end.
        unfold isZero. cbn [mValue]. subst h. destruct (Z.eqb_spec v 0) as [->|]; [done|].
        destruct neg; [rewrite (u64_id (o + 512 + 97)) by lia|rewrite (u64_id (o + 512 + 256 + 97)) by lia];
          rewrite Z.shiftl_mul_pow2, u64_id, lor_shifted by lia; lia.
      * apply reads_issued; [done..|]. unfold canonical, integral in Hc. cbn in Hc. rewrite Hn in Hc.
        destruct (Z.eqb_spec v 0) as [->|Hv0]; cbn [negb].
        { subst h. change (512 =? 512) with true. cbn [negb]. destruct Hc as [(_ & -> & ->)|[Hc _]]; [|unfold cMinValue in Hc; lia].
          by apply reads_lift, canonicalize_zero. }
        destruct Hc as [[? _]|[Hc Ho]]; [done|]. unfold cMinOffset, cMaxOffset in Ho.
        assert (h = (if neg then 2 else 3) * 2 ^ 8 + (o + 97)) as Eh by (subst h; destruct neg; lia).
        assert (Z.land h 255 - 97 = o) as ->.
        { change 255 with (Z.ones 8). rewrite Eh, land_low, Z.add_comm, Z_mod_plus_full, Z.mod_small by lia. lia. }
        assert ((Z.land h 256 =? 0) = neg) as ->.
        { change 256 with (2 ^ 8). rewrite Eh, bit_test by lia. by destruct neg. }
        rewrite !(proj2 (Z.ltb_ge _ _)) by (unfold cMinOffset, cMaxOffset; lia). cbn [orb]. apply reads_lift, canonicalize_id.
        unfold canonical, integral. cbn. rewrite Hn. by right.
  - unfold canonical, integral, native in Hc. cbn in Hc. destruct Hc as (-> & Hv & _). unfold maxMPTokenAmount in Hv.
    exists ((if neg then 32 else 96) :: bigEndian 8 v ++ id). split_and!.
    + constructor; [by destruct neg|]. apply Forall_app. split; [apply bytes_bigEndian|apply Ha].
    + intros s. rewrite add64_bigEndian. unfold add8, addBitString, addRaw. cbn [snd]. rewrite <- !app_assoc. by destruct neg.
    + apply reads_mpt; [lia|done].
Qed.

End Settings.
