(* ===== verification/AmountProperties.v ===== *)
(** * Properties of amounts *)

From Stdlib Require Import QArith Lqa.
From stdpp Require Import strings.
From S2P Require Import Prelude Outcome Serializer SerializerFacts Number NumberFacts NumberAdd Amount AmountFacts.

Open Scope Z_scope.

(** The number an amount stands for. *)
Definition worth (a : STAmount) : Q := val (signed (mIsNegative a) (mValue a)) (mOffset a).

(** An amount in canonical form of any kind of asset (native, issued or a
    multi-purpose token) is read back from the bytes that are written of it, and
    nothing behind them is touched, whatever the settings of the ledger. *)
Theorem amount_roundtrip (cfg : settings) (a : STAmount) (s rest before : Blob) :
  amount_ok a ->
  exists bs, addAmount a s = s ++ bs /\
    getAmount cfg (mkSerialIter before (bs ++ rest)) = Ret (a, mkSerialIter (reverse bs ++ before) rest).
Proof. intros Ha. destruct (amount_reads cfg a Ha) as (bs & _ & Hw & Hr). exists bs. auto. Qed.

(** An amount of whole units that is given with a decimal exponent becomes
    the number of units it stands for, rounded by the mode in force if it has a
    fraction; a zero loses its sign; a number of units above the cap of its asset
    is refused. *)
Theorem canonicalize_units (cfg : settings) (a : STAmount) :
  switched cfg -> integral a = true -> 0 < mValue a <= maxRep -> -20 < mOffset a ->
  exists n, units cfg a n /\
    if n <=? (if native a then cMaxNativeN else maxMPTokenAmount)
    then canonicalize cfg a = Ret (mkSTAmount (mAsset a) n 0 (mIsNegative a && negb (n =? 0)))
    else exists what, canonicalize cfg a = Throw what.
Proof. apply canonicalize_integral. Qed.

(** An issued amount becomes the one canonical mantissa of sixteen digits
    and exponent nearest to it by the rounding mode in force; it is zero only if
    it is below the smallest amount, and refused only if it is above the largest;
    what is canonical already stays as it is. *)
Theorem canonicalize_issued (cfg : settings) (a : STAmount) :
  stNumberSwitchover cfg = true -> integral a = false -> 0 < mValue a < 2 ^ 63 ->
  minExponent + 18 <= mOffset a <= maxExponent ->
  match canonicalize cfg a with
  | Throw _ => (val cMaxValue cMaxOffset < val (mValue a) (mOffset a))%Q
  | Ret b =>
      mAsset b = mAsset a /\ canonical b /\ canonicalize cfg b = Ret b /\
      (mValue b = 0 /\ (val (mValue a) (mOffset a) < val cMinValue cMinOffset)%Q \/
       rounded small (roundMode cfg) (mIsNegative a) (mValue a) (mOffset a) (mkNumber (mIsNegative b) (mValue b) (mOffset b)))
  end.
Proof.
  intros Hs Hi Hv Ho. pose proof (canonicalize_iou cfg a Hs Hi Hv Ho) as H. destruct (canonicalize cfg a) as [|b]; [done|].
  destruct H as (Ha & Hc & H). split_and!; [done..|by apply canonicalize_id|done].
Qed.

(** *** Order *)

Lemma comparable_integral a b : areComparable a b = true -> integral a = integral b.
Proof.
  unfold areComparable, integral, asset_integral, native, asset_native. destruct (mAsset a), (mAsset b); try done.
  intros [H _]%andb_true_iff. by apply eqb_prop in H.
Qed.

(** The magnitude of canonical amounts of comparable assets. *)
Lemma amount_magnitudes a b :
  canonical a -> canonical b -> integral a = integral b -> mValue a <> 0 -> mValue b <> 0 ->
  0 < mValue a /\ 0 < mValue b /\
  (mOffset a < mOffset b -> (val (mValue a) (mOffset a) < val (mValue b) (mOffset b))%Q).
Proof.
  unfold canonical. intros Ha Hb Hi. rewrite Hi in Ha. destruct (integral b); intros Na Nb.
  { split_and!; [lia..|]. intros Ho. lia. }
  unfold cMaxValue, cMinValue in *. split_and!; [lia..|]. intros Ho.
  replace (mOffset b) with ((mOffset b - 1) + 1) by lia. rewrite <- val_step. apply val_lt_exp; lia.
Qed.

Lemma val_opp m e : (val (- m) e == - val m e)%Q.
Proof. rewrite <- Z.sub_0_l, val_sub, val_zero. ring. Qed.

Lemma val_pos m e : 0 < m -> (0 < val m e)%Q.
Proof. intros Hm. rewrite <- (val_zero e). by apply val_lt. Qed.

Lemma worth_zero a : mValue a = 0 -> (worth a == 0)%Q.
Proof. intros E. unfold worth. rewrite E. destruct (mIsNegative a); apply val_zero. Qed.

Lemma worth_sign a : (worth a == if mIsNegative a then - val (mValue a) (mOffset a) else val (mValue a) (mOffset a))%Q.
Proof. unfold worth, signed. destruct (mIsNegative a); [apply val_opp|reflexivity]. Qed.

Lemma canonical_zero a : canonical a -> mValue a = 0 -> mIsNegative a = false /\ mOffset a = if integral a then 0 else -100.
Proof. unfold canonical, cMinValue. destruct (integral a); intros Ha Hz; [naive_solver|]. destruct Ha as [Ha|Ha]; [naive_solver|lia]. Qed.

Lemma canonical_nonneg a : canonical a -> 0 <= mValue a.
Proof. unfold canonical, cMinValue. destruct (integral a); lia. Qed.

(** The comparisons, case by case: the sign, a zero, the exponents, the mantissas. *)
Lemma order_cases a b :
  canonical a -> canonical b -> integral a = integral b ->
  let lt := (if negb (Bool.eqb (mIsNegative a) (mIsNegative b)) then mIsNegative a
     else if mValue a =? 0 then if mIsNegative b then false else negb (mValue b =? 0)
     else if mValue b =? 0 then false
     else if mOffset b <? mOffset a then mIsNegative a
     else if mOffset a <? mOffset b then negb (mIsNegative a)
     else if mValue b <? mValue a then mIsNegative a
     else if mValue a <? mValue b then negb (mIsNegative a)
     else false) in
  let eq := Bool.eqb (mIsNegative a) (mIsNegative b) && (mOffset a =? mOffset b) && (mValue a =? mValue b) in
  if eq then lt = false /\ (worth a == worth b)%Q
  else if lt then (worth a < worth b)%Q else (worth b < worth a)%Q.
Proof.
  intros Ha Hb Hi. cbv zeta. pose proof (canonical_nonneg a Ha). pose proof (canonical_nonneg b Hb).
  pose proof (worth_sign a) as Wa. pose proof (worth_sign b) as Wb. destruct (Z.eqb_spec (mValue a) 0) as [Ea|Ea].
  - destruct (canonical_zero a Ha Ea) as [Sa Oa]. rewrite Sa, Oa, Ea in *. destruct (Z.eqb_spec (mValue b) 0) as [Eb|Eb].
    + destruct (canonical_zero b Hb Eb) as [Sb Ob]. rewrite Sb, Ob, Eb, Hi, !Z.eqb_refl in *. cbn. split; [done|lra].
    + rewrite (proj2 (Z.eqb_neq 0 (mValue b))), andb_false_r by lia. pose proof (val_pos (mValue b) (mOffset b) ltac:(lia)).
      pose proof (val_zero (if integral a then 0 else -100)). destruct (mIsNegative b); cbn; lra.
  - pose proof (val_pos (mValue a) (mOffset a) ltac:(lia)). destruct (Z.eqb_spec (mValue b) 0) as [Eb|Eb].
    + destruct (canonical_zero b Hb Eb) as [Sb Ob]. rewrite Sb, Ob, Eb in *. rewrite (proj2 (Z.eqb_neq (mValue a) 0)), andb_false_r by lia.
      pose proof (val_zero (if integral b then 0 else -100)). destruct (mIsNegative a); cbn; lra.
    + pose proof (val_pos (mValue b) (mOffset b) ltac:(lia)).
      destruct (amount_magnitudes a b Ha Hb Hi Ea Eb) as (_ & _ & Hab). destruct (amount_magnitudes b a Hb Ha (eq_sym Hi) Eb Ea) as (_ & _ & Hba).
      destruct (Z.lt_trichotomy (mOffset a) (mOffset b)) as [Ho|[Ho|Ho]].
      * specialize (Hab Ho). rewrite (proj2 (Z.eqb_neq (mOffset a) _)), andb_false_r by lia. cbn [andb].
        rewrite (proj2 (Z.ltb_ge (mOffset b) (mOffset a))) by lia.
        rewrite (proj2 (Z.ltb_lt (mOffset a) (mOffset b))) by lia. destruct (mIsNegative a), (mIsNegative b); cbn; lra.
      * rewrite Ho, Z.eqb_refl, Z.ltb_irrefl, andb_true_r in *.
        destruct (Z.lt_trichotomy (mValue a) (mValue b)) as [Hv|[Hv|Hv]].
        -- pose proof (val_lt _ _ (mOffset b) Hv). rewrite (proj2 (Z.eqb_neq (mValue a) _)), andb_false_r by lia.
           rewrite (proj2 (Z.ltb_ge (mValue b) (mValue a))), (proj2 (Z.ltb_lt (mValue a) (mValue b))) by lia.
           destruct (mIsNegative a), (mIsNegative b); cbn; lra.
        -- rewrite Hv, Z.eqb_refl, Z.ltb_irrefl, andb_true_r in *. destruct (mIsNegative a), (mIsNegative b); cbn; first [split; [done|lra]|lra].
        -- pose proof (val_lt _ _ (mOffset b) Hv). rewrite (proj2 (Z.eqb_neq (mValue a) _)), andb_false_r by lia.
           rewrite (proj2 (Z.ltb_lt (mValue b) (mValue a))) by lia. destruct (mIsNegative a), (mIsNegative b); cbn; lra.
      * specialize (Hba Ho). rewrite (proj2 (Z.eqb_neq (mOffset a) _)), andb_false_r by lia. cbn [andb].
        rewrite (proj2 (Z.ltb_lt (mOffset b) (mOffset a))) by lia. destruct (mIsNegative a), (mIsNegative b); cbn; lra.
Qed.

(** On canonical amounts of the same currency or token, [operator<] is the
    order of the numbers they stand for, and [operator==] holds exactly for
    amounts that stand for the same number. *)
Theorem amount_order (a b : STAmount) :
  canonical a -> canonical b -> areComparable a b = true ->
  (amount_ltb a b = Ret true <-> (worth a < worth b)%Q) /\ (exists r, amount_ltb a b = Ret r) /\
  (amount_eqb a b = true <-> (worth a == worth b)%Q).
Proof.
  intros Ha Hb Hc. pose proof (order_cases a b Ha Hb (comparable_integral a b Hc)) as H. cbv zeta in H.
  unfold amount_ltb, amount_eqb. rewrite Hc. cbn [negb andb]. destruct (_ && _ && _) eqn:Ee in H |- *.
  - destruct H as [-> H]. split; [|split; [by eexists|done]]. split; [discriminate|]. intros ?. exfalso. lra.
  - destruct (if negb _ then _ else _);
      (split; [|split; [by eexists|]]); split; intros ?; first [reflexivity | discriminate | lra | exfalso; lra].
Qed.

(** *** Addition of whole units *)

Lemma signed_canonical asset n cap :
  asset_integral asset = true -> cap = (if asset_native asset then cMaxNativeN else maxMPTokenAmount) -> Z.abs n <= cap ->
  canonical (mkSTAmount asset (Z.abs n) 0 (n <? 0)).
Proof.
  intros Hi -> Hn. unfold canonical, integral, native. cbn [mAsset mOffset mValue mIsNegative]. rewrite Hi. split_and!; lia.
Qed.

Lemma signed_abs n : signed (n <? 0) (Z.abs n) = n.
Proof. unfold signed. destruct (Z.ltb_spec n 0); lia. Qed.

Lemma integral_signed a : canonical a -> integral a = true -> signedValue a = signed (mIsNegative a) (mValue a).
Proof.
  intros Ha Hi. apply signedValue_eq. unfold canonical in Ha. rewrite Hi in Ha. unfold cMaxNativeN, maxMPTokenAmount in Ha.
  destruct (native a); lia.
Qed.

Lemma comparable_native a b : areComparable a b = true -> native a = native b /\ holdsMPT (mAsset a) = holdsMPT (mAsset b).
Proof.
  unfold areComparable. destruct (mAsset a) eqn:Ea, (mAsset b) eqn:Eb; try done.
  - intros [H _]%andb_true_iff. by apply eqb_prop in H.
  - intros _. unfold native. by rewrite Ea, Eb.
Qed.

(** The sum of two canonical amounts of whole units of the same kind is
    exact, and canonical, as long as it is within the cap of the asset. *)
Theorem integral_sum (cfg : settings) (a b : STAmount) :
  canonical a -> canonical b -> integral a = true -> areComparable a b = true ->
  let n := signed (mIsNegative a) (mValue a) + signed (mIsNegative b) (mValue b) in
  Z.abs n <= (if native a then cMaxNativeN else maxMPTokenAmount) ->
  exists c, amount_add cfg a b = Ret c /\ canonical c /\ native c = native a /\ signed (mIsNegative c) (mValue c) = n.
Proof.
  intros Ha Hb Hi Hc n Hn. pose proof (comparable_integral a b Hc) as Hib. rewrite Hi in Hib.
  destruct (comparable_native a b Hc) as [Hnat Hmpt]. unfold amount_add, isZero. rewrite Hc. cbn [negb].
  destruct (Z.eqb_spec (mValue b) 0) as [Eb|Eb].
  { exists a. split_and!; [done..|]. subst n. destruct (canonical_zero b Hb Eb) as [-> _]. rewrite Eb. unfold signed. lia. }
  destruct (Z.eqb_spec (mValue a) 0) as [Ea|Ea].
  { exists (mkSTAmount (mAsset a) (mValue b) (mOffset b) (mIsNegative b)).
    assert (canonical (mkSTAmount (mAsset a) (mValue b) (mOffset b) (mIsNegative b))) as Hcb.
    { revert Hb. unfold canonical. rewrite <- Hib, <- Hnat. unfold integral, native in *. cbn [mAsset mOffset mValue mIsNegative]. by rewrite Hi. }
    split_and!; [|done|done|].
    - unfold namedAmount, amount. rewrite canonicalize_id by done. replace (2 ^ 63 - 1 <? mValue b) with false; [by rewrite !andb_false_r|].
      symmetry. apply Z.ltb_ge. unfold canonical in Hb. rewrite <- Hib in Hb. unfold cMaxNativeN, maxMPTokenAmount in Hb. destruct (native b); lia.
    - subst n. cbn [mIsNegative mValue]. rewrite Ea. unfold signed. destruct (mIsNegative a); lia. }
  assert (s64 n = n) as Es. { apply s64_id. unfold cMaxNativeN, maxMPTokenAmount in Hn. destruct (native a); lia. }
  unfold getSNValue, mpt. rewrite <- Hnat, <- Hmpt, !integral_signed by done. destruct (native a) eqn:En.
  - rewrite !Ret_bind. fold n. rewrite Es. exists (nativeAmount n). split_and!; [done| |done|apply signed_abs].
    by eapply signed_canonical.
  - assert (holdsMPT (mAsset a) = true) as Hm.
    { unfold integral, native, asset_integral in *. destruct (mAsset a); [cbn in En; congruence|done]. }
    rewrite Hm, !Ret_bind. fold n. rewrite Es. assert (canonical (mkSTAmount (mAsset a) (Z.abs n) 0 (n <? 0))) as Hcn.
    { eapply signed_canonical; [done..|]. unfold native in En. by rewrite En. }
    exists (mkSTAmount (mAsset a) (Z.abs n) 0 (n <? 0)). split_and!; [by apply canonicalize_id|done|done|apply signed_abs].
Qed.

(** ** Witnesses *)

Definition usd : Asset := AIssue (mkIssue (replicate 12 0 ++ [85; 83; 68; 0; 0; 0; 0; 0]) (replicate 20 7)).

Definition currentSettings : settings := mkSettings to_nearest large true true.

Lemma currentSettings_switched : switched currentSettings.
Proof. done. Qed.

(** 1.5 of an issued currency, written by hand in canonical form. *)
Definition usd15 (neg : bool) : STAmount := mkSTAmount usd 1500000000000000 (-15) neg.

Lemma usd15_canonical neg : canonical (usd15 neg).
Proof. right. split; split; vm_compute; discriminate. Qed.

Lemma bytes_forallb bs : forallb (fun b => (0 <=? b) && (b <? 256)) bs = true -> Forall is_byte bs.
Proof.
  intros E. rewrite forallb_forall in E. apply Forall_forall. intros b Hb. apply list_elem_of_In in Hb. specialize (E b Hb).
  unfold is_byte. lia.
Qed.

Lemma usd15_ok neg : amount_ok (usd15 neg).
Proof.
  split; [|apply usd15_canonical]. right. split; [split; [reflexivity|apply bytes_forallb; reflexivity]|].
  split; [split; [reflexivity|apply bytes_forallb; reflexivity]|split; reflexivity].
Qed.

Lemma amount_roundtrip_witness :
  exists bs, addAmount (usd15 true) [9] = [9] ++ bs /\
    getAmount currentSettings (mkSerialIter [] (bs ++ [4; 5])) = Ret (usd15 true, mkSerialIter (reverse bs ++ []) [4; 5]).
Proof. apply (amount_roundtrip currentSettings (usd15 true) [9] [4; 5] []). apply usd15_ok. Defined.

(** 12.5 units of the native asset: half to even. *)
Lemma canonicalize_units_witness :
  exists n, units currentSettings (mkSTAmount (AIssue xrpIssue) 125 (-1) true) n /\
    if n <=? cMaxNativeN
    then canonicalize currentSettings (mkSTAmount (AIssue xrpIssue) 125 (-1) true)
         = Ret (mkSTAmount (AIssue xrpIssue) n 0 (true && negb (n =? 0)))
    else exists what, canonicalize currentSettings (mkSTAmount (AIssue xrpIssue) 125 (-1) true) = Throw what.
Proof.
  apply (canonicalize_units currentSettings (mkSTAmount (AIssue xrpIssue) 125 (-1) true)).
  - exact currentSettings_switched.
  - reflexivity.
  - split; [reflexivity|vm_compute; discriminate].
  - reflexivity.
Defined.

Lemma canonicalize_issued_witness :
  match canonicalize currentSettings (mkSTAmount usd 12345678901234565 3 false) with
  | Throw _ => (val cMaxValue cMaxOffset < val 12345678901234565 3)%Q
  | Ret b =>
      mAsset b = usd /\ canonical b /\ canonicalize currentSettings b = Ret b /\
      (mValue b = 0 /\ (val 12345678901234565 3 < val cMinValue cMinOffset)%Q \/
       rounded small to_nearest false 12345678901234565 3 (mkNumber (mIsNegative b) (mValue b) (mOffset b)))
  end.
Proof.
  apply (canonicalize_issued currentSettings (mkSTAmount usd 12345678901234565 3 false)).
  - reflexivity.
  - reflexivity.
  - split; reflexivity.
  - split; vm_compute; discriminate.
Defined.

Lemma amount_order_witness :
  (amount_ltb (usd15 true) (usd15 false) = Ret true <-> (worth (usd15 true) < worth (usd15 false))%Q) /\
  (exists r, amount_ltb (usd15 true) (usd15 false) = Ret r) /\
  (amount_eqb (usd15 true) (usd15 false) = true <-> (worth (usd15 true) == worth (usd15 false))%Q).
Proof. apply (amount_order (usd15 true) (usd15 false)); [apply usd15_canonical..|vm_compute; reflexivity]. Defined.

Definition drops (n : Z) : STAmount := mkSTAmount (AIssue xrpIssue) (Z.abs n) 0 (n <? 0).

Lemma integral_sum_witness :
  exists c, amount_add currentSettings (drops 5) (drops (-12)) = Ret c /\ canonical c /\ native c = native (drops 5) /\
    signed (mIsNegative c) (mValue c) = signed false 5 + signed true 12.
Proof.
  apply (integral_sum currentSettings (drops 5) (drops (-12))).
  - eapply signed_canonical; [reflexivity..|vm_compute; discriminate].
  - eapply signed_canonical; [reflexivity..|vm_compute; discriminate].
  - reflexivity.
  - vm_compute; reflexivity.
  - vm_compute; discriminate.
Defined.
