(* ===== verification/STLeaf.v ===== *)
(** * Serialized values

    Models the values of serialized fields other than objects and arrays:
    [STInteger.cpp], [STBitString.h], [STBlob.cpp], [STAccount.cpp],
    [STVector256.cpp], [STPathSet.cpp], [STIssue.cpp], [STXChainBridge.cpp],
    [STCurrency.cpp], [STNumber.cpp] and [STAmount.cpp] of
    [src/libxrpl/protocol], each with its constructor from a [SerialIter], its
    [add], its [getSType] and its [isDefault]. *)

From stdpp Require Import strings.
From S2P Require Import Prelude Outcome Serializer Number Amount SFields.

(** ** STAccount *)

Record STAccount := mkSTAccount { accountValue : Blob; default_ : bool }.

#[export] Instance STAccount_eq_dec : EqDecision STAccount.
Proof. solve_decision. Defined.

Definition getAccount : reader STAccount :=
  getVL ≫= fun v =>
  match v with
  | [] => mret (mkSTAccount (replicate 20 0) true)
  | _ => if negb (lengthZ v =? 20) then throw "Invalid STAccount size" else mret (mkSTAccount v false)
  end.

Definition addAccount (a : STAccount) (s : Blob) : outcome Blob :=
  addVL (if default_ a then [] else accountValue a) s ≫= fun r => Ret r.2.

(** ** STVector256 *)

(** [slice.substr(i * 32, 32)] for each [i]. *)
Definition chunks (cnt : nat) (slice : Blob) : list Blob :=
  map (fun i => take 32 (drop (i * 32) slice)) (seq 0 cnt).

Definition getVector256 : reader (list Blob) :=
  getVLDataLength ≫= fun n =>
  getSlice n ≫= fun slice =>
  if negb (lengthZ slice mod 32 =? 0) then throw "Bad serialization for STVector256"
  else mret (chunks (Z.to_nat (lengthZ slice / 32)) slice).

Definition addVector256 (l : list Blob) (s : Blob) : outcome Blob :=
  addVL (concat l) s ≫= fun r => Ret r.2.

(** ** STPathSet *)

Record STPathElement := mkPathElement {
  mType : Z;
  mAccountID : Blob;
  mCurrencyID : Blob;
  mIssuerID : Blob;
  is_offer_ : bool;
}.

#[export] Instance STPathElement_eq_dec : EqDecision STPathElement.
Proof. solve_decision. Defined.

Definition typeNone : Z := 0.
Definition typeAccount : Z := 1.
Definition typeCurrency : Z := 16.
Definition typeIssuer : Z := 32.
Definition typeBoundary : Z := 255.
Definition typeAll : Z := Z.lor (Z.lor typeAccount typeCurrency) typeIssuer.

(** The constructor from an account, a currency and an issuer. *)
Definition pathElement (account currency issuer : Blob) (forceCurrency : bool) : STPathElement :=
  let t := if isXRP account then typeNone else Z.lor typeNone typeAccount in
  let t := if forceCurrency || negb (isXRP currency) then Z.lor t typeCurrency else t in
  let t := if isXRP issuer then t else Z.lor t typeIssuer in
  mkPathElement t account currency issuer (isXRP account).

Definition has (t flag : Z) : bool := negb (Z.land t flag =? 0).

(** [if (hasAccount) account = sit.get160()]. *)
Definition get160If (b : bool) : reader Blob := if b then getBitString 20 else mret (replicate 20 0).

(** [for (;;)]; every turn reads a byte, so the number of bytes is enough fuel. *)
Fixpoint pathLoop (fuel : nat) (path : list STPathElement) (value : list (list STPathElement)) :
    reader (list (list STPathElement)) :=
  match fuel with
  | O => throw "out of fuel"
  | S fuel =>
      get8 ≫= fun iType =>
      if (iType =? typeNone) || (iType =? typeBoundary) then
        match path with
        | [] => throw "empty path"
        | _ => let value := value ++ [path] in
               if iType =? typeNone then mret value else pathLoop fuel [] value
        end
      else if negb (Z.land iType (Z.lnot typeAll) =? 0) then throw "bad path element"
      else
        get160If (has iType typeAccount) ≫= fun account =>
        get160If (has iType typeCurrency) ≫= fun currency =>
        get160If (has iType typeIssuer) ≫= fun issuer =>
        pathLoop fuel (path ++ [pathElement account currency issuer (has iType typeCurrency)]) value
  end.

Definition getPathSet : reader (list (list STPathElement)) := fun it =>
  pathLoop (S (length (ahead it))) [] [] it.

Definition addPathElement (e : STPathElement) (s : Blob) : Blob :=
  let s := (add8 (mType e) s).2 in
  let s := if has (mType e) typeAccount then (addBitString (mAccountID e) s).2 else s in
  let s := if has (mType e) typeCurrency then (addBitString (mCurrencyID e) s).2 else s in
  if has (mType e) typeIssuer then (addBitString (mIssuerID e) s).2 else s.

Definition addPath (path : list STPathElement) (s : Blob) : Blob := foldl (fun s e => addPathElement e s) s path.

Definition addPathSet (value : list (list STPathElement)) (s : Blob) : Blob :=
  let '(_, s) :=
    foldl (fun '(first, s) path =>
             (false, addPath path (if (first : bool) then s else (add8 typeBoundary s).2))) (true, s) value in
  (add8 typeNone s).2.

(** ** STIssue

    [memcpy] of a [std::uint32_t] copies its bytes in the order of the host,
    the least significant one first. *)

Definition fromHost (t : Blob) : Z :=
  at_ t 0 + Z.shiftl (at_ t 1) 8 + Z.shiftl (at_ t 2) 16 + Z.shiftl (at_ t 3) 24.

Definition toHost (z : Z) : Blob := [u8 z; u8 (Z.shiftr z 8); u8 (Z.shiftr z 16); u8 (Z.shiftr z 24)].

Definition getIssue : reader Asset :=
  getBitString 20 ≫= fun currencyOrAccount =>
  if isXRP currencyOrAccount then mret (AIssue xrpIssue)
  else
    getBitString 20 ≫= fun acc =>
    if bool_decide (noAccount = acc) then
      get32 ≫= fun sequence => mret (AMPT (toHost sequence ++ currencyOrAccount))
    else
      let issue := mkIssue currencyOrAccount acc in
      if negb (isConsistent issue) then throw "invalid issue: currency and account native mismatch"
      else mret (AIssue issue).

Definition addIssue (a : Asset) (s : Blob) : Blob :=
  match a with
  | AIssue issue =>
      let s := (addBitString (currency issue) s).2 in
      if negb (isXRP (currency issue)) then (addBitString (account issue) s).2 else s
  | AMPT mptID =>
      let s := (addBitString (drop 4 mptID) s).2 in
      let s := (addBitString noAccount s).2 in
      (add32 (fromHost (take 4 mptID)) s).2
  end.

Definition issue_isDefault (a : Asset) : bool :=
  match a with AIssue i => issue_eqb i xrpIssue | AMPT _ => false end.

(** ** STXChainBridge *)

Record STXChainBridge := mkBridge {
  lockingChainDoor_ : STAccount;
  lockingChainIssue_ : Asset;
  issuingChainDoor_ : STAccount;
  issuingChainIssue_ : Asset;
}.

#[export] Instance STXChainBridge_eq_dec : EqDecision STXChainBridge.
Proof. solve_decision. Defined.

Definition getBridge : reader STXChainBridge :=
  getAccount ≫= fun ld => getIssue ≫= fun li => getAccount ≫= fun id => getIssue ≫= fun ii =>
  mret (mkBridge ld li id ii).

Definition addBridge (b : STXChainBridge) (s : Blob) : outcome Blob :=
  addAccount (lockingChainDoor_ b) s ≫= fun s =>
  addAccount (issuingChainDoor_ b) (addIssue (lockingChainIssue_ b) s) ≫= fun s =>
  Ret (addIssue (issuingChainIssue_ b) s).

Definition bridge_isDefault (b : STXChainBridge) : bool :=
  default_ (lockingChainDoor_ b) && issue_isDefault (lockingChainIssue_ b) &&
  default_ (issuingChainDoor_ b) && issue_isDefault (issuingChainIssue_ b).

(** ** All values *)

Inductive STLeaf :=
| STUInt8 (v : Z) | STUInt16 (v : Z) | STUInt32 (v : Z) | STUInt64 (v : Z) | STInt32 (v : Z)
| STUInt128 (v : Blob) | STUInt160 (v : Blob) | STUInt192 (v : Blob) | STUInt256 (v : Blob)
| STAmount_ (a : STAmount) | STNumber (x : Number) | STBlob (b : Blob) | STAccount_ (a : STAccount)
| STVector256 (l : list Blob) | STPathSet (l : list (list STPathElement))
| STIssue (a : Asset) | STXChainBridge_ (b : STXChainBridge) | STCurrency (c : Blob).

#[export] Instance STLeaf_eq_dec : EqDecision STLeaf.
Proof. solve_decision. Defined.

Definition leafType (x : STLeaf) : SerializedTypeID :=
  match x with
  | STUInt8 _ => STI_UINT8 | STUInt16 _ => STI_UINT16 | STUInt32 _ => STI_UINT32 | STUInt64 _ => STI_UINT64
  | STInt32 _ => STI_INT32 | STUInt128 _ => STI_UINT128 | STUInt160 _ => STI_UINT160 | STUInt192 _ => STI_UINT192
  | STUInt256 _ => STI_UINT256 | STAmount_ _ => STI_AMOUNT | STNumber _ => STI_NUMBER | STBlob _ => STI_VL
  | STAccount_ _ => STI_ACCOUNT | STVector256 _ => STI_VECTOR256 | STPathSet _ => STI_PATHSET | STIssue _ => STI_ISSUE
  | STXChainBridge_ _ => STI_XCHAIN_BRIDGE | STCurrency _ => STI_CURRENCY
  end.

Definition leaf_isDefault (x : STLeaf) : bool :=
  match x with
  | STUInt8 v | STUInt16 v | STUInt32 v | STUInt64 v | STInt32 v => v =? 0
  | STUInt128 v | STUInt160 v | STUInt192 v | STUInt256 v => isXRP v
  | STAmount_ a => amount_isDefault a
  | STNumber x => num_eqb x zero
  | STBlob b => match b with [] => true | _ => false end
  | STAccount_ a => default_ a
  | STVector256 l => match l with [] => true | _ => false end
  | STPathSet l => match l with [] => true | _ => false end
  | STIssue a => issue_isDefault a
  | STXChainBridge_ b => bridge_isDefault b
  | STCurrency c => isXRP c
  end.

Definition addLeaf (x : STLeaf) (s : Blob) : outcome Blob :=
  match x with
  | STUInt8 v => Ret (add8 v s).2
  | STUInt16 v => Ret (add16 v s).2
  | STUInt32 v | STInt32 v => Ret (add32 v s).2
  | STUInt64 v => Ret (add64 v s).2
  | STUInt128 v | STUInt160 v | STUInt192 v | STUInt256 v | STCurrency v => Ret (addBitString v s).2
  | STAmount_ a => Ret (addAmount a s)
  | STNumber x => Ret (add32 (exponent x) (add64 (mantissa x) s).2).2
  | STBlob b => addVL b s ≫= fun r => Ret r.2
  | STAccount_ a => addAccount a s
  | STVector256 l => addVector256 l s
  | STPathSet l => Ret (addPathSet l s)
  | STIssue a => Ret (addIssue a s)
  | STXChainBridge_ b => addBridge b s
  end.

Section Settings.
Context (cfg : settings) (load_big_s32 load_big_s64 : Blob -> Z).

Definition getNumber : reader Number :=
  geti64 load_big_s64 ≫= fun m =>
  geti32 load_big_s32 ≫= fun e =>
  lift (fromRep (roundMode cfg) (mantissaScale cfg) m e).

(** The [case]s of [STVar::constructST] for these values. *)
Definition readLeaf (id : SerializedTypeID) : reader STLeaf :=
  match id with
  | STI_UINT8 => get8 ≫= fun v => mret (STUInt8 v)
  | STI_UINT16 => get16 ≫= fun v => mret (STUInt16 v)
  | STI_UINT32 => get32 ≫= fun v => mret (STUInt32 v)
  | STI_UINT64 => get64 ≫= fun v => mret (STUInt64 v)
  | STI_INT32 => get32 ≫= fun v => mret (STInt32 (if 2 ^ 31 <=? v then v - 2 ^ 32 else v))
  | STI_UINT128 => getBitString 16 ≫= fun v => mret (STUInt128 v)
  | STI_UINT160 => getBitString 20 ≫= fun v => mret (STUInt160 v)
  | STI_UINT192 => getBitString 24 ≫= fun v => mret (STUInt192 v)
  | STI_UINT256 => getBitString 32 ≫= fun v => mret (STUInt256 v)
  | STI_AMOUNT => getAmount cfg ≫= fun v => mret (STAmount_ v)
  | STI_NUMBER => getNumber ≫= fun v => mret (STNumber v)
  | STI_VL => getVL ≫= fun v => mret (STBlob v)
  | STI_ACCOUNT => getAccount ≫= fun v => mret (STAccount_ v)
  | STI_VECTOR256 => getVector256 ≫= fun v => mret (STVector256 v)
  | STI_PATHSET => getPathSet ≫= fun v => mret (STPathSet v)
  | STI_ISSUE => getIssue ≫= fun v => mret (STIssue v)
  | STI_XCHAIN_BRIDGE => getBridge ≫= fun v => mret (STXChainBridge_ v)
  | STI_CURRENCY => getBitString 20 ≫= fun v => mret (STCurrency v)
  | _ => throw "Unknown object type"
  end.

End Settings.
