(* ===== verification/STLeafFacts.v ===== *)
(** * Serialized values are read back

    Which values [add] and the constructors from a [SerialIter] keep, and that
    they do. *)

From Stdlib Require Import QArith Qpower Lqa.
From stdpp Require Import strings.
From S2P Require Import Prelude Outcome Serializer SerializerFacts SFields Number NumberFacts NumberAdd Amount AmountFacts STLeaf.
Local Open Scope Z_scope.

Lemma reads_map {A B} (m : reader A) (f : A -> B) bs a : reads m bs a -> reads (m ≫= fun v => mret (f v)) bs (f a).
Proof. intros Hm. rewrite <- (app_nil_r bs). eapply reads_bind; [done|apply reads_ret]. Qed.

Lemma bytesOf_length n v : bytesOf n v -> length v = n.
Proof. by intros []. Qed.

#[export] Hint Resolve bytesOf_length : core.

(** ** Accounts *)

Definition account_ok (a : STAccount) : Prop :=
  if default_ a then accountValue a = replicate 20 0 else bytesOf 20 (accountValue a).

Lemma account_roundtrips : roundtrips account_ok addAccount getAccount.
Proof.
  intros [v d] Ha. unfold account_ok in Ha. cbn in Ha. set (w := if d then [] else v).
  destruct (codec_writes codecVL w) as (bs & Hb & Hw & Hr).
  { subst w. destruct d; [done|]. destruct Ha as [Hl ?]. split; [unfold lengthZ, maxEncoded; lia|done]. }
  exists bs. split_and!; [done|intros s; unfold addAccount; cbn [default_ accountValue]; fold w; change addVL with (encode codecVL); by rewrite Hw|].
  rewrite <- (app_nil_r bs). eapply reads_bind; [exact Hr|]. subst w. destruct d; [subst v; apply reads_ret|].
  destruct Ha as [Hl _]. unfold lengthZ. rewrite Hl. destruct v; [done|apply reads_ret].
Qed.

(** ** Vectors *)

Definition vector_ok (l : list Blob) : Prop := Forall (bytesOf 32) l /\ 32 * Z.of_nat (length l) <= maxEncoded.

Lemma length_concat (l : list Blob) n : Forall (bytesOf n) l -> length (concat l) = (n * length l)%nat.
Proof. induction 1 as [|v l [Hv _] _ IH]; cbn; [lia|]. rewrite length_app, Hv, IH. lia. Qed.

Lemma bytes_concat (l : list Blob) n : Forall (bytesOf n) l -> Forall is_byte (concat l).
Proof. induction 1 as [|v l [_ Hv] _ IH]; cbn; [done|by apply Forall_app]. Qed.

Lemma chunks_concat l : Forall (bytesOf 32) l -> chunks (length l) (concat l) = l.
Proof.
  intros Hl. unfold chunks. assert (forall pre, concat (pre ++ l) = concat pre ++ concat l) as Hc by (intros; apply concat_app).
  assert (forall (pre : list Blob), Forall (bytesOf 32) pre ->
            map (fun i => take 32 (drop (i * 32) (concat (pre ++ l)))) (seq (length pre) (length l)) = l) as H;
    [|apply (H []); constructor].
  clear Hc. induction Hl as [|v l [Hv Hb] Hl IH]; intros pre Hpre; [done|]. cbn [length seq map]. f_equal.
  - rewrite concat_app. rewrite drop_app_length'; [|rewrite (length_concat _ 32) by done; lia].
    cbn [concat]. by rewrite take_app_length'.
  - specialize (IH (pre ++ [v])). rewrite <- app_assoc, length_app, Nat.add_1_r in IH. apply IH.
    apply Forall_app. split; [done|]. by repeat constructor.
Qed.

Lemma vector_roundtrips : roundtrips vector_ok addVector256 getVector256.
Proof.
  intros l [Hl Hmax]. pose proof (length_concat l 32 Hl) as Hlen. pose proof (bytes_concat l 32 Hl) as Hb.
  assert (lengthZ (concat l) = 32 * Z.of_nat (length l)) as HL by (unfold lengthZ; rewrite Hlen; lia). unfold maxEncoded in Hmax.
  exists (lengthCode (lengthZ (concat l)) ++ concat l). split_and!.
  - apply Forall_app. split; [apply lengthCode_bytes; unfold maxDecoded; lia|done].
  - intros s. unfold addVector256, addVL. rewrite addEncoded_code by (unfold maxEncoded; lia). cbn. by rewrite app_assoc.
  - eapply reads_bind; [apply reads_getVLDataLength; unfold maxDecoded; lia|]. rewrite <- (app_nil_r (concat l)) at 2.
    eapply reads_bind; [by apply reads_advance|]. rewrite HL, Z.mul_comm, Z_mod_mult, Z.div_mul by lia. cbn [Z.eqb negb].
    rewrite Nat2Z.id, chunks_concat by done. apply reads_ret.
Qed.

(** ** Path sets *)

(** The elements that a path set can hold: the fields that the type does not
    name are zero, and it names something. *)
Definition element_ok (e : STPathElement) : Prop :=
  bytesOf 20 (mAccountID e) /\ bytesOf 20 (mCurrencyID e) /\ bytesOf 20 (mIssuerID e) /\
  e = pathElement (mAccountID e) (mCurrencyID e) (mIssuerID e) (has (mType e) typeCurrency) /\ mType e <> 0.

Definition paths_ok (l : list (list STPathElement)) : Prop :=
  l <> [] /\ Forall (fun p => p <> [] /\ Forall element_ok p) l.

Definition flagged (b : bool) (v : Blob) : Blob := if b then v else [].

Definition elementBytes (e : STPathElement) : Blob :=
  mType e :: flagged (has (mType e) typeAccount) (mAccountID e) ++
  flagged (has (mType e) typeCurrency) (mCurrencyID e) ++ flagged (has (mType e) typeIssuer) (mIssuerID e).

Lemma addPathElement_bytes e s : is_byte (mType e) -> addPathElement e s = s ++ elementBytes e.
Proof.
  intros Ht. unfold addPathElement, elementBytes, flagged, addBitString, addRaw, add8, addRaw. rewrite u8_id by done. cbn [snd].
  destruct (has _ typeAccount), (has _ typeCurrency), (has _ typeIssuer); cbn [app]; rewrite ?app_nil_r; by rewrite <- ?app_assoc.
Qed.

(** The flags of the type that the constructor makes. *)
Lemma pathElement_flags a c i f :
  let e := pathElement a c i f in
  is_byte (mType e) /\ mType e <> typeBoundary /\ Z.land (mType e) (Z.lnot typeAll) = 0 /\
  has (mType e) typeAccount = negb (isXRP a) /\ has (mType e) typeCurrency = f || negb (isXRP c) /\
  has (mType e) typeIssuer = negb (isXRP i).
Proof. unfold pathElement, is_byte. cbn. destruct (isXRP a), (isXRP c), (isXRP i), f; cbn; split_and!; done. Qed.

Lemma reads_160If b v : bytesOf 20 v -> (b = false -> isXRP v = true) -> reads (get160If b) (flagged b v) v.
Proof.
  intros [Hl _] Hb. destruct b; cbn; [by apply (reads_bits 20)|]. rewrite (isXRP_zero v), Hl by auto. apply reads_ret.
Qed.

Lemma element_facts e : element_ok e ->
  is_byte (mType e) /\ mType e <> typeNone /\ mType e <> typeBoundary /\ Z.land (mType e) (Z.lnot typeAll) = 0 /\
  (has (mType e) typeAccount = false -> isXRP (mAccountID e) = true) /\
  (has (mType e) typeCurrency = false -> isXRP (mCurrencyID e) = true) /\
  (has (mType e) typeIssuer = false -> isXRP (mIssuerID e) = true).
Proof.
  intros (_ & _ & _ & He & Hne). set (f := has (mType e) typeCurrency) in *.
  pose proof (pathElement_flags (mAccountID e) (mCurrencyID e) (mIssuerID e) f) as H. cbn zeta in H. rewrite <- He in H.
  destruct H as (H1 & H2 & H3 & H4 & H5 & H6). split_and!; [done..| | |].
  - rewrite H4. apply negb_false_iff.
  - subst f. intros E. rewrite E in H5. cbn in H5. symmetry in H5. by apply negb_false_iff in H5.
  - rewrite H6. apply negb_false_iff.
Qed.

(** [pathLoop] reads [bs] and answers [res], given [f0] turns. *)
Definition loopReads (f0 : nat) (path : list STPathElement) value bs res : Prop :=
  forall fuel, (f0 <= fuel)%nat -> reads (pathLoop fuel path value) bs res.

Lemma loop_element e path value f0 bs res :
  element_ok e -> loopReads f0 (path ++ [e]) value bs res -> loopReads (S f0) path value (elementBytes e ++ bs) res.
Proof.
  intros He Hbs fuel Hf. destruct fuel as [|fuel]; [lia|]. destruct (element_facts e He) as (Hb & H0 & H255 & Hall & Ha & Hc & Hi).
  destruct He as (Ba & Bc & Bi & Ee & _). cbn [pathLoop]. unfold elementBytes. rewrite <- app_comm_cons, <- !app_assoc.
  eapply (reads_bind get8 _ [mType e]); [by apply reads_get8|].
  rewrite (proj2 (Z.eqb_neq _ typeNone)), (proj2 (Z.eqb_neq _ typeBoundary)), Hall by done. cbn [orb Z.eqb negb].
  eapply reads_bind; [by apply reads_160If|]. eapply reads_bind; [by apply reads_160If|]. eapply reads_bind; [by apply reads_160If|].
  rewrite <- Ee. apply Hbs. lia.
Qed.

Lemma loop_path p path value f0 bs res :
  Forall element_ok p -> loopReads f0 (path ++ p) value bs res ->
  loopReads (length p + f0) path value (concat (map elementBytes p) ++ bs) res.
Proof.
  intros Hp. revert path. induction Hp as [|e p He Hp IH]; intros path Hbs; [by rewrite app_nil_r in Hbs|].
  cbn [map concat length Nat.add]. rewrite <- app_assoc. apply loop_element; [done|]. apply IH. by rewrite <- app_assoc.
Qed.

Lemma loop_end path value : path <> [] -> loopReads 1 path value [typeNone] (value ++ [path]).
Proof.
  intros Hp fuel Hf. destruct fuel as [|fuel]; [lia|]. cbn [pathLoop]. rewrite <- (app_nil_r [typeNone]).
  eapply reads_bind; [by apply reads_get8|]. cbn. destruct path; [done|apply reads_ret].
Qed.

Lemma loop_boundary path value f0 bs res :
  path <> [] -> loopReads f0 [] (value ++ [path]) bs res -> loopReads (S f0) path value (typeBoundary :: bs) res.
Proof.
  intros Hp Hbs fuel Hf. destruct fuel as [|fuel]; [lia|]. cbn [pathLoop].
  eapply (reads_bind get8 _ [typeBoundary]); [by apply reads_get8|]. cbn. destruct path; [done|]. apply Hbs. lia.
Qed.

Definition pathBytes (p : list STPathElement) : Blob := concat (map elementBytes p).

Lemma length_pathBytes p : (length p <= length (pathBytes p))%nat.
Proof. unfold pathBytes. induction p as [|e p IHp]; cbn; [lia|]. rewrite !length_app. lia. Qed.

(** The paths after the first, each after a boundary, and the end. *)
Fixpoint restBytes (l : list (list STPathElement)) : Blob :=
  match l with [] => [typeNone] | p :: l => typeBoundary :: pathBytes p ++ restBytes l end.

Lemma loop_rest l path value :
  path <> [] -> Forall (fun p => p <> [] /\ Forall element_ok p) l ->
  exists f0, (f0 <= length (restBytes l))%nat /\ loopReads f0 path value (restBytes l) (value ++ path :: l).
Proof.
  intros Hp Hl. revert path value Hp. induction Hl as [|p l [Hne Hel] Hl IH]; intros path value Hp; cbn [restBytes].
  { exists 1%nat. split; [cbn; lia|by apply loop_end]. }
  destruct (IH p (value ++ [path]) Hne) as (f0 & Hf & Hr). exists (S (length p + f0)). split.
  - cbn [length]. rewrite length_app. pose proof (length_pathBytes p). lia.
  - apply loop_boundary; [done|]. apply loop_path; [done|]. cbn. by rewrite <- app_assoc in Hr.
Qed.

Lemma addPath_bytes p s : Forall element_ok p -> addPath p s = s ++ pathBytes p.
Proof.
  intros Hp. unfold addPath, pathBytes. revert s. induction Hp as [|e p He Hp IH]; intros s; cbn [foldl map concat]; [by rewrite app_nil_r|].
  rewrite addPathElement_bytes by apply element_facts, He. by rewrite IH, <- app_assoc.
Qed.

Lemma elementBytes_bytes e : element_ok e -> Forall is_byte (elementBytes e).
Proof.
  intros He. destruct (element_facts e He) as (Hb & _). destruct He as ([_ Ba] & [_ Bc] & [_ Bi] & _).
  unfold elementBytes, flagged. constructor; [done|]. rewrite !Forall_app. split_and!; by case_match.
Qed.

Lemma pathBytes_bytes p : Forall element_ok p -> Forall is_byte (pathBytes p).
Proof. unfold pathBytes. induction 1; cbn [map concat]; [done|]. apply Forall_app. auto using elementBytes_bytes. Qed.

Lemma paths_roundtrip : roundtrips paths_ok (fun l s => Ret (addPathSet l s)) getPathSet.
Proof.
  intros [|p l] [Hne Hl]; [done|]. apply Forall_cons in Hl as [[Hp Hel] Hl]. exists (pathBytes p ++ restBytes l). split_and!.
  - apply Forall_app. split; [by apply pathBytes_bytes|]. clear -Hl. induction Hl as [|q l [_ Hq] _ IH]; cbn; [by repeat constructor|].
    constructor; [done|]. apply Forall_app. split; [by apply pathBytes_bytes|done].
  - intros s. f_equal. unfold addPathSet. cbn [foldl]. rewrite addPath_bytes, app_assoc by done.
    generalize (s ++ pathBytes p). clear -Hl. induction Hl as [|q l [_ Hq] _ IH]; intros s; cbn [foldl restBytes]; [done|].
    rewrite addPath_bytes by done. rewrite IH. unfold add8, addRaw. cbn [snd]. rewrite u8_id by done. by rewrite <- !app_assoc.
  - destruct (loop_rest l p [] Hp Hl) as (f0 & Hf & Hr). apply (loop_path p [] [] f0) in Hr; [|done].
    intros b r. unfold getPathSet. cbn [ahead]. apply Hr. rewrite !length_app.
    pose proof (length_pathBytes p). lia.
Qed.

(** ** Issues and bridges *)

(** The assets that a serialized issue can hold: an issuer of a currency is not
    the account that marks an MPT, and an MPT has an issuer. *)
Definition issue_ok (a : Asset) : Prop :=
  match a with
  | AIssue i => asset_ok a /\ account i <> noAccount
  | AMPT id => bytesOf 24 id /\ isXRP (drop 4 id) = false
  end.

Lemma host_roundtrip t : bytesOf 4 t -> toHost (fromHost t) = t /\ 0 <= fromHost t < 2 ^ 32.
Proof.
  intros [Hl Hb]. destruct t as [|a [|b [|c [|d [|]]]]]; try discriminate Hl. decompose_Forall_hyps. unfold is_byte in *.
  unfold fromHost, toHost, at_. cbn [lookup list_lookup default from_option]. rewrite !Z.shiftl_mul_pow2 by lia.
  assert (0 <= a + b * 2 ^ 8 + c * 2 ^ 16 + d * 2 ^ 24 < 2 ^ 32) by lia. split; [|done].
  rewrite !Z.shiftr_div_pow2 by lia. unfold u8. change (2 ^ 8) with 256. change (2 ^ 16) with 65536. change (2 ^ 24) with 16777216.
  unfold id. f_equal; [|f_equal; [|f_equal; [|f_equal]]]; Z.to_euclidean_division_equations; lia.
Qed.

Lemma issue_roundtrips : roundtrips issue_ok (fun a s => Ret (addIssue a s)) getIssue.
Proof.
  intros [i|id] Ha.
  - destruct Ha as [[->|([Lc Bc] & [La Ba] & Xc & Xa)] Hno].
    + exists (replicate 20 0). split_and!; [by apply Forall_replicate|done|]. rewrite <- (app_nil_r (replicate 20 0)).
      eapply reads_bind; [by apply (reads_bits 20)|]. apply reads_ret.
    + exists (currency i ++ account i). split_and!; [by apply Forall_app| |].
      * intros s. unfold addIssue, addBitString, addRaw. cbn [snd]. rewrite Xc. cbn [negb]. by rewrite app_assoc.
      * eapply reads_bind; [by apply (reads_bits 20)|]. rewrite Xc. rewrite <- (app_nil_r (account i)).
        eapply reads_bind; [by apply (reads_bits 20)|]. rewrite bool_decide_false by done.
        unfold isConsistent. cbn [currency account]. rewrite Xc, Xa. destruct i. apply reads_ret.
  - destruct Ha as [[Hl Hb] Hx]. assert (bytesOf 4 (take 4 id)) as Ht by (split; [rewrite length_take; lia|by apply Forall_take]).
    destruct (host_roundtrip _ Ht) as [Hh Hr]. assert (length (drop 4 id) = 20%nat) by (rewrite length_drop; lia).
    exists (drop 4 id ++ noAccount ++ bigEndian 4 (fromHost (take 4 id))). split_and!.
    + rewrite !Forall_app. split_and!; [by apply Forall_drop|by repeat constructor|apply bytes_bigEndian].
    + intros s. unfold addIssue. rewrite add32_bigEndian. unfold addBitString, addRaw. cbn [snd]. by rewrite <- !app_assoc.
    + eapply reads_bind; [by apply (reads_bits 20)|]. rewrite Hx. eapply reads_bind; [by apply (reads_bits 20)|].
      rewrite bool_decide_true by done. rewrite <- (app_nil_r (bigEndian 4 _)).
      eapply reads_bind; [apply (reads_number _ 4 _ _ number32), Hr|]. rewrite Hh, take_drop. apply reads_ret.
Qed.

Definition bridge_ok (b : STXChainBridge) : Prop :=
  account_ok (lockingChainDoor_ b) /\ issue_ok (lockingChainIssue_ b) /\
  account_ok (issuingChainDoor_ b) /\ issue_ok (issuingChainIssue_ b).

Lemma bridge_roundtrips : roundtrips bridge_ok addBridge getBridge.
Proof.
  intros [ld li id ii] (H1 & H2 & H3 & H4). cbn in *.
  destruct (account_roundtrips _ H1) as (b1 & B1 & W1 & R1). destruct (issue_roundtrips _ H2) as (b2 & B2 & W2 & R2).
  destruct (account_roundtrips _ H3) as (b3 & B3 & W3 & R3). destruct (issue_roundtrips _ H4) as (b4 & B4 & W4 & R4).
  exists (b1 ++ b2 ++ b3 ++ b4). split_and!; [by rewrite !Forall_app| |].
  - intros s. unfold addBridge. cbn [lockingChainDoor_ lockingChainIssue_ issuingChainDoor_ issuingChainIssue_].
    rewrite W1, Ret_bind. specialize (W2 (s ++ b1)). injection W2 as ->. rewrite W3, Ret_bind.
    specialize (W4 (((s ++ b1) ++ b2) ++ b3)). injection W4 as ->. by rewrite <- !app_assoc.
  - eapply reads_bind; [done|]. eapply reads_bind; [done|]. eapply reads_bind; [done|]. rewrite <- (app_nil_r b4).
    eapply reads_bind; [done|apply reads_ret].
Qed.

(** ** Numbers *)

Lemma scaleUp_once fuel mn m e :
  m < mn <= m * 10 -> minExponent < e -> scaleUp (S fuel) mn m e = (m * 10, e - 1).
Proof.
  intros Hm He. cbn [scaleUp]. rewrite (proj2 (Z.ltb_lt m mn)), (proj2 (Z.ltb_lt minExponent e)) by lia. cbn [andb].
  apply scaleUp_stop. lia.
Qed.

(** A number is read back from its external mantissa and exponent. *)
Lemma fromRep_external mode scale x :
  isnormal scale x = true -> external_ok x -> fromRep mode scale (mantissa x) (exponent x) = Ret x.
Proof.
  intros Hx Hext. destruct (decide (x = zero)) as [->|Hx0]; [by destruct scale|].
  pose proof (normal_mantissa _ _ Hx Hx0) as B. pose proof (minM_pos scale). pose proof (minM_le scale). pose proof (maxM_minM scale).
  assert (normalize mode scale x = Ret x) as Hnorm.
  { destruct (normalize_normal mode scale x Hx) as [|(G1 & G2 & _)]; [done|]. destruct Hext; lia. }
  pose proof (magnitude_bounds _ _ Hx Hx0) as M. unfold fromRep, mantissa. fold (magnitude x).
  assert ((if negative_ x then -1 else 1) * magnitude x = signed (negative_ x) (magnitude x)) as -> by (unfold signed; destruct (negative_ x); lia).
  unfold maxRep in M. destruct (externalToInternal_range (signed (negative_ x) (magnitude x))) as [_ ->]; [unfold signed; destruct (negative_ x); lia|].
  rewrite abs_signed by lia. replace (signed (negative_ x) (magnitude x) <? 0) with (negative_ x) by (unfold signed; destruct (negative_ x); lia).
  rewrite <- Hnorm. unfold magnitude, exponent in *. destruct (Z.ltb_spec maxRep (mantissa_ x)) as [Hlt|Hle]; [|by destruct x].
  apply isnormal_cases in Hx as [->|(_ & [?|Hmod] & He)]; [contradiction|lia|]. unfold normalize, doNormalize. cbn [negative_ mantissa_ exponent_].
  rewrite !(proj2 (Z.eqb_neq _ 0)) by lia. assert (mantissa_ x / 10 * 10 = mantissa_ x) as E by (pose proof (Z.div_mod (mantissa_ x) 10); lia).
  assert (scaleUp digitFuel (minM scale) (mantissa_ x / 10) (exponent_ x + 1) = (mantissa_ x, exponent_ x)) as ->.
  { destruct Hext as [?|Hext]; [lia|]. change digitFuel with (S 39). rewrite scaleUp_once by lia. f_equal; lia. }
  by rewrite scaleUp_stop by lia.
Qed.

(** ** All values *)

(** What the loaders of boost promise: two's complement, most significant byte first. *)
Definition loads (n : nat) (load : Blob -> Z) : Prop :=
  forall z, - 2 ^ (8 * Z.of_nat n - 1) <= z < 2 ^ (8 * Z.of_nat n - 1) -> load (bigEndian n z) = z.

Definition number_ok (cfg : settings) (x : Number) : Prop :=
  isnormal (mantissaScale cfg) x = true /\ external_ok x.

Section Settings.
Context (cfg : settings) (load_big_s32 load_big_s64 : Blob -> Z).
Context (load32 : loads 4 load_big_s32) (load64 : loads 8 load_big_s64).

Lemma number_range x :
  number_ok cfg x -> - 2 ^ 63 <= mantissa x < 2 ^ 63 /\ - 2 ^ 31 <= exponent x < 2 ^ 31.
Proof.
  intros [Hx _]. destruct (decide (x = zero)) as [->|Hx0]; [vm_compute; split; split; (discriminate || reflexivity)|].
  pose proof (magnitude_bounds _ _ Hx Hx0) as M. unfold mantissa, exponent. fold (magnitude x). unfold maxRep in *.
  apply isnormal_cases in Hx as [->|(_ & _ & He)]; [contradiction|]. unfold minExponent, maxExponent in *.
  split; [destruct (negative_ x); lia|]. case_match; lia.
Qed.

Lemma number_roundtrips :
  roundtrips (number_ok cfg) (fun x s => Ret (add32 (exponent x) (add64 (mantissa x) s).2).2) (getNumber cfg load_big_s32 load_big_s64).
Proof using load32 load64.
  intros x Hx. destruct (number_range x Hx) as [Hm He]. exists (bigEndian 8 (mantissa x) ++ bigEndian 4 (exponent x)). split_and!.
  - apply Forall_app. split; apply bytes_bigEndian.
  - intros s. rewrite add32_bigEndian, add64_bigEndian. unfold addRaw. cbn [snd]. by rewrite app_assoc.
  - eapply reads_bind; [apply reads_advance_ret; [unfold lengthZ; by rewrite length_bigEndian|by apply load64]|].
    rewrite <- (app_nil_r (bigEndian 4 _)).
    eapply reads_bind; [apply reads_advance_ret; [unfold lengthZ; by rewrite length_bigEndian|by apply load32]|].
    apply reads_lift. destruct Hx. by apply fromRep_external.
Qed.

(** The values that serialization keeps. *)
Definition leaf_ok (x : STLeaf) : Prop :=
  match x with
  | STUInt8 v => 0 <= v < 2 ^ 8
  | STUInt16 v => 0 <= v < 2 ^ 16
  | STUInt32 v => 0 <= v < 2 ^ 32
  | STUInt64 v => 0 <= v < 2 ^ 64
  | STInt32 v => - 2 ^ 31 <= v < 2 ^ 31
  | STUInt128 v => bytesOf 16 v
  | STUInt160 v => bytesOf 20 v
  | STUInt192 v => bytesOf 24 v
  | STUInt256 v => bytesOf 32 v
  | STAmount_ a => amount_ok a
  | STNumber x => number_ok cfg x
  | STBlob b => lengthZ b <= 918744 /\ Forall is_byte b
  | STAccount_ a => account_ok a
  | STVector256 l => vector_ok l
  | STPathSet l => paths_ok l
  | STIssue a => issue_ok a
  | STXChainBridge_ b => bridge_ok b
  | STCurrency c => bytesOf 20 c
  end.

(** A constructor of a value with a reader of its contents. *)
Lemma leaf_of {A} (ok : A -> Prop) enc dec (f : A -> STLeaf) (m : reader STLeaf) a :
  roundtrips ok enc dec -> ok a -> m = (dec ≫= fun v => mret (f v)) ->
  exists bs, Forall is_byte bs /\ (forall s, enc a s = Ret (s ++ bs)) /\ reads m bs (f a).
Proof. intros Hr Ha ->. destruct (Hr a Ha) as (bs & Hb & Hw & Hd). exists bs. split_and!; [done..|by apply reads_map]. Qed.

Lemma int32_roundtrip v :
  - 2 ^ 31 <= v < 2 ^ 31 ->
  exists bs, Forall is_byte bs /\ (forall s, Ret (add32 v s).2 = Ret (s ++ bs)) /\
    reads (readLeaf cfg load_big_s32 load_big_s64 STI_INT32) bs (STInt32 v).
Proof.
  intros Hv. exists (bigEndian 4 v). split_and!; [apply bytes_bigEndian|intros s; by rewrite add32_bigEndian|].
  set (w := v mod 2 ^ 32). assert (bigEndian 4 v = bigEndian 4 w) as ->.
  { apply bytes_unique; [apply bytes_bigEndian..|by rewrite !length_bigEndian|]. rewrite !fromBytes_bigEndian.
    change (256 ^ Z.of_nat 4) with (2 ^ 32). subst w. by rewrite Z.mod_mod by lia. }
  assert (0 <= w < 2 ^ 32) as Hw by (apply Z.mod_pos_bound; lia). rewrite <- (app_nil_r (bigEndian 4 w)).
  eapply reads_bind; [apply (reads_number _ 4 _ _ number32), Hw|].
  assert ((if 2 ^ 31 <=? w then w - 2 ^ 32 else w) = v) as ->; [|apply reads_ret].
  subst w. destruct (Z.lt_ge_cases v 0).
  - assert (v mod 2 ^ 32 = v + 2 ^ 32) as -> by (rewrite <- (Z_mod_plus_full v 1 (2 ^ 32)), Z.mod_small; lia).
    rewrite (proj2 (Z.leb_le _ _)) by lia. lia.
  - rewrite Z.mod_small by lia. by rewrite (proj2 (Z.leb_gt _ _)) by lia.
Qed.

Lemma amount_roundtrips : roundtrips amount_ok (fun a s => Ret (addAmount a s)) (getAmount cfg).
Proof.
  intros a Ha. destruct (amount_reads cfg a Ha) as (bs & Hb & Hw & Hr). exists bs. split_and!; [done| |done].
  intros s. by rewrite Hw.
Qed.

Ltac try_ rt := by eapply (leaf_of _ _ _ _ _ _ rt).

Ltac leaf_by :=
  first [by apply int32_roundtrip | try_ number_roundtrips | try_ amount_roundtrips | try_ account_roundtrips
        | try_ vector_roundtrips | try_ paths_roundtrip | try_ issue_roundtrips | try_ bridge_roundtrips
        | try_ (codec_roundtrips codec8) | try_ (codec_roundtrips codec16) | try_ (codec_roundtrips codec32)
        | try_ (codec_roundtrips codec64) | try_ (codec_roundtrips codecVL) | try_ (codec_roundtrips (codecBits 16))
        | try_ (codec_roundtrips (codecBits 20)) | try_ (codec_roundtrips (codecBits 24)) | try_ (codec_roundtrips (codecBits 32))].

Lemma leaf_roundtrip x :
  leaf_ok x ->
  exists bs, Forall is_byte bs /\ (forall s, addLeaf x s = Ret (s ++ bs)) /\
    reads (readLeaf cfg load_big_s32 load_big_s64 (leafType x)) bs x.
Proof using load32 load64.
  destruct x; cbn [leaf_ok addLeaf leafType]; intros Hx; leaf_by.
Qed.

End Settings.
