(* ===== verification/STObject.v ===== *)
(** * STObject, STArray and their templates

    Models [src/libxrpl/protocol/STVar.cpp], [STObject.cpp], [STArray.cpp],
    [SOTemplate.cpp] and [InnerObjectFormats.cpp]: objects as lists of named
    values, the templates that say which fields an object has, and how objects
    are written and read.  An object is its [mType] and its [v_]; an entry of
    [v_] is the name of a value and the value.  Pointers to templates are the
    templates. *)

From stdpp Require Import strings sorting.
From S2P Require Import Prelude Outcome Serializer Number Amount SFields STLeaf.

(** ** Templates *)

Inductive SOEStyle := soeINVALID | soeREQUIRED | soeOPTIONAL | soeDEFAULT.

#[export] Instance SOEStyle_eq_dec : EqDecision SOEStyle.
Proof. solve_decision. Defined.

Record SOElement := mkSOElement { sField : SField; style : SOEStyle }.

Abbreviation SOTemplate := (list SOElement).

(** [getIndex]: the position of a field, if it has one. *)
Fixpoint getIndex (sField_ : SField) (t : SOTemplate) : option nat :=
  match t with
  | [] => None
  | e :: t => if sf_eqb (sField e) sField_ then Some O else option_map S (getIndex sField_ t)
  end.

(** The constructor refuses a field that is not useful and a second element of a field. *)
Fixpoint checkElements (seen todo : SOTemplate) : outcome SOTemplate :=
  match todo with
  | [] => Ret seen
  | e :: todo =>
      match getIndex (sField e) seen with
      | Some _ => Throw "Duplicate field index for SOTemplate."
      | None => checkElements (seen ++ [e]) todo
      end
  end.

Definition newTemplate (uniqueFields commonFields : SOTemplate) : outcome SOTemplate :=
  let elements := uniqueFields ++ commonFields in
  if forallb (fun e => isUseful (sField e)) elements then checkElements [] elements
  else Throw "SField in SOElement must be useful.".

(** The table of [InnerObjectFormats], by the names of the fields. *)
Definition innerFormats : list (string * list (string * SOEStyle)) :=
  [ ("SignerEntry", [("Account", soeREQUIRED); ("SignerWeight", soeREQUIRED); ("WalletLocator",
     soeOPTIONAL)])
  ; ("Signer", [("Account", soeREQUIRED); ("SigningPubKey", soeREQUIRED); ("TxnSignature", soeREQUIRED)])
  ; ("Majority", [("Amendment", soeREQUIRED); ("CloseTime", soeREQUIRED)])
  ; ("DisabledValidator", [("PublicKey", soeREQUIRED); ("FirstLedgerSequence", soeREQUIRED)])
  ; ("NFToken", [("NFTokenID", soeREQUIRED); ("URI", soeOPTIONAL)])
  ; ("VoteEntry", [("Account", soeREQUIRED); ("TradingFee", soeDEFAULT); ("VoteWeight", soeREQUIRED)])
  ; ("AuctionSlot", [("Account", soeREQUIRED); ("Expiration", soeREQUIRED); ("DiscountedFee", soeDEFAULT);
     ("Price", soeREQUIRED); ("AuthAccounts", soeOPTIONAL)])
  ; ("XChainClaimAttestationCollectionElement", [("AttestationSignerAccount", soeREQUIRED); ("PublicKey",
     soeREQUIRED); ("Signature", soeREQUIRED); ("Amount", soeREQUIRED); ("Account", soeREQUIRED);
     ("AttestationRewardAccount", soeREQUIRED); ("WasLockingChainSend", soeREQUIRED); ("XChainClaimID",
     soeREQUIRED); ("Destination", soeOPTIONAL)])
  ; ("XChainCreateAccountAttestationCollectionElement", [("AttestationSignerAccount", soeREQUIRED);
     ("PublicKey", soeREQUIRED); ("Signature", soeREQUIRED); ("Amount", soeREQUIRED); ("Account",
     soeREQUIRED); ("AttestationRewardAccount", soeREQUIRED); ("WasLockingChainSend", soeREQUIRED);
     ("XChainAccountCreateCount", soeREQUIRED); ("Destination", soeREQUIRED); ("SignatureReward",
     soeREQUIRED)])
  ; ("XChainClaimProofSig", [("AttestationSignerAccount", soeREQUIRED); ("PublicKey", soeREQUIRED);
     ("Amount", soeREQUIRED); ("AttestationRewardAccount", soeREQUIRED); ("WasLockingChainSend", soeREQUIRED);
     ("Destination", soeOPTIONAL)])
  ; ("XChainCreateAccountProofSig", [("AttestationSignerAccount", soeREQUIRED); ("PublicKey", soeREQUIRED);
     ("Amount", soeREQUIRED); ("SignatureReward", soeREQUIRED); ("AttestationRewardAccount", soeREQUIRED);
     ("WasLockingChainSend", soeREQUIRED); ("Destination", soeREQUIRED)])
  ; ("AuthAccount", [("Account", soeREQUIRED)])
  ; ("PriceData", [("BaseAsset", soeREQUIRED); ("QuoteAsset", soeREQUIRED); ("AssetPrice", soeOPTIONAL);
     ("Scale", soeDEFAULT)])
  ; ("Credential", [("Issuer", soeREQUIRED); ("CredentialType", soeREQUIRED)])
  ; ("Permission", [("PermissionValue", soeREQUIRED)])
  ; ("BatchSigner", [("Account", soeREQUIRED); ("SigningPubKey", soeOPTIONAL); ("TxnSignature", soeOPTIONAL);
     ("Signers", soeOPTIONAL)])
  ; ("Book", [("BookDirectory", soeREQUIRED); ("BookNode", soeREQUIRED)])
  ; ("CounterpartySignature", [("SigningPubKey", soeOPTIONAL); ("TxnSignature", soeOPTIONAL); ("Signers",
     soeOPTIONAL)]) ].

Definition element (e : string * SOEStyle) : SOElement := mkSOElement (getFieldByName e.1) e.2.

(** The formats with the codes they are found by. *)
Definition knownInnerFormats : list (Z * SOTemplate) :=
  map (fun '(name, es) => (SFields.fieldCode (getFieldByName name), map element es)) innerFormats.

Definition findSOTemplateBySField (sField_ : SField) : option SOTemplate :=
  option_map snd (List.find (fun '(code, _) => code =? SFields.fieldCode sField_) knownInnerFormats).

(** ** Values *)

Inductive STValue :=
| NotPresent
| Leaf (x : STLeaf)
| STObj (o : option SOTemplate * list (SField * STValue))
| STArr (l : list (SField * (option SOTemplate * list (SField * STValue)))).

Abbreviation Fields := (list (SField * STValue)).
Abbreviation Object := (option SOTemplate * Fields)%type.

Definition getSType (v : STValue) : SerializedTypeID :=
  match v with
  | NotPresent => STI_NOTPRESENT
  | Leaf x => leafType x
  | STObj _ => STI_OBJECT
  | STArr _ => STI_ARRAY
  end.

Definition isDefault (v : STValue) : bool :=
  match v with
  | NotPresent => true
  | Leaf x => leaf_isDefault x
  | STObj o => match o.2 with [] => true | _ => false end
  | STArr l => match l with [] => true | _ => false end
  end.

(** [STVar(defaultObject, field)]. *)
Definition defaultValue (id : SerializedTypeID) : outcome STValue :=
  match id with
  | STI_NOTPRESENT => Ret NotPresent
  | STI_UINT8 => Ret (Leaf (STUInt8 0))
  | STI_UINT16 => Ret (Leaf (STUInt16 0))
  | STI_UINT32 => Ret (Leaf (STUInt32 0))
  | STI_UINT64 => Ret (Leaf (STUInt64 0))
  | STI_AMOUNT => Ret (Leaf (STAmount_ (mkSTAmount (AIssue xrpIssue) 0 0 false)))
  | STI_NUMBER => Ret (Leaf (STNumber zero))
  | STI_UINT128 => Ret (Leaf (STUInt128 (replicate 16 0)))
  | STI_UINT160 => Ret (Leaf (STUInt160 (replicate 20 0)))
  | STI_UINT192 => Ret (Leaf (STUInt192 (replicate 24 0)))
  | STI_UINT256 => Ret (Leaf (STUInt256 (replicate 32 0)))
  | STI_INT32 => Ret (Leaf (STInt32 0))
  | STI_VECTOR256 => Ret (Leaf (STVector256 []))
  | STI_VL => Ret (Leaf (STBlob []))
  | STI_ACCOUNT => Ret (Leaf (STAccount_ (mkSTAccount (replicate 20 0) true)))
  | STI_PATHSET => Ret (Leaf (STPathSet []))
  | STI_OBJECT => Ret (STObj (None, []))
  | STI_ARRAY => Ret (STArr [])
  | STI_ISSUE => Ret (Leaf (STIssue (AIssue xrpIssue)))
  | STI_XCHAIN_BRIDGE =>
      let door := mkSTAccount (replicate 20 0) true in
      Ret (Leaf (STXChainBridge_ (mkBridge door (AIssue xrpIssue) door (AIssue xrpIssue))))
  | STI_CURRENCY => Ret (Leaf (STCurrency (replicate 20 0)))
  | _ => Throw "Unknown object type"
  end.

(** ** Writing *)

Definition byCode {A} (x y : SField * A) : Prop := SFields.fieldCode x.1 <= SFields.fieldCode y.1.

#[export] Instance byCode_dec {A} (x y : SField * A) : Decision (byCode x y) := Z_le_dec _ _.

(** [getSortedFields]; the entries are values, or stand for values of type [sType]. *)
Definition getSortedFields {A} (sType : A -> SerializedTypeID) (whichFields : bool) (v_ : list (SField * A)) :
    list (SField * A) :=
  merge_sort byCode
    (List.filter (fun '(f, a) => negb (bool_decide (sType a = STI_NOTPRESENT)) && shouldInclude whichFields f) v_).

(** [STBase::addFieldID]. *)
Definition addName (f : SField) (s : Blob) : Blob := (addFieldID (sti (fieldType f)) (fieldValue f) s).2.

Definition endMarker (id : SerializedTypeID) (s : Blob) : Blob := (addFieldID (sti id) 1 s).2.

(** An entry that is about to be written: its type and its [add]. *)
Abbreviation writer := (SerializedTypeID * (Blob -> outcome Blob))%type.

Definition addEntry (e : SField * writer) (s : Blob) : outcome Blob :=
  let '(f, (sType, add)) := e in
  add (addName f s) ≫= fun s =>
  Ret (if bool_decide (sType = STI_ARRAY) || bool_decide (sType = STI_OBJECT) then endMarker sType s else s).

Fixpoint addEntries (l : list (SField * writer)) (s : Blob) : outcome Blob :=
  match l with [] => Ret s | e :: l => addEntry e s ≫= addEntries l end.

(** The loop of [STArray::add]. *)
Fixpoint addElements (l : list (SField * (Blob -> outcome Blob))) (s : Blob) : outcome Blob :=
  match l with
  | [] => Ret s
  | (f, add) :: l => add (addName f s) ≫= fun s => addElements l (endMarker STI_OBJECT s)
  end.

(** The virtual [add]; that of an absent value is never called. *)
Fixpoint addValue (v : STValue) : Blob -> outcome Blob :=
  match v with
  | NotPresent => Ret
  | Leaf x => addLeaf x
  | STObj o =>
      addEntries (getSortedFields fst true (map (fun '(f, v) => (f, (getSType v, addValue v))) o.2))
  | STArr l =>
      addElements
        (map (fun '(f, o) =>
                (f, addEntries (getSortedFields fst true (map (fun '(f, v) => (f, (getSType v, addValue v))) o.2)))) l)
  end.

Definition entry (x : SField * STValue) : SField * writer := (x.1, (getSType x.2, addValue x.2)).

(** [STObject::add(s, whichFields)]. *)
Definition addObject (whichFields : bool) (o : Object) (s : Blob) : outcome Blob :=
  addEntries (map entry (getSortedFields getSType whichFields o.2)) s.

(** ** Reading *)

Definition FieldErr (f : SField) (what : string) : string := ("Field '" ++ fieldName f ++ "' " ++ what)%string.

(** [std::find_if] and [erase]. *)
Fixpoint takeField (f : SField) (v_ : Fields) : option ((SField * STValue) * Fields) :=
  match v_ with
  | [] => None
  | x :: v_ =>
      if sf_eqb x.1 f then Some (x, v_)
      else match takeField f v_ with Some (y, v_) => Some (y, x :: v_) | None => None end
  end.

(** The loop over the template. *)
Fixpoint matchTemplate (type : SOTemplate) (v_ : Fields) : outcome (Fields * Fields) :=
  match type with
  | [] => Ret ([], v_)
  | e :: type =>
      match takeField (sField e) v_ with
      | Some (x, v_) =>
          if bool_decide (style e = soeDEFAULT) && isDefault x.2
          then Throw (FieldErr (sField e) "may not be explicitly set to default.")
          else matchTemplate type v_ ≫= fun '(v, v_) => Ret (x :: v, v_)
      | None =>
          if bool_decide (style e = soeREQUIRED) then Throw (FieldErr (sField e) "is required but missing.")
          else matchTemplate type v_ ≫= fun '(v, v_) => Ret ((sField e, NotPresent) :: v, v_)
      end
  end.

Definition applyTemplate (type : SOTemplate) (o : Object) : outcome Object :=
  matchTemplate type o.2 ≫= fun '(v, v_) =>
  match List.find (fun x => negb (isDiscardable x.1)) v_ with
  | Some x => Throw (FieldErr x.1 "found in disallowed location.")
  | None => Ret (Some type, v)
  end.

Definition applyTemplateFromSField (f : SField) (o : Object) : outcome Object :=
  match findSOTemplateBySField f with Some elements => applyTemplate elements o | None => Ret o end.

(** The cast to an object in [set], and its template. *)
Definition templated (f : SField) (v : STValue) : outcome STValue :=
  match v with STObj o => applyTemplateFromSField f o ≫= fun o => Ret (STObj o) | _ => Ret v end.

(** [std::adjacent_find]. *)
Fixpoint adjacentDup {A} (l : list (SField * A)) : bool :=
  match l with
  | x :: (y :: _) as l => sf_eqb x.1 y.1 || adjacentDup l
  | _ => false
  end.

(** The loop of [set]; [readVar] reads a value of a field one level deeper.
    Every turn reads a byte, so the number of bytes is enough fuel. *)
Fixpoint setLoop (readVar : SField -> reader STValue) (fuel : nat) (v_ : Fields) : reader (Fields * bool) :=
  match fuel with
  | O => throw "out of fuel"
  | S fuel => fun it =>
      if empty it then Ret ((v_, false), it)
      else
        (getFieldID ≫= fun '(type, field) =>
         if (type =? sti STI_OBJECT) && (field =? 1) then mret (v_, true)
         else if (type =? sti STI_ARRAY) && (field =? 1) then throw "Illegal end-of-array marker in object"
         else
           let fn := getFieldTV type field in
           if isInvalid fn then throw "Unknown field"
           else
             readVar fn ≫= fun v =>
             lift (templated fn v) ≫= fun v =>
             setLoop readVar fuel (v_ ++ [(fn, v)])) it
  end.

Definition set (readVar : SField -> reader STValue) : reader (Fields * bool) := fun it =>
  (setLoop readVar (S (length (ahead it))) [] ≫= fun '(v_, reachedEndOfObject) =>
   if adjacentDup (getSortedFields getSType true v_) then throw "Duplicate field detected"
   else mret (v_, reachedEndOfObject)) it.

(** The loop of the constructor of [STArray]; [readObj] reads an element. *)
Fixpoint arrayLoop (readObj : SField -> reader Object) (fuel : nat) (v_ : list (SField * Object)) :
    reader (list (SField * Object)) :=
  match fuel with
  | O => throw "out of fuel"
  | S fuel => fun it =>
      if empty it then Ret (v_, it)
      else
        (getFieldID ≫= fun '(type, field) =>
         if (type =? sti STI_ARRAY) && (field =? 1) then mret v_
         else if (type =? sti STI_OBJECT) && (field =? 1) then throw "Illegal terminator in array"
         else
           let fn := getFieldTV type field in
           if isInvalid fn then throw "Unknown field"
           else if negb (bool_decide (fieldType fn = STI_OBJECT)) then throw "Non-object in array"
           else
             readObj fn ≫= fun o =>
             lift (applyTemplateFromSField fn o) ≫= fun o =>
             arrayLoop readObj fuel (v_ ++ [(fn, o)])) it
  end.

Definition readArray (readObj : SField -> reader Object) : reader (list (SField * Object)) := fun it =>
  arrayLoop readObj (S (length (ahead it))) [] it.

Section Settings.
Context (cfg : settings) (load_big_s32 load_big_s64 : Blob -> Z).

(** [STVar(sit, name, depth)] with [level = 11 - depth] levels left; an element
    of an array is one level deeper than the array, its fields one more. *)
Fixpoint readVar (level : nat) (name : SField) : reader STValue :=
  match level with
  | O => throw "Maximum nesting depth of STVar exceeded"
  | S level =>
      match fieldType name with
      | STI_NOTPRESENT => mret NotPresent
      | STI_OBJECT => set (readVar level) ≫= fun '(v_, _) => mret (STObj (None, v_))
      | STI_ARRAY =>
          readArray (fun _ =>
            match level with
            | O => throw "Maximum nesting depth of STObject exceeded"
            | S level => set (readVar level) ≫= fun '(v_, _) => mret (None, v_)
            end) ≫= fun l => mret (STArr l)
      | id => readLeaf cfg load_big_s32 load_big_s64 id ≫= fun x => mret (Leaf x)
      end
  end.

(** [STObject(sit, name)]: depth zero. *)
Definition readObject : reader Object := set (readVar 10) ≫= fun '(v_, _) => mret (None, v_).

(** [STObject(type, sit, name)]. *)
Definition readTemplated (type : SOTemplate) : reader Object :=
  set (readVar 10) ≫= fun '(v_, _) => lift (applyTemplate type (None, v_)).

End Settings.
