(* ===== verification/STObjectFacts.v ===== *)
(** * Fields in order, templates and round trips of objects *)

From stdpp Require Import strings sorting.
From S2P Require Import Prelude Outcome Serializer SerializerFacts SFields Number Amount AmountFacts STLeaf STLeafFacts STObject.

Abbreviation code := SFields.fieldCode.

(** ** The table of fields *)

Lemma field_code_add id index : 0 <= index < 2 ^ 16 -> field_code id index = id * 2 ^ 16 + index.
Proof. intros H. unfold field_code. rewrite Z.shiftl_mul_pow2, Z.lor_comm, lor_shifted by lia. lia. Qed.

(** A field that can be written in an object and found again: it is in the
    table, its value is not zero, it is binary and no end marker. *)
Definition writable_field (f : SField) : bool :=
  (0 <? fieldValue f) && isBinary f && negb (fieldCode (sf "ObjectEndMarker" STI_OBJECT 1) =? fieldCode f) &&
  negb (fieldCode (sf "ArrayEndMarker" STI_ARRAY 1) =? fieldCode f).

Definition namedOk (f : SField) : Prop := f ∈ knownFields /\ writable_field f = true.

(** What reading needs to know of such a field. *)
Definition findable (f : SField) : bool :=
  bool_decide (getFieldTV (sti (fieldType f)) (fieldValue f) = f) &&
  (0 <? sti (fieldType f)) && (sti (fieldType f) <? 256) && (0 <? fieldValue f) && (fieldValue f <? 256) &&
  negb ((sti (fieldType f) =? sti STI_OBJECT) && (fieldValue f =? 1)) &&
  negb ((sti (fieldType f) =? sti STI_ARRAY) && (fieldValue f =? 1)) && negb (isInvalid f).

Lemma table_findable : forallb (fun f => implb (writable_field f) (findable f)) knownFields = true.
Proof. vm_compute. reflexivity. Qed.

Lemma namedOk_findable f : namedOk f -> findable f = true.
Proof.
  intros [Hf Hw]. pose proof table_findable as H. rewrite forallb_forall in H. apply list_elem_of_In in Hf.
  specialize (H f Hf). by rewrite Hw in H.
Qed.

Lemma namedOk_include f : namedOk f -> shouldInclude true f = true.
Proof. intros [_ Hw]. unfold writable_field, isBinary in Hw. unfold shouldInclude. b2p. rewrite andb_true_r. by apply Z.ltb_lt. Qed.

Lemma table_codes : NoDup (map fieldCode knownFields) /\ NoDup (map fieldName knownFields).
Proof. split; apply (bool_decide_unpack _); vm_compute; exact I. Qed.

Lemma code_inj f g : f ∈ knownFields -> g ∈ knownFields -> code f = code g -> f = g.
Proof.
  intros Hf Hg E. apply list_elem_of_lookup in Hf as [i Hi]. apply list_elem_of_lookup in Hg as [j Hj].
  assert (i = j) as ->.
  { apply (NoDup_lookup (map fieldCode knownFields) i j (code f)); [apply table_codes| |];
      rewrite list_lookup_fmap; [by rewrite Hi|]. rewrite Hj, E. done. }
  congruence.
Qed.

(** ** Order by code *)

#[export] Instance byCode_total {A} : Total (@byCode A).
Proof. intros x y. unfold byCode. lia. Qed.

#[export] Instance byCode_trans {A} : Transitive (@byCode A).
Proof. intros x y z. unfold byCode. lia. Qed.

Section Map.
Context {A B : Type} (f : A -> B) (R : A -> A -> Prop) (S : B -> B -> Prop).
Context `{!forall x y, Decision (R x y), !forall x y, Decision (S x y)} (HRS : forall x y, S (f x) (f y) <-> R x y).

Lemma list_merge_map l1 l2 : list_merge S (map f l1) (map f l2) = map f (list_merge R l1 l2).
Proof using HRS.
  revert l2. induction l1 as [|x1 l1 IH1]; intros l2; [cbn [map]; by rewrite !list_merge_nil_l|].
  induction l2 as [|x2 l2 IH2]; [cbn [map]; by rewrite !list_merge_nil_r|].
  cbn [map]. rewrite !list_merge_cons. destruct (decide (R x1 x2)) as [HR|HR].
  - rewrite decide_True by (by apply HRS). cbn [map]. f_equal. apply (IH1 (x2 :: l2)).
  - rewrite decide_False by (by rewrite HRS). cbn [map]. f_equal. apply IH2.
Qed.

Lemma merge_stack_map st : merge_stack S (map (option_map (map f)) st) = map f (merge_stack R st).
Proof using HRS. induction st as [|[l|] st IH]; cbn; [done| |done]. by rewrite IH, list_merge_map. Qed.

Lemma merge_list_to_stack_map st l :
  merge_list_to_stack S (map (option_map (map f)) st) (map f l) = map (option_map (map f)) (merge_list_to_stack R st l).
Proof using HRS. revert l. induction st as [|[l'|] st IH]; intros l; cbn; [done| |done]. by rewrite list_merge_map, IH. Qed.

Lemma merge_sort_map l : merge_sort S (map f l) = map f (merge_sort R l).
Proof using HRS.
  unfold merge_sort. change (@nil (option (list B))) with (map (option_map (map f)) []). generalize (@nil (option (list A))).
  induction l as [|x l IH]; intros st; [apply merge_stack_map|]. cbn [map merge_sort_aux].
  change [f x] with (map f [x]). by rewrite merge_list_to_stack_map, IH.
Qed.
End Map.

Lemma sortedFields_entry which fs :
  getSortedFields fst which (map entry fs) = map entry (getSortedFields getSType which fs).
Proof.
  unfold getSortedFields. etransitivity; [|by apply (merge_sort_map entry byCode byCode)]. f_equal.
  induction fs as [|[f v] fs IH]; cbn; [done|]. destruct (_ && _); cbn; by rewrite IH.
Qed.

(** The [add] of an object as a value is [STObject::add(s, withAllFields)]. *)
Lemma addValue_object o s : addValue (STObj o) s = addObject true o s.
Proof.
  cbn [addValue]. unfold addObject. rewrite <- sortedFields_entry. do 2 f_equal. apply map_ext. by intros [].
Qed.

Lemma addValue_array l s : addValue (STArr l) s = addElements (map (fun x => (x.1, addObject true x.2)) l) s.
Proof.
  cbn [addValue]. revert s. induction l as [|[f o] l IH]; intros s; [done|]. cbn [map addElements].
  change (addEntries _ (addName f s)) with (addValue (STObj o) (addName f s)). rewrite addValue_object. cbn [fst snd].
  destruct (addObject true o (addName f s)); [done|]. cbn. apply IH.
Qed.

(** *** Strictly ordered fields *)

Definition ordered {A} (l : list (SField * A)) : Prop := StronglySorted (fun x y => code x.1 < code y.1) l.

Lemma ordered_sorted {A} (l : list (SField * A)) : ordered l -> StronglySorted byCode l.
Proof.
  unfold ordered. induction 1 as [|x l _ IH Hx]; constructor; [done|]. eapply Forall_impl; [done|].
  intros y Hy. unfold byCode. cbn in Hy. lia.
Qed.

Lemma ordered_codes {A} (l : list (SField * A)) : ordered l -> NoDup (map (fun x => code x.1) l).
Proof.
  unfold ordered. induction 1 as [|x l _ IH Hx]; constructor; [|done]. intros (y & E & Hy)%list_elem_of_fmap.
  rewrite Forall_forall in Hx. specialize (Hx y Hy). cbn in Hx. lia.
Qed.

(** Sorting keeps the fields; with distinct codes the result is ordered, and the
    only ordered list with these fields. *)
Lemma codes_eq {A} (l : list (SField * A)) x y :
  NoDup (map (fun x => code x.1) l) -> x ∈ l -> y ∈ l -> code x.1 = code y.1 -> x = y.
Proof.
  intros Hn Hx Hy E. apply list_elem_of_lookup in Hx as [i Hi]. apply list_elem_of_lookup in Hy as [j Hj].
  assert (i = j) as ->; [|congruence].
  apply (NoDup_lookup _ i j (code x.1) Hn); rewrite list_lookup_fmap; [by rewrite Hi|]. rewrite Hj, E. done.
Qed.

Lemma sorted_ordered {A} (l : list (SField * A)) :
  NoDup (map (fun x => code x.1) l) -> StronglySorted byCode l -> ordered l.
Proof.
  intros Hn Hs. unfold ordered. induction Hs as [|x l Hs IH Hx]; constructor; [by inversion Hn; auto|].
  inversion Hn as [|? ? Hni]; subst. rewrite Forall_forall in Hx |- *. intros y Hy. specialize (Hx y Hy). unfold byCode in Hx.
  assert (code x.1 <> code y.1); [|cbn; lia]. intros E. apply Hni. rewrite E. by apply (list_elem_of_fmap_2 (fun x => code x.1)).
Qed.

Lemma merge_sort_ordered {A} (l : list (SField * A)) :
  NoDup (map (fun x => code x.1) l) -> ordered (merge_sort byCode l) /\ merge_sort byCode l ≡ₚ l.
Proof.
  intros Hn. assert (merge_sort byCode l ≡ₚ l) as Hp by apply merge_sort_Permutation. split; [|done]. apply sorted_ordered.
  - rewrite <- (fmap_Permutation (fun x => code x.1) _ _ Hp) in Hn. done.
  - apply Sorted_StronglySorted; [apply _|]. apply Sorted_merge_sort. apply _.
Qed.

Lemma merge_sort_id {A} (l : list (SField * A)) : ordered l -> merge_sort byCode l = l.
Proof.
  intros Hl. pose proof (ordered_codes l Hl) as Hn. destruct (merge_sort_ordered l Hn) as [Ho Hp].
  apply (StronglySorted_unique_strong byCode); [|by apply ordered_sorted..|done].
  intros x y Hx Hy H1 H2. apply (codes_eq l); [done|by rewrite <- Hp|done|]. unfold byCode in *. lia.
Qed.

Lemma ordered_no_dup {A} (l : list (SField * A)) : ordered l -> adjacentDup l = false.
Proof.
  unfold ordered. induction 1 as [|x l Hs IH Hx]; [done|]. destruct l as [|y l]; [done|]. cbn [adjacentDup].
  apply Forall_cons in Hx as [Hx _]. unfold sf_eqb. rewrite (proj2 (Z.eqb_neq _ _)) by lia. exact IH.
Qed.

(** ** Objects are read back

    Which objects [add] and [set] keep, and that they do. *)

(** ** Templates *)

Definition codes (t : SOTemplate) : list Z := map (fun e => code (sField e)) t.

Definition isPresent (x : SField * STValue) : bool := negb (bool_decide (getSType x.2 = STI_NOTPRESENT)).

Definition present (fs : Fields) : Fields := List.filter isPresent fs.

(** An entry that matches an element of a template: the value of the element's
    field that is ok, or an absent one of a field that is not required. *)
Definition matches (ok : SField * STValue -> Prop) (e : SOElement) (x : SField * STValue) : Prop :=
  x.1 = sField e /\
  (x.2 = NotPresent /\ style e <> soeREQUIRED \/
   isPresent x = true /\ ok x /\ ~ (style e = soeDEFAULT /\ isDefault x.2 = true)).

Lemma present_elem fs x : x ∈ present fs -> x ∈ fs.
Proof. intros Hx. apply list_elem_of_In in Hx. apply filter_In in Hx as [Hx _]. by apply list_elem_of_In. Qed.

Lemma present_codes fs : NoDup (map (fun x => code x.1) fs) -> NoDup (map (fun x => code x.1) (present fs)).
Proof.
  induction fs as [|y fs IH]; intros Hn; [done|]. inversion Hn as [|? ? Hy Hn']; subst. cbn [present List.filter]. fold (present fs).
  destruct (isPresent y); [|by apply IH]. cbn. constructor; [|by apply IH].
  intros (z & Ez & Hz)%list_elem_of_fmap. apply Hy. rewrite Ez. by apply (list_elem_of_fmap_2 (fun x => code x.1)), present_elem.
Qed.

Lemma takeField_None f fs : (forall x, x ∈ fs -> code x.1 <> code f) -> takeField f fs = None.
Proof.
  induction fs as [|x fs IH]; intros H; [done|]. cbn [takeField]. unfold sf_eqb.
  rewrite (proj2 (Z.eqb_neq _ _)) by (apply H; by left). rewrite IH; [done|]. intros y Hy. apply H. by right.
Qed.

Lemma takeField_Some x fs :
  NoDup (map (fun x => code x.1) fs) -> x ∈ fs -> exists r, takeField x.1 fs = Some (x, r) /\ fs ≡ₚ x :: r.
Proof.
  induction fs as [|y fs IH]; intros Hn Hx; [by apply elem_of_nil in Hx|]. cbn [takeField]. unfold sf_eqb.
  destruct (Z.eqb_spec (code y.1) (code x.1)) as [E|E].
  - assert (y = x) as -> by (apply (codes_eq (y :: fs)); [done|by left|done..]). by exists fs.
  - apply elem_of_cons in Hx as [->|Hx]; [done|]. destruct (IH ltac:(by inversion Hn) Hx) as (r & -> & Hp).
    exists (y :: r). split; [done|]. rewrite Hp. apply Permutation_swap.
Qed.

Lemma matches_codes ok t fs : Forall2 (matches ok) t fs -> map (fun x => code x.1) fs = codes t.
Proof. induction 1 as [|e x t fs [E _] _ IH]; [done|]. unfold codes in *. cbn. by rewrite IH, E. Qed.

Lemma matchTemplate_ok ok t fs ps :
  NoDup (codes t) -> Forall2 (matches ok) t fs -> ps ≡ₚ present fs -> matchTemplate t ps = Ret (fs, []).
Proof.
  intros Hn Hm. revert ps. induction Hm as [|e x t fs He Hm IH]; intros ps Hp.
  { cbn in Hp. apply Permutation_nil_r in Hp. by subst. }
  assert (NoDup (map (fun x => code x.1) (x :: fs))) as Hnx by (rewrite (matches_codes ok (e :: t)); [done|by constructor]).
  assert (forall y, y ∈ present fs -> code y.1 <> code x.1) as Hne.
  { intros y Hy E. inversion Hnx as [|? ? Hni]; subst. apply Hni. rewrite <- E. by apply (list_elem_of_fmap_2 (fun x => code x.1)), present_elem. }
  destruct He as [E He]. cbn [matchTemplate]. inversion Hn; subst. rewrite <- E. destruct He as [[Ev Hs]|(Hpres & _ & Hd)].
  - rewrite takeField_None; cycle 1.
    { intros y Hy. rewrite Hp in Hy. cbn [present List.filter] in Hy. unfold isPresent in Hy. rewrite Ev in Hy. by apply Hne. }
    rewrite bool_decide_false by done. rewrite IH; [|done|]; cycle 1.
    { rewrite Hp. cbn [present List.filter]. unfold isPresent at 1. by rewrite Ev. }
    cbn. by rewrite <- Ev, <- surjective_pairing.
  - assert (present (x :: fs) = x :: present fs) as Ep by (cbn [present List.filter]; by rewrite Hpres). rewrite Ep in Hp.
    destruct (takeField_Some x ps) as (r & -> & Hr).
    + rewrite (fmap_Permutation (fun x => code x.1) _ _ Hp). cbn. constructor.
      * intros (y & Ey & Hy)%list_elem_of_fmap. by apply (Hne y Hy).
      * inversion Hnx. by apply present_codes.
    + rewrite Hp. by left.
    + destruct (bool_decide _ && isDefault x.2) eqn:Eb.
      { exfalso. apply Hd. apply andb_true_iff in Eb as [Eb ?]. by apply bool_decide_eq_true in Eb. }
      rewrite IH; [done|done|]. rewrite Hp in Hr. symmetry. by eapply Permutation_cons_inv.
Qed.

Lemma applyTemplate_ok ok t fs ps m :
  NoDup (codes t) -> Forall2 (matches ok) t fs -> ps ≡ₚ present fs -> applyTemplate t (m, ps) = Ret (Some t, fs).
Proof. intros Hn Hm Hp. unfold applyTemplate. cbn [snd]. by rewrite (matchTemplate_ok ok t fs ps). Qed.

(** The inner formats have no field twice. *)
Lemma inner_codes f t : findSOTemplateBySField f = Some t -> NoDup (codes t).
Proof.
  unfold findSOTemplateBySField. destruct (List.find _ _) as [[c t']|] eqn:E; [|done]. intros [= <-]. apply find_some in E as [E _].
  assert (forallb (fun x => bool_decide (NoDup (codes x.2))) knownInnerFormats = true) as H by (vm_compute; reflexivity).
  rewrite forallb_forall in H. specialize (H _ E). by apply bool_decide_eq_true in H.
Qed.

(** ** Objects that are kept *)

Section Settings.
Context (cfg : settings).

(** An object under a name, given what its values must be. *)
Definition okObject (okV : SField -> STValue -> Prop) (t : option SOTemplate) (o : Object) : Prop :=
  o.1 = t /\
  let ok x := namedOk x.1 /\ okV x.1 x.2 in
  match t with
  | None => ordered o.2 /\ Forall (fun x => isPresent x = true /\ ok x) o.2
  | Some t => NoDup (codes t) /\ Forall2 (matches ok) t o.2
  end.

(** A value of a field that can be read with [level] levels left. *)
Fixpoint okValue (level : nat) (f : SField) (v : STValue) : Prop :=
  match level with
  | O => False
  | S level =>
      match v with
      | NotPresent => False
      | Leaf x => leaf_ok cfg x /\ leafType x = fieldType f
      | STObj o => fieldType f = STI_OBJECT /\ okObject (okValue level) (findSOTemplateBySField f) o
      | STArr l =>
          fieldType f = STI_ARRAY /\
          Forall (fun x => namedOk x.1 /\ fieldType x.1 = STI_OBJECT /\
            match level with
            | O => False
            | S level => okObject (okValue level) (findSOTemplateBySField x.1) x.2
            end) l
      end
  end.

(** The fields of an ok object in the order in which they are written. *)
Lemma okObject_sorted okV t o :
  okObject okV t o ->
  let ps := getSortedFields getSType true o.2 in
  ordered ps /\ Forall (fun x => namedOk x.1 /\ okV x.1 x.2) ps /\
  match t with None => o = (None, ps) | Some t => forall m, applyTemplate t (m, ps) = Ret o end.
Proof.
  destruct o as [m fs]. unfold okObject. cbn [fst snd]. intros [-> Ho]. unfold getSortedFields.
  assert (forall fs, Forall (fun x => isPresent x = true -> namedOk x.1) fs ->
    List.filter (fun '(f, a) => negb (bool_decide (getSType a = STI_NOTPRESENT)) && shouldInclude true f) fs = present fs) as Hf.
  { clear. induction 1 as [|[f v] fs Hx _ IH]; [done|]. cbn [List.filter present]. fold (present fs). unfold isPresent in *. cbn [fst snd] in *.
    destruct (negb _) eqn:E; cbn [andb]; [|done]. rewrite namedOk_include by auto. by rewrite IH. }
  destruct t as [t|].
  - destruct Ho as [Hn Hm]. rewrite Hf.
    2: { clear -Hm. induction Hm as [|e x t fs [_ He] _ IH]; constructor; [|done]. intros Hp. unfold isPresent in Hp.
         destruct He as [[Ev _]|(_ & [? _] & _)]; [by rewrite Ev in Hp|done]. }
    destruct (merge_sort_ordered (present fs)) as [Hord Hperm].
    { apply present_codes. by rewrite (matches_codes _ _ _ Hm). }
    split_and!; [done| |intros m; by eapply applyTemplate_ok]. rewrite Hperm. clear -Hm.
    induction Hm as [|e x t fs [_ He] _ IH]; [constructor|]. cbn. unfold isPresent at 1.
    destruct He as [[-> _]|(Hp & ? & _)]; [done|]. unfold isPresent in Hp. rewrite Hp. by constructor.
  - destruct Ho as [Hord Hall]. rewrite Hf by (eapply Forall_impl; [done|naive_solver]).
    assert (present fs = fs) as ->.
    { clear -Hall. induction Hall as [|x fs [Hp _] _ IH]; [done|]. cbn. rewrite Hp. by rewrite <- IH at 2. }
    rewrite merge_sort_id by done. split_and!; [done| |done]. eapply Forall_impl; [done|naive_solver].
Qed.

End Settings.

(** ** What is written

    The fields an object is written with; nothing else matters. *)

Definition written (whichFields : bool) (fs : Fields) : Fields :=
  List.filter (fun x => isPresent x && shouldInclude whichFields x.1) fs.

Lemma addObject_sorted whichFields o s :
  addObject whichFields o s = addEntries (map entry (merge_sort byCode (written whichFields o.2))) s.
Proof. unfold addObject, getSortedFields, written. do 3 f_equal. apply filter_ext. by intros [f v]. Qed.

Lemma addObject_canonical whichFields o o' s :
  NoDup (map (fun x => code x.1) (written whichFields o.2)) -> written whichFields o.2 ≡ₚ written whichFields o'.2 ->
  addObject whichFields o s = addObject whichFields o' s.
Proof.
  intros Hn Hp. rewrite !addObject_sorted. do 2 f_equal.
  apply (StronglySorted_unique_strong byCode); [|apply (StronglySorted_merge_sort byCode)..|by rewrite !(merge_sort_Permutation byCode)].
  intros x y Hx Hy H1 H2. rewrite (merge_sort_Permutation byCode) in Hx, Hy. rewrite <- Hp in Hy.
  apply (codes_eq (written whichFields o.2)); [done..|]. unfold byCode in *. lia.
Qed.

(** ** Reading what was written *)

Definition nameBytes (f : SField) : Blob := idBytes (sti (fieldType f)) (fieldValue f).

Definition endBytes (id : SerializedTypeID) : Blob := idBytes (sti id) 1.

Lemma findable_facts f : findable f = true ->
  getFieldTV (sti (fieldType f)) (fieldValue f) = f /\ field_ok (sti (fieldType f), fieldValue f) /\
  ((sti (fieldType f) =? sti STI_OBJECT) && (fieldValue f =? 1)) = false /\
  ((sti (fieldType f) =? sti STI_ARRAY) && (fieldValue f =? 1)) = false /\ isInvalid f = false.
Proof.
  unfold findable, field_ok. rewrite !andb_true_iff, !negb_true_iff, !Z.ltb_lt, bool_decide_eq_true. naive_solver.
Qed.

Lemma addName_bytes f s : namedOk f -> addName f s = s ++ nameBytes f.
Proof.
  intros Hf. destruct (findable_facts f (namedOk_findable f Hf)) as (_ & Hok & _). unfold addName. by rewrite addFieldID_code.
Qed.

Lemma nameBytes_bytes f : namedOk f -> Forall is_byte (nameBytes f).
Proof. intros Hf. apply idBytes_bytes. by apply findable_facts, namedOk_findable. Qed.

Lemma endMarker_bytes id s : id = STI_OBJECT \/ id = STI_ARRAY -> endMarker id s = s ++ endBytes id.
Proof. intros H. unfold endMarker. rewrite addFieldID_code; [done|]. destruct H as [->| ->]; cbn; unfold field_ok; cbn; lia. Qed.

Lemma idBytes_cons t n : exists b bs, idBytes t n = b :: bs.
Proof. unfold idBytes. repeat case_match; eauto. Qed.

(** A loop that ends when there is nothing left. *)
Lemma reads_unless_empty {A} (m m' : reader A) bs cs a :
  (exists b r, bs = b :: r) -> reads m (bs ++ cs) a -> reads (fun it => if empty it then m' it else m it) (bs ++ cs) a.
Proof.
  intros (x & l & ->) Hm b r. unfold empty, remain_, lengthZ. cbn [ahead app length]. rewrite (proj2 (Z.eqb_neq _ 0)) by lia. apply Hm.
Qed.

(** A value after [set] has applied the template of its field. *)
Definition readField (rv : SField -> reader STValue) (f : SField) : reader STValue :=
  rv f ≫= fun v => lift (templated f v).

(** An entry that is written as its name and bytes from which its value is read. *)
Definition kept (rv : SField -> reader STValue) (x : SField * STValue) : Prop :=
  namedOk x.1 /\
  exists bs, Forall is_byte bs /\ (forall s, addEntry (entry x) s = Ret (s ++ nameBytes x.1 ++ bs)) /\
    reads (readField rv x.1) bs x.2.

Lemma loop_field rv f v bs acc fuel b rest :
  namedOk f -> reads (readField rv f) bs v ->
  setLoop rv (S fuel) acc (mkSerialIter b (nameBytes f ++ bs ++ rest)) =
  setLoop rv fuel (acc ++ [(f, v)]) (mkSerialIter (reverse (nameBytes f ++ bs) ++ b) rest).
Proof.
  intros Hf Hv. destruct (findable_facts f (namedOk_findable f Hf)) as (Eg & Hok & E1 & E2 & E3). cbn [setLoop].
  unfold empty, remain_, lengthZ. destruct (idBytes_cons (sti (fieldType f)) (fieldValue f)) as (b0 & l0 & Eb).
  rewrite (proj2 (Z.eqb_neq _ 0)) by (unfold nameBytes; rewrite Eb; cbn; lia).
  unfold mbind at 1, reader_bind at 1. rewrite (reads_getFieldID _ _ Hok), Ret_bind. rewrite E1, E2. cbn zeta. rewrite Eg, E3.
  specialize (Hv (reverse (nameBytes f) ++ b) rest). unfold readField in Hv. revert Hv.
  unfold mbind, reader_bind, mbind, outcome_bind. destruct (rv f _) as [w|[v' it]]; [done|].
  destruct (lift (templated f v') it) as [w|[v'' it']]; [done|]. intros [= -> ->]. by rewrite reverse_app, app_assoc.
Qed.

Lemma loop_marker rv acc fuel : reads (setLoop rv (S fuel) acc) (endBytes STI_OBJECT) (acc, true).
Proof.
  cbn [setLoop]. rewrite <- (app_nil_r (endBytes STI_OBJECT)). apply reads_unless_empty; [apply idBytes_cons|].
  eapply reads_bind; [by apply (reads_getFieldID 14 1)|]. cbn. apply reads_ret.
Qed.

(** The loop over entries that are kept, up to a marker or to the end. *)
Lemma setLoop_kept rv fs :
  Forall (kept rv) fs ->
  exists bs, Forall is_byte bs /\ (length fs <= length bs)%nat /\ (forall s, addEntries (map entry fs) s = Ret (s ++ bs)) /\
    forall acc fuel, (length fs < fuel)%nat ->
      reads (setLoop rv fuel acc) (bs ++ endBytes STI_OBJECT) (acc ++ fs, true) /\
      forall b, setLoop rv fuel acc (mkSerialIter b bs) = Ret ((acc ++ fs, false), mkSerialIter (reverse bs ++ b) []).
Proof.
  induction 1 as [|[f v] fs (Hf & bs & Hb & Hw & Hr) _ (cs & Hc & Hlen & Hwc & IH)].
  { exists []. split_and!; [done|cbn; lia|intros s; by rewrite app_nil_r|]. intros acc fuel Hfuel. destruct fuel as [|fuel]; [cbn in Hfuel; lia|].
    rewrite app_nil_r. split; [apply loop_marker|done]. }
  cbn [fst snd] in *. exists (nameBytes f ++ bs ++ cs). split_and!.
  - rewrite !Forall_app. split_and!; [by apply nameBytes_bytes|done..].
  - destruct (idBytes_cons (sti (fieldType f)) (fieldValue f)) as (b0 & l0 & E). unfold nameBytes. rewrite E.
    cbn. rewrite !length_app. lia.
  - intros s. cbn [map addEntries]. rewrite Hw, Ret_bind, Hwc. by rewrite <- !app_assoc.
  - intros acc fuel Hfuel. destruct fuel as [|fuel]; [lia|]. destruct (IH (acc ++ [(f, v)]) fuel) as [IH1 IH2]; [cbn in Hfuel; lia|].
    rewrite <- app_assoc in IH1, IH2. cbn [app] in IH1, IH2. split.
    + intros b r. rewrite <- !app_assoc, (loop_field rv f v) by done.
      rewrite app_assoc, IH1, !reverse_app, <- !app_assoc. done.
    + intros b. rewrite (loop_field rv f v) by done. by rewrite IH2, !reverse_app, <- !app_assoc.
Qed.

(** [set] on kept, ordered entries. *)
Lemma set_kept rv fs :
  ordered fs -> Forall (kept rv) fs -> Forall (fun x => isPresent x = true) fs ->
  exists bs, Forall is_byte bs /\ (forall s, addEntries (map entry fs) s = Ret (s ++ bs)) /\
    reads (set rv) (bs ++ endBytes STI_OBJECT) (fs, true) /\
    forall b, set rv (mkSerialIter b bs) = Ret ((fs, false), mkSerialIter (reverse bs ++ b) []).
Proof.
  intros Ho Hk Hp. destruct (setLoop_kept rv fs Hk) as (bs & Hb & Hlen & Hw & Hr). exists bs.
  assert (getSortedFields getSType true fs = fs) as Es.
  { unfold getSortedFields. rewrite <- (merge_sort_id fs Ho) at 2. f_equal. clear -Hk Hp.
    induction Hk as [|[f v] fs [Hf _] _ IH]; [done|]. apply Forall_cons in Hp as [Hx Hp]. cbn [List.filter].
    unfold isPresent in Hx. cbn [fst snd] in *. rewrite Hx, namedOk_include by done. cbn [andb]. by rewrite IH. }
  split_and!; [done..| |].
  - intros b r. unfold set. cbn [ahead]. unfold mbind, reader_bind.
    destruct (Hr [] (S (length ((bs ++ endBytes STI_OBJECT) ++ r)))) as [-> _]; [rewrite !length_app; lia|]. rewrite Ret_bind. cbn [app]. by rewrite Es, ordered_no_dup.
  - intros b. unfold set. cbn [ahead]. unfold mbind, reader_bind.
    destruct (Hr [] (S (length bs))) as [_ ->]; [lia|]. rewrite Ret_bind. cbn [app].
    by rewrite Es, ordered_no_dup.
Qed.

Section Values.
Context (cfg : settings) (load_big_s32 load_big_s64 : Blob -> Z).
Context (load32 : loads 4 load_big_s32) (load64 : loads 8 load_big_s64).

Local Abbreviation readVar := (readVar cfg load_big_s32 load_big_s64).

Lemma okValue_present level f v : okValue cfg level f v -> isPresent (f, v) = true.
Proof. destruct level, v; cbn; try done. intros _. unfold isPresent. cbn. by destruct x. Qed.

(** An object whose values are kept, up to its marker: the entries are read,
    and the template makes the object of them. *)
Lemma object_kept level t o :
  (forall f v, namedOk f -> okValue cfg level f v -> kept (readVar level) (f, v)) ->
  okObject (okValue cfg level) t o ->
  let ps := getSortedFields getSType true o.2 in
  exists bs, Forall is_byte bs /\ (forall s, addObject true o s = Ret (s ++ bs)) /\
    reads (set (readVar level)) (bs ++ endBytes STI_OBJECT) (ps, true) /\
    (forall b, set (readVar level) (mkSerialIter b bs) = Ret ((ps, false), mkSerialIter (reverse bs ++ b) [])) /\
    match t with None => o = (None, ps) | Some t => forall m, applyTemplate t (m, ps) = Ret o end.
Proof.
  intros IH Ho ps. destruct (okObject_sorted _ _ _ Ho) as (Hord & Hall & Ht). fold ps in Hord, Hall, Ht.
  destruct (set_kept (readVar level) ps) as (bs & Hb & Hw & Hr & He); [done| | |by exists bs].
  - eapply Forall_impl; [exact Hall|]. intros [f v] [Hf Hv]. by apply IH.
  - eapply Forall_impl; [exact Hall|]. intros [f v] [_ Hv]. by eapply okValue_present.
Qed.

(** Inner objects: with the template of their field. *)
Lemma inner_kept level f o :
  (forall f v, namedOk f -> okValue cfg level f v -> kept (readVar level) (f, v)) ->
  okObject (okValue cfg level) (findSOTemplateBySField f) o ->
  exists bs, Forall is_byte bs /\ (forall s, addObject true o s = Ret (s ++ bs)) /\
    reads (set (readVar level) ≫= fun '(v_, _) => lift (applyTemplateFromSField f (None, v_))) (bs ++ endBytes STI_OBJECT) o.
Proof.
  intros IH Ho. destruct (object_kept _ _ _ IH Ho) as (bs & Hb & Hw & Hr & _ & Ht). exists bs. split_and!; [done..|].
  rewrite <- (app_nil_r (bs ++ _)). eapply reads_bind; [done|]. apply reads_lift. unfold applyTemplateFromSField.
  destruct (findSOTemplateBySField f); [done|]. f_equal. symmetry. exact Ht.
Qed.

Lemma array_kept (rd : SField -> reader Object) l :
  Forall (fun x => namedOk x.1 /\ fieldType x.1 = STI_OBJECT /\
    exists bs, Forall is_byte bs /\ (forall s, addObject true x.2 s = Ret (s ++ bs)) /\
      reads (rd x.1 ≫= fun o => lift (applyTemplateFromSField x.1 o)) (bs ++ endBytes STI_OBJECT) x.2) l ->
  exists bs, Forall is_byte bs /\ (length l <= length bs)%nat /\
    (forall s, addElements (map (fun x => (x.1, addObject true x.2)) l) s = Ret (s ++ bs)) /\
    forall acc fuel, (length l < fuel)%nat -> reads (arrayLoop rd fuel acc) (bs ++ endBytes STI_ARRAY) (acc ++ l).
Proof.
  induction 1 as [|[f o] l (Hf & Hty & bs & Hb & Hw & Hr) _ (cs & Hc & Hlen & Hwc & IH)].
  { exists []. split_and!; [done|cbn; lia|intros s; by rewrite app_nil_r|]. intros acc fuel Hfuel. destruct fuel as [|fuel]; [cbn in Hfuel; lia|].
    rewrite app_nil_r. cbn [arrayLoop app]. rewrite <- (app_nil_r (endBytes STI_ARRAY)). apply reads_unless_empty; [apply idBytes_cons|].
    eapply reads_bind; [by apply (reads_getFieldID 15 1)|]. cbn. apply reads_ret. }
  cbn [fst snd] in *. exists (nameBytes f ++ (bs ++ endBytes STI_OBJECT) ++ cs). split_and!.
  - rewrite !Forall_app. split_and!; [by apply nameBytes_bytes|done|by repeat constructor|done].
  - destruct (idBytes_cons (sti (fieldType f)) (fieldValue f)) as (b0 & l0 & E). unfold nameBytes. rewrite E.
    cbn. rewrite !length_app. lia.
  - intros s. cbn [map addElements fst snd]. rewrite addName_bytes, Hw, Ret_bind, endMarker_bytes, Hwc by auto. by rewrite <- !app_assoc.
  - intros acc fuel Hfuel. destruct fuel as [|fuel]; [lia|]. specialize (IH (acc ++ [(f, o)]) fuel ltac:(cbn in Hfuel; lia)).
    rewrite <- app_assoc in IH. cbn [app] in IH. destruct (findable_facts f (namedOk_findable f Hf)) as (Eg & Hok & E1 & E2 & E3).
    cbn [arrayLoop]. rewrite <- !app_assoc. apply reads_unless_empty; [apply idBytes_cons|].
    eapply reads_bind; [by apply reads_getFieldID|]. cbv beta iota. rewrite E1, E2. cbn zeta. rewrite Eg, E3, Hty.
    rewrite bool_decide_true by done. cbn [negb].
    intros b r. specialize (Hr b (cs ++ endBytes STI_ARRAY ++ r)). revert Hr. rewrite <- !app_assoc.
    unfold mbind, reader_bind, mbind, outcome_bind. destruct (rd f _) as [w|[o' it]]; [done|].
    destruct (lift (applyTemplateFromSField f o') it) as [w|[o'' it']]; [done|]. intros [= -> ->].
    specialize (IH (reverse (bs ++ endBytes STI_OBJECT) ++ b) r). rewrite <- app_assoc in IH.
    etransitivity; [exact IH|]. by rewrite !reverse_app, <- !app_assoc.
Qed.

Lemma value_kept level f v : namedOk f -> okValue cfg level f v -> kept (readVar level) (f, v).
Proof using load32 load64.
  revert f v. induction level as [level IHl] using lt_wf_ind. intros f v Hf Hv. split; [done|]. cbn [fst snd].
  destruct level as [|level]; [done|]. destruct v as [|x|o|l]; cbn [okValue] in Hv; [done|..].
  - destruct Hv as [Hx Hty]. destruct (leaf_roundtrip cfg _ _ load32 load64 x Hx) as (bs & Hb & Hw & Hr).
    exists bs. split_and!; [done| |].
    + intros s. unfold addEntry, entry. cbn [fst snd getSType addValue]. rewrite addName_bytes, Hw, Ret_bind, app_assoc by done.
      by destruct x.
    + rewrite <- (app_nil_r bs). eapply (reads_bind _ _ _ _ (Leaf x)); [|by apply reads_lift]. cbn [STObject.readVar]. rewrite <- Hty.
      apply (reads_map _ Leaf) in Hr. by destruct x.
  - destruct Hv as [Hty Ho]. destruct (inner_kept level f o) as (bs & Hb & Hw & Hr); [intros; apply IHl; [lia|done..]|done|].
    exists (bs ++ endBytes STI_OBJECT). split_and!; [by apply Forall_app; split; [|by repeat constructor]| |].
    + intros s. unfold addEntry, entry. cbn [fst snd getSType]. rewrite addValue_object, addName_bytes, Hw, Ret_bind by done.
      rewrite (bool_decide_true (STI_OBJECT = STI_OBJECT)), orb_true_r, endMarker_bytes by auto. by rewrite <- !app_assoc.
    + unfold readField. cbn [STObject.readVar]. rewrite Hty. intros b r. specialize (Hr b r). revert Hr.
      unfold mbind, reader_bind, mbind, outcome_bind. destruct (set _ _) as [w|[[v_ e] it]]; [done|].
      unfold lift, templated, mret, reader_ret, mbind, outcome_bind. destruct (applyTemplateFromSField f (None, v_)); [done|].
      by intros [= -> ->].
  - destruct Hv as [Hty Hl].
    destruct (array_kept (fun _ =>
            match level with
            | O => throw "Maximum nesting depth of STObject exceeded"
            | S level => set (readVar level) ≫= fun '(v_, _) => mret (None, v_)
            end) l) as (bs & Hb & Hlen & Hw & Hr).
    { eapply Forall_impl; [exact Hl|]. intros [g o] (Hg & Hgt & Ho). cbn [fst snd] in *. split_and!; [done..|].
      destruct level as [|level]; [done|]. destruct (inner_kept level g o) as (bs & Hb & Hw & Hr); [intros; apply IHl; [lia|done..]|done|].
      exists bs. split_and!; [done..|]. intros b r. specialize (Hr b r). revert Hr. unfold mbind, reader_bind, mbind, outcome_bind.
      by destruct (set _ _) as [w|[[v_ e] it]]. }
    exists (bs ++ endBytes STI_ARRAY). split_and!; [by apply Forall_app; split; [|by repeat constructor]| |].
    + intros s. unfold addEntry, entry. cbn [fst snd getSType]. rewrite addValue_array, addName_bytes, Hw, Ret_bind by done.
      rewrite (bool_decide_true (STI_ARRAY = STI_ARRAY)), endMarker_bytes by auto. by rewrite <- !app_assoc.
    + unfold readField. cbn [STObject.readVar]. rewrite Hty. intros b r. unfold readArray, mbind, reader_bind, mbind, outcome_bind. cbn [ahead].
      rewrite (Hr [] (S (length ((bs ++ endBytes STI_ARRAY) ++ r)))) by (rewrite !length_app; lia). done.
Qed.

End Values.
