(* ===== verification/STObjectTotal.v ===== *)
(** * What reading any bytes gives

    Every reader of serialized values either throws, never because a bound of
    the model was reached, or moves over some of the bytes and returns a value
    of the type that was asked for. *)

From stdpp Require Import strings sorting.
From S2P Require Import Prelude Outcome Serializer SerializerFacts SFields Number Amount STLeaf STObject STObjectFacts.

(** ** Calls that do not run out of fuel *)

Definition fueled (w : string) : Prop := w <> "out of fuel"%string.

Definition safe {A} (m : outcome A) : Prop := match m with Throw w => fueled w | Ret _ => True end.

Lemma safe_bind {A B} (m : outcome A) (f : A -> outcome B) : safe m -> (forall a, safe (f a)) -> safe (m ≫= f).
Proof. destruct m; cbn; auto. Qed.

Ltac fueled_solve := unfold fueled, FieldErr; cbn; discriminate.

Create HintDb safety.

Ltac safe_solve :=
  repeat match goal with
         | |- safe (Ret _) => exact I
         | |- safe (Throw _) => solve [done | unfold safe; fueled_solve]
         | |- fueled _ => solve [done | fueled_solve]
         | |- safe (match ?x with _ => _ end) => destruct x
         | |- safe (_ ≫= _) => apply safe_bind; [|intros ?]
         | |- safe _ => solve [eauto with safety nocore]
         | |- safe _ => progress eauto with safety nocore
         end.

Lemma require_safe {A} w (x : option A) : fueled w -> safe (require w x).
Proof. by destruct x. Qed.

Lemma doRoundUp_safe mode g x mn mx w : fueled w -> safe (doRoundUp mode g x mn mx w).
Proof. intros Hw. unfold doRoundUp. safe_solve. Qed.

Lemma doRound_safe mode g d w : fueled w -> safe (doRound mode g d w).
Proof. intros Hw. unfold doRound. safe_solve. Qed.

#[export] Hint Extern 0 (fueled _) => fueled_solve : safety.
#[export] Hint Resolve require_safe doRoundUp_safe doRound_safe : safety.

Lemma doNormalize_safe mode x mn mx : safe (doNormalize mode x mn mx).
Proof. unfold doNormalize. safe_solve. Qed.

Lemma fromRep_safe mode scale m e : safe (fromRep mode scale m e).
Proof. apply doNormalize_safe. Qed.

Lemma toRep_safe mode x : safe (toRep mode x).
Proof. unfold toRep. safe_solve. Qed.

#[export] Hint Resolve doNormalize_safe fromRep_safe toRep_safe : safety.

Section Settings.
Context (cfg : settings).

Lemma fromNumber_safe x : safe (fromNumber cfg x).
Proof. unfold fromNumber, normalizeToRange. safe_solve. Qed.

Lemma iouInRange_safe x : safe (iouInRange x).
Proof. unfold iouInRange. safe_solve. Qed.

Lemma iouScaleDown_safe what fuel m e : fueled what -> safe (iouScaleDown what fuel m e).
Proof. intros Hw. revert m e. induction fuel as [|fuel IH]; intros m e; cbn [iouScaleDown]; safe_solve; apply IH. Qed.

Lemma legacyNormalize_safe what m e : fueled what -> safe (legacyNormalize what m e).
Proof.
  intros Hw. unfold legacyNormalize. destruct (iouScaleUp _ _ _). apply safe_bind; [by apply iouScaleDown_safe|].
  intros ?. safe_solve.
Qed.

Lemma iouNormalize_safe x : safe (iouNormalize cfg x).
Proof.
  pose proof fromNumber_safe. pose proof iouInRange_safe. pose proof legacyNormalize_safe. unfold iouNormalize. safe_solve.
Qed.

Lemma growValue_safe n b v : safe (growValue cfg n b v).
Proof. revert v. induction n as [|n IH]; intros v; cbn [growValue]; safe_solve; apply IH. Qed.

Lemma canonicalize_safe a : safe (canonicalize cfg a).
Proof.
  pose proof iouNormalize_safe. pose proof growValue_safe. pose proof legacyNormalize_safe.
  unfold canonicalize, integralValue, iou. safe_solve.
Qed.

End Settings.

Lemma applyTemplate_safe t o : safe (applyTemplate t o).
Proof.
  assert (forall v_, safe (matchTemplate t v_)) as Hm.
  { induction t as [|e t IH]; intros v_; cbn [matchTemplate]; safe_solve; apply IH. }
  unfold applyTemplate. safe_solve.
Qed.

Lemma applyTemplateFromSField_safe f o : safe (applyTemplateFromSField f o).
Proof. unfold applyTemplateFromSField. pose proof applyTemplate_safe. safe_solve. Qed.

#[export] Hint Resolve canonicalize_safe applyTemplate_safe applyTemplateFromSField_safe : safety.

(** ** Readers on any bytes

    [total n m P]: on fewer than [n] bytes ahead, [m] ends as it should. *)

Definition ends {A} (P : A -> Blob -> Prop) (b l : Blob) (r : outcome (A * SerialIter)) : Prop :=
  match r with
  | Throw w => fueled w
  | Ret (a, it) => exists bs r, l = bs ++ r /\ it = mkSerialIter (reverse bs ++ b) r /\ P a bs
  end.

Definition total {A} (n : nat) (m : reader A) (P : A -> Blob -> Prop) : Prop :=
  forall b l, Forall is_byte l -> (length l < n)%nat -> ends P b l (m (mkSerialIter b l)).

Lemma total_ret {A} n (a : A) (P : A -> Blob -> Prop) : P a [] -> total n (mret a) P.
Proof. intros HP b l _ _. exists [], l. done. Qed.

Lemma total_throw {A} n w (P : A -> Blob -> Prop) : fueled w -> total n (throw w) P.
Proof. by intros Hw b l _. Qed.

(** What the first reader took is no longer ahead of the second. *)
Lemma total_step {A B} n k (m : reader A) (f : A -> reader B) (P : A -> Blob -> Prop) (Q : B -> Blob -> Prop) :
  total n m P -> (forall a bs, P a bs -> (n <= k + length bs)%nat /\ total k (f a) (fun c cs => Q c (bs ++ cs))) ->
  total n (m ≫= f) Q.
Proof.
  intros Hm Hf b l Hl Hn. unfold mbind, reader_bind, mbind, outcome_bind. specialize (Hm b l Hl Hn).
  destruct (m (mkSerialIter b l)) as [w|[a it]]; [done|]. destruct Hm as (bs & r & -> & -> & HP).
  apply Forall_app in Hl as [Hbs Hr]. destruct (Hf a bs HP) as [Hk Hf']. rewrite length_app in Hn.
  specialize (Hf' (reverse bs ++ b) r Hr ltac:(lia)).
  destruct (f a _) as [w|[a' it']]; [done|]. destruct Hf' as (cs & r' & -> & -> & HQ).
  exists (bs ++ cs), r'. by rewrite reverse_app, !app_assoc.
Qed.

Lemma total_bind {A B} n (m : reader A) (f : A -> reader B) (P : A -> Prop) (Q : B -> Prop) :
  total n m (fun a _ => P a) -> (forall a, P a -> total n (f a) (fun b _ => Q b)) -> total n (m ≫= f) (fun b _ => Q b).
Proof. intros Hm Hf. apply (total_step n n m f (fun a _ => P a)); [done|]. intros a bs HP. split; [lia|auto]. Qed.

(** A computation whose first part may return anything. *)
Lemma total_then {A B} n (m : reader A) (f : A -> reader B) (Q : B -> Prop) :
  total n m (fun _ _ => True) -> (forall a, total n (f a) (fun b _ => Q b)) -> total n (m ≫= f) (fun b _ => Q b).
Proof. intros Hm Hf. apply (total_bind n m f (fun _ => True)); auto. Qed.

Lemma total_lift {A} n (m : outcome A) (P : A -> Prop) :
  safe m -> (forall a, m = Ret a -> P a) -> total n (lift m) (fun a _ => P a).
Proof. intros Hs HP b l _ _. unfold lift, mbind, outcome_bind. destruct m as [w|a]; [done|]. exists [], l. auto. Qed.

Lemma total_advance n w k : fueled w -> total n (advance w k) (fun _ _ => True).
Proof.
  intros Hw b l Hl _. unfold advance. case_match; [done|]. cbn [ahead behind]. eexists _, _. by rewrite take_drop.
Qed.

Lemma total_weaken {A} n (m : reader A) (P Q : A -> Blob -> Prop) :
  total n m P -> (forall a bs, P a bs -> Q a bs) -> total n m Q.
Proof.
  intros Ht HPQ b l Hl Hn. specialize (Ht b l Hl Hn). destruct (m _) as [w|[a it]]; [done|].
  destruct Ht as (bs & r & -> & -> & HP). exists bs, r. auto.
Qed.

(** What is known of the bytes a reader consumes adds to it. *)
Lemma total_consumes {A} n (m : reader A) (P : A -> Blob -> Prop) :
  total n m (fun _ _ => True) -> consumes m P -> total n m P.
Proof.
  intros Ht Hc b l Hl Hn. pose proof (Ht b l Hl Hn) as He. pose proof (fun a it => Hc b l a it Hl) as Hc'.
  destruct (m (mkSerialIter b l)) as [w|[a it]]; [done|]. destruct (Hc' a it eq_refl) as (bs & r & E1 & E2 & HP).
  exists bs, r. done.
Qed.

Create HintDb totality.

Ltac total_solve :=
  repeat match goal with
         | |- total _ (mret _) _ => apply total_ret; done
         | |- total _ (throw _) _ => apply total_throw; fueled_solve
         | |- total _ (advance _ _) _ => apply total_advance; fueled_solve
         | |- total _ (match ?x with _ => _ end) _ => destruct x
         | |- total _ (lift _) _ => apply total_lift; [solve [safe_solve]|done]
         | |- total _ _ _ => solve [eauto with totality nocore]
         | |- total _ (_ ≫= _) _ => apply total_then; [|intros ?]
         end.

Lemma total_get8 n : total n get8 (fun _ bs => bs <> []).
Proof.
  apply total_consumes; [unfold get8; total_solve|]. intros b l a it Hl E.
  destruct (consumes_get8 b l a it Hl E) as (bs & r & E1 & E2 & -> & _). exists [a], r. done.
Qed.

Lemma total_get8_any n : total n get8 (fun _ _ => True).
Proof. eapply total_weaken; [apply total_get8|done]. Qed.

#[export] Hint Resolve total_get8_any : totality.

Lemma total_getFieldID n : total n getFieldID (fun id bs => field_ok id /\ bs <> []).
Proof.
  apply total_consumes; [unfold getFieldID; total_solve|]. intros b l a it Hl E.
  destruct (consumes_getFieldID b l a it Hl E) as (bs & r & E1 & E2 & Hf & ->). exists (idBytes a.1 a.2), r.
  split_and!; try done. unfold idBytes. repeat case_match; done.
Qed.

Lemma total_getVLDataLength n : total n getVLDataLength (fun _ _ => True).
Proof. unfold getVLDataLength, decodeLengthLength, decodeVLLength1, decodeVLLength2, decodeVLLength3. total_solve. Qed.

#[export] Hint Resolve total_getVLDataLength : totality.

Lemma total_getVL n : total n getVL (fun _ _ => True).
Proof. unfold getVL, getRaw. total_solve. Qed.

#[export] Hint Resolve total_getVL : totality.

(** ** Values *)

Section Leaves.
Context (cfg : settings) (load_big_s32 load_big_s64 : Blob -> Z).

Lemma total_getAccount n : total n getAccount (fun _ _ => True).
Proof. unfold getAccount. total_solve. Qed.

Lemma total_getIssue n : total n getIssue (fun _ _ => True).
Proof. unfold getIssue, getBitString, get32. total_solve. Qed.

Lemma total_getAmount n : total n (getAmount cfg) (fun _ _ => True).
Proof. unfold getAmount, getBitString, get64. total_solve. Qed.

Lemma total_get160If n b : total n (get160If b) (fun _ _ => True).
Proof. unfold get160If, getBitString. total_solve. Qed.

Lemma total_pathLoop fuel path value : total fuel (pathLoop fuel path value) (fun _ _ => True).
Proof.
  revert path value. induction fuel as [|fuel IH]; intros path value; [intros b l _ Hl; lia|]. cbn [pathLoop].
  apply (total_step _ fuel _ _ (fun _ bs => bs <> [])); [apply total_get8|]. intros t bs Hbs.
  split; [destruct bs; [done|cbn; lia]|]. pose proof total_get160If. total_solve.
Qed.

Lemma total_getPathSet n : total n getPathSet (fun _ _ => True).
Proof. intros b l Hl _. apply (total_pathLoop (S (length l))); [done|lia]. Qed.

#[local] Hint Resolve total_getAccount total_getIssue total_getAmount total_getPathSet : totality.

Lemma total_readLeaf n id : total n (readLeaf cfg load_big_s32 load_big_s64 id) (fun x _ => leafType x = id).
Proof.
  unfold readLeaf, getNumber, getVector256, getSlice, getBridge, getBitString, get16, get32, get64, geti32, geti64. total_solve.
Qed.

End Leaves.

(** ** Objects *)

(** An object as [set] and [applyTemplate] leave it, given what its values are. *)
Definition soundObject (V : SField -> STValue -> Prop) (t : option SOTemplate) (o : Object) : Prop :=
  o.1 = t /\
  let ok x := namedOk x.1 /\ V x.1 x.2 in
  match t with
  | None => NoDup (map (fun x => code x.1) o.2) /\ Forall (fun x => isPresent x = true /\ ok x) o.2
  | Some t => NoDup (codes t) /\ Forall2 (matches ok) t o.2
  end.

(** A value of the type of its field, nested at most [level] deep. *)
Fixpoint soundValue (level : nat) (f : SField) (v : STValue) : Prop :=
  match level with
  | O => False
  | S level =>
      match v with
      | NotPresent => False
      | Leaf x => leafType x = fieldType f
      | STObj o => fieldType f = STI_OBJECT /\ soundObject (soundValue level) (findSOTemplateBySField f) o
      | STArr l =>
          fieldType f = STI_ARRAY /\
          Forall (fun x => namedOk x.1 /\ fieldType x.1 = STI_OBJECT /\
            match level with
            | O => False
            | S level => soundObject (soundValue level) (findSOTemplateBySField x.1) x.2
            end) l
      end
  end.

(** Any name that is not unknown nor a marker is of a field that can be written. *)
Lemma table_named :
  forallb (fun f => (fieldCode f <=? 0) ||
    ((0 <=? sti (fieldType f)) && (0 <=? fieldValue f) && (fieldValue f <? 2 ^ 16) &&
     (fieldCode f =? sti (fieldType f) * 2 ^ 16 + fieldValue f) && negb (bool_decide (fieldType f = STI_NOTPRESENT))))
    knownFields = true.
Proof. vm_compute. reflexivity. Qed.

Lemma named_field type field :
  field_ok (type, field) -> ((type =? sti STI_OBJECT) && (field =? 1)) = false -> ((type =? sti STI_ARRAY) && (field =? 1)) = false ->
  isInvalid (getFieldTV type field) = false ->
  namedOk (getFieldTV type field) /\ fieldType (getFieldTV type field) <> STI_NOTPRESENT.
Proof.
  intros [Ht Hf] Eo Ea Hi. cbn [fst snd] in Ht, Hf. unfold getFieldTV, getField in *.
  destruct (List.find _ _) as [f|] eqn:E; [|done]. change (default sfInvalid (Some f)) with f in *. apply find_some in E as [Hin Ec].
  pose proof table_named as Htab. rewrite forallb_forall in Htab. specialize (Htab f Hin). apply Z.eqb_eq in Ec.
  rewrite field_code_add in Ec by lia. apply list_elem_of_In in Hin.
  rewrite Ec, orb_true_iff, !andb_true_iff, !Z.leb_le, Z.ltb_lt, Z.eqb_eq, negb_true_iff, bool_decide_eq_false in Htab.
  destruct Htab as [?|((((? & ?) & ?) & ?) & ?)]; [lia|]. assert (sti (fieldType f) = type /\ fieldValue f = field) as [Et Ef] by lia.
  split; [|done]. split; [done|]. unfold writable_field, isBinary. rewrite Ec, Ef.
  change (fieldCode (sf "ObjectEndMarker" STI_OBJECT 1)) with (14 * 2 ^ 16 + 1).
  change (fieldCode (sf "ArrayEndMarker" STI_ARRAY 1)) with (15 * 2 ^ 16 + 1). change (sti STI_OBJECT) with 14 in Eo. change (sti STI_ARRAY) with 15 in Ea.
  apply andb_false_iff in Eo. apply andb_false_iff in Ea. rewrite !Z.eqb_neq in Eo, Ea.
  rewrite !andb_true_iff, !negb_true_iff, !Z.ltb_lt, !Z.eqb_neq. lia.
Qed.

Lemma takeField_spec f fs x r :
  takeField f fs = Some (x, r) -> x ∈ fs /\ code x.1 = code f /\ forall y, y ∈ r -> y ∈ fs.
Proof.
  revert x r. induction fs as [|y fs IH]; intros x r; cbn [takeField]; [done|]. unfold sf_eqb. destruct (Z.eqb_spec (code y.1) (code f)) as [E|E].
  - intros [= <- <-]. split_and!; [by left|done|]. intros z Hz. by right.
  - destruct (takeField f fs) as [[y' r']|]; [|done]. intros [= <- <-]. destruct (IH _ _ eq_refl) as (H1 & H2 & H3).
    split_and!; [by right|done|]. intros z [->|Hz]%elem_of_cons; [by left|]. right. auto.
Qed.

Lemma matchTemplate_sound ok t ps fs rest :
  Forall (fun e => sField e ∈ knownFields) t -> Forall (fun x => isPresent x = true /\ x.1 ∈ knownFields /\ ok x) ps ->
  matchTemplate t ps = Ret (fs, rest) -> Forall2 (matches ok) t fs.
Proof.
  intros Ht. revert ps fs rest. induction Ht as [|e t He _ IH]; intros ps fs rest Hps; cbn [matchTemplate]; [by intros [= <- <-]|].
  destruct (takeField (sField e) ps) as [[x r]|] eqn:E.
  - apply takeField_spec in E as (Hx & Ec & Hr). destruct (bool_decide (style e = soeDEFAULT) && isDefault x.2) eqn:Ed; [done|].
    intros ([fs' rest'] & E' & [= <- <-])%bind_Ret. rewrite Forall_forall in Hps. destruct (Hps x Hx) as (Hp & Hk & Hok).
    constructor; [|eapply IH; [|done]; apply Forall_forall; auto]. split; [by apply code_inj|]. right. split_and!; [done..|].
    intros [Hs Hd]. by rewrite Hs, Hd, bool_decide_true in Ed.
  - destruct (decide (style e = soeREQUIRED)) as [Hs|Hs]; [by rewrite bool_decide_true|rewrite bool_decide_false by done].
    intros ([fs' rest'] & E' & [= <- <-])%bind_Ret. constructor; [|by eapply IH]. split; [done|]. by left.
Qed.

(** A template has fields of the table, none of them twice. *)
Definition properTemplate (t : SOTemplate) : Prop := NoDup (codes t) /\ Forall (fun e => sField e ∈ knownFields) t.

Lemma inner_proper f t : findSOTemplateBySField f = Some t -> properTemplate t.
Proof.
  intros Hf. split; [by eapply inner_codes|]. revert Hf. unfold findSOTemplateBySField.
  destruct (List.find _ _) as [[c t']|] eqn:E; [|done]. intros [= <-]. apply find_some in E as [E _].
  assert (forallb (fun x => forallb (fun e => bool_decide (sField e ∈ knownFields)) x.2) knownInnerFormats = true) as Htab by (vm_compute; reflexivity).
  rewrite forallb_forall in Htab. specialize (Htab _ E). rewrite forallb_forall in Htab. apply Forall_forall. intros e He.
  apply list_elem_of_In in He. specialize (Htab e He). by apply bool_decide_eq_true in Htab.
Qed.

Lemma applyTemplate_sound V t m ps o :
  properTemplate t -> soundObject V None (None, ps) -> applyTemplate t (m, ps) = Ret o -> soundObject V (Some t) o.
Proof.
  intros [Hn Ht] (_ & _ & Hps). unfold applyTemplate. intros ([fs rest] & E & Ho)%bind_Ret. destruct (List.find _ rest); [done|].
  injection Ho as <-. split; [done|]. split; [done|]. eapply matchTemplate_sound; [done| |exact E].
  eapply Forall_impl; [exact Hps|]. intros x (Hp & Hok). split; [done|]. split; [apply Hok|done].
Qed.

Lemma applyTemplateFromSField_sound V f ps o :
  soundObject V None (None, ps) -> applyTemplateFromSField f (None, ps) = Ret o -> soundObject V (findSOTemplateBySField f) o.
Proof.
  unfold applyTemplateFromSField. intros Hs. destruct (findSOTemplateBySField f) as [t|] eqn:E; [|by intros [= <-]].
  apply applyTemplate_sound; [by eapply inner_proper|done].
Qed.

(** The duplicate check on values that are all there. *)
Lemma no_dup_codes (fs : Fields) :
  Forall (fun x => isPresent x = true /\ namedOk x.1) fs -> adjacentDup (getSortedFields getSType true fs) = false ->
  NoDup (map (fun x => code x.1) fs).
Proof.
  intros Hfs. unfold getSortedFields. assert (List.filter (fun '(f, a) => negb (bool_decide (getSType a = STI_NOTPRESENT)) && shouldInclude true f) fs = fs) as ->.
  { induction Hfs as [|[f v] fs [Hp Hf] _ IH]; [done|]. cbn [List.filter]. unfold isPresent in Hp. cbn [fst snd] in *.
    rewrite Hp, namedOk_include by done. cbn [andb]. by rewrite IH. }
  intros Hd. rewrite <- (merge_sort_Permutation byCode fs). pose proof (StronglySorted_merge_sort byCode fs) as Hs.
  revert Hd Hs. generalize (merge_sort byCode fs). clear. induction l as [|x l IH]; intros Hd Hs; [constructor|].
  apply StronglySorted_inv in Hs as [Hs Hx]. cbn [map]. destruct l as [|y l]; [repeat constructor; set_solver|].
  cbn [adjacentDup] in Hd. apply orb_false_iff in Hd as [Hxy Hd]. constructor; [|by apply IH].
  intros (z & Ez & Hz)%list_elem_of_fmap. unfold sf_eqb in Hxy. apply Z.eqb_neq in Hxy. apply StronglySorted_inv in Hs as [_ Hy].
  rewrite Forall_forall in Hx, Hy. pose proof (Hx y ltac:(by left)) as Hle. unfold byCode in *.
  apply elem_of_cons in Hz as [->|Hz]; [done|]. specialize (Hy z Hz). lia.
Qed.

Section Loops.
Context (rv : SField -> reader STValue) (P Q : SField -> STValue -> Prop).
Context (rv_total : forall f n, namedOk f -> fieldType f <> STI_NOTPRESENT -> total n (rv f) (fun v _ => P f v)).
Context (P_templated : forall f v v', namedOk f -> P f v -> templated f v = Ret v' -> isPresent (f, v') = true /\ Q f v').

Lemma templated_safe f v : safe (templated f v).
Proof. unfold templated. safe_solve. Qed.

Lemma total_setLoop fuel acc :
  Forall (fun x => isPresent x = true /\ namedOk x.1 /\ Q x.1 x.2) acc ->
  total fuel (setLoop rv fuel acc) (fun r _ => Forall (fun x => isPresent x = true /\ namedOk x.1 /\ Q x.1 x.2) r.1).
Proof using rv_total P_templated.
  revert acc. induction fuel as [|fuel IH]; intros acc Hacc; [intros b l _ Hl; lia|]. intros b l Hl Hn. cbn [setLoop].
  destruct (empty _); [by exists [], l|]. revert b l Hl Hn.
  apply (total_step _ fuel _ _ (fun id bs => field_ok id /\ bs <> [])); [apply total_getFieldID|]. intros [type field] bs [Hok Hbs].
  split; [destruct bs; [done|cbn; lia]|]. destruct ((type =? sti STI_OBJECT) && _) eqn:Eo; [by apply total_ret|].
  destruct ((type =? sti STI_ARRAY) && _) eqn:Ea; [total_solve|].
  cbn zeta. destruct (isInvalid _) eqn:Ei; [total_solve|]. destruct (named_field _ _ Hok Eo Ea Ei) as [Hf Ht].
  eapply total_bind; [by apply rv_total|]. intros v Hv. eapply total_bind; [by apply total_lift; [apply templated_safe|intros v' E; exact E]|].
  intros v' E. apply IH. apply Forall_app. split; [done|]. constructor; [|constructor]. cbn [fst snd]. naive_solver.
Qed.

Lemma total_set n : total n (set rv) (fun r _ => soundObject Q None (None, r.1)).
Proof using rv_total P_templated.
  intros b l Hl _. unfold set. cbn [ahead].
  refine (total_bind (S (length l)) _ _ (fun r => Forall (fun x => isPresent x = true /\ namedOk x.1 /\ Q x.1 x.2) r.1)
    (fun r => soundObject Q None (None, r.1)) _ _ b l Hl _); [by apply total_setLoop| |lia].
  intros [v_ e] Hv. destruct (adjacentDup _) eqn:Ed; [total_solve|]. apply total_ret. split; [done|]. split; [|done].
  apply no_dup_codes; [|done]. eapply Forall_impl; [exact Hv|]. naive_solver.
Qed.
End Loops.

Lemma total_readArray (rd : SField -> reader Object) (R : Object -> Prop) (W : SField -> Object -> Prop) n :
  (forall f n, total n (rd f) (fun o _ => R o)) ->
  (forall f o o', R o -> applyTemplateFromSField f o = Ret o' -> W f o') ->
  total n (readArray rd) (fun l _ => Forall (fun x => namedOk x.1 /\ fieldType x.1 = STI_OBJECT /\ W x.1 x.2) l).
Proof.
  intros Hrd HW. assert (forall fuel acc,
    Forall (fun x => namedOk x.1 /\ fieldType x.1 = STI_OBJECT /\ W x.1 x.2) acc ->
    total fuel (arrayLoop rd fuel acc)
      (fun l _ => Forall (fun x => namedOk x.1 /\ fieldType x.1 = STI_OBJECT /\ W x.1 x.2) l)) as Hloop.
  2: { intros b l Hl _. apply (Hloop (S (length l))); [constructor|done|lia]. }
  induction fuel as [|fuel IH]; intros acc Hacc; [intros b l _ Hl; lia|]. intros b l Hl Hn. cbn [arrayLoop].
  destruct (empty _); [by exists [], l|]. revert b l Hl Hn.
  apply (total_step _ fuel _ _ (fun id bs => field_ok id /\ bs <> [])); [apply total_getFieldID|]. intros [type field] bs [Hok Hbs].
  split; [destruct bs; [done|cbn; lia]|]. destruct ((type =? sti STI_ARRAY) && _) eqn:Ea; [by apply total_ret|].
  destruct ((type =? sti STI_OBJECT) && _) eqn:Eo; [total_solve|].
  cbn zeta. destruct (isInvalid _) eqn:Ei; [total_solve|]. destruct (named_field _ _ Hok Eo Ea Ei) as [Hf _].
  destruct (decide (fieldType (getFieldTV type field) = STI_OBJECT)) as [Et|Et]; [rewrite bool_decide_true by done|rewrite bool_decide_false by done; cbn [negb]; total_solve].
  cbn [negb]. eapply total_bind; [apply Hrd|]. intros o Ho.
  eapply total_bind; [by apply total_lift; [apply applyTemplateFromSField_safe|intros o' E; exact E]|].
  intros o' E. apply IH. apply Forall_app. split; [done|]. constructor; [|constructor]. cbn [fst snd]. eauto.
Qed.

Section Values.
Context (cfg : settings) (load_big_s32 load_big_s64 : Blob -> Z).

Local Abbreviation readVar := (readVar cfg load_big_s32 load_big_s64).

(** A value before its template is applied. *)
Definition rawValue (level : nat) (f : SField) (v : STValue) : Prop :=
  match v with
  | STObj o => o.1 = None /\ fieldType f = STI_OBJECT /\
      match level with O => False | S level => soundObject (soundValue level) None (None, o.2) end
  | _ => soundValue level f v
  end.

Lemma rawValue_templated level f v v' :
  rawValue level f v -> templated f v = Ret v' -> isPresent (f, v') = true /\ soundValue level f v'.
Proof.
  destruct v as [|x|[m ps]|l]; cbn [templated].
  - by destruct level.
  - intros Hx [= <-]. split; [by destruct x|done].
  - intros (Em & Ht & Hl) (o & Eo & [= <-])%bind_Ret. cbn [fst snd] in *. subst m. destruct level as [|level]; [done|].
    split; [done|]. cbn [soundValue]. split; [done|]. by eapply applyTemplateFromSField_sound.
  - by intros Hx [= <-].
Qed.

Lemma total_readVar level f n :
  namedOk f -> fieldType f <> STI_NOTPRESENT -> total n (readVar level f) (fun v _ => rawValue level f v).
Proof.
  revert f n. induction level as [level IHl] using lt_wf_ind. intros f n Hf Ht. destruct level as [|level]; [cbn; total_solve|].
  assert (forall k j, (k < S level)%nat -> total j (set (readVar k)) (fun r _ => soundObject (soundValue k) None (None, r.1))) as Hset.
  { intros k j Hk. apply (total_set _ (rawValue k)); [intros; by apply IHl|]. intros g v v' _. apply rawValue_templated. }
  pose proof (total_readLeaf cfg load_big_s32 load_big_s64) as Hleaf. cbn [STObject.readVar].
  destruct (fieldType f) eqn:Ety; try (eapply total_bind; [apply Hleaf|]; intros x Hx; apply total_ret; cbn; congruence); [done|..].
  - eapply total_bind; [apply (Hset level n); lia|]. intros [v_ e] Hv. apply total_ret. done.
  - apply (total_bind _ _ _ (fun l => Forall (fun x => namedOk x.1 /\ fieldType x.1 = STI_OBJECT /\
        match level with O => False | S level => soundObject (soundValue level) (findSOTemplateBySField x.1) x.2 end) l)).
    + destruct level as [|level].
      * apply (total_readArray _ (fun _ => False) (fun _ _ => False)); [|done]. intros g j. total_solve.
      * apply (total_readArray _ (fun o => o.1 = None /\ soundObject (soundValue level) None (None, o.2))
          (fun f o => soundObject (soundValue level) (findSOTemplateBySField f) o)).
        -- intros g j. eapply total_bind; [apply (Hset level j); lia|]. intros [v_ e] Hv. by apply total_ret.
        -- intros g [m ps] o [Em Hps]. cbn [fst snd] in *. subst m. by apply applyTemplateFromSField_sound.
    + intros l Hl. by apply total_ret.
Qed.

Lemma total_readObject n : total n (readObject cfg load_big_s32 load_big_s64) (fun o _ => soundObject (soundValue 10) None o).
Proof.
  unfold readObject. eapply total_bind.
  - apply (total_set _ (rawValue 10) (soundValue 10)); [intros; by apply total_readVar|]. intros g v v' _. apply rawValue_templated.
  - intros [v_ e] Hv. by apply total_ret.
Qed.

Lemma total_readTemplated t n :
  properTemplate t -> total n (readTemplated cfg load_big_s32 load_big_s64 t) (fun o _ => soundObject (soundValue 10) (Some t) o).
Proof.
  intros Ht. unfold readTemplated. eapply total_bind.
  - apply (total_set _ (rawValue 10) (soundValue 10)); [intros; by apply total_readVar|]. intros g v v' _. apply rawValue_templated.
  - intros [v_ e] Hv. apply total_lift; [apply applyTemplate_safe|]. intros o. by apply applyTemplate_sound.
Qed.

End Values.
