(* ===== verification/STObjectProperties.v ===== *)
(** * Properties of serialized objects *)

From stdpp Require Import strings sorting.
From S2P Require Import Prelude Outcome Serializer SerializerFacts SFields Number Amount AmountFacts STLeaf STLeafFacts STObject STObjectFacts STObjectTotal.

(** Reading a whole object, under a template or free. *)
Definition readAs (cfg : settings) (l32 l64 : Blob -> Z) (t : option SOTemplate) : reader Object :=
  match t with None => readObject cfg l32 l64 | Some t => readTemplated cfg l32 l64 t end.

(** C4: an object is read back from what [STObject::add] writes of it: a free
    object whose fields are in order, or an object that matches its template,
    with values in their ranges nested at most ten levels deep, is written, and
    the constructor (with the template, if there is one) makes the same object of
    the bytes and leaves none of them. *)
Theorem object_roundtrip (cfg : settings) (load_big_s32 load_big_s64 : Blob -> Z) (t : option SOTemplate) (o : Object) :
  loads 4 load_big_s32 -> loads 8 load_big_s64 -> okObject (okValue cfg 10) t o ->
  exists bs, (forall s, addObject true o s = Ret (s ++ bs)) /\
    readAs cfg load_big_s32 load_big_s64 t (newSerialIter bs) = Ret (o, mkSerialIter (reverse bs) []).
Proof.
  intros L32 L64 Ho. destruct (object_kept cfg load_big_s32 load_big_s64 10 t o) as (bs & _ & Hw & _ & He & Ht); [|done|].
  { intros f v. by apply value_kept. }
  exists bs. split; [done|]. unfold newSerialIter. destruct t as [t|]; cbn [readAs].
  - unfold readTemplated. unfold mbind at 1, reader_bind at 1. rewrite He, Ret_bind. unfold lift. by rewrite Ht, Ret_bind, app_nil_r.
  - unfold readObject. unfold mbind, reader_bind. rewrite He, Ret_bind, app_nil_r, <- Ht. done.
Qed.

(** C28: whatever bytes a peer sends, an object that is read from them has the
    shape the rest of the code relies on: no field twice, every field in the
    table, every value of the type of its field, inner objects and the elements
    of arrays under the templates of their names (required fields there, default
    fields not explicitly default), at most ten levels of nesting. *)
Theorem object_read_sound (cfg : settings) (load_big_s32 load_big_s64 : Blob -> Z) (t : option SOTemplate) (data : Blob) (o : Object) (it : SerialIter) :
  (forall t', t = Some t' -> properTemplate t') -> Forall is_byte data ->
  readAs cfg load_big_s32 load_big_s64 t (newSerialIter data) = Ret (o, it) ->
  soundObject (soundValue 10) t o.
Proof.
  intros Ht Hd E. assert (total (S (length data)) (readAs cfg load_big_s32 load_big_s64 t) (fun o _ => soundObject (soundValue 10) t o)) as H.
  { destruct t as [t|]; [by apply total_readTemplated, Ht|apply total_readObject]. }
  specialize (H [] data Hd ltac:(lia)). unfold newSerialIter in E. rewrite E in H. naive_solver.
Qed.

(** Reading ends on every input: no loop of the readers runs longer than
    the bytes allow, whatever the bytes, and what was read is a prefix of them. *)
Theorem object_read_ends (cfg : settings) (load_big_s32 load_big_s64 : Blob -> Z) (t : option SOTemplate) (data : Blob) :
  (forall t', t = Some t' -> properTemplate t') -> Forall is_byte data ->
  match readAs cfg load_big_s32 load_big_s64 t (newSerialIter data) with
  | Throw what => what <> "out of fuel"%string
  | Ret (_, it) => data = reverse (behind it) ++ ahead it
  end.
Proof.
  intros Ht Hd. assert (total (S (length data)) (readAs cfg load_big_s32 load_big_s64 t) (fun o _ => soundObject (soundValue 10) t o)) as H.
  { destruct t as [t|]; [by apply total_readTemplated, Ht|apply total_readObject]. }
  specialize (H [] data Hd ltac:(lia)). unfold newSerialIter. destruct (readAs _ _ _ _ _) as [w|[o it]]; [done|].
  destruct H as (bs & r & -> & -> & _). cbn [behind ahead]. by rewrite app_nil_r, reverse_involutive.
Qed.

(** The bytes of an object do not depend on the order in which its fields
    were set, nor on the fields that are not there; and the bytes that are signed
    ([whichFields] false) do not depend on the fields that are not signed. *)
Theorem serialization_canonical (whichFields : bool) (o o' : Object) :
  NoDup (map (fun x => code x.1) (written whichFields o.2)) -> written whichFields o.2 ≡ₚ written whichFields o'.2 ->
  forall s, addObject whichFields o s = addObject whichFields o' s.
Proof. intros Hn Hp s. by apply addObject_canonical. Qed.

(** ** Witnesses *)

Definition loadSigned (n : nat) (bs : Blob) : Z :=
  let x := fromBytes bs in if 2 ^ (8 * Z.of_nat n - 1) <=? x then x - 2 ^ (8 * Z.of_nat n) else x.

Lemma loadSigned_loads n : (0 < n)%nat -> loads n (loadSigned n).
Proof.
  intros Hn z Hz. unfold loadSigned. rewrite fromBytes_bigEndian. change 256 with (2 ^ 8). rewrite <- Z.pow_mul_r by lia.
  assert (2 ^ (8 * Z.of_nat n) = 2 * 2 ^ (8 * Z.of_nat n - 1)) as E by (rewrite <- Z.pow_succ_r by lia; f_equal; lia).
  pose proof (Z.pow_pos_nonneg 2 (8 * Z.of_nat n - 1) ltac:(lia) ltac:(lia)) as Hpos.
  destruct (Z.ltb_spec z 0).
  - rewrite <- (Z.mod_unique z (2 ^ (8 * Z.of_nat n)) (-1) (z + 2 ^ (8 * Z.of_nat n))) by lia. rewrite (proj2 (Z.leb_le _ _)) by lia. lia.
  - rewrite Z.mod_small by lia. rewrite (proj2 (Z.leb_gt _ _)) by lia. done.
Qed.

Definition sampleSettings : settings := mkSettings to_nearest large true true.

Definition account_of (b : Z) : STAccount := mkSTAccount (replicate 20 b) false.

(** A signer list: an entry with a locator and one without. *)
Definition signerEntry (b weight : Z) (locator : STValue) : Object :=
  (findSOTemplateBySField (getFieldByName "SignerEntry"),
   [(getFieldByName "Account", Leaf (STAccount_ (account_of b))); (getFieldByName "SignerWeight", Leaf (STUInt16 weight));
    (getFieldByName "WalletLocator", locator)]).

Definition sampleFields : Fields :=
  [(getFieldByName "Sequence", Leaf (STUInt32 7)); (getFieldByName "Fee", Leaf (STAmount_ (mkSTAmount (AIssue xrpIssue) 10 0 false)));
   (getFieldByName "SigningPubKey", Leaf (STBlob [2; 237; 1])); (getFieldByName "Account", Leaf (STAccount_ (account_of 9)));
   (getFieldByName "SignerEntries",
    STArr [(getFieldByName "SignerEntry", signerEntry 5 1 NotPresent);
           (getFieldByName "SignerEntry", signerEntry 6 2 (Leaf (STUInt256 (replicate 32 3))))])].

Definition sampleTemplate : SOTemplate :=
  map element [("Account", soeREQUIRED); ("Fee", soeREQUIRED); ("Sequence", soeREQUIRED); ("SigningPubKey", soeREQUIRED);
               ("SignerEntries", soeOPTIONAL); ("Memos", soeOPTIONAL)].

Ltac field_solve := split; [apply (bool_decide_unpack _); vm_compute; exact I|vm_compute; reflexivity].

Lemma signerEntry_ok level b weight locator :
  is_byte b -> 0 <= weight < 2 ^ 16 -> locator = NotPresent \/ (exists v, locator = Leaf (STUInt256 v) /\ bytesOf 32 v) ->
  okObject (okValue sampleSettings (S level)) (findSOTemplateBySField (getFieldByName "SignerEntry")) (signerEntry b weight locator).
Proof.
  intros Hb Hw Hl. split; [reflexivity|].
  destruct (findSOTemplateBySField (getFieldByName "SignerEntry")) as [t|] eqn:E; [|vm_compute in E; discriminate].
  split; [by eapply inner_codes|]. vm_compute in E. injection E as <-.
  assert (Forall is_byte (replicate 20 b)) as Hr by (by apply Forall_replicate).
  constructor; [|constructor; [|constructor; [|constructor]]]; (split; [vm_compute; reflexivity|cbn [fst snd]]).
  1-2: right; split; [reflexivity|]; split; [|by intros [[=] _]]; split; [field_solve|].
  - split; [split; [reflexivity|done]|reflexivity].
  - split; [cbn; lia|reflexivity].
  - destruct Hl as [->|(v & -> & Hv)]; [left; done|]. right. split; [reflexivity|]. split; [|by intros [[=] _]]. split; [field_solve|].
    split; [done|reflexivity].
Qed.

Lemma sampleFields_ok : Forall (fun x => isPresent x = true /\ namedOk x.1 /\ okValue sampleSettings 10 x.1 x.2) sampleFields.
Proof.
  repeat (constructor; [split; [reflexivity|split; [field_solve|]]|]); [..|constructor]; cbn [fst snd].
  - split; [cbn; lia|reflexivity].
  - split; [|reflexivity]. split; [by left|]. split; [reflexivity|]. split; [split; vm_compute; discriminate|discriminate].
  - split; [|reflexivity]. split; [vm_compute; discriminate|]. repeat constructor; unfold is_byte; lia.
  - split; [|reflexivity]. split; [reflexivity|]. apply Forall_replicate. unfold is_byte. lia.
  - split; [reflexivity|]. constructor; [|constructor; [|constructor]]; (split; [field_solve|split; [reflexivity|]]); cbn [fst snd].
    + apply signerEntry_ok; [unfold is_byte; lia|lia|by left].
    + apply signerEntry_ok; [unfold is_byte; lia|lia|right]. eexists. split; [done|]. split; [reflexivity|].
      apply Forall_replicate. unfold is_byte. lia.
Qed.

Lemma sampleFree_ok : okObject (okValue sampleSettings 10) None (None, sampleFields).
Proof.
  split; [reflexivity|]. split; [|exact sampleFields_ok].
  repeat (constructor; [|repeat (constructor; [vm_compute; reflexivity|]); constructor]). constructor.
Qed.

Lemma object_roundtrip_witness :
  exists bs, (forall s, addObject true (None, sampleFields) s = Ret (s ++ bs)) /\
    readAs sampleSettings (loadSigned 4) (loadSigned 8) None (newSerialIter bs) = Ret ((None, sampleFields), mkSerialIter (reverse bs) []).
Proof.
  apply (object_roundtrip sampleSettings (loadSigned 4) (loadSigned 8) None (None, sampleFields));
    [apply loadSigned_loads; lia..|exact sampleFree_ok].
Defined.

(** The fields of the sample with a memo field that is absent, under the template. *)
Definition sampleBytes : Blob := match addObject true (None, sampleFields) [] with Ret bs => bs | Throw _ => [] end.

Lemma sampleTemplate_proper : properTemplate sampleTemplate.
Proof. split; [apply (bool_decide_unpack _); vm_compute; exact I|]. repeat (constructor; [apply (bool_decide_unpack _); vm_compute; exact I|]). constructor. Qed.

Lemma sampleBytes_bytes : Forall is_byte sampleBytes.
Proof.
  assert (forallb (fun b => (0 <=? b) && (b <? 256)) sampleBytes = true) as E by (vm_compute; reflexivity).
  rewrite forallb_forall in E. apply Forall_forall. intros b Hb. apply list_elem_of_In in Hb. specialize (E b Hb).
  unfold is_byte. lia.
Qed.

Definition sampleRead : option (Object * SerialIter) :=
  match readAs sampleSettings (loadSigned 4) (loadSigned 8) (Some sampleTemplate) (newSerialIter sampleBytes) with
  | Ret r => Some r
  | Throw _ => None
  end.

Lemma object_read_sound_witness :
  exists o it, sampleRead = Some (o, it) /\ length o.2 = 6%nat /\ soundObject (soundValue 10) (Some sampleTemplate) o.
Proof.
  assert (exists o it, sampleRead = Some (o, it) /\ length o.2 = 6%nat) as (o & it & E & El)
    by (eexists _, _; split; vm_compute; reflexivity).
  exists o, it. split; [exact E|split; [exact El|]].
  apply (object_read_sound sampleSettings (loadSigned 4) (loadSigned 8) (Some sampleTemplate) sampleBytes o it).
  - intros t' [= <-]. exact sampleTemplate_proper.
  - exact sampleBytes_bytes.
  - unfold sampleRead in E. destruct (readAs _ _ _ _ _) as [w|r]; [discriminate E|]. injection E as ->. reflexivity.
Defined.

Lemma object_read_ends_witness :
  match readAs sampleSettings (loadSigned 4) (loadSigned 8) (Some sampleTemplate) (newSerialIter sampleBytes) with
  | Throw what => what <> "out of fuel"%string
  | Ret (_, it) => sampleBytes = reverse (behind it) ++ ahead it
  end.
Proof.
  apply (object_read_ends sampleSettings (loadSigned 4) (loadSigned 8) (Some sampleTemplate) sampleBytes).
  - intros t' [= <-]. exact sampleTemplate_proper.
  - exact sampleBytes_bytes.
Defined.

(** The signed bytes of a transaction with its signature and without. *)
Definition signedSample : Object := (None, (getFieldByName "TxnSignature", Leaf (STBlob [1; 2; 3])) :: reverse sampleFields).

Lemma serialization_canonical_witness : addObject false signedSample [] = addObject false (None, sampleFields) [].
Proof.
  apply (serialization_canonical false signedSample (None, sampleFields)).
  - apply (bool_decide_unpack _). vm_compute. exact I.
  - etransitivity; [|apply reverse_Permutation]. apply Permutation_refl'. vm_compute. reflexivity.
Defined.
