(* ===== verification/Formats.v ===== *)
(** * Formats of transactions, ledger entries and validations

    Models [TxFormats.cpp], [LedgerFormats.cpp] and [KnownFormats.h] with the
    tables of [include/xrpl/protocol/detail/transactions.macro] and
    [ledger_entries.macro], and the format of [STValidation.cpp].  An entry is
    its name, its type and its own fields with their styles. *)

From stdpp Require Import strings.
From S2P Require Import Prelude Outcome SFields STObject.

Definition transactionEntries1 : list (string * Z * list (string * SOEStyle)) :=
  [ ("Payment", 0, [
       ("Destination", soeREQUIRED); ("Amount", soeREQUIRED); ("SendMax", soeOPTIONAL);
       ("Paths", soeDEFAULT); ("InvoiceID", soeOPTIONAL); ("DestinationTag", soeOPTIONAL);
       ("DeliverMin", soeOPTIONAL); ("CredentialIDs", soeOPTIONAL); ("DomainID", soeOPTIONAL)])
  ; ("EscrowCreate", 1, [
       ("Destination", soeREQUIRED); ("Amount", soeREQUIRED); ("Condition", soeOPTIONAL);
       ("CancelAfter", soeOPTIONAL); ("FinishAfter", soeOPTIONAL); ("DestinationTag", soeOPTIONAL)])
  ; ("EscrowFinish", 2, [
       ("Owner", soeREQUIRED); ("OfferSequence", soeREQUIRED); ("Fulfillment", soeOPTIONAL);
       ("Condition", soeOPTIONAL); ("CredentialIDs", soeOPTIONAL)])
  ; ("AccountSet", 3, [
       ("EmailHash", soeOPTIONAL); ("WalletLocator", soeOPTIONAL); ("WalletSize", soeOPTIONAL);
       ("MessageKey", soeOPTIONAL); ("Domain", soeOPTIONAL); ("TransferRate", soeOPTIONAL);
       ("SetFlag", soeOPTIONAL); ("ClearFlag", soeOPTIONAL); ("TickSize", soeOPTIONAL);
       ("NFTokenMinter", soeOPTIONAL); ("ExclusionAdd", soeOPTIONAL); ("ExclusionRemove", soeOPTIONAL)])
  ; ("EscrowCancel", 4, [
       ("Owner", soeREQUIRED); ("OfferSequence", soeREQUIRED)])
  ; ("SetRegularKey", 5, [
       ("RegularKey", soeOPTIONAL)])
  ; ("OfferCreate", 7, [
       ("TakerPays", soeREQUIRED); ("TakerGets", soeREQUIRED); ("Expiration", soeOPTIONAL);
       ("OfferSequence", soeOPTIONAL); ("DomainID", soeOPTIONAL)])
  ; ("OfferCancel", 8, [
       ("OfferSequence", soeREQUIRED)])
  ; ("TicketCreate", 10, [
       ("TicketCount", soeREQUIRED)]) ].

Definition transactionEntries2 : list (string * Z * list (string * SOEStyle)) :=
  [ ("SignerListSet", 12, [
       ("SignerQuorum", soeREQUIRED); ("SignerEntries", soeOPTIONAL)])
  ; ("PaymentChannelCreate", 13, [
       ("Destination", soeREQUIRED); ("Amount", soeREQUIRED); ("SettleDelay", soeREQUIRED);
       ("PublicKey", soeREQUIRED); ("CancelAfter", soeOPTIONAL); ("DestinationTag", soeOPTIONAL)])
  ; ("PaymentChannelFund", 14, [
       ("Channel", soeREQUIRED); ("Amount", soeREQUIRED); ("Expiration", soeOPTIONAL)])
  ; ("PaymentChannelClaim", 15, [
       ("Channel", soeREQUIRED); ("Amount", soeOPTIONAL); ("Balance", soeOPTIONAL);
       ("Signature", soeOPTIONAL); ("PublicKey", soeOPTIONAL); ("CredentialIDs", soeOPTIONAL)])
  ; ("CheckCreate", 16, [
       ("Destination", soeREQUIRED); ("SendMax", soeREQUIRED); ("Expiration", soeOPTIONAL);
       ("DestinationTag", soeOPTIONAL); ("InvoiceID", soeOPTIONAL)])
  ; ("CheckCash", 17, [
       ("CheckID", soeREQUIRED); ("Amount", soeOPTIONAL); ("DeliverMin", soeOPTIONAL)])
  ; ("CheckCancel", 18, [
       ("CheckID", soeREQUIRED)])
  ; ("DepositPreauth", 19, [
       ("Authorize", soeOPTIONAL); ("Unauthorize", soeOPTIONAL); ("AuthorizeCredentials", soeOPTIONAL);
       ("UnauthorizeCredentials", soeOPTIONAL)])
  ; ("TrustSet", 20, [
       ("LimitAmount", soeOPTIONAL); ("QualityIn", soeOPTIONAL); ("QualityOut", soeOPTIONAL)])
  ; ("AccountDelete", 21, [
       ("Destination", soeREQUIRED); ("DestinationTag", soeOPTIONAL); ("CredentialIDs", soeOPTIONAL)]) ].

Definition transactionEntries3 : list (string * Z * list (string * SOEStyle)) :=
  [ ("NFTokenMint", 25, [
       ("NFTokenTaxon", soeREQUIRED); ("TransferFee", soeOPTIONAL); ("Issuer", soeOPTIONAL);
       ("URI", soeOPTIONAL); ("Amount", soeOPTIONAL); ("Destination", soeOPTIONAL);
       ("Expiration", soeOPTIONAL)])
  ; ("NFTokenBurn", 26, [
       ("NFTokenID", soeREQUIRED); ("Owner", soeOPTIONAL)])
  ; ("NFTokenCreateOffer", 27, [
       ("NFTokenID", soeREQUIRED); ("Amount", soeREQUIRED); ("Destination", soeOPTIONAL);
       ("Owner", soeOPTIONAL); ("Expiration", soeOPTIONAL)])
  ; ("NFTokenCancelOffer", 28, [
       ("NFTokenOffers", soeREQUIRED)])
  ; ("NFTokenAcceptOffer", 29, [
       ("NFTokenBuyOffer", soeOPTIONAL); ("NFTokenSellOffer", soeOPTIONAL);
       ("NFTokenBrokerFee", soeOPTIONAL)])
  ; ("Clawback", 30, [
       ("Amount", soeREQUIRED); ("Holder", soeOPTIONAL)])
  ; ("AMMClawback", 31, [
       ("Holder", soeREQUIRED); ("Asset", soeREQUIRED); ("Asset2", soeREQUIRED); ("Amount", soeOPTIONAL)])
  ; ("AMMCreate", 35, [
       ("Amount", soeREQUIRED); ("Amount2", soeREQUIRED); ("TradingFee", soeREQUIRED)])
  ; ("AMMDeposit", 36, [
       ("Asset", soeREQUIRED); ("Asset2", soeREQUIRED); ("Amount", soeOPTIONAL); ("Amount2", soeOPTIONAL);
       ("EPrice", soeOPTIONAL); ("LPTokenOut", soeOPTIONAL); ("TradingFee", soeOPTIONAL)])
  ; ("AMMWithdraw", 37, [
       ("Asset", soeREQUIRED); ("Asset2", soeREQUIRED); ("Amount", soeOPTIONAL); ("Amount2", soeOPTIONAL);
       ("EPrice", soeOPTIONAL); ("LPTokenIn", soeOPTIONAL)]) ].

Definition transactionEntries4 : list (string * Z * list (string * SOEStyle)) :=
  [ ("AMMVote", 38, [
       ("Asset", soeREQUIRED); ("Asset2", soeREQUIRED); ("TradingFee", soeREQUIRED)])
  ; ("AMMBid", 39, [
       ("Asset", soeREQUIRED); ("Asset2", soeREQUIRED); ("BidMin", soeOPTIONAL); ("BidMax", soeOPTIONAL);
       ("AuthAccounts", soeOPTIONAL)])
  ; ("AMMDelete", 40, [
       ("Asset", soeREQUIRED); ("Asset2", soeREQUIRED)])
  ; ("XChainCreateClaimID", 41, [
       ("XChainBridge", soeREQUIRED); ("SignatureReward", soeREQUIRED); ("OtherChainSource", soeREQUIRED)])
  ; ("XChainCommit", 42, [
       ("XChainBridge", soeREQUIRED); ("XChainClaimID", soeREQUIRED); ("Amount", soeREQUIRED);
       ("OtherChainDestination", soeOPTIONAL)])
  ; ("XChainClaim", 43, [
       ("XChainBridge", soeREQUIRED); ("XChainClaimID", soeREQUIRED); ("Destination", soeREQUIRED);
       ("DestinationTag", soeOPTIONAL); ("Amount", soeREQUIRED)])
  ; ("XChainAccountCreateCommit", 44, [
       ("XChainBridge", soeREQUIRED); ("Destination", soeREQUIRED); ("Amount", soeREQUIRED);
       ("SignatureReward", soeREQUIRED)])
  ; ("XChainAddClaimAttestation", 45, [
       ("XChainBridge", soeREQUIRED); ("AttestationSignerAccount", soeREQUIRED); ("PublicKey", soeREQUIRED);
       ("Signature", soeREQUIRED); ("OtherChainSource", soeREQUIRED); ("Amount", soeREQUIRED);
       ("AttestationRewardAccount", soeREQUIRED); ("WasLockingChainSend", soeREQUIRED);
       ("XChainClaimID", soeREQUIRED); ("Destination", soeOPTIONAL)])
  ; ("XChainAddAccountCreateAttestation", 46, [
       ("XChainBridge", soeREQUIRED); ("AttestationSignerAccount", soeREQUIRED); ("PublicKey", soeREQUIRED);
       ("Signature", soeREQUIRED); ("OtherChainSource", soeREQUIRED); ("Amount", soeREQUIRED);
       ("AttestationRewardAccount", soeREQUIRED); ("WasLockingChainSend", soeREQUIRED);
       ("XChainAccountCreateCount", soeREQUIRED); ("Destination", soeREQUIRED);
       ("SignatureReward", soeREQUIRED)])
  ; ("XChainModifyBridge", 47, [
       ("XChainBridge", soeREQUIRED); ("SignatureReward", soeOPTIONAL);
       ("MinAccountCreateAmount", soeOPTIONAL)]) ].

Definition transactionEntries5 : list (string * Z * list (string * SOEStyle)) :=
  [ ("XChainCreateBridge", 48, [
       ("XChainBridge", soeREQUIRED); ("SignatureReward", soeREQUIRED);
       ("MinAccountCreateAmount", soeOPTIONAL)])
  ; ("DIDSet", 49, [
       ("DIDDocument", soeOPTIONAL); ("URI", soeOPTIONAL); ("Data", soeOPTIONAL)])
  ; ("DIDDelete", 50, [])
  ; ("OracleSet", 51, [
       ("OracleDocumentID", soeREQUIRED); ("Provider", soeOPTIONAL); ("URI", soeOPTIONAL);
       ("AssetClass", soeOPTIONAL); ("LastUpdateTime", soeREQUIRED); ("PriceDataSeries", soeREQUIRED)])
  ; ("OracleDelete", 52, [
       ("OracleDocumentID", soeREQUIRED)])
  ; ("LedgerStateFix", 53, [
       ("LedgerFixType", soeREQUIRED); ("Owner", soeOPTIONAL)])
  ; ("MPTokenIssuanceCreate", 54, [
       ("AssetScale", soeOPTIONAL); ("TransferFee", soeOPTIONAL); ("MaximumAmount", soeOPTIONAL);
       ("MPTokenMetadata", soeOPTIONAL); ("DomainID", soeOPTIONAL); ("MutableFlags", soeOPTIONAL)])
  ; ("MPTokenIssuanceDestroy", 55, [
       ("MPTokenIssuanceID", soeREQUIRED)])
  ; ("MPTokenIssuanceSet", 56, [
       ("MPTokenIssuanceID", soeREQUIRED); ("Holder", soeOPTIONAL); ("DomainID", soeOPTIONAL);
       ("MPTokenMetadata", soeOPTIONAL); ("TransferFee", soeOPTIONAL); ("MutableFlags", soeOPTIONAL)])
  ; ("MPTokenAuthorize", 57, [
       ("MPTokenIssuanceID", soeREQUIRED); ("Holder", soeOPTIONAL)])
  ; ("CredentialCreate", 58, [
       ("Subject", soeREQUIRED); ("CredentialType", soeREQUIRED); ("Expiration", soeOPTIONAL);
       ("URI", soeOPTIONAL)]) ].

Definition transactionEntries6 : list (string * Z * list (string * SOEStyle)) :=
  [ ("CredentialAccept", 59, [
       ("Issuer", soeREQUIRED); ("CredentialType", soeREQUIRED)])
  ; ("CredentialDelete", 60, [
       ("Subject", soeOPTIONAL); ("Issuer", soeOPTIONAL); ("CredentialType", soeREQUIRED)])
  ; ("NFTokenModify", 61, [
       ("NFTokenID", soeREQUIRED); ("Owner", soeOPTIONAL); ("URI", soeOPTIONAL)])
  ; ("PermissionedDomainSet", 62, [
       ("DomainID", soeOPTIONAL); ("AcceptedCredentials", soeREQUIRED)])
  ; ("PermissionedDomainDelete", 63, [
       ("DomainID", soeREQUIRED)])
  ; ("DelegateSet", 64, [
       ("Authorize", soeREQUIRED); ("Permissions", soeREQUIRED)])
  ; ("VaultCreate", 65, [
       ("Asset", soeREQUIRED); ("AssetsMaximum", soeOPTIONAL); ("MPTokenMetadata", soeOPTIONAL);
       ("DomainID", soeOPTIONAL); ("WithdrawalPolicy", soeOPTIONAL); ("Data", soeOPTIONAL);
       ("Scale", soeOPTIONAL)])
  ; ("VaultSet", 66, [
       ("VaultID", soeREQUIRED); ("AssetsMaximum", soeOPTIONAL); ("DomainID", soeOPTIONAL);
       ("Data", soeOPTIONAL)])
  ; ("VaultDelete", 67, [
       ("VaultID", soeREQUIRED)])
  ; ("VaultDeposit", 68, [
       ("VaultID", soeREQUIRED); ("Amount", soeREQUIRED)])
  ; ("VaultWithdraw", 69, [
       ("VaultID", soeREQUIRED); ("Amount", soeREQUIRED); ("Destination", soeOPTIONAL);
       ("DestinationTag", soeOPTIONAL)]) ].

Definition transactionEntries7 : list (string * Z * list (string * SOEStyle)) :=
  [ ("VaultClawback", 70, [
       ("VaultID", soeREQUIRED); ("Holder", soeREQUIRED); ("Amount", soeOPTIONAL)])
  ; ("Batch", 71, [
       ("RawTransactions", soeREQUIRED); ("BatchSigners", soeOPTIONAL)])
  ; ("LoanBrokerSet", 74, [
       ("VaultID", soeREQUIRED); ("LoanBrokerID", soeOPTIONAL); ("Data", soeOPTIONAL);
       ("ManagementFeeRate", soeOPTIONAL); ("DebtMaximum", soeOPTIONAL); ("CoverRateMinimum", soeOPTIONAL);
       ("CoverRateLiquidation", soeOPTIONAL)])
  ; ("LoanBrokerDelete", 75, [
       ("LoanBrokerID", soeREQUIRED)])
  ; ("LoanBrokerCoverDeposit", 76, [
       ("LoanBrokerID", soeREQUIRED); ("Amount", soeREQUIRED)])
  ; ("LoanBrokerCoverWithdraw", 77, [
       ("LoanBrokerID", soeREQUIRED); ("Amount", soeREQUIRED); ("Destination", soeOPTIONAL);
       ("DestinationTag", soeOPTIONAL)])
  ; ("LoanBrokerCoverClawback", 78, [
       ("LoanBrokerID", soeOPTIONAL); ("Amount", soeOPTIONAL)])
  ; ("LoanSet", 80, [
       ("LoanBrokerID", soeREQUIRED); ("Data", soeOPTIONAL); ("Counterparty", soeOPTIONAL);
       ("CounterpartySignature", soeOPTIONAL); ("LoanOriginationFee", soeOPTIONAL);
       ("LoanServiceFee", soeOPTIONAL); ("LatePaymentFee", soeOPTIONAL); ("ClosePaymentFee", soeOPTIONAL);
       ("OverpaymentFee", soeOPTIONAL); ("InterestRate", soeOPTIONAL); ("LateInterestRate", soeOPTIONAL);
       ("CloseInterestRate", soeOPTIONAL); ("OverpaymentInterestRate", soeOPTIONAL);
       ("PrincipalRequested", soeREQUIRED); ("PaymentTotal", soeOPTIONAL); ("PaymentInterval", soeOPTIONAL);
       ("GracePeriod", soeOPTIONAL)])
  ; ("LoanDelete", 81, [
       ("LoanID", soeREQUIRED)])
  ; ("LoanManage", 82, [
       ("LoanID", soeREQUIRED)]) ].

Definition transactionEntries8 : list (string * Z * list (string * SOEStyle)) :=
  [ ("LoanPay", 84, [
       ("LoanID", soeREQUIRED); ("Amount", soeREQUIRED)])
  ; ("EnableAmendment", 100, [
       ("LedgerSequence", soeREQUIRED); ("Amendment", soeREQUIRED)])
  ; ("SetFee", 101, [
       ("LedgerSequence", soeOPTIONAL); ("BaseFee", soeOPTIONAL); ("ReferenceFeeUnits", soeOPTIONAL);
       ("ReserveBase", soeOPTIONAL); ("ReserveIncrement", soeOPTIONAL); ("BaseFeeDrops", soeOPTIONAL);
       ("ReserveBaseDrops", soeOPTIONAL); ("ReserveIncrementDrops", soeOPTIONAL)])
  ; ("UNLModify", 102, [
       ("UNLModifyDisabling", soeREQUIRED); ("LedgerSequence", soeREQUIRED);
       ("UNLModifyValidator", soeREQUIRED)])
  ; ("ValidatorVote", 1501, [
       ("LedgerSequence", soeREQUIRED); ("LedgerHash", soeREQUIRED); ("ValidatorPublicKey", soeREQUIRED);
       ("ValidationHash", soeREQUIRED); ("CloseTime", soeOPTIONAL); ("ExclusionAdd", soeOPTIONAL);
       ("ExclusionRemove", soeOPTIONAL)]) ].

Definition transactionEntries : list (string * Z * list (string * SOEStyle)) := transactionEntries1 ++ transactionEntries2 ++ transactionEntries3 ++ transactionEntries4 ++ transactionEntries5 ++ transactionEntries6 ++ transactionEntries7 ++ transactionEntries8.

Definition ledgerEntries1 : list (string * Z * list (string * SOEStyle)) :=
  [ ("NFTokenOffer", 55, [
       ("Owner", soeREQUIRED); ("NFTokenID", soeREQUIRED); ("Amount", soeREQUIRED);
       ("OwnerNode", soeREQUIRED); ("NFTokenOfferNode", soeREQUIRED); ("Destination", soeOPTIONAL);
       ("Expiration", soeOPTIONAL); ("PreviousTxnID", soeREQUIRED); ("PreviousTxnLgrSeq", soeREQUIRED)])
  ; ("Check", 67, [
       ("Account", soeREQUIRED); ("Destination", soeREQUIRED); ("SendMax", soeREQUIRED);
       ("Sequence", soeREQUIRED); ("OwnerNode", soeREQUIRED); ("DestinationNode", soeREQUIRED);
       ("Expiration", soeOPTIONAL); ("InvoiceID", soeOPTIONAL); ("SourceTag", soeOPTIONAL);
       ("DestinationTag", soeOPTIONAL); ("PreviousTxnID", soeREQUIRED); ("PreviousTxnLgrSeq", soeREQUIRED)])
  ; ("DID", 73, [
       ("Account", soeREQUIRED); ("DIDDocument", soeOPTIONAL); ("URI", soeOPTIONAL); ("Data", soeOPTIONAL);
       ("OwnerNode", soeREQUIRED); ("PreviousTxnID", soeREQUIRED); ("PreviousTxnLgrSeq", soeREQUIRED)])
  ; ("NegativeUNL", 78, [
       ("DisabledValidators", soeOPTIONAL); ("ValidatorToDisable", soeOPTIONAL);
       ("ValidatorToReEnable", soeOPTIONAL); ("PreviousTxnID", soeOPTIONAL);
       ("PreviousTxnLgrSeq", soeOPTIONAL)])
  ; ("NFTokenPage", 80, [
       ("PreviousPageMin", soeOPTIONAL); ("NextPageMin", soeOPTIONAL); ("NFTokens", soeREQUIRED);
       ("PreviousTxnID", soeREQUIRED); ("PreviousTxnLgrSeq", soeREQUIRED)])
  ; ("SignerList", 83, [
       ("Owner", soeOPTIONAL); ("OwnerNode", soeREQUIRED); ("SignerQuorum", soeREQUIRED);
       ("SignerEntries", soeREQUIRED); ("SignerListID", soeREQUIRED); ("PreviousTxnID", soeREQUIRED);
       ("PreviousTxnLgrSeq", soeREQUIRED)])
  ; ("Ticket", 84, [
       ("Account", soeREQUIRED); ("OwnerNode", soeREQUIRED); ("TicketSequence", soeREQUIRED);
       ("PreviousTxnID", soeREQUIRED); ("PreviousTxnLgrSeq", soeREQUIRED)])
  ; ("AccountRoot", 97, [
       ("Account", soeREQUIRED); ("Sequence", soeREQUIRED); ("Balance", soeREQUIRED);
       ("OwnerCount", soeREQUIRED); ("PreviousTxnID", soeREQUIRED); ("PreviousTxnLgrSeq", soeREQUIRED);
       ("AccountTxnID", soeOPTIONAL); ("RegularKey", soeOPTIONAL); ("EmailHash", soeOPTIONAL);
       ("WalletLocator", soeOPTIONAL); ("WalletSize", soeOPTIONAL); ("MessageKey", soeOPTIONAL);
       ("TransferRate", soeOPTIONAL); ("Domain", soeOPTIONAL); ("TickSize", soeOPTIONAL);
       ("TicketCount", soeOPTIONAL); ("NFTokenMinter", soeOPTIONAL); ("MintedNFTokens", soeDEFAULT);
       ("BurnedNFTokens", soeDEFAULT); ("FirstNFTokenSequence", soeOPTIONAL);
       ("ExclusionList", soeOPTIONAL); ("AMMID", soeOPTIONAL); ("VaultID", soeOPTIONAL);
       ("LoanBrokerID", soeOPTIONAL)]) ].

Definition ledgerEntries2 : list (string * Z * list (string * SOEStyle)) :=
  [ ("DirectoryNode", 100, [
       ("Owner", soeOPTIONAL); ("TakerPaysCurrency", soeOPTIONAL); ("TakerPaysIssuer", soeOPTIONAL);
       ("TakerGetsCurrency", soeOPTIONAL); ("TakerGetsIssuer", soeOPTIONAL); ("ExchangeRate", soeOPTIONAL);
       ("Indexes", soeREQUIRED); ("RootIndex", soeREQUIRED); ("IndexNext", soeOPTIONAL);
       ("IndexPrevious", soeOPTIONAL); ("NFTokenID", soeOPTIONAL); ("PreviousTxnID", soeOPTIONAL);
       ("PreviousTxnLgrSeq", soeOPTIONAL); ("DomainID", soeOPTIONAL)])
  ; ("Amendments", 102, [
       ("Amendments", soeOPTIONAL); ("Majorities", soeOPTIONAL); ("PreviousTxnID", soeOPTIONAL);
       ("PreviousTxnLgrSeq", soeOPTIONAL)])
  ; ("LedgerHashes", 104, [
       ("FirstLedgerSequence", soeOPTIONAL); ("LastLedgerSequence", soeOPTIONAL); ("Hashes", soeREQUIRED)])
  ; ("Bridge", 105, [
       ("Account", soeREQUIRED); ("SignatureReward", soeREQUIRED); ("MinAccountCreateAmount", soeOPTIONAL);
       ("XChainBridge", soeREQUIRED); ("XChainClaimID", soeREQUIRED);
       ("XChainAccountCreateCount", soeREQUIRED); ("XChainAccountClaimCount", soeREQUIRED);
       ("OwnerNode", soeREQUIRED); ("PreviousTxnID", soeREQUIRED); ("PreviousTxnLgrSeq", soeREQUIRED)])
  ; ("Offer", 111, [
       ("Account", soeREQUIRED); ("Sequence", soeREQUIRED); ("TakerPays", soeREQUIRED);
       ("TakerGets", soeREQUIRED); ("BookDirectory", soeREQUIRED); ("BookNode", soeREQUIRED);
       ("OwnerNode", soeREQUIRED); ("PreviousTxnID", soeREQUIRED); ("PreviousTxnLgrSeq", soeREQUIRED);
       ("Expiration", soeOPTIONAL); ("DomainID", soeOPTIONAL); ("AdditionalBooks", soeOPTIONAL)])
  ; ("DepositPreauth", 112, [
       ("Account", soeREQUIRED); ("Authorize", soeOPTIONAL); ("OwnerNode", soeREQUIRED);
       ("PreviousTxnID", soeREQUIRED); ("PreviousTxnLgrSeq", soeREQUIRED);
       ("AuthorizeCredentials", soeOPTIONAL)])
  ; ("XChainOwnedClaimID", 113, [
       ("Account", soeREQUIRED); ("XChainBridge", soeREQUIRED); ("XChainClaimID", soeREQUIRED);
       ("OtherChainSource", soeREQUIRED); ("XChainClaimAttestations", soeREQUIRED);
       ("SignatureReward", soeREQUIRED); ("OwnerNode", soeREQUIRED); ("PreviousTxnID", soeREQUIRED);
       ("PreviousTxnLgrSeq", soeREQUIRED)])
  ; ("RippleState", 114, [
       ("Balance", soeREQUIRED); ("LowLimit", soeREQUIRED); ("HighLimit", soeREQUIRED);
       ("PreviousTxnID", soeREQUIRED); ("PreviousTxnLgrSeq", soeREQUIRED); ("LowNode", soeOPTIONAL);
       ("LowQualityIn", soeOPTIONAL); ("LowQualityOut", soeOPTIONAL); ("HighNode", soeOPTIONAL);
       ("HighQualityIn", soeOPTIONAL); ("HighQualityOut", soeOPTIONAL)])
  ; ("FeeSettings", 115, [
       ("BaseFee", soeOPTIONAL); ("ReferenceFeeUnits", soeOPTIONAL); ("ReserveBase", soeOPTIONAL);
       ("ReserveIncrement", soeOPTIONAL); ("BaseFeeDrops", soeOPTIONAL); ("ReserveBaseDrops", soeOPTIONAL);
       ("ReserveIncrementDrops", soeOPTIONAL); ("PreviousTxnID", soeOPTIONAL);
       ("PreviousTxnLgrSeq", soeOPTIONAL)]) ].

Definition ledgerEntries3 : list (string * Z * list (string * SOEStyle)) :=
  [ ("XChainOwnedCreateAccountClaimID", 116, [
       ("Account", soeREQUIRED); ("XChainBridge", soeREQUIRED); ("XChainAccountCreateCount", soeREQUIRED);
       ("XChainCreateAccountAttestations", soeREQUIRED); ("OwnerNode", soeREQUIRED);
       ("PreviousTxnID", soeREQUIRED); ("PreviousTxnLgrSeq", soeREQUIRED)])
  ; ("Escrow", 117, [
       ("Account", soeREQUIRED); ("Sequence", soeOPTIONAL); ("Destination", soeREQUIRED);
       ("Amount", soeREQUIRED); ("Condition", soeOPTIONAL); ("CancelAfter", soeOPTIONAL);
       ("FinishAfter", soeOPTIONAL); ("SourceTag", soeOPTIONAL); ("DestinationTag", soeOPTIONAL);
       ("OwnerNode", soeREQUIRED); ("PreviousTxnID", soeREQUIRED); ("PreviousTxnLgrSeq", soeREQUIRED);
       ("DestinationNode", soeOPTIONAL); ("TransferRate", soeOPTIONAL); ("IssuerNode", soeOPTIONAL)])
  ; ("PayChannel", 120, [
       ("Account", soeREQUIRED); ("Destination", soeREQUIRED); ("Sequence", soeOPTIONAL);
       ("Amount", soeREQUIRED); ("Balance", soeREQUIRED); ("PublicKey", soeREQUIRED);
       ("SettleDelay", soeREQUIRED); ("Expiration", soeOPTIONAL); ("CancelAfter", soeOPTIONAL);
       ("SourceTag", soeOPTIONAL); ("DestinationTag", soeOPTIONAL); ("OwnerNode", soeREQUIRED);
       ("PreviousTxnID", soeREQUIRED); ("PreviousTxnLgrSeq", soeREQUIRED); ("DestinationNode", soeOPTIONAL)])
  ; ("AMM", 121, [
       ("Account", soeREQUIRED); ("TradingFee", soeDEFAULT); ("VoteSlots", soeOPTIONAL);
       ("AuctionSlot", soeOPTIONAL); ("LPTokenBalance", soeREQUIRED); ("Asset", soeREQUIRED);
       ("Asset2", soeREQUIRED); ("OwnerNode", soeREQUIRED); ("PreviousTxnID", soeOPTIONAL);
       ("PreviousTxnLgrSeq", soeOPTIONAL)])
  ; ("MPTokenIssuance", 126, [
       ("Issuer", soeREQUIRED); ("Sequence", soeREQUIRED); ("TransferFee", soeDEFAULT);
       ("OwnerNode", soeREQUIRED); ("AssetScale", soeDEFAULT); ("MaximumAmount", soeOPTIONAL);
       ("OutstandingAmount", soeREQUIRED); ("LockedAmount", soeOPTIONAL); ("MPTokenMetadata", soeOPTIONAL);
       ("PreviousTxnID", soeREQUIRED); ("PreviousTxnLgrSeq", soeREQUIRED); ("DomainID", soeOPTIONAL);
       ("MutableFlags", soeDEFAULT)])
  ; ("MPToken", 127, [
       ("Account", soeREQUIRED); ("MPTokenIssuanceID", soeREQUIRED); ("MPTAmount", soeDEFAULT);
       ("LockedAmount", soeOPTIONAL); ("OwnerNode", soeREQUIRED); ("PreviousTxnID", soeREQUIRED);
       ("PreviousTxnLgrSeq", soeREQUIRED)])
  ; ("Oracle", 128, [
       ("Owner", soeREQUIRED); ("OracleDocumentID", soeOPTIONAL); ("Provider", soeREQUIRED);
       ("PriceDataSeries", soeREQUIRED); ("AssetClass", soeREQUIRED); ("LastUpdateTime", soeREQUIRED);
       ("URI", soeOPTIONAL); ("OwnerNode", soeREQUIRED); ("PreviousTxnID", soeREQUIRED);
       ("PreviousTxnLgrSeq", soeREQUIRED)])
  ; ("Credential", 129, [
       ("Subject", soeREQUIRED); ("Issuer", soeREQUIRED); ("CredentialType", soeREQUIRED);
       ("Expiration", soeOPTIONAL); ("URI", soeOPTIONAL); ("IssuerNode", soeREQUIRED);
       ("SubjectNode", soeOPTIONAL); ("PreviousTxnID", soeREQUIRED); ("PreviousTxnLgrSeq", soeREQUIRED)])
  ; ("PermissionedDomain", 130, [
       ("Owner", soeREQUIRED); ("Sequence", soeREQUIRED); ("AcceptedCredentials", soeREQUIRED);
       ("OwnerNode", soeREQUIRED); ("PreviousTxnID", soeREQUIRED); ("PreviousTxnLgrSeq", soeREQUIRED)]) ].

Definition ledgerEntries4 : list (string * Z * list (string * SOEStyle)) :=
  [ ("Delegate", 131, [
       ("Account", soeREQUIRED); ("Authorize", soeREQUIRED); ("Permissions", soeREQUIRED);
       ("OwnerNode", soeREQUIRED); ("PreviousTxnID", soeREQUIRED); ("PreviousTxnLgrSeq", soeREQUIRED)])
  ; ("Vault", 132, [
       ("PreviousTxnID", soeREQUIRED); ("PreviousTxnLgrSeq", soeREQUIRED); ("Sequence", soeREQUIRED);
       ("OwnerNode", soeREQUIRED); ("Owner", soeREQUIRED); ("Account", soeREQUIRED); ("Data", soeOPTIONAL);
       ("Asset", soeREQUIRED); ("AssetsTotal", soeDEFAULT); ("AssetsAvailable", soeDEFAULT);
       ("AssetsMaximum", soeDEFAULT); ("LossUnrealized", soeDEFAULT); ("ShareMPTID", soeREQUIRED);
       ("WithdrawalPolicy", soeREQUIRED); ("Scale", soeDEFAULT)])
  ; ("ValidatorVoteStats", 138, [
       ("Account", soeREQUIRED); ("VoteCount", soeREQUIRED); ("OwnerNode", soeREQUIRED);
       ("PreviousTxnID", soeREQUIRED); ("PreviousTxnLgrSeq", soeREQUIRED)])
  ; ("LoanBroker", 136, [
       ("PreviousTxnID", soeREQUIRED); ("PreviousTxnLgrSeq", soeREQUIRED); ("Sequence", soeREQUIRED);
       ("OwnerNode", soeREQUIRED); ("VaultNode", soeREQUIRED); ("VaultID", soeREQUIRED);
       ("Account", soeREQUIRED); ("Owner", soeREQUIRED); ("LoanSequence", soeREQUIRED);
       ("Data", soeDEFAULT); ("ManagementFeeRate", soeDEFAULT); ("OwnerCount", soeDEFAULT);
       ("DebtTotal", soeDEFAULT); ("DebtMaximum", soeDEFAULT); ("CoverAvailable", soeDEFAULT);
       ("CoverRateMinimum", soeDEFAULT); ("CoverRateLiquidation", soeDEFAULT)]) ].

Definition ledgerEntries5 : list (string * Z * list (string * SOEStyle)) :=
  [ ("Loan", 137, [
       ("PreviousTxnID", soeREQUIRED); ("PreviousTxnLgrSeq", soeREQUIRED); ("OwnerNode", soeREQUIRED);
       ("LoanBrokerNode", soeREQUIRED); ("LoanBrokerID", soeREQUIRED); ("LoanSequence", soeREQUIRED);
       ("Borrower", soeREQUIRED); ("LoanOriginationFee", soeDEFAULT); ("LoanServiceFee", soeDEFAULT);
       ("LatePaymentFee", soeDEFAULT); ("ClosePaymentFee", soeDEFAULT); ("OverpaymentFee", soeDEFAULT);
       ("InterestRate", soeDEFAULT); ("LateInterestRate", soeDEFAULT); ("CloseInterestRate", soeDEFAULT);
       ("OverpaymentInterestRate", soeDEFAULT); ("StartDate", soeREQUIRED);
       ("PaymentInterval", soeREQUIRED); ("GracePeriod", soeDEFAULT);
       ("PreviousPaymentDueDate", soeDEFAULT); ("NextPaymentDueDate", soeDEFAULT);
       ("PaymentRemaining", soeDEFAULT); ("PeriodicPayment", soeREQUIRED);
       ("PrincipalOutstanding", soeDEFAULT); ("TotalValueOutstanding", soeDEFAULT);
       ("ManagementFeeOutstanding", soeDEFAULT); ("LoanScale", soeDEFAULT)]) ].

Definition ledgerEntries : list (string * Z * list (string * SOEStyle)) := ledgerEntries1 ++ ledgerEntries2 ++ ledgerEntries3 ++ ledgerEntries4 ++ ledgerEntries5.

(** ** Known formats *)

Record Item := mkItem { soTemplate_ : SOTemplate; name_ : string; type_ : Z }.

(** The fields all transactions and all ledger entries share. *)
Definition txCommonFields : list (string * SOEStyle) :=
  [ ("TransactionType", soeREQUIRED); ("Flags", soeOPTIONAL); ("SourceTag", soeOPTIONAL); ("Account", soeREQUIRED);
    ("Sequence", soeREQUIRED); ("PreviousTxnID", soeOPTIONAL); ("LastLedgerSequence", soeOPTIONAL);
    ("AccountTxnID", soeOPTIONAL); ("Fee", soeREQUIRED); ("OperationLimit", soeOPTIONAL); ("Memos", soeOPTIONAL);
    ("SigningPubKey", soeREQUIRED); ("TicketSequence", soeOPTIONAL); ("TxnSignature", soeOPTIONAL);
    ("Signers", soeOPTIONAL); ("NetworkID", soeOPTIONAL); ("Delegate", soeOPTIONAL) ].

Definition ledgerCommonFields : list (string * SOEStyle) :=
  [ ("LedgerIndex", soeOPTIONAL); ("LedgerEntryType", soeREQUIRED); ("Flags", soeREQUIRED) ].

Definition findByType (type : Z) (formats : list Item) : option Item :=
  List.find (fun i => type_ i =? type) formats.

Definition findByName (name : string) (formats : list Item) : option Item :=
  List.find (fun i => bool_decide (name_ i = name)) formats.

(** [add]: the template is made of the unique and the common fields. *)
Definition addFormat (common : list (string * SOEStyle)) (e : string * Z * list (string * SOEStyle)) (formats : list Item)
    : outcome (list Item) :=
  let '(name, type, unique) := e in
  match findByType type formats with
  | Some _ => Throw "Duplicate key for item"
  | None =>
      newTemplate (map element unique) (map element common) ≫= fun t =>
      Ret (mkItem t name type :: formats)
  end.

Fixpoint addFormats (common : list (string * SOEStyle)) (l : list (string * Z * list (string * SOEStyle)))
    (formats : list Item) : outcome (list Item) :=
  match l with
  | [] => Ret formats
  | e :: l => addFormat common e formats ≫= addFormats common l
  end.

(** The constructors of [TxFormats] and [LedgerFormats]. *)
Definition TxFormats : outcome (list Item) := addFormats txCommonFields transactionEntries [].
Definition LedgerFormats : outcome (list Item) := addFormats ledgerCommonFields ledgerEntries [].

Definition txFormats : list Item :=
  match TxFormats with Ret l => l | Throw _ => [] end.
Definition ledgerFormats : list Item :=
  match LedgerFormats with Ret l => l | Throw _ => [] end.

(** [STValidation::validationFormat]. *)
Definition validationFormat : SOTemplate := map element
  [ ("Flags", soeREQUIRED); ("LedgerHash", soeREQUIRED); ("LedgerSequence", soeREQUIRED); ("CloseTime", soeOPTIONAL);
    ("LoadFee", soeOPTIONAL); ("Amendments", soeOPTIONAL); ("BaseFee", soeOPTIONAL); ("ReserveBase", soeOPTIONAL);
    ("ReserveIncrement", soeOPTIONAL); ("SigningTime", soeREQUIRED); ("SigningPubKey", soeREQUIRED);
    ("Signature", soeREQUIRED); ("ConsensusHash", soeOPTIONAL); ("Cookie", soeDEFAULT); ("ValidatedHash", soeOPTIONAL);
    ("ServerVersion", soeOPTIONAL); ("BaseFeeDrops", soeOPTIONAL); ("ReserveBaseDrops", soeOPTIONAL);
    ("ReserveIncrementDrops", soeOPTIONAL); ("ExclusionAdd", soeOPTIONAL); ("ExclusionRemove", soeOPTIONAL) ].
