(* ===== verification/Keys.v ===== *)
(** * Keys and signatures

    Models [src/libxrpl/protocol/PublicKey.cpp] and the signing functions of
    [SecretKey.cpp]: the types of keys, the canonical forms of signatures, the
    checks around the verification and the signing of digests and messages.  The
    libraries libsecp256k1 and ed25519-donna, and SHA-512, are arguments. *)

From stdpp Require Import strings.
From S2P Require Import Prelude Outcome Serializer SerializerFacts.

(** ** Types of keys *)

Inductive KeyType := secp256k1 | ed25519.

#[export] Instance KeyType_eq_dec : EqDecision KeyType.
Proof. solve_decision. Defined.

Definition publicKeyType (slice : Blob) : option KeyType :=
  if lengthZ slice =? 33 then
    if at_ slice 0 =? 237 then Some ed25519
    else if (at_ slice 0 =? 2) || (at_ slice 0 =? 3) then Some secp256k1
    else None
  else None.

(** ** Canonical signatures *)

Inductive ECDSACanonicality := canonical_ | fullyCanonical.

#[export] Instance ECDSACanonicality_eq_dec : EqDecision ECDSACanonicality.
Proof. solve_decision. Defined.

(** [sigPart]: a number [02 <length> <number>], and what is left of the buffer. *)
Definition sigPart (buf : Blob) : option Blob * Blob :=
  if (lengthZ buf <? 3) || negb (at_ buf 0 =? 2) then (None, buf)
  else
    let len := at_ buf 1 in
    let buf := drop 2 buf in
    if (lengthZ buf <? len) || (len <? 1) || (33 <? len) then (None, buf)
    else if negb (Z.land (at_ buf 0) 128 =? 0) then (None, buf)
    else if (at_ buf 0 =? 0) && ((len =? 1) || (Z.land (at_ buf 1) 128 =? 0)) then (None, buf)
    else (Some (take (Z.to_nat len) buf), drop (Z.to_nat len) buf).

(** The order of the group. *)
Definition G : Z := 115792089237316195423570985008687907852837564279074904382605163141518161494337.

(** [ecdsaCanonicality]; the number a slice is the hexadecimal form of
    ([sliceToHex]) is [fromBytes] of it. *)
Definition ecdsaCanonicality (sig : Blob) : option ECDSACanonicality :=
  if (lengthZ sig <? 8) || (72 <? lengthZ sig) then None
  else if negb (at_ sig 0 =? 48) || negb (at_ sig 1 =? lengthZ sig - 2) then None
  else
    let '(r, p) := sigPart (drop 2 sig) in
    let '(s, p) := sigPart p in
    match r, s, p with
    | Some r, Some s, [] =>
        let R := fromBytes r in
        if G <=? R then None
        else
          let S := fromBytes s in
          if G <=? S then None
          else
            let Sp := G - S in
            if Sp <? S then Some canonical_ else Some fullyCanonical
    | _, _, _ => None
    end.

(** [std::lexicographical_compare]. *)
Fixpoint lexicographical_compare (a b : Blob) : bool :=
  match a, b with
  | _, [] => false
  | [], _ :: _ => true
  | x :: a, y :: b => if x <? y then true else if y <? x then false else lexicographical_compare a b
  end.

(** The order of the Ed25519 subgroup, big endian. *)
Definition Order : Blob :=
  [16; 0; 0; 0; 0; 0; 0; 0; 0; 0; 0; 0; 0; 0; 0; 0; 20; 222; 249; 222; 162; 247; 156; 214; 88; 18; 99; 26; 92; 245; 211; 237].

Definition ed25519Canonical (sig : Blob) : bool :=
  (lengthZ sig =? 64) && lexicographical_compare (reverse (drop 32 sig)) Order.

(** ** Verification and signing *)

(** What the code uses of the libraries; keys and signatures are the opaque
    values of libsecp256k1. *)
Record library := mkLibrary {
  secp_pubkey : Type;
  secp_signature : Type;
  secp256k1_ec_pubkey_parse : Blob -> option secp_pubkey;
  secp256k1_ecdsa_signature_parse_der : Blob -> option secp_signature;
  secp256k1_ecdsa_signature_serialize_der : secp_signature -> option Blob;
  secp256k1_ecdsa_signature_normalize : secp_signature -> option secp_signature;
  secp256k1_ecdsa_verify : secp_signature -> Blob -> secp_pubkey -> bool;
  secp256k1_ecdsa_sign : Blob -> Blob -> option secp_signature;
  ed25519_sign : Blob -> Blob -> Blob -> Blob;
  ed25519_sign_open : Blob -> Blob -> Blob -> bool;
  sha512Half : Blob -> Blob;
}.

Section Library.
Context (L : library).

Definition verifyDigest (publicKey digest sig : Blob) (mustBeFullyCanonical : bool) : outcome bool :=
  if negb (bool_decide (publicKeyType publicKey = Some secp256k1)) then Throw "sign: secp256k1 required for digest signing"
  else Ret
    match ecdsaCanonicality sig with
    | None => false
    | Some canonicality =>
        if mustBeFullyCanonical && negb (bool_decide (canonicality = fullyCanonical)) then false
        else
          match secp256k1_ec_pubkey_parse L publicKey with
          | None => false
          | Some pubkey_imp =>
              match secp256k1_ecdsa_signature_parse_der L sig with
              | None => false
              | Some sig_imp =>
                  if negb (bool_decide (canonicality = fullyCanonical)) then
                    match secp256k1_ecdsa_signature_normalize L sig_imp with
                    | None => false
                    | Some sig_norm => secp256k1_ecdsa_verify L sig_norm digest pubkey_imp
                    end
                  else secp256k1_ecdsa_verify L sig_imp digest pubkey_imp
              end
          end
    end.

Definition verify (publicKey m sig : Blob) (mustBeFullyCanonical : bool) : outcome bool :=
  match publicKeyType publicKey with
  | Some secp256k1 => verifyDigest publicKey (sha512Half L m) sig mustBeFullyCanonical
  | Some ed25519 =>
      Ret (if negb (ed25519Canonical sig) then false else ed25519_sign_open L m (drop 1 publicKey) sig)
  | None => Ret false
  end.

(** The signature of a digest with [secp256k1]. *)
Definition ecdsaSign (sk digest : Blob) : outcome Blob :=
  require "sign: secp256k1_ecdsa_sign failed" (secp256k1_ecdsa_sign L digest sk) ≫= fun sig_imp =>
  require "sign: secp256k1_ecdsa_signature_serialize_der failed" (secp256k1_ecdsa_signature_serialize_der L sig_imp).

Definition signDigest (pk sk digest : Blob) : outcome Blob :=
  if negb (bool_decide (publicKeyType pk = Some secp256k1)) then Throw "sign: secp256k1 required for digest signing"
  else ecdsaSign sk digest.

Definition sign (pk sk m : Blob) : outcome Blob :=
  require "sign: invalid type" (publicKeyType pk) ≫= fun type =>
  match type with
  | ed25519 => Ret (ed25519_sign L m sk (drop 1 pk))
  | secp256k1 => ecdsaSign sk (sha512Half L m)
  end.

End Library.
