(* ===== verification/KeysProperties.v ===== *)
(** * Properties of keys and signatures *)

From stdpp Require Import strings.
From S2P Require Import Prelude Outcome Serializer SerializerFacts Keys.

(** ** The encoding of a signature *)

(** A positive number in the least number of bytes of which the first has its
    sign bit clear, and the signature of two numbers. *)
Definition derBytes (z : Z) : Blob := bigEndian (Z.to_nat ((Z.log2 z + 1) / 8 + 1)) z.
Definition derNumber (z : Z) : Blob := 2 :: lengthZ (derBytes z) :: derBytes z.
Definition derSignature (r s : Z) : Blob := let p := derNumber r ++ derNumber s in 48 :: lengthZ p :: p.

Lemma length_derBytes z : 0 < z -> lengthZ (derBytes z) = (Z.log2 z + 1) / 8 + 1.
Proof.
  intros Hz. unfold lengthZ, derBytes. rewrite length_bigEndian. pose proof (Z.log2_nonneg z) as Hl.
  rewrite Z2Nat.id; [done|]. pose proof (Z.div_pos (Z.log2 z + 1) 8). lia.
Qed.

(** The number of bytes in terms of the size of the number. *)
Lemma der_length z n :
  0 < z -> 1 <= n -> (Z.log2 z + 1) / 8 + 1 = n <-> (n = 1 \/ 2 ^ (8 * n - 9) <= z) /\ z < 2 ^ (8 * n - 1).
Proof.
  intros Hz Hn. pose proof (Z.log2_nonneg z) as Hl. rewrite (Z.log2_lt_pow2 z) by done.
  destruct (decide (n = 1)) as [->|Hn1].
  - split; [|intros [_ H]]; [|rewrite Z.div_small by lia; lia]. intros E. split; [by left|].
    pose proof (Z.div_mod (Z.log2 z + 1) 8 ltac:(lia)). pose proof (Z.mod_pos_bound (Z.log2 z + 1) 8 ltac:(lia)). lia.
  - rewrite (Z.log2_le_pow2 z) by done. split.
    + intros E. pose proof (Z.div_mod (Z.log2 z + 1) 8 ltac:(lia)). pose proof (Z.mod_pos_bound (Z.log2 z + 1) 8 ltac:(lia)). lia.
    + intros [[?|H1] H2]; [done|]. symmetry. apply Z.sub_move_r. apply Z.div_unique with (Z.log2 z + 1 - 8 * (n - 1)); lia.
Qed.

(** The bytes of a number that [sigPart] accepts. *)
Definition minimal (bs : Blob) : bool :=
  match bs with
  | [] => false
  | b0 :: tl => (b0 <? 128) && negb ((b0 =? 0) && match tl with [] => true | b1 :: _ => b1 <? 128 end)
  end.

Lemma pow_bytes n : 0 <= n -> 256 ^ n = 2 ^ (8 * n).
Proof. intros Hn. change 256 with (2 ^ 8). by rewrite <- Z.pow_mul_r by lia. Qed.

Lemma pow_half n : 1 <= n -> 2 ^ (8 * n - 1) = 128 * 256 ^ (n - 1).
Proof. intros Hn. rewrite pow_bytes by lia. change 128 with (2 ^ 7). rewrite <- Z.pow_add_r by lia. f_equal. lia. Qed.

Lemma minimal_iff bs :
  Forall is_byte bs -> bs <> [] ->
  minimal bs = true <-> 0 < fromBytes bs /\ lengthZ bs = (Z.log2 (fromBytes bs) + 1) / 8 + 1.
Proof.
  intros Hb Hne. destruct bs as [|b0 tl]; [done|]. apply Forall_cons in Hb as [H0 Htl]. pose proof (fromBytes_range tl Htl) as Hr.
  rewrite fromBytes_cons. unfold is_byte in H0. assert (0 <= lengthZ tl) as Hl by (unfold lengthZ; lia).
  assert (lengthZ (b0 :: tl) = lengthZ tl + 1) as -> by (unfold lengthZ; cbn; lia).
  pose proof (Z.pow_pos_nonneg 256 (lengthZ tl) ltac:(lia) Hl) as Hp. unfold minimal.
  assert (forall z, 0 < z -> lengthZ tl + 1 = (Z.log2 z + 1) / 8 + 1 <->
    (lengthZ tl = 0 \/ 128 * 256 ^ (lengthZ tl - 1) <= z) /\ z < 128 * 256 ^ lengthZ tl) as Hlen.
  { intros z Hz. split.
    - intros E. symmetry in E. apply der_length in E as [E1 E2]; [|lia..]. rewrite pow_half in E2 by lia. rewrite Z.add_simpl_r in E2. split; [|done].
      destruct E1 as [?|E1]; [left; lia|]. destruct (decide (lengthZ tl = 0)) as [?|Hz']; [by left|right]. rewrite <- pow_half by lia.
      by replace (8 * lengthZ tl - 1) with (8 * (lengthZ tl + 1) - 9) by lia.
    - intros [E1 E2]. symmetry. apply der_length; [lia..|]. rewrite pow_half, Z.add_simpl_r by lia. split; [|done].
      destruct E1 as [?|E1]; [left; lia|]. destruct (decide (lengthZ tl = 0)) as [?|Hz']; [left; lia|right].
      rewrite <- pow_half in E1 by lia. by replace (8 * (lengthZ tl + 1) - 9) with (8 * lengthZ tl - 1) by lia. }
  destruct (decide (b0 = 0)) as [->|Hb0].
  - destruct tl as [|b1 tl2]; [cbn; lia|]. apply Forall_cons in Htl as [H1 Htl]. unfold is_byte in H1. pose proof (fromBytes_range tl2 Htl) as Hr2.
    assert (lengthZ (b1 :: tl2) = lengthZ tl2 + 1) as El by (unfold lengthZ; cbn; lia). rewrite fromBytes_cons in *.
    pose proof (Z.pow_pos_nonneg 256 (lengthZ tl2) ltac:(lia) ltac:(unfold lengthZ; lia)) as Hp2.
    split.
    + intros H. assert (128 <= b1) as Hb1 by lia. split; [nia|]. apply Hlen; [nia|]. rewrite El, Z.add_simpl_r. split; [right; nia|].
      rewrite Z.pow_add_r by (unfold lengthZ; lia). nia.
    + intros [Hz E]. apply Hlen in E as [E _]; [|lia]. rewrite El, Z.add_simpl_r in E. destruct E as [E|E]; [unfold lengthZ in E; lia|].
      assert (128 <= b1) by nia. lia.
  - split.
    + intros H. assert (b0 < 128) by lia. split; [nia|]. apply Hlen; [nia|]. split; [|nia].
      destruct (decide (lengthZ tl = 0)) as [?|Hn]; [by left|right]. replace (lengthZ tl) with (1 + (lengthZ tl - 1)) at 2 by lia.
      rewrite Z.pow_add_r by lia. pose proof (Z.pow_pos_nonneg 256 (lengthZ tl - 1) ltac:(lia) ltac:(lia)). nia.
    + intros [Hz E]. apply Hlen in E as [_ E]; [|lia]. assert (b0 < 128) by nia. lia.
Qed.

Lemma high_bit b : is_byte b -> (Z.land b 128 =? 0) = (b <? 128).
Proof.
  assert (forallb (fun b => Bool.eqb (Z.land b 128 =? 0) (b <? 128)) (seqZ 0 256) = true) as H by (vm_compute; reflexivity).
  intros Hb. rewrite forallb_forall in H. apply Bool.eqb_prop, H, list_elem_of_In, elem_of_seqZ. unfold is_byte in Hb. lia.
Qed.

(** [sigPart] on a buffer of at least two bytes. *)
Lemma sigPart_minimal tag len body :
  Forall is_byte body ->
  sigPart (tag :: len :: body) =
  if (tag =? 2) && (1 <=? len) && (len <=? 33) && (len <=? lengthZ body) && minimal (take (Z.to_nat len) body)
  then (Some (take (Z.to_nat len) body), drop (Z.to_nat len) body)
  else (None, if (tag =? 2) && (1 <=? lengthZ body) then body else tag :: len :: body).
Proof.
  intros Hb. unfold sigPart. assert (lengthZ (tag :: len :: body) = lengthZ body + 2) as -> by (unfold lengthZ; cbn; lia).
  change (at_ (tag :: len :: body) 0) with tag. change (at_ (tag :: len :: body) 1) with len. change (drop 2 (tag :: len :: body)) with body.
  destruct (tag =? 2) eqn:Et; cbn [negb andb]; [|by rewrite orb_true_r]. rewrite orb_false_r.
  destruct body as [|b0 tl].
  { cbn [lengthZ length take]. rewrite take_nil. cbn [minimal]. by rewrite andb_false_r. }
  assert (1 <= lengthZ (b0 :: tl)) as Hl by (unfold lengthZ; cbn; lia). rewrite (proj2 (Z.ltb_ge _ 3)), (proj2 (Z.leb_le 1 _) Hl) by lia.
  destruct (Z.leb_spec 1 len) as [H1|H1]; [|by rewrite (proj2 (Z.ltb_lt len 1)), orb_true_r by lia].
  destruct (Z.leb_spec len 33) as [H2|H2]; [|by rewrite (proj2 (Z.ltb_lt 33 len)), orb_true_r by lia].
  destruct (Z.leb_spec len (lengthZ (b0 :: tl))) as [H3|H3]; [|by rewrite (proj2 (Z.ltb_lt _ len)) by lia].
  rewrite (proj2 (Z.ltb_ge _ _) H3), (proj2 (Z.ltb_ge _ _) H1), (proj2 (Z.ltb_ge _ _) H2). cbn [orb andb].
  apply Forall_cons in Hb as [H0 Htl]. change (at_ (b0 :: tl) 0) with b0. rewrite high_bit by done.
  assert (Z.to_nat len = S (Z.to_nat (len - 1))) as -> by lia. cbn [take minimal]. destruct (b0 <? 128); [|done]. cbn [negb andb].
  destruct (b0 =? 0); [|done]. cbn [andb]. destruct (Z.eqb_spec len 1) as [->|Hn1]; [done|]. cbn [orb].
  assert (Z.to_nat (len - 1) = S (Z.to_nat (len - 2))) as -> by lia.
  destruct tl as [|b1 tl]; [unfold lengthZ in H3; cbn in H3; lia|]. apply Forall_cons in Htl as [Hb1 _].
  change (at_ (b0 :: b1 :: tl) 1) with b1. rewrite high_bit by done. cbn [take]. by destruct (b1 <? 128).
Qed.

Lemma sigPart_sound buf number rest :
  Forall is_byte buf -> sigPart buf = (Some number, rest) ->
  exists z, 0 < z /\ number = derBytes z /\ buf = derNumber z ++ rest.
Proof.
  intros Hb E. destruct buf as [|tag [|len body]]; [done..|]. apply Forall_cons in Hb as [_ Hb]. apply Forall_cons in Hb as [_ Hb].
  rewrite sigPart_minimal in E by done. case_match eqn:Ec; [|done]. rewrite !andb_true_iff in Ec. destruct Ec as [[[[E1 E2] E3] E4] Em].
  injection E as En Er. set (n := Z.to_nat len) in *. assert (length (take n body) = n) as El by (rewrite length_take; unfold lengthZ in E4; lia).
  apply minimal_iff in Em as [Hz Hlen]; [|by apply Forall_take|intros E0; rewrite E0 in El; cbn in El; lia]. rewrite En in *.
  assert (number = derBytes (fromBytes number)) as Ed.
  { unfold derBytes. rewrite <- Hlen. unfold lengthZ. rewrite Nat2Z.id, bigEndian_fromBytes; [done|]. rewrite <- En. by apply Forall_take. }
  exists (fromBytes number). split_and!; [done..|]. unfold derNumber. rewrite <- Ed. cbn. f_equal; [lia|]. f_equal; [unfold lengthZ; lia|].
  rewrite <- En, <- Er. by rewrite take_drop.
Qed.

Lemma derBytes_value z : 0 < z -> fromBytes (derBytes z) = z.
Proof.
  intros Hz. pose proof (Z.log2_nonneg z) as Hlog. pose proof (Z.div_pos (Z.log2 z + 1) 8 ltac:(lia) ltac:(lia)) as Hq.
  unfold derBytes. rewrite fromBytes_bigEndian, Z2Nat.id, pow_bytes by lia. apply Z.mod_small. split; [lia|].
  apply Z.log2_lt_pow2; [done|]. pose proof (Z.div_mod (Z.log2 z + 1) 8 ltac:(lia)). pose proof (Z.mod_pos_bound (Z.log2 z + 1) 8 ltac:(lia)). lia.
Qed.

Lemma sigPart_complete z rest :
  0 < z -> lengthZ (derBytes z) <= 33 -> Forall is_byte rest -> sigPart (derNumber z ++ rest) = (Some (derBytes z), rest).
Proof.
  intros Hz Hl Hr. unfold derNumber. cbn [app]. assert (Forall is_byte (derBytes z)) as Hd by apply bytes_bigEndian.
  rewrite sigPart_minimal by (by apply Forall_app). assert (Z.to_nat (lengthZ (derBytes z)) = length (derBytes z)) as -> by (unfold lengthZ; lia).
  rewrite take_app_length, drop_app_length. pose proof (length_derBytes z Hz) as Hn. pose proof (Z.log2_nonneg z) as Hlog.
  pose proof (Z.div_pos (Z.log2 z + 1) 8 ltac:(lia) ltac:(lia)) as Hq.
  pose proof (derBytes_value z Hz) as Hv.
  assert (minimal (derBytes z) = true) as ->.
  { apply minimal_iff; [done| |by rewrite Hv]. intros E. rewrite E in Hn. change (lengthZ []) with 0 in Hn. lia. }
  rewrite (proj2 (Z.leb_le 1 _)), (proj2 (Z.leb_le _ 33)), (proj2 (Z.leb_le _ (lengthZ _))) by (unfold lengthZ in *; rewrite ?length_app; lia).
  done.
Qed.

Lemma derNumber_bytes z : 0 < z -> lengthZ (derBytes z) <= 33 -> Forall is_byte (derNumber z).
Proof.
  intros Hz Hl. unfold derNumber. assert (0 <= lengthZ (derBytes z)) by (unfold lengthZ; lia).
  constructor; [unfold is_byte; lia|]. constructor; [unfold is_byte; lia|apply bytes_bigEndian].
Qed.

(** Numbers below the order of the group take 1 to 33 bytes. *)
Lemma derBytes_short z : 0 < z < G -> 1 <= lengthZ (derBytes z) <= 33.
Proof.
  intros Hz. rewrite length_derBytes by lia. assert (Z.log2 z < 256) as Hl.
  { apply Z.log2_lt_pow2; [lia|]. apply Z.lt_trans with G; [lia|]. vm_compute. reflexivity. }
  pose proof (Z.log2_nonneg z). pose proof (Z.div_pos (Z.log2 z + 1) 8 ltac:(lia) ltac:(lia)).
  pose proof (Z.div_le_mono (Z.log2 z + 1) 256 8 ltac:(lia) ltac:(lia)). change (256 / 8) with 32 in *. lia.
Qed.

Lemma length_derNumber z : lengthZ (derNumber z) = lengthZ (derBytes z) + 2.
Proof. unfold lengthZ, derNumber. cbn. lia. Qed.

Lemma length_derParts r s : lengthZ (derNumber r ++ derNumber s) = lengthZ (derNumber r) + lengthZ (derNumber s).
Proof. unfold lengthZ. rewrite length_app. lia. Qed.

Lemma derSignature_canonical r s :
  0 < r < G -> 0 < s < G -> ecdsaCanonicality (derSignature r s) = Some (if G - s <? s then canonical_ else fullyCanonical).
Proof.
  intros Hr Hs. pose proof (derBytes_short r Hr) as Lr. pose proof (derBytes_short s Hs) as Ls. unfold ecdsaCanonicality, derSignature.
  set (p := derNumber r ++ derNumber s). assert (lengthZ p = lengthZ (derBytes r) + lengthZ (derBytes s) + 4) as Lp.
  { subst p. rewrite length_derParts, !length_derNumber. lia. }
  assert (lengthZ (48 :: lengthZ p :: p) = lengthZ p + 2) as -> by (unfold lengthZ; cbn; lia).
  rewrite (proj2 (Z.ltb_ge _ 8)), (proj2 (Z.ltb_ge 72 _)) by lia. cbn [orb].
  change (at_ (48 :: lengthZ p :: p) 0) with 48. change (at_ (48 :: lengthZ p :: p) 1) with (lengthZ p).
  change (drop 2 (48 :: lengthZ p :: p)) with p. rewrite Z.add_simpl_r, !Z.eqb_refl. cbn [negb orb].
  subst p. rewrite sigPart_complete by (try apply derNumber_bytes; lia). rewrite <- (app_nil_r (derNumber s)).
  rewrite sigPart_complete by (try lia; constructor). rewrite !derBytes_value by lia.
  rewrite (proj2 (Z.leb_gt G r)), (proj2 (Z.leb_gt G s)) by lia. by destruct (G - s <? s).
Qed.

Lemma canonical_encoded sig c :
  Forall is_byte sig -> ecdsaCanonicality sig = Some c -> exists r s, 0 < r < G /\ 0 < s < G /\ sig = derSignature r s.
Proof.
  intros Hb. unfold ecdsaCanonicality. destruct ((lengthZ sig <? 8) || (72 <? lengthZ sig)) eqn:El; [done|]. apply orb_false_iff in El as [El _].
  destruct (negb (at_ sig 0 =? 48) || negb (at_ sig 1 =? lengthZ sig - 2)) eqn:Eh; [done|].
  apply orb_false_iff in Eh as [E0%negb_false_iff E1%negb_false_iff]. destruct sig as [|b0 [|b1 p]]; [done..|].
  change (at_ (b0 :: b1 :: p) 0) with b0 in E0. change (at_ (b0 :: b1 :: p) 1) with b1 in E1. change (drop 2 (b0 :: b1 :: p)) with p.
  assert (lengthZ (b0 :: b1 :: p) = lengthZ p + 2) as Elp by (unfold lengthZ; cbn; lia).
  apply Forall_cons in Hb as [_ Hb]. apply Forall_cons in Hb as [_ Hb].
  destruct (sigPart p) as [[r|] p1] eqn:Er; [|by destruct (sigPart p1) as [[]]]. destruct (sigPart p1) as [[s|] p2] eqn:Es; [|done].
  destruct p2 as [|]; [|done]. destruct (sigPart_sound _ _ _ Hb Er) as (zr & Hzr & -> & ->). apply Forall_app in Hb as [_ Hb].
  destruct (sigPart_sound _ _ _ Hb Es) as (zs & Hzs & -> & ->). rewrite !derBytes_value by done.
  destruct (Z.leb_spec G zr); [done|]. destruct (Z.leb_spec G zs); [done|]. intros _. exists zr, zs. split_and!; [done..|].
  rewrite app_nil_r in *. unfold derSignature. f_equal; [lia|]. f_equal. lia.
Qed.

Lemma derSignature_inj r s r' s' :
  0 < r < G -> 0 < s < G -> 0 < r' < G -> 0 < s' < G -> derSignature r s = derSignature r' s' -> r = r' /\ s = s'.
Proof.
  intros Hr Hs Hr' Hs' E. apply (f_equal (drop 2)) in E. unfold derSignature in E. cbn [drop] in E. rewrite !drop_0 in E.
  pose proof (derBytes_short _ Hr). pose proof (derBytes_short _ Hs). pose proof (derBytes_short _ Hr'). pose proof (derBytes_short _ Hs').
  apply (f_equal sigPart) in E. rewrite !sigPart_complete in E by (try apply derNumber_bytes; lia).
  apply pair_equal_spec in E as [E1 E2]. apply (inj Some) in E1. apply (f_equal (drop 2)) in E2. unfold derNumber in E2. cbn [drop] in E2. rewrite !drop_0 in E2.
  apply (f_equal fromBytes) in E1, E2. by rewrite !derBytes_value in E1, E2 by lia.
Qed.

(** C29: a signature is canonical exactly if it is the encoding of two numbers
    from 1 up to the order of the group, and fully canonical exactly if in
    addition the second is at most half the order.  So a pair of numbers has one
    canonical encoding, and of a pair and the one with the second number negated,
    which verifies as well, exactly one is fully canonical: a fully canonical
    signature cannot be turned into another one. *)
Theorem canonical_signatures (sig : Blob) :
  Forall is_byte sig ->
  (forall c, ecdsaCanonicality sig = Some c <->
     exists r s, 0 < r < G /\ 0 < s < G /\ sig = derSignature r s /\ c = if G - s <? s then canonical_ else fullyCanonical) /\
  (forall r s r' s', 0 < r < G -> 0 < s < G -> 0 < r' < G -> 0 < s' < G ->
     sig = derSignature r s -> sig = derSignature r' s' -> r = r' /\ s = s') /\
  (forall r s, 0 < r < G -> 0 < s < G -> sig = derSignature r s ->
     ecdsaCanonicality (derSignature r (G - s)) <> ecdsaCanonicality sig).
Proof.
  intros Hb. split_and!.
  - intros c. split.
    + intros E. destruct (canonical_encoded sig c Hb E) as (r & s & Hr & Hs & ->). rewrite derSignature_canonical in E by done.
      injection E as <-. by exists r, s.
    + intros (r & s & Hr & Hs & -> & ->). by apply derSignature_canonical.
  - intros r s r' s' Hr Hs Hr' Hs' E E'. apply derSignature_inj; congruence.
  - intros r s Hr Hs ->. rewrite !derSignature_canonical by lia. assert (G mod 2 = 1) as Hodd by (vm_compute; reflexivity).
    pose proof (Z.div_mod G 2 ltac:(lia)) as Hdiv. destruct (Z.ltb_spec (G - s) s), (Z.ltb_spec (G - (G - s)) (G - s)); (congruence || lia).
Qed.

Lemma canonical_signatures_witness :
  ecdsaCanonicality (derSignature 5 200) = Some fullyCanonical /\ ecdsaCanonicality (derSignature 5 (G - 200)) <> Some fullyCanonical.
Proof.
  assert (Forall is_byte (derSignature 5 200)) as Hb.
  { vm_compute. repeat (constructor; [split; [discriminate|reflexivity]|]). constructor. }
  destruct (canonical_signatures (derSignature 5 200) Hb) as (H1 & _ & H3).
  assert (ecdsaCanonicality (derSignature 5 200) = Some fullyCanonical) as E.
  { apply H1. exists 5, 200. split_and!; vm_compute; reflexivity. }
  split; [exact E|]. rewrite <- E. apply H3; [split; reflexivity..|reflexivity].
Defined.

(** ** Ed25519 *)

Lemma lexicographical_compare_spec a b :
  length a = length b -> Forall is_byte a -> Forall is_byte b -> lexicographical_compare a b = (fromBytes a <? fromBytes b).
Proof.
  intros Hl Ha. revert b Hl. induction Ha as [|x a Hx Ha IH]; intros [|y b] Hl Hb; try done. cbn [lexicographical_compare].
  apply Forall_cons in Hb as [Hy Hb]. injection Hl as Hl. rewrite !fromBytes_cons. pose proof (fromBytes_range a Ha) as Hra.
  pose proof (fromBytes_range b Hb) as Hrb. assert (lengthZ a = lengthZ b) as El by (unfold lengthZ; lia). rewrite El in *.
  rewrite (IH b Hl Hb). destruct (Z.ltb_spec x y); [symmetry; apply Z.ltb_lt; nia|]. destruct (Z.ltb_spec y x); [symmetry; apply Z.ltb_ge; nia|].
  assert (x = y) as -> by lia. apply eq_bool_prop_intro. split; intros H1; apply Is_true_true in H1; apply Is_true_true; lia.
Qed.

(** An Ed25519 signature is canonical exactly if it has 64 bytes and its
    second half, little endian, is below the order of the group. *)
Theorem ed25519_canonical (sig : Blob) :
  Forall is_byte sig ->
  ed25519Canonical sig = true <->
  lengthZ sig = 64 /\ fromBytes (reverse (drop 32 sig)) < 2 ^ 252 + 27742317777372353535851937790883648493.
Proof.
  intros Hb. unfold ed25519Canonical. rewrite andb_true_iff, Z.eqb_eq.
  assert (fromBytes Order = 2 ^ 252 + 27742317777372353535851937790883648493) as <- by (vm_compute; reflexivity).
  split; intros [Hl H]; (split; [done|]); rewrite lexicographical_compare_spec in * ; try (by apply Z.ltb_lt);
    try (rewrite length_reverse, length_drop; unfold lengthZ in Hl; cbn; lia); try (by apply Forall_reverse, Forall_drop);
    repeat (constructor; [unfold is_byte; lia|]); constructor.
Qed.

Lemma ed25519_canonical_witness : ed25519Canonical (replicate 64 7) = true.
Proof.
  apply (ed25519_canonical (replicate 64 7)); [apply Forall_replicate; unfold is_byte; lia|].
  split; vm_compute; reflexivity.
Defined.

(** ** Signing and verifying *)

(** What the libraries document of the keys they make: the public key can be
    parsed, signing succeeds and gives a signature that the key verifies, with
    the second number in the lower half, which its encoding determines. *)
Definition keyPair (L : library) (pk sk : Blob) : Prop :=
  match publicKeyType pk with
  | None => False
  | Some secp256k1 =>
      exists P, secp256k1_ec_pubkey_parse L pk = Some P /\
        forall digest, exists sig r s,
          secp256k1_ecdsa_sign L digest sk = Some sig /\ secp256k1_ecdsa_verify L sig digest P = true /\
          0 < r < G /\ 0 < s <= G - s /\ secp256k1_ecdsa_signature_serialize_der L sig = Some (derSignature r s) /\
          secp256k1_ecdsa_signature_parse_der L (derSignature r s) = Some sig
  | Some ed25519 =>
      forall m, let sig := ed25519_sign L m sk (drop 1 pk) in
        Forall is_byte sig /\ lengthZ sig = 64 /\ fromBytes (reverse (drop 32 sig)) < fromBytes Order /\
        ed25519_sign_open L m (drop 1 pk) sig = true
  end.

Lemma keyPair_type L pk sk : keyPair L pk sk -> publicKeyType pk <> None.
Proof. unfold keyPair. intros H E. rewrite E in H. exact H. Qed.

Lemma ecdsaSign_accepted L pk sk digest :
  keyPair L pk sk -> publicKeyType pk = Some secp256k1 ->
  exists sig, ecdsaSign L sk digest = Ret sig /\ lengthZ sig <= 72 /\ Forall is_byte sig /\ forall b, verifyDigest L pk digest sig b = Ret true.
Proof.
  unfold keyPair. intros Hk Ht. rewrite Ht in Hk. destruct Hk as (P & HP & Hk). destruct (Hk digest) as (sig & r & s & Hsign & Hver & Hr & Hs & Hser & Hpar).
  exists (derSignature r s). assert (0 < s < G) as Hs' by lia. split; [by unfold ecdsaSign; rewrite Hsign; cbn [require]; rewrite Ret_bind, Hser|].
  pose proof (derBytes_short r Hr). pose proof (derBytes_short s Hs'). unfold derSignature.
  assert (lengthZ (48 :: lengthZ (derNumber r ++ derNumber s) :: derNumber r ++ derNumber s) = lengthZ (derNumber r ++ derNumber s) + 2) as -> by (unfold lengthZ; cbn; lia).
  rewrite length_derParts, !length_derNumber. split; [lia|]. split.
  { constructor; [unfold is_byte; lia|]. constructor; [unfold is_byte; lia|]. apply Forall_app; split; apply derNumber_bytes; lia. }
  intros b. unfold verifyDigest. rewrite bool_decide_true by done. cbn [negb].
  pose proof (derSignature_canonical r s Hr Hs') as Hc. unfold derSignature in Hc, Hpar. rewrite length_derParts, !length_derNumber in Hc, Hpar.
  rewrite Hc, (proj2 (Z.ltb_ge _ _)) by lia. rewrite bool_decide_true by done. cbn [negb]. by rewrite andb_false_r, HP, Hpar, Hver.
Qed.

Lemma signDigest_accepted L pk sk digest :
  keyPair L pk sk -> publicKeyType pk = Some secp256k1 ->
  exists sig, signDigest L pk sk digest = Ret sig /\ lengthZ sig <= 72 /\ Forall is_byte sig /\ forall b, verifyDigest L pk digest sig b = Ret true.
Proof.
  intros Hk Ht. unfold signDigest. rewrite bool_decide_true by done. cbn [negb]. by apply ecdsaSign_accepted.
Qed.

Lemma sign_accepted L pk sk m :
  keyPair L pk sk -> exists sig, sign L pk sk m = Ret sig /\ lengthZ sig <= 72 /\ Forall is_byte sig /\ forall b, verify L pk m sig b = Ret true.
Proof.
  intros Hk. unfold sign, verify. destruct (publicKeyType pk) as [[]|] eqn:Ht; cbn [require].
  - destruct (ecdsaSign_accepted L pk sk (sha512Half L m) Hk Ht) as (sig & Hs & Hl & Hb & Hv). exists sig. split_and!; done.
  - unfold keyPair in Hk. rewrite Ht in Hk. destruct (Hk m) as (Hb & Hl & Ho & Hv). exists (ed25519_sign L m sk (drop 1 pk)). split; [done|]. split; [lia|]. split; [done|]. intros b.
    assert (ed25519Canonical (ed25519_sign L m sk (drop 1 pk)) = true) as ->; [|cbn; by rewrite Hv].
    unfold ed25519Canonical. rewrite Hl. cbn [Z.eqb andb]. rewrite lexicographical_compare_spec; [by apply Z.ltb_lt| | |].
    + rewrite length_reverse, length_drop. unfold lengthZ in Hl. cbn. lia.
    + by apply Forall_reverse, Forall_drop.
    + repeat (constructor; [unfold is_byte; lia|]). constructor.
  - unfold keyPair in Hk. by rewrite Ht in Hk.
Qed.
