(* ===== verification/STAccess.v ===== *)
(** * Access to the fields of an object

    Models the accessors of [src/libxrpl/protocol/STObject.cpp] and
    [include/xrpl/protocol/STObject.h]: looking up, creating, setting and
    removing fields, flags, and the hashes of an object.  The digest
    [sha512Half], computed by a cryptographic library, is an argument. *)

From stdpp Require Import strings.
From S2P Require Import Prelude Outcome Serializer SFields Number Amount STLeaf STObject.

Definition isFree (o : Object) : bool := match o.1 with None => true | Some _ => false end.

(** The loop over [v_] of an object without a template. *)
Fixpoint fieldPosition (field : SField) (v_ : Fields) : option nat :=
  match v_ with
  | [] => None
  | x :: v_ => if sf_eqb x.1 field then Some O else option_map S (fieldPosition field v_)
  end.

Definition getFieldIndex (field : SField) (o : Object) : option nat :=
  match o.1 with Some t => getIndex field t | None => fieldPosition field o.2 end.

Definition throwFieldNotFound (field : SField) : string := ("Field not found: " ++ fieldName field)%string.

Definition peekAtPField (field : SField) (o : Object) : option STValue :=
  match getFieldIndex field o with Some index => snd <$> o.2 !! index | None => None end.

Definition isFieldPresent (field : SField) (o : Object) : bool :=
  match peekAtPField field o with
  | Some v => negb (bool_decide (getSType v = STI_NOTPRESENT))
  | None => false
  end.

(** [getPField]: the index of the field, in an object that may have got it. *)
Definition getPField (field : SField) (createOkay : bool) (o : Object) : outcome (option nat * Object) :=
  match getFieldIndex field o with
  | Some index => Ret (Some index, o)
  | None =>
      if createOkay && isFree o then
        defaultValue (fieldType field) ≫= fun v =>
        Ret (Some (length o.2), (o.1, o.2 ++ [(field, v)]))
      else Ret (None, o)
  end.

Definition makeFieldPresent (field : SField) (o : Object) : outcome (nat * Object) :=
  match getFieldIndex field o with
  | None =>
      if negb (isFree o) then Throw (throwFieldNotFound field)
      else Ret (length o.2, (o.1, o.2 ++ [(field, NotPresent)]))
  | Some index =>
      match o.2 !! index with
      | Some (name, NotPresent) =>
          defaultValue (fieldType name) ≫= fun v => Ret (index, (o.1, <[index := (name, v)]> o.2))
      | _ => Ret (index, o)
      end
  end.

Definition makeFieldAbsent (field : SField) (o : Object) : outcome Object :=
  match getFieldIndex field o with
  | None => Throw (throwFieldNotFound field)
  | Some index =>
      match o.2 !! index with
      | Some (name, v) =>
          if bool_decide (getSType v = STI_NOTPRESENT) then Ret o else Ret (o.1, <[index := (name, NotPresent)]> o.2)
      | None => Ret o
      end
  end.

(** [delField]: the erased entry. *)
Definition delField (field : SField) (o : Object) : bool * Object :=
  match getFieldIndex field o with
  | None => (false, o)
  | Some index => (true, (o.1, delete index o.2))
  end.

(** [setFieldUsingSetValue] and [setFieldUsingAssignment]; the class of a value
    is that of its type, so the cast succeeds on a value of the same type. *)
Definition setField (field : SField) (value : STValue) (o : Object) : outcome Object :=
  getPField field true o ≫= fun '(rf, o) =>
  match rf with
  | None => Throw (throwFieldNotFound field)
  | Some index =>
      (match o.2 !! index with
       | Some (_, NotPresent) => makeFieldPresent field o
       | _ => Ret (index, o)
       end) ≫= fun '(index, o) =>
      match o.2 !! index with
      | Some (name, v) =>
          if bool_decide (getSType v = getSType value) then Ret (o.1, <[index := (name, value)]> o.2)
          else Throw "Wrong field type"
      | None => Throw "Wrong field type"
      end
  end.

(** [getFieldByValue] and [getFieldByConstRef]: [cast] is the class asked for. *)
Definition getFieldBy {V} (cast : STValue -> option V) (empty : V) (field : SField) (o : Object) : outcome V :=
  match peekAtPField field o with
  | None => Throw (throwFieldNotFound field)
  | Some NotPresent => Ret empty
  | Some v => require "Wrong field type" (cast v)
  end.

Definition asU16 (v : STValue) : option Z := match v with Leaf (STUInt16 z) => Some z | _ => None end.
Definition asU32 (v : STValue) : option Z := match v with Leaf (STUInt32 z) => Some z | _ => None end.
Definition asU64 (v : STValue) : option Z := match v with Leaf (STUInt64 z) => Some z | _ => None end.
Definition asH256 (v : STValue) : option Blob := match v with Leaf (STUInt256 b) => Some b | _ => None end.
Definition asVL (v : STValue) : option Blob := match v with Leaf (STBlob b) => Some b | _ => None end.
Definition asAccount (v : STValue) : option Blob := match v with Leaf (STAccount_ a) => Some (accountValue a) | _ => None end.
Definition asAmount (v : STValue) : option STAmount := match v with Leaf (STAmount_ a) => Some a | _ => None end.
Definition asArray (v : STValue) : option (list (SField * Object)) := match v with STArr l => Some l | _ => None end.

Definition getFieldU16 := getFieldBy asU16 0.
Definition getFieldU32 := getFieldBy asU32 0.
Definition getFieldU64 := getFieldBy asU64 0.
Definition getFieldH256 := getFieldBy asH256 (replicate 32 0).
Definition getFieldVL := getFieldBy asVL [].
Definition getAccountID := getFieldBy asAccount (replicate 20 0).
Definition getFieldAmount := getFieldBy asAmount (mkSTAmount (AIssue xrpIssue) 0 0 false).
Definition getFieldArray := getFieldBy asArray [].

Definition setFieldU16 (field : SField) (v : Z) := setField field (Leaf (STUInt16 v)).
Definition setFieldU32 (field : SField) (v : Z) := setField field (Leaf (STUInt32 v)).
Definition setFieldU64 (field : SField) (v : Z) := setField field (Leaf (STUInt64 v)).
Definition setFieldH256 (field : SField) (v : Blob) := setField field (Leaf (STUInt256 v)).
Definition setFieldVL (field : SField) (v : Blob) := setField field (Leaf (STBlob v)).
Definition setAccountID (field : SField) (v : Blob) := setField field (Leaf (STAccount_ (mkSTAccount v false))).
Definition setFieldAmount (field : SField) (v : STAmount) := setField field (Leaf (STAmount_ v)).
Definition setFieldArray (field : SField) (v : list (SField * Object)) := setField field (STArr v).

(** ** Flags *)

Definition sfFlags : SField := getFieldByName "Flags".

Definition getFlags (o : Object) : Z :=
  match peekAtPField sfFlags o with Some (Leaf (STUInt32 v)) => v | _ => 0 end.

Definition isFlag (f : Z) (o : Object) : bool := Z.land (getFlags o) f =? f.

(** What [setFlag] and [clearFlag] do behind [getPField]. *)
Definition changeFlags (change : Z -> Z) (rf : option nat) (o : Object) : bool * Object :=
  match rf with
  | Some index =>
      match o.2 !! index with
      | Some (name, Leaf (STUInt32 v)) => (true, (o.1, <[index := (name, Leaf (STUInt32 (change v)))]> o.2))
      | _ => (false, o)
      end
  | None => (false, o)
  end.

Definition setFlag (f : Z) (o : Object) : outcome (bool * Object) :=
  getPField sfFlags true o ≫= fun '(rf, o) => Ret (changeFlags (fun v => Z.lor v f) rf o).

Definition clearFlag (f : Z) (o : Object) : outcome (bool * Object) :=
  getPField sfFlags false o ≫= fun '(rf, o) => Ret (changeFlags (fun v => Z.ldiff v f) rf o).

(** ** Objects of a template and hashes *)

(** [set(SOTemplate const&)]. *)
Fixpoint defaultFields (type : SOTemplate) : outcome Fields :=
  match type with
  | [] => Ret []
  | elem :: type =>
      (if bool_decide (style elem = soeREQUIRED) then defaultValue (fieldType (sField elem)) else Ret NotPresent) ≫= fun v =>
      defaultFields type ≫= fun l => Ret ((sField elem, v) :: l)
  end.

Definition ofTemplate (type : SOTemplate) : outcome Object :=
  defaultFields type ≫= fun v_ => Ret (Some type, v_).

Definition make_hash_prefix (a b c : Z) : Z := Z.shiftl a 24 + Z.shiftl b 16 + Z.shiftl c 8.

Definition hpTransactionID : Z := make_hash_prefix 84 88 78.
Definition hpTxSign : Z := make_hash_prefix 83 84 88.
Definition hpValidation : Z := make_hash_prefix 86 65 76.

Section Hash.
Context (sha512Half : Blob -> Blob).

Definition hashOf (whichFields : bool) (prefix : Z) (o : Object) : outcome Blob :=
  addObject whichFields o (add32 prefix []).2 ≫= fun s => Ret (sha512Half s).

Definition getHash := hashOf true.
Definition getSigningHash := hashOf false.

End Hash.
