(* ===== verification/Messages.v ===== *)
(** * Transactions, ledger entries and validations

    Models the constructors of [src/libxrpl/protocol/STTx.cpp] and
    [STLedgerEntry.cpp], and [STValidation] of [include/xrpl/protocol]: objects
    whose template is found by a field of theirs or fixed.  The library of
    digests and signatures and the identity behind a key are arguments. *)

From stdpp Require Import strings.
From S2P Require Import Prelude Outcome Serializer SFields Number Amount STLeaf STObject Formats Keys STAccess.

Definition txMinSizeBytes : Z := 32.
Definition txMaxSizeBytes : Z := 1024 * 1024.

Definition sfTransactionType : SField := getFieldByName "TransactionType".
Definition sfLedgerEntryType : SField := getFieldByName "LedgerEntryType".
Definition sfPreviousTxnID : SField := getFieldByName "PreviousTxnID".
Definition sfPreviousTxnLgrSeq : SField := getFieldByName "PreviousTxnLgrSeq".
Definition sfSequence : SField := getFieldByName "Sequence".
Definition sfTicketSequence : SField := getFieldByName "TicketSequence".
Definition sfSigningPubKey : SField := getFieldByName "SigningPubKey".
Definition sfSigningTime : SField := getFieldByName "SigningTime".
Definition sfSignature : SField := getFieldByName "Signature".

Section Messages.
Context (cfg : settings) (load_big_s32 load_big_s64 : Blob -> Z) (L : library).

(** ** Transactions *)

Record STTx := mkSTTx { txObject : Object; tx_type_ : Z; tid_ : Blob }.

Definition getTxFormat (type : Z) : outcome Item := require "Invalid transaction type" (findByType type txFormats).

(** [STTx(STObject&&)]. *)
Definition txOfObject (o : Object) : outcome STTx :=
  getFieldU16 sfTransactionType o ≫= fun type =>
  getTxFormat type ≫= fun format =>
  applyTemplate (soTemplate_ format) o ≫= fun o =>
  getHash (sha512Half L) hpTransactionID o ≫= fun tid =>
  Ret (mkSTTx o type tid).

(** [STTx(SerialIter&)]. *)
Definition readTx : reader STTx := fun it =>
  if (remain_ it <? txMinSizeBytes) || (txMaxSizeBytes <? remain_ it) then Throw "Transaction length invalid"
  else
    (set (readVar cfg load_big_s32 load_big_s64 10) ≫= fun '(v_, terminated) =>
     if (terminated : bool) then throw "Transaction contains an object terminator"
     else lift (txOfObject (None, v_))) it.

(** [STTx(TxType, assembler)]. *)
Definition newTx (type : Z) (assembler : Object -> outcome Object) : outcome STTx :=
  getTxFormat type ≫= fun format =>
  ofTemplate (soTemplate_ format) ≫= fun o =>
  setFieldU16 sfTransactionType (type_ format) o ≫= fun o =>
  assembler o ≫= fun o =>
  getFieldU16 sfTransactionType o ≫= fun tx_type =>
  if negb (tx_type =? type) then Throw "Transaction type was mutated during assembly"
  else getHash (sha512Half L) hpTransactionID o ≫= fun tid => Ret (mkSTTx o tx_type tid).

(** [getSeqProxy]: a sequence or a ticket. *)
Inductive SeqProxy := sequence (v : Z) | ticket (v : Z).

Definition getSeqProxy (tx : STTx) : outcome SeqProxy :=
  getFieldU32 sfSequence (txObject tx) ≫= fun seq =>
  if negb (seq =? 0) then Ret (sequence seq)
  else if isFieldPresent sfTicketSequence (txObject tx) then
    getFieldU32 sfTicketSequence (txObject tx) ≫= fun t => Ret (ticket t)
  else Ret (sequence seq).

(** ** Ledger entries *)

Record STLedgerEntry := mkSLE { sleObject : Object; key_ : Blob; sleType : Z }.

Definition newSLE (key : Blob) (type : Z) : outcome STLedgerEntry :=
  require "Attempt to create a SLE of unknown type" (findByType type ledgerFormats) ≫= fun format =>
  ofTemplate (soTemplate_ format) ≫= fun o =>
  setFieldU16 sfLedgerEntryType type o ≫= fun o => Ret (mkSLE o key type).

Definition setSLEType (o : Object) (key : Blob) : outcome STLedgerEntry :=
  getFieldU16 sfLedgerEntryType o ≫= fun type =>
  require "invalid ledger entry type" (findByType type ledgerFormats) ≫= fun format =>
  applyTemplate (soTemplate_ format) o ≫= fun o => Ret (mkSLE o key (type_ format)).

Definition readSLE (index : Blob) : reader STLedgerEntry :=
  set (readVar cfg load_big_s32 load_big_s64 10) ≫= fun '(v_, _) => lift (setSLEType (None, v_) index).

(** The types that got their thread with [fixPreviousTxnID]. *)
Definition newPreviousTxnIDTypes : list Z := [100; 102; 115; 78; 121].

Definition isThreadedType (fixPreviousTxnID : bool) (sle : STLedgerEntry) : bool :=
  let excludePrevTxnID := negb fixPreviousTxnID && bool_decide (sleType sle ∈ newPreviousTxnIDTypes) in
  negb excludePrevTxnID && bool_decide (is_Some (getFieldIndex sfPreviousTxnID (sleObject sle))).

(** [thread]: the previous transaction, if the entry was not threaded yet. *)
Definition thread (txID : Blob) (ledgerSeq : Z) (sle : STLedgerEntry) : outcome (option (Blob * Z) * STLedgerEntry) :=
  getFieldH256 sfPreviousTxnID (sleObject sle) ≫= fun oldPrevTxID =>
  if bool_decide (oldPrevTxID = txID) then Ret (None, sle)
  else
    getFieldU32 sfPreviousTxnLgrSeq (sleObject sle) ≫= fun prevLedgerID =>
    setFieldH256 sfPreviousTxnID txID (sleObject sle) ≫= fun o =>
    setFieldU32 sfPreviousTxnLgrSeq ledgerSeq o ≫= fun o =>
    Ret (Some (oldPrevTxID, prevLedgerID), mkSLE o (key_ sle) (sleType sle)).

(** ** Validations *)

Definition vfFullValidation : Z := 1.
Definition vfFullyCanonicalSig : Z := 2 ^ 31.

Record STValidation := mkValidation {
  valObject : Object;
  mTrusted : bool;
  valid_ : option bool;
  signingPubKey_ : Blob;
  nodeID_ : Blob;
  seenTime_ : Z;
}.

(** The signature check of [isValid]; [noexcept], so that a throw would end the
    process. *)
Definition checkSignature (pk : Blob) (o : Object) : outcome bool :=
  getSigningHash (sha512Half L) hpValidation o ≫= fun digest =>
  getFieldVL sfSignature o ≫= fun signature =>
  verifyDigest L pk digest signature (negb (Z.land (getFlags o) vfFullyCanonicalSig =? 0)).

Definition isValid (v : STValidation) : outcome (bool * STValidation) :=
  match valid_ v with
  | Some b => Ret (b, v)
  | None =>
      checkSignature (signingPubKey_ v) (valObject v) ≫= fun b =>
      Ret (b, mkValidation (valObject v) (mTrusted v) (Some b) (signingPubKey_ v) (nodeID_ v) (seenTime_ v))
  end.

Definition isFull (v : STValidation) : bool := negb (Z.land (getFlags (valObject v)) vfFullValidation =? 0).

Definition getSerialized (v : STValidation) : outcome Blob := addObject true (valObject v) [].

(** A validation of a peer. *)
Definition readValidation (lookupNodeID : Blob -> Blob) (checkSig : bool) : reader STValidation :=
  readTemplated cfg load_big_s32 load_big_s64 validationFormat ≫= fun o =>
  lift (getFieldVL sfSigningPubKey o) ≫= fun spk =>
  if negb (bool_decide (publicKeyType spk = Some secp256k1)) then throw "Invalid public key in validation"
  else
    let v := mkValidation o false None spk (lookupNodeID spk) 0 in
    if checkSig then
      lift (isValid v) ≫= fun '(ok, v) =>
      if negb ok then throw "Invalid signature in validation" else mret v
    else mret v.

(** A validation of this node; [f] fills in its contents. *)
Definition newValidation (signTime : Z) (pk sk nodeID : Blob) (f : Object -> outcome Object) : outcome STValidation :=
  ofTemplate validationFormat ≫= fun o =>
  if negb (bool_decide (publicKeyType pk = Some secp256k1))
  then Throw "We can only use secp256k1 keys for signing validations"
  else
    setFieldVL sfSigningPubKey pk o ≫= fun o =>
    setFieldU32 sfSigningTime signTime o ≫= fun o =>
    f o ≫= fun o =>
    setFlag vfFullyCanonicalSig o ≫= fun '(_, o) =>
    getSigningHash (sha512Half L) hpValidation o ≫= fun digest =>
    signDigest L pk sk digest ≫= fun sig =>
    setFieldVL sfSignature sig o ≫= fun o =>
    match List.find (fun e => bool_decide (style e = soeREQUIRED) && negb (isFieldPresent (sField e) o)) validationFormat with
    | Some e => Throw ("Required field '" ++ fieldName (sField e) ++ "' missing from validation.")
    | None => Ret (mkValidation o true (Some true) pk nodeID signTime)
    end.

End Messages.
