(* ===== verification/TxSign.v ===== *)
(** * Signatures of transactions and local checks

    Models the rest of [src/libxrpl/protocol/STTx.cpp] with [Sign.cpp], [Sign.h]
    and [Batch.h]: what is signed, single, multiple and batch signatures and
    their checks, and the checks made before a transaction is relayed. *)

From stdpp Require Import strings gmap.
From S2P Require Import Prelude Outcome Serializer SerializerFacts SFields Number Amount STLeaf STObject Formats Keys STAccess Messages.

Definition sfTxnSignature : SField := getFieldByName "TxnSignature".
Definition sfSigners : SField := getFieldByName "Signers".
Definition sfAccount : SField := getFieldByName "Account".
Definition sfCounterpartySignature : SField := getFieldByName "CounterpartySignature".
Definition sfBatchSigners : SField := getFieldByName "BatchSigners".
Definition sfRawTransactions : SField := getFieldByName "RawTransactions".
Definition sfMemos : SField := getFieldByName "Memos".
Definition sfMemo : SField := getFieldByName "Memo".
Definition sfMemoType : SField := getFieldByName "MemoType".
Definition sfMemoData : SField := getFieldByName "MemoData".
Definition sfMemoFormat : SField := getFieldByName "MemoFormat".

Definition ttBATCH : Z := 71.
Definition ttAMENDMENT : Z := 100.
Definition ttFEE : Z := 101.
Definition ttUNL_MODIFY : Z := 102.
Definition ttVALIDATOR_VOTE : Z := 1501.

Definition tfFullyCanonicalSig : Z := 2 ^ 31.
Definition maxBatchTxCount : Z := 8.

(** ** What is signed *)

Definition hpTxMultiSign : Z := make_hash_prefix 83 77 84.
Definition hpBatch : Z := make_hash_prefix 66 67 72.

Definition getSigningData (o : Object) : outcome Blob := addObject false o (add32 hpTxSign []).2.
Definition startMultiSigningData (o : Object) : outcome Blob := addObject false o (add32 hpTxMultiSign []).2.
Definition finishMultiSigningData (signingID s : Blob) : Blob := s ++ signingID.

Definition serializeBatch (flags : Z) (txids : list Blob) (msg : Blob) : Blob :=
  foldl (fun s txid => s ++ txid) (add32 (Z.of_nat (length txids)) (add32 flags (add32 hpBatch msg).2).2).2 txids.

(** The errors of the checks. *)
Inductive SignError :=
| Message (what : string)
| InvalidSignatureOn (accountID : Blob) (errorWhat : string)
| Counterparty (e : SignError).

(** [Expected<void, std::string>]. *)
Abbreviation expected := (option SignError).

Section Library.
Context (L : library).

(** ** Signing *)

(** [peekFieldObject(field).setFieldVL(...)]: [change] is made in place. *)
Definition changeFieldObject (field : SField) (change : Object -> outcome Object) (o : Object) : outcome Object :=
  getPField field true o ≫= fun '(rf, o) =>
  match rf with
  | None => Throw (throwFieldNotFound field)
  | Some index =>
      (match o.2 !! index with
       | Some (_, NotPresent) => makeFieldPresent field o
       | _ => Ret (index, o)
       end) ≫= fun '(index, o) =>
      match o.2 !! index with
      | Some (name, STObj inner) => change inner ≫= fun inner => Ret (o.1, <[index := (name, STObj inner)]> o.2)
      | _ => Throw "Wrong field type"
      end
  end.

Definition signTx (publicKey secretKey : Blob) (signatureTarget : option SField) (tx : STTx) : outcome STTx :=
  getSigningData (txObject tx) ≫= fun data =>
  sign L publicKey secretKey data ≫= fun sig =>
  (match signatureTarget with
   | Some target => changeFieldObject target (setFieldVL sfTxnSignature sig) (txObject tx)
   | None => setFieldVL sfTxnSignature sig (txObject tx)
   end) ≫= fun o =>
  getHash (sha512Half L) hpTransactionID o ≫= fun tid => Ret (mkSTTx o (tx_type_ tx) tid).

Definition getSignature (sigObject : Object) : Blob :=
  match getFieldVL sfTxnSignature sigObject with Ret b => b | Throw _ => [] end.

(** ** Checks of signatures *)

Definition singleSignHelper (sigObject : Object) (data : Blob) (fullyCanonical : bool) : expected :=
  if isFieldPresent sfSigners sigObject then Some (Message "Cannot both single- and multi-sign.")
  else
    let validSig :=
      match
        getFieldVL sfSigningPubKey sigObject ≫= fun spk =>
        match publicKeyType spk with
        | Some _ => getFieldVL sfTxnSignature sigObject ≫= fun signature => verify L spk data signature fullyCanonical
        | None => Ret false
        end
      with
      | Ret b => b
      | Throw _ => false
      end in
    if negb validSig then Some (Message "Invalid signature.") else None.

Definition minMultiSigners : Z := 1.
Definition maxMultiSigners (expandedSignerList : bool) : Z := if negb expandedSignerList then 8 else 32.

(** The loop over the signers, from [lastAccountID] on. *)
Fixpoint signersLoop (txnAccountID : option Blob) (fullyCanonical : bool) (makeMsg : Blob -> Blob)
    (lastAccountID : Blob) (signers : list (SField * Object)) : outcome expected :=
  match signers with
  | [] => Ret None
  | (_, signer) :: signers =>
      getAccountID sfAccount signer ≫= fun accountID =>
      if bool_decide (txnAccountID = Some accountID) then Ret (Some (Message "Invalid multisigner."))
      else if bool_decide (lastAccountID = accountID) then Ret (Some (Message "Duplicate Signers not allowed."))
      else if fromBytes accountID <? fromBytes lastAccountID then Ret (Some (Message "Unsorted Signers array."))
      else
        let '(validSig, errorWhat) :=
          match
            getFieldVL sfSigningPubKey signer ≫= fun spk =>
            match publicKeyType spk with
            | Some _ =>
                getFieldVL sfTxnSignature signer ≫= fun signature => verify L spk (makeMsg accountID) signature fullyCanonical
            | None => Ret false
            end
          with
          | Ret b => (b, EmptyString)
          | Throw what => (false, what)
          end in
        if negb validSig then Ret (Some (InvalidSignatureOn accountID errorWhat))
        else signersLoop txnAccountID fullyCanonical makeMsg accountID signers
  end.

Definition multiSignHelper (expandedSignerList : bool) (sigObject : Object) (txnAccountID : option Blob) (fullyCanonical : bool)
    (makeMsg : Blob -> Blob) : outcome expected :=
  if negb (isFieldPresent sfSigners sigObject) then Ret (Some (Message "Empty SigningPubKey."))
  else if isFieldPresent sfTxnSignature sigObject then Ret (Some (Message "Cannot both single- and multi-sign."))
  else
    getFieldArray sfSigners sigObject ≫= fun signers =>
    let size := Z.of_nat (length signers) in
    if (size <? minMultiSigners) || (maxMultiSigners expandedSignerList <? size) then Ret (Some (Message "Invalid Signers array size."))
    else signersLoop txnAccountID fullyCanonical makeMsg (replicate 20 0) signers.

Definition fullyCanonicalSig (tx : Object) (requireCanonicalSig : bool) : bool :=
  negb (Z.land (getFlags tx) tfFullyCanonicalSig =? 0) || requireCanonicalSig.

Definition checkSingleSign (requireCanonicalSig : bool) (tx sigObject : Object) : outcome expected :=
  getSigningData tx ≫= fun data =>
  Ret (singleSignHelper sigObject data (fullyCanonicalSig tx requireCanonicalSig)).

(** [own] tells that [sigObject] is the transaction itself. *)
Definition checkMultiSign (expandedSignerList requireCanonicalSig own : bool) (tx sigObject : Object) : outcome expected :=
  (if own then getAccountID sfAccount tx ≫= fun a => Ret (Some a) else Ret None) ≫= fun txnAccountID =>
  startMultiSigningData tx ≫= fun dataStart =>
  multiSignHelper expandedSignerList sigObject txnAccountID (fullyCanonicalSig tx requireCanonicalSig)
    (fun accountID => finishMultiSigningData accountID dataStart).

(** [checkSign] of one object with signatures. *)
Definition checkSignOf (expandedSignerList requireCanonicalSig own : bool) (tx sigObject : Object) : expected :=
  match
    getFieldVL sfSigningPubKey sigObject ≫= fun signingPubKey =>
    if bool_decide (signingPubKey = []) then checkMultiSign expandedSignerList requireCanonicalSig own tx sigObject
    else checkSingleSign requireCanonicalSig tx sigObject
  with
  | Ret e => e
  | Throw _ => Some (Message "Internal signature check failure.")
  end.

(** [getFieldObject]; an object is unlike the empty one if it has a field that
    is part of its binary form. *)
Definition asObject (v : STValue) : option Object := match v with STObj o => Some o | _ => None end.

Definition getFieldObject (field : SField) (o : Object) : outcome Object :=
  getFieldBy asObject (None, []) field o ≫= fun ret =>
  if existsb (fun x => negb (bool_decide (getSType x.2 = STI_NOTPRESENT)) && isBinary x.1) ret.2
  then applyTemplateFromSField field ret else Ret ret.

Definition checkSign (expandedSignerList requireCanonicalSig : bool) (tx : Object) : outcome expected :=
  match checkSignOf expandedSignerList requireCanonicalSig true tx tx with
  | Some e => Ret (Some e)
  | None =>
      if isFieldPresent sfCounterpartySignature tx then
        getFieldObject sfCounterpartySignature tx ≫= fun counterSig =>
        Ret (Counterparty <$> checkSignOf expandedSignerList requireCanonicalSig false tx counterSig)
      else Ret None
  end.

(** ** Batches *)

(** [getBatchTransactionIDs]: the list is kept after the first call. *)
Definition getBatchTransactionIDs (tx : Object) : outcome (list Blob) :=
  getFieldArray sfRawTransactions tx ≫=
  foldr (fun rb ids => getHash (sha512Half L) hpTransactionID rb.2 ≫= fun h => ids ≫= fun l => Ret (h :: l)) (Ret []).

Definition checkBatchSingleSign (requireCanonicalSig : bool) (tx batchSigner : Object) : outcome expected :=
  getBatchTransactionIDs tx ≫= fun ids =>
  Ret (singleSignHelper batchSigner (serializeBatch (getFlags tx) ids []) (fullyCanonicalSig tx requireCanonicalSig)).

Definition checkBatchMultiSign (expandedSignerList requireCanonicalSig : bool) (tx batchSigner : Object) : outcome expected :=
  getBatchTransactionIDs tx ≫= fun ids =>
  multiSignHelper expandedSignerList batchSigner None (fullyCanonicalSig tx requireCanonicalSig)
    (fun accountID => finishMultiSigningData accountID (serializeBatch (getFlags tx) ids [])).

Fixpoint batchSignersLoop (expandedSignerList requireCanonicalSig : bool) (tx : Object) (signers : list (SField * Object)) :
    outcome expected :=
  match signers with
  | [] => Ret None
  | (_, signer) :: signers =>
      getFieldVL sfSigningPubKey signer ≫= fun signingPubKey =>
      (if bool_decide (signingPubKey = []) then checkBatchMultiSign expandedSignerList requireCanonicalSig tx signer
       else checkBatchSingleSign requireCanonicalSig tx signer) ≫= fun result =>
      match result with
      | Some e => Ret (Some e)
      | None => batchSignersLoop expandedSignerList requireCanonicalSig tx signers
      end
  end.

Definition checkBatchSign (expandedSignerList requireCanonicalSig : bool) (tx : STTx) : expected :=
  if negb (tx_type_ tx =? ttBATCH) then Some (Message "Not a batch transaction.")
  else
    match getFieldArray sfBatchSigners (txObject tx) ≫= batchSignersLoop expandedSignerList requireCanonicalSig (txObject tx) with
    | Ret e => e
    | Throw _ => Some (Message "Internal batch signature check failure.")
    end.

End Library.

(** ** Local checks *)

(** [boost::algorithm::hex] and [strUnHex]; characters are their codes. *)
Definition hexDigit (n : Z) : Z := if n <? 10 then 48 + n else 55 + n.

Definition strHex (b : Blob) : list Z := flat_map (fun x => [hexDigit (Z.shiftr x 4); hexDigit (Z.land x 15)]) b.

Definition unxtab (c : Z) : Z :=
  if (48 <=? c) && (c <=? 57) then c - 48
  else if (65 <=? c) && (c <=? 70) then c - 55
  else if (97 <=? c) && (c <=? 102) then c - 87
  else -1.

(** The loop over pairs of digits. *)
Fixpoint unHexPairs (s : list Z) : option Blob :=
  match s with
  | [] => Some []
  | [_] => None
  | c :: d :: s =>
      if (unxtab c <? 0) || (unxtab d <? 0) then None
      else option_map (cons (Z.lor (Z.shiftl (unxtab c) 4) (unxtab d))) (unHexPairs s)
  end.

Definition strUnHex (s : list Z) : option Blob :=
  if Nat.odd (length s) then
    match s with
    | c :: s => if unxtab c <? 0 then None else option_map (cons (unxtab c)) (unHexPairs s)
    | [] => None
    end
  else unHexPairs s.

(** The characters allowed in URLs. *)
Definition allowedSymbols (c : Z) : bool :=
  (48 <=? c) && (c <=? 57) || (65 <=? c) && (c <=? 90) || (97 <=? c) && (c <=? 122) ||
  bool_decide (c ∈ [45; 46; 95; 126; 58; 47; 63; 35; 91; 93; 64; 33; 36; 38; 39; 40; 41; 42; 43; 44; 59; 61; 37]).

(** [getText] of a memo's element: the fields that get here hold blobs. *)
Definition memoText (v : STValue) : list Z := match v with Leaf (STBlob b) => strHex b | _ => [] end.

Definition memoElementOkay (x : SField * STValue) : option string :=
  let '(name, v) := x in
  if negb (sf_eqb name sfMemoType) && negb (sf_eqb name sfMemoData) && negb (sf_eqb name sfMemoFormat) then
    Some "A memo may contain only MemoType, MemoData or MemoFormat fields."
  else
    match strUnHex (memoText v) with
    | None => Some "The MemoType, MemoData and MemoFormat fields may only contain hex-encoded data."
    | Some optData =>
        if sf_eqb name sfMemoData then None
        else if forallb allowedSymbols optData then None
        else Some "The MemoType and MemoFormat fields may only contain characters that are allowed in URLs under RFC 3986."
    end.

(** The first reason against an element of a list. *)
Fixpoint firstReason {A} (check : A -> option string) (l : list A) : option string :=
  match l with
  | [] => None
  | x :: l => match check x with Some reason => Some reason | None => firstReason check l end
  end.

Definition memoOkay (memo : SField * Object) : option string :=
  if negb (sf_eqb memo.1 sfMemo) then Some "A memo array may contain only Memo objects."
  else firstReason memoElementOkay memo.2.2.

(** [isMemoOkay] and the other checks: the reason against the object, if any. *)
Definition isMemoOkay (st : Object) : outcome (option string) :=
  if negb (isFieldPresent sfMemos st) then Ret None
  else
    getFieldArray sfMemos st ≫= fun memos =>
    addValue (STArr memos) [] ≫= fun s =>
    if 1024 <? lengthZ s then Ret (Some "The memo exceeds the maximum allowed size.")
    else Ret (firstReason memoOkay memos).

Definition isAccountFieldOkay (st : Object) : bool :=
  forallb (fun x => match x.2 with Leaf (STAccount_ a) => negb (default_ a) | _ => true end) st.2.

(** [tx[~sfTransactionType]]. *)
Definition optionalU16 (field : SField) (st : Object) : option Z :=
  match peekAtPField field st with
  | None => None
  | Some v =>
      match asU16 v with
      | Some z => Some z
      | None =>
          match st.1 with
          | Some t => if bool_decide (style <$> List.find (fun e => sf_eqb (sField e) field) t = Some soeOPTIONAL) then None else Some 0
          | None => Some 0
          end
      end
  end.

Inductive SOETxMPTIssue := soeMPTNone | soeMPTSupported | soeMPTNotSupported.

#[export] Instance SOETxMPTIssue_eq_dec : EqDecision SOETxMPTIssue.
Proof. solve_decision. Defined.

(** The elements marked [soeMPTSupported] in the formats of transactions. *)
Definition mptElements : list (Z * string) :=
  [(0, "Amount"); (0, "SendMax"); (0, "DeliverMin"); (1, "Amount"); (30, "Amount"); (65, "Asset"); (68, "Amount"); (69, "Amount");
   (70, "Amount"); (76, "Amount"); (77, "Amount"); (78, "Amount"); (84, "Amount")]%string.

Definition supportMPT (type : Z) (e : SOElement) : SOETxMPTIssue :=
  if bool_decide (fieldType (sField e) = STI_AMOUNT) || bool_decide (fieldType (sField e) = STI_ISSUE) then
    if bool_decide ((type, fieldName (sField e)) ∈ mptElements) then soeMPTSupported else soeMPTNotSupported
  else soeMPTNone.

(** A value that is an amount or an issue of MPT. *)
Definition holdsMPTIssue (v : STValue) : bool :=
  match v with
  | Leaf (STAmount_ a) => holdsMPT (mAsset a)
  | Leaf (STIssue a) => holdsMPT a
  | _ => false
  end.

Definition invalidMPTAmountInTx (tx : Object) : bool :=
  match optionalU16 sfTransactionType tx with
  | None => false
  | Some txType =>
      match findByType txType txFormats with
      | None => false
      | Some item =>
          existsb (fun e =>
            isFieldPresent (sField e) tx && negb (bool_decide (supportMPT txType e = soeMPTNone)) &&
            match peekAtPField (sField e) tx with Some v => holdsMPTIssue v | None => false end &&
            negb (bool_decide (supportMPT txType e = soeMPTSupported))) (soTemplate_ item)
      end
  end.

Definition rawTransactionOkay (raw : SField * Object) : option string :=
  match
    getFieldU16 sfTransactionType raw.2 ≫= fun type =>
    if type =? ttBATCH then Ret (Some "Raw Transactions may not contain batch transactions."%string)
    else getTxFormat type ≫= fun format => applyTemplate (soTemplate_ format) raw.2 ≫= fun _ => Ret None
  with
  | Ret r => r
  | Throw what => Some what
  end.

Definition isRawTransactionOkay (st : Object) : outcome (option string) :=
  if negb (isFieldPresent sfRawTransactions st) then Ret None
  else
    (if isFieldPresent sfBatchSigners st then
       getFieldArray sfBatchSigners st ≫= fun l => Ret (maxBatchTxCount <? Z.of_nat (length l))
     else Ret false) ≫= fun tooMany =>
    if (tooMany : bool) then Ret (Some "Batch Signers array exceeds max entries."%string)
    else
      getFieldArray sfRawTransactions st ≫= fun rawTxns =>
      if maxBatchTxCount <? Z.of_nat (length rawTxns) then Ret (Some "Raw Transactions array exceeds max entries."%string)
      else Ret (firstReason rawTransactionOkay rawTxns).

Definition isPseudoTx (tx : Object) : bool :=
  match optionalU16 sfTransactionType tx with
  | None => false
  | Some type => (type =? ttAMENDMENT) || (type =? ttFEE) || (type =? ttUNL_MODIFY) || (type =? ttVALIDATOR_VOTE)
  end.

Definition passesLocalChecks (st : Object) : outcome (option string) :=
  isMemoOkay st ≫= fun reason =>
  match reason with
  | Some reason => Ret (Some reason)
  | None =>
      if negb (isAccountFieldOkay st) then Ret (Some "An account field is invalid."%string)
      else if isPseudoTx st then Ret (Some "Cannot submit pseudo transactions."%string)
      else if invalidMPTAmountInTx st then Ret (Some "Amount can not be MPT."%string)
      else isRawTransactionOkay st
  end.

(** ** Other operations *)

(** [getIssuer] of an asset. *)
Definition issuerOf (a : Asset) : Blob := match a with AIssue i => account i | AMPT mptID => drop 4 mptID end.

Definition getMentionedAccounts (tx : Object) : gset Blob :=
  foldr (fun x list =>
    match x.2 with
    | Leaf (STAccount_ a) => if negb (default_ a) then {[ accountValue a ]} ∪ list else list
    | Leaf (STAmount_ a) => let issuer := issuerOf (mAsset a) in if negb (isXRP issuer) then {[ issuer ]} ∪ list else list
    | _ => list
    end) ∅ tx.2.

(** [sterilize]: the transaction that its bytes make. *)
Definition sterilize (cfg : settings) (load_big_s32 load_big_s64 : Blob -> Z) (L : library) (stx : STTx) : outcome STTx :=
  addObject true (txObject stx) [] ≫= fun s =>
  readTx cfg load_big_s32 load_big_s64 L (newSerialIter s) ≫= fun '(tx, _) => Ret tx.
