(* ===== verification/STAccessFacts.v ===== *)
(** * Facts about access to fields *)

From stdpp Require Import strings sorting.
From S2P Require Import Prelude Outcome Serializer SerializerFacts SFields Number Amount STLeaf STObject STObjectFacts STAccess.

(** An object with the fields of its template in their order, or a free object
    with no field twice. *)
Definition proper (o : Object) : Prop :=
  match o.1 with
  | Some t => NoDup (codes t) /\ map fst o.2 = map sField t
  | None => NoDup (map (fun x => code x.1) o.2)
  end.

Lemma proper_codes o : proper o -> NoDup (map (fun x => code x.1) o.2).
Proof.
  unfold proper. destruct o.1 as [t|]; [|done]. intros [Hn E]. unfold codes in Hn.
  assert (map (fun x => code x.1) o.2 = map (fun e => code (sField e)) t) as ->; [|done].
  rewrite <- (map_map fst code), E. by rewrite map_map.
Qed.

Lemma getIndex_position f t (fs : Fields) : map fst fs = map sField t -> getIndex f t = fieldPosition f fs.
Proof.
  revert fs. induction t as [|e t IH]; intros [|x fs]; try done. cbn. intros [= -> E]. by rewrite (IH fs E).
Qed.

Lemma index_position f o : proper o -> getFieldIndex f o = fieldPosition f o.2.
Proof. unfold proper, getFieldIndex. destruct o.1 as [t|]; [|done]. intros [_ E]. by apply getIndex_position. Qed.

Lemma position_Some f (fs : Fields) i : fieldPosition f fs = Some i -> exists x, fs !! i = Some x /\ code x.1 = code f.
Proof.
  revert i. induction fs as [|y fs IH]; intros i; [done|]. cbn. unfold sf_eqb. destruct (Z.eqb_spec (code y.1) (code f)) as [E|E].
  - intros [= <-]. by exists y.
  - destruct (fieldPosition f fs) as [j|]; [|done]. intros [= <-]. cbn. by apply IH.
Qed.

Lemma position_None f (fs : Fields) : fieldPosition f fs = None <-> Forall (fun x => code x.1 <> code f) fs.
Proof.
  induction fs as [|y fs IH]; [split; [constructor|done]|]. cbn. unfold sf_eqb. rewrite Forall_cons.
  destruct (Z.eqb_spec (code y.1) (code f)) as [E|E]; [split; [done|naive_solver]|].
  rewrite <- IH. destruct (fieldPosition f fs); split; naive_solver.
Qed.

Lemma position_at f (fs : Fields) i x :
  NoDup (map (fun x => code x.1) fs) -> fs !! i = Some x -> code x.1 = code f -> fieldPosition f fs = Some i.
Proof.
  revert i. induction fs as [|y fs IH]; intros i Hn; [done|]. inversion Hn as [|? ? Hy Hn']; subst. cbn. unfold sf_eqb.
  destruct i as [|i]; cbn.
  - intros [= ->] E. by rewrite E, Z.eqb_refl.
  - intros Hi E. destruct (Z.eqb_spec (code y.1) (code f)) as [E'|E']; [|by rewrite (IH i)].
    exfalso. apply Hy. rewrite E', <- E. apply (list_elem_of_fmap_2 (fun x => code x.1)). by eapply list_elem_of_lookup_2.
Qed.

Lemma position_codes f fs fs' : map (fun x => code x.1) fs = map (fun x => code x.1) fs' -> fieldPosition f fs = fieldPosition f fs'.
Proof. revert fs'. induction fs as [|y fs IH]; intros [|y' fs']; try done. cbn. unfold sf_eqb. intros [= -> E]. by rewrite (IH fs' E). Qed.

(** What a field holds, by its entry. *)
Lemma peek_elem f o v : proper o -> peekAtPField f o = Some v <-> exists x, x ∈ o.2 /\ code x.1 = code f /\ x.2 = v.
Proof.
  intros Hp. unfold peekAtPField. rewrite index_position by done. split.
  - destruct (fieldPosition f o.2) as [i|] eqn:E; [|done]. apply position_Some in E as (x & Hx & E). rewrite Hx. intros [= <-].
    exists x. split_and!; [by eapply list_elem_of_lookup_2|done..].
  - intros (x & Hx & E & <-). apply list_elem_of_lookup in Hx as [i Hi].
    rewrite (position_at f o.2 i x) by (done || by apply proper_codes). by rewrite Hi.
Qed.

(** *** Replacing the value at a position *)

Definition replaced (i : nat) (name : SField) (v : STValue) (o : Object) : Object := (o.1, <[i := (name, v)]> o.2).

Lemma replaced_names i name v w (fs : Fields) : fs !! i = Some (name, w) -> map fst (<[i := (name, v)]> fs) = map fst fs.
Proof.
  intros Hi. change (map fst (<[i := (name, v)]> fs)) with (fst <$> <[i := (name, v)]> fs). rewrite list_fmap_insert. cbn.
  apply list_insert_id. change (map fst fs) with (fst <$> fs). rewrite list_lookup_fmap, Hi. done.
Qed.

Lemma replaced_proper i name v w o : o.2 !! i = Some (name, w) -> proper o -> proper (replaced i name v o).
Proof.
  intros Hi. unfold proper, replaced. cbn [fst snd]. pose proof (replaced_names i name v w o.2 Hi) as E.
  destruct o.1 as [t|]; [by rewrite E|]. rewrite <- !(map_map fst code), E. done.
Qed.

Lemma replaced_peek i name v w o f :
  proper o -> o.2 !! i = Some (name, w) ->
  peekAtPField f (replaced i name v o) = if decide (code name = code f) then Some v else peekAtPField f o.
Proof.
  intros Hp Hi. pose proof (replaced_proper i name v w o Hi Hp) as Hp'. unfold peekAtPField. rewrite !index_position by done.
  assert (fieldPosition f (replaced i name v o).2 = fieldPosition f o.2) as E.
  { apply position_codes. cbn. rewrite <- !(map_map fst code). by rewrite (replaced_names i name v w). }
  rewrite E. pose proof (lookup_lt_Some _ _ _ Hi) as Hlt. destruct (decide (code name = code f)) as [Ec|Ec].
  - rewrite (position_at f o.2 i (name, w)) by (done || by apply proper_codes). cbn. by rewrite list_lookup_insert_eq.
  - destruct (fieldPosition f o.2) as [j|] eqn:Ej; [|done]. cbn. rewrite list_lookup_insert_ne; [done|]. intros ->.
    apply position_Some in Ej as (x & Hx & Ex). rewrite Hi in Hx. injection Hx as <-. done.
Qed.

(** *** Appending a field to a free object *)

Lemma append_proper o f v : proper o -> o.1 = None -> getFieldIndex f o = None -> proper (o.1, o.2 ++ [(f, v)]).
Proof.
  unfold proper, getFieldIndex. cbn [fst snd]. intros Hp Ho. rewrite Ho in *. intros H%position_None. rewrite map_app. apply NoDup_app. split_and!; [done| |].
  - intros c (x & -> & Hx)%list_elem_of_fmap. rewrite Forall_forall in H. intros E%list_elem_of_singleton. by apply (H x Hx).
  - cbn. constructor; [|constructor]. apply not_elem_of_nil.
Qed.

Lemma append_peek o f v g :
  proper o -> o.1 = None -> getFieldIndex f o = None ->
  peekAtPField g (o.1, o.2 ++ [(f, v)]) = if decide (code f = code g) then Some v else peekAtPField g o.
Proof.
  intros Hp Ho Hi. pose proof (append_proper o f v Hp Ho Hi) as Hp'.
  assert (forall w, peekAtPField g (o.1, o.2 ++ [(f, v)]) = Some w <->
    (if decide (code f = code g) then Some v else peekAtPField g o) = Some w) as H.
  { intros w. rewrite peek_elem by done. cbn [snd]. unfold getFieldIndex in Hi. rewrite Ho in Hi. apply position_None in Hi.
    rewrite Forall_forall in Hi. case_decide as Ec.
    - split.
      + intros (x & [Hx| ->%list_elem_of_singleton]%elem_of_app & E & <-); [|done]. exfalso. apply (Hi x Hx). congruence.
      + intros [= <-]. exists (f, v). split_and!; [apply elem_of_app; right; by left|done..].
    - rewrite peek_elem by done. split.
      + intros (x & [Hx| ->%list_elem_of_singleton]%elem_of_app & E & <-); [by exists x|done].
      + intros (x & Hx & E & <-). exists x. split_and!; [apply elem_of_app; by left|done..]. }
  destruct (peekAtPField g (o.1, _)) as [w|]; [symmetry; by apply H|].
  destruct (if decide _ then _ else _) as [w|]; [|done]. by apply H.
Qed.

(** ** Setting a field *)

(** The entry for the field of an object that has or gets one. *)
Lemma getPField_spec f create o rf o' :
  proper o -> getPField f create o = Ret (rf, o') ->
  proper o' /\ o'.1 = o.1 /\ rf = getFieldIndex f o' /\ (forall g, code g <> code f -> peekAtPField g o' = peekAtPField g o) /\
  (getFieldIndex f o <> None -> o' = o).
Proof.
  unfold getPField. intros Hp. destruct (getFieldIndex f o) as [i|] eqn:Ei; [intros [= <- <-]; by rewrite Ei|].
  destruct (create && isFree o) eqn:Ec; [|intros [= <- <-]; by rewrite Ei]. apply andb_true_iff in Ec as [_ Ec].
  assert (o.1 = None) as Ho by (unfold isFree in Ec; destruct o.1; done). intros (v & _ & [= <- <-])%bind_Ret.
  pose proof (append_proper o f v Hp Ho Ei) as Hp'. split_and!; [done|done| |intros g Hg; rewrite append_peek, decide_False by done; done|done].
  rewrite index_position by done. cbn [snd]. symmetry. apply (position_at f _ _ (f, v)); [by apply proper_codes in Hp'| |reflexivity].
  rewrite lookup_app_r by lia. by rewrite Nat.sub_diag.
Qed.

Lemma makeFieldPresent_spec f o i j o' :
  proper o -> getFieldIndex f o = Some i -> makeFieldPresent f o = Ret (j, o') ->
  proper o' /\ o'.1 = o.1 /\ j = i /\ getFieldIndex f o' = Some i /\ (forall g, code g <> code f -> peekAtPField g o' = peekAtPField g o).
Proof.
  intros Hp Hi. unfold makeFieldPresent. rewrite Hi. pose proof Hi as Hi'. rewrite index_position in Hi' by done.
  apply position_Some in Hi' as ([name v] & Hx & Ec). rewrite Hx. destruct v; try (intros [= <- <-]; done).
  intros (v & _ & [= <- <-])%bind_Ret. fold (replaced i name v o).
  pose proof (replaced_proper i name v NotPresent o Hx Hp) as Hp'. split_and!; [done|done|done| |].
  - rewrite index_position by done. apply (position_at f _ i (name, v)); [by apply (proper_codes _ Hp')| |exact Ec]. cbn.
    rewrite list_lookup_insert_eq; [done|by eapply lookup_lt_Some].
  - intros g Hg. rewrite (replaced_peek i name v NotPresent) by done. cbn [fst] in Ec. rewrite decide_False by congruence. done.
Qed.

(** [setField] keeps the object proper, puts the value in its field and leaves
    the other fields alone; a field that is there keeps its place. *)
Lemma setField_spec f x o o' :
  proper o -> setField f x o = Ret o' ->
  proper o' /\ o'.1 = o.1 /\ peekAtPField f o' = Some x /\
  (forall g, code g <> code f -> peekAtPField g o' = peekAtPField g o) /\
  exists o1 i name w, proper o1 /\ o1.2 !! i = Some (name, w) /\ code name = code f /\ getSType w = getSType x /\ o' = replaced i name x o1.
Proof.
  intros Hp. unfold setField. intros ([rf o1] & E1 & H)%bind_Ret. destruct rf as [i|]; [|done].
  destruct (getPField_spec _ _ _ _ _ Hp E1) as (Hp1 & T1 & Hi & P1 & _). apply bind_Ret in H as ([j o2] & E2 & H).
  assert (proper o2 /\ o2.1 = o1.1 /\ getFieldIndex f o2 = Some j /\
    forall g, code g <> code f -> peekAtPField g o2 = peekAtPField g o1) as (Hp2 & T2 & Hj & P2).
  { destruct (o1.2 !! i) as [[n w]|] eqn:Ei; [|by injection E2 as <- <-].
    destruct w; try (by injection E2 as <- <-).
    destruct (makeFieldPresent_spec f o1 i j o2) as (A1 & A2 & -> & A3 & A4); done. }
  destruct (o2.2 !! j) as [[name w]|] eqn:Ej; [|done]. destruct (decide (getSType w = getSType x)) as [Ht|Ht];
    [rewrite bool_decide_true in H by done|by rewrite bool_decide_false in H]. injection H as <-. fold (replaced j name x o2).
  assert (code name = code f) as Ec.
  { rewrite index_position in Hj by done. apply position_Some in Hj as (y & Hy & Ey). rewrite Ej in Hy. by injection Hy as <-. }
  split_and!.
  - by eapply replaced_proper.
  - cbn. congruence.
  - rewrite (replaced_peek j name x w) by done. by rewrite decide_True.
  - intros g Hg. rewrite (replaced_peek j name x w), decide_False by (done || congruence). rewrite P2 by done. by apply P1.
  - by exists o2, j, name, w.
Qed.

(** ** Flags and templates *)

Lemma changeFlags_spec change rf o b o' :
  proper o -> rf = getFieldIndex sfFlags o -> changeFlags change rf o = (b, o') ->
  proper o' /\ o'.1 = o.1 /\ forall g, code g <> code sfFlags -> peekAtPField g o' = peekAtPField g o.
Proof.
  intros Hp -> E. unfold changeFlags in E. destruct (getFieldIndex sfFlags o) as [i|] eqn:Ei; [|by injection E as _ <-].
  destruct (o.2 !! i) as [[name v]|] eqn:Ex; [|by injection E as _ <-].
  assert (b = false /\ o' = o \/ exists z, v = Leaf (STUInt32 z) /\ o' = replaced i name (Leaf (STUInt32 (change z))) o) as [[_ ->]|(z & -> & ->)]; [|done|].
  { destruct v as [|x|?|?]; try (injection E as <- <-; by left). destruct x; try (injection E as <- <-; by left). injection E as _ <-. right. by eexists. }
  split_and!; [by eapply replaced_proper|done|]. intros g Hg. erewrite replaced_peek by done.
  rewrite index_position in Ei by done. apply position_Some in Ei as (y & Hy & Ey). rewrite Ex in Hy. injection Hy as <-. cbn [fst] in Ey.
  by rewrite decide_False by congruence.
Qed.

Lemma setFlag_spec f o b o' :
  proper o -> setFlag f o = Ret (b, o') ->
  proper o' /\ o'.1 = o.1 /\ forall g, code g <> code sfFlags -> peekAtPField g o' = peekAtPField g o.
Proof.
  intros Hp. unfold setFlag. intros ([rf o1] & E & [= H])%bind_Ret. destruct (getPField_spec _ _ _ _ _ Hp E) as (Hp1 & T1 & Hi & P1 & _).
  destruct (changeFlags_spec _ _ _ _ _ Hp1 Hi H) as (Hp' & T' & P'). split_and!; [done|congruence|]. intros g Hg. rewrite P' by done. by apply P1.
Qed.

Lemma ofTemplate_proper t o : NoDup (codes t) -> ofTemplate t = Ret o -> proper o /\ o.1 = Some t.
Proof.
  intros Hn. unfold ofTemplate. intros (fs & E & [= <-])%bind_Ret. unfold proper. cbn [fst snd]. split; [|done]. split; [done|].
  clear Hn. revert fs E. induction t as [|e t IH]; intros fs; cbn; [by intros [= <-]|].
  intros (v & _ & H)%bind_Ret. apply bind_Ret in H as (l & El & [= <-]). cbn. by rewrite (IH l El).
Qed.

(** Objects of a template that differ in one field. *)
Lemma same_but_one f o o' t :
  proper o -> proper o' -> o.1 = Some t -> o'.1 = Some t ->
  (forall g, code g <> code f -> peekAtPField g o' = peekAtPField g o) ->
  Forall2 (fun x y => x.1 = y.1 /\ (code x.1 = code f \/ x.2 = y.2)) o.2 o'.2.
Proof.
  intros Hp Hp' Ht Ht' Hpeek. pose proof Hp as Hq. pose proof Hp' as Hq'. unfold proper in Hq, Hq'. rewrite Ht in Hq. rewrite Ht' in Hq'.
  destruct Hq as [_ Hq], Hq' as [_ Hq']. apply Forall2_same_length_lookup_2.
  { rewrite <- (length_map fst o.2), <- (length_map fst o'.2). congruence. }
  intros i x y Hx Hy. assert (x.1 = y.1) as E.
  { apply (f_equal (fun l => l !! i)) in Hq, Hq'. change (map fst o.2) with (fst <$> o.2) in Hq. change (map fst o'.2) with (fst <$> o'.2) in Hq'.
    rewrite list_lookup_fmap, Hx in Hq. rewrite list_lookup_fmap, Hy in Hq'. cbn in Hq, Hq'. congruence. }
  split; [done|]. destruct (decide (code x.1 = code f)) as [Ec|Ec]; [by left|right]. specialize (Hpeek x.1 Ec).
  assert (peekAtPField x.1 o = Some x.2) as P1 by (apply peek_elem; [done|]; exists x; split_and!; [by eapply list_elem_of_lookup_2|done..]).
  assert (peekAtPField x.1 o' = Some y.2) as P2 by (apply peek_elem; [done|]; exists y; split_and!; [by eapply list_elem_of_lookup_2|congruence|done]).
  congruence.
Qed.

(** A field that is not signed does not change what is signed. *)
Lemma unsigned_field f o o' t :
  proper o -> proper o' -> o.1 = Some t -> o'.1 = Some t -> Forall (fun e => sField e ∈ knownFields) t -> f ∈ knownFields ->
  shouldInclude false f = false ->
  (forall g, code g <> code f -> peekAtPField g o' = peekAtPField g o) ->
  written false o.2 = written false o'.2.
Proof.
  intros Hp Hp' Ht Ht' Hk Hf Hs Hpeek. pose proof (same_but_one f o o' t Hp Hp' Ht Ht' Hpeek) as H2.
  assert (Forall (fun x => x.1 ∈ knownFields) o.2) as Hnames.
  { unfold proper in Hp. rewrite Ht in Hp. destruct Hp as [_ E]. apply Forall_forall. intros x Hx.
    assert (x.1 ∈ map sField t) as Hin by (rewrite <- E; by apply (list_elem_of_fmap_2 fst)).
    apply list_elem_of_fmap in Hin as (e & -> & He). rewrite Forall_forall in Hk. auto. }
  clear -H2 Hnames Hf Hs. unfold written. induction H2 as [|x y l l' [E H] _ IH]; [done|]. apply Forall_cons in Hnames as [Hx Hn].
  cbn [List.filter]. rewrite (IH Hn). destruct H as [Ec|Ev].
  - assert (x.1 = f) as Ef by (by apply code_inj). rewrite <- E, Ef, Hs, !andb_false_r. done.
  - destruct x as [g v], y as [g' v']. cbn [fst snd] in *. by subst.
Qed.
