(* ===== verification/MessagesProperties.v ===== *)
(** * Properties of transactions, ledger entries and validations *)

From stdpp Require Import strings sorting.
From S2P Require Import Prelude Outcome Serializer SerializerFacts SFields Number Amount AmountFacts STLeaf STLeafFacts STObject STObjectFacts STObjectTotal STObjectProperties Formats Keys KeysProperties STAccess Messages STAccessFacts.

(** ** Formats *)

Definition format_ok (i : Item) : bool :=
  bool_decide (NoDup (codes (soTemplate_ i))) &&
  forallb (fun e => bool_decide (sField e ∈ knownFields) && writable_field (sField e)) (soTemplate_ i).

(** The tables of formats are built without an error when the server starts;
    every transaction type and every ledger entry type has one format of its
    own, and the fields of a format are known, can be written in binary and occur
    in it once; so does the format of validations. *)
Theorem formats_proper :
  TxFormats = Ret txFormats /\ LedgerFormats = Ret ledgerFormats /\ length txFormats = 76%nat /\ length ledgerFormats = 31%nat /\
  NoDup (map type_ txFormats) /\ NoDup (map name_ txFormats) /\ NoDup (map type_ ledgerFormats) /\ NoDup (map name_ ledgerFormats) /\
  forallb format_ok (txFormats ++ ledgerFormats) = true /\ format_ok (mkItem validationFormat "Validation" 0) = true.
Proof.
  split_and!; try (vm_compute; reflexivity); apply (bool_decide_unpack _); vm_compute; exact I.
Qed.

(** ** Access *)

(** Setting a field gives the field that value and changes no other, keeps
    the template and the order of an object under a template, and adds the field
    to a free object that lacks it; every field keeps at most one value. *)
Theorem field_access (f : SField) (x : STValue) (o o' : Object) :
  proper o -> setField f x o = Ret o' ->
  proper o' /\ o'.1 = o.1 /\ peekAtPField f o' = Some x /\ forall g, code g <> code f -> peekAtPField g o' = peekAtPField g o.
Proof. intros Hp E. destruct (setField_spec f x o o' Hp E) as (H1 & H2 & H3 & H4 & _). done. Qed.

(** ** Reading what was written *)

Lemma ok_proper okV t o : okObject okV (Some t) o -> proper o.
Proof.
  intros (E & Hn & Hm). unfold proper. rewrite E. split; [done|]. clear -Hm. induction Hm as [|e x t fs [Ex _] _ IH]; [done|]. cbn. by rewrite IH, Ex.
Qed.

Lemma sorted_proper okV t o :
  okObject okV t o -> proper (None, getSortedFields getSType true o.2).
Proof.
  intros Ho. destruct (okObject_sorted okV t o Ho) as (Hord & _). unfold proper. cbn [fst snd].
  remember (getSortedFields getSType true o.2) as ps eqn:E. clear E Ho. induction Hord as [|x ps _ IH Hx]; [constructor|]. cbn. constructor; [|done].
  intros (y & Ey & Hy)%list_elem_of_fmap. rewrite Forall_forall in Hx. specialize (Hx y Hy). lia.
Qed.

(** A field that is there has the same value among the fields that are written. *)
Lemma peek_sorted okV t o f v :
  okObject okV (Some t) o -> peekAtPField f o = Some v -> v <> NotPresent ->
  peekAtPField f (None, getSortedFields getSType true o.2) = Some v.
Proof.
  intros Ho Hf Hv. apply peek_elem; [by eapply sorted_proper|]. apply peek_elem in Hf as (x & Hx & E & <-); [|by eapply ok_proper].
  exists x. split_and!; [|done..]. cbn [snd]. unfold getSortedFields. rewrite (merge_sort_Permutation byCode).
  apply list_elem_of_In, filter_In. split; [by apply list_elem_of_In|]. destruct x as [g w]. cbn [fst snd] in *.
  destruct Ho as (_ & _ & Hm). apply list_elem_of_lookup in Hx as [i Hi]. destruct (Forall2_lookup_r _ _ _ _ _ Hm Hi) as (e & _ & [_ [[? _]|(Hpres & [Hg _] & _)]]); [done|].
  unfold isPresent in Hpres. cbn [fst snd] in *. by rewrite Hpres, namedOk_include.
Qed.

Lemma reader_run {A B} (m : reader A) (k : A -> reader B) it a it' : m it = Ret (a, it') -> (m ≫= k) it = k a it'.
Proof. intros E. unfold mbind, reader_bind. by rewrite E. Qed.

Lemma lift_run {A} (m : outcome A) a it : m = Ret a -> lift m it = Ret (a, it).
Proof. by intros ->. Qed.

Section Messages.
Context (cfg : settings) (load_big_s32 load_big_s64 : Blob -> Z).
Context (load32 : loads 4 load_big_s32) (load64 : loads 8 load_big_s64).

Lemma object_back t o :
  okObject (okValue cfg 10) t o ->
  let ps := getSortedFields getSType true o.2 in
  exists bs, Forall is_byte bs /\ (forall s, addObject true o s = Ret (s ++ bs)) /\
    set (readVar cfg load_big_s32 load_big_s64 10) (newSerialIter bs) = Ret ((ps, false), mkSerialIter (reverse bs) []) /\
    match t with None => o = (None, ps) | Some t => forall m, applyTemplate t (m, ps) = Ret o end.
Proof using load32 load64.
  intros Ho ps. destruct (object_kept cfg load_big_s32 load_big_s64 10 t o) as (bs & Hb & Hw & _ & He & Ht); [|done|].
  { intros f v. by apply value_kept. }
  exists bs. split_and!; [done..| |done]. unfold newSerialIter. by rewrite He, app_nil_r.
Qed.

End Messages.

(** A transaction from its bytes. *)
Lemma transaction_back (cfg : settings) (load_big_s32 load_big_s64 : Blob -> Z) (L : library)
    (o : Object) (type : Z) (format : Item) :
  loads 4 load_big_s32 -> loads 8 load_big_s64 -> findByType type txFormats = Some format ->
  okObject (okValue cfg 10) (Some (soTemplate_ format)) o -> peekAtPField sfTransactionType o = Some (Leaf (STUInt16 type)) ->
  exists bs, (forall s, addObject true o s = Ret (s ++ bs)) /\
    (txMinSizeBytes <= lengthZ bs <= txMaxSizeBytes ->
     readTx cfg load_big_s32 load_big_s64 L (newSerialIter bs) =
     Ret (mkSTTx o type (sha512Half L ((add32 hpTransactionID []).2 ++ bs)), mkSerialIter (reverse bs) [])).
Proof.
  intros L32 L64 Hfmt Ho Htype. destruct (object_back cfg load_big_s32 load_big_s64 L32 L64 _ _ Ho) as (bs & _ & Hw & Hr & Ht).
  exists bs. split; [done|]. intros Hlen. unfold readTx. change (remain_ (newSerialIter bs)) with (lengthZ bs).
  rewrite (proj2 (Z.ltb_ge (lengthZ bs) _)), (proj2 (Z.ltb_ge _ (lengthZ bs))) by lia. cbn [orb]. unfold mbind at 1, reader_bind at 1.
  rewrite Hr, Ret_bind. unfold lift, txOfObject. unfold getFieldU16 at 1, getFieldBy.
  rewrite (peek_sorted _ _ _ _ _ Ho Htype) by done. cbn [asU16 require]. rewrite Ret_bind. unfold getTxFormat. rewrite Hfmt. cbn [require].
  rewrite Ret_bind, Ht, Ret_bind. unfold getHash, hashOf. rewrite Hw, !Ret_bind. done.
Qed.

(** A transaction is read back from its bytes: if its object matches the
    format of its type, has values in their ranges and a size within the limits,
    the constructor makes the same transaction of the bytes, with the digest of
    the bytes as its identifier. *)
Theorem transaction_roundtrip (cfg : settings) (load_big_s32 load_big_s64 : Blob -> Z) (L : library)
    (o : Object) (type : Z) (format : Item) :
  loads 4 load_big_s32 -> loads 8 load_big_s64 -> findByType type txFormats = Some format ->
  okObject (okValue cfg 10) (Some (soTemplate_ format)) o -> peekAtPField sfTransactionType o = Some (Leaf (STUInt16 type)) ->
  exists bs, (forall s, addObject true o s = Ret (s ++ bs)) /\
    (txMinSizeBytes <= lengthZ bs <= txMaxSizeBytes ->
     readTx cfg load_big_s32 load_big_s64 L (newSerialIter bs) =
     Ret (mkSTTx o type (sha512Half L ((add32 hpTransactionID []).2 ++ bs)), mkSerialIter (reverse bs) [])).
Proof. apply transaction_back. Qed.

(** A ledger entry, likewise. *)
Lemma entry_roundtrip (cfg : settings) (load_big_s32 load_big_s64 : Blob -> Z) (index : Blob) (o : Object) (type : Z) (format : Item) :
  loads 4 load_big_s32 -> loads 8 load_big_s64 -> findByType type ledgerFormats = Some format ->
  okObject (okValue cfg 10) (Some (soTemplate_ format)) o -> peekAtPField sfLedgerEntryType o = Some (Leaf (STUInt16 type)) ->
  exists bs, (forall s, addObject true o s = Ret (s ++ bs)) /\
    readSLE cfg load_big_s32 load_big_s64 index (newSerialIter bs) = Ret (mkSLE o index type, mkSerialIter (reverse bs) []).
Proof.
  intros L32 L64 Hfmt Ho Htype. destruct (object_back cfg load_big_s32 load_big_s64 L32 L64 _ _ Ho) as (bs & _ & Hw & Hr & Ht).
  exists bs. split; [done|]. unfold readSLE, mbind, reader_bind. rewrite Hr, Ret_bind. unfold lift, setSLEType, getFieldU16, getFieldBy.
  rewrite (peek_sorted _ _ _ _ _ Ho Htype) by done. cbn [asU16 require]. rewrite Ret_bind, Hfmt. cbn [require]. rewrite Ret_bind, Ht, !Ret_bind.
  assert (type_ format = type) as ->; [|done]. unfold findByType in Hfmt. apply find_some in Hfmt as [_ E]. by apply Z.eqb_eq.
Qed.

(** ** Validations *)

Lemma validation_template : properTemplate validationFormat.
Proof.
  split; [apply (bool_decide_unpack _); vm_compute; exact I|].
  repeat (constructor; [apply (bool_decide_unpack _); vm_compute; exact I|]). constructor.
Qed.

(** What [f] does to the validation it fills in: it sets fields other than the key. *)
Definition fills (f : Object -> outcome Object) : Prop :=
  forall o o', proper o -> f o = Ret o' ->
    proper o' /\ o'.1 = o.1 /\ peekAtPField sfSigningPubKey o' = peekAtPField sfSigningPubKey o.

(** The object of a new validation before and after the signature. *)
Lemma newValidation_object L signTime pk sk nodeID f v :
  fills f -> newValidation L signTime pk sk nodeID f = Ret v ->
  signingPubKey_ v = pk /\ publicKeyType pk = Some secp256k1 /\
  exists o digest sig, proper o /\ o.1 = Some validationFormat /\ getSigningHash (sha512Half L) hpValidation o = Ret digest /\
    peekAtPField sfSigningPubKey o = Some (Leaf (STBlob pk)) /\ signDigest L pk sk digest = Ret sig /\
    setFieldVL sfSignature sig o = Ret (valObject v).
Proof.
  intros Hf. unfold newValidation. intros (o0 & E0 & H)%bind_Ret.
  destruct (decide (publicKeyType pk = Some secp256k1)) as [Hk|Hk]; [rewrite bool_decide_true in H by done|by rewrite bool_decide_false in H]. cbn [negb] in H.
  apply bind_Ret in H as (o1 & E1 & H). apply bind_Ret in H as (o2 & E2 & H). apply bind_Ret in H as (o3 & E3 & H).
  apply bind_Ret in H as ([b o4] & E4 & H). apply bind_Ret in H as (digest & E5 & H). apply bind_Ret in H as (sig & E6 & H).
  apply bind_Ret in H as (o5 & E7 & H).
  destruct (List.find _ _); [done|]. injection H as <-. destruct (ofTemplate_proper _ _ (proj1 validation_template) E0) as [Hp0 T0].
  destruct (setField_spec _ _ _ _ Hp0 E1) as (Hp1 & T1 & K1 & _). destruct (setField_spec _ _ _ _ Hp1 E2) as (Hp2 & T2 & _ & P2 & _).
  destruct (Hf _ _ Hp2 E3) as (Hp3 & T3 & P3). destruct (setFlag_spec _ _ _ _ Hp3 E4) as (Hp4 & T4 & P4). cbn [signingPubKey_ valObject].
  split_and!; [done..|]. exists o4, digest, sig. split_and!; [done|congruence|done| |done..].
  rewrite P4 by (vm_compute; discriminate). rewrite P3, P2 by (vm_compute; discriminate). done.
Qed.

(** The signature is not part of what is signed. *)
Lemma signed_part L o o' pk sig :
  proper o -> o.1 = Some validationFormat -> setFieldVL sfSignature sig o = Ret o' ->
  getSigningHash (sha512Half L) pk o' = getSigningHash (sha512Half L) pk o.
Proof.
  intros Hp T Hs. destruct (setField_spec _ _ _ _ Hp Hs) as (Hp' & T' & S' & P' & _). rewrite T in T'.
  unfold getSigningHash, hashOf. rewrite !addObject_sorted.
  rewrite (unsigned_field sfSignature o o' validationFormat); [done..|apply validation_template| | |done];
    [apply (bool_decide_unpack _); vm_compute; exact I|vm_compute; reflexivity].
Qed.

(** C25: a validation this server signs is accepted by every peer: when it is
    serialized and read with the check of the signature, the signature is found
    valid, and the peer has the same contents, attributed to the key that signed
    them. *)
Theorem validation_accepted (cfg : settings) (load_big_s32 load_big_s64 : Blob -> Z) (L : library)
    (lookupNodeID : Blob -> Blob) (signTime : Z) (pk sk nodeID : Blob) (f : Object -> outcome Object) (v : STValidation) :
  loads 4 load_big_s32 -> loads 8 load_big_s64 -> keyPair L pk sk ->
  fills f -> newValidation L signTime pk sk nodeID f = Ret v ->
  okObject (okValue cfg 10) (Some validationFormat) (valObject v) ->
  exists bs, getSerialized v = Ret bs /\
    readValidation cfg load_big_s32 load_big_s64 L lookupNodeID true (newSerialIter bs) =
    Ret (mkValidation (valObject v) false (Some true) pk (lookupNodeID pk) 0, mkSerialIter (reverse bs) []).
Proof.
  intros L32 L64 Hkeys Hf Hnew Ho.
  destruct (newValidation_object _ _ _ _ _ _ _ Hf Hnew) as (_ & Hk & o & digest & sig & Hp & T & Hd & K & Hsig & Hs).
  destruct (object_back cfg load_big_s32 load_big_s64 L32 L64 _ _ Ho) as (bs & _ & Hw & Hr & Ht). exists bs. split; [apply Hw|].
  rewrite <- (signed_part L _ _ _ _ Hp T Hs) in Hd. destruct (setField_spec _ _ _ _ Hp Hs) as (_ & _ & S' & P' & _).
  destruct (signDigest_accepted L pk sk digest Hkeys Hk) as (sig' & E & _ & _ & Hver). rewrite Hsig in E. injection E as <-.
  unfold readValidation. erewrite reader_run; [|unfold readTemplated; erewrite reader_run by exact Hr; by apply lift_run].
  erewrite reader_run; [|apply lift_run; unfold getFieldVL, getFieldBy; by rewrite P', K by (vm_compute; discriminate)].
  rewrite bool_decide_true by done. cbn [negb]. erewrite reader_run with (a := (true, _)); [reflexivity|apply lift_run].
  unfold isValid, checkSignature. cbn [valid_ signingPubKey_ valObject]. unfold getFieldVL, getFieldBy. rewrite Hd, Ret_bind, S'.
  cbn [asVL require]. by rewrite Ret_bind, Hver, Ret_bind.
Qed.

(** ** Sample messages *)

(** A checker of objects without nested objects, for the samples. *)
Definition simpleBytes (v : Blob) : bool := forallb (fun b => (0 <=? b) && (b <? 256)) v.

Definition simpleLeaf (x : STLeaf) : bool :=
  match x with
  | STUInt16 v => (0 <=? v) && (v <? 2 ^ 16)
  | STUInt32 v => (0 <=? v) && (v <? 2 ^ 32)
  | STUInt64 v => (0 <=? v) && (v <? 2 ^ 64)
  | STUInt256 v => (length v =? 32)%nat && simpleBytes v
  | STBlob v => (lengthZ v <=? 918744) && simpleBytes v
  | STAccount_ (mkSTAccount v false) => (length v =? 20)%nat && simpleBytes v
  | STAmount_ (mkSTAmount (AIssue i) v 0 false) => bool_decide (i = xrpIssue) && ((0 <=? v) && (v <=? cMaxNativeN))
  | _ => false
  end.

Definition simpleEntry (e : SOElement) (x : SField * STValue) : bool :=
  bool_decide (x.1 = sField e) &&
  match x.2 with
  | NotPresent => negb (bool_decide (style e = soeREQUIRED))
  | Leaf v =>
      bool_decide (x.1 ∈ knownFields) && writable_field x.1 && simpleLeaf v && bool_decide (leafType v = fieldType x.1) &&
      negb (bool_decide (style e = soeDEFAULT))
  | _ => false
  end.

Definition simpleObject (t : SOTemplate) (fs : Fields) : bool :=
  bool_decide (NoDup (codes t)) && (length t =? length fs)%nat && forallb (fun x => simpleEntry x.1 x.2) (zip t fs).

Lemma simpleBytes_ok v : simpleBytes v = true -> Forall is_byte v.
Proof.
  unfold simpleBytes. rewrite forallb_forall. intros E. apply Forall_forall. intros b Hb. apply list_elem_of_In in Hb. specialize (E b Hb).
  unfold is_byte. lia.
Qed.

Lemma simpleLeaf_ok cfg x : simpleLeaf x = true -> leaf_ok cfg x.
Proof.
  destruct x as [| v | v | v | | | | | v | [[i|] v [] []] | | v | [v []] | | | | | ]; cbn [simpleLeaf leaf_ok]; try done; intros E;
    try (apply andb_true_iff in E as [El E]); try lia.
  - split; [by apply Nat.eqb_eq|by apply simpleBytes_ok].
  - apply bool_decide_eq_true in El as ->. split; [by left|]. split; [done|]. split; [|done].
    change (native _) with true. cbn [mValue]. lia.
  - split; [by apply Z.leb_le|by apply simpleBytes_ok].
  - split; [by apply Nat.eqb_eq|by apply simpleBytes_ok].
Qed.

Lemma simpleEntry_ok cfg e x : simpleEntry e x = true -> matches (fun x => namedOk x.1 /\ okValue cfg 10 x.1 x.2) e x.
Proof.
  unfold simpleEntry, matches. intros [E H]%andb_true_iff. apply bool_decide_eq_true in E. split; [done|].
  destruct x as [f v]; cbn [fst snd] in *. destruct v as [|x|?|?]; try done.
  - left. split; [done|]. apply negb_true_iff, bool_decide_eq_false in H. done.
  - rewrite !andb_true_iff in H. destruct H as [[[[H1 H2] H3] H4] H5]. apply bool_decide_eq_true in H1, H4. apply negb_true_iff, bool_decide_eq_false in H5.
    right. split; [destruct x; reflexivity|]. split; [|by intros [? _]]. split; [by split|]. split; [by apply simpleLeaf_ok|done].
Qed.

Lemma simpleObject_ok cfg t fs : simpleObject t fs = true -> okObject (okValue cfg 10) (Some t) (Some t, fs).
Proof.
  unfold simpleObject. rewrite !andb_true_iff. intros [[Hn Hl] Hf]. apply bool_decide_eq_true in Hn. apply Nat.eqb_eq in Hl. split; [done|]. split; [done|].
  cbn [snd]. clear Hn. revert fs Hl Hf. induction t as [|e t IH]; intros [|x fs] Hl Hf; try discriminate Hl; [constructor|]. cbn [length zip zip_with forallb fst snd] in *.
  apply andb_true_iff in Hf as [He Hf]. constructor; [by apply simpleEntry_ok|]. apply IH; [lia|done].
Qed.

Lemma field_access_witness :
  match setField (getFieldByName "Sequence") (Leaf (STUInt32 8)) (None, sampleFields) with
  | Ret o => peekAtPField (getFieldByName "Sequence") o = Some (Leaf (STUInt32 8)) /\
             peekAtPField (getFieldByName "Account") o = Some (Leaf (STAccount_ (account_of 9)))
  | Throw _ => False
  end.
Proof.
  destruct (setField _ _ (None, sampleFields)) as [w|o] eqn:E; [vm_compute in E; discriminate E|].
  destruct (field_access (getFieldByName "Sequence") (Leaf (STUInt32 8)) (None, sampleFields) o) as (_ & _ & H & Hother).
  - unfold proper. cbn [fst snd]. apply (bool_decide_unpack _). vm_compute. exact I.
  - exact E.
  - split; [exact H|]. rewrite Hother by (vm_compute; discriminate). vm_compute. reflexivity.
Defined.

(** A key, and an account settings transaction. *)
Definition sampleKey : Blob := 2 :: replicate 32 7.

Definition accountSet : Item := default (mkItem [] "none" 0) (findByType 3 txFormats).

Definition sampleTx : Object :=
  match
    ofTemplate (soTemplate_ accountSet) ≫= fun o =>
    setFieldU16 sfTransactionType 3 o ≫= fun o =>
    setField (getFieldByName "Account") (Leaf (STAccount_ (account_of 9))) o ≫= fun o =>
    setFieldU32 (getFieldByName "Sequence") 7 o ≫= fun o =>
    setField (getFieldByName "Fee") (Leaf (STAmount_ (mkSTAmount (AIssue xrpIssue) 10 0 false))) o ≫= fun o =>
    setFieldVL sfSigningPubKey sampleKey o
  with
  | Ret o => o
  | Throw _ => (None, [])
  end.

Definition bytesOr (m : outcome Blob) : Blob := match m with Ret bs => bs | Throw _ => [] end.

Definition sampleTxBytes : Blob := bytesOr (addObject true sampleTx []).

(** A validation of ledger 5. *)
Definition fillSample (o : Object) : outcome Object :=
  setField (getFieldByName "LedgerHash") (Leaf (STUInt256 (replicate 32 1))) o ≫= fun o =>
  setFieldU32 (getFieldByName "LedgerSequence") 5 o.

Lemma fillSample_fills : fills fillSample.
Proof.
  intros o o' Hp (o1 & E1 & E2)%bind_Ret. destruct (setField_spec _ _ _ _ Hp E1) as (Hp1 & T1 & _ & P1 & _).
  destruct (setField_spec _ _ _ _ Hp1 E2) as (Hp2 & T2 & _ & P2 & _). split_and!; [done|congruence|].
  rewrite P2, P1 by (vm_compute; discriminate). done.
Qed.

(** A library in which every key has the same signature, [(5, 200)]. *)
Definition sampleLibrary : library := {|
  secp_pubkey := unit;
  secp_signature := unit;
  secp256k1_ec_pubkey_parse _ := Some tt;
  secp256k1_ecdsa_signature_parse_der b := if bool_decide (b = derSignature 5 200) then Some tt else None;
  secp256k1_ecdsa_signature_serialize_der _ := Some (derSignature 5 200);
  secp256k1_ecdsa_signature_normalize _ := None;
  secp256k1_ecdsa_verify _ _ _ := true;
  secp256k1_ecdsa_sign _ _ := Some tt;
  ed25519_sign _ _ _ := replicate 64 7;
  ed25519_sign_open _ _ _ := true;
  sha512Half b := b;
|}.

Lemma sampleLibrary_keys pk sk : publicKeyType pk <> None -> keyPair sampleLibrary pk sk.
Proof.
  intros Ht. unfold keyPair. destruct (publicKeyType pk) as [[]|]; [| |done].
  - exists tt. split; [done|]. intros digest. exists tt, 5, 200. split_and!; vm_compute; try reflexivity; discriminate.
  - intros m; cbv zeta. split; [apply Forall_replicate; unfold is_byte; lia|]. split_and!; vm_compute; reflexivity.
Qed.

Lemma transaction_roundtrip_witness :
  readTx sampleSettings (loadSigned 4) (loadSigned 8) sampleLibrary (newSerialIter sampleTxBytes) =
  Ret (mkSTTx sampleTx 3 ((add32 hpTransactionID []).2 ++ sampleTxBytes), mkSerialIter (reverse sampleTxBytes) []).
Proof.
  destruct (transaction_roundtrip sampleSettings (loadSigned 4) (loadSigned 8) sampleLibrary sampleTx 3 accountSet) as (bs & Hw & Hr).
  - apply loadSigned_loads. lia.
  - apply loadSigned_loads. lia.
  - vm_compute. reflexivity.
  - assert (sampleTx = (Some (soTemplate_ accountSet), sampleTx.2)) as -> by (vm_compute; reflexivity).
    apply simpleObject_ok. vm_compute. reflexivity.
  - vm_compute. reflexivity.
  - assert (sampleTxBytes = bs) as -> by (unfold sampleTxBytes; by rewrite Hw). apply Hr.
    assert (sampleTxBytes = bs) as <- by (unfold sampleTxBytes; by rewrite Hw). vm_compute. split; discriminate.
Defined.

Definition sampleValidation : outcome STValidation :=
  newValidation sampleLibrary 700 sampleKey [] [] fillSample.

Lemma validation_accepted_witness :
  exists v bs, sampleValidation = Ret v /\ getSerialized v = Ret bs /\
    readValidation sampleSettings (loadSigned 4) (loadSigned 8) sampleLibrary (fun k => k) true (newSerialIter bs) =
    Ret (mkValidation (valObject v) false (Some true) sampleKey sampleKey 0, mkSerialIter (reverse bs) []).
Proof.
  destruct sampleValidation as [w|v] eqn:E; [vm_compute in E; discriminate E|].
  destruct (validation_accepted sampleSettings (loadSigned 4) (loadSigned 8) sampleLibrary (fun k => k)
    700 sampleKey [] [] fillSample v) as (bs & Hs & Hr).
  - apply loadSigned_loads. lia.
  - apply loadSigned_loads. lia.
  - apply sampleLibrary_keys. vm_compute. discriminate.
  - exact fillSample_fills.
  - exact E.
  - assert (valObject v = (Some validationFormat, (valObject v).2) /\ simpleObject validationFormat (valObject v).2 = true) as [-> H].
    { vm_compute in E. injection E as <-. split; vm_compute; reflexivity. }
    by apply simpleObject_ok.
  - exists v, bs. split; [reflexivity|split; [exact Hs|exact Hr]].
Defined.
