(* ===== verification/TxSignProperties.v ===== *)
(** * Properties of the signatures of transactions *)

From stdpp Require Import strings gmap.
From S2P Require Import Prelude Outcome Serializer SerializerFacts SFields Number Amount AmountFacts STLeaf STLeafFacts STObject STObjectFacts STObjectTotal STObjectProperties Formats Keys KeysProperties STAccess Messages TxSign STAccessFacts MessagesProperties.

(** ** Setting a field of an object that can be written *)

Section Settings.
Context (cfg : settings).

Lemma ok_entry t o i e :
  okObject (okValue cfg 10) (Some t) o -> t !! i = Some e ->
  exists v, o.2 !! i = Some (sField e, v) /\ getFieldIndex (sField e) o = Some i /\
    (v = NotPresent \/ getSType v = fieldType (sField e)).
Proof.
  intros Ho Hi. pose proof (ok_proper _ _ _ Ho) as Hp. destruct Ho as (T & Hn & Hm). destruct (Forall2_lookup_l _ _ _ _ _ Hm Hi) as ([f v] & Hx & Ef & Hv).
  cbn [fst snd] in *. subst f. exists v. split_and!; [done| |].
  - rewrite index_position by done. by eapply (position_at _ _ _ (sField e, v)); [apply proper_codes| |].
  - destruct Hv as [[-> _]|(_ & (_ & Hok) & _)]; [by left|right]. destruct v as [|x|?|?]; cbn in Hok; [done|..]; by destruct Hok as [? ?].
Qed.

Lemma setLeaf_ok t o e x w :
  okObject (okValue cfg 10) (Some t) o -> e ∈ t -> style e <> soeDEFAULT -> namedOk (sField e) ->
  leaf_ok cfg x -> leafType x = fieldType (sField e) -> defaultValue (fieldType (sField e)) = Ret (Leaf w) -> leafType w = leafType x ->
  exists o', setField (sField e) (Leaf x) o = Ret o' /\ okObject (okValue cfg 10) (Some t) o'.
Proof.
  intros Ho He Hs Hf Hx Ht Hw Hwx. apply list_elem_of_lookup in He as [i Hi]. destruct (ok_entry t o i e Ho Hi) as (v & Hv & Hidx & Htype).
  exists (replaced i (sField e) (Leaf x) o). pose proof (lookup_lt_Some _ _ _ Hv) as Hlt. split.
  - unfold setField, getPField. rewrite Hidx, Ret_bind, Hv. destruct Htype as [->|Htype].
    + unfold makeFieldPresent. rewrite Hidx, Hv, Hw, !Ret_bind. cbn [fst snd]. rewrite list_lookup_insert_eq by done.
      rewrite bool_decide_true by done. unfold replaced. by rewrite list_insert_insert_eq.
    + assert (match v with NotPresent => makeFieldPresent (sField e) o | _ => Ret (i, o) end = Ret (i, o)) as ->.
      { destruct v; try done. cbn in Htype. by rewrite <- Htype in Hw. }
      rewrite Ret_bind, Hv, bool_decide_true; [done|]. cbn [getSType]. congruence.
  - destruct Ho as (T & Hn & Hm). split; [done|]. split; [done|]. cbn [replaced snd]. rewrite <- (list_insert_id t i e Hi) at 1.
    apply Forall2_insert; [done|]. split; [done|]. right. split; [by destruct x|]. split; [|by intros [? _]]. split; [done|]. by split.
Qed.

(** The bytes that are signed. *)
Lemma signing_bytes load_big_s32 load_big_s64 t o :
  loads 4 load_big_s32 -> loads 8 load_big_s64 -> okObject (okValue cfg 10) (Some t) o -> exists bs, forall s, addObject false o s = Ret (s ++ bs).
Proof.
  intros L32 L64 (_ & _ & Hm). destruct (setLoop_kept (readVar cfg load_big_s32 load_big_s64 10) (merge_sort byCode (written false o.2))) as (bs & _ & _ & Hw & _).
  - rewrite (merge_sort_Permutation byCode). apply Forall_forall. intros [f v] Hx. unfold written in Hx. apply list_elem_of_In, filter_In in Hx as [Hx Hp].
    apply andb_true_iff in Hp as [Hp _]. apply list_elem_of_In, list_elem_of_lookup in Hx as [i Hx].
    destruct (Forall2_lookup_r _ _ _ _ _ Hm Hx) as (e & _ & _ & [[E _]|(_ & [Hf Hv] & _)]); [cbn in E; by subst v|]. by apply value_kept.
  - exists bs. intros s. by rewrite addObject_sorted.
Qed.

End Settings.

(** ** Formats of transactions *)

#[export] Instance SOElement_eq_dec : EqDecision SOElement.
Proof. solve_decision. Defined.

Lemma tx_formats_signed : forallb (fun i => format_ok i && bool_decide (mkSOElement sfTxnSignature soeOPTIONAL ∈ soTemplate_ i)) txFormats = true.
Proof. vm_compute. reflexivity. Qed.

Lemma tx_format type format :
  findByType type txFormats = Some format ->
  Forall (fun e => sField e ∈ knownFields) (soTemplate_ format) /\ mkSOElement sfTxnSignature soeOPTIONAL ∈ soTemplate_ format.
Proof.
  intros Hf. apply find_some in Hf as [Hin _]. pose proof tx_formats_signed as H. rewrite forallb_forall in H. specialize (H format Hin).
  apply andb_true_iff in H as [H Hs]. apply bool_decide_eq_true in Hs. split; [|done]. unfold format_ok in H. apply andb_true_iff in H as [_ H].
  rewrite forallb_forall in H. apply Forall_forall. intros e He. apply list_elem_of_In in He. specialize (H e He). apply andb_true_iff in H as [H _].
  by apply bool_decide_eq_true in H.
Qed.

Lemma signature_named : namedOk sfTxnSignature.
Proof. split; [apply (bool_decide_unpack _); vm_compute; exact I|vm_compute; reflexivity]. Qed.

(** ** One signature *)

Lemma present_peek f o o' : peekAtPField f o' = peekAtPField f o -> isFieldPresent f o' = isFieldPresent f o.
Proof. unfold isFieldPresent. by intros ->. Qed.

(** The check of an object that carries the signature of what is signed. *)
Lemma single_accepted L tx pk sig data canonical :
  isFieldPresent sfSigners tx = false -> peekAtPField sfSigningPubKey tx = Some (Leaf (STBlob pk)) ->
  peekAtPField sfTxnSignature tx = Some (Leaf (STBlob sig)) -> publicKeyType pk <> None -> verify L pk data sig canonical = Ret true ->
  singleSignHelper L tx data canonical = None.
Proof.
  intros Hs Hk Hsig Ht Hv. unfold singleSignHelper. rewrite Hs. unfold getFieldVL, getFieldBy. rewrite Hk, Hsig. cbn [asVL require]. rewrite Ret_bind.
  destruct (publicKeyType pk); [|done]. rewrite Ret_bind, Hv. done.
Qed.

Section Signed.
Context (cfg : settings) (load_big_s32 load_big_s64 : Blob -> Z) (L : library) (pk sk : Blob).
Context (load32 : loads 4 load_big_s32) (load64 : loads 8 load_big_s64) (Hkeys : keyPair L pk sk).

Lemma signTx_spec o type tid format :
  findByType type txFormats = Some format -> okObject (okValue cfg 10) (Some (soTemplate_ format)) o ->
  exists o' data sig, getSigningData o = Ret data /\ getSigningData o' = Ret data /\ (forall b, verify L pk data sig b = Ret true) /\
    setFieldVL sfTxnSignature sig o = Ret o' /\ okObject (okValue cfg 10) (Some (soTemplate_ format)) o' /\
    forall bs, (forall s, addObject true o' s = Ret (s ++ bs)) ->
      signTx L pk sk None (mkSTTx o type tid) = Ret (mkSTTx o' type (sha512Half L ((add32 hpTransactionID []).2 ++ bs))).
Proof using load32 load64 Hkeys.
  intros Hfmt Ho. destruct (tx_format type format Hfmt) as [Hknown Hin]. destruct (signing_bytes cfg _ _ _ _ load32 load64 Ho) as (sb & Hsb).
  destruct (sign_accepted L pk sk ((add32 hpTxSign []).2 ++ sb) Hkeys) as (sig & Hsign & Hl & Hb & Hver).
  destruct (setLeaf_ok cfg (soTemplate_ format) o _ (STBlob sig) (STBlob []) Ho Hin) as (o' & Hset & Ho');
    [done|exact signature_named|split; [unfold lengthZ in *; lia|done]|vm_compute; reflexivity..|]. cbn [sField] in Hset.
  pose proof (ok_proper _ _ _ Ho) as Hp. pose proof (ok_proper _ _ _ Ho') as Hp'. destruct (setField_spec _ _ _ _ Hp Hset) as (_ & _ & S' & P' & _).
  exists o', ((add32 hpTxSign []).2 ++ sb), sig. split_and!; [by apply Hsb| |done..|].
  - rewrite <- (Hsb (add32 hpTxSign []).2). unfold getSigningData. rewrite !addObject_sorted. do 3 f_equal. symmetry.
    apply (unsigned_field sfTxnSignature o o' (soTemplate_ format));
      [done..|by destruct Ho|by destruct Ho'|done|apply signature_named|vm_compute; reflexivity|done].
  - intros bs Hbs. unfold signTx. cbn [txObject tx_type_]. unfold getSigningData. rewrite Hsb, Ret_bind, Hsign, Ret_bind. unfold setFieldVL.
    rewrite Hset, Ret_bind. unfold getHash, hashOf. rewrite Hbs, !Ret_bind. done.
Qed.

End Signed.

(** Bytes that are too few or too many for a transaction. *)
Lemma readTx_length cfg load_big_s32 load_big_s64 L bs :
  ~ txMinSizeBytes <= lengthZ bs <= txMaxSizeBytes ->
  readTx cfg load_big_s32 load_big_s64 L (newSerialIter bs) = Throw "Transaction length invalid".
Proof.
  intros Hlen. unfold readTx. change (remain_ (newSerialIter bs)) with (lengthZ bs).
  destruct (Z.ltb_spec (lengthZ bs) txMinSizeBytes), (Z.ltb_spec txMaxSizeBytes (lengthZ bs)); try done. lia.
Qed.

(** C5: a transaction that is signed with the key it names is accepted.  Of a
    transaction whose object has the format of its type and values in their
    ranges, that names the public key, carries no Signers and no
    CounterpartySignature, and a key pair whose signatures verify: signing and
    serializing succeed; the check of the signature succeeds, whatever the
    rules; a server that reads the bytes makes the same transaction with the
    same identifier if their number is within the limits of a transaction
    (txMinSizeBytes to txMaxSizeBytes), and otherwise rejects the length. *)
Theorem signed_transaction_accepted (cfg : settings) (load_big_s32 load_big_s64 : Blob -> Z) (L : library) (pk sk : Blob)
    (o : Object) (type : Z) (tid : Blob) (format : Item) :
  loads 4 load_big_s32 -> loads 8 load_big_s64 -> keyPair L pk sk ->
  findByType type txFormats = Some format -> okObject (okValue cfg 10) (Some (soTemplate_ format)) o ->
  peekAtPField sfTransactionType o = Some (Leaf (STUInt16 type)) -> peekAtPField sfSigningPubKey o = Some (Leaf (STBlob pk)) ->
  isFieldPresent sfSigners o = false -> isFieldPresent sfCounterpartySignature o = false ->
  exists tx bs, signTx L pk sk None (mkSTTx o type tid) = Ret tx /\ addObject true (txObject tx) [] = Ret bs /\
    (txMinSizeBytes <= lengthZ bs <= txMaxSizeBytes ->
     readTx cfg load_big_s32 load_big_s64 L (newSerialIter bs) = Ret (tx, mkSerialIter (reverse bs) [])) /\
    (~ txMinSizeBytes <= lengthZ bs <= txMaxSizeBytes ->
     readTx cfg load_big_s32 load_big_s64 L (newSerialIter bs) = Throw "Transaction length invalid") /\
    forall expandedSignerList requireCanonicalSig, checkSign L expandedSignerList requireCanonicalSig (txObject tx) = Ret None.
Proof.
  intros L32 L64 Hkeys Hfmt Ho Htype Hpk Hsigners Hcounter.
  destruct (signTx_spec cfg _ _ L pk sk L32 L64 Hkeys o type tid format Hfmt Ho) as (o' & data & sig & _ & Hd & Hver & Hset & Ho' & Hsign).
  destruct (setField_spec _ _ _ _ (ok_proper _ _ _ Ho) Hset) as (_ & _ & S' & P' & _).
  assert (peekAtPField sfTransactionType o' = Some (Leaf (STUInt16 type))) as Htype' by (rewrite P' by (vm_compute; discriminate); done).
  destruct (transaction_back cfg _ _ L o' type format L32 L64 Hfmt Ho' Htype') as (bs & Hw & Hr).
  eexists _, bs. split_and!; [by apply Hsign|apply Hw|exact Hr|by apply readTx_length|]. intros expanded canonical. cbn [txObject].
  assert (publicKeyType pk <> None) as Ht by exact (keyPair_type _ _ _ Hkeys).
  rewrite <- (P' sfSigningPubKey) in Hpk by (vm_compute; discriminate).
  rewrite <- (present_peek _ _ _ (P' sfSigners ltac:(vm_compute; discriminate))) in Hsigners.
  rewrite <- (present_peek _ _ _ (P' sfCounterpartySignature ltac:(vm_compute; discriminate))) in Hcounter.
  unfold checkSign, checkSignOf. unfold getFieldVL at 1, getFieldBy at 1. rewrite Hpk. cbn [asVL require]. rewrite Ret_bind.
  rewrite bool_decide_false by (intros ->; by apply Ht). unfold checkSingleSign. rewrite Hd, Ret_bind.
  rewrite (single_accepted L o' pk sig data); [by rewrite Hcounter|done..].
Qed.

(** ** Several signatures *)

(** A signer whose account is not the forbidden one, with a valid signature of
    the message for its account. *)
Definition signerOk (L : library) (forbidden : option Blob) (canonical : bool) (makeMsg : Blob -> Blob) (x : SField * Object) (accountID : Blob) : Prop :=
  getAccountID sfAccount x.2 = Ret accountID /\ forbidden <> Some accountID /\
  exists spk sig, getFieldVL sfSigningPubKey x.2 = Ret spk /\ publicKeyType spk <> None /\
    getFieldVL sfTxnSignature x.2 = Ret sig /\ verify L spk (makeMsg accountID) sig canonical = Ret true.

Definition accountLt (a b : Blob) : Prop := fromBytes a < fromBytes b.

Lemma fromBytes_inj a b : bytesOf 20 a -> bytesOf 20 b -> fromBytes a = fromBytes b -> a = b.
Proof. intros [La Ha] [Lb Hb] E. rewrite <- (bigEndian_fromBytes a Ha), <- (bigEndian_fromBytes b Hb). congruence. Qed.

Definition accounts_ok (signers : list (SField * Object)) : Prop :=
  Forall (fun x => forall a, getAccountID sfAccount x.2 = Ret a -> bytesOf 20 a) signers.

Lemma signersLoop_iff L forbidden canonical makeMsg signers last :
  bytesOf 20 last -> accounts_ok signers ->
  signersLoop L forbidden canonical makeMsg last signers = Ret None <->
  exists accounts, Sorted accountLt (last :: accounts) /\ Forall2 (signerOk L forbidden canonical makeMsg) signers accounts.
Proof.
  intros Hlast Hacc. revert last Hlast. induction Hacc as [|[f o] signers Hx _ IH]; intros last Hlast; cbn [signersLoop].
  { split; [|done]. intros _. exists []. split; [repeat constructor|constructor]. }
  split.
  - intros (a & Ea & H)%bind_Ret. case_bool_decide as Hforb; [done|]. case_bool_decide as Hdup; [done|]. destruct (Z.ltb_spec (fromBytes a) (fromBytes last)) as [|Hle]; [done|].
    specialize (Hx a Ea). assert (accountLt last a) as Hlt by (unfold accountLt; pose proof (fromBytes_inj last a Hlast Hx) as Hi; lia || (destruct (decide (fromBytes last = fromBytes a)); [exfalso; auto|lia])).
    destruct (getFieldVL sfSigningPubKey o ≫= _) as [w|b] eqn:Ev; [done|]. destruct b; [|done]. cbn [negb] in H.
    apply IH in H as (accounts & Hs & Hall); [|done]. exists (a :: accounts). split; [constructor; [done|by constructor]|]. constructor; [|done].
    split; [done|]. split; [done|]. cbn [snd]. apply bind_Ret in Ev as (spk & Ek & Ev). destruct (publicKeyType spk) as [ty|] eqn:Et; [|done].
    apply bind_Ret in Ev as (sig & Es & Ev). exists spk, sig. by rewrite Et.
  - intros (accounts & Hs & Hall). inversion Hall as [|? a ? accounts' (Ea & Hforb & spk & sig & Ek & Et & Es & Ev) Hall']; subst. cbn [snd] in *.
    inversion Hs as [|? ? Hs' Hhd]; subst. inversion Hhd as [|? ? Hlt]; subst. unfold accountLt in Hlt. rewrite Ea, Ret_bind.
    rewrite bool_decide_false by done. rewrite bool_decide_false by (intros ->; lia). rewrite (proj2 (Z.ltb_ge _ _)) by lia.
    rewrite Ek, Ret_bind. destruct (publicKeyType spk); [|done]. rewrite Es, Ret_bind, Ev. cbn [negb]. apply IH; [by apply Hx|]. by exists accounts'.
Qed.

(** C31: a multiple signature is accepted exactly if there are signers and no
    single signature, the number of signers is within the limits, their
    accounts are in strictly increasing order (so no account signs twice) and,
    for the transaction itself, none is the account of the transaction, and
    every signer's signature of the transaction together with its account is
    valid. *)
Theorem multisign_iff (L : library) (expanded canonical own : bool) (tx sigObject : Object) (dataStart : Blob) (account : Blob)
    (signers : list (SField * Object)) :
  startMultiSigningData tx = Ret dataStart -> getFieldArray sfSigners sigObject = Ret signers ->
  (own = true -> getAccountID sfAccount tx = Ret account) -> accounts_ok signers ->
  checkMultiSign L expanded canonical own tx sigObject = Ret None <->
  isFieldPresent sfSigners sigObject = true /\ isFieldPresent sfTxnSignature sigObject = false /\
  1 <= Z.of_nat (length signers) <= (if expanded then 32 else 8) /\
  exists accounts, Sorted accountLt (replicate 20 0 :: accounts) /\
    Forall2 (signerOk L (if own then Some account else None) (fullyCanonicalSig tx canonical) (fun a => dataStart ++ a)) signers accounts.
Proof.
  intros Hd Hs Ho Hacc. unfold checkMultiSign.
  assert ((if own then getAccountID sfAccount tx ≫= fun a => Ret (Some a) else Ret None) = Ret (if own then Some account else None)) as ->.
  { destruct own; [|done]. by rewrite Ho. }
  rewrite Ret_bind, Hd, Ret_bind. unfold multiSignHelper. destruct (isFieldPresent sfSigners sigObject); [|split; [done|by intros (? & _)]]. cbn [negb].
  destruct (isFieldPresent sfTxnSignature sigObject); [split; [done|by intros (_ & ? & _)]|]. rewrite Hs, Ret_bind.
  assert (maxMultiSigners expanded = if expanded then 32 else 8) as -> by (by destruct expanded). unfold minMultiSigners.
  destruct (Z.ltb_spec (Z.of_nat (length signers)) 1) as [H1|H1]; [split; [done|lia]|].
  destruct (Z.ltb_spec (if expanded then 32 else 8) (Z.of_nat (length signers))) as [H2|H2]; [split; [done|lia]|]. cbn [orb].
  rewrite signersLoop_iff; [|split; [done|repeat constructor]; unfold is_byte; lia|done]. unfold finishMultiSigningData. naive_solver.
Qed.

(** ** Memos *)

Lemma hexDigit_back n : 0 <= n < 16 -> unxtab (hexDigit n) = n.
Proof.
  assert (forallb (fun n => unxtab (hexDigit n) =? n) (seqZ 0 16) = true) as H by (vm_compute; reflexivity).
  intros Hn. rewrite forallb_forall in H. apply Z.eqb_eq, H, list_elem_of_In, elem_of_seqZ. lia.
Qed.

Lemma byte_digits x : is_byte x -> 0 <= Z.shiftr x 4 < 16 /\ 0 <= Z.land x 15 < 16 /\ Z.lor (Z.shiftl (Z.shiftr x 4) 4) (Z.land x 15) = x.
Proof.
  assert (forallb (fun x => (0 <=? Z.shiftr x 4) && (Z.shiftr x 4 <? 16) && (0 <=? Z.land x 15) && (Z.land x 15 <? 16) &&
    (Z.lor (Z.shiftl (Z.shiftr x 4) 4) (Z.land x 15) =? x)) (seqZ 0 256) = true) as H by (vm_compute; reflexivity).
  intros Hx. rewrite forallb_forall in H. assert (In x (seqZ 0 256)) as Hin by (apply list_elem_of_In, elem_of_seqZ; unfold is_byte in Hx; lia). specialize (H x Hin). lia.
Qed.

Lemma strHex_back b : Forall is_byte b -> strUnHex (strHex b) = Some b.
Proof.
  intros Hb. assert (Nat.odd (length (strHex b)) = false /\ unHexPairs (strHex b) = Some b) as [Ho Hp]; [|unfold strUnHex; by rewrite Ho].
  induction Hb as [|x b Hx _ [IH1 IH2]]; [done|]. destruct (byte_digits x Hx) as (H1 & H2 & H3). unfold strHex. cbn [flat_map app length].
  fold (strHex b). split; [done|]. cbn [unHexPairs]. rewrite !hexDigit_back, IH2 by done. rewrite (proj2 (Z.ltb_ge _ 0)), (proj2 (Z.ltb_ge _ 0)) by lia.
  cbn [orb option_map]. by rewrite H3.
Qed.

Lemma firstReason_None {A} (check : A -> option string) l : firstReason check l = None <-> Forall (fun x => check x = None) l.
Proof. induction l as [|x l IH]; [by split; [constructor|]|]. cbn. rewrite Forall_cons, <- IH. destruct (check x); naive_solver. Qed.

(** The contents of a memo: blobs in the three fields, of which all but the
    data are of the characters of URLs. *)
Definition memoContent (x : SField * STValue) : Prop :=
  (code x.1 = code sfMemoType \/ code x.1 = code sfMemoData \/ code x.1 = code sfMemoFormat) /\
  (code x.1 <> code sfMemoData -> forall b, x.2 = Leaf (STBlob b) -> Forall (fun c => allowedSymbols c = true) b).

Definition blobElement (x : SField * STValue) : Prop := exists b, x.2 = Leaf (STBlob b) /\ Forall is_byte b.

Lemma memoElement_iff x : blobElement x -> memoElementOkay x = None <-> memoContent x.
Proof.
  destruct x as [name v]. intros (b & Hv & Hb). cbn [fst snd] in Hv. subst v. unfold memoElementOkay, memoContent, sf_eqb. cbn [fst snd memoText].
  rewrite (strHex_back b Hb). assert (forallb allowedSymbols b = true <-> Forall (fun c => allowedSymbols c = true) b) as Hall.
  { rewrite Forall_forall, forallb_forall. setoid_rewrite list_elem_of_In. done. }
  assert ((forall b', Leaf (STBlob b) = Leaf (STBlob b') -> Forall (fun c => allowedSymbols c = true) b') <->
    forallb allowedSymbols b = true) as Hb'.
  { rewrite Hall. split; [by intros H; apply H|]. by intros H b' [= <-]. }
  destruct (Z.eqb_spec (code name) (code sfMemoData)) as [Ed|Ed].
  { rewrite andb_false_r. cbn [andb]. split; [|done]. intros _. split; [by right; left|done]. }
  assert (forall A : Prop, (code name <> code sfMemoData -> A) <-> A) as Hdrop by (intros A; split; auto). rewrite Hdrop, Hb'.
  destruct (Z.eqb_spec (code name) (code sfMemoType)) as [Et|Et]; [|destruct (Z.eqb_spec (code name) (code sfMemoFormat)) as [Ef|Ef]]; cbn [negb andb].
  - destruct (forallb allowedSymbols b); (split; [|by intros [_ ?]]); [by split; [left|]|done].
  - destruct (forallb allowedSymbols b); (split; [|by intros [_ ?]]); [by split; [right; right|]|done].
  - split; [done|]. by intros [[?|[?|?]] _].
Qed.

(** The memos of a transaction are accepted exactly if they take at most
    1024 bytes and contain only memos whose type, data and format are given,
    with type and format in the characters of URLs. *)
Theorem memo_rule (st : Object) (memos : list (SField * Object)) (s : Blob) :
  isFieldPresent sfMemos st = true -> getFieldArray sfMemos st = Ret memos -> addValue (STArr memos) [] = Ret s ->
  Forall (fun memo => Forall blobElement memo.2.2) memos ->
  isMemoOkay st = Ret None <->
  lengthZ s <= 1024 /\ Forall (fun memo => code memo.1 = code sfMemo /\ Forall memoContent memo.2.2) memos.
Proof.
  intros Hp Hm Hs Hb. unfold isMemoOkay. rewrite Hp, Hm, Ret_bind, Hs, Ret_bind. cbn [negb].
  destruct (Z.ltb_spec 1024 (lengthZ s)) as [Hl|Hl]; [split; [done|lia]|].
  assert (firstReason memoOkay memos = None <-> Forall (fun memo => code memo.1 = code sfMemo /\ Forall memoContent memo.2.2) memos) as <-.
  { rewrite firstReason_None. clear -Hb. induction Hb as [|[f o] memos Hx _ IH]; [done|]. rewrite !Forall_cons, IH. cbn [fst snd] in *.
    unfold memoOkay, sf_eqb. cbn [fst snd]. destruct (Z.eqb_spec (code f) (code sfMemo)) as [E|E]; cbn [negb]; [|naive_solver].
    rewrite firstReason_None, !Forall_forall. rewrite Forall_forall in Hx. split.
    - intros [H1 H2]. split; [|done]. split; [done|]. intros x Hin. apply memoElement_iff; auto.
    - intros [[_ H1] H2]. split; [|done]. intros x Hin. apply memoElement_iff; auto. }
  split; [intros [= H]; by split|intros [_ H]; by rewrite H].
Qed.

(** ** Samples *)

Lemma sampleTx_ok : okObject (okValue sampleSettings 10) (Some (soTemplate_ accountSet)) sampleTx.
Proof.
  assert (sampleTx = (Some (soTemplate_ accountSet), sampleTx.2)) as -> by (vm_compute; reflexivity).
  apply simpleObject_ok. vm_compute. reflexivity.
Qed.

Lemma signed_transaction_accepted_witness :
  exists tx, signTx sampleLibrary sampleKey [] None (mkSTTx sampleTx 3 []) = Ret tx /\
    checkSign sampleLibrary true true (txObject tx) = Ret None.
Proof.
  destruct (signed_transaction_accepted sampleSettings (loadSigned 4) (loadSigned 8) sampleLibrary sampleKey [] sampleTx 3 [] accountSet)
    as (tx & bs & Hs & _ & _ & _ & Hc).
  - apply loadSigned_loads. lia.
  - apply loadSigned_loads. lia.
  - apply sampleLibrary_keys. vm_compute. discriminate.
  - vm_compute. reflexivity.
  - exact sampleTx_ok.
  - vm_compute. reflexivity.
  - vm_compute. reflexivity.
  - vm_compute. reflexivity.
  - vm_compute. reflexivity.
  - exists tx. split; [exact Hs|apply Hc].
Defined.

(** Two signers of a transaction. *)
Definition sampleSigner (b : Z) : SField * Object :=
  (getFieldByName "Signer",
   (findSOTemplateBySField (getFieldByName "Signer"),
    [(sfAccount, Leaf (STAccount_ (account_of b))); (sfSigningPubKey, Leaf (STBlob sampleKey)); (sfTxnSignature, Leaf (STBlob (derSignature 5 200)))])).

Definition multiSigned : Object :=
  match setFieldVL sfSigningPubKey [] sampleTx ≫= setFieldArray sfSigners [sampleSigner 4; sampleSigner 6] with Ret o => o | Throw _ => sampleTx end.

Lemma multisign_iff_witness : checkMultiSign sampleLibrary false true true multiSigned multiSigned = Ret None.
Proof.
  apply (multisign_iff sampleLibrary false true true multiSigned multiSigned
    (bytesOr (startMultiSigningData multiSigned)) (replicate 20 9) [sampleSigner 4; sampleSigner 6]).
  - vm_compute. reflexivity.
  - vm_compute. reflexivity.
  - intros _. vm_compute. reflexivity.
  - constructor; [|constructor; [|constructor]]; intros a Ha; vm_compute in Ha; injection Ha as <-; (split; [reflexivity|]);
      repeat (constructor; [split; [discriminate|reflexivity]|]); constructor.
  - split; [vm_compute; reflexivity|]. split; [vm_compute; reflexivity|]. split; [split; vm_compute; discriminate|].
    exists [replicate 20 4; replicate 20 6]. split; [repeat constructor; vm_compute; reflexivity|].
    constructor; [|constructor; [|constructor]]; (split; [vm_compute; reflexivity|]; split; [discriminate|]);
      exists sampleKey, (derSignature 5 200); (split; [vm_compute; reflexivity|]; split; [vm_compute; discriminate|]);
      (split; vm_compute; reflexivity).
Defined.

Definition memoTx : Object :=
  (None, [(sfMemos, STArr [(sfMemo, (None, [(sfMemoType, Leaf (STBlob [116; 120; 116])); (sfMemoData, Leaf (STBlob [0; 255]))]))])]).

Lemma memo_rule_witness : isMemoOkay memoTx = Ret None.
Proof.
  apply (memo_rule memoTx [(sfMemo, (None, [(sfMemoType, Leaf (STBlob [116; 120; 116])); (sfMemoData, Leaf (STBlob [0; 255]))]))]
    (bytesOr (addValue (STArr [(sfMemo, (None, [(sfMemoType, Leaf (STBlob [116; 120; 116])); (sfMemoData, Leaf (STBlob [0; 255]))]))]) []))).
  - vm_compute. reflexivity.
  - vm_compute. reflexivity.
  - vm_compute. reflexivity.
  - constructor; [|constructor]. constructor; [|constructor; [|constructor]]; eexists; (split; [reflexivity|]);
      repeat (constructor; [split; [discriminate|reflexivity]|]); constructor.
  - split; [vm_compute; discriminate|]. constructor; [|constructor]. split; [vm_compute; reflexivity|]. constructor; [|constructor; [|constructor]].
    + split; [left; reflexivity|]. intros _ b [= <-]. repeat constructor.
    + split; [right; left; reflexivity|]. intros H. exfalso. apply H. reflexivity.
Defined.
