(* ===== verification/NegativeUNL.v ===== *)
(** * The negative list of validators

    Models [src/xrpld/app/misc/NegativeUNLVote.cpp], the vote of a server to
    disable or re-enable a validator, with the parts of a ledger it leads to:
    [Change::applyUNLModify] of [src/xrpld/app/tx/detail/Change.cpp], and
    [negativeUNL], [validatorToDisable], [validatorToReEnable] and
    [updateNegativeUNL] of [src/xrpld/app/ledger/Ledger.cpp].  The entry of the
    ledger is the record [NegUNL]; the key of a disabled validator is a required
    field there.  [calcNodeID], a hash of a key, and the node identifier of a
    validation are arguments. *)

From Stdlib Require Import SpecFloat.
From S2P Require Import Prelude Serializer AgedMap LedgerTrie Validations Keys.

Definition FLAG_LEDGER_INTERVAL : Z := 256.
Definition negativeUNLLowWaterMark : Z := FLAG_LEDGER_INTERVAL * 50 / 100.
Definition negativeUNLHighWaterMark : Z := FLAG_LEDGER_INTERVAL * 80 / 100.
Definition negativeUNLMinLocalValsToVote : Z := FLAG_LEDGER_INTERVAL * 90 / 100.
Definition newValidatorDisableSkip : Z := FLAG_LEDGER_INTERVAL * 2.

Definition isFlagLedger (seq : Z) : bool := seq mod FLAG_LEDGER_INTERVAL =? 0.
Definition isVotingLedger (seq : Z) : bool := u32 (seq + 1) mod FLAG_LEDGER_INTERVAL =? 0.

(** ** The ledger *)

Record NegUNL := mkNegUNL {
  sfDisabledValidators : list (Blob * Z);   (* sfPublicKey, sfFirstLedgerSequence *)
  sfValidatorToDisable : option Blob;
  sfValidatorToReEnable : option Blob;
}.

Definition emptyNegUNL : NegUNL := mkNegUNL [] None None.

Definition validKey (k : Blob) : bool := bool_decide (is_Some (publicKeyType k)).

Definition negativeUNL (sle : option NegUNL) : gset Blob :=
  match sle with Some n => list_to_set (List.filter validKey (sfDisabledValidators n).*1) | None => ∅ end.

Definition validatorToDisable (sle : option NegUNL) : option Blob :=
  match sle with
  | Some n => match sfValidatorToDisable n with Some k => if validKey k then Some k else None | None => None end
  | None => None
  end.

Definition validatorToReEnable (sle : option NegUNL) : option Blob :=
  match sle with
  | Some n => match sfValidatorToReEnable n with Some k => if validKey k then Some k else None | None => None end
  | None => None
  end.

Definition updateNegativeUNL (seq : Z) (sle : option NegUNL) : option NegUNL :=
  match sle with
  | None => None
  | Some n =>
      match sfValidatorToDisable n, sfValidatorToReEnable n with
      | None, None => Some n
      | toDisable, toReEnable =>
          let kept := List.filter (fun v => negb (bool_decide (toReEnable = Some v.1))) (sfDisabledValidators n) in
          let newNUnl := kept ++ match toDisable with Some k => [(k, seq)] | None => [] end in
          match newNUnl with [] => None | _ => Some (mkNegUNL newNUnl None None) end
      end
  end.

(** A transaction [ttUNL_MODIFY]; a field may be missing in one that was made
    elsewhere. *)
Record UNLModify := mkUNLModify {
  sfUNLModifyDisabling : option Z;
  sfLedgerSequence : option Z;
  sfUNLModifyValidator : option Blob;
}.

#[export] Instance UNLModify_eq_dec : EqDecision UNLModify.
Proof. solve_decision. Defined.

Inductive TER := tesSUCCESS | tefFAILURE.

(** [applyUNLModify]: the entry is inserted before the last checks, but a
    transaction that fails leaves no changes. *)
Definition applyUNLModify (viewSeq : Z) (tx : UNLModify) (sle : option NegUNL) : TER * option NegUNL :=
  if negb (isFlagLedger viewSeq) then (tefFAILURE, sle)
  else
    match sfUNLModifyDisabling tx, sfLedgerSequence tx, sfUNLModifyValidator tx with
    | Some d, Some seq, Some validator =>
        if 1 <? d then (tefFAILURE, sle)
        else
          let disabling := negb (d =? 0) in
          if negb (seq =? viewSeq) then (tefFAILURE, sle)
          else if negb (validKey validator) then (tefFAILURE, sle)
          else
            let negUnlObject := default emptyNegUNL sle in
            let found := existsb (fun v => bool_decide (v.1 = validator)) (sfDisabledValidators negUnlObject) in
            if disabling then
              if bool_decide (is_Some (sfValidatorToDisable negUnlObject)) then (tefFAILURE, sle)
              else if bool_decide (sfValidatorToReEnable negUnlObject = Some validator) then (tefFAILURE, sle)
              else if found then (tefFAILURE, sle)
              else (tesSUCCESS, Some (mkNegUNL (sfDisabledValidators negUnlObject) (Some validator) (sfValidatorToReEnable negUnlObject)))
            else
              if bool_decide (is_Some (sfValidatorToReEnable negUnlObject)) then (tefFAILURE, sle)
              else if bool_decide (sfValidatorToDisable negUnlObject = Some validator) then (tefFAILURE, sle)
              else if negb found then (tefFAILURE, sle)
              else (tesSUCCESS, Some (mkNegUNL (sfDisabledValidators negUnlObject) (sfValidatorToDisable negUnlObject) (Some validator)))
    | _, _, _ => (tefFAILURE, sle)
    end.

(** ** The vote *)

(** What the vote reads of the previous ledger. *)
Record PrevLedger := mkPrevLedger {
  p_seq : Z;
  p_hash : Z;
  p_skip : option (list Z);        (* sfHashes of the skip list, if there is one *)
  p_negUnl : option NegUNL;
}.

Inductive NegativeUNLModify := ToDisable | ToReEnable.

Record NegativeUNLVote := mkNegativeUNLVote { myId_ : Z; newValidators_ : gmap Z Z }.

Record Candidates := mkCandidates { toDisableCandidates : list Z; toReEnableCandidates : list Z }.

(** [std::ceil(unl.size() * negativeUNLMaxListed)], a product of floats. *)
Definition f32_ceil (x : spec_float) : Z :=
  match x with
  | S754_finite sign m e =>
      let v := if sign then Z.neg m else Z.pos m in
      if 0 <=? e then v * 2 ^ e else (v + 2 ^ (- e) - 1) / 2 ^ (- e)
  | _ => 0
  end.

Definition negativeUNLMaxListed : spec_float := S754_finite false 8388608 (-25).

Definition maxNegativeListed (size : Z) : Z := f32_ceil (f32_mul (f32_of size) negativeUNLMaxListed).

Definition canAdd (unl negUnl : gset Z) : bool :=
  Z.of_nat (size (filter (fun n => n ∈ negUnl) unl)) <? maxNegativeListed (Z.of_nat (size unl)).

Definition findAllCandidates (nv : gmap Z Z) (unl negUnl : gset Z) (scoreTable : gmap Z Z) : Candidates :=
  let nodes := map_to_list scoreTable in
  let toDisable := (filter (fun '(nodeId, score) =>
    canAdd unl negUnl = true /\ score < negativeUNLLowWaterMark /\ (nodeId ∉ negUnl) /\ nv !! nodeId = None) nodes).*1 in
  let toReEnable := (filter (fun '(nodeId, score) => negativeUNLHighWaterMark < score /\ nodeId ∈ negUnl) nodes).*1 in
  mkCandidates toDisable
    match toReEnable with
    | [] => filter (fun n => n ∉ unl) (elements negUnl)
    | _ => toReEnable
    end.

(** [choose]: [NodeID::fromVoid] takes the first 160 bits of the hash. *)
Definition choose (randomPadData : Z) (candidates : list Z) : option Z :=
  let randomPad := Z.shiftr randomPadData 96 in
  match candidates with
  | [] => None
  | c :: candidates =>
      Some (foldl (fun txNodeID x => if Z.lxor x randomPad <? Z.lxor txNodeID randomPad then x else txNodeID) c candidates)
  end.

Definition newValidators (seq : Z) (nowTrusted : gset Z) (st : NegativeUNLVote) : NegativeUNLVote :=
  mkNegativeUNLVote (myId_ st) (newValidators_ st ∪ gset_to_gmap seq nowTrusted).

Definition purgeNewValidators (seq : Z) (st : NegativeUNLVote) : NegativeUNLVote :=
  mkNegativeUNLVote (myId_ st) (filter (fun '(_, s) => u32 (seq - s) <= newValidatorDisableSkip) (newValidators_ st)).

(** The transaction of [addTx]; an equal one is not added again. *)
Definition modifyTx (seq : Z) (vp : Blob) (modify : NegativeUNLModify) : UNLModify :=
  mkUNLModify (Some match modify with ToDisable => 1 | ToReEnable => 0 end) (Some seq) (Some vp).

Definition addTx (seq : Z) (vp : Blob) (modify : NegativeUNLModify) (initialSet : list UNLModify) : list UNLModify :=
  let tx := modifyTx seq vp modify in
  if bool_decide (tx ∈ initialSet) then initialSet else initialSet ++ [tx].

Section Store.
Context {L : Type} {LO : LedgerOps L} (env : Env L) (getNodeID : Validation -> Z) (calcNodeID : Blob -> Z).

(** The scores after the validations of one ledger. *)
Definition scoreLedger (scoreTable : gmap Z Z) (vals : list Validation) : gmap Z Z :=
  foldl (fun t v =>
    match t !! getNodeID v with
    | Some s => <[getNodeID v := u32 (s + 1)]> t
    | None => t
    end) scoreTable vals.

(** The loop over the ancestors, from the latest; [i] counts the turns. *)
Fixpoint scoreAncestors (n : nat) (i seq : Z) (ancestors : list Z) (scoreTable : gmap Z Z) (st : Validations L) :
    gmap Z Z * Validations L :=
  match n, ancestors with
  | S n, hash :: ancestors =>
      let '(vals, st) := getTrustedForLedger env hash (u32 (seq - 2 - i)) st in
      scoreAncestors n (i + 1) seq ancestors (scoreLedger scoreTable vals) st
  | _, _ => (scoreTable, st)
  end.

Definition buildScoreTable (myId : Z) (prevLedger : PrevLedger) (unl : gset Z) (st : Validations L) :
    option (gmap Z Z) * Validations L :=
  let seq := u32 (p_seq prevLedger + 1) in
  let st := setSeqToKeep (u32 (seq - 1)) (u32 (seq + FLAG_LEDGER_INTERVAL)) st in
  match p_skip prevLedger with
  | None => (None, st)
  | Some ledgerAncestors =>
      if Z.of_nat (length ledgerAncestors) <? FLAG_LEDGER_INTERVAL then (None, st)
      else
        let '(scoreTable, st) :=
          scoreAncestors (Z.to_nat FLAG_LEDGER_INTERVAL) 0 seq (reverse ledgerAncestors) (gset_to_gmap 0 unl) st in
        let myValidationCount := default 0 (scoreTable !! myId) in
        if myValidationCount <? negativeUNLMinLocalValsToVote then (None, st)
        else if (negativeUNLMinLocalValsToVote <? myValidationCount) && (myValidationCount <=? FLAG_LEDGER_INTERVAL)
        then (Some scoreTable, st)
        else (None, st)
  end.

(** The keys on the next negative list. *)
Definition nextNegUnlKeys (sle : option NegUNL) : gset Blob :=
  let negUnlKeys := negativeUNL sle in
  let negUnlKeys := match validatorToDisable sle with Some k => {[ k ]} ∪ negUnlKeys | None => negUnlKeys end in
  match validatorToReEnable sle with Some k => negUnlKeys ∖ {[ k ]} | None => negUnlKeys end.

(** [nidToKeyMap]: the first key with an identifier stays. *)
Definition keyMap (keys : list Blob) (m : gmap Z Blob) : gmap Z Blob :=
  foldl (fun m k => match m !! calcNodeID k with Some _ => m | None => <[calcNodeID k := k]> m end) m keys.

(** The transaction for a chosen node; the key of the node is known. *)
Definition addChosen (seq pad : Z) (candidates : list Z) (nidToKeyMap : gmap Z Blob) (modify : NegativeUNLModify)
    (initialSet : list UNLModify) : list UNLModify :=
  match choose pad candidates with
  | None => initialSet
  | Some n => match nidToKeyMap !! n with Some k => addTx seq k modify initialSet | None => initialSet end
  end.

Definition doVoting (prevLedger : PrevLedger) (unlKeys : gset Blob) (vote : NegativeUNLVote) (initialSet : list UNLModify)
    (st : Validations L) : NegativeUNLVote * list UNLModify * Validations L :=
  let unlNodeIDs : gset Z := set_map calcNodeID unlKeys in
  let nidToKeyMap := keyMap (elements unlKeys) ∅ in
  match buildScoreTable (myId_ vote) prevLedger unlNodeIDs st with
  | (None, st) => (vote, initialSet, st)
  | (Some scoreTable, st) =>
      let negUnlKeys := nextNegUnlKeys (p_negUnl prevLedger) in
      let negUnlNodeIDs : gset Z := set_map calcNodeID negUnlKeys in
      let nidToKeyMap := keyMap (elements negUnlKeys) nidToKeyMap in
      let seq := u32 (p_seq prevLedger + 1) in
      let vote := purgeNewValidators seq vote in
      let candidates := findAllCandidates (newValidators_ vote) unlNodeIDs negUnlNodeIDs scoreTable in
      let initialSet := addChosen seq (p_hash prevLedger) (toDisableCandidates candidates) nidToKeyMap ToDisable initialSet in
      (vote, addChosen seq (p_hash prevLedger) (toReEnableCandidates candidates) nidToKeyMap ToReEnable initialSet, st)
  end.

End Store.
