(* ===== verification/NegativeUNLProperties.v ===== *)
(** * Properties of the negative list of validators *)

From stdpp Require Import sorting.
From S2P Require Import Prelude Serializer AgedMap LedgerTrie Validations Keys NegativeUNL.

(** ** The entry of the ledger *)

Record negUnl_ok (n : NegUNL) : Prop := {
  no_nodup : NoDup (sfDisabledValidators n).*1;
  no_valid : Forall (fun k => validKey k = true) (sfDisabledValidators n).*1;
  no_disable : forall k, sfValidatorToDisable n = Some k ->
    validKey k = true /\ (k ∉ (sfDisabledValidators n).*1) /\ sfValidatorToReEnable n <> Some k;
  no_enable : forall k, sfValidatorToReEnable n = Some k -> k ∈ (sfDisabledValidators n).*1;
}.

Definition sle_ok (sle : option NegUNL) : Prop := match sle with Some n => negUnl_ok n | None => True end.

Lemma empty_ok : negUnl_ok emptyNegUNL.
Proof. split; cbn; [constructor|constructor|done..]. Qed.

Lemma default_ok sle : sle_ok sle -> negUnl_ok (default emptyNegUNL sle).
Proof. destruct sle; [done|]. intros _. apply empty_ok. Qed.

Lemma found_iff validator (l : list (Blob * Z)) : existsb (fun v => bool_decide (v.1 = validator)) l = true <-> validator ∈ l.*1.
Proof.
  rewrite existsb_exists, list_elem_of_fmap. split.
  - intros (v & Hv & E). apply bool_decide_eq_true in E. exists v. split; [done|]. by apply list_elem_of_In.
  - intros (v & -> & Hv). exists v. split; [by apply list_elem_of_In|]. by apply bool_decide_eq_true.
Qed.

(** When a transaction is accepted, and what it does. *)
Definition acceptable (viewSeq : Z) (tx : UNLModify) (n : NegUNL) (validator : Blob) (modify : NegativeUNLModify) : Prop :=
  isFlagLedger viewSeq = true /\ sfLedgerSequence tx = Some viewSeq /\ sfUNLModifyValidator tx = Some validator /\ validKey validator = true /\
  match modify with
  | ToDisable => (exists d, sfUNLModifyDisabling tx = Some d /\ d <= 1 /\ d <> 0) /\
      sfValidatorToDisable n = None /\ sfValidatorToReEnable n <> Some validator /\ validator ∉ (sfDisabledValidators n).*1
  | ToReEnable => sfUNLModifyDisabling tx = Some 0 /\
      sfValidatorToReEnable n = None /\ sfValidatorToDisable n <> Some validator /\ validator ∈ (sfDisabledValidators n).*1
  end.

Definition pend (validator : Blob) (modify : NegativeUNLModify) (n : NegUNL) : NegUNL :=
  match modify with
  | ToDisable => mkNegUNL (sfDisabledValidators n) (Some validator) (sfValidatorToReEnable n)
  | ToReEnable => mkNegUNL (sfDisabledValidators n) (sfValidatorToDisable n) (Some validator)
  end.

Lemma apply_accepted viewSeq tx sle validator modify :
  acceptable viewSeq tx (default emptyNegUNL sle) validator modify ->
  applyUNLModify viewSeq tx sle = (tesSUCCESS, Some (pend validator modify (default emptyNegUNL sle))).
Proof.
  intros (Hf & Hs & Hv & Hk & H). unfold applyUNLModify. rewrite Hf, Hs, Hv, Hk. cbn [negb]. destruct modify.
  - destruct H as ((d & -> & Hd1 & Hd0) & H1 & H2 & H3). rewrite (proj2 (Z.ltb_ge 1 d)), Z.eqb_refl, (proj2 (Z.eqb_neq d 0)) by lia. cbn [negb].
    rewrite H1, bool_decide_false by (by intros [? ?]). rewrite bool_decide_false by done.
    destruct (existsb _ _) eqn:E; [by apply found_iff in E|done].
  - destruct H as (-> & H1 & H2 & H3). rewrite (proj2 (Z.ltb_ge 1 0)), Z.eqb_refl by lia. cbn [negb Z.eqb].
    rewrite H1, bool_decide_false by (by intros [? ?]). rewrite bool_decide_false by done. by rewrite (proj2 (found_iff _ _) H3).
Qed.

Lemma apply_inv viewSeq tx sle :
  applyUNLModify viewSeq tx sle = (tefFAILURE, sle) \/
  exists validator modify, acceptable viewSeq tx (default emptyNegUNL sle) validator modify /\
    applyUNLModify viewSeq tx sle = (tesSUCCESS, Some (pend validator modify (default emptyNegUNL sle))).
Proof.
  unfold applyUNLModify. destruct (isFlagLedger viewSeq) eqn:Hf; cbn [negb]; [|by left].
  destruct (sfUNLModifyDisabling tx) as [d|] eqn:Ed; [|by left]. destruct (sfLedgerSequence tx) as [seq|] eqn:Es; [|by left].
  destruct (sfUNLModifyValidator tx) as [validator|] eqn:Ev; [|by left]. destruct (Z.ltb_spec 1 d); [by left|].
  destruct (Z.eqb_spec seq viewSeq) as [->|]; cbn [negb]; [|by left]. destruct (validKey validator) eqn:Ek; cbn [negb]; [|by left].
  destruct (Z.eqb_spec d 0) as [->|Hd]; cbn [negb].
  - case_bool_decide as H1; [by left|]. case_bool_decide as H2; [by left|]. destruct (existsb _ _) eqn:Ex; cbn [negb]; [|by left].
    right. exists validator, ToReEnable. split; [|done]. split_and!; try done; [|by apply found_iff]. by destruct (sfValidatorToReEnable _); [destruct H1|].
  - case_bool_decide as H1; [by left|]. case_bool_decide as H2; [by left|]. destruct (existsb _ _) eqn:Ex; [by left|].
    right. exists validator, ToDisable. split; [|done]. split_and!; try done; [by exists d| |].
    + by destruct (sfValidatorToDisable _); [destruct H1|].
    + intros Hin. apply found_iff in Hin. congruence.
Qed.

Lemma pend_ok viewSeq tx n validator modify : negUnl_ok n -> acceptable viewSeq tx n validator modify -> negUnl_ok (pend validator modify n).
Proof.
  intros [H1 H2 H3 H4] (_ & _ & _ & Hk & H). destruct modify; destruct H as (_ & E1 & E2 & E3); split; cbn; try done.
  - by intros k [= <-].
  - intros k Ek. destruct (H3 k Ek) as (? & ? & _). split_and!; [done..|]. congruence.
  - by intros k [= <-].
Qed.

Lemma apply_ok viewSeq tx sle : sle_ok sle -> sle_ok (applyUNLModify viewSeq tx sle).2.
Proof.
  intros Hok. destruct (apply_inv viewSeq tx sle) as [->|(validator & modify & Ha & ->)]; [done|]. cbn. eapply pend_ok; [by apply default_ok|exact Ha].
Qed.

(** ** The update at a flag ledger *)

Lemma kept_keys toReEnable (l : list (Blob * Z)) k :
  k ∈ (List.filter (fun v => negb (bool_decide (toReEnable = Some v.1))) l).*1 <-> k ∈ l.*1 /\ toReEnable <> Some k.
Proof.
  rewrite !list_elem_of_fmap. split.
  - intros (v & -> & Hv). apply list_elem_of_In, filter_In in Hv as [Hv E]. apply negb_true_iff, bool_decide_eq_false in E.
    split; [|done]. exists v. split; [done|]. by apply list_elem_of_In.
  - intros [(v & -> & Hv) Hne]. exists v. split; [done|]. apply list_elem_of_In, filter_In. split; [by apply list_elem_of_In|].
    by apply negb_true_iff, bool_decide_eq_false.
Qed.

Lemma NoDup_kept (f : Blob * Z -> bool) (l : list (Blob * Z)) : NoDup l.*1 -> NoDup (List.filter f l).*1.
Proof.
  induction l as [|v l IH]; [done|]. cbn [fmap list_fmap]. intros [Hv Hn]%NoDup_cons. cbn [List.filter]. destruct (f v); [|by apply IH]. cbn. apply NoDup_cons.
  split; [|by apply IH]. intros (w & E & Hw)%list_elem_of_fmap. apply Hv. rewrite E. apply (list_elem_of_fmap_2 fst).
  apply list_elem_of_In, filter_In in Hw as [Hw _]. by apply list_elem_of_In.
Qed.

(** The list the update makes. *)
Definition updated (seq : Z) (n : NegUNL) : list (Blob * Z) :=
  List.filter (fun v => negb (bool_decide (sfValidatorToReEnable n = Some v.1))) (sfDisabledValidators n) ++
  match sfValidatorToDisable n with Some k => [(k, seq)] | None => [] end.

Lemma updated_keys seq n k : negUnl_ok n ->
  k ∈ (updated seq n).*1 <-> (k ∈ (sfDisabledValidators n).*1 /\ sfValidatorToReEnable n <> Some k) \/ sfValidatorToDisable n = Some k.
Proof.
  intros Hn. unfold updated. rewrite fmap_app, elem_of_app, kept_keys. destruct (sfValidatorToDisable n) as [d|]; cbn.
  - rewrite list_elem_of_singleton. naive_solver.
  - rewrite elem_of_nil. naive_solver.
Qed.

Lemma updated_ok seq n : negUnl_ok n -> negUnl_ok (mkNegUNL (updated seq n) None None).
Proof.
  intros Hn. destruct (Hn) as [H1 H2 H3 H4]. split; cbn [sfDisabledValidators sfValidatorToDisable sfValidatorToReEnable]; [| |done..].
  - unfold updated. rewrite fmap_app. apply NoDup_app. split_and!; [by apply NoDup_kept| |].
    + intros k [Hk _]%kept_keys. destruct (sfValidatorToDisable n) as [d|]; cbn; [|by apply not_elem_of_nil].
      intros ->%list_elem_of_singleton. by destruct (H3 d eq_refl) as (_ & ? & _).
    + destruct (sfValidatorToDisable n); cbn; [apply NoDup_singleton|constructor].
  - apply Forall_forall. intros k [[Hk _]|Hk]%updated_keys; [|by apply H3|done]. rewrite Forall_forall in H2. auto.
Qed.

Lemma update_cases seq sle : sle_ok sle ->
  updateNegativeUNL seq sle = None /\ match sle with Some n => updated seq n = [] | None => True end \/
  exists n l, sle = Some n /\ updateNegativeUNL seq sle = Some (mkNegUNL l None None) /\ l = updated seq n.
Proof.
  destruct sle as [n|]; [|by left]. intros Hn. unfold updateNegativeUNL.
  assert (match updated seq n with [] => None | _ => Some (mkNegUNL (updated seq n) None None) end = None /\ updated seq n = [] \/
    match updated seq n with [] => None | _ => Some (mkNegUNL (updated seq n) None None) end = Some (mkNegUNL (updated seq n) None None)) as H.
  { destruct (updated seq n); [by left|by right]. }
  unfold updated in *. destruct (sfValidatorToDisable n) as [d|] eqn:Ed, (sfValidatorToReEnable n) as [r|] eqn:Er.
  1-3: destruct H as [[-> H]| ->]; [left; by split|right; eexists n, _; split; [reflexivity|]; split; [reflexivity|by rewrite ?Ed, ?Er]].
  right. exists n, (sfDisabledValidators n). split_and!; [done| |].
  - destruct n as [l a b]. cbn in *. by subst.
  - rewrite Ed, Er, app_nil_r. clear. induction (sfDisabledValidators n) as [|v l IH]; [done|]. cbn. by f_equal.
Qed.

Lemma update_ok seq sle : sle_ok sle -> sle_ok (updateNegativeUNL seq sle).
Proof.
  intros Hok. destruct (update_cases seq sle Hok) as [[-> _]|(n & l & -> & -> & ->)]; [done|]. cbn. by apply updated_ok.
Qed.

Lemma valid_keys n k : negUnl_ok n -> k ∈ List.filter validKey (sfDisabledValidators n).*1 <-> k ∈ (sfDisabledValidators n).*1.
Proof.
  intros [_ Hv _ _]. rewrite Forall_forall in Hv. rewrite list_elem_of_In, filter_In, <- list_elem_of_In. naive_solver.
Qed.

Lemma next_keys sle k : sle_ok sle ->
  k ∈ nextNegUnlKeys sle <->
  match sle with
  | Some n => (k ∈ (sfDisabledValidators n).*1 /\ sfValidatorToReEnable n <> Some k) \/ sfValidatorToDisable n = Some k
  | None => False
  end.
Proof.
  destruct sle as [n|]; [|intros _; unfold nextNegUnlKeys; cbn; set_solver]. intros Hn. cbn in Hn. destruct (Hn) as [_ Hv Hd He]. unfold nextNegUnlKeys.
  assert (forall k, k ∈ negativeUNL (Some n) <-> k ∈ (sfDisabledValidators n).*1) as Hk by (intros k'; cbn; rewrite elem_of_list_to_set; by apply valid_keys).
  cbn [validatorToDisable validatorToReEnable]. destruct (sfValidatorToDisable n) as [d|] eqn:Ed.
  - destruct (Hd d eq_refl) as (Hdv & Hdn & Hdr). rewrite Hdv. destruct (sfValidatorToReEnable n) as [r|] eqn:Er.
    + assert (validKey r = true) as -> by (rewrite Forall_forall in Hv; auto).
      rewrite elem_of_difference, elem_of_union, !elem_of_singleton, Hk. naive_solver.
    + rewrite elem_of_union, elem_of_singleton, Hk. naive_solver.
  - destruct (sfValidatorToReEnable n) as [r|] eqn:Er.
    + assert (validKey r = true) as -> by (rewrite Forall_forall in Hv; auto). rewrite elem_of_difference, elem_of_singleton, Hk. naive_solver.
    + rewrite Hk. naive_solver.
Qed.

(** The keys on the list after the update. *)
Lemma update_keys seq sle k : sle_ok sle ->
  k ∈ (sfDisabledValidators (default emptyNegUNL (updateNegativeUNL seq sle))).*1 <-> k ∈ nextNegUnlKeys sle.
Proof.
  intros Hok. rewrite next_keys by done. destruct (update_cases seq sle Hok) as [[-> H]|(n & l & -> & -> & ->)].
  - cbn. destruct sle as [n|]; [|by rewrite elem_of_nil]. rewrite <- (updated_keys seq n k Hok), H. done.
  - cbn [default sfDisabledValidators]. by apply updated_keys.
Qed.

Lemma update_cleared seq sle : sle_ok sle ->
  let n := default emptyNegUNL (updateNegativeUNL seq sle) in sfValidatorToDisable n = None /\ sfValidatorToReEnable n = None.
Proof. intros Hok. by destruct (update_cases seq sle Hok) as [[-> _]|(n & l & -> & -> & ->)]. Qed.

(** ** Runs *)

(** What happens to the entry: transactions in any ledger, and the update of a
    flag ledger. *)
Inductive negUnlStep := Modify (viewSeq : Z) (tx : UNLModify) | Update (seq : Z).

Definition stepNegUnl (sle : option NegUNL) (s : negUnlStep) : option NegUNL :=
  match s with Modify viewSeq tx => (applyUNLModify viewSeq tx sle).2 | Update seq => updateNegativeUNL seq sle end.

Lemma run_ok steps sle : sle_ok sle -> sle_ok (foldl stepNegUnl sle steps).
Proof.
  revert sle. induction steps as [|s steps IH]; intros sle Hok; [done|]. cbn. apply IH. destruct s; [by apply apply_ok|by apply update_ok].
Qed.

(** C40: whatever transactions are applied, a validator is on the negative list at
    most once, at most one validator waits to be disabled, which is not on the
    list, and at most one to be re-enabled, which is, and they differ; a flag
    ledger adds the one and takes off the other, and nothing else changes the
    list. *)
Theorem negative_unl_invariant (steps : list negUnlStep) (seq : Z) :
  let sle := foldl stepNegUnl None steps in
  sle_ok sle /\
  negativeUNL (updateNegativeUNL seq sle) = nextNegUnlKeys sle /\
  validatorToDisable (updateNegativeUNL seq sle) = None /\ validatorToReEnable (updateNegativeUNL seq sle) = None /\
  forall viewSeq tx, negativeUNL (applyUNLModify viewSeq tx sle).2 = negativeUNL sle.
Proof.
  intros sle. assert (sle_ok sle) as Hok by (by apply run_ok). split_and!; [done|..].
  - apply set_eq. intros k. rewrite <- (update_keys seq) by done. pose proof (update_ok seq sle Hok) as Hu.
    destruct (updateNegativeUNL seq sle) as [n|]; [|cbn; set_solver]. cbn. rewrite elem_of_list_to_set. by apply valid_keys.
  - unfold validatorToDisable. destruct (update_cases seq sle Hok) as [[-> _]|(n & l & E & -> & ->)]; done.
  - unfold validatorToReEnable. destruct (update_cases seq sle Hok) as [[-> _]|(n & l & E & -> & ->)]; done.
  - intros viewSeq tx. destruct (apply_inv viewSeq tx sle) as [->|(validator & modify & _ & ->)]; [done|].
    destruct sle as [n|]; destruct modify; cbn; try done.
Qed.

(** ** The choice *)

Lemma choose_spec pad c candidates :
  exists n, choose pad (c :: candidates) = Some n /\ n ∈ c :: candidates /\
    forall x, x ∈ c :: candidates -> Z.lxor n (Z.shiftr pad 96) <= Z.lxor x (Z.shiftr pad 96).
Proof.
  unfold choose. set (p := Z.shiftr pad 96). revert c. induction candidates as [|d candidates IH]; intros c; cbn [foldl].
  { exists c. split_and!; [done|left|]. intros x ->%list_elem_of_singleton. lia. }
  destruct (Z.ltb_spec (Z.lxor d p) (Z.lxor c p)) as [Hlt|Hle].
  - destruct (IH d) as (n & E & Hn & Hmin). exists n. split_and!; [done|by right|]. intros x [->|Hx]%elem_of_cons; [|by apply Hmin].
    specialize (Hmin d ltac:(left)). lia.
  - destruct (IH c) as (n & E & Hn & Hmin). exists n. split_and!; [done| |].
    + apply elem_of_cons in Hn as [->|Hn]; [left|by right; right].
    + intros x [->|[->|Hx]%elem_of_cons]%elem_of_cons; [apply Hmin; left| |apply Hmin; by right].
      specialize (Hmin c ltac:(left)). lia.
Qed.

Lemma lxor_inj a b p : Z.lxor a p = Z.lxor b p -> a = b.
Proof.
  intros E. apply (f_equal (fun z => Z.lxor z p)) in E. by rewrite !Z.lxor_assoc, !Z.lxor_nilpotent, !Z.lxor_0_r in E.
Qed.

(** The choice among candidates does not depend on their order: all servers
    that have the same candidates after the same ledger choose the same one. *)
Theorem choice_agreed (pad : Z) (l l' : list Z) :
  l ≡ₚ l' -> choose pad l = choose pad l' /\ (forall n, choose pad l = Some n -> n ∈ l) /\ (choose pad l = None <-> l = []).
Proof.
  intros Hp. split_and!.
  - destruct l as [|c l]; [by apply Permutation_nil_l in Hp as ->|]. destruct l' as [|c' l']; [by apply Permutation_nil_r in Hp|].
    destruct (choose_spec pad c l) as (n & -> & Hn & Hmin). destruct (choose_spec pad c' l') as (n' & -> & Hn' & Hmin'). f_equal.
    apply (lxor_inj _ _ (Z.shiftr pad 96)). rewrite Hp in Hn. rewrite <- Hp in Hn'. specialize (Hmin n' Hn'). specialize (Hmin' n Hn). lia.
  - intros n E. destruct l as [|c l]; [done|]. destruct (choose_spec pad c l) as (m & E' & Hm & _). congruence.
  - destruct l as [|c l]; [done|]. destruct (choose_spec pad c l) as (m & E' & _ & _). by rewrite E'.
Qed.

Lemma choice_agreed_witness : choose (Z.shiftl 5 96) [4; 1; 9] = choose (Z.shiftl 5 96) [9; 4; 1].
Proof. apply (choice_agreed (Z.shiftl 5 96) [4; 1; 9] [9; 4; 1]). solve_Permutation. Defined.

(** ** Scores *)

Section Scores.
Context {L : Type} {LO : LedgerOps L} (env : Env L) (getNodeID : Validation -> Z).

(** Validations are stored under the identifiers of their nodes. *)
Definition keyed (st : Validations L) : Prop :=
  forall ledgerID m n v, aged_value ledgerID (byLedger_ st) = Some m -> m !! n = Some v -> getNodeID v = n.

(** The store has a full, trusted validation of a node for a ledger. *)
Definition voted (st : Validations L) (ledgerID s k : Z) : bool :=
  match aged_value ledgerID (byLedger_ st) ≫= lookup k with Some v => trustedFull v && (v_seq v =? s) | None => false end.

(** The number of the ledgers among the [n] first that a node has validated. *)
Fixpoint agreedVotes (n : nat) (i seq : Z) (ancestors : list Z) (st : Validations L) (k : Z) : Z :=
  match n, ancestors with
  | S n, hash :: ancestors => (if voted st hash (u32 (seq - 2 - i)) k then 1 else 0) + agreedVotes n (i + 1) seq ancestors st k
  | _, _ => 0
  end.

Definition counted (k : Z) (vals : list Validation) : Z := Z.of_nat (length (filter (fun v => getNodeID v = k) vals)).

Lemma scoreLedger_lookup vals t k :
  (forall k s, t !! k = Some s -> 0 <= s /\ s + counted k vals < 2 ^ 32) ->
  scoreLedger getNodeID t vals !! k = (fun s => s + counted k vals) <$> t !! k.
Proof.
  revert t. induction vals as [|v vals IH]; intros t Hb; cbn [scoreLedger foldl].
  { change (counted k []) with 0. destruct (t !! k); cbn; [f_equal; lia|done]. }
  assert (forall k', counted k' (v :: vals) = (if decide (getNodeID v = k') then 1 else 0) + counted k' vals) as Hc.
  { intros k'. unfold counted. rewrite filter_cons. case_decide; cbn; lia. }
  fold (scoreLedger getNodeID (match t !! getNodeID v with Some s => <[getNodeID v := u32 (s + 1)]> t | None => t end) vals).
  assert (forall s, t !! getNodeID v = Some s -> u32 (s + 1) = s + 1) as Hu.
  { intros s Hs. destruct (Hb _ _ Hs) as [H0 H1]. rewrite Hc, decide_True in H1 by done. assert (0 <= counted (getNodeID v) vals) by (unfold counted; lia).
    unfold u32. apply Z.mod_small. lia. }
  rewrite IH.
  - destruct (t !! getNodeID v) as [s|] eqn:Ev; [|rewrite Hc; case_decide as Ek; [rewrite <- Ek, Ev; done|done]].
    rewrite (Hu s eq_refl), Hc. case_decide as Ek.
    + rewrite <- Ek, lookup_insert_eq, Ev. cbn. f_equal. lia.
    + rewrite lookup_insert_ne by done. destruct (t !! k); cbn; [f_equal; lia|done].
  - intros k' s' Hs'. destruct (t !! getNodeID v) as [s|] eqn:Ev.
    + destruct (decide (getNodeID v = k')) as [<-|Ek].
      * rewrite lookup_insert_eq, (Hu s eq_refl) in Hs'. injection Hs' as <-. destruct (Hb _ _ Ev) as [H0 H1]. rewrite Hc, decide_True in H1 by done. lia.
      * rewrite lookup_insert_ne in Hs' by done. specialize (Hb _ _ Hs'). rewrite Hc, decide_False in Hb by done. lia.
    + specialize (Hb _ _ Hs'). rewrite Hc in Hb. case_decide; lia.
Qed.

(** A node has one validation for a ledger. *)
Lemma counted_pairs (P : Validation -> bool) (l : list (Z * Validation)) k :
  NoDup l.*1 -> (forall n v, (n, v) ∈ l -> getNodeID v = n) ->
  counted k (filter P l.*2) = match list_find (fun x => x.1 = k) l with Some (_, (_, v)) => if P v then 1 else 0 | None => 0 end.
Proof.
  intros Hn Hk. induction l as [|[n v] l IH]; [done|]. cbn [fmap list_fmap] in Hn. apply NoDup_cons in Hn as [Hx Hn].
  specialize (IH Hn (fun n' v' H' => Hk n' v' (list_elem_of_further _ _ _ H'))). pose proof (Hk n v (list_elem_of_here _ _)) as Hv.
  cbn [fmap list_fmap list_find fst snd]. destruct (decide (n = k)) as [->|Hne].
  - assert (list_find (fun x : Z * Validation => x.1 = k) l = None) as E.
    { apply list_find_None. apply Forall_forall. intros [n' v'] Hin E. cbn in E. subst n'. apply Hx. apply (list_elem_of_fmap_2 fst _ _ Hin). }
    rewrite E in IH. rewrite filter_cons. destruct (decide (P v)) as [HP|HP].
    + unfold counted in *. rewrite filter_cons, decide_True by done. cbn [length]. apply Is_true_true in HP. rewrite HP. lia.
    + rewrite IH. by destruct (P v).
  - rewrite filter_cons. assert (counted k (if decide (P v) then v :: filter P l.*2 else filter P l.*2) = counted k (filter P l.*2)) as ->.
    { destruct (decide (P v)); [|done]. unfold counted. rewrite filter_cons, decide_False; [done|congruence]. }
    rewrite IH. by destruct (list_find _ l) as [[i [? ?]]|].
Qed.

Lemma getTrusted_counted ledgerID s st k :
  keyed st ->
  let '(vals, st') := getTrustedForLedger env ledgerID s st in
  counted k vals = (if voted st ledgerID s k then 1 else 0) /\ forall i, aged_value i (byLedger_ st') = aged_value i (byLedger_ st).
Proof.
  intros Hk. unfold getTrustedForLedger, byLedger, voted. destruct (aged_value ledgerID (byLedger_ st)) as [m|] eqn:Em; [|done]. cbn [mbind option_bind].
  split; [|intros i; cbn; apply aged_value_touch]. rewrite counted_pairs.
  - destruct (m !! k) as [v|] eqn:Ek.
    + assert (exists i, list_find (fun x : Z * Validation => x.1 = k) (map_to_list m) = Some (i, (k, v))) as [i ->]; [|done].
      destruct (list_find_elem_of (fun x : Z * Validation => x.1 = k) (map_to_list m) (k, v)) as [[i [k' v']] Hf]; [by apply elem_of_map_to_list|done|].
      exists i. rewrite Hf. apply list_find_Some in Hf as (Hi & E & _). cbn in E. subst k'. apply list_elem_of_lookup_2, elem_of_map_to_list in Hi. congruence.
    + assert (list_find (fun x : Z * Validation => x.1 = k) (map_to_list m) = None) as ->; [|done].
      apply list_find_None, Forall_forall. intros [k' v] Hin E. cbn in E. subst k'. apply elem_of_map_to_list in Hin. congruence.
  - apply NoDup_fst_map_to_list.
  - intros n v Hin. apply elem_of_map_to_list in Hin. by eapply Hk.
Qed.

Lemma votes_ext n i seq ancestors st st' k :
  (forall j, aged_value j (byLedger_ st') = aged_value j (byLedger_ st)) -> agreedVotes n i seq ancestors st' k = agreedVotes n i seq ancestors st k.
Proof. intros H. revert i ancestors. induction n as [|n IH]; intros i [|h l]; [done..|]. cbn. unfold voted. by rewrite H, IH. Qed.

Lemma votes_range n i seq ancestors st k : 0 <= agreedVotes n i seq ancestors st k <= Z.of_nat n.
Proof. revert i ancestors. induction n as [|n IH]; intros i [|h l]; cbn [agreedVotes]; try lia. specialize (IH (i + 1) l). destruct (voted _ _ _ _); lia. Qed.

Lemma scoreAncestors_spec n i seq ancestors t st k :
  keyed st -> (forall k s, t !! k = Some s -> 0 <= s /\ s + Z.of_nat n < 2 ^ 32) ->
  (scoreAncestors env getNodeID n i seq ancestors t st).1 !! k = (fun s => s + agreedVotes n i seq ancestors st k) <$> t !! k.
Proof.
  revert i ancestors t st. induction n as [|n IH]; intros i [|h l] t st Hk Hb; cbn [scoreAncestors agreedVotes fst];
    try (destruct (t !! k); cbn; [f_equal; lia|done]).
  pose proof (getTrusted_counted h (u32 (seq - 2 - i)) st) as Hg. destruct (getTrustedForLedger env h _ st) as [vals st'].
  assert (forall j, aged_value j (byLedger_ st') = aged_value j (byLedger_ st)) as Hsame by (by apply (Hg 0)).
  assert (forall k s, t !! k = Some s -> 0 <= s /\ s + counted k vals < 2 ^ 32) as Hb'.
  { intros k' s Hs. specialize (Hb k' s Hs). destruct (Hg k' Hk) as [-> _]. destruct (voted _ _ _ _); lia. }
  rewrite IH.
  - rewrite scoreLedger_lookup by done. destruct (Hg k Hk) as [-> _]. rewrite (votes_ext n _ _ _ st st' k) by done. destruct (t !! k); cbn; [f_equal; lia|done].
  - intros j m n' v. rewrite Hsame. apply Hk.
  - intros k' s. rewrite scoreLedger_lookup by done. destruct (t !! k') as [s0|] eqn:Es; [|done]. cbn. intros [= <-]. specialize (Hb k' s0 Es).
    destruct (Hg k' Hk) as [-> _]. destruct (voted _ _ _ _); lia.
Qed.

(** The score of a trusted validator is the number of the last 256 ledgers
    for which the store has its full, trusted validation, so it is at most 256;
    and a server votes exactly if the ledger knows 256 ancestors and its own
    score is more than nine tenths of them, 230. *)
Theorem score_table_exact (myId : Z) (prevLedger : PrevLedger) (unl : gset Z) (st : Validations L) :
  keyed st ->
  let count k := agreedVotes 256 0 (u32 (p_seq prevLedger + 1)) (reverse (default [] (p_skip prevLedger))) st k in
  (forall k, 0 <= count k <= 256) /\
  ((exists t, (buildScoreTable env getNodeID myId prevLedger unl st).1 = Some t) <->
   256 <= Z.of_nat (length (default [] (p_skip prevLedger))) /\ myId ∈ unl /\ 230 < count myId) /\
  forall t k, (buildScoreTable env getNodeID myId prevLedger unl st).1 = Some t ->
    t !! k = if decide (k ∈ unl) then Some (count k) else None.
Proof.
  intros Hk count. assert (forall k, 0 <= count k <= 256) as Hrange by (intros k; apply (votes_range 256)). split; [done|].
  unfold buildScoreTable. set (st0 := setSeqToKeep _ _ st). destruct (p_skip prevLedger) as [l|] eqn:El; [|split; [split; [by intros [? ?]|intros (Hl & _); change (256 <= 0) in Hl; lia]|done]].
  change (default [] (Some l)) with l in *. change FLAG_LEDGER_INTERVAL with 256. destruct (Z.ltb_spec (Z.of_nat (length l)) 256) as [Hl|Hl]; [split; [split; [by intros [? ?]|intros (Hl' & _); lia]|done]|].
  change (Z.to_nat 256) with 256%nat.
  assert (forall k, (scoreAncestors env getNodeID 256 0 (u32 (p_seq prevLedger + 1)) (reverse l) (gset_to_gmap 0 unl) st0).1 !! k =
    if decide (k ∈ unl) then Some (count k) else None) as Ht.
  { intros k. rewrite scoreAncestors_spec; [|exact Hk|].
    - rewrite (votes_ext 256 _ _ _ st st0 k) by done. fold (count k). rewrite lookup_gset_to_gmap. unfold guard. case_decide; [|done]. cbn. done.
    - intros k' s. rewrite lookup_gset_to_gmap_Some. intros [_ <-]. lia. }
  destruct (scoreAncestors env getNodeID 256 0 _ _ _ st0) as [t st'] eqn:E. cbn [fst] in Ht. rewrite (Ht myId).
  change negativeUNLMinLocalValsToVote with 230. specialize (Hrange myId).
  destruct (decide (myId ∈ unl)) as [Hin|Hin]; cbn [default from_option id]; [|split; [split; [by intros [? ?]|by intros (_ & ? & _)]|done]].
  destruct (Z.ltb_spec (count myId) 230); [split; [split; [by intros [? ?]|lia]|done]|].
  destruct (Z.ltb_spec 230 (count myId)); cbn [andb]; [|split; [split; [by intros [? ?]|lia]|done]].
  rewrite (proj2 (Z.leb_le _ _)) by lia. split; [split; [done|by exists t]|]. cbn [fst]. intros t' k [= <-]. apply Ht.
Qed.

End Scores.

(** ** Candidates *)

Lemma maxNegativeListed_quarter n : 0 <= n <= 1000 -> maxNegativeListed n = (n + 3) / 4.
Proof.
  assert (forallb (fun n => maxNegativeListed n =? (n + 3) / 4) (seqZ 0 1001) = true) as H by (vm_compute; reflexivity).
  intros Hn. rewrite forallb_forall in H. apply Z.eqb_eq, H, list_elem_of_In, elem_of_seqZ. lia.
Qed.

(** The candidates: to be disabled are the validators with fewer than 128
    validations that are neither on the list nor new, while less than a quarter
    of the trusted validators is on it; to be re-enabled are those on the list
    with more than 204, or, if there are none, those no longer trusted. *)
Theorem candidates_rule (nv : gmap Z Z) (unl negUnl : gset Z) (scoreTable : gmap Z Z) (n : Z) :
  let c := findAllCandidates nv unl negUnl scoreTable in
  (n ∈ toDisableCandidates c <->
   (exists score, scoreTable !! n = Some score /\ score < 128) /\ (n ∉ negUnl) /\ nv !! n = None /\
   Z.of_nat (size (filter (fun n => n ∈ negUnl) unl)) < maxNegativeListed (Z.of_nat (size unl))) /\
  (n ∈ toReEnableCandidates c <->
   (n ∈ negUnl /\ exists score, scoreTable !! n = Some score /\ 204 < score) \/
   ((n ∈ negUnl) /\ (n ∉ unl) /\ forall m score, scoreTable !! m = Some score -> m ∈ negUnl -> score <= 204)).
Proof.
  unfold findAllCandidates. cbn [toDisableCandidates toReEnableCandidates]. change negativeUNLLowWaterMark with 128.
  change negativeUNLHighWaterMark with 204. split.
  - rewrite list_elem_of_fmap. unfold canAdd. split.
    + intros ([n' score] & -> & Hx). apply list_elem_of_filter in Hx as [(Hc & Hs & Hn & Hv) Hin]. apply elem_of_map_to_list in Hin.
      cbn [fst]. split_and!; [by exists score|done..|lia].
    + intros ((score & Hs & Hlt) & Hn & Hv & Hc). exists (n, score). split; [done|]. apply list_elem_of_filter. split; [|by apply elem_of_map_to_list].
      split_and!; [lia|done..].
  - set (r := (filter (fun '(nodeId, score) => 204 < score /\ nodeId ∈ negUnl) (map_to_list scoreTable)).*1).
    assert (forall m, m ∈ r <-> m ∈ negUnl /\ exists score, scoreTable !! m = Some score /\ 204 < score) as Hr.
    { intros m. unfold r. rewrite list_elem_of_fmap. split.
      - intros ([m' score] & -> & Hx). apply list_elem_of_filter in Hx as [[Hs Hn] Hin]. apply elem_of_map_to_list in Hin. split; [done|by exists score].
      - intros [Hn (score & Hs & Hlt)]. exists (m, score). split; [done|]. apply list_elem_of_filter. split; [done|]. by apply elem_of_map_to_list. }
    destruct r as [|m0 r'] eqn:Er.
    + rewrite list_elem_of_filter, elem_of_elements. split.
      * intros [Hnu Hn]. right. split_and!; [done..|]. intros m score Hm Hin. destruct (Z.le_gt_cases score 204); [done|].
        exfalso. apply (not_elem_of_nil m), Hr. split; [done|]. by exists score.
      * intros [H|(Hn & Hnu & _)]; [|done]. apply Hr in H. by apply not_elem_of_nil in H.
    + rewrite Hr. split; [by left|]. intros [H|(_ & _ & H)]; [done|]. exfalso. destruct (proj1 (Hr m0)) as [Hm (score & Hs & Hlt)]; [left|].
      specialize (H m0 score Hs Hm). lia.
Qed.

(** ** Votes and their application *)

(** The transactions of a ledger, all of which succeed. *)
Definition applyAll (seq : Z) (txs : list UNLModify) (sle : option NegUNL) : option (option NegUNL) :=
  foldl (fun acc tx => acc ≫= fun sle => match applyUNLModify seq tx sle with (tesSUCCESS, sle) => Some sle | _ => None end) (Some sle) txs.

Lemma applyAll_cons seq tx txs sle validator modify :
  acceptable seq tx (default emptyNegUNL sle) validator modify ->
  applyAll seq (tx :: txs) sle = applyAll seq txs (Some (pend validator modify (default emptyNegUNL sle))).
Proof. intros H. unfold applyAll. cbn. by rewrite (apply_accepted _ _ _ _ _ H). Qed.

Lemma keyMap_Some calcNodeID keys m n k :
  keyMap calcNodeID keys m !! n = Some k -> m !! n = Some k \/ k ∈ keys /\ calcNodeID k = n.
Proof.
  unfold keyMap. revert m. induction keys as [|x keys IH]; intros m; [by left|]. cbn [foldl]. intros H. apply IH in H as [H|[Hk E]]; [|right; by split; [right|]].
  destruct (m !! calcNodeID x) eqn:Ex; [by left|]. apply lookup_insert_Some in H as [[E <-]|[_ H]]; [right|by left]. split; [left|done].
Qed.

Lemma addChosen_cases seq pad candidates m modify txs :
  addChosen seq pad candidates m modify txs = txs \/
  exists n k, n ∈ candidates /\ m !! n = Some k /\ addChosen seq pad candidates m modify txs = addTx seq k modify txs.
Proof.
  unfold addChosen. destruct candidates as [|c l]; [by left|]. destruct (choose_spec pad c l) as (n & -> & Hn & _).
  destruct (m !! n) as [k|] eqn:Ek; [|by left]. right. by exists n, k.
Qed.

Section Vote.
Context {L : Type} {LO : LedgerOps L} (env : Env L) (getNodeID : Validation -> Z) (calcNodeID : Blob -> Z).

Lemma scoreLedger_dom vals t : dom (scoreLedger getNodeID t vals) = dom t.
Proof.
  unfold scoreLedger. revert t. induction vals as [|v vals IH]; intros t; [done|]. cbn [foldl]. rewrite IH.
  destruct (t !! getNodeID v) eqn:E; [|done]. rewrite dom_insert_L. apply elem_of_dom_2 in E. set_solver.
Qed.

Lemma scoreAncestors_dom n i seq ancestors t st : dom (scoreAncestors env getNodeID n i seq ancestors t st).1 = dom t.
Proof.
  revert i ancestors t st. induction n as [|n IH]; intros i [|h l] t st; try done. cbn [scoreAncestors].
  destruct (getTrustedForLedger _ _ _ _) as [vals st']. rewrite IH. apply scoreLedger_dom.
Qed.

Lemma scoreTable_dom myId prevLedger unl st t : (buildScoreTable env getNodeID myId prevLedger unl st).1 = Some t -> dom t = unl.
Proof.
  unfold buildScoreTable. destruct (p_skip prevLedger) as [l|]; [|done]. destruct (_ <? _); [done|].
  pose proof (scoreAncestors_dom (Z.to_nat FLAG_LEDGER_INTERVAL) 0 (u32 (p_seq prevLedger + 1)) (reverse l) (gset_to_gmap 0 unl)
    (setSeqToKeep (u32 (u32 (p_seq prevLedger + 1) - 1)) (u32 (u32 (p_seq prevLedger + 1) + FLAG_LEDGER_INTERVAL)) st)) as Hd.
  destruct (scoreAncestors _ _ _ _ _ _ _ _) as [t' st']. cbn [fst] in Hd. rewrite dom_gset_to_gmap in Hd.
  destruct (_ <? _); [done|]. destruct (_ && _); [|done]. by intros [= <-].
Qed.

(** What the transactions of a vote are: at most one of each kind, to disable a
    trusted validator that is not on the next list, while the list may grow, and
    to re-enable one that is on it. *)
Definition mayDisable (unlKeys K : gset Blob) (k : Blob) : Prop :=
  (k ∈ unlKeys) /\ (k ∉ K) /\ canAdd (set_map calcNodeID unlKeys) (set_map calcNodeID K) = true.

Lemma doVoting_txs prevLedger unlKeys vote st :
  let K := nextNegUnlKeys (p_negUnl prevLedger) in
  let seq := u32 (p_seq prevLedger + 1) in
  (forall k k', k ∈ unlKeys ∪ K -> k' ∈ unlKeys ∪ K -> calcNodeID k = calcNodeID k' -> k = k') ->
  exists d r, (doVoting env getNodeID calcNodeID prevLedger unlKeys vote [] st).1.2 =
      (match d with Some k => [modifyTx seq k ToDisable] | None => [] end ++ match r with Some k => [modifyTx seq k ToReEnable] | None => [] end) /\
    (forall k, d = Some k -> mayDisable unlKeys K k) /\ (forall k, r = Some k -> k ∈ K).
Proof.
  intros K seq Hinj. unfold doVoting. destruct (buildScoreTable _ _ _ _ _ st) as [[t|] st'] eqn:Et; [|by exists None, None]. cbn [fst snd].
  pose proof (scoreTable_dom (myId_ vote) prevLedger (set_map calcNodeID unlKeys) st t ltac:(by rewrite Et)) as Hdom.
  fold K seq. set (m := keyMap calcNodeID (elements K) (keyMap calcNodeID (elements unlKeys) ∅)).
  assert (forall n k, m !! n = Some k -> k ∈ unlKeys ∪ K /\ calcNodeID k = n) as Hm.
  { intros n k H. apply keyMap_Some in H as [H|[H E]]; [apply keyMap_Some in H as [H|[H E]]|]; [by rewrite lookup_empty in H|set_solver..]. }
  set (c := findAllCandidates _ _ _ t).
  pose proof (candidates_rule (newValidators_ (purgeNewValidators seq vote)) (set_map calcNodeID unlKeys) (set_map calcNodeID K) t) as Hc. fold c in Hc.
  assert (exists d, addChosen seq (p_hash prevLedger) (toDisableCandidates c) m ToDisable [] =
    match d with Some k => [modifyTx seq k ToDisable] | None => [] end /\ forall k, d = Some k -> mayDisable unlKeys K k) as (d & -> & Hd).
  { destruct (addChosen_cases seq (p_hash prevLedger) (toDisableCandidates c) m ToDisable []) as [->|(n & k & Hn & Hk & ->)]; [by exists None|].
    exists (Some k). split; [done|]. intros k' [= <-]. destruct (Hm n k Hk) as [Hin E]. apply (proj1 (Hc n)) in Hn as ((score & Hs & _) & Hnot & _ & Hadd).
    apply elem_of_dom_2 in Hs. rewrite Hdom in Hs. assert (k ∉ K) as HK by (intros HK; apply Hnot; apply elem_of_map; by exists k).
    split_and!; [by apply elem_of_union in Hin as [?|?]|done|]. unfold canAdd. lia. }
  destruct (addChosen_cases seq (p_hash prevLedger) (toReEnableCandidates c) m ToReEnable
    (match d with Some k => [modifyTx seq k ToDisable] | None => [] end)) as [->|(n & k & Hn & Hk & ->)].
  { exists d, None. by rewrite app_nil_r. }
  exists d, (Some k). split_and!; [|done|].
  - unfold addTx. rewrite bool_decide_false; [done|]. destruct d; [intros Hx%list_elem_of_singleton; by injection Hx|apply not_elem_of_nil].
  - intros k' [= <-]. destruct (Hm n k Hk) as [Hin E]. assert (n ∈ (set_map calcNodeID K : gset Z)) as HK by (apply (proj2 (Hc n)) in Hn as [[? _]|[? _]]; done).
    apply elem_of_map in HK as (k' & E' & HK). rewrite (Hinj k k'); [done|done|by apply elem_of_union_r|congruence].
Qed.

(** The trusted validators on a list. *)
Definition listed (unlKeys K : gset Blob) : Z :=
  Z.of_nat (size (filter (fun n => n ∈ (set_map calcNodeID K : gset Z)) (set_map calcNodeID unlKeys : gset Z))).

Lemma listed_grows unlKeys K K' d :
  (forall k, k ∈ K' -> k ∈ K \/ d = Some k) -> (forall k, d = Some k -> mayDisable unlKeys K k) ->
  listed unlKeys K' <= Z.max (listed unlKeys K) (maxNegativeListed (Z.of_nat (size (set_map calcNodeID unlKeys : gset Z)))).
Proof.
  intros HK' Hd. unfold listed. destruct d as [k|].
  - destruct (Hd k eq_refl) as (_ & _ & Hadd). unfold canAdd in Hadd.
    assert (filter (fun n => n ∈ (set_map calcNodeID K' : gset Z)) (set_map calcNodeID unlKeys : gset Z) ⊆
      {[ calcNodeID k ]} ∪ filter (fun n => n ∈ (set_map calcNodeID K : gset Z)) (set_map calcNodeID unlKeys : gset Z)) as Hsub.
    { intros n [Hn Hu]%elem_of_filter. apply elem_of_map in Hn as (x & -> & Hx). apply HK' in Hx as [Hx|[= ->]]; [|set_solver].
      apply elem_of_union_r, elem_of_filter. split; [apply elem_of_map; by exists x|done]. }
    apply subseteq_size in Hsub. pose proof (size_union_alt ({[ calcNodeID k ]} : gset Z)
      (filter (fun n => n ∈ (set_map calcNodeID K : gset Z)) (set_map calcNodeID unlKeys : gset Z))) as E. rewrite size_singleton in E.
    pose proof (subseteq_size (filter (fun n => n ∈ (set_map calcNodeID K : gset Z)) (set_map calcNodeID unlKeys : gset Z) ∖ {[ calcNodeID k ]})
      (filter (fun n => n ∈ (set_map calcNodeID K : gset Z)) (set_map calcNodeID unlKeys : gset Z)) ltac:(set_solver)) as Hle. lia.
  - apply Z.max_le_iff. left. apply inj_le, subseteq_size. intros n [Hn Hu]%elem_of_filter. apply elem_of_filter. split; [|done].
    apply elem_of_map in Hn as (x & -> & Hx). apply HK' in Hx as [Hx|[=]]. apply elem_of_map. by exists x.
Qed.

(** The transactions of a vote succeed, in either order, on the entry that the
    update has cleared. *)
Lemma applyAll_pair seq sle (d r : option Blob) txs :
  isFlagLedger seq = true -> sle_ok sle ->
  (sfValidatorToDisable (default emptyNegUNL sle) = None /\ sfValidatorToReEnable (default emptyNegUNL sle) = None) ->
  (forall k, d = Some k -> validKey k = true /\ k ∉ (sfDisabledValidators (default emptyNegUNL sle)).*1) ->
  (forall k, r = Some k -> k ∈ (sfDisabledValidators (default emptyNegUNL sle)).*1) ->
  txs ≡ₚ (match d with Some k => [modifyTx seq k ToDisable] | None => [] end ++ match r with Some k => [modifyTx seq k ToReEnable] | None => [] end) ->
  exists sle', applyAll seq txs sle = Some sle' /\ sle_ok sle' /\
    forall k, k ∈ nextNegUnlKeys sle' -> k ∈ (sfDisabledValidators (default emptyNegUNL sle)).*1 \/ d = Some k.
Proof.
  intros Hf Hok [H1 H2] Hd Hr Hp. pose proof (default_ok sle Hok) as Hn. destruct (Hn) as [_ Hv _ _]. rewrite Forall_forall in Hv.
  set (n := default emptyNegUNL sle) in *.
  assert (forall sle', sle_ok sle' -> sle' = sle \/ (exists n', sle' = Some n' /\ sfDisabledValidators n' = sfDisabledValidators n /\
      (forall k, sfValidatorToDisable n' = Some k -> d = Some k)) -> forall k, k ∈ nextNegUnlKeys sle' -> k ∈ (sfDisabledValidators n).*1 \/ d = Some k) as Hnext.
  { intros sle' Hok' [->|(n' & -> & E & Hd')] k; rewrite next_keys by done; [|rewrite E; naive_solver].
    subst n. destruct sle as [n|]; [|done]. cbn in *. intros [[? _]|Ed]; [by left|congruence]. }
  destruct d as [kd|], r as [kr|]; cbn [app] in Hp.
  - destruct (Hd kd eq_refl) as [Hkd Hnd]. specialize (Hr kr eq_refl). assert (kd <> kr) as Hne by (intros ->; done).
    assert (acceptable seq (modifyTx seq kd ToDisable) n kd ToDisable) as A1 by (split_and!; try done; [exists 1; split_and!; [done|lia|lia]|congruence]).
    assert (acceptable seq (modifyTx seq kr ToReEnable) n kr ToReEnable) as A2 by (split_and!; try done; [by apply Hv|congruence]).
    assert (acceptable seq (modifyTx seq kr ToReEnable) (pend kd ToDisable n) kr ToReEnable) as A3
      by (split_and!; try done; [by apply Hv|cbn; congruence]).
    assert (acceptable seq (modifyTx seq kd ToDisable) (pend kr ToReEnable n) kd ToDisable) as A4
      by (split_and!; try done; [exists 1; split_and!; [done|lia|lia]|cbn; congruence]).
    exists (Some (pend kr ToReEnable (pend kd ToDisable n))). split_and!.
    + symmetry in Hp; apply Permutation_length_2_inv in Hp as [->| ->].
      * rewrite (applyAll_cons _ _ _ _ _ _ A1). fold n. by rewrite (applyAll_cons _ _ _ (Some (pend kd ToDisable n)) _ _ A3).
      * rewrite (applyAll_cons _ _ _ _ _ _ A2). fold n. by rewrite (applyAll_cons _ _ _ (Some (pend kr ToReEnable n)) _ _ A4).
    + exact (pend_ok _ _ _ _ _ (pend_ok _ _ _ _ _ Hn A1) A3).
    + apply Hnext; [exact (pend_ok _ _ _ _ _ (pend_ok _ _ _ _ _ Hn A1) A3)|]. right. by eexists.
  - destruct (Hd kd eq_refl) as [Hkd Hnd]. apply Permutation_singleton_r in Hp as ->.
    assert (acceptable seq (modifyTx seq kd ToDisable) n kd ToDisable) as A1 by (split_and!; try done; [exists 1; split_and!; [done|lia|lia]|congruence]).
    exists (Some (pend kd ToDisable n)). assert (sle_ok (Some (pend kd ToDisable n))) as Hok' by exact (pend_ok _ _ _ _ _ Hn A1).
    split_and!; [|done|apply Hnext; [done|right; by eexists]]. by rewrite (applyAll_cons _ _ _ _ _ _ A1).
  - specialize (Hr kr eq_refl). apply Permutation_singleton_r in Hp as ->.
    assert (acceptable seq (modifyTx seq kr ToReEnable) n kr ToReEnable) as A2 by (split_and!; try done; [by apply Hv|congruence]).
    exists (Some (pend kr ToReEnable n)). assert (sle_ok (Some (pend kr ToReEnable n))) as Hok' by exact (pend_ok _ _ _ _ _ Hn A2).
    split_and!; [|done|apply Hnext; [done|right; eexists; split_and!; [done..|]; cbn; congruence]].
    by rewrite (applyAll_cons _ _ _ _ _ _ A2).
  - apply Permutation_nil_r in Hp as ->. exists sle. split_and!; [done..|]. apply Hnext; [done|by left].
Qed.

(** C16: what a server votes for after a voting ledger can be applied: at most one
    transaction of each kind, and all succeed, in any order, in the flag ledger
    built on that ledger; afterwards, if it was not so already, the trusted
    validators on the list are still at most a quarter, rounded up. *)
Theorem votes_apply (prevLedger : PrevLedger) (unlKeys : gset Blob) (vote : NegativeUNLVote) (st : Validations L) :
  let K := nextNegUnlKeys (p_negUnl prevLedger) in
  let seq := u32 (p_seq prevLedger + 1) in
  let txs := (doVoting env getNodeID calcNodeID prevLedger unlKeys vote [] st).1.2 in
  isVotingLedger (p_seq prevLedger) = true -> sle_ok (p_negUnl prevLedger) -> (forall k, k ∈ unlKeys -> validKey k = true) ->
  (forall k k', k ∈ unlKeys ∪ K -> k' ∈ unlKeys ∪ K -> calcNodeID k = calcNodeID k' -> k = k') ->
  (length txs <= 2)%nat /\
  forall txs', txs' ≡ₚ txs ->
    exists sle, applyAll seq txs' (updateNegativeUNL seq (p_negUnl prevLedger)) = Some sle /\ sle_ok sle /\
      listed unlKeys (nextNegUnlKeys sle) <=
      Z.max (listed unlKeys K) (maxNegativeListed (Z.of_nat (size (set_map calcNodeID unlKeys : gset Z)))).
Proof.
  intros K seq txs Hvote Hok Hvalid Hinj. destruct (doVoting_txs prevLedger unlKeys vote st Hinj) as (d & r & E & Hd & Hr). fold K in Hd, Hr.
  subst txs. rewrite E. split; [destruct d, r; cbn; lia|]. intros txs' Hp. pose proof (update_ok seq _ Hok) as Hup.
  destruct (applyAll_pair seq (updateNegativeUNL seq (p_negUnl prevLedger)) d r txs') as (sle & Ha & Hok' & Hk); [done|done|by apply update_cleared| | |done|].
  - intros k Ek. destruct (Hd k Ek) as (Hu & Hn & _). split; [by apply Hvalid|]. rewrite update_keys by done. done.
  - intros k Ek. rewrite update_keys by done. by apply Hr.
  - exists sle. split_and!; [done..|]. apply (listed_grows unlKeys K _ d); [|done]. intros k Hin. apply Hk in Hin. by rewrite update_keys in Hin by done.
Qed.

End Vote.

(** ** A sample vote *)

Module SampleVote.

#[export] Instance unit_ops : LedgerOps unit :=
  {| LedgerTrie.seq _ := 0; lid _ := 0; anc _ _ := 0; mismatch _ _ := 1; genesis := tt |}.

Definition env : Env unit := {| now := 0; clock := 0; acquire _ := None |}.

Definition key (b : Z) : Blob := 2 :: b :: replicate 31 0.
Definition nodeID (k : Blob) : Z := at_ k 1.

(** Node 1 has validated each of the 256 ledgers before ledger 511. *)
Definition validation (s : Z) : Validation :=
  {| v_ledgerID := 745 + s; v_seq := s; v_signTime := 0; v_seenTime := 0; v_key := 1; v_trusted := true; v_full := true;
     v_loadFee := None; v_cookie := 0 |}.

Definition store : Validations unit :=
  set_stores ((fun s => mkElement (745 + s) 0 {[ 1 := validation s ]}) <$> seqZ 255 256) [] newValidations.

Definition ledger : PrevLedger := mkPrevLedger 511 0 (Some (seqZ 1000 256)) (Some (mkNegUNL [(key 4, 256)] None None)).

Definition trusted : gset Blob := {[ key 1; key 2; key 3; key 5; key 6 ]}.

Lemma store_keyed : keyed v_key store.
Proof.
  intros ledgerID m n v Hm Hv. unfold aged_value in Hm. destruct (aged_find ledgerID _) as [e|] eqn:E; [|done]. injection Hm as <-.
  apply aged_find_Some in E as [E _]. apply list_elem_of_fmap in E as (s & -> & _). cbn in Hv. apply lookup_singleton_Some in Hv as [<- <-]. done.
Qed.

Lemma score_table_exact_witness :
  exists t, (buildScoreTable env v_key 1 ledger {[ 1; 2 ]} store).1 = Some t /\ t !! 1 = Some 256 /\ t !! 2 = Some 0.
Proof.
  destruct (score_table_exact env v_key 1 ledger {[ 1; 2 ]} store store_keyed) as (_ & H1 & H2).
  destruct (proj2 H1) as [t Ht].
  { split; [vm_compute; discriminate|]. split; [set_solver|]. vm_compute. reflexivity. }
  exists t. split; [exact Ht|]. rewrite !(H2 t _ Ht). split; vm_compute; reflexivity.
Defined.

(** The vote is to disable node 2 and to re-enable node 4, no longer trusted. *)
Definition txs : list UNLModify := (doVoting env v_key nodeID ledger trusted (mkNegativeUNLVote 1 ∅) [] store).1.2.

Lemma votes_apply_witness :
  txs = [modifyTx 512 (key 2) ToDisable; modifyTx 512 (key 4) ToReEnable] /\
  exists sle, applyAll 512 (reverse txs) (updateNegativeUNL 512 (p_negUnl ledger)) = Some sle.
Proof.
  split; [vm_compute; reflexivity|].
  destruct (votes_apply env v_key nodeID ledger trusted (mkNegativeUNLVote 1 ∅) store) as [_ H].
  - vm_compute. reflexivity.
  - split; cbn; [apply NoDup_singleton|repeat constructor|done..].
  - intros k Hk. unfold trusted in Hk. rewrite !elem_of_union, !elem_of_singleton in Hk. destruct Hk as [[[[-> | ->] | ->] | ->] | ->]; vm_compute; reflexivity.
  - assert (forall k, k ∈ trusted ∪ nextNegUnlKeys (p_negUnl ledger) -> k = key (nodeID k)) as Hkey.
    { intros k Hk. assert (nextNegUnlKeys (p_negUnl ledger) = {[ key 4 ]}) as E by (apply set_eq; intros x; unfold nextNegUnlKeys; cbn; set_solver).
      rewrite E in Hk. unfold trusted in Hk. rewrite !elem_of_union, !elem_of_singleton in Hk.
      destruct Hk as [[[[[-> | ->] | ->] | ->] | ->] | ->]; reflexivity. }
    intros k k' Hk Hk' Ek. rewrite (Hkey k Hk), (Hkey k' Hk'), Ek. reflexivity.
  - destruct (H (reverse txs)) as (sle & Hs & _); [apply reverse_Permutation|]. exists sle. exact Hs.
Defined.

End SampleVote.
