(* ===== verification/Amendments.v ===== *)
(** * Amendments

    Models [src/xrpld/app/misc/detail/AmendmentTable.cpp] (the recorded votes of
    trusted validators, their tally, the table and its vote), the adapter in
    [AmendmentTable.h], [Change::applyAmendment] of
    [src/xrpld/app/tx/detail/Change.cpp] and the readers of
    [src/libxrpl/ledger/View.cpp].  Amendments and keys are integers; times are
    [NetClock] seconds.  Of the wallet database only the table of votes is
    modelled, as the list of its rows. *)

From stdpp Require Import strings sorting.
From S2P Require Import Prelude NegativeUNL.

(** ** Votes of trusted validators *)

Record UpvotesAndTimeout := mkUpvotes { upVotes : list Z; timeout : option Z }.

Definition noUpvotes : UpvotesAndTimeout := mkUpvotes [] None.

Abbreviation TrustedVotes := (gmap Z UpvotesAndTimeout).

Definition trustChanged (allTrusted : gset Z) (recordedVotes_ : TrustedVotes) : TrustedVotes :=
  map_imap (fun k _ => Some (default noUpvotes (recordedVotes_ !! k))) (gset_to_gmap tt allTrusted).

(** What the tally reads of a validation: its signer and [sfAmendments]. *)
Record AmendmentVal := mkAmendmentVal { signer : Z; sfAmendments : option (list Z) }.

Definition expiresAfter : Z := 24 * 3600.

Definition recordVote (newTimeout : Z) (recordedVotes_ : TrustedVotes) (val : AmendmentVal) : TrustedVotes :=
  match recordedVotes_ !! signer val with
  | Some _ => <[signer val := mkUpvotes (default [] (sfAmendments val)) (Some newTimeout)]> recordedVotes_
  | None => recordedVotes_
  end.

(** Clearing of votes that have timed out. *)
Definition expireVote (closeTime : Z) (v : UpvotesAndTimeout) : UpvotesAndTimeout :=
  match timeout v with
  | Some t => if t <? closeTime then noUpvotes else v
  | None => v
  end.

Definition recordVotes (valSet : list AmendmentVal) (closeTime : Z) (recordedVotes_ : TrustedVotes) : TrustedVotes :=
  let newTimeout := u32 (closeTime + expiresAfter) in
  expireVote closeTime <$> foldl (recordVote newTimeout) recordedVotes_ valSet.

(** The tally of one validator. *)
Definition tally (votes : gmap Z Z) (ups : list Z) : gmap Z Z :=
  foldl (fun ret amendment => <[amendment := default 0 (ret !! amendment) + 1]> ret) votes ups.

Definition getVotes (recordedVotes_ : TrustedVotes) : Z * gmap Z Z :=
  foldl (fun '(available, ret) '(_, v) =>
    ((if bool_decide (is_Some (timeout v)) then available + 1 else available), tally ret (upVotes v)))
    (0, ∅) (map_to_list recordedVotes_).

(** ** The tally *)

Record AmendmentSet := mkAmendmentSet {
  votes_ : gmap Z Z;
  fixAmendmentMajorityCalc : bool;
  trustedValidations_ : Z;
  threshold_ : Z;
}.

Definition computeThreshold (fix_ : bool) (trustedValidations : Z) : Z :=
  if negb fix_ then Z.max 1 (trustedValidations * 204 / 256) else Z.max 1 (trustedValidations * 67 / 100).

Definition newAmendmentSet (fix_ : bool) (trustedVotes : TrustedVotes) : AmendmentSet :=
  let '(trustedCount, newVotes) := getVotes trustedVotes in
  mkAmendmentSet newVotes fix_ trustedCount (computeThreshold fix_ trustedCount).

Definition passes (s : AmendmentSet) (amendment : Z) : bool :=
  match votes_ s !! amendment with
  | None => false
  | Some n =>
      if negb (fixAmendmentMajorityCalc s) || (trustedValidations_ s =? 1) then threshold_ s <=? n else threshold_ s <? n
  end.

Definition votes (s : AmendmentSet) (amendment : Z) : Z := default 0 (votes_ s !! amendment).

(** ** The table *)

Inductive AmendmentVote := obsolete | up | down.

#[export] Instance AmendmentVote_eq_dec : EqDecision AmendmentVote.
Proof. solve_decision. Defined.

Record AmendmentState := mkAmendmentState { vote : AmendmentVote; enabled : bool; supported : bool; name : string }.

Definition newState : AmendmentState := mkAmendmentState down false false EmptyString.

Definition set_vote (v : AmendmentVote) (s : AmendmentState) : AmendmentState := mkAmendmentState v (enabled s) (supported s) (name s).
Definition set_enabled (s : AmendmentState) : AmendmentState := mkAmendmentState (vote s) true (supported s) (name s).
Definition set_name (n : string) (s : AmendmentState) : AmendmentState := mkAmendmentState (vote s) (enabled s) (supported s) n.

(** A row of the table [FeatureVotes]. *)
Record FeatureVote := mkFeatureVote { fv_hash : Z; fv_name : string; fv_vote : AmendmentVote }.

Record AmendmentTable := mkAmendmentTable {
  amendmentMap_ : gmap Z AmendmentState;
  lastUpdateSeq_ : Z;
  previousTrustedVotes_ : TrustedVotes;
  majorityTime_ : Z;
  lastVote_ : option AmendmentSet;
  unsupportedEnabled_ : bool;
  firstUnsupportedExpected_ : option Z;
  db_ : list FeatureVote;
}.

Definition set_map_ m (t : AmendmentTable) : AmendmentTable :=
  mkAmendmentTable m (lastUpdateSeq_ t) (previousTrustedVotes_ t) (majorityTime_ t) (lastVote_ t) (unsupportedEnabled_ t)
    (firstUnsupportedExpected_ t) (db_ t).

(** [add]: the state of an amendment, made when there is none. *)
Definition getOrAdd (amendmentHash : Z) (m : gmap Z AmendmentState) : AmendmentState := default newState (m !! amendmentHash).

Definition persistVote (amendment : Z) (n : string) (v : AmendmentVote) (t : AmendmentTable) : AmendmentTable :=
  mkAmendmentTable (amendmentMap_ t) (lastUpdateSeq_ t) (previousTrustedVotes_ t) (majorityTime_ t) (lastVote_ t) (unsupportedEnabled_ t)
    (firstUnsupportedExpected_ t) (db_ t ++ [mkFeatureVote amendment n v]).

Inductive VoteBehavior := DefaultYes | DefaultNo | Obsolete.

Definition behaviorVote (b : VoteBehavior) : AmendmentVote :=
  match b with DefaultYes => up | DefaultNo => down | Obsolete => obsolete end.

(** [readAmendments]: the last row of each amendment. *)
Fixpoint readAmendments (rows : list FeatureVote) : list FeatureVote :=
  match rows with
  | [] => []
  | r :: rows => if existsb (fun r' => fv_hash r' =? fv_hash r) rows then readAmendments rows else r :: readAmendments rows
  end.

(** The callback of the constructor for a row. *)
Definition readVote (m : gmap Z AmendmentState) (r : FeatureVote) : gmap Z AmendmentState :=
  let change s :=
    let s := if bool_decide (fv_name r = EmptyString) then s else set_name (fv_name r) s in
    if bool_decide (vote s = obsolete) then s else set_vote (fv_vote r) s in
  if bool_decide (fv_vote r = down) then
    match m !! fv_hash r with Some s => <[fv_hash r := change s]> m | None => m end
  else <[fv_hash r := change (getOrAdd (fv_hash r) m)]> m.

(** The constructor; [rows] are the rows of an existing table of votes. *)
Definition newAmendmentTable (majorityTime : Z) (supported : list (string * Z * VoteBehavior)) (enabled vetoed : list (Z * string))
    (rows : option (list FeatureVote)) : AmendmentTable :=
  let m := foldl (fun m '(n, amendment, behavior) =>
    let s := getOrAdd amendment m in
    <[amendment := mkAmendmentState (behaviorVote behavior) (Amendments.enabled s) true n]> m) ∅ supported in
  let db :=
    match rows with
    | Some rows => rows
    | None =>
        ((fun a => mkFeatureVote a.1 a.2 up) <$> enabled) ++
        ((fun a => mkFeatureVote a.1 a.2 down) <$> filter (fun a => a.1 ∉ enabled.*1) vetoed)
    end in
  mkAmendmentTable (foldl readVote m (readAmendments db)) 0 ∅ majorityTime None false None db.

(** [find]: the first amendment of a name in the order of the map, or zero. *)
Definition find (n : string) (t : AmendmentTable) : Z :=
  match List.find (fun '(_, s) => bool_decide (name s = n)) (map_to_list (amendmentMap_ t)) with Some (a, _) => a | None => 0 end.

Definition veto (amendment : Z) (t : AmendmentTable) : bool * AmendmentTable :=
  let s := getOrAdd amendment (amendmentMap_ t) in
  if negb (bool_decide (vote s = up)) then (false, set_map_ (<[amendment := s]> (amendmentMap_ t)) t)
  else (true, persistVote amendment (name s) down (set_map_ (<[amendment := set_vote down s]> (amendmentMap_ t)) t)).

Definition unVeto (amendment : Z) (t : AmendmentTable) : bool * AmendmentTable :=
  match amendmentMap_ t !! amendment with
  | Some s =>
      if negb (bool_decide (vote s = down)) then (false, t)
      else (true, persistVote amendment (name s) up (set_map_ (<[amendment := set_vote up s]> (amendmentMap_ t)) t))
  | None => (false, t)
  end.

Definition enable (amendment : Z) (t : AmendmentTable) : bool * AmendmentTable :=
  let s := getOrAdd amendment (amendmentMap_ t) in
  if enabled s then (false, set_map_ (<[amendment := s]> (amendmentMap_ t)) t)
  else
    (true,
     mkAmendmentTable (<[amendment := set_enabled s]> (amendmentMap_ t)) (lastUpdateSeq_ t) (previousTrustedVotes_ t) (majorityTime_ t)
       (lastVote_ t) (if supported s then unsupportedEnabled_ t else true) (firstUnsupportedExpected_ t) (db_ t)).

Definition isEnabled (amendment : Z) (t : AmendmentTable) : bool :=
  match amendmentMap_ t !! amendment with Some s => enabled s | None => false end.

Definition isSupported (amendment : Z) (t : AmendmentTable) : bool :=
  match amendmentMap_ t !! amendment with Some s => supported s | None => false end.

(** [doValidation]: the amendments this server votes for, sorted. *)
Definition doValidation (enabledAmendments : gset Z) (t : AmendmentTable) : list Z :=
  merge_sort Z.le
    (filter (fun '(a, s) => supported s = true /\ vote s = up /\ a ∉ enabledAmendments) (map_to_list (amendmentMap_ t))).*1.

Definition getDesired (t : AmendmentTable) : list Z := doValidation ∅ t.

Definition tfGotMajority : Z := 65536.
Definition tfLostMajority : Z := 131072.

(** The action for one amendment that is not enabled; times are 32 bits wide in
    the ledger and 64 bits in the sum. *)
Definition action (t : AmendmentTable) (v : AmendmentSet) (closeTime : Z) (majorityAmendments : gmap Z Z) (amendment : Z)
    (s : AmendmentState) : option Z :=
  let hasValMajority := passes v amendment in
  match majorityAmendments !! amendment with
  | None => if hasValMajority && bool_decide (vote s = up) then Some tfGotMajority else None
  | Some majorityTime =>
      if negb hasValMajority then Some tfLostMajority
      else if (majorityTime + majorityTime_ t <=? closeTime) && bool_decide (vote s = up) then Some 0
      else None
  end.

Definition doVoting (fix_ : bool) (closeTime : Z) (enabledAmendments : gset Z) (majorityAmendments : gmap Z Z) (valSet : list AmendmentVal)
    (t : AmendmentTable) : gmap Z Z * AmendmentTable :=
  let recorded := recordVotes valSet closeTime (previousTrustedVotes_ t) in
  let v := newAmendmentSet fix_ recorded in
  let actions := map_imap (fun a s => if decide (a ∈ enabledAmendments) then None else action t v closeTime majorityAmendments a s)
    (amendmentMap_ t) in
  (actions,
   mkAmendmentTable (amendmentMap_ t) (lastUpdateSeq_ t) recorded (majorityTime_ t) (Some v) (unsupportedEnabled_ t)
     (firstUnsupportedExpected_ t) (db_ t)).

Definition needValidatedLedger (ledgerSeq : Z) (t : AmendmentTable) : bool :=
  negb (u32 (ledgerSeq - 1) / 256 =? u32 (lastUpdateSeq_ t - 1) / 256).

(** The loop of [doValidatedLedger] over the amendments with a majority. *)
Definition noteMajority (acc : gmap Z AmendmentState * option Z) (x : Z * Z) : gmap Z AmendmentState * option Z :=
  let '(m, first) := acc in
  let '(hash, time) := x in
  let s := getOrAdd hash m in
  (<[hash := s]> m,
   if enabled s || supported s then first
   else match first with Some f => if time <? f then Some time else first | None => Some time end).

Definition doValidatedLedger (ledgerSeq : Z) (enabledAmendments : gset Z) (majority : gmap Z Z) (t : AmendmentTable) : AmendmentTable :=
  let t := foldl (fun t e => (enable e t).2) t (elements enabledAmendments) in
  let '(m, first) := foldl noteMajority (amendmentMap_ t, None) (map_to_list majority) in
  mkAmendmentTable m ledgerSeq (previousTrustedVotes_ t) (majorityTime_ t) (lastVote_ t) (unsupportedEnabled_ t)
    ((fun f => u32 (f + majorityTime_ t)) <$> first) (db_ t).

Definition tableTrustChanged (allTrusted : gset Z) (t : AmendmentTable) : AmendmentTable :=
  mkAmendmentTable (amendmentMap_ t) (lastUpdateSeq_ t) (trustChanged allTrusted (previousTrustedVotes_ t)) (majorityTime_ t) (lastVote_ t)
    (unsupportedEnabled_ t) (firstUnsupportedExpected_ t) (db_ t).

(** ** The entry of the ledger *)

Record AmendmentsSLE := mkAmendmentsSLE { amendments : list Z; majorities : list (Z * Z) }.

Definition emptyAmendments : AmendmentsSLE := mkAmendmentsSLE [] [].

Definition getEnabledAmendments (sle : option AmendmentsSLE) : gset Z :=
  match sle with Some o => list_to_set (amendments o) | None => ∅ end.

Definition getMajorityAmendments (sle : option AmendmentsSLE) : gmap Z Z :=
  match sle with Some o => foldl (fun ret '(a, time) => <[a := time]> ret) ∅ (majorities o) | None => ∅ end.

(** A transaction [ttAMENDMENT]. *)
Record AmendmentTx := mkAmendmentTx { tx_amendment : Z; tx_seq : Z; tx_flags : Z }.

(** The adapter: a transaction for each action, in the order of the map. *)
Definition voteTransactions (seq : Z) (actions : gmap Z Z) : list AmendmentTx :=
  (fun '(a, flags) => mkAmendmentTx a (u32 (seq + 1)) flags) <$> map_to_list actions.

Inductive AmendmentTER := amendmentSUCCESS | amendmentALREADY | amendmentINVALID_FLAG.

(** What the application does outside the ledger entry. *)
Inductive AmendmentEffect := TableEnable (amendment : Z) | SetAmendmentBlocked | ActivateTrustLinesToSelfFix.

(** [applyAmendment]; a transaction that fails leaves no changes. *)
Definition applyAmendment (fixTrustLinesToSelf : Z) (isSupported_ : Z -> bool) (parentCloseTime : Z) (tx : AmendmentTx)
    (sle : option AmendmentsSLE) : AmendmentTER * option AmendmentsSLE * list AmendmentEffect :=
  let o := default emptyAmendments sle in
  let amendment := tx_amendment tx in
  if bool_decide (amendment ∈ amendments o) then (amendmentALREADY, sle, [])
  else
    let gotMajority := negb (Z.land (tx_flags tx) tfGotMajority =? 0) in
    let lostMajority := negb (Z.land (tx_flags tx) tfLostMajority =? 0) in
    if gotMajority && lostMajority then (amendmentINVALID_FLAG, sle, [])
    else
      let found := existsb (fun m => m.1 =? amendment) (majorities o) in
      if found && gotMajority then (amendmentALREADY, sle, [])
      else
        let newMajorities := List.filter (fun m => negb (m.1 =? amendment)) (majorities o) in
        if negb found && lostMajority then (amendmentALREADY, sle, [])
        else if gotMajority then
          (amendmentSUCCESS, Some (mkAmendmentsSLE (amendments o) (newMajorities ++ [(amendment, parentCloseTime)])), [])
        else if negb lostMajority then
          (amendmentSUCCESS, Some (mkAmendmentsSLE (amendments o ++ [amendment]) newMajorities),
           (if amendment =? fixTrustLinesToSelf then [ActivateTrustLinesToSelfFix] else []) ++ [TableEnable amendment] ++
           (if isSupported_ amendment then [] else [SetAmendmentBlocked]))
        else (amendmentSUCCESS, Some (mkAmendmentsSLE (amendments o) newMajorities), []).
