(* ===== verification/AmendmentsProperties.v ===== *)
(** * Properties of amendments *)

From stdpp Require Import strings sorting.
From S2P Require Import Prelude NegativeUNL Amendments.

(** ** The tally *)

Definition occurrences (a : Z) (l : list Z) : Z := Z.of_nat (length (filter (fun x => x = a) l)).

Lemma upvoteOccurrences_cons a x l : occurrences a (x :: l) = (if decide (x = a) then 1 else 0) + occurrences a l.
Proof. unfold occurrences. rewrite filter_cons. case_decide; cbn [length]; lia. Qed.

Lemma upvoteOccurrences_nonneg a l : 0 <= occurrences a l.
Proof. unfold occurrences. lia. Qed.

Lemma upvoteOccurrences_none a l : a ∉ l -> occurrences a l = 0.
Proof.
  induction l as [|x l IH]; [done|]. intros H. rewrite upvoteOccurrences_cons, decide_False by (intros ->; apply H; left).
  rewrite IH by (intros Hin; apply H; by right). done.
Qed.

Lemma tally_votes ups v a : default 0 (tally v ups !! a) = default 0 (v !! a) + occurrences a ups.
Proof.
  unfold tally. revert v. induction ups as [|x ups IH]; intros v; [change (occurrences a []) with 0; cbn; lia|]. cbn [foldl]. rewrite IH, upvoteOccurrences_cons.
  case_decide as E; [subst x; rewrite lookup_insert_eq; cbn; lia|]. rewrite lookup_insert_ne by done. lia.
Qed.

(** The upvotes of an amendment, and the validators whose votes are known. *)
Definition upvotesOf (a : Z) (l : list (Z * UpvotesAndTimeout)) : Z := foldr (fun x n => occurrences a (upVotes x.2) + n) 0 l.
Definition availableOf (l : list (Z * UpvotesAndTimeout)) : Z := Z.of_nat (length (filter (fun x => is_Some (timeout x.2)) l)).

Lemma getVotes_spec m a :
  (getVotes m).1 = availableOf (map_to_list m) /\ default 0 ((getVotes m).2 !! a) = upvotesOf a (map_to_list m).
Proof.
  unfold getVotes. generalize (map_to_list m). intros l.
  assert (forall n v, let r := foldl (fun '(available, ret) '(_, v) =>
      ((if bool_decide (is_Some (timeout v)) then available + 1 else available), tally ret (upVotes v))) (n, v) l in
    r.1 = n + availableOf l /\ default 0 (r.2 !! a) = default 0 (v !! a) + upvotesOf a l) as H.
  { induction l as [|[k u] l IH]; intros n v; [cbn; unfold availableOf; cbn; lia|]. cbn [foldl]. destruct (IH (if bool_decide (is_Some (timeout u)) then n + 1 else n) (tally v (upVotes u))) as [H1 H2].
    split.
    - rewrite H1. unfold availableOf. rewrite filter_cons. cbn [snd]. case_bool_decide; [rewrite decide_True by done|rewrite decide_False by done]; cbn [length]; lia.
    - rewrite H2, tally_votes. cbn [upvotesOf foldr snd]. unfold upvotesOf. lia. }
  destruct (H 0 ∅) as [H1 H2]. rewrite lookup_empty in H2. split; [lia|cbn in H2; lia].
Qed.

(** No validator names an amendment twice. *)
Definition upvoters (a : Z) (m : TrustedVotes) : gset Z := dom (filter (fun x => a ∈ upVotes x.2) m).

Lemma upvotes_upvoters a m :
  (forall k v, m !! k = Some v -> NoDup (upVotes v)) -> upvotesOf a (map_to_list m) = Z.of_nat (size (upvoters a m)).
Proof.
  unfold upvoters. rewrite size_dom. induction m as [|k v m Hk IH] using map_ind; intros Hn.
  { rewrite map_to_list_empty, map_filter_empty, map_size_empty. done. }
  assert (upvotesOf a (map_to_list (<[k:=v]> m)) = occurrences a (upVotes v) + upvotesOf a (map_to_list m)) as ->.
  { assert (forall l l', l ≡ₚ l' -> upvotesOf a l = upvotesOf a l') as Hperm
      by (induction 1 as [| | |]; cbn [upvotesOf foldr] in *; unfold upvotesOf in *; lia).
    rewrite (Hperm _ _ (map_to_list_insert m k v Hk)). done. }
  rewrite IH by (intros k' v' Hv'; apply (Hn k'); rewrite lookup_insert_ne; [done|congruence]).
  assert (NoDup (upVotes v)) as Hv by (apply (Hn k); by rewrite lookup_insert_eq).
  destruct (decide (a ∈ upVotes v)) as [Hin|Hin].
  - rewrite map_filter_insert_True by done. rewrite map_size_insert_None by (by apply map_lookup_filter_None_2; left).
    assert (occurrences a (upVotes v) = 1) as ->; [|lia]. clear -Hv Hin. induction Hv as [|x l Hx _ IH]; [by apply not_elem_of_nil in Hin|].
    rewrite upvoteOccurrences_cons. apply elem_of_cons in Hin as [<-|Hin].
    + rewrite decide_True by done. by rewrite upvoteOccurrences_none.
    + rewrite decide_False by (intros E; subst; by apply Hx). by rewrite IH.
  - rewrite map_filter_insert_False, delete_id by done.
    rewrite upvoteOccurrences_none by done. lia.
Qed.

(** An amendment has a majority exactly if its upvotes exceed 67 percent of
    the validators whose votes are known (reach it if there is only one such
    validator); before the correction of the calculation, if they reach
    204/256.  When no validator names an amendment twice, the upvotes are the
    number of validators whose last votes name it. *)
Theorem majority_rule (fix_ : bool) (m : TrustedVotes) (a : Z) :
  (forall k v, m !! k = Some v -> NoDup (upVotes v)) ->
  let s := newAmendmentSet fix_ m in
  let n := availableOf (map_to_list m) in
  let ups := Z.of_nat (size (upvoters a m)) in
  votes s a = ups /\
  (passes s a = true <->
   if fix_ then (if decide (n = 1) then 1 <= ups else Z.max 1 (n * 67 / 100) < ups) else Z.max 1 (n * 204 / 256) <= ups).
Proof.
  intros Hn s n ups. destruct (getVotes_spec m a) as [H1 H2]. rewrite (upvotes_upvoters a m Hn) in H2. fold n in H1. fold ups in H2.
  unfold s, newAmendmentSet, passes, votes. destruct (getVotes m) as [available v]. cbn [fst snd] in *. subst available.
  cbn [votes_ trustedValidations_ threshold_ fixAmendmentMajorityCalc]. split; [done|].
  assert (0 <= ups) as Hups by (unfold ups; lia).
  assert (forall b : bool, match v !! a with None => false | Some x => if b then computeThreshold fix_ n <=? x else computeThreshold fix_ n <? x end =
    if b then computeThreshold fix_ n <=? ups else computeThreshold fix_ n <? ups) as ->.
  { intros b. assert (1 <= computeThreshold fix_ n) as Ht by (unfold computeThreshold; destruct fix_; cbn; lia).
    destruct (v !! a) as [x|]; cbn in H2; [by subst x|]. destruct b; symmetry; [apply Z.leb_gt|apply Z.ltb_ge]; lia. }
  unfold computeThreshold. destruct fix_; cbn [negb orb]; [|lia]. destruct (Z.eqb_spec n 1) as [->|Hn1]; [rewrite decide_True by done|rewrite decide_False by done]; [|lia].
  change (Z.max 1 (1 * 67 / 100)) with 1. lia.
Qed.

(** One validator of five that repeats an amendment in its validation gives it a
    majority. *)
Lemma repeated_votes_counted :
  let m := recordVotes (map (fun k => mkAmendmentVal k (if k =? 1 then Some [7; 7; 7; 7] else None)) [1; 2; 3; 4; 5]) 1000
             (trustChanged {[ 1; 2; 3; 4; 5 ]} ∅) in
  size (upvoters 7 m) = 1%nat /\ passes (newAmendmentSet true m) 7 = true.
Proof. split; vm_compute; reflexivity. Qed.

(** ** The record of votes *)

(** The last validation of a validator. *)
Definition lastOf (k : Z) (valSet : list AmendmentVal) : option AmendmentVal :=
  last (filter (fun v => signer v = k) valSet).

Lemma recordVote_lookup newTimeout valSet m k :
  foldl (recordVote newTimeout) m valSet !! k =
  (fun old => match lastOf k valSet with Some v => mkUpvotes (default [] (sfAmendments v)) (Some newTimeout) | None => old end) <$> m !! k.
Proof.
  unfold lastOf. induction valSet as [|v valSet IH] using rev_ind; [cbn; by destruct (m !! k)|]. rewrite foldl_snoc, filter_app, filter_cons, filter_nil.
  remember (foldl (recordVote newTimeout) m valSet) as m' eqn:Em. clear Em. unfold recordVote. destruct (decide (signer v = k)) as [E|Hne].
  - rewrite last_snoc, E, IH. destruct (m !! k) as [old|]; cbn [fmap option_fmap option_map]; [by rewrite lookup_insert_eq|by rewrite IH].
  - rewrite app_nil_r, <- IH. destruct (m' !! signer v); [by rewrite lookup_insert_ne|done].
Qed.

(** The votes recorded for a trusted validator are those of its last
    validation in the set; if it has none there, its earlier votes stay until
    24 hours after they were recorded, and then it has none. *)
Theorem votes_recorded (valSet : list AmendmentVal) (closeTime : Z) (m : TrustedVotes) (k : Z) :
  0 <= closeTime -> closeTime + 86400 < 2 ^ 32 ->
  recordVotes valSet closeTime m !! k =
  (fun old => match lastOf k valSet with
              | Some v => mkUpvotes (default [] (sfAmendments v)) (Some (closeTime + 86400))
              | None => match timeout old with Some t => if t <? closeTime then noUpvotes else old | None => old end
              end) <$> m !! k.
Proof.
  intros H0 H1. unfold recordVotes. rewrite lookup_fmap, recordVote_lookup. change expiresAfter with 86400.
  unfold u32. rewrite Z.mod_small by lia. destruct (m !! k) as [old|]; [|done]. cbn. destruct (lastOf k valSet) as [v|]; [|done].
  unfold expireVote. cbn [timeout]. by rewrite (proj2 (Z.ltb_ge _ _)) by lia.
Qed.

(** ** The entry of the ledger *)

Record entry_ok (o : AmendmentsSLE) : Prop := {
  ae_amendments : NoDup (amendments o);
  ae_majorities : NoDup (majorities o).*1;
  ae_disjoint : forall a, a ∈ amendments o -> a ∉ (majorities o).*1;
}.

Definition amendments_ok (sle : option AmendmentsSLE) : Prop := entry_ok (default emptyAmendments sle).

Lemma majority_lookup sle a t :
  amendments_ok sle -> getMajorityAmendments sle !! a = Some t <-> (a, t) ∈ majorities (default emptyAmendments sle).
Proof.
  intros [_ Hn _]. destruct sle as [o|]; [|cbn; rewrite lookup_empty; split; [done|by intros ?%not_elem_of_nil]]. cbn [default from_option id] in *.
  unfold getMajorityAmendments. induction (majorities o) as [|[b u] l IH] using rev_ind; [cbn; rewrite lookup_empty; split; [done|by intros ?%not_elem_of_nil]|].
  rewrite fmap_app in Hn. apply NoDup_app in Hn as (Hl & Hd & _). rewrite foldl_snoc, elem_of_app, list_elem_of_singleton. specialize (IH Hl).
  destruct (decide (b = a)) as [->|Hne].
  - rewrite lookup_insert_eq. split; [intros [= ->]; by right|]. intros [Hin|[= ->]]; [|done]. exfalso.
    apply (Hd a); [apply (list_elem_of_fmap_2 fst _ _ Hin)|left].
  - rewrite lookup_insert_ne, IH by done. split; [by left|]. by intros [?|[= <- <-]].
Qed.

Lemma fmap_fst_snoc (l : list (Z * Z)) a t : (l ++ [(a, t)]).*1 = l.*1 ++ [a].
Proof. by rewrite fmap_app. Qed.

Lemma found_majority a (l : list (Z * Z)) : existsb (fun m => m.1 =? a) l = true <-> a ∈ l.*1.
Proof.
  rewrite existsb_exists, list_elem_of_fmap. split.
  - intros (v & Hv & E). exists v. split; [lia|by apply list_elem_of_In].
  - intros (v & -> & Hv). exists v. split; [by apply list_elem_of_In|lia].
Qed.

Definition others (a : Z) (l : list (Z * Z)) : list (Z * Z) := List.filter (fun m => negb (m.1 =? a)) l.

Lemma elem_others a l x : x ∈ others a l <-> x ∈ l /\ x.1 <> a.
Proof. unfold others. rewrite list_elem_of_In, filter_In, <- list_elem_of_In, negb_true_iff, Z.eqb_neq. done. Qed.

Lemma others_id a l : a ∉ l.*1 -> others a l = l.
Proof.
  induction l as [|[b t] l IH]; [done|]. cbn. intros H. unfold others. cbn [List.filter fst]. destruct (Z.eqb_spec b a) as [->|]; [exfalso; apply H; left|].
  cbn [negb]. f_equal. apply IH. intros Hin. apply H. by right.
Qed.

Lemma NoDup_others a l : NoDup l.*1 -> NoDup (others a l).*1.
Proof.
  induction l as [|[b t] l IH]; [done|]. cbn. intros [Hb Hn]%NoDup_cons. unfold others. cbn [List.filter fst]. destruct (b =? a); cbn [negb]; [by apply IH|].
  cbn. apply NoDup_cons. split; [|by apply IH]. intros (y & E & Hy)%list_elem_of_fmap. apply Hb. apply elem_others in Hy as [Hy _]. rewrite E. by apply (list_elem_of_fmap_2 fst).
Qed.

Section Apply.
Context (fixTrustLinesToSelf : Z) (isSupported_ : Z -> bool).

Local Abbreviation applyAmendment := (applyAmendment fixTrustLinesToSelf isSupported_).

(** The three transactions a vote makes. *)
Definition canApply (o : AmendmentsSLE) (tx : AmendmentTx) : Prop :=
  (tx_amendment tx ∉ amendments o) /\
  ((tx_flags tx = tfGotMajority /\ (tx_amendment tx ∉ (majorities o).*1)) \/
   (tx_flags tx = tfLostMajority /\ (tx_amendment tx ∈ (majorities o).*1)) \/
   tx_flags tx = 0).

Definition afterTx (time : Z) (o : AmendmentsSLE) (tx : AmendmentTx) : AmendmentsSLE :=
  let a := tx_amendment tx in
  if tx_flags tx =? tfGotMajority then mkAmendmentsSLE (amendments o) (majorities o ++ [(a, time)])
  else if tx_flags tx =? tfLostMajority then mkAmendmentsSLE (amendments o) (others a (majorities o))
  else mkAmendmentsSLE (amendments o ++ [a]) (others a (majorities o)).

Lemma apply_succeeds time tx sle :
  canApply (default emptyAmendments sle) tx ->
  (applyAmendment time tx sle).1 = (amendmentSUCCESS, Some (afterTx time (default emptyAmendments sle) tx)).
Proof.
  set (o := default emptyAmendments sle). intros [Hn H]. unfold Amendments.applyAmendment. fold o. rewrite bool_decide_false by done. fold (others (tx_amendment tx) (majorities o)).
  unfold afterTx. destruct (existsb (fun m => m.1 =? tx_amendment tx) (majorities o)) eqn:Ef.
  - apply found_majority in Ef. destruct H as [[_ ?]|[[-> _]| ->]]; [done|reflexivity..].
  - assert (tx_amendment tx ∉ (majorities o).*1) as Ha by (intros Ha%found_majority; congruence).
    destruct H as [[-> _]|[[_ ?]| ->]]; [|done|reflexivity]. cbn. by rewrite others_id.
Qed.

Lemma afterTx_ok time o tx : entry_ok o -> canApply o tx -> entry_ok (afterTx time o tx).
Proof.
  intros [H1 H2 H3] [Hn H]. unfold afterTx. destruct (Z.eqb_spec (tx_flags tx) tfGotMajority) as [Eg|Eg].
  - destruct H as [[_ Hm]|[[E _]|E]]; [|by rewrite Eg in E..]. split; cbn [amendments majorities]; [done| |].
    + rewrite fmap_fst_snoc. apply NoDup_app. split_and!; [done| |apply NoDup_singleton]. by intros x Hx ->%list_elem_of_singleton.
    + intros a Ha. rewrite fmap_fst_snoc, elem_of_app, list_elem_of_singleton. intros [Hin| ->]; [by apply (H3 a)|done].
  - destruct (Z.eqb_spec (tx_flags tx) tfLostMajority) as [El|El].
    + split; cbn [amendments majorities]; [done|by apply NoDup_others|]. intros a Ha (x & -> & Hx)%list_elem_of_fmap.
      apply elem_others in Hx as [Hx _]. apply (H3 x.1 Ha). by apply (list_elem_of_fmap_2 fst).
    + split; cbn [amendments majorities]; [|by apply NoDup_others|].
      * apply NoDup_app. split_and!; [done| |apply NoDup_singleton]. by intros x Hx ->%list_elem_of_singleton.
      * intros a [Ha| ->%list_elem_of_singleton]%elem_of_app (x & E & Hx)%list_elem_of_fmap; apply elem_others in Hx as [Hx Hne]; [|done].
        subst a. apply (H3 x.1 Ha). by apply (list_elem_of_fmap_2 fst).
Qed.

(** A transaction of another amendment does not matter. *)
Lemma canApply_other time o tx tx' : tx_amendment tx <> tx_amendment tx' -> canApply o tx -> canApply o tx' -> canApply (afterTx time o tx') tx.
Proof.
  intros Hne [H1 H2] _. unfold afterTx, canApply.
  assert (forall l, tx_amendment tx ∈ (others (tx_amendment tx') l).*1 <-> tx_amendment tx ∈ l.*1) as Ho.
  { intros l. rewrite !list_elem_of_fmap. split; intros (x & E & Hx); exists x; (split; [done|]); [by apply elem_others in Hx as [? _]|].
    apply elem_others. split; [done|congruence]. }
  destruct (tx_flags tx' =? tfGotMajority); [|destruct (tx_flags tx' =? tfLostMajority)]; cbn [amendments majorities].
  - split; [done|]. rewrite fmap_fst_snoc, elem_of_app, list_elem_of_singleton. destruct H2 as [[? ?]|[[? ?]|?]]; [left; split; [done|by intros [?|?]]|right; left; split; [done|by left]|by right; right].
  - split; [done|]. by rewrite Ho.
  - rewrite elem_of_app, list_elem_of_singleton. split; [by intros [?|?]|]. by rewrite Ho.
Qed.

(** All the transactions of a ledger succeed. *)
Fixpoint applyTxs (time : Z) (txs : list AmendmentTx) (sle : option AmendmentsSLE) : option (option AmendmentsSLE) :=
  match txs with
  | [] => Some sle
  | tx :: txs => match (applyAmendment time tx sle).1 with (amendmentSUCCESS, sle) => applyTxs time txs sle | _ => None end
  end.

Lemma applyTxs_ok time txs sle :
  amendments_ok sle -> NoDup (tx_amendment <$> txs) -> Forall (canApply (default emptyAmendments sle)) txs ->
  exists sle', applyTxs time txs sle = Some sle' /\ amendments_ok sle'.
Proof.
  revert sle. induction txs as [|tx txs IH]; intros sle Hok Hn Hall; [by exists sle|]. cbn in Hn. apply NoDup_cons in Hn as [Hx Hn].
  apply Forall_cons in Hall as [Htx Hall]. cbn [applyTxs]. rewrite (apply_succeeds time tx sle Htx). apply IH; [by apply afterTx_ok|done|].
  rewrite Forall_forall in *. intros tx' Hin. apply canApply_other; [|by apply Hall|done]. intros E. apply Hx. rewrite <- E. by apply list_elem_of_fmap_2.
Qed.

End Apply.

(** What a vote makes of an amendment. *)
Lemma doVoting_action fix_ closeTime enabledAmendments majority valSet t a flags :
  (doVoting fix_ closeTime enabledAmendments majority valSet t).1 !! a = Some flags ->
  (a ∉ enabledAmendments) /\
  let has := passes (newAmendmentSet fix_ (recordVotes valSet closeTime (previousTrustedVotes_ t))) a in
  exists s, amendmentMap_ t !! a = Some s /\
  (flags = tfGotMajority /\ has = true /\ majority !! a = None /\ vote s = up \/
   flags = tfLostMajority /\ has = false /\ is_Some (majority !! a) \/
   flags = 0 /\ has = true /\ vote s = up /\ exists time, majority !! a = Some time /\ time + majorityTime_ t <= closeTime).
Proof.
  unfold doVoting. cbn [fst]. rewrite map_lookup_imap. destruct (amendmentMap_ t !! a) as [s|]; [|done]. cbn. case_decide as He; [done|].
  intros H. split; [done|]. exists s. split; [done|]. unfold action in H. destruct (majority !! a) as [time|].
  - destruct (passes _ a); cbn [negb] in H; [|injection H as <-; right; left; by split].
    destruct (Z.leb_spec (time + majorityTime_ t) closeTime); cbn [andb] in H; [|done]. case_bool_decide; [|done]. injection H as <-.
    right. right. split_and!; [done..|]. by exists time.
  - destruct (passes _ a); cbn [andb] in H; [|done]. case_bool_decide; [|done]. injection H as <-. by left.
Qed.

(** The transactions a server votes for after a flag ledger all succeed in
    the next ledger, in any order, and the entry stays well formed. *)
Theorem amendment_votes_apply (fixTrustLinesToSelf : Z) (isSupported_ : Z -> bool) (fix_ : bool) (closeTime time seq : Z)
    (valSet : list AmendmentVal) (t : AmendmentTable) (sle : option AmendmentsSLE) (txs : list AmendmentTx) :
  amendments_ok sle ->
  txs ≡ₚ voteTransactions seq (doVoting fix_ closeTime (getEnabledAmendments sle) (getMajorityAmendments sle) valSet t).1 ->
  exists sle', applyTxs fixTrustLinesToSelf isSupported_ time txs sle = Some sle' /\ amendments_ok sle'.
Proof.
  intros Hok Hp. set (actions := (doVoting _ _ _ _ _ _).1) in Hp. apply applyTxs_ok; [done| |].
  - rewrite Hp. unfold voteTransactions. rewrite <- list_fmap_compose.
    assert (tx_amendment ∘ (fun '(a, flags) => mkAmendmentTx a (u32 (seq + 1)) flags) <$> map_to_list actions = (map_to_list actions).*1) as ->;
      [|apply NoDup_fst_map_to_list]. apply list_fmap_ext. by intros i [a f].
  - rewrite Hp. apply Forall_forall. intros tx ([a flags] & -> & Hin)%list_elem_of_fmap. apply elem_of_map_to_list in Hin.
    destruct (doVoting_action _ _ _ _ _ _ _ _ Hin) as (Hen & s & _ & H). unfold canApply. cbn [tx_amendment tx_flags]. split.
    + destruct sle as [o|]; cbn in *; [|by apply not_elem_of_nil]. by rewrite elem_of_list_to_set in Hen.
    + destruct H as [(-> & _ & Hm & _)|[(-> & _ & [u Hm])|(-> & _)]]; [left|right; left|by right; right]; (split; [done|]).
      * intros ([b u] & -> & Hb)%list_elem_of_fmap. apply majority_lookup in Hb; [|done]. cbn in Hm. congruence.
      * apply majority_lookup in Hm; [|done]. apply (list_elem_of_fmap_2 fst _ _ Hm).
Qed.

(** ** Chains of flag ledgers *)

(** The transaction is a vote of some server with this majority time; what it
    trusts, has heard and votes for is its own. *)
Definition voted (majorityTime voteTime : Z) (sle : option AmendmentsSLE) (tx : AmendmentTx) : Prop :=
  exists (fix_ : bool) (valSet : list AmendmentVal) (t : AmendmentTable) (seq : Z),
    majorityTime_ t = majorityTime /\
    tx ∈ voteTransactions seq (doVoting fix_ voteTime (getEnabledAmendments sle) (getMajorityAmendments sle) valSet t).1.

Definition hasMajority (a t : Z) (sle : option AmendmentsSLE) : Prop := (a, t) ∈ majorities (default emptyAmendments sle).

Definition knownFlags (tx : AmendmentTx) : Prop := tx_flags tx = tfGotMajority \/ tx_flags tx = tfLostMajority \/ tx_flags tx = 0.

Lemma voted_action majorityTime voteTime sle tx :
  amendments_ok sle -> voted majorityTime voteTime sle tx ->
  knownFlags tx /\ (tx_flags tx = 0 -> exists t, hasMajority (tx_amendment tx) t sle /\ t + majorityTime <= voteTime).
Proof.
  intros Hok (fix_ & valSet & t & seq & <- & Hin). apply list_elem_of_fmap in Hin as ([a flags] & -> & Hin). apply elem_of_map_to_list in Hin. cbn [tx_flags tx_amendment].
  destruct (doVoting_action _ _ _ _ _ _ _ _ Hin) as (_ & s & _ & [(-> & _)|[(-> & _)|(-> & _ & _ & u & Hu & Hle)]]); (split; [unfold knownFlags; cbn; tauto|]); [done..|].
  intros _. exists u. split; [|done]. by apply majority_lookup.
Qed.

Lemma voted_known majorityTime voteTime sle txs : amendments_ok sle -> Forall (voted majorityTime voteTime sle) txs -> Forall knownFlags txs.
Proof. intros Hok H. apply (Forall_impl _ _ _ H). intros tx Htx. by apply (voted_action majorityTime voteTime sle). Qed.

Section Chain.
Context (fixTrustLinesToSelf : Z) (isSupported_ : Z -> bool).

(** The transactions of a ledger; those that fail change nothing. *)
Definition applyAny (time : Z) (txs : list AmendmentTx) (sle : option AmendmentsSLE) : option AmendmentsSLE :=
  foldl (fun sle tx => (applyAmendment fixTrustLinesToSelf isSupported_ time tx sle).1.2) sle txs.

(** The entry after some flag ledgers, with the close time recorded in each and
    the entry before it, the last first. *)
Inductive chain (majorityTime : Z) : list (Z * option AmendmentsSLE) -> option AmendmentsSLE -> Prop :=
  | chain_start : chain majorityTime [] None
  | chain_next log sle voteTime time txs :
      chain majorityTime log sle -> Forall (voted majorityTime voteTime sle) txs ->
      chain majorityTime ((time, sle) :: log) (applyAny time txs sle).

Lemma apply_cases time tx sle :
  knownFlags tx ->
  (applyAmendment fixTrustLinesToSelf isSupported_ time tx sle).1.2 = sle \/
  canApply (default emptyAmendments sle) tx /\
  (applyAmendment fixTrustLinesToSelf isSupported_ time tx sle).1.2 = Some (afterTx time (default emptyAmendments sle) tx).
Proof.
  intros Hk. set (o := default emptyAmendments sle).
  assert (canApply o tx \/ ~ canApply o tx) as [Hc|Hc].
  { unfold canApply. destruct (decide (tx_amendment tx ∈ amendments o)); [right; by intros [? _]|].
    destruct (decide (tx_amendment tx ∈ (majorities o).*1)) as [Hin|Hin]; destruct Hk as [E|[E|E]]; rewrite E; [right|left|left|left|right|left]; try tauto.
    all: by intros [_ [[? ?]|[[? ?]|?]]]. }
  { right. split; [done|]. by rewrite (apply_succeeds _ _ _ _ _ Hc). }
  left. unfold applyAmendment. fold o. case_bool_decide as Ha; [done|].
  destruct (existsb _ (majorities o)) eqn:Ef; destruct Hk as [E|[E|E]]; rewrite E; try reflexivity; exfalso; apply Hc; (split; [done|]).
  - right. left. split; [done|by apply found_majority].
  - by right; right.
  - left. split; [done|]. intros Hin%found_majority. congruence.
  - by right; right.
Qed.

Lemma applyAny_spec time txs sle :
  Forall knownFlags txs -> amendments_ok sle ->
  amendments_ok (applyAny time txs sle) /\
  (forall a t, hasMajority a t (applyAny time txs sle) -> hasMajority a t sle \/ t = time) /\
  (forall a, a ∈ amendments (default emptyAmendments (applyAny time txs sle)) ->
    a ∈ amendments (default emptyAmendments sle) \/ exists tx, tx ∈ txs /\ tx_amendment tx = a /\ tx_flags tx = 0).
Proof.
  intros Hk. revert sle. induction Hk as [|tx txs Hx _ IH]; intros sle Hok; [split_and!; [done|by left..]|].
  cbn [applyAny foldl]. set (sle1 := (applyAmendment _ _ time tx sle).1.2).
  assert (amendments_ok sle1 /\ (forall a t, hasMajority a t sle1 -> hasMajority a t sle \/ t = time) /\
    (forall a, a ∈ amendments (default emptyAmendments sle1) -> a ∈ amendments (default emptyAmendments sle) \/ (tx_amendment tx = a /\ tx_flags tx = 0))) as (H1 & H2 & H3).
  { destruct (apply_cases time tx sle Hx) as [E|[Hc E]]; fold sle1 in E; rewrite E; [split_and!; [done|by left..]|].
    split_and!; [by apply afterTx_ok| |].
    - intros a t. unfold hasMajority, afterTx. cbn [default from_option id]. destruct (_ =? _); [|destruct (_ =? _)]; cbn [majorities].
      + rewrite elem_of_app, list_elem_of_singleton. intros [?|[= -> ->]]; [by left|by right].
      + intros [? _]%elem_others. by left.
      + intros [? _]%elem_others. by left.
    - intros a. unfold afterTx. cbn [default from_option id]. destruct (Z.eqb_spec (tx_flags tx) tfGotMajority) as [|Eg]; [by left|].
      destruct (Z.eqb_spec (tx_flags tx) tfLostMajority) as [|El]; [by left|]. cbn [amendments]. rewrite elem_of_app, list_elem_of_singleton.
      intros [?| ->]; [by left|right]. split; [done|]. destruct Hx as [?|[?|?]]; [done..|done]. }
  destruct (IH sle1 H1) as (I1 & I2 & I3). split_and!; [done| |].
  - intros a t [H| ->]%I2; [by apply H2|by right].
  - intros a [[H|[? ?]]%H3|(tx' & Hin & ?)]%I3; [by left|right; exists tx; split; [left|done]|right; exists tx'; split; [by right|done]].
Qed.

Lemma chain_ok majorityTime log sle : chain majorityTime log sle -> amendments_ok sle.
Proof.
  induction 1 as [|log sle voteTime time txs _ IH Htxs]; [split; cbn; [constructor..|by intros ? ?%not_elem_of_nil]|].
  apply applyAny_spec; [by eapply voted_known|done].
Qed.

(** A recorded majority has been there since the ledger with its close time. *)
Lemma chain_majority majorityTime log sle a t :
  chain majorityTime log sle -> hasMajority a t sle ->
  exists recent before older, log = recent ++ (t, before) :: older /\ Forall (fun x => hasMajority a t x.2) recent.
Proof.
  induction 1 as [|log sle voteTime time txs Hc IH Htxs]; [by intros ?%not_elem_of_nil|]. intros H. pose proof (chain_ok _ _ _ Hc) as Hok.
  destruct (applyAny_spec time txs sle) as (_ & H2 & _); [by eapply voted_known|done|]. apply H2 in H as [H| ->].
  - destruct (IH H) as (recent & before & older & -> & Hr). exists ((time, sle) :: recent), before, older. split; [done|]. by apply Forall_cons.
  - by exists [], sle, log.
Qed.

End Chain.

(** C11: whatever the servers that share a majority time vote for, an amendment is
    enabled only after its majority has been in every flag ledger since the one
    that recorded it, and that for at least the majority time. *)
Theorem enabled_after_majority (fixTrustLinesToSelf : Z) (isSupported_ : Z -> bool) (majorityTime voteTime time a : Z)
    (log : list (Z * option AmendmentsSLE)) (sle : option AmendmentsSLE) (txs : list AmendmentTx) :
  chain fixTrustLinesToSelf isSupported_ majorityTime log sle ->
  Forall (voted majorityTime voteTime sle) txs ->
  a ∉ amendments (default emptyAmendments sle) ->
  a ∈ amendments (default emptyAmendments (applyAny fixTrustLinesToSelf isSupported_ time txs sle)) ->
  exists since, since + majorityTime <= voteTime /\ hasMajority a since sle /\
    exists recent before older, log = recent ++ (since, before) :: older /\ Forall (fun x => hasMajority a since x.2) recent.
Proof.
  intros Hc Htxs Hno Ha. pose proof (chain_ok _ _ _ _ _ Hc) as Hok.
  destruct (applyAny_spec fixTrustLinesToSelf isSupported_ time txs sle) as (_ & _ & H3); [by eapply voted_known|done|].
  apply H3 in Ha as [|(tx & Hin & <- & Hf)]; [done|]. rewrite Forall_forall in Htxs.
  destruct (voted_action _ _ _ _ Hok (Htxs tx Hin)) as [_ H]. destruct (H Hf) as (t & Ht & Hle). exists t. split_and!; [done..|].
  by apply (chain_majority _ _ _ _ _ _ _ Hc).
Qed.

(** ** Five validators that vote for amendment 7 *)

Module SampleAmendments.

Definition trusted : TrustedVotes := trustChanged {[ 1; 2; 3; 4; 5 ]} ∅.
Definition valSet : list AmendmentVal := map (fun k => mkAmendmentVal k (Some [7])) [1; 2; 3; 4].
Definition recorded : TrustedVotes := recordVotes valSet 1000 trusted.

Definition table : AmendmentTable :=
  mkAmendmentTable {[ 7 := mkAmendmentState up false true EmptyString; 8 := mkAmendmentState up false true EmptyString ]} 0 trusted 100 None false None [].

Definition votedTxs (closeTime seq : Z) (sle : option AmendmentsSLE) : list AmendmentTx :=
  voteTransactions seq (doVoting true closeTime (getEnabledAmendments sle) (getMajorityAmendments sle) valSet table).1.

(** The first flag ledger records the majority, the second one keeps it. *)
Definition first : option AmendmentsSLE := applyAny 0 (fun _ => true) 1010 (votedTxs 1000 255 None) None.
Definition second : option AmendmentsSLE := applyAny 0 (fun _ => true) 1060 (votedTxs 1050 511 first) first.

Lemma voted_txs closeTime seq sle : Forall (voted 100 closeTime sle) (votedTxs closeTime seq sle).
Proof. apply Forall_forall. intros tx Hin. exists true, valSet, table, seq. split; [reflexivity|exact Hin]. Qed.

Lemma majority_rule_witness : votes (newAmendmentSet true recorded) 7 = 4 /\ passes (newAmendmentSet true recorded) 7 = true.
Proof.
  assert (forall k v, recorded !! k = Some v -> NoDup (upVotes v)) as Hn.
  { intros k v H. apply elem_of_map_to_list in H.
    assert (Forall (fun x => bool_decide (NoDup (upVotes x.2)) = true) (map_to_list recorded)) as Ha by (vm_compute; repeat constructor).
    rewrite Forall_forall in Ha. apply (bool_decide_eq_true_1 _ (Ha _ H)). }
  destruct (majority_rule true recorded 7 Hn) as [H1 H2]. split; [rewrite H1; vm_compute; reflexivity|].
  apply H2. vm_compute. reflexivity.
Defined.

(** Validator 5 voted earlier; its vote is dropped a day later. *)
Lemma votes_recorded_witness :
  recordVotes valSet 90000 {[ 4 := noUpvotes; 5 := mkUpvotes [7] (Some 87400) ]} !! 5 = Some noUpvotes /\
  recordVotes valSet 90000 {[ 4 := noUpvotes; 5 := mkUpvotes [7] (Some 87400) ]} !! 4 = Some (mkUpvotes [7] (Some 176400)).
Proof. split; (rewrite votes_recorded; [|lia..]); vm_compute; reflexivity. Defined.

Lemma amendment_votes_apply_witness :
  votedTxs 1000 255 None = [mkAmendmentTx 7 256 tfGotMajority] /\
  exists sle, applyTxs 0 (fun _ => true) 1010 (votedTxs 1000 255 None) None = Some sle /\ amendments_ok sle.
Proof.
  split; [vm_compute; reflexivity|].
  apply (amendment_votes_apply 0 (fun _ => true) true 1000 1010 255 valSet table None (votedTxs 1000 255 None)); [|reflexivity].
  split; cbn; [constructor..|]. intros a Ha%not_elem_of_nil. contradiction.
Defined.

Lemma enabled_after_majority_witness :
  applyAny 0 (fun _ => true) 1130 (votedTxs 1120 767 second) second = Some (mkAmendmentsSLE [7] []) /\
  exists since, since + 100 <= 1120 /\ hasMajority 7 since second.
Proof.
  split; [vm_compute; reflexivity|].
  destruct (enabled_after_majority 0 (fun _ => true) 100 1120 1130 7 [(1060, first); (1010, None)] second (votedTxs 1120 767 second)) as (since & H1 & H2 & _).
  - apply (chain_next 0 (fun _ => true) 100 _ first 1050 1060 (votedTxs 1050 511 first)); [|apply voted_txs].
    apply (chain_next 0 (fun _ => true) 100 _ None 1000 1010 (votedTxs 1000 255 None)); [|apply voted_txs]. apply chain_start.
  - apply voted_txs.
  - apply (bool_decide_eq_false_1 (7 ∈ _)). vm_compute. reflexivity.
  - apply (bool_decide_eq_true_1 (7 ∈ _)). vm_compute. reflexivity.
  - exists since. split; [exact H1|exact H2].
Defined.

End SampleAmendments.
