(* ===== verification/STProxy.v ===== *)
(** * Proxies of fields

    Models the classes [Proxy], [ValueProxy] and [OptionalProxy] of
    [include/xrpl/protocol/STObject.h], what [obj[field]] and [obj.at(field)]
    give, with [~field] for a field that may be absent.  The class of the field's
    value, the template argument there, is the record [fieldClass]. *)

From stdpp Require Import strings sorting.
From S2P Require Import Prelude Outcome Serializer SFields Number Amount STLeaf STObject STAccess SerializerFacts AmountFacts STLeafFacts STObjectFacts STObjectProperties STAccessFacts Formats Messages MessagesProperties.

(** A class of values: the cast to it, its [value], an assignment, the value
    without contents and the comparison with it. *)
Record fieldClass (V : Type) := mkClass { cast : STValue -> option V; wrap : V -> STValue; empty : V; isEmpty : V -> bool }.
Arguments mkClass {V}.
Arguments cast {V}.
Arguments wrap {V}.
Arguments empty {V}.
Arguments isEmpty {V}.

Definition classU16 : fieldClass Z := mkClass asU16 (fun v => Leaf (STUInt16 v)) 0 (Z.eqb 0).
Definition classU32 : fieldClass Z := mkClass asU32 (fun v => Leaf (STUInt32 v)) 0 (Z.eqb 0).
Definition classU64 : fieldClass Z := mkClass asU64 (fun v => Leaf (STUInt64 v)) 0 (Z.eqb 0).
Definition classH256 : fieldClass Blob := mkClass asH256 (fun v => Leaf (STUInt256 v)) (replicate 32 0) isXRP.
Definition classVL : fieldClass Blob := mkClass asVL (fun v => Leaf (STBlob v)) [] (fun v => match v with [] => true | _ => false end).
Definition classAccount : fieldClass Blob :=
  mkClass asAccount (fun v => Leaf (STAccount_ (mkSTAccount v false))) (replicate 20 0) isXRP.
Definition zeroAmount : STAmount := mkSTAmount (AIssue xrpIssue) 0 0 false.
Definition classAmount : fieldClass STAmount :=
  mkClass asAmount (fun v => Leaf (STAmount_ v)) zeroAmount (fun v => amount_eqb v zeroAmount).

(** [SOTemplate::style]. *)
Definition styleOf (field : SField) (t : SOTemplate) : SOEStyle :=
  match getIndex field t with
  | Some index => match t !! index with Some e => style e | None => soeINVALID end
  | None => soeINVALID
  end.

(** The constructor of [Proxy]: the style of the field. *)
Definition proxy (field : SField) (o : Object) : outcome SOEStyle :=
  match o.1 with
  | Some t =>
      match peekAtPField field o with
      | None => Throw ("Template field error '" ++ fieldName field ++ "'")%string
      | Some _ => Ret (styleOf field t)
      end
  | None => Ret soeINVALID
  end.

Section Class.
Context {V : Type} (c : fieldClass V).

Definition proxyFind (field : SField) (o : Object) : option V := peekAtPField field o ≫= cast c.

Definition proxyValue (style_ : SOEStyle) (field : SField) (o : Object) : outcome V :=
  match proxyFind field o with
  | Some v => Ret v
  | None =>
      if bool_decide (style_ = soeINVALID) then Throw "Value requested from invalid STObject."
      else if negb (bool_decide (style_ = soeDEFAULT)) then Throw ("Missing field '" ++ fieldName field ++ "'")%string
      else Ret (empty c)
  end.

(** [assign]; the cast of what is at the index is asserted. *)
Definition proxyAssign (style_ : SOEStyle) (field : SField) (u : V) (o : Object) : outcome Object :=
  if bool_decide (style_ = soeDEFAULT) && isEmpty c u then makeFieldAbsent field o
  else
    (if bool_decide (style_ = soeINVALID) then getPField field true o
     else makeFieldPresent field o ≫= fun '(index, o) => Ret (Some index, o)) ≫= fun '(t, o) =>
    match t ≫= fun index => pair index <$> o.2 !! index with
    | Some (index, (name, v)) =>
        match cast c v with
        | Some _ => Ret (o.1, <[index := (name, wrap c u)]> o.2)
        | None => Throw "type cast succeeded"
        end
    | None => Throw "type cast succeeded"
    end.

(** [obj[field]], [obj[field] = u], [obj[field] += u]. *)
Definition valueOf (field : SField) (o : Object) : outcome V := proxy field o ≫= fun s => proxyValue s field o.

Definition assignTo (field : SField) (u : V) (o : Object) : outcome Object := proxy field o ≫= fun s => proxyAssign s field u o.

Definition updateTo (op : V -> outcome V) (field : SField) (o : Object) : outcome Object :=
  proxy field o ≫= fun s => proxyValue s field o ≫= fun v => op v ≫= fun u => proxyAssign s field u o.

(** [OptionalProxy]. *)
Definition engaged (style_ : SOEStyle) (field : SField) (o : Object) : bool :=
  bool_decide (style_ = soeDEFAULT) || bool_decide (is_Some (proxyFind field o)).

Definition disengage (style_ : SOEStyle) (field : SField) (o : Object) : outcome Object :=
  if bool_decide (style_ = soeREQUIRED) || bool_decide (style_ = soeDEFAULT)
  then Throw ("Template field error '" ++ fieldName field ++ "'")%string
  else if bool_decide (style_ = soeINVALID) then Ret (delField field o).2
  else makeFieldAbsent field o.

Definition optional_value (field : SField) (o : Object) : outcome (option V) :=
  proxy field o ≫= fun s => if engaged s field o then proxyValue s field o ≫= fun v => Ret (Some v) else Ret None.

Definition value_or (val : V) (field : SField) (o : Object) : outcome V :=
  proxy field o ≫= fun s => if engaged s field o then proxyValue s field o else Ret val.

Definition assignOptional (field : SField) (u : option V) (o : Object) : outcome Object :=
  proxy field o ≫= fun s => match u with Some u => proxyAssign s field u o | None => disengage s field o end.

(** [at] of an object that is const; an absent field of a required style is
    excluded by an assertion, as is an absent field without a template. *)
Definition constAt (field : SField) (o : Object) : outcome V :=
  match peekAtPField field o with
  | None => Throw ("Missing field: " ++ fieldName field)%string
  | Some b =>
      match cast c b, o.1 with
      | Some u, _ => Ret u
      | None, None => Throw "field template non-null"
      | None, Some t =>
          if bool_decide (styleOf field t = soeOPTIONAL) then Throw ("Missing optional field: " ++ fieldName field)%string
          else Ret (empty c)
      end
  end.

Definition constAtOptional (field : SField) (o : Object) : outcome (option V) :=
  match peekAtPField field o with
  | None => Ret None
  | Some b =>
      match cast c b, o.1 with
      | Some u, _ => Ret (Some u)
      | None, None => Throw "field template non-null"
      | None, Some t => if bool_decide (styleOf field t = soeOPTIONAL) then Ret None else Ret (Some (empty c))
      end
  end.

End Class.

(** [STAmount(XRPAmount const&)], the assignment of drops to an amount. *)
Definition amountOfXRP (cfg : settings) (drops : Z) : outcome STAmount := signedAmount cfg (AIssue xrpIssue) drops 0.

(** * Properties of proxies *)

(** ** Classes *)

(** The laws of a class of values of one type. *)
Record class_ok (cfg : settings) {V} (c : fieldClass V) (type : SerializedTypeID) : Prop := {
  c_wrap : forall u, cast c (wrap c u) = Some u;
  c_type : forall u, getSType (wrap c u) = type;
  c_cast : forall v, getSType v = type -> is_Some (cast c v);
  c_only : forall v, is_Some (cast c v) -> getSType v = type;
  c_default : exists v, defaultValue type = Ret v /\ getSType v = type;
  c_present : type <> STI_NOTPRESENT;
  c_leaf : forall u, exists x, wrap c u = Leaf x /\ (leaf_ok cfg x -> leaf_isDefault x = true -> isEmpty c u = true);
}.

Ltac class_tac :=
  split; [done|done|intros [|[]| |]; cbn; intros; (discriminate || eauto)|intros [|[]| |]; cbn; intros [? ?]; (discriminate || done)
    |eexists; split; reflexivity|done|].

Lemma classU16_ok cfg : class_ok cfg classU16 STI_UINT16.
Proof. class_tac. intros u. eexists. split; [done|]. cbn. rewrite Z.eqb_sym. done. Qed.
Lemma classU32_ok cfg : class_ok cfg classU32 STI_UINT32.
Proof. class_tac. intros u. eexists. split; [done|]. cbn. rewrite Z.eqb_sym. done. Qed.
Lemma classU64_ok cfg : class_ok cfg classU64 STI_UINT64.
Proof. class_tac. intros u. eexists. split; [done|]. cbn. rewrite Z.eqb_sym. done. Qed.
Lemma classH256_ok cfg : class_ok cfg classH256 STI_UINT256.
Proof. class_tac. intros u. eexists. split; done. Qed.
Lemma classVL_ok cfg : class_ok cfg classVL STI_VL.
Proof. class_tac. intros u. eexists. split; done. Qed.
Lemma classAccount_ok cfg : class_ok cfg classAccount STI_ACCOUNT.
Proof. class_tac. intros u. eexists. split; done. Qed.

Lemma native_asset a : asset_native a = true -> asset_ok a -> a = AIssue xrpIssue.
Proof.
  destruct a as [i|id]; [|done]. cbn. unfold issue_native, issue_eqb. rewrite andb_true_iff, bool_decide_eq_true. cbn [currency xrpIssue].
  intros [E _] [->|(_ & _ & H & _)]; [done|]. by rewrite E in H.
Qed.

Lemma classAmount_ok cfg : class_ok cfg classAmount STI_AMOUNT.
Proof.
  class_tac. intros a. eexists. split; [done|]. cbn [leaf_ok leaf_isDefault isEmpty classAmount]. intros [Ha Hc] H. unfold amount_isDefault in H.
  apply andb_true_iff in H as [Hv Hn]. pose proof (native_asset _ Hn Ha) as E. unfold canonical, integral in Hc. rewrite E in Hc. cbn in Hc.
  destruct a as [as_ v e n]. cbn in *. subst as_. destruct Hc as (-> & _ & Hneg). rewrite Hneg by lia. apply Z.eqb_eq in Hv as ->. reflexivity.
Qed.

(** ** Assignments *)

(** The style of a field of an object. *)
Definition fieldStyle (f : SField) (o : Object) : SOEStyle := match o.1 with Some t => styleOf f t | None => soeINVALID end.

Lemma proxy_style f o s : proxy f o = Ret s -> s = fieldStyle f o.
Proof. unfold proxy, fieldStyle. destruct o.1; [|by intros [= <-]]. by destruct (peekAtPField f o); intros [= <-]. Qed.

Lemma makeFieldAbsent_spec f o o' :
  proper o -> makeFieldAbsent f o = Ret o' ->
  proper o' /\ o'.1 = o.1 /\ peekAtPField f o' = Some NotPresent /\ (forall g, code g <> code f -> peekAtPField g o' = peekAtPField g o) /\
  exists i name w, o.2 !! i = Some (name, w) /\ code name = code f /\ o' = replaced i name NotPresent o.
Proof.
  intros Hp. unfold makeFieldAbsent. destruct (getFieldIndex f o) as [i|] eqn:Ei; [|done].
  pose proof Ei as Hi. rewrite index_position in Hi by done. apply position_Some in Hi as ([name w] & Hx & Ec). cbn [fst] in Ec. rewrite Hx.
  assert (forall o', o' = replaced i name NotPresent o -> proper o' /\ o'.1 = o.1 /\ peekAtPField f o' = Some NotPresent /\
    (forall g, code g <> code f -> peekAtPField g o' = peekAtPField g o)) as H.
  { intros ? ->. split_and!; [by eapply replaced_proper|done| |intros g Hg]; (erewrite replaced_peek by done);
      [by rewrite decide_True|by rewrite decide_False by congruence]. }
  destruct (decide (getSType w = STI_NOTPRESENT)) as [Hw|Hw]; [rewrite bool_decide_true by done|rewrite bool_decide_false by done]; intros [= <-].
  - assert (w = NotPresent) as -> by (destruct w as [|[]| |]; done).
    assert (o = replaced i name NotPresent o) as E. { unfold replaced. rewrite list_insert_id by done. by destruct o. }
    destruct (H o E) as (? & ? & ? & ?). split_and!; [done..|]. by exists i, name, NotPresent.
  - destruct (H _ eq_refl) as (? & ? & ? & ?). split_and!; [done..|]. by exists i, name, w.
Qed.

Section Class.
Context (cfg : settings) {V} (c : fieldClass V) (type : SerializedTypeID) (Hc : class_ok cfg c type).

Lemma proxy_index f o s : proxy f o = Ret s -> s <> soeINVALID -> exists i, getFieldIndex f o = Some i.
Proof.
  unfold proxy. destruct o.1 as [t|]; [|intros [= <-]; done]. destruct (peekAtPField f o) eqn:E; [|done]. unfold peekAtPField in E.
  destruct (getFieldIndex f o) as [i|]; [by exists i|done].
Qed.

(** An assignment puts the value in the field, or removes a field that has its
    default, and leaves the other fields alone. *)
Lemma proxyAssign_spec f u s o o' :
  proper o -> proxy f o = Ret s -> proxyAssign c s f u o = Ret o' ->
  let v := if bool_decide (s = soeDEFAULT) && isEmpty c u then NotPresent else wrap c u in
  proper o' /\ o'.1 = o.1 /\ peekAtPField f o' = Some v /\ (forall g, code g <> code f -> peekAtPField g o' = peekAtPField g o) /\
  (o.1 <> None -> exists i name w, o.2 !! i = Some (name, w) /\ code name = code f /\ o' = replaced i name v o).
Proof.
  intros Hp Hs. unfold proxyAssign. destruct (bool_decide (s = soeDEFAULT) && isEmpty c u); [intros E; cbn; by destruct (makeFieldAbsent_spec _ _ _ Hp E) as (? & ? & ? & ? & ?)|].
  intros ([rf o1] & E1 & H)%bind_Ret.
  assert (proper o1 /\ o1.1 = o.1 /\ rf = getFieldIndex f o1 /\ (forall g, code g <> code f -> peekAtPField g o1 = peekAtPField g o) /\
    (o.1 <> None -> exists i name w v, o.2 !! i = Some (name, w) /\ o1 = replaced i name v o /\ rf = Some i)) as (Hp1 & T1 & -> & P1 & R1).
  { destruct (decide (s = soeINVALID)) as [->|Hne]; [rewrite bool_decide_true in E1 by done|rewrite bool_decide_false in E1 by done].
    - destruct (getPField_spec _ _ _ _ _ Hp E1) as (? & ? & Hi & ? & Hsame). split_and!; [done..|]. intros Ho.
      destruct (getFieldIndex f o) as [i|] eqn:Ei; [|exfalso; unfold proxy in Hs; destruct o.1; [|done]; unfold peekAtPField in Hs; by rewrite Ei in Hs].
      rewrite (Hsame ltac:(done)), Ei in Hi. pose proof Ei as Hx. rewrite index_position in Hx by done. apply position_Some in Hx as ([name w] & Hx & _).
      exists i, name, w, w. split_and!; [done| |done]. rewrite (Hsame ltac:(done)). unfold replaced. rewrite list_insert_id by done. by destruct o.
    - apply bind_Ret in E1 as ([j o2] & E2 & [= <- <-]). destruct (proxy_index f o s Hs Hne) as [i Hi].
      destruct (makeFieldPresent_spec f o i j o2 Hp Hi E2) as (? & ? & -> & ? & ?). split_and!; [done..|]. intros _.
      pose proof Hi as Hx. rewrite index_position in Hx by done. apply position_Some in Hx as ([name w] & Hx & _). unfold makeFieldPresent in E2. rewrite Hi, Hx in E2.
      assert (exists v, o2 = replaced i name v o) as [v Ev]; [|by exists i, name, w, v].
      assert (o = replaced i name w o) as Eo by (unfold replaced; rewrite list_insert_id by done; by destruct o).
      destruct w; try (injection E2 as <-; by eexists). apply bind_Ret in E2 as (v & _ & [= <-]). by exists v. }
  destruct (getFieldIndex f o1) as [i|] eqn:Ei; [|done]. cbn [mbind option_bind] in H. destruct (o1.2 !! i) as [[name v]|] eqn:Ex; [|done]. cbn in H.
  destruct (cast c v); [|done]. injection H as <-. fold (replaced i name (wrap c u) o1).
  assert (code name = code f) as Ec by (rewrite index_position in Ei by done; apply position_Some in Ei as (y & Hy & Ey); rewrite Ex in Hy; by injection Hy as <-).
  cbn. split_and!; [by eapply replaced_proper|done|erewrite replaced_peek by done; by rewrite decide_True| |].
  - intros g Hg. erewrite replaced_peek by done. rewrite decide_False by congruence. by apply P1.
  - intros Ho. destruct (R1 Ho) as (j & n & w & v' & Hj & -> & [= <-]). exists i, name, w. cbn in Ex.
    rewrite list_lookup_insert_eq in Ex by (by eapply lookup_lt_Some). injection Ex as <- <-. split_and!; [done..|]. unfold replaced. cbn. by rewrite list_insert_insert_eq.
Qed.

(** What was assigned is read. *)
Lemma assign_read f u o o' :
  proper o -> assignTo c f u o = Ret o' ->
  valueOf c f o' = Ret (if bool_decide (fieldStyle f o = soeDEFAULT) && isEmpty c u then empty c else u).
Proof.
  intros Hp. unfold assignTo. intros (s & Hs & H)%bind_Ret. destruct (proxyAssign_spec _ _ _ _ _ Hp Hs H) as (_ & T & P & _ & _).
  unfold valueOf. assert (proxy f o' = Ret s) as -> by (unfold proxy in *; rewrite T, P; destruct o.1; [destruct (peekAtPField f o); done|done]).
  rewrite Ret_bind, <- (proxy_style _ _ _ Hs). unfold proxyValue, proxyFind. rewrite P. cbn [mbind option_bind].
  destruct (bool_decide_reflect (s = soeDEFAULT)) as [->|Hne]; cbn [andb]; [|by rewrite (c_wrap _ _ _ Hc)]. destruct (isEmpty c u); [|by rewrite (c_wrap _ _ _ Hc)].
  destruct (cast c NotPresent) eqn:E; [|done]. exfalso. apply (c_present _ _ _ Hc). rewrite <- (c_only _ _ _ Hc NotPresent); [done|by rewrite E].
Qed.

(** ** Objects under a template *)

Context (t : SOTemplate) (f : SField) (Htype : fieldType f = type) (Hf : namedOk f)
  (Hknown : Forall (fun e => sField e ∈ knownFields) t).

Lemma template_entry level o i name w :
  okObject (okValue cfg level) (Some t) o -> o.2 !! i = Some (name, w) -> code name = code f ->
  name = f /\ exists e, t !! i = Some e /\ sField e = f /\ styleOf f t = style e /\ getFieldIndex f o = Some i /\
    matches (fun x => namedOk x.1 /\ okValue cfg level x.1 x.2) e (f, w).
Proof using Hf Hknown.
  intros Ho Hx Ec. pose proof (ok_proper _ _ _ Ho) as Hp. destruct Ho as (E1 & Hn & Hm).
  destruct (Forall2_lookup_r _ _ _ _ _ Hm Hx) as (e & He & Hme). pose proof Hme as [En _]. cbn [fst] in En.
  assert (name = f) as -> by (apply code_inj; [rewrite En; rewrite Forall_forall in Hknown; apply Hknown; by eapply list_elem_of_lookup_2|apply Hf|done]).
  assert (getFieldIndex f o = Some i) as Hi. { rewrite index_position by done. apply (position_at f o.2 i (f, w)); [by apply proper_codes|done..]. }
  split; [done|]. exists e. split_and!; [done..| |done|done]. unfold styleOf. unfold getFieldIndex in Hi. rewrite E1 in Hi. by rewrite Hi, He.
Qed.

(** Values in range keep the object one that the template describes. *)
Lemma assign_fits level u x o o' :
  okObject (okValue cfg (S level)) (Some t) o -> wrap c u = Leaf x -> leaf_ok cfg x -> assignTo c f u o = Ret o' ->
  okObject (okValue cfg (S level)) (Some t) o'.
Proof using Hc Htype Hf Hknown.
  intros Ho Ex Hx H. pose proof (ok_proper _ _ _ Ho) as Hp. unfold assignTo in H. apply bind_Ret in H as (s & Hs & H).
  destruct (proxyAssign_spec _ _ _ _ _ Hp Hs H) as (_ & _ & _ & _ & R). assert (o.1 = Some t) as E1 by apply Ho.
  destruct R as (i & name & w & Hw & Ec & ->); [by rewrite E1|]. destruct (template_entry _ _ _ _ _ Ho Hw Ec) as (-> & e & He & Hsf & Hst & _ & _).
  assert (s = style e) as Es by (rewrite (proxy_style _ _ _ Hs); unfold fieldStyle; by rewrite E1). rewrite Es in *.
  destruct Ho as (_ & Hn & Hm). unfold okObject, replaced. cbn [fst snd]. split_and!; [done..|]. rewrite <- (list_insert_id t i e He). apply Forall2_insert; [done|].
  split; [done|]. cbn [fst snd]. destruct (bool_decide_reflect (style e = soeDEFAULT)) as [Hd|Hd]; cbn [andb].
  - destruct (isEmpty c u) eqn:Eu; [left; split; [done|congruence]|]. right. rewrite Ex.
    destruct (c_leaf _ _ _ Hc u) as (x' & Ex' & Hdef). rewrite Ex in Ex'. injection Ex' as <-.
    pose proof (c_type _ _ _ Hc u) as Ht. rewrite Ex in Ht. cbn in Ht. split; [by destruct x|]. split; [split; [exact Hf|split; [exact Hx|congruence]]|].
    cbn. intros [_ Hx']. by rewrite Hdef in Eu.
  - right. rewrite Ex. pose proof (c_type _ _ _ Hc u) as Ht. rewrite Ex in Ht. cbn in Ht. split; [by destruct x|].
    split; [split; [exact Hf|split; [exact Hx|congruence]]|by intros [? _]].
Qed.

Lemma okValue_type level g v : okValue cfg level g v -> getSType v = fieldType g.
Proof using. destruct level, v; cbn; try done; naive_solver. Qed.

(** Every field of the template can be assigned. *)
Lemma assign_total level u o :
  okObject (okValue cfg level) (Some t) o -> styleOf f t <> soeINVALID -> exists o', assignTo c f u o = Ret o'.
Proof using Hc Htype Hf Hknown.
  intros Ho Hi. pose proof (ok_proper _ _ _ Ho) as Hp. assert (o.1 = Some t) as E1 by apply Ho.
  destruct (getFieldIndex f o) as [i|] eqn:Ei; [|unfold getFieldIndex in Ei; rewrite E1 in Ei; exfalso; apply Hi; unfold styleOf; by rewrite Ei].
  pose proof Ei as Hx. rewrite index_position in Hx by done. apply position_Some in Hx as ([name w] & Hx & Ec). cbn [fst] in Ec.
  destruct (template_entry _ _ _ _ _ Ho Hx Ec) as (-> & e & He & Hsf & Hst & _ & [_ Hm]). unfold assignTo, proxy. rewrite E1. unfold peekAtPField. rewrite Ei, Hx. cbn [fmap option_fmap option_map snd].
  rewrite Ret_bind. unfold proxyAssign. rewrite (bool_decide_false (styleOf f t = soeINVALID)) by done. destruct (bool_decide _ && _).
  - unfold makeFieldAbsent. rewrite Ei, Hx. destruct (bool_decide _); by eexists.
  - unfold makeFieldPresent. rewrite Ei, Hx. cbn [fst snd] in Hm. rewrite Htype. destruct (c_default _ _ _ Hc) as (d & Ed & Td). rewrite Ed.
    assert (w = NotPresent \/ getSType w = type) as [->|Hw]; [|rewrite !Ret_bind; cbn [mbind option_bind snd fst]..].
    { destruct Hm as [[-> _]|(_ & [_ Hv] & _)]; [by left|right]. by rewrite (okValue_type _ _ _ Hv). }
    { rewrite list_lookup_insert_eq by (by eapply lookup_lt_Some). cbn. destruct (c_cast _ _ _ Hc d Td) as [? ->]. by eexists. }
    assert (w <> NotPresent) by (intros ->; by destruct (c_present _ _ _ Hc)). destruct (c_cast _ _ _ Hc w Hw) as [y Hy].
    destruct w; [done|..]; rewrite !Ret_bind; cbn [mbind option_bind snd fst]; rewrite Hx; cbn; rewrite Hy; by eexists.
Qed.

End Class.

(** Assigning to a field of an object that a template describes succeeds,
    and the object stays one that the template describes: a value that a template
    has as the default of a field makes the field absent.  The field then reads as
    the value assigned, and the other fields are as they were. *)
Theorem proxy_assignment (cfg : settings) {V : Type} (c : fieldClass V) (type : SerializedTypeID) (t : SOTemplate) (f : SField) (u : V) (x : STLeaf)
    (level : nat) (o : Object) :
  class_ok cfg c type -> fieldType f = type -> namedOk f -> Forall (fun e => sField e ∈ knownFields) t -> styleOf f t <> soeINVALID ->
  wrap c u = Leaf x -> leaf_ok cfg x -> okObject (okValue cfg (S level)) (Some t) o ->
  exists o', assignTo c f u o = Ret o' /\ okObject (okValue cfg (S level)) (Some t) o' /\
    valueOf c f o' = Ret (if bool_decide (styleOf f t = soeDEFAULT) && isEmpty c u then empty c else u) /\
    forall g, code g <> code f -> peekAtPField g o' = peekAtPField g o.
Proof.
  intros Hc Hty Hf Hk Hs Ex Hx Ho. destruct (assign_total cfg c type Hc t f Hty Hf Hk _ u o Ho Hs) as [o' E]. pose proof (ok_proper _ _ _ Ho) as Hp.
  assert (o.1 = Some t) as E1 by apply Ho. exists o'. split; [exact E|]. split; [exact (assign_fits cfg c type Hc t f Hty Hf Hk _ _ _ _ _ Ho Ex Hx E)|]. split.
  - rewrite (assign_read cfg c type Hc f u o o' Hp E). unfold fieldStyle. by rewrite E1.
  - unfold assignTo in E. apply bind_Ret in E as (s & Es & E). by destruct (proxyAssign_spec c _ _ _ _ _ Hp Es E) as (_ & _ & _ & ? & _).
Qed.

(** A validation without contents; zero is the default of its cookie. *)
Definition blankValidation : Object := match ofTemplate validationFormat with Ret o => o | Throw _ => (None, []) end.

Lemma blankValidation_ok cfg : okObject (okValue cfg 10) (Some validationFormat) blankValidation.
Proof.
  assert (blankValidation = (Some validationFormat, blankValidation.2)) as -> by (vm_compute; reflexivity). apply simpleObject_ok. vm_compute. reflexivity.
Qed.

Lemma proxy_assignment_witness :
  exists o, assignTo classU64 (getFieldByName "Cookie") 7 blankValidation = Ret o /\ valueOf classU64 (getFieldByName "Cookie") o = Ret 7.
Proof.
  destruct (proxy_assignment sampleSettings classU64 STI_UINT64 validationFormat (getFieldByName "Cookie") 7 (STUInt64 7) 9 blankValidation (classU64_ok sampleSettings))
    as (o & E & _ & H & _).
  - vm_compute. reflexivity.
  - split; [apply (bool_decide_eq_true_1 _); vm_compute; reflexivity|vm_compute; reflexivity].
  - apply Forall_forall. intros e He. assert (forallb (fun e => bool_decide (sField e ∈ knownFields)) validationFormat = true) as H by (vm_compute; reflexivity).
    rewrite forallb_forall in H. apply (bool_decide_eq_true_1 _ (H e (proj1 (list_elem_of_In _ _) He))).
  - vm_compute. discriminate.
  - reflexivity.
  - cbn. lia.
  - apply blankValidation_ok.
  - exists o. split; [exact E|]. rewrite H. vm_compute. reflexivity.
Defined.
