(* ===== verification/FeeVote.v ===== *)
(** * Votes on fees

    Models [src/xrpld/app/misc/FeeVoteImpl.cpp], the checks and the application
    of the transaction it makes in [src/xrpld/app/tx/detail/Change.cpp] (with
    [preflight0] of [Transactor.cpp]), and how a ledger reads its fees,
    [Ledger::setup] of [src/xrpld/app/ledger/Ledger.cpp].  Votes, transactions
    and the entry are objects under their templates.  Amounts of drops are
    integers. *)

From stdpp Require Import strings sorting.
From S2P Require Import Prelude Outcome Serializer SFields Number Amount STLeaf STObject Formats Keys STAccess STProxy Messages TxSign.

Definition sfBaseFee : SField := getFieldByName "BaseFee".
Definition sfReferenceFeeUnits : SField := getFieldByName "ReferenceFeeUnits".
Definition sfReserveBase : SField := getFieldByName "ReserveBase".
Definition sfReserveIncrement : SField := getFieldByName "ReserveIncrement".
Definition sfBaseFeeDrops : SField := getFieldByName "BaseFeeDrops".
Definition sfReserveBaseDrops : SField := getFieldByName "ReserveBaseDrops".
Definition sfReserveIncrementDrops : SField := getFieldByName "ReserveIncrementDrops".
Definition sfLedgerSequence : SField := getFieldByName "LedgerSequence".
Definition sfFee : SField := getFieldByName "Fee".
Definition sfNetworkID : SField := getFieldByName "NetworkID".

Definition INITIAL_XRP : Z := 100000000000000000.

Definition isLegalAmountSigned (amount : Z) : bool := (- INITIAL_XRP <=? amount) && (amount <=? INITIAL_XRP).

(** [dropsAs] of an unsigned type of so many bits, and with a default. *)
Definition dropsAs (bits drops : Z) : option Z :=
  if (2 ^ bits - 1 <? drops) || (drops <? 0) then None else Some drops.

Definition dropsAsOr (bits drops defaultValue : Z) : Z := default (defaultValue mod 2 ^ bits) (dropsAs bits drops).

Record Fees := mkFees { base : Z; reserve : Z; increment : Z }.

Definition accountReserve (ownerCount : Z) (fees : Fees) : Z := s64 (reserve fees + ownerCount * increment fees).

Record FeeSetup := mkFeeSetup { reference_fee : Z; account_reserve : Z; owner_reserve : Z }.

(** ** Votable values *)

Record VotableValue := mkVotable { current_ : Z; target_ : Z; voteMap_ : gmap Z Z }.

Definition addVote (vote : Z) (v : VotableValue) : VotableValue :=
  mkVotable (current_ v) (target_ v) (<[vote := default 0 (voteMap_ v !! vote) + 1]> (voteMap_ v)).

Definition newVotable (current target : Z) : VotableValue := addVote target (mkVotable current target ∅).

Definition noVote (v : VotableValue) : VotableValue := addVote (current_ v) v.

(** The map in the order of its keys. *)
Definition votesInOrder (m : gmap Z Z) : list (Z * Z) := merge_sort (fun x y => x.1 <= y.1) (map_to_list m).

Definition considerVote (v : VotableValue) (acc : Z * Z) (x : Z * Z) : Z * Z :=
  let '(ourVote, weight) := acc in
  let '(key, val) := x in
  if (key <=? Z.max (target_ v) (current_ v)) && (Z.min (target_ v) (current_ v) <=? key) && (weight <? val) then (key, val)
  else (ourVote, weight).

Definition getVotes (v : VotableValue) : Z * bool :=
  let ourVote := (foldl (considerVote v) (current_ v, 0) (votesInOrder (voteMap_ v))).1 in
  (ourVote, negb (ourVote =? current_ v)).

Section FeeVote.
Context (cfg : settings) (L : library).

(** ** Votes of this server *)

(** The vote on one value, as an amount. *)
Definition voteDrops (current target : Z) (sfield : SField) (v : Object) : outcome Object :=
  if negb (current =? target) then amountOfXRP cfg target ≫= fun a => assignTo classAmount sfield a v else Ret v.

(** The vote on one value, as a number it fits in. *)
Definition voteNumber (c : fieldClass Z) (bits current target : Z) (sfield : SField) (v : Object) : outcome Object :=
  if negb (current =? target) then match dropsAs bits target with Some f => assignTo c sfield f v | None => Ret v end else Ret v.

Definition doValidation (featureXRPFees : bool) (target : FeeSetup) (lastFees : Fees) (v : Object) : outcome Object :=
  if featureXRPFees then
    voteDrops (base lastFees) (reference_fee target) sfBaseFeeDrops v ≫= fun v =>
    voteDrops (accountReserve 0 lastFees) (account_reserve target) sfReserveBaseDrops v ≫= fun v =>
    voteDrops (increment lastFees) (owner_reserve target) sfReserveIncrementDrops v
  else
    voteNumber classU64 64 (base lastFees) (reference_fee target) sfBaseFee v ≫= fun v =>
    voteNumber classU32 32 (accountReserve 0 lastFees) (account_reserve target) sfReserveBase v ≫= fun v =>
    voteNumber classU32 32 (increment lastFees) (owner_reserve target) sfReserveIncrement v.

(** ** The transaction *)

Definition doVoteDrops (val : STValidation) (xrpField : SField) (value : VotableValue) : outcome VotableValue :=
  optional_value classAmount xrpField (valObject val) ≫= fun field =>
  match field with
  | Some a =>
      if native a then
        xrp a ≫= fun vote => Ret (if isLegalAmountSigned vote then addVote vote value else noVote value)
      else Ret (noVote value)
  | None => Ret (noVote value)
  end.

Definition doVoteNumber (c : fieldClass Z) (val : STValidation) (valueField : SField) (value : VotableValue) : outcome VotableValue :=
  optional_value c valueField (valObject val) ≫= fun field =>
  Ret (match field with
       | Some vote => if (vote <=? 2 ^ 63 - 1) && isLegalAmountSigned vote then addVote vote value else noVote value
       | None => noVote value
       end).

(** The votes of one trusted validation on the three values. *)
Definition countVal (featureXRPFees : bool) (val : STValidation) (acc : VotableValue * VotableValue * VotableValue) :
    outcome (VotableValue * VotableValue * VotableValue) :=
  let '(baseFeeVote, baseReserveVote, incReserveVote) := acc in
  if featureXRPFees then
    doVoteDrops val sfBaseFeeDrops baseFeeVote ≫= fun b =>
    doVoteDrops val sfReserveBaseDrops baseReserveVote ≫= fun r =>
    doVoteDrops val sfReserveIncrementDrops incReserveVote ≫= fun i => Ret (b, r, i)
  else
    doVoteNumber classU64 val sfBaseFee baseFeeVote ≫= fun b =>
    doVoteNumber classU32 val sfReserveBase baseReserveVote ≫= fun r =>
    doVoteNumber classU32 val sfReserveIncrement incReserveVote ≫= fun i => Ret (b, r, i).

Fixpoint countVals (featureXRPFees : bool) (set : list STValidation) (acc : VotableValue * VotableValue * VotableValue) :
    outcome (VotableValue * VotableValue * VotableValue) :=
  match set with
  | [] => Ret acc
  | val :: set => if negb (mTrusted val) then countVals featureXRPFees set acc else countVal featureXRPFees val acc ≫= countVals featureXRPFees set
  end.

Definition FEE_UNITS_DEPRECATED : Z := 10.

(** The function that fills in the transaction. *)
Definition fillFeeTx (featureXRPFees : bool) (seq baseFee baseReserve incReserve : Z) (current : Fees) (obj : Object) : outcome Object :=
  assignTo classAccount sfAccount (replicate 20 0) obj ≫= fun obj =>
  assignTo classU32 sfLedgerSequence seq obj ≫= fun obj =>
  if featureXRPFees then
    amountOfXRP cfg baseFee ≫= fun b => assignTo classAmount sfBaseFeeDrops b obj ≫= fun obj =>
    amountOfXRP cfg baseReserve ≫= fun r => assignTo classAmount sfReserveBaseDrops r obj ≫= fun obj =>
    amountOfXRP cfg incReserve ≫= fun i => assignTo classAmount sfReserveIncrementDrops i obj
  else
    assignTo classU64 sfBaseFee (dropsAsOr 64 baseFee (base current)) obj ≫= fun obj =>
    assignTo classU32 sfReserveBase (dropsAsOr 32 baseReserve (reserve current)) obj ≫= fun obj =>
    assignTo classU32 sfReserveIncrement (dropsAsOr 32 incReserve (increment current)) obj ≫= fun obj =>
    assignTo classU32 sfReferenceFeeUnits FEE_UNITS_DEPRECATED obj.

(** The chosen values, and the transaction if one of them is a change; adding
    it to the initial position does nothing if it is there. *)
Definition chooseFees (featureXRPFees : bool) (target : FeeSetup) (fees : Fees) (set : list STValidation) : outcome ((Z * bool) * (Z * bool) * (Z * bool)) :=
  countVals featureXRPFees set
    (newVotable (base fees) (reference_fee target), newVotable (accountReserve 0 fees) (account_reserve target),
     newVotable (increment fees) (owner_reserve target)) ≫= fun '(b, r, i) =>
  Ret (getVotes b, getVotes r, getVotes i).

Definition doVoting (featureXRPFees : bool) (target : FeeSetup) (lclSeq : Z) (fees : Fees) (set : list STValidation) : outcome (option STTx) :=
  chooseFees featureXRPFees target fees set ≫= fun '(baseFee, baseReserve, incReserve) =>
  let seq := u32 (lclSeq + 1) in
  if baseFee.2 || baseReserve.2 || incReserve.2 then
    newTx L ttFEE
      (fillFeeTx featureXRPFees seq baseFee.1 baseReserve.1 incReserve.1 (mkFees (base fees) (accountReserve 0 fees) (increment fees)))
      ≫= fun feeTx => Ret (Some feeTx)
  else Ret None.

(** ** Checks of pseudo-transactions *)

Record changeRules := mkRules {
  featureXRPFees : bool;
  featureLendingProtocol : bool;
  featureNegativeUNL : bool;
  featurePF_ValidatorVoteTracking : bool;
}.

Inductive ChangeTER :=
| changeSUCCESS | temINVALID_FLAG | telNETWORK_ID_MAKES_TX_NON_CANONICAL | telREQUIRES_NETWORK_ID | telWRONG_NETWORK | temINVALID
| temBAD_SRC_ACCOUNT | temBAD_FEE | temBAD_SIGNATURE | temBAD_SEQUENCE | temDISABLED | temMALFORMED | temUNKNOWN.

Definition tfInnerBatchTxn : Z := 1073741824.
Definition tfUniversal : Z := Z.lor 2147483648 tfInnerBatchTxn.
Definition tfChangeMask : Z := Z.lxor (2 ^ 32 - 1) (Z.lor tfUniversal (Z.lor 65536 131072)).

Definition preflight0 (nodeNID flagMask : Z) (tx : STTx) : outcome ChangeTER :=
  let o := txObject tx in
  let rest :=
    if isXRP (tid_ tx) then temINVALID
    else if negb (Z.land (getFlags o) flagMask =? 0) then temINVALID_FLAG
    else changeSUCCESS in
  if isPseudoTx o && isFlag tfInnerBatchTxn o then Ret temINVALID_FLAG
  else if negb (isPseudoTx o) || isFieldPresent sfNetworkID o then
    constAtOptional classU32 sfNetworkID o ≫= fun txNID =>
    Ret (if nodeNID <=? 1024 then
           match txNID with Some _ => telNETWORK_ID_MAKES_TX_NON_CANONICAL | None => rest end
         else
           match txNID with
           | None => telREQUIRES_NETWORK_ID
           | Some id => if negb (id =? nodeNID) then telWRONG_NETWORK else rest
           end)
  else Ret rest.

(** [Transactor::invokePreflight<Change>]. *)
Definition invokePreflight (rules : changeRules) (nodeNID : Z) (tx : STTx) : outcome ChangeTER :=
  preflight0 nodeNID (if featureLendingProtocol rules then tfChangeMask else 0) tx ≫= fun ret =>
  match ret with
  | changeSUCCESS =>
      let o := txObject tx in
      getAccountID sfAccount o ≫= fun account =>
      if negb (isXRP account) then Ret temBAD_SRC_ACCOUNT
      else
        getFieldAmount sfFee o ≫= fun fee =>
        if negb (native fee) || negb (isZero fee) then Ret temBAD_FEE
        else
          getFieldVL sfSigningPubKey o ≫= fun spk =>
          if negb (bool_decide (spk = [])) || negb (bool_decide (getSignature o = [])) || isFieldPresent sfSigners o then Ret temBAD_SIGNATURE
          else
            getFieldU32 sfSequence o ≫= fun seq =>
            if negb (seq =? 0) || isFieldPresent sfPreviousTxnID o then Ret temBAD_SEQUENCE
            else if (tx_type_ tx =? ttUNL_MODIFY) && negb (featureNegativeUNL rules) then Ret temDISABLED
            else if (tx_type_ tx =? ttVALIDATOR_VOTE) && negb (featurePF_ValidatorVoteTracking rules) then Ret temDISABLED
            else Ret changeSUCCESS
  | ter => Ret ter
  end.

Definition preclaim (rules : changeRules) (open : bool) (tx : STTx) : ChangeTER :=
  let present f := isFieldPresent f (txObject tx) in
  if open then temINVALID
  else if tx_type_ tx =? ttFEE then
    if featureXRPFees rules then
      if negb (present sfBaseFeeDrops) || negb (present sfReserveBaseDrops) || negb (present sfReserveIncrementDrops) then temMALFORMED
      else if present sfBaseFee || present sfReferenceFeeUnits || present sfReserveBase || present sfReserveIncrement then temMALFORMED
      else changeSUCCESS
    else
      if negb (present sfBaseFee) || negb (present sfReferenceFeeUnits) || negb (present sfReserveBase) || negb (present sfReserveIncrement)
      then temMALFORMED
      else if present sfBaseFeeDrops || present sfReserveBaseDrops || present sfReserveIncrementDrops then temDISABLED
      else changeSUCCESS
  else if (tx_type_ tx =? ttAMENDMENT) || (tx_type_ tx =? ttUNL_MODIFY) || (tx_type_ tx =? ttVALIDATOR_VOTE) then changeSUCCESS
  else temUNKNOWN.

(** ** The entry *)

Definition ltFEE_SETTINGS : Z := 115.

(** [set]: a field of the entry from the transaction. *)
Definition setFrom {V} (c : fieldClass V) (tx : STTx) (field : SField) (feeObject : Object) : outcome Object :=
  constAt c field (txObject tx) ≫= fun v => assignTo c field v feeObject.

(** [applyFee]; [key] is that of [keylet::fees]. *)
Definition applyFee (rules : changeRules) (key : Blob) (tx : STTx) (sle : option STLedgerEntry) : outcome STLedgerEntry :=
  (match sle with Some sle => Ret sle | None => newSLE key ltFEE_SETTINGS end) ≫= fun sle =>
  let o := sleObject sle in
  (if featureXRPFees rules then
     setFrom classAmount tx sfBaseFeeDrops o ≫= fun o =>
     setFrom classAmount tx sfReserveBaseDrops o ≫= fun o =>
     setFrom classAmount tx sfReserveIncrementDrops o ≫= fun o =>
     makeFieldAbsent sfBaseFee o ≫= fun o =>
     makeFieldAbsent sfReferenceFeeUnits o ≫= fun o =>
     makeFieldAbsent sfReserveBase o ≫= fun o =>
     makeFieldAbsent sfReserveIncrement o
   else
     setFrom classU64 tx sfBaseFee o ≫= fun o =>
     setFrom classU32 tx sfReferenceFeeUnits o ≫= fun o =>
     setFrom classU32 tx sfReserveBase o ≫= fun o =>
     setFrom classU32 tx sfReserveIncrement o) ≫= fun o =>
  Ret (mkSLE o (key_ sle) (sleType sle)).

(** ** The fees of a ledger *)

Definition assignFee (dest : Z) (src : option STAmount) (ret : bool) : outcome (Z * bool) :=
  match src with
  | Some a => if native a then xrp a ≫= fun v => Ret (v, ret) else Ret (dest, false)
  | None => Ret (dest, ret)
  end.

(** The part of [Ledger::setup] that reads the entry: whether the ledger is
    sound, and its fees. *)
Definition setupFees (rules : changeRules) (sle : option STLedgerEntry) (fees : Fees) : outcome (bool * Fees) :=
  match sle with
  | None => Ret (true, fees)
  | Some sle =>
      let o := sleObject sle in
      constAtOptional classU64 sfBaseFee o ≫= fun baseFee =>
      constAtOptional classU32 sfReserveBase o ≫= fun reserveBase =>
      constAtOptional classU32 sfReserveIncrement o ≫= fun reserveIncrement =>
      let oldFees := bool_decide (is_Some baseFee) || bool_decide (is_Some reserveBase) || bool_decide (is_Some reserveIncrement) in
      constAtOptional classAmount sfBaseFeeDrops o ≫= fun baseFeeXRP =>
      constAtOptional classAmount sfReserveBaseDrops o ≫= fun reserveBaseXRP =>
      constAtOptional classAmount sfReserveIncrementDrops o ≫= fun reserveIncrementXRP =>
      assignFee (match baseFee with Some v => s64 v | None => base fees end) baseFeeXRP true ≫= fun '(b, ret) =>
      assignFee (default (reserve fees) reserveBase) reserveBaseXRP ret ≫= fun '(r, ret) =>
      assignFee (default (increment fees) reserveIncrement) reserveIncrementXRP ret ≫= fun '(i, ret) =>
      let newFees := bool_decide (is_Some baseFeeXRP) || bool_decide (is_Some reserveBaseXRP) || bool_decide (is_Some reserveIncrementXRP) in
      Ret (ret && negb (oldFees && newFees) && negb (negb (featureXRPFees rules) && newFees), mkFees b r i)
  end.

(** [Ledger::defaultFees]. *)
Definition defaultFees (config : FeeSetup) (fees : Fees) : Fees :=
  mkFees (if base fees =? 0 then reference_fee config else base fees)
         (if reserve fees =? 0 then account_reserve config else reserve fees)
         (if increment fees =? 0 then owner_reserve config else increment fees).

End FeeVote.
