(* ===== verification/FeeVoteProperties.v ===== *)
(** * Properties of votes on fees *)

From stdpp Require Import strings sorting.
From S2P Require Import Prelude Outcome Serializer SerializerFacts SFields Number Amount AmountFacts STLeaf STLeafFacts STObject STObjectFacts STObjectProperties STAccess STAccessFacts Formats Keys Messages MessagesProperties TxSign STProxy FeeVote.

(** ** The choice *)

Definition between (current target k : Z) : Prop := Z.min target current <= k <= Z.max target current.

(** The most voted of the values in between, the lowest of several. *)
Definition chosen (current target : Z) (count : Z -> Z) (v : Z) : Prop :=
  between current target v /\ 0 < count v /\
  forall k, between current target k -> count k <= count v /\ (count k = count v -> v <= k).

Lemma considered vv l v w :
  StronglySorted (fun x y => x.1 <= y.1) l -> foldl (considerVote vv) (current_ vv, 0) l = (v, w) ->
  let inRange k := between (current_ vv) (target_ vv) k in
  (w = 0 /\ forall k n, (k, n) ∈ l -> inRange k -> n <= 0) \/
  ((v, w) ∈ l /\ inRange v /\ 0 < w /\ forall k n, (k, n) ∈ l -> inRange k -> n <= w /\ (n = w -> v <= k)).
Proof.
  intros Hs E inRange. revert v w E. induction l as [|[k n] l IH] using rev_ind; intros v w; cbn [foldl].
  { intros [= <- <-]. left. split; [done|]. intros k n Hin. by apply not_elem_of_nil in Hin. }
  rewrite foldl_snoc. destruct (foldl (considerVote vv) (current_ vv, 0) l) as [v0 w0] eqn:E0. unfold considerVote. cbn.
  assert (StronglySorted (fun x y : Z * Z => x.1 <= y.1) l /\ forall x, x ∈ l -> x.1 <= k) as [Hl Hk].
  { clear -Hs. induction l as [|x l IHl]; cbn in Hs; [split; [constructor|by intros ? ?%not_elem_of_nil]|]. apply StronglySorted_inv in Hs as [Hs Hx].
    apply Forall_app in Hx as [Hx1 Hx2]. apply Forall_cons in Hx2 as [Hx2 _]. destruct (IHl Hs) as [H1 H2]. split; [by constructor|].
    intros y [->|Hy]%elem_of_cons; [done|by apply H2]. }
  specialize (IH Hl v0 w0 eq_refl). cbn in IH.
  destruct ((k <=? Z.max (target_ vv) (current_ vv)) && (Z.min (target_ vv) (current_ vv) <=? k) && (w0 <? n)) eqn:Ec; intros [= <- <-].
  - right. apply andb_true_iff in Ec as [[H1 H2]%andb_true_iff H3]. apply Z.leb_le in H1, H2. apply Z.ltb_lt in H3.
    assert (0 <= w0) by (destruct IH as [[-> _]|(_ & _ & ? & _)]; lia). split_and!; [apply elem_of_app; right; by left|split; lia|lia|].
    intros k' n' [Hin|[= -> ->]%list_elem_of_singleton]%elem_of_app Hr; [|lia].
    assert (n' <= w0) by (destruct IH as [[-> H0]|(_ & _ & _ & H0)]; [by apply (H0 k')|by apply (H0 k')]). lia.
  - assert (inRange k -> n <= w0) as Hn. { intros [? ?]. apply andb_false_iff in Ec as [[?|?]%andb_false_iff|?]; lia. }
    destruct IH as [[-> H0]|(H1 & H2 & H3 & H0)]; [left|right].
    + split; [done|]. intros k' n' [Hin|[= -> ->]%list_elem_of_singleton]%elem_of_app Hr; [by apply (H0 k')|by apply Hn].
    + split_and!; [apply elem_of_app; by left|done..|]. intros k' n' [Hin|[= -> ->]%list_elem_of_singleton]%elem_of_app Hr; [by apply H0|].
      split; [by apply Hn|]. intros _. apply (Hk (v0, w0) H1).
Qed.

Lemma getVotes_chosen vv :
  0 < default 0 (voteMap_ vv !! target_ vv) ->
  chosen (current_ vv) (target_ vv) (fun k => default 0 (voteMap_ vv !! k)) (getVotes vv).1.
Proof.
  intros Ht. unfold getVotes. cbn [fst]. destruct (foldl _ _ _) as [v w] eqn:E. cbn [fst].
  assert (forall k n, (k, n) ∈ votesInOrder (voteMap_ vv) <-> voteMap_ vv !! k = Some n) as Hin.
  { intros k n. unfold votesInOrder. rewrite merge_sort_Permutation. apply elem_of_map_to_list. }
  assert (StronglySorted (fun x y => x.1 <= y.1) (votesInOrder (voteMap_ vv))) as Hs.
  { apply Sorted_StronglySorted; [intros ? ? ?; lia|]. apply Sorted_merge_sort. intros x y. lia. }
  pose proof (considered _ _ _ _ Hs E) as H. cbn in H.
  assert (between (current_ vv) (target_ vv) (target_ vv)) as Hb by (unfold between; lia).
  destruct (voteMap_ vv !! target_ vv) as [n|] eqn:En; [|done]. cbn in Ht.
  destruct H as [[_ H]|(H1 & H2 & H3 & H4)]; [apply Hin in En; specialize (H _ _ En Hb); lia|].
  apply Hin in H1. split_and!; [done|by rewrite H1|]. intros k Hk. rewrite H1. cbn. destruct (voteMap_ vv !! k) as [m|] eqn:Em; cbn; [|lia].
  apply H4; [by apply Hin|done].
Qed.

(** ** Ballots *)

(** The legal vote of a validation on a value, if it has one. *)
Definition ballotDrops (f : SField) (o : Object) : option Z :=
  match proxyFind classAmount f o with
  | Some a => if native a && isLegalAmountSigned (signedValue a) then Some (signedValue a) else None
  | None => None
  end.

Definition ballotNumber (c : fieldClass Z) (f : SField) (o : Object) : option Z :=
  match proxyFind c f o with
  | Some vote => if (vote <=? 2 ^ 63 - 1) && isLegalAmountSigned vote then Some vote else None
  | None => None
  end.

(** A validation under its template. *)
Definition under (t : SOTemplate) (o : Object) : Prop := proper o /\ o.1 = Some t.

Lemma under_peek t o f : under t o -> styleOf f t <> soeINVALID -> exists v, peekAtPField f o = Some v.
Proof.
  intros [Hp E] Hs. unfold peekAtPField. unfold styleOf in Hs. pose proof (index_position f o Hp) as Hi. unfold getFieldIndex in *. rewrite E in *.
  destruct (getIndex f t) as [i|]; [|done]. symmetry in Hi. apply position_Some in Hi as ([n v] & -> & _). by exists v.
Qed.

Lemma optional_value_find {V} (c : fieldClass V) t o f :
  under t o -> styleOf f t = soeOPTIONAL -> optional_value c f o = Ret (proxyFind c f o).
Proof.
  intros Ho Hs. destruct (under_peek t o f Ho) as [v Hv]; [by rewrite Hs|]. destruct Ho as [_ E]. unfold optional_value, proxy. rewrite E, Hv, Ret_bind, Hs.
  unfold engaged, proxyValue. destruct (proxyFind c f o); [by rewrite Ret_bind|done].
Qed.

Lemma doVoteDrops_ballot val f value :
  under validationFormat (valObject val) -> styleOf f validationFormat = soeOPTIONAL ->
  doVoteDrops val f value = Ret (addVote (default (current_ value) (ballotDrops f (valObject val))) value).
Proof.
  intros Ho Hs. unfold doVoteDrops. rewrite (optional_value_find _ _ _ _ Ho Hs), Ret_bind. unfold ballotDrops. destruct (proxyFind _ _ _) as [a|]; [|done].
  destruct (native a) eqn:En; cbn [andb]; [|done]. unfold xrp. rewrite En, Ret_bind. by destruct (isLegalAmountSigned _).
Qed.

Lemma doVoteNumber_ballot c val f value :
  under validationFormat (valObject val) -> styleOf f validationFormat = soeOPTIONAL ->
  doVoteNumber c val f value = Ret (addVote (default (current_ value) (ballotNumber c f (valObject val))) value).
Proof.
  intros Ho Hs. unfold doVoteNumber. rewrite (optional_value_find _ _ _ _ Ho Hs), Ret_bind. unfold ballotNumber. destruct (proxyFind _ _ _) as [v|]; [|done].
  by destruct ((v <=? _) && _).
Qed.

(** The three ballots of a validation. *)
Definition ballotsOf (fees : bool) (o : Object) : option Z * option Z * option Z :=
  if fees then (ballotDrops sfBaseFeeDrops o, ballotDrops sfReserveBaseDrops o, ballotDrops sfReserveIncrementDrops o)
  else (ballotNumber classU64 sfBaseFee o, ballotNumber classU32 sfReserveBase o, ballotNumber classU32 sfReserveIncrement o).

Lemma countVal_ballots fees val b r i :
  under validationFormat (valObject val) ->
  countVal fees val (b, r, i) =
  Ret (addVote (default (current_ b) (ballotsOf fees (valObject val)).1.1) b, addVote (default (current_ r) (ballotsOf fees (valObject val)).1.2) r,
       addVote (default (current_ i) (ballotsOf fees (valObject val)).2) i).
Proof.
  intros Ho. unfold countVal, ballotsOf. destruct fees; cbn [fst snd].
  - by rewrite !doVoteDrops_ballot, !Ret_bind by (done || reflexivity).
  - by rewrite !doVoteNumber_ballot, !Ret_bind by (done || reflexivity).
Qed.

(** The votes of the trusted validations on a value, which vote for the current
    one if they do not say. *)
Definition ballots (pick : option Z * option Z * option Z -> option Z) (fees : bool) (current : Z) (set : list STValidation) : list Z :=
  map (fun val => default current (pick (ballotsOf fees (valObject val)))) (filter (fun val => mTrusted val = true) set).

Definition times (k : Z) (l : list Z) : Z := Z.of_nat (length (filter (fun x => x = k) l)).

Definition counts (v : VotableValue) (current target : Z) (l : list Z) : Prop :=
  current_ v = current /\ target_ v = target /\ forall k, default 0 (voteMap_ v !! k) = times k l.

Lemma addVote_counts vote v current target l : counts v current target l -> counts (addVote vote v) current target (l ++ [vote]).
Proof.
  intros (H1 & H2 & H3). split_and!; [done..|]. intros k. unfold times. rewrite filter_app, length_app, filter_cons, filter_nil. cbn [addVote voteMap_].
  specialize (H3 k). unfold times in H3. case_decide as E; [subst; rewrite lookup_insert_eq|rewrite lookup_insert_ne by done]; cbn [default from_option id length];
    [change (from_option id 0 (voteMap_ v !! k)) with (default 0 (voteMap_ v !! k))|]; lia.
Qed.

Lemma newVotable_counts current target : counts (newVotable current target) current target [target].
Proof. apply (addVote_counts target (mkVotable current target ∅) current target []). done. Qed.

Lemma countVals_counts fees set b r i cb cr ci tb tr ti lb lr li :
  Forall (fun val => mTrusted val = true -> under validationFormat (valObject val)) set ->
  counts b cb tb lb -> counts r cr tr lr -> counts i ci ti li ->
  exists b' r' i', countVals fees set (b, r, i) = Ret (b', r', i') /\
    counts b' cb tb (lb ++ ballots (fun x => x.1.1) fees cb set) /\ counts r' cr tr (lr ++ ballots (fun x => x.1.2) fees cr set) /\
    counts i' ci ti (li ++ ballots snd fees ci set).
Proof.
  intros Hset. revert b r i lb lr li. induction Hset as [|val set Hval _ IH]; intros b r i lb lr li Hb Hr Hi; cbn [countVals].
  { exists b, r, i. unfold ballots. cbn. by rewrite !app_nil_r. }
  unfold ballots. rewrite filter_cons. destruct (mTrusted val) eqn:Em; cbn [negb].
  - rewrite decide_True by done. rewrite countVal_ballots, Ret_bind by auto. pose proof Hb as (-> & _ & _). pose proof Hr as (-> & _ & _). pose proof Hi as (-> & _ & _).
    destruct (IH _ _ _ _ _ _ (addVote_counts (default cb (ballotsOf fees (valObject val)).1.1) _ _ _ _ Hb)
      (addVote_counts (default cr (ballotsOf fees (valObject val)).1.2) _ _ _ _ Hr) (addVote_counts (default ci (ballotsOf fees (valObject val)).2) _ _ _ _ Hi)) as (b' & r' & i' & E & H1 & H2 & H3).
    exists b', r', i'. cbn [map]. rewrite <- !app_assoc in H1, H2, H3. done.
  - rewrite decide_False by done. by apply IH.
Qed.

Lemma times_pos k l : k ∈ l -> 0 < times k l.
Proof.
  intros H. unfold times. destruct (filter (fun x => x = k) l) eqn:E; [|cbn; lia]. exfalso.
  assert (k ∈ filter (fun x => x = k) l) as Hin by (by apply list_elem_of_filter). rewrite E in Hin. by apply not_elem_of_nil in Hin.
Qed.

Lemma counts_chosen v current target l :
  counts v current target (target :: l) ->
  chosen current target (fun k => times k (target :: l)) (getVotes v).1 /\ (getVotes v).2 = negb ((getVotes v).1 =? current).
Proof.
  intros (<- & <- & H). split; [|done]. destruct (getVotes_chosen v) as (H1 & H2 & H3); [rewrite H; apply times_pos; left|].
  split_and!; [done|by rewrite <- H|]. intros k Hk. rewrite <- !H. by apply H3.
Qed.

Lemma chooseFees_chosen (fees : bool) (target : FeeSetup) (current : Fees) (set : list STValidation) :
  Forall (fun val => mTrusted val = true -> under validationFormat (valObject val)) set ->
  exists b r i, chooseFees fees target current set = Ret ((b, negb (b =? base current)), (r, negb (r =? accountReserve 0 current)), (i, negb (i =? increment current))) /\
    chosen (base current) (reference_fee target)
      (fun k => times k (reference_fee target :: ballots (fun x => x.1.1) fees (base current) set)) b /\
    chosen (accountReserve 0 current) (account_reserve target)
      (fun k => times k (account_reserve target :: ballots (fun x => x.1.2) fees (accountReserve 0 current) set)) r /\
    chosen (increment current) (owner_reserve target)
      (fun k => times k (owner_reserve target :: ballots snd fees (increment current) set)) i.
Proof.
  intros Hset. unfold chooseFees.
  destruct (countVals_counts fees set _ _ _ _ _ _ _ _ _ _ _ _ Hset (newVotable_counts (base current) (reference_fee target))
    (newVotable_counts (accountReserve 0 current) (account_reserve target)) (newVotable_counts (increment current) (owner_reserve target)))
    as (b & r & i & E & Hb & Hr & Hi).
  rewrite E, Ret_bind. apply counts_chosen in Hb as [Hb Eb], Hr as [Hr Er], Hi as [Hi Ei].
  exists (getVotes b).1, (getVotes r).1, (getVotes i).1. rewrite <- Eb, <- Er, <- Ei, <- !surjective_pairing. done.
Qed.

(** On each of the base fee, the reserve and the increment a server chooses,
    of the values between the current one and its own target, the one with most
    votes, the lowest of several; its own target counts once, and each trusted
    validation counts once, for the legal value it names or else for the current
    value.  A transaction is made exactly if one of the three is a change. *)
Theorem fee_choice (fees : bool) (target : FeeSetup) (current : Fees) (set : list STValidation) :
  Forall (fun val => mTrusted val = true -> under validationFormat (valObject val)) set ->
  exists b r i, chooseFees fees target current set = Ret ((b, negb (b =? base current)), (r, negb (r =? accountReserve 0 current)), (i, negb (i =? increment current))) /\
    chosen (base current) (reference_fee target)
      (fun k => times k (reference_fee target :: ballots (fun x => x.1.1) fees (base current) set)) b /\
    chosen (accountReserve 0 current) (account_reserve target)
      (fun k => times k (account_reserve target :: ballots (fun x => x.1.2) fees (accountReserve 0 current) set)) r /\
    chosen (increment current) (owner_reserve target)
      (fun k => times k (owner_reserve target :: ballots snd fees (increment current) set)) i.
Proof. apply chooseFees_chosen. Qed.

(** ** Assignments to objects under a template *)

(** The field tells which values an object has. *)
Definition updates (f : SField) (v : STValue) (o o' : Object) : Prop :=
  forall g, peekAtPField g o' = if code g =? code f then Some v else peekAtPField g o.

Lemma updates_intro f v o o' :
  proper o' -> peekAtPField f o' = Some v -> (forall g, code g <> code f -> peekAtPField g o' = peekAtPField g o) -> updates f v o o'.
Proof.
  intros Hp Hf Hg g. destruct (Z.eqb_spec (code g) (code f)) as [E|E]; [|by apply Hg]. apply peek_elem; [done|]. apply peek_elem in Hf as (x & ? & ? & ?); [|done].
  exists x. split_and!; [done|congruence|done].
Qed.

Section Template.
Context (cfg : settings) (t : SOTemplate) (Hknown : Forall (fun e => sField e ∈ knownFields) t).

Local Abbreviation fits := (okObject (okValue cfg 10) (Some t)).

Lemma assign_step {V} (c : fieldClass V) type f u x o :
  class_ok cfg c type -> fieldType f = type -> namedOk f -> styleOf f t = soeOPTIONAL \/ styleOf f t = soeREQUIRED ->
  wrap c u = Leaf x -> leaf_ok cfg x -> fits o ->
  exists o', assignTo c f u o = Ret o' /\ fits o' /\ updates f (Leaf x) o o'.
Proof using Hknown.
  intros Hc Ht Hf Hs Ex Hx Ho. assert (styleOf f t <> soeINVALID /\ styleOf f t <> soeDEFAULT) as [Hs1 Hs2] by (destruct Hs as [-> | ->]; done).
  destruct (assign_total cfg c type Hc t f Ht Hf Hknown 10 u o Ho Hs1) as [o' E]. exists o'. split; [done|]. split; [by eapply assign_fits|].
  pose proof (ok_proper _ _ _ Ho) as Hp. unfold assignTo in E. apply bind_Ret in E as (s & Es & E).
  destruct (proxyAssign_spec c _ _ _ _ _ Hp Es E) as (Hp' & _ & P1 & P2 & _). apply proxy_style in Es. unfold fieldStyle in Es.
  assert (o.1 = Some t) as E1 by apply Ho. rewrite E1 in Es. rewrite (bool_decide_false (s = soeDEFAULT)) in P1 by congruence. cbn [andb] in P1. rewrite Ex in P1.
  by apply updates_intro.
Qed.

Lemma absent_step f o : namedOk f -> styleOf f t = soeOPTIONAL -> fits o -> exists o', makeFieldAbsent f o = Ret o' /\ fits o' /\ updates f NotPresent o o'.
Proof using Hknown.
  intros Hf Hs Ho. pose proof (ok_proper _ _ _ Ho) as Hp. assert (o.1 = Some t) as E1 by apply Ho.
  assert (exists o', makeFieldAbsent f o = Ret o') as [o' E].
  { unfold makeFieldAbsent, getFieldIndex. rewrite E1. unfold styleOf in Hs. destruct (getIndex f t) as [i|]; [|done].
    destruct (o.2 !! i) as [[n v]|]; [|by eexists]. destruct (bool_decide _); by eexists. }
  destruct (makeFieldAbsent_spec _ _ _ Hp E) as (Hp' & _ & P1 & P2 & i & name & w & Hw & Ec & ->). exists (replaced i name NotPresent o). split; [done|].
  split; [|by apply updates_intro]. destruct (template_entry cfg t f Hf Hknown _ _ _ _ _ Ho Hw Ec) as (-> & e & He & Hsf & Hst & _ & _).
  destruct Ho as (_ & Hn & Hm). split; [done|]. split; [done|]. cbn [replaced snd]. rewrite <- (list_insert_id t i e He). apply Forall2_insert; [done|].
  split; [done|]. left. split; [done|]. rewrite <- Hst, Hs. done.
Qed.

End Template.

(** ** Drops *)

Definition legal (drops : Z) : Prop := - INITIAL_XRP <= drops <= INITIAL_XRP.

Definition dropsAmount (drops : Z) : STAmount := mkSTAmount (AIssue xrpIssue) (Z.abs drops) 0 (drops <? 0).

Lemma dropsAmount_ok cfg z : legal z -> leaf_ok cfg (STAmount_ (dropsAmount z)).
Proof.
  intros [H1 H2]. unfold INITIAL_XRP in *. split; [by left|]. split; [done|]. cbn [dropsAmount mValue mIsNegative]. change (native _) with true. unfold cMaxNativeN.
  split; [cbn; lia|]. lia.
Qed.

Lemma amountOfXRP_legal cfg z : legal z -> amountOfXRP cfg z = Ret (dropsAmount z).
Proof. intros Hz. unfold amountOfXRP, signedAmount, amount. apply canonicalize_id. apply (dropsAmount_ok cfg z Hz). Qed.

Lemma xrp_dropsAmount z : legal z -> xrp (dropsAmount z) = Ret z.
Proof.
  intros [H1 H2]. unfold INITIAL_XRP in *. unfold xrp. change (native (dropsAmount z)) with true. f_equal. unfold signedValue, dropsAmount. cbn [mIsNegative mValue].
  rewrite s64_id by lia. destruct (Z.ltb_spec z 0); lia.
Qed.

(** ** The transaction *)

Definition formatOf (type : Z) (l : list Item) : Item := default (mkItem [] EmptyString 0) (findByType type l).

Definition feeFormat : SOTemplate := soTemplate_ (formatOf ttFEE txFormats).
Definition entryFormat : SOTemplate := soTemplate_ (formatOf ltFEE_SETTINGS ledgerFormats).

Definition objectOr (m : outcome Object) : Object := match m with Ret o => o | Throw _ => (None, []) end.

(** The transaction with its type, and with its account, before the votes are
    filled in; the entry before it has fees. *)
Definition feeTxEmpty : Object := objectOr (ofTemplate feeFormat).
Definition feeTxTyped : Object := objectOr (setFieldU16 sfTransactionType ttFEE feeTxEmpty).
Definition feeTxStart : Object := objectOr (assignTo classAccount sfAccount (replicate 20 0) feeTxTyped).

Definition entryEmpty : Object := objectOr (ofTemplate entryFormat).
Definition entryStart : Object := objectOr (setFieldU16 sfLedgerEntryType ltFEE_SETTINGS entryEmpty).

Lemma known_of t : forallb (fun e => bool_decide (sField e ∈ knownFields)) t = true -> Forall (fun e => sField e ∈ knownFields) t.
Proof. rewrite forallb_forall. intros H. apply Forall_forall. intros e He. apply (bool_decide_eq_true_1 _ (H e (proj1 (list_elem_of_In _ _) He))). Qed.

Lemma feeFormat_known : Forall (fun e => sField e ∈ knownFields) feeFormat.
Proof. apply known_of. vm_compute. reflexivity. Qed.

Lemma entryFormat_known : Forall (fun e => sField e ∈ knownFields) entryFormat.
Proof. apply known_of. vm_compute. reflexivity. Qed.

Lemma feeTxStart_ok cfg : okObject (okValue cfg 10) (Some feeFormat) feeTxStart.
Proof.
  assert (feeTxStart = (Some feeFormat, feeTxStart.2)) as -> by (vm_compute; reflexivity). apply simpleObject_ok. vm_compute. reflexivity.
Qed.

Lemma entryStart_ok cfg : okObject (okValue cfg 10) (Some entryFormat) entryStart.
Proof.
  assert (entryStart = (Some entryFormat, entryStart.2)) as -> by (vm_compute; reflexivity). apply simpleObject_ok. vm_compute. reflexivity.
Qed.

Lemma newTx_fee L f :
  newTx L ttFEE f =
  (f feeTxTyped ≫= fun o => getFieldU16 sfTransactionType o ≫= fun tx_type =>
   if negb (tx_type =? ttFEE) then Throw "Transaction type was mutated during assembly"
   else getHash (sha512Half L) hpTransactionID o ≫= fun tid => Ret (mkSTTx o tx_type tid)).
Proof.
  unfold newTx. assert (getTxFormat ttFEE = Ret (formatOf ttFEE txFormats)) as -> by (vm_compute; reflexivity). rewrite Ret_bind.
  assert (ofTemplate (soTemplate_ (formatOf ttFEE txFormats)) = Ret feeTxEmpty) as -> by (vm_compute; reflexivity). rewrite Ret_bind.
  assert (setFieldU16 sfTransactionType (type_ (formatOf ttFEE txFormats)) feeTxEmpty = Ret feeTxTyped) as -> by (vm_compute; reflexivity). by rewrite Ret_bind.
Qed.

Lemma newSLE_fee key : newSLE key ltFEE_SETTINGS = Ret (mkSLE entryStart key ltFEE_SETTINGS).
Proof.
  unfold newSLE. assert (findByType ltFEE_SETTINGS ledgerFormats = Some (formatOf ltFEE_SETTINGS ledgerFormats)) as -> by (vm_compute; reflexivity).
  cbn [require]. rewrite Ret_bind. assert (ofTemplate (soTemplate_ (formatOf ltFEE_SETTINGS ledgerFormats)) = Ret entryEmpty) as -> by (vm_compute; reflexivity). rewrite Ret_bind.
  assert (setFieldU16 sfLedgerEntryType ltFEE_SETTINGS entryEmpty = Ret entryStart) as -> by (vm_compute; reflexivity). by rewrite Ret_bind.
Qed.

Ltac named_tac := split; [apply (bool_decide_eq_true_1 _); vm_compute; reflexivity|vm_compute; reflexivity].

(** One more assignment of a chain, [L] the last object. *)
Ltac step lem Hlast o E H U :=
  edestruct lem as (o & E & H & U); [| | | | | |exact Hlast|rewrite E, ?Ret_bind];
  [eauto using classU32_ok, classU64_ok, classAmount_ok, classAccount_ok|vm_compute; reflexivity|named_tac|first [left; vm_compute; reflexivity|right; vm_compute; reflexivity]|reflexivity| |].

(** An object with these values, and the others of [o]. *)
Fixpoint withValues (l : list (SField * STValue)) (o : Object) (g : SField) : option STValue :=
  match l with
  | [] => peekAtPField g o
  | (f, v) :: l => if code g =? code f then Some v else withValues l o g
  end.

Lemma withValues_nil o g : peekAtPField g o = withValues [] o g.
Proof. reflexivity. Qed.

Lemma updates_with f v o o' l start :
  updates f v o o' -> (forall g, peekAtPField g o = withValues l start g) -> forall g, peekAtPField g o' = withValues ((f, v) :: l) start g.
Proof. intros U H g. cbn. rewrite U, H. reflexivity. Qed.

Section Fill.
Context (cfg : settings) (seq : Z) (Hseq : 0 <= seq < 2 ^ 32) (current : Fees).

Local Abbreviation fits := (okObject (okValue cfg 10) (Some feeFormat)).

Definition valuesDrops (b r i : Z) : list (SField * STValue) :=
  [(sfReserveIncrementDrops, Leaf (STAmount_ (dropsAmount i))); (sfReserveBaseDrops, Leaf (STAmount_ (dropsAmount r)));
   (sfBaseFeeDrops, Leaf (STAmount_ (dropsAmount b))); (sfLedgerSequence, Leaf (STUInt32 seq))].

Definition valuesNumber (b r i : Z) : list (SField * STValue) :=
  [(sfReferenceFeeUnits, Leaf (STUInt32 FEE_UNITS_DEPRECATED)); (sfReserveIncrement, Leaf (STUInt32 i)); (sfReserveBase, Leaf (STUInt32 r));
   (sfBaseFee, Leaf (STUInt64 b)); (sfLedgerSequence, Leaf (STUInt32 seq))].

Lemma account_assigned : assignTo classAccount sfAccount (replicate 20 0) feeTxTyped = Ret feeTxStart.
Proof. vm_compute. reflexivity. Qed.

Lemma fill_drops b r i :
  legal b -> legal r -> legal i ->
  exists o, fillFeeTx cfg true seq b r i current feeTxTyped = Ret o /\ fits o /\ forall g, peekAtPField g o = withValues (valuesDrops b r i) feeTxStart g.
Proof using Hseq.
  intros Hb Hr Hi. unfold fillFeeTx. rewrite account_assigned, Ret_bind.
  step (assign_step cfg feeFormat feeFormat_known classU32 STI_UINT32 sfLedgerSequence seq) (feeTxStart_ok cfg) o1 E1 H1 U1; [exact Hseq|].
  rewrite !amountOfXRP_legal, !Ret_bind by done.
  step (assign_step cfg feeFormat feeFormat_known classAmount STI_AMOUNT sfBaseFeeDrops (dropsAmount b)) H1 o2 E2 H2 U2; [by apply dropsAmount_ok|].
  step (assign_step cfg feeFormat feeFormat_known classAmount STI_AMOUNT sfReserveBaseDrops (dropsAmount r)) H2 o3 E3 H3 U3; [by apply dropsAmount_ok|].
  step (assign_step cfg feeFormat feeFormat_known classAmount STI_AMOUNT sfReserveIncrementDrops (dropsAmount i)) H3 o4 E4 H4 U4; [by apply dropsAmount_ok|].
  exists o4. split; [done|]. split; [done|]. apply (updates_with _ _ _ _ _ _ U4), (updates_with _ _ _ _ _ _ U3), (updates_with _ _ _ _ _ _ U2), (updates_with _ _ _ _ [] _ U1). apply withValues_nil.
Qed.

Lemma fill_number b r i :
  0 <= b < 2 ^ 64 -> 0 <= r < 2 ^ 32 -> 0 <= i < 2 ^ 32 ->
  exists o, fillFeeTx cfg false seq b r i current feeTxTyped = Ret o /\ fits o /\ forall g, peekAtPField g o = withValues (valuesNumber b r i) feeTxStart g.
Proof using Hseq.
  intros Hb Hr Hi. assert (forall bits z d, 0 <= z < 2 ^ bits -> dropsAsOr bits z d = z) as Hd.
  { intros bits z d Hz. unfold dropsAsOr, dropsAs. rewrite (proj2 (Z.ltb_ge _ _)), (proj2 (Z.ltb_ge _ _)) by lia. reflexivity. }
  unfold fillFeeTx. rewrite account_assigned, Ret_bind, !Hd by assumption.
  step (assign_step cfg feeFormat feeFormat_known classU32 STI_UINT32 sfLedgerSequence seq) (feeTxStart_ok cfg) o1 E1 H1 U1; [exact Hseq|].
  step (assign_step cfg feeFormat feeFormat_known classU64 STI_UINT64 sfBaseFee b) H1 o2 E2 H2 U2; [exact Hb|].
  step (assign_step cfg feeFormat feeFormat_known classU32 STI_UINT32 sfReserveBase r) H2 o3 E3 H3 U3; [exact Hr|].
  step (assign_step cfg feeFormat feeFormat_known classU32 STI_UINT32 sfReserveIncrement i) H3 o4 E4 H4 U4; [exact Hi|].
  step (assign_step cfg feeFormat feeFormat_known classU32 STI_UINT32 sfReferenceFeeUnits FEE_UNITS_DEPRECATED) H4 o5 E5 H5 U5; [unfold FEE_UNITS_DEPRECATED; cbn; lia|].
  exists o5. split; [reflexivity|]. split; [exact H5|]. 
  apply (updates_with _ _ _ _ _ _ U5), (updates_with _ _ _ _ _ _ U4), (updates_with _ _ _ _ _ _ U3), (updates_with _ _ _ _ _ _ U2), (updates_with _ _ _ _ [] _ U1).
  apply withValues_nil.
Qed.

End Fill.

(** The chosen values a server can express. *)
Definition expressible (fees : bool) (b r i : Z) : Prop :=
  if fees then legal b /\ legal r /\ legal i else 0 <= b < 2 ^ 63 /\ 0 <= r < 2 ^ 32 /\ 0 <= i < 2 ^ 32.

Definition values (fees : bool) (seq b r i : Z) : list (SField * STValue) := if fees then valuesDrops seq b r i else valuesNumber seq b r i.

Lemma fee_transaction cfg L fees seq b r i current :
  0 <= seq < 2 ^ 32 -> expressible fees b r i ->
  exists o bs, newTx L ttFEE (fillFeeTx cfg fees seq b r i current) = Ret (mkSTTx o ttFEE (sha512Half L ((add32 hpTransactionID []).2 ++ bs))) /\
    okObject (okValue cfg 10) (Some feeFormat) o /\ forall g, peekAtPField g o = withValues (values fees seq b r i) feeTxStart g.
Proof.
  intros Hseq He. assert (exists o, fillFeeTx cfg fees seq b r i current feeTxTyped = Ret o /\ okObject (okValue cfg 10) (Some feeFormat) o /\
    forall g, peekAtPField g o = withValues (values fees seq b r i) feeTxStart g) as (o & E & Ho & Hg).
  { unfold expressible, values in *. destruct fees; [apply fill_drops|apply fill_number]; (tauto || lia). }
  destruct (object_back cfg (loadSigned 4) (loadSigned 8) (loadSigned_loads 4 ltac:(lia)) (loadSigned_loads 8 ltac:(lia)) _ _ Ho) as (bs & _ & Hw & _).
  exists o, bs. split; [|split; [exact Ho|exact Hg]]. rewrite newTx_fee, E, Ret_bind. unfold getFieldU16, getFieldBy. rewrite Hg.
  assert (withValues (values fees seq b r i) feeTxStart sfTransactionType = Some (Leaf (STUInt16 ttFEE))) as -> by (destruct fees; vm_compute; reflexivity).
  cbn [asU16 require]. rewrite Ret_bind. change (ttFEE =? ttFEE) with true. cbn [negb]. unfold getHash, hashOf. rewrite Hw, !Ret_bind. reflexivity.
Qed.

Lemma fee_checks rules nodeNID fees seq b r i o tid :
  (forall g, peekAtPField g o = withValues (values fees seq b r i) feeTxStart g) -> featureXRPFees rules = fees ->
  (isXRP tid = false -> invokePreflight rules nodeNID (mkSTTx o ttFEE tid) = Ret changeSUCCESS) /\
  preclaim rules false (mkSTTx o ttFEE tid) = changeSUCCESS.
Proof.
  intros Hg Hr. split.
  - intros Ht. unfold invokePreflight, preflight0, isPseudoTx, optionalU16, isFlag, getFlags, getAccountID, getFieldAmount, getFieldVL, getSignature, getFieldVL, getFieldU32, getFieldBy, isFieldPresent.
    cbn [txObject tid_ tx_type_]. rewrite !Hg, Ht. destruct fees; vm_compute; reflexivity.
  - unfold preclaim, isFieldPresent. cbn [txObject tid_ tx_type_]. rewrite !Hg, Hr. destruct fees; vm_compute; reflexivity.
Qed.

(** ** The entry *)

Lemma constAt_held {V} (c : fieldClass V) f o u : cast c (wrap c u) = Some u -> peekAtPField f o = Some (wrap c u) -> constAt c f o = Ret u.
Proof. intros Hc Hp. unfold constAt. rewrite Hp, Hc. reflexivity. Qed.

(** One more step of a chain on the entry. *)
Ltac entry_step lem Hlast o E H U :=
  edestruct lem as (o & E & H & U); [| |exact Hlast|rewrite E, ?Ret_bind]; [named_tac|vm_compute; reflexivity|].

Section Entry.
Context (cfg : settings) (rules : changeRules) (key tid : Blob) (txo : Object) (seq b r i : Z).

Local Abbreviation fits := (okObject (okValue cfg 10) (Some entryFormat)).

Definition entryValues (fees : bool) : list (SField * STValue) :=
  if fees then
    [(sfReserveIncrement, NotPresent); (sfReserveBase, NotPresent); (sfReferenceFeeUnits, NotPresent); (sfBaseFee, NotPresent);
     (sfReserveIncrementDrops, Leaf (STAmount_ (dropsAmount i))); (sfReserveBaseDrops, Leaf (STAmount_ (dropsAmount r)));
     (sfBaseFeeDrops, Leaf (STAmount_ (dropsAmount b)))]
  else
    [(sfReserveIncrement, Leaf (STUInt32 i)); (sfReserveBase, Leaf (STUInt32 r)); (sfReferenceFeeUnits, Leaf (STUInt32 FEE_UNITS_DEPRECATED));
     (sfBaseFee, Leaf (STUInt64 b))].

Definition entryBefore (sle : option STLedgerEntry) : Object := match sle with Some sle => sleObject sle | None => entryStart end.

Lemma apply_drops o :
  legal b -> legal r -> legal i -> (forall g, peekAtPField g txo = withValues (values true seq b r i) feeTxStart g) -> fits o ->
  let tx := mkSTTx txo ttFEE tid in
  exists o', (setFrom classAmount tx sfBaseFeeDrops o ≫= fun o => setFrom classAmount tx sfReserveBaseDrops o ≫= fun o =>
    setFrom classAmount tx sfReserveIncrementDrops o ≫= fun o => makeFieldAbsent sfBaseFee o ≫= fun o => makeFieldAbsent sfReferenceFeeUnits o ≫= fun o =>
    makeFieldAbsent sfReserveBase o ≫= fun o => makeFieldAbsent sfReserveIncrement o) = Ret o' /\ fits o' /\
    forall g, peekAtPField g o' = withValues (entryValues true) o g.
Proof.
  intros Hb Hr Hi Hg Ho tx. unfold setFrom. cbn [txObject tx].
  rewrite (constAt_held classAmount sfBaseFeeDrops txo (dropsAmount b)), Ret_bind by (try reflexivity; rewrite Hg; vm_compute; reflexivity).
  step (assign_step cfg entryFormat entryFormat_known classAmount STI_AMOUNT sfBaseFeeDrops (dropsAmount b)) Ho o1 E1 H1 U1; [by apply dropsAmount_ok|].
  rewrite (constAt_held classAmount sfReserveBaseDrops txo (dropsAmount r)), Ret_bind by (try reflexivity; rewrite Hg; vm_compute; reflexivity).
  step (assign_step cfg entryFormat entryFormat_known classAmount STI_AMOUNT sfReserveBaseDrops (dropsAmount r)) H1 o2 E2 H2 U2; [by apply dropsAmount_ok|].
  rewrite (constAt_held classAmount sfReserveIncrementDrops txo (dropsAmount i)), Ret_bind by (try reflexivity; rewrite Hg; vm_compute; reflexivity).
  step (assign_step cfg entryFormat entryFormat_known classAmount STI_AMOUNT sfReserveIncrementDrops (dropsAmount i)) H2 o3 E3 H3 U3; [by apply dropsAmount_ok|].
  entry_step (absent_step cfg entryFormat entryFormat_known sfBaseFee o3) H3 o4 E4 H4 U4.
  entry_step (absent_step cfg entryFormat entryFormat_known sfReferenceFeeUnits o4) H4 o5 E5 H5 U5.
  entry_step (absent_step cfg entryFormat entryFormat_known sfReserveBase o5) H5 o6 E6 H6 U6.
  entry_step (absent_step cfg entryFormat entryFormat_known sfReserveIncrement o6) H6 o7 E7 H7 U7.
  exists o7. split; [reflexivity|]. split; [exact H7|].
  apply (updates_with _ _ _ _ _ _ U7), (updates_with _ _ _ _ _ _ U6), (updates_with _ _ _ _ _ _ U5), (updates_with _ _ _ _ _ _ U4), (updates_with _ _ _ _ _ _ U3),
    (updates_with _ _ _ _ _ _ U2), (updates_with _ _ _ _ [] _ U1). apply withValues_nil.
Qed.

Lemma apply_number o :
  0 <= b < 2 ^ 63 -> 0 <= r < 2 ^ 32 -> 0 <= i < 2 ^ 32 -> (forall g, peekAtPField g txo = withValues (values false seq b r i) feeTxStart g) -> fits o ->
  let tx := mkSTTx txo ttFEE tid in
  exists o', (setFrom classU64 tx sfBaseFee o ≫= fun o => setFrom classU32 tx sfReferenceFeeUnits o ≫= fun o =>
    setFrom classU32 tx sfReserveBase o ≫= fun o => setFrom classU32 tx sfReserveIncrement o) = Ret o' /\ fits o' /\
    forall g, peekAtPField g o' = withValues (entryValues false) o g.
Proof.
  intros Hb Hr Hi Hg Ho tx. unfold setFrom. cbn [txObject tx].
  rewrite (constAt_held classU64 sfBaseFee txo b), Ret_bind by (try reflexivity; rewrite Hg; vm_compute; reflexivity).
  step (assign_step cfg entryFormat entryFormat_known classU64 STI_UINT64 sfBaseFee b) Ho o1 E1 H1 U1; [cbn; lia|].
  rewrite (constAt_held classU32 sfReferenceFeeUnits txo FEE_UNITS_DEPRECATED), Ret_bind by (try reflexivity; rewrite Hg; vm_compute; reflexivity).
  step (assign_step cfg entryFormat entryFormat_known classU32 STI_UINT32 sfReferenceFeeUnits FEE_UNITS_DEPRECATED) H1 o2 E2 H2 U2; [unfold FEE_UNITS_DEPRECATED; cbn; lia|].
  rewrite (constAt_held classU32 sfReserveBase txo r), Ret_bind by (try reflexivity; rewrite Hg; vm_compute; reflexivity).
  step (assign_step cfg entryFormat entryFormat_known classU32 STI_UINT32 sfReserveBase r) H2 o3 E3 H3 U3; [exact Hr|].
  rewrite (constAt_held classU32 sfReserveIncrement txo i), Ret_bind by (try reflexivity; rewrite Hg; vm_compute; reflexivity).
  step (assign_step cfg entryFormat entryFormat_known classU32 STI_UINT32 sfReserveIncrement i) H3 o4 E4 H4 U4; [exact Hi|].
  exists o4. split; [reflexivity|]. split; [exact H4|].
  apply (updates_with _ _ _ _ _ _ U4), (updates_with _ _ _ _ _ _ U3), (updates_with _ _ _ _ _ _ U2), (updates_with _ _ _ _ [] _ U1). apply withValues_nil.
Qed.

Lemma apply_fee fees sle :
  expressible fees b r i -> featureXRPFees rules = fees -> (forall g, peekAtPField g txo = withValues (values fees seq b r i) feeTxStart g) ->
  fits (entryBefore sle) ->
  exists sle', applyFee rules key (mkSTTx txo ttFEE tid) sle = Ret sle' /\ fits (sleObject sle') /\
    forall g, peekAtPField g (sleObject sle') = withValues (entryValues fees) (entryBefore sle) g.
Proof.
  intros He Hr Hg Ho. unfold applyFee. rewrite Hr.
  assert ((match sle with Some sle => Ret sle | None => newSLE key ltFEE_SETTINGS end) =
    Ret (mkSLE (entryBefore sle) (match sle with Some s => key_ s | None => key end) (match sle with Some s => sleType s | None => ltFEE_SETTINGS end))) as ->
    by (destruct sle as [[]|]; [reflexivity|apply newSLE_fee]).
  rewrite Ret_bind. cbn [sleObject key_ sleType]. unfold expressible in He. destruct fees.
  - destruct He as (H1 & H2 & H3). destruct (apply_drops (entryBefore sle) H1 H2 H3 Hg Ho) as (o' & -> & Hf & Hg'). rewrite Ret_bind. eexists. split; [reflexivity|]. split; [exact Hf|exact Hg'].
  - destruct He as (H1 & H2 & H3). destruct (apply_number (entryBefore sle) H1 H2 H3 Hg Ho) as (o' & -> & Hf & Hg'). rewrite Ret_bind. eexists. split; [reflexivity|]. split; [exact Hf|exact Hg'].
Qed.

End Entry.

Lemma absent_drops cfg rules s fees0 fees f :
  okObject (okValue cfg 10) (Some entryFormat) (sleObject s) -> setupFees rules (Some s) fees0 = Ret (true, fees) -> featureXRPFees rules = false ->
  f = sfBaseFeeDrops \/ f = sfReserveBaseDrops \/ f = sfReserveIncrementDrops -> peekAtPField f (sleObject s) = Some NotPresent.
Proof.
  intros Ho H Hr Hf. assert (constAtOptional classAmount f (sleObject s) = Ret None /\ styleOf f entryFormat = soeOPTIONAL /\ namedOk f /\ fieldType f = STI_AMOUNT) as (Hc & Hs & Hn & Ht).
  { unfold setupFees in H. rewrite Hr in H. cbn [negb andb] in H. apply bind_Ret in H as (o1 & _ & H). apply bind_Ret in H as (o2 & _ & H). apply bind_Ret in H as (o3 & _ & H).
    apply bind_Ret in H as (x & Ex & H). apply bind_Ret in H as (y & Ey & H). apply bind_Ret in H as (z & Ez & H). apply bind_Ret in H as ([b0 r0] & _ & H). apply bind_Ret in H as ([b1 r1] & _ & H). apply bind_Ret in H as ([b2 r2] & _ & H).
    injection H as H _. apply andb_true_iff in H as [_ H]. apply negb_true_iff, orb_false_iff in H as [[H1 H2]%orb_false_iff H3].
    apply bool_decide_eq_false in H1, H2, H3. destruct x; [by destruct H1|]. destruct y; [by destruct H2|]. destruct z; [by destruct H3|].
    destruct Hf as [-> |[-> | ->]]; (split; [assumption|split; [vm_compute; reflexivity|split; [named_tac|vm_compute; reflexivity]]]). }
  destruct (under_peek entryFormat (sleObject s) f) as [v Hv]; [split; [exact (ok_proper _ _ _ Ho)|apply Ho]|rewrite Hs; discriminate|].
  unfold constAtOptional in Hc. rewrite Hv in Hc. pose proof (ok_proper _ _ _ Ho) as Hp. apply peek_elem in Hv as Hx; [|done]. destruct Hx as ([name w] & Hx & Ec & <-).
  apply list_elem_of_lookup in Hx as [i Hi]. destruct (template_entry cfg entryFormat f Hn entryFormat_known _ _ _ _ _ Ho Hi Ec) as (_ & e & _ & _ & _ & _ & [_ Hm]).
  cbn [snd fst] in *. destruct Hm as [[-> _]|(_ & [_ Hw] & _)]; [exact Hv|]. pose proof (okValue_type cfg _ _ _ Hw) as Hty. rewrite Ht in Hty.
  destruct (c_cast _ _ _ (classAmount_ok cfg) w Hty) as [a Ha]. rewrite Ha in Hc. discriminate Hc.
Qed.

Lemma setup_read rules sle fees b r i start fees0 :
  expressible fees b r i -> featureXRPFees rules = fees -> (sleObject sle).1 = Some entryFormat ->
  (forall g, peekAtPField g (sleObject sle) = withValues (entryValues b r i fees) start g) ->
  (fees = false -> forall f, f = sfBaseFeeDrops \/ f = sfReserveBaseDrops \/ f = sfReserveIncrementDrops -> peekAtPField f start = Some NotPresent) ->
  setupFees rules (Some sle) fees0 = Ret (true, mkFees b r i).
Proof.
  intros He Hr Ht Hg Hd.
  assert (forall V (c : fieldClass V) f v, peekAtPField f (sleObject sle) = Some v -> styleOf f entryFormat = soeOPTIONAL ->
    constAtOptional c f (sleObject sle) = Ret (cast c v)) as Hc.
  { intros V c f v Hp Hs. unfold constAtOptional. rewrite Hp, Ht, Hs. by destruct (cast c v). }
  unfold setupFees, expressible in *. destruct fees.
  - rewrite (Hc _ classU64 sfBaseFee NotPresent), (Hc _ classU32 sfReserveBase NotPresent), (Hc _ classU32 sfReserveIncrement NotPresent),
      (Hc _ classAmount sfBaseFeeDrops (Leaf (STAmount_ (dropsAmount b)))), (Hc _ classAmount sfReserveBaseDrops (Leaf (STAmount_ (dropsAmount r)))),
      (Hc _ classAmount sfReserveIncrementDrops (Leaf (STAmount_ (dropsAmount i)))) by (rewrite ?Hg; vm_compute; reflexivity).
    rewrite !Ret_bind. cbn [cast classAmount classU32 classU64 asAmount asU64 asU32]. unfold assignFee. change (native (dropsAmount ?[x])) with true.
    rewrite !xrp_dropsAmount, !Ret_bind, Hr by tauto. reflexivity.
  - assert (forall f, f = sfBaseFeeDrops \/ f = sfReserveBaseDrops \/ f = sfReserveIncrementDrops -> peekAtPField f (sleObject sle) = Some NotPresent) as Hn.
    { intros f Hf. rewrite Hg, <- (Hd eq_refl f Hf). destruct Hf as [-> |[-> | ->]]; reflexivity. }
    rewrite (Hc _ classU64 sfBaseFee (Leaf (STUInt64 b))), (Hc _ classU32 sfReserveBase (Leaf (STUInt32 r))), (Hc _ classU32 sfReserveIncrement (Leaf (STUInt32 i)))
      by (rewrite ?Hg; vm_compute; reflexivity).
    rewrite !(Hc _ classAmount _ NotPresent) by (first [apply Hn; tauto|vm_compute; reflexivity]).
    rewrite !Ret_bind. cbn [cast classAmount classU32 classU64 asAmount asU64 asU32]. unfold assignFee. rewrite !Ret_bind, Hr. rewrite s64_id by lia. reflexivity.
Qed.

Lemma between_expressible fees cb cr ci tb tr ti b r i :
  expressible fees cb cr ci -> expressible fees tb tr ti -> between cb tb b -> between cr tr r -> between ci ti i -> expressible fees b r i.
Proof. unfold expressible, between, legal. destruct fees; intros (? & ? & ?) (? & ? & ?) ? ? ?; lia. Qed.

Lemma current_reserve fees cb cr ci : expressible fees cb cr ci -> accountReserve 0 (mkFees cb cr ci) = cr.
Proof.
  unfold expressible, legal, INITIAL_XRP, accountReserve. cbn [reserve increment]. destruct fees; intros (? & ? & ?); rewrite s64_id; lia.
Qed.

(** C15: a change of fees takes effect: whatever the validations, if the values a
    server chooses are a change, the transaction it makes passes the checks in
    the next ledger, is applied to the entry of the fees, and the fees read from
    the entry are the chosen ones; the ledger stays sound, and the entry one its
    format describes.  If nothing changes there is no transaction. *)
Theorem fee_change_takes_effect (cfg : settings) (L : library) (rules : changeRules) (nodeNID lclSeq : Z) (key : Blob) (target : FeeSetup)
    (cb cr ci : Z) (fees0 fees1 : Fees) (set : list STValidation) (sle : option STLedgerEntry) :
  let fees := featureXRPFees rules in
  let current := mkFees cb cr ci in
  Forall (fun val => mTrusted val = true -> under validationFormat (valObject val)) set ->
  expressible fees cb cr ci -> expressible fees (reference_fee target) (account_reserve target) (owner_reserve target) ->
  okObject (okValue cfg 10) (Some entryFormat) (entryBefore sle) -> setupFees rules sle fees0 = Ret (true, current) ->
  exists b r i, chooseFees fees target current set = Ret ((b, negb (b =? cb)), (r, negb (r =? cr)), (i, negb (i =? ci))) /\
  if (b =? cb) && (r =? cr) && (i =? ci) then doVoting cfg L fees target lclSeq current set = Ret None
  else exists tx sle', doVoting cfg L fees target lclSeq current set = Ret (Some tx) /\
    (isXRP (tid_ tx) = false -> invokePreflight rules nodeNID tx = Ret changeSUCCESS) /\ preclaim rules false tx = changeSUCCESS /\
    applyFee rules key tx sle = Ret sle' /\ okObject (okValue cfg 10) (Some entryFormat) (sleObject sle') /\
    setupFees rules (Some sle') fees1 = Ret (true, mkFees b r i).
Proof.
  intros fees current Hset Hc Ht Hent Hsound. destruct (chooseFees_chosen fees target current set Hset) as (b & r & i & E & (Hb & _) & (Hr & _) & (Hi & _)).
  pose proof (current_reserve _ _ _ _ Hc) as Ecr. fold current in Ecr. rewrite Ecr in *. cbn [base increment current] in *.
  pose proof (between_expressible _ _ _ _ _ _ _ _ _ _ Hc Ht Hb Hr Hi) as He. exists b, r, i. split; [exact E|]. unfold doVoting. rewrite E, Ret_bind. cbn [fst snd].
  rewrite <- !negb_andb. destruct ((b =? cb) && (r =? cr) && (i =? ci)); cbn [negb]; [reflexivity|].
  destruct (fee_transaction cfg L fees (u32 (lclSeq + 1)) b r i (mkFees (base current) (accountReserve 0 current) (increment current)))
    as (o & bs & -> & _ & Hg); [apply Z.mod_pos_bound; lia|exact He|]. rewrite Ret_bind.
  destruct (apply_fee cfg rules key (sha512Half L ((add32 hpTransactionID []).2 ++ bs)) o _ b r i fees sle He eq_refl Hg Hent) as (sle' & Ha & Hf & Hg').
  destruct (fee_checks rules nodeNID fees _ b r i o (sha512Half L ((add32 hpTransactionID []).2 ++ bs)) Hg eq_refl) as [H1 H2].
  eexists. exists sle'. split; [reflexivity|]. split; [exact H1|]. split; [exact H2|]. split; [exact Ha|]. split; [exact Hf|].
  apply (setup_read rules sle' fees b r i (entryBefore sle)); [exact He|reflexivity|apply Hf|exact Hg'|].
  intros Hfees f Hin. destruct sle as [s|]; [exact (absent_drops cfg rules s fees0 current f Hent Hsound Hfees Hin)|].
  destruct Hin as [-> |[-> | ->]]; vm_compute; reflexivity.
Qed.

(** ** The vote of this server *)

Lemma validationFormat_known : Forall (fun e => sField e ∈ knownFields) validationFormat.
Proof. apply known_of. vm_compute. reflexivity. Qed.

Section Vote.
Context (cfg : settings).

Local Abbreviation fits := (okObject (okValue cfg 10) (Some validationFormat)).

(** A vote that is cast counts for the target, and one that is not cast counts
    for the current value, which is the target then. *)
Lemma voteDrops_counted current target f v :
  legal target -> namedOk f -> fieldType f = STI_AMOUNT -> styleOf f validationFormat = soeOPTIONAL -> fits v -> peekAtPField f v = Some NotPresent ->
  exists v', voteDrops cfg current target f v = Ret v' /\ fits v' /\ default current (ballotDrops f v') = target /\
    forall g, code g <> code f -> peekAtPField g v' = peekAtPField g v.
Proof.
  intros Ht Hf Hty Hs Hv Hp. unfold voteDrops. destruct (Z.eqb_spec current target) as [->|Hne]; cbn [negb].
  - exists v. split; [reflexivity|]. split; [exact Hv|]. split; [|done]. unfold ballotDrops, proxyFind. rewrite Hp. reflexivity.
  - rewrite amountOfXRP_legal, Ret_bind by exact Ht.
    destruct (assign_step cfg validationFormat validationFormat_known classAmount STI_AMOUNT f (dropsAmount target) _ v (classAmount_ok cfg) Hty Hf (or_introl Hs) eq_refl (dropsAmount_ok cfg _ Ht) Hv)
      as (v' & E & Hv' & U).
    exists v'. split; [exact E|]. split; [exact Hv'|]. split.
    + unfold ballotDrops, proxyFind. rewrite U, Z.eqb_refl. cbn [mbind option_bind cast classAmount asAmount]. change (native (dropsAmount target)) with true.
      pose proof (xrp_dropsAmount target Ht) as Ex. unfold xrp in Ex. change (native (dropsAmount target)) with true in Ex. injection Ex as ->.
      unfold isLegalAmountSigned. rewrite (proj2 (Z.leb_le _ _)), (proj2 (Z.leb_le _ _)) by apply Ht. reflexivity.
    + intros g Hg. rewrite U, (proj2 (Z.eqb_neq _ _)) by exact Hg. reflexivity.
Qed.

Lemma voteNumber_counted c type bits current target f x v :
  class_ok cfg c type -> 0 <= bits -> 0 <= target < 2 ^ bits -> target <= INITIAL_XRP -> wrap c target = Leaf x -> leaf_ok cfg x ->
  namedOk f -> fieldType f = type -> styleOf f validationFormat = soeOPTIONAL -> fits v -> peekAtPField f v = Some NotPresent ->
  exists v', voteNumber c bits current target f v = Ret v' /\ fits v' /\ default current (ballotNumber c f v') = target /\
    forall g, code g <> code f -> peekAtPField g v' = peekAtPField g v.
Proof.
  intros Hc Hbits Ht Hl Ex Hx Hf Hty Hs Hv Hp. unfold voteNumber. destruct (Z.eqb_spec current target) as [->|Hne]; cbn [negb].
  - exists v. split; [reflexivity|]. split; [exact Hv|]. split; [|done]. unfold ballotNumber, proxyFind. rewrite Hp. cbn [mbind option_bind].
    destruct (cast c NotPresent) eqn:E; [|reflexivity]. exfalso. apply (c_present _ _ _ Hc). rewrite <- (c_only _ _ _ Hc NotPresent); [reflexivity|by rewrite E].
  - unfold dropsAs. rewrite (proj2 (Z.ltb_ge _ _)), (proj2 (Z.ltb_ge _ _)) by lia. cbn [orb].
    destruct (assign_step cfg validationFormat validationFormat_known c type f target x v Hc Hty Hf (or_introl Hs) Ex Hx Hv) as (v' & E & Hv' & U).
    exists v'. split; [exact E|]. split; [exact Hv'|]. split.
    + unfold ballotNumber, proxyFind. rewrite U, Z.eqb_refl. cbn [mbind option_bind]. rewrite <- Ex, (c_wrap _ _ _ Hc).
      unfold isLegalAmountSigned, INITIAL_XRP in *. rewrite !(proj2 (Z.leb_le _ _)) by lia. reflexivity.
    + intros g Hg. rewrite U, (proj2 (Z.eqb_neq _ _)) by exact Hg. reflexivity.
Qed.

End Vote.

Definition voteFields (fees : bool) : list SField :=
  if fees then [sfBaseFeeDrops; sfReserveBaseDrops; sfReserveIncrementDrops] else [sfBaseFee; sfReserveBase; sfReserveIncrement].

(** The vote a server puts in its validation counts as a vote for its three
    targets at every server that has the same current fees, also where it says
    nothing because the current value is its target; the validation stays one
    its format describes. *)
Theorem fee_vote_counted (cfg : settings) (fees : bool) (target : FeeSetup) (current : Fees) (v : Object) :
  expressible fees (reference_fee target) (account_reserve target) (owner_reserve target) -> reference_fee target <= INITIAL_XRP ->
  okObject (okValue cfg 10) (Some validationFormat) v -> Forall (fun f => peekAtPField f v = Some NotPresent) (voteFields fees) ->
  exists v', doValidation cfg fees target current v = Ret v' /\ okObject (okValue cfg 10) (Some validationFormat) v' /\
    default (base current) (ballotsOf fees v').1.1 = reference_fee target /\
    default (accountReserve 0 current) (ballotsOf fees v').1.2 = account_reserve target /\
    default (increment current) (ballotsOf fees v').2 = owner_reserve target.
Proof.
  intros He Hl Hv Hp. unfold doValidation, ballotsOf, voteFields, expressible in *. destruct fees; destruct He as (H1 & H2 & H3);
    apply Forall_cons in Hp as [Hp1 Hp]; apply Forall_cons in Hp as [Hp2 Hp]; apply Forall_cons in Hp as [Hp3 _]; cbn [fst snd].
  - destruct (voteDrops_counted cfg (base current) _ sfBaseFeeDrops v H1) as (v1 & -> & F1 & B1 & P1); [named_tac|vm_compute; reflexivity..|exact Hv|exact Hp1|]. rewrite Ret_bind.
    destruct (voteDrops_counted cfg (accountReserve 0 current) _ sfReserveBaseDrops v1 H2) as (v2 & -> & F2 & B2 & P2); [named_tac|vm_compute; reflexivity..|exact F1|rewrite P1; [exact Hp2|vm_compute; discriminate]|]. rewrite Ret_bind.
    destruct (voteDrops_counted cfg (increment current) _ sfReserveIncrementDrops v2 H3) as (v3 & -> & F3 & B3 & P3); [named_tac|vm_compute; reflexivity..|exact F2|rewrite P2, P1; [exact Hp3|vm_compute; discriminate..]|].
    exists v3. split; [reflexivity|]. split; [exact F3|]. unfold ballotDrops, proxyFind in *. split; [|split; [|exact B3]].
    + rewrite P3, P2 by (vm_compute; discriminate). exact B1.
    + rewrite P3 by (vm_compute; discriminate). exact B2.
  - destruct (voteNumber_counted cfg classU64 STI_UINT64 64 (base current) (reference_fee target) sfBaseFee (STUInt64 (reference_fee target)) v (classU64_ok cfg)) as (v1 & -> & F1 & B1 & P1);
      [lia|lia|exact Hl|reflexivity|cbn; lia|named_tac|vm_compute; reflexivity..|exact Hv|exact Hp1|]. rewrite Ret_bind.
    destruct (voteNumber_counted cfg classU32 STI_UINT32 32 (accountReserve 0 current) (account_reserve target) sfReserveBase (STUInt32 (account_reserve target)) v1 (classU32_ok cfg)) as (v2 & -> & F2 & B2 & P2);
      [lia|lia|unfold INITIAL_XRP; lia|reflexivity|exact H2|named_tac|vm_compute; reflexivity..|exact F1|rewrite P1; [exact Hp2|vm_compute; discriminate]|]. rewrite Ret_bind.
    destruct (voteNumber_counted cfg classU32 STI_UINT32 32 (increment current) (owner_reserve target) sfReserveIncrement (STUInt32 (owner_reserve target)) v2 (classU32_ok cfg)) as (v3 & -> & F3 & B3 & P3);
      [lia|lia|unfold INITIAL_XRP; lia|reflexivity|exact H3|named_tac|vm_compute; reflexivity..|exact F2|rewrite P2, P1; [exact Hp3|vm_compute; discriminate..]|].
    exists v3. split; [reflexivity|]. split; [exact F3|]. unfold ballotNumber, proxyFind in *. split; [|split; [|exact B3]].
    + rewrite P3, P2 by (vm_compute; discriminate). exact B1.
    + rewrite P3 by (vm_compute; discriminate). exact B2.
Qed.

(** ** Four trusted validators and one that is not *)

Module SampleFees.

Definition rules : changeRules := mkRules true true true true.

(** The fees now, and what this server and two validators would have. *)
Definition current : Fees := mkFees 10 10000000 2000000.
Definition target : FeeSetup := mkFeeSetup 20 10000000 500000.

Definition votesOf (t : FeeSetup) : Object := objectOr (doValidation sampleSettings true t current blankValidation).

Definition val (trusted : bool) (t : FeeSetup) : STValidation := mkValidation (votesOf t) trusted None [] [] 0.

Definition set : list STValidation :=
  [val true target; val true target; val true (mkFeeSetup 15 10000000 500000); val true (mkFeeSetup 10 10000000 2000000); val false (mkFeeSetup 12 1 1)].

Lemma val_under b t : (votesOf t).1 = Some validationFormat -> simpleObject validationFormat (votesOf t).2 = true ->
  under validationFormat (valObject (val b t)).
Proof.
  intros E H. pose proof (simpleObject_ok sampleSettings _ _ H) as Ho. rewrite <- E, <- surjective_pairing, E in Ho.
  split; [exact (ok_proper _ _ _ Ho)|apply Ho].
Qed.

Lemma set_under : Forall (fun val => mTrusted val = true -> under validationFormat (valObject val)) set.
Proof. unfold set. do 5 (apply Forall_cons; split; [intros _; apply val_under; vm_compute; reflexivity|]). apply Forall_nil. exact I. Qed.

Lemma fee_choice_witness :
  exists b r i, chooseFees true target current set = Ret ((b, negb (b =? 10)), (r, negb (r =? 10000000)), (i, negb (i =? 2000000))) /\ 10 <= b <= 20.
Proof.
  destruct (fee_choice true target current set set_under) as (b & r & i & E & (Hb & _) & _). exists b, r, i. split; [exact E|]. exact Hb.
Defined.

Lemma fee_change_takes_effect_witness :
  chooseFees true target current set = Ret ((20, true), (10000000, false), (500000, true)) /\
  exists tx sle, doVoting sampleSettings sampleLibrary true target 255 current set = Ret (Some tx) /\ applyFee rules [] tx None = Ret sle /\
    setupFees rules (Some sle) (mkFees 0 0 0) = Ret (true, mkFees 20 10000000 500000).
Proof.
  assert (chooseFees true target current set = Ret ((20, true), (10000000, false), (500000, true))) as Hc by (vm_compute; reflexivity). split; [exact Hc|].
  destruct (fee_change_takes_effect sampleSettings sampleLibrary rules 1026 255 [] target 10 10000000 2000000 current (mkFees 0 0 0) set None set_under)
    as (b & r & i & E & H).
  - vm_compute. repeat split; discriminate.
  - vm_compute. repeat split; discriminate.
  - apply entryStart_ok.
  - reflexivity.
  - change (mkFees 10 10000000 2000000) with current in E, H. change (featureXRPFees rules) with true in E, H. rewrite Hc in E. injection E as Eb _ Er _ Ei _. subst b r i.
    change ((20 =? 10) && (10000000 =? 10000000) && (500000 =? 2000000)) with false in H. destruct H as (tx & sle & H1 & _ & _ & H2 & _ & H3).
    exists tx, sle. split; [exact H1|]. split; [exact H2|exact H3].
Defined.

Lemma fee_vote_counted_witness :
  exists v, doValidation sampleSettings true target current blankValidation = Ret v /\
    default 10 (ballotsOf true v).1.1 = 20 /\ default 10000000 (ballotsOf true v).1.2 = 10000000 /\ default 2000000 (ballotsOf true v).2 = 500000.
Proof.
  destruct (fee_vote_counted sampleSettings true target current blankValidation) as (v & E & _ & H).
  - vm_compute. repeat split; discriminate.
  - vm_compute. discriminate.
  - apply blankValidation_ok.
  - repeat constructor; vm_compute; reflexivity.
  - exists v. split; [exact E|exact H].
Defined.

End SampleFees.
