(* ===== verification/LedgerViews.v ===== *)
(** * Views of a ledger

    Entries and keylets ([src/libxrpl/protocol/Keylet.cpp]), the interfaces of
    views, the part of [src/xrpld/app/ledger/Ledger.cpp] below them, its state a
    finite map, and what the two tables of pending changes have in common.

    Entries are held by shared pointers there: a table holds pointers, what the
    holder of a pointer writes is seen by whoever reads through the table, and
    some operations compare pointers.  Here pointers are integers, and the
    entries they point to are in a [Heap], which every operation gets. *)

From stdpp Require Import strings sorting.
From S2P Require Import Prelude Outcome.

(** The order of a [std::map]. *)
Definition byKey {A} (x y : Z * A) : Prop := x.1 <= y.1.

#[export] Instance byKey_dec {A} (x y : Z * A) : Decision (byKey x y) := decide (x.1 <= y.1).

(** ** Entries *)

(** An entry of a ledger: its key and type, which do not change, and its data. *)
Record SLE (D : Type) := mkEntry { key : Z; getType : Z; data : D }.
Arguments mkEntry {D}.
Arguments key {D}.
Arguments getType {D}.
Arguments data {D}.

Definition ltANY : Z := 0.
Definition ltCHILD : Z := 0x1CD2.
Definition ltDIR_NODE : Z := 0x0064.

Record Keylet := mkKeylet { k_type : Z; k_key : Z }.

Definition unchecked (key_ : Z) : Keylet := mkKeylet ltANY key_.

Section Entries.
Context {D : Type}.
Abbreviation SLE := (SLE D).

Definition check (k : Keylet) (sle : SLE) : bool :=
  if k_type k =? ltANY then true
  else if k_type k =? ltCHILD then negb (getType sle =? ltDIR_NODE)
  else (getType sle =? k_type k) && (key sle =? k_key k).

(** An entry a keylet accepts. *)
Definition checked (k : Keylet) (sle : option SLE) : option SLE :=
  match sle with Some sle => if check k sle then Some sle else None | None => None end.

End Entries.

Record Heap (D : Type) := mkHeap { cells : gmap Z (SLE D); nextPtr : Z }.
Arguments mkHeap {D}.
Arguments cells {D}.
Arguments nextPtr {D}.


(** [make_shared<SLE>] of a value. *)
Definition allocate {D} (sle : SLE D) (h : Heap D) : Z * Heap D :=
  (nextPtr h, mkHeap (<[nextPtr h := sle]> (cells h)) (nextPtr h + 1)).

(** What the holder of a pointer does to the entry. *)
Definition write {D} (p : Z) (d : D) (h : Heap D) : Heap D :=
  match cells h !! p with
  | Some sle => mkHeap (<[p := mkEntry (key sle) (getType sle) d]> (cells h)) (nextPtr h)
  | None => h
  end.

(** ** Interfaces *)

(** The part of [ReadView] about the state: reading an entry, whether there is
    one, the next key, and the entries from the first one or behind a key. *)
Class ReadView (D V : Type) := {
  read : Heap D -> V -> Keylet -> option (SLE D);
  exists_ : Heap D -> V -> Keylet -> bool;
  succ : Heap D -> V -> Z -> option Z -> option Z;
  sles : Heap D -> V -> option Z -> outcome (list (SLE D));
}.

(** [RawView], for the entry a pointer points to. *)
Class RawView (D T : Type) := {
  rawErase : Heap D -> Z -> T -> outcome T;
  rawInsert : Heap D -> Z -> T -> outcome T;
  rawReplace : Heap D -> Z -> T -> outcome T;
  rawDestroyXRP : Z -> T -> T;
}.

(** A map in the order of its keys. *)
Definition inOrder {A} (m : gmap Z A) : list (Z * A) := merge_sort byKey (map_to_list m).

(** The part of such a list behind a key: [upper_bound]. *)
Definition upper_bound {A} (key_ : Z) (l : list (Z * A)) : list (Z * A) := List.filter (fun x => key_ <? x.1) l.

(** ** The ledger *)

Record Ledger (D : Type) := mkLedger { stateMap_ : gmap Z (SLE D); totalDrops : Z }.
Arguments mkLedger {D}.
Arguments stateMap_ {D}.
Arguments totalDrops {D}.

Section LedgerState.
Context {D : Type}.
Abbreviation SLE := (SLE D).
Abbreviation Heap := (Heap D).
Abbreviation Ledger := (Ledger D).

Definition ledgerExists (k : Keylet) (l : Ledger) : bool := bool_decide (is_Some (stateMap_ l !! k_key k)).

Definition ledgerRead (k : Keylet) (l : Ledger) : option SLE :=
  if k_key k =? 0 then None else checked k (stateMap_ l !! k_key k).

Definition ledgerSucc (key_ : Z) (last : option Z) (l : Ledger) : option Z :=
  match upper_bound key_ (inOrder (stateMap_ l)) with
  | [] => None
  | (k, _) :: _ => match last with Some last => if last <=? k then None else Some k | None => Some k end
  end.

Definition ledgerSles (from : option Z) (l : Ledger) : list SLE :=
  (match from with Some k => upper_bound k (inOrder (stateMap_ l)) | None => inOrder (stateMap_ l) end).*2.

Definition ledgerRawErase (sle : SLE) (l : Ledger) : outcome Ledger :=
  match stateMap_ l !! key sle with
  | Some _ => Ret (mkLedger (delete (key sle) (stateMap_ l)) (totalDrops l))
  | None => Throw "Ledger::rawErase: key not found"
  end.

Definition ledgerRawInsert (sle : SLE) (l : Ledger) : outcome Ledger :=
  match stateMap_ l !! key sle with
  | Some _ => Throw "Ledger::rawInsert: key already exists"
  | None => Ret (mkLedger (<[key sle := sle]> (stateMap_ l)) (totalDrops l))
  end.

Definition ledgerRawReplace (sle : SLE) (l : Ledger) : outcome Ledger :=
  match stateMap_ l !! key sle with
  | Some _ => Ret (mkLedger (<[key sle := sle]> (stateMap_ l)) (totalDrops l))
  | None => Throw "Ledger::rawReplace: key not found"
  end.

(** A pointer that points to nothing cannot be used. *)
Definition deref (h : Heap) (p : Z) : outcome SLE := require "null pointer" (cells h !! p).

#[export] Instance LedgerReadView : ReadView D Ledger := {|
  read := fun _ l k => ledgerRead k l;
  exists_ := fun _ l k => ledgerExists k l;
  succ := fun _ l key_ last => ledgerSucc key_ last l;
  sles := fun _ l from => Ret (ledgerSles from l);
|}.

#[export] Instance LedgerRawView : RawView D Ledger := {|
  rawErase := fun h p l => deref h p ≫= fun sle => ledgerRawErase sle l;
  rawInsert := fun h p l => deref h p ≫= fun sle => ledgerRawInsert sle l;
  rawReplace := fun h p l => deref h p ≫= fun sle => ledgerRawReplace sle l;
  rawDestroyXRP := fun fee l => mkLedger (stateMap_ l) (totalDrops l - fee);
|}.

End LedgerState.

(** ** What both tables do

    [exists], [read] and [succ] are the same for [RawStateTable] and
    [ApplyStateTable], up to the name of the action that erases. *)

Section Tables.
Context {D V A : Type} `{ReadView D V} (isErase : A -> bool).
Implicit Types (h : Heap D) (base : V) (items : gmap Z (A * Z)).

Definition existsOver h base (k : Keylet) items : bool :=
  match items !! k_key k with
  | None => exists_ h base k
  | Some (a, p) =>
      if isErase a then false
      else match cells h !! p with Some sle => check k sle | None => false end
  end.

Definition readOver h base (k : Keylet) items : option (SLE D) :=
  match items !! k_key k with
  | None => read h base k
  | Some (a, p) => if isErase a then None else checked k (cells h !! p)
  end.

Definition erasedIn items (k : Z) : bool := match items !! k with Some (a, _) => isErase a | None => false end.

(** The loop over the successors in the base. *)
Fixpoint baseSucc (fuel : nat) h base (next : Z) (last : option Z) items : option Z :=
  match fuel with
  | O => None
  | S fuel =>
      match succ h base next last with
      | None => None
      | Some next => if erasedIn items next then baseSucc fuel h base next last items else Some next
      end
  end.

Definition succOver h base (key_ : Z) (last : option Z) items : option Z :=
  let next := baseSucc (S (size items)) h base key_ last items in
  let next :=
    match List.find (fun x => negb (isErase x.2.1)) (upper_bound key_ (inOrder items)) with
    | Some (k, _) => match next with Some n => if k <? n then Some k else Some n | None => Some k end
    | None => next
    end in
  match last, next with
  | Some last, Some n => if last <=? n then None else Some n
  | _, _ => next
  end.

End Tables.

(** The loop of [apply], for what it does to an item. *)
Fixpoint applyItems {A T} (applyItem : A * Z -> T -> outcome T) (l : list (Z * (A * Z))) (to : T) : outcome T :=
  match l with
  | [] => Ret to
  | x :: l => applyItem x.2 to ≫= applyItems applyItem l
  end.
