(* ===== verification/RawStateTable.v ===== *)
(** * RawStateTable and OpenView

    Models [src/libxrpl/ledger/RawStateTable.cpp], the table of changes of a
    ledger that is being built, with its iterator over the entries, and
    [src/libxrpl/ledger/OpenView.cpp], the view that holds one. *)

From stdpp Require Import strings sorting.
From S2P Require Import Prelude Outcome LedgerViews.

Inductive Action := erase_ | insert_ | replace_.

Definition isErase (a : Action) : bool := match a with erase_ => true | _ => false end.

Record RawStateTable := mkTable { items_ : gmap Z (Action * Z); dropsDestroyed_ : Z }.

Definition empty : RawStateTable := mkTable ∅ 0.

Definition setItem (k : Z) (item : Action * Z) (t : RawStateTable) : RawStateTable :=
  mkTable (<[k := item]> (items_ t)) (dropsDestroyed_ t).

Section Operations.
Context {D : Type}.
Abbreviation SLE := (SLE D).
Abbreviation Heap := (Heap D).

Definition erase (h : Heap) (p : Z) (t : RawStateTable) : outcome RawStateTable :=
  deref h p ≫= fun sle =>
  match items_ t !! key sle with
  | None => Ret (setItem (key sle) (erase_, p) t)
  | Some (erase_, _) => Throw "RawStateTable::erase: already erased"
  | Some (insert_, _) => Ret (mkTable (delete (key sle) (items_ t)) (dropsDestroyed_ t))
  | Some (replace_, _) => Ret (setItem (key sle) (erase_, p) t)
  end.

Definition insert (h : Heap) (p : Z) (t : RawStateTable) : outcome RawStateTable :=
  deref h p ≫= fun sle =>
  match items_ t !! key sle with
  | None => Ret (setItem (key sle) (insert_, p) t)
  | Some (erase_, _) => Ret (setItem (key sle) (replace_, p) t)
  | Some (insert_, _) => Throw "RawStateTable::insert: already inserted"
  | Some (replace_, _) => Throw "RawStateTable::insert: already exists"
  end.

Definition replace (h : Heap) (p : Z) (t : RawStateTable) : outcome RawStateTable :=
  deref h p ≫= fun sle =>
  match items_ t !! key sle with
  | None => Ret (setItem (key sle) (replace_, p) t)
  | Some (erase_, _) => Throw "RawStateTable::replace: was erased"
  | Some (a, _) => Ret (setItem (key sle) (a, p) t)
  end.

Definition destroyXRP (fee : Z) (t : RawStateTable) : RawStateTable := mkTable (items_ t) (dropsDestroyed_ t + fee).

(** One item of [apply]. *)
Definition applyItem {T} `{RawView D T} (h : Heap) (item : Action * Z) (to : T) : outcome T :=
  match item with
  | (erase_, p) => rawErase h p to
  | (insert_, p) => rawInsert h p to
  | (replace_, p) => rawReplace h p to
  end.

Definition apply {T} `{RawView D T} (h : Heap) (t : RawStateTable) (to : T) : outcome T :=
  applyItems (applyItem h) (inOrder (items_ t)) (rawDestroyXRP (dropsDestroyed_ t) to).

Section Base.
Context {V} `{ReadView D V}.

Definition existsIn (h : Heap) (base : V) (k : Keylet) (t : RawStateTable) : bool := existsOver isErase h base k (items_ t).

Definition readIn (h : Heap) (base : V) (k : Keylet) (t : RawStateTable) : option SLE := readOver isErase h base k (items_ t).

Definition succIn (h : Heap) (base : V) (key_ : Z) (last : option Z) (t : RawStateTable) : option Z :=
  succOver isErase h base key_ last (items_ t).

(** *** The iterator

    Its state is what is left of the items and of the base; a null [sle0_] or
    [sle1_] is the end of a list. *)

(** The items with their entries. *)
Definition withEntries (h : Heap) (l : list (Z * (Action * Z))) : outcome (list (Action * SLE)) :=
  foldr (fun x acc => deref h x.2.2 ≫= fun sle => acc ≫= fun l => Ret ((x.2.1, sle) :: l)) (Ret []) l.

Fixpoint skip (l1 : list (Action * SLE)) (l0 : list SLE) : outcome (list (Action * SLE) * list SLE) :=
  match l1 with
  | (erase_, sle1) :: l1' =>
      match l0 with
      | [] => Throw "null pointer"
      | sle0 :: l0' =>
          if key sle0 =? key sle1 then match l0' with [] => Ret (l1', []) | _ => skip l1' l0' end
          else Ret (l1, l0)
      end
  | _ => Ret (l1, l0)
  end.

Definition increment (l1 : list (Action * SLE)) (l0 : list SLE) : outcome (list (Action * SLE) * list SLE) :=
  match l1, l0 with
  | _ :: l1', [] => Ret (l1', [])
  | [], _ :: l0' => Ret ([], l0')
  | (_, sle1) :: l1', sle0 :: l0' =>
      if key sle1 =? key sle0 then skip l1' l0'
      else if key sle1 <? key sle0 then skip l1' l0
      else skip l1 l0'
  | [], [] => Throw "either SLE is non-null"
  end.

Definition dereference (l1 : list (Action * SLE)) (l0 : list SLE) : outcome SLE :=
  match l1, l0 with
  | [], sle0 :: _ => Ret sle0
  | (_, sle1) :: _, [] => Ret sle1
  | (_, sle1) :: _, sle0 :: _ => Ret (if key sle1 <=? key sle0 then sle1 else sle0)
  | [], [] => Throw "null pointer"
  end.

(** The loop of a caller from an iterator to the end. *)
Fixpoint iterate (fuel : nat) (l1 : list (Action * SLE)) (l0 : list SLE) : outcome (list SLE) :=
  match l1, l0 with
  | [], [] => Ret []
  | _, _ =>
      match fuel with
      | O => Throw "out of fuel"
      | S fuel =>
          dereference l1 l0 ≫= fun sle =>
          increment l1 l0 ≫= fun '(l1, l0) =>
          iterate fuel l1 l0 ≫= fun l => Ret (sle :: l)
      end
  end.

(** [slesBegin] and [slesUpperBound], up to [slesEnd]. *)
Definition slesIn (h : Heap) (base : V) (from : option Z) (t : RawStateTable) : outcome (list SLE) :=
  withEntries h (match from with Some k => upper_bound k (inOrder (items_ t)) | None => inOrder (items_ t) end) ≫= fun l1 =>
  sles h base from ≫= fun l0 =>
  skip l1 l0 ≫= fun '(l1', l0') =>
  iterate (length l1 + length l0) l1' l0'.

End Base.

End Operations.


(** ** OpenView *)

(** The header of a ledger, as far as views set it. *)
Record LedgerInfo := mkInfo {
  info_seq : Z; info_hash : Z; info_parentHash : Z; info_closeTime : Z; info_parentCloseTime : Z; info_validated : bool; info_accepted : bool }.

Record OpenView (V : Type) := mkOpenView {
  base_ : V;
  table_ : RawStateTable;
  txs_ : gmap Z (Z * option Z);      (* txn, meta *)
  info_ : LedgerInfo;
  open_ : bool;
  baseTxCount_ : Z;
}.
Arguments mkOpenView {V}.
Arguments base_ {V}.
Arguments table_ {V}.
Arguments txs_ {V}.
Arguments info_ {V}.
Arguments open_ {V}.
Arguments baseTxCount_ {V}.

Section OpenViews.
Context {D V : Type} `{ReadView D V}.
Abbreviation OpenView := (OpenView V).

Definition with_table (f : RawStateTable -> outcome RawStateTable) (v : OpenView) : outcome OpenView :=
  f (table_ v) ≫= fun t => Ret (mkOpenView (base_ v) t (txs_ v) (info_ v) (open_ v) (baseTxCount_ v)).

(** The constructor for a new open ledger, and the one over any view. *)
Definition newOpenLedger (base : V) (info : LedgerInfo) : OpenView :=
  mkOpenView base empty ∅
    (mkInfo (u32 (info_seq info + 1)) (info_hash info) (info_hash info) (info_closeTime info) (info_closeTime info) false false) true 0.

Definition newOpenView (base : V) (info : LedgerInfo) (open : bool) : OpenView := mkOpenView base empty ∅ info open 0.

Definition txCount (v : OpenView) : Z := baseTxCount_ v + Z.of_nat (size (txs_ v)).

(** The copy, and the view over another one that a batch is applied in. *)
Definition copyOpenView (v : OpenView) : OpenView := mkOpenView (base_ v) (table_ v) (txs_ v) (info_ v) (open_ v) 0.

Definition txExists (k : Z) (v : OpenView) : bool := bool_decide (is_Some (txs_ v !! k)).

Definition rawTxInsert (k txn : Z) (metaData : option Z) (v : OpenView) : outcome OpenView :=
  match txs_ v !! k with
  | Some _ => Throw "rawTxInsert: duplicate TX id"
  | None => Ret (mkOpenView (base_ v) (table_ v) (<[k := (txn, metaData)]> (txs_ v)) (info_ v) (open_ v) (baseTxCount_ v))
  end.

#[export] Instance OpenReadView : ReadView D OpenView := {|
  read := fun h v k => readIn h (base_ v) k (table_ v);
  exists_ := fun h v k => existsIn h (base_ v) k (table_ v);
  succ := fun h v key_ last => succIn h (base_ v) key_ last (table_ v);
  sles := fun h v from => slesIn h (base_ v) from (table_ v);
|}.

#[export] Instance OpenRawView : RawView D OpenView := {|
  rawErase := fun h p => with_table (erase h p);
  rawInsert := fun h p => with_table (insert h p);
  rawReplace := fun h p => with_table (replace h p);
  rawDestroyXRP := fun fee v => mkOpenView (base_ v) (destroyXRP fee (table_ v)) (txs_ v) (info_ v) (open_ v) (baseTxCount_ v);
|}.

End OpenViews.

Definition newBatchView {V} (v : OpenView V) : OpenView (OpenView V) :=
  mkOpenView v empty ∅ (info_ v) (open_ v) (txCount v).

(** [OpenView::apply], to a view that takes transactions. *)
Class TxsRawView (D T : Type) := { txsRawView :: RawView D T; rawTxInsertTo : Z -> Z -> option Z -> T -> outcome T }.

Fixpoint insertTxs {D T} `{TxsRawView D T} (l : list (Z * (Z * option Z))) (to : T) : outcome T :=
  match l with
  | [] => Ret to
  | (k, (txn, meta)) :: l => rawTxInsertTo k txn meta to ≫= insertTxs l
  end.

#[export] Instance OpenTxsRawView {D V} `{ReadView D V} : TxsRawView D (OpenView V) := {| rawTxInsertTo := rawTxInsert |}.

Definition applyOpenView {D V T} `{ReadView D V} `{TxsRawView D T} (h : Heap D) (v : OpenView V) (to : T) : outcome T :=
  apply h (table_ v) to ≫= insertTxs (inOrder (txs_ v)).
