(* ===== verification/ApplyStateTable.v ===== *)
(** * ApplyStateTable, ApplyViewBase and Sandbox

    Models [src/libxrpl/ledger/ApplyStateTable.cpp], the table of changes of a
    transaction, [ApplyViewBase.cpp], the view that holds one, and [Sandbox.h]. *)

From stdpp Require Import strings sorting.
From S2P Require Import Prelude Outcome LedgerViews.

Inductive Action := cache_ | erase_ | insert_ | modify_.

Definition isErase (a : Action) : bool := match a with erase_ => true | _ => false end.

Record ApplyStateTable := mkTable { items_ : gmap Z (Action * Z); dropsDestroyed_ : Z }.

Definition empty : ApplyStateTable := mkTable ∅ 0.

Definition setItem (k : Z) (item : Action * Z) (t : ApplyStateTable) : ApplyStateTable :=
  mkTable (<[k := item]> (items_ t)) (dropsDestroyed_ t).

Section Operations.
Context {D : Type}.
Abbreviation SLE := (SLE D).
Abbreviation Heap := (Heap D).

Definition applyItem {T} `{RawView D T} (h : Heap) (item : Action * Z) (to : T) : outcome T :=
  match item with
  | (cache_, _) => Ret to
  | (erase_, p) => rawErase h p to
  | (insert_, p) => rawInsert h p to
  | (modify_, p) => rawReplace h p to
  end.

Definition apply {T} `{RawView D T} (h : Heap) (t : ApplyStateTable) (to : T) : outcome T :=
  applyItems (applyItem h) (inOrder (items_ t)) (rawDestroyXRP (dropsDestroyed_ t) to).

(** [size]: the number of changes. *)
Definition changes (t : ApplyStateTable) : nat :=
  length (List.filter (fun x => match x.2.1 with cache_ => false | _ => true end) (inOrder (items_ t))).

Section Base.
Context {V} `{ReadView D V}.

(** What [visit] calls the function with: the key, whether the entry is
    deleted, and the entries before and after. *)
Definition visit (h : Heap) (to : V) (t : ApplyStateTable) : list (Z * bool * option SLE * option SLE) :=
  flat_map (fun '(k, (a, p)) =>
    match a with
    | erase_ => [(k, true, read h to (unchecked k), cells h !! p)]
    | insert_ => [(k, false, None, cells h !! p)]
    | modify_ => [(k, false, read h to (unchecked k), cells h !! p)]
    | cache_ => []
    end) (inOrder (items_ t)).

Definition existsIn (h : Heap) (base : V) (k : Keylet) (t : ApplyStateTable) : bool := existsOver isErase h base k (items_ t).

Definition readIn (h : Heap) (base : V) (k : Keylet) (t : ApplyStateTable) : option SLE := readOver isErase h base k (items_ t).

Definition succIn (h : Heap) (base : V) (key_ : Z) (last : option Z) (t : ApplyStateTable) : option Z :=
  succOver isErase h base key_ last (items_ t).

(** [peek]: a pointer to the entry, the first time to a copy of it. *)
Definition peek (base : V) (k : Keylet) (h : Heap) (t : ApplyStateTable) : option Z * Heap * ApplyStateTable :=
  match items_ t !! k_key k with
  | None =>
      match read h base k with
      | None => (None, h, t)
      | Some sle => let '(p, h') := allocate sle h in (Some p, h', setItem (key sle) (cache_, p) t)
      end
  | Some (erase_, _) => (None, h, t)
  | Some (_, p) =>
      match cells h !! p with
      | Some sle => if check k sle then (Some p, h, t) else (None, h, t)
      | None => (None, h, t)
      end
  end.

End Base.

Definition erase (h : Heap) (p : Z) (t : ApplyStateTable) : outcome ApplyStateTable :=
  deref h p ≫= fun sle =>
  match items_ t !! key sle with
  | None => Throw "ApplyStateTable::erase: missing key"
  | Some (a, p') =>
      if negb (p' =? p) then Throw "ApplyStateTable::erase: unknown SLE"
      else
        match a with
        | erase_ => Throw "ApplyStateTable::erase: double erase"
        | insert_ => Ret (mkTable (delete (key sle) (items_ t)) (dropsDestroyed_ t))
        | cache_ | modify_ => Ret (setItem (key sle) (erase_, p') t)
        end
  end.

Definition rawEraseIn (h : Heap) (p : Z) (t : ApplyStateTable) : outcome ApplyStateTable :=
  deref h p ≫= fun sle =>
  match items_ t !! key sle with
  | None => Ret (setItem (key sle) (erase_, p) t)
  | Some (erase_, _) => Throw "ApplyStateTable::rawErase: double erase"
  | Some (insert_, _) => Ret (mkTable (delete (key sle) (items_ t)) (dropsDestroyed_ t))
  | Some _ => Ret (setItem (key sle) (erase_, p) t)
  end.

Definition insert (h : Heap) (p : Z) (t : ApplyStateTable) : outcome ApplyStateTable :=
  deref h p ≫= fun sle =>
  match items_ t !! key sle with
  | None => Ret (setItem (key sle) (insert_, p) t)
  | Some (cache_, _) => Throw "ApplyStateTable::insert: already cached"
  | Some (insert_, _) => Throw "ApplyStateTable::insert: already inserted"
  | Some (modify_, _) => Throw "ApplyStateTable::insert: already modified"
  | Some (erase_, _) => Ret (setItem (key sle) (modify_, p) t)
  end.

Definition replace (h : Heap) (p : Z) (t : ApplyStateTable) : outcome ApplyStateTable :=
  deref h p ≫= fun sle =>
  match items_ t !! key sle with
  | None => Ret (setItem (key sle) (modify_, p) t)
  | Some (erase_, _) => Throw "ApplyStateTable::replace: already erased"
  | Some (cache_, _) => Ret (setItem (key sle) (modify_, p) t)
  | Some (a, _) => Ret (setItem (key sle) (a, p) t)
  end.

Definition update (h : Heap) (p : Z) (t : ApplyStateTable) : outcome ApplyStateTable :=
  deref h p ≫= fun sle =>
  match items_ t !! key sle with
  | None => Throw "ApplyStateTable::update: missing key"
  | Some (a, p') =>
      if negb (p' =? p) then Throw "ApplyStateTable::update: unknown SLE"
      else
        match a with
        | erase_ => Throw "ApplyStateTable::update: erased"
        | cache_ => Ret (setItem (key sle) (modify_, p') t)
        | insert_ | modify_ => Ret t
        end
  end.

Definition destroyXRP (fee : Z) (t : ApplyStateTable) : ApplyStateTable := mkTable (items_ t) (dropsDestroyed_ t + fee).

End Operations.


(** ** ApplyViewBase *)

Record ApplyViewBase (V : Type) := mkApplyView { avBase : V; avTable : ApplyStateTable }.
Arguments mkApplyView {V}.
Arguments avBase {V}.
Arguments avTable {V}.

Section ApplyViews.
Context {D V : Type} `{ReadView D V}.
Abbreviation Heap := (Heap D).
Abbreviation ApplyViewBase := (ApplyViewBase V).

Definition newApplyView (base : V) : ApplyViewBase := mkApplyView base empty.

Definition with_items (f : ApplyStateTable -> outcome ApplyStateTable) (v : ApplyViewBase) : outcome ApplyViewBase :=
  f (avTable v) ≫= fun t => Ret (mkApplyView (avBase v) t).

Definition viewPeek (k : Keylet) (h : Heap) (v : ApplyViewBase) : option Z * Heap * ApplyViewBase :=
  let '(p, h', t) := peek (avBase v) k h (avTable v) in (p, h', mkApplyView (avBase v) t).

Definition viewErase (h : Heap) (p : Z) : ApplyViewBase -> outcome ApplyViewBase := with_items (erase h p).
Definition viewInsert (h : Heap) (p : Z) : ApplyViewBase -> outcome ApplyViewBase := with_items (insert h p).
Definition viewUpdate (h : Heap) (p : Z) : ApplyViewBase -> outcome ApplyViewBase := with_items (update h p).

(** The entries are those of the base. *)
#[export] Instance ApplyReadView : ReadView D ApplyViewBase := {|
  read := fun h v k => readIn h (avBase v) k (avTable v);
  exists_ := fun h v k => existsIn h (avBase v) k (avTable v);
  succ := fun h v key_ last => succIn h (avBase v) key_ last (avTable v);
  sles := fun h v from => sles h (avBase v) from;
|}.

#[export] Instance ApplyRawView : RawView D ApplyViewBase := {|
  rawErase := fun h p => with_items (rawEraseIn h p);
  rawInsert := fun h p => with_items (insert h p);
  rawReplace := fun h p => with_items (replace h p);
  rawDestroyXRP := fun fee v => mkApplyView (avBase v) (destroyXRP fee (avTable v));
|}.

End ApplyViews.

(** [Sandbox::apply]. *)
Definition applySandbox {D V T} `{RawView D T} (h : Heap D) (v : ApplyViewBase V) (to : T) : outcome T := apply h (avTable v) to.

