(* ===== verification/LedgerViewsFacts.v ===== *)
(** * Facts on views of a ledger

    What a view promises, against the map of its entries: [ViewLaws] for
    reading, [IterLaws] for the entries in order, [RawLaws] for raw changes.  A
    table over a lawful view is a lawful view, [OpenView] and [ApplyViewBase]
    are instances, and applying a table to what it is over gives its view. *)

From stdpp Require Import strings sorting.
From S2P Require Import Prelude Outcome LedgerViews.

(** ** Maps in order *)

Section Order.
Context {A : Type}.
Implicit Types m : gmap Z A.

Definition keyBefore (x y : Z * A) : Prop := x.1 < y.1.

#[local] Instance byKey_total : Total (@byKey A).
Proof. intros x y. unfold byKey. lia. Qed.

#[local] Instance byKey_trans : Transitive (@byKey A).
Proof. intros x y z. unfold byKey. lia. Qed.

Lemma elem_of_inOrder m k x : (k, x) ∈ inOrder m <-> m !! k = Some x.
Proof. unfold inOrder. by rewrite merge_sort_Permutation, elem_of_map_to_list. Qed.

Lemma inOrder_sorted m : StronglySorted keyBefore (inOrder m).
Proof.
  assert (Hs : StronglySorted byKey (inOrder m)) by (apply StronglySorted_merge_sort; apply _).
  assert (Hn : NoDup (inOrder m).*1).
  { unfold inOrder. rewrite merge_sort_Permutation. apply NoDup_fst_map_to_list. }
  induction Hs as [|x l Hs IH Hx]; [constructor|].
  rewrite fmap_cons in Hn. apply NoDup_cons in Hn as [Hx' Hn].
  constructor; [by apply IH|]. rewrite Forall_forall in Hx |- *. intros y Hy.
  specialize (Hx y Hy). unfold byKey, keyBefore in *.
  assert (x.1 <> y.1); [|lia]. intros E. apply Hx'. rewrite E. by apply list_elem_of_fmap_2.
Qed.

Lemma elem_of_upper_bound key_ (l : list (Z * A)) x : x ∈ upper_bound key_ l <-> x ∈ l /\ key_ < x.1.
Proof.
  unfold upper_bound. rewrite !list_elem_of_In, List.filter_In, Z.ltb_lt. done.
Qed.
End Order.

Lemma filter_sorted {A} (R : A -> A -> Prop) (f : A -> bool) l : StronglySorted R l -> StronglySorted R (List.filter f l).
Proof.
  induction 1 as [|x l Hs IH Hx]; simpl; [constructor|]. destruct (f x); [|done].
  constructor; [done|]. rewrite Forall_forall in Hx |- *. intros y Hy.
  rewrite list_elem_of_In, List.filter_In, <- list_elem_of_In in Hy. destruct Hy as [Hy _]. by apply Hx.
Qed.

(** A strictly sorted list is determined by its elements. *)
Lemma sorted_unique {A} (f : A -> Z) (l1 l2 : list A) :
  StronglySorted (fun x y => f x < f y) l1 -> StronglySorted (fun x y => f x < f y) l2 ->
  (forall x, x ∈ l1 <-> x ∈ l2) -> l1 = l2.
Proof.
  intros H1. revert l2. induction H1 as [|x l1 H1 IH Hx]; intros l2 H2 Heq.
  - destruct l2 as [|y l2]; [done|]. exfalso. apply (not_elem_of_nil y), Heq. apply elem_of_cons. by left.
  - rewrite Forall_forall in Hx. destruct H2 as [|y l2 H2 Hy].
    { exfalso. apply (not_elem_of_nil x), Heq. apply elem_of_cons. by left. }
    rewrite Forall_forall in Hy. assert (x = y) as <-.
    { pose proof (proj1 (Heq x) ltac:(by left)) as Ex. apply elem_of_cons in Ex as [Ex|Ex]; [done|].
      pose proof (proj2 (Heq y) ltac:(by left)) as Ey. apply elem_of_cons in Ey as [Ey|Ey]; [done|].
      specialize (Hx y Ey). specialize (Hy x Ex). lia. }
    f_equal. apply IH; [done|]. intros z. specialize (Heq z). rewrite !elem_of_cons in Heq.
    split; intros Hz.
    + destruct (proj1 Heq) as [->|?]; [by right| |done]. specialize (Hx x Hz). lia.
    + destruct (proj2 Heq) as [->|?]; [by right| |done]. specialize (Hy x Hz). lia.
Qed.

(** The first element of a sorted list that passes is the least. *)
Lemma find_least {A} (f : A -> Z) (p : A -> bool) l :
  StronglySorted (fun x y => f x < f y) l ->
  match List.find p l with
  | Some x => x ∈ l /\ p x = true /\ (forall y, y ∈ l -> p y = true -> f x <= f y)
  | None => forall y, y ∈ l -> p y = false
  end.
Proof.
  induction 1 as [|x l Hs IH Hx]; simpl.
  - intros y Hy. by apply not_elem_of_nil in Hy.
  - rewrite Forall_forall in Hx. destruct (p x) eqn:E.
    + split_and!; [by left|done|]. intros y [->|Hy]%elem_of_cons _; [lia|]. specialize (Hx y Hy). lia.
    + destruct (List.find p l) as [z|].
      * destruct IH as (Hz & Hp & Hmin). split_and!; [by right|done|].
        intros y [->|Hy]%elem_of_cons Hpy; [congruence|auto].
      * intros y [->|Hy]%elem_of_cons; auto.
Qed.

(** ** What a view promises *)

(** A bound that may be absent. *)
Definition before (last : option Z) (k : Z) : Prop := match last with Some l => k < l | None => True end.

(** The least key behind another one with a property, unless it is behind the
    bound. *)
Definition succ_spec (P : Z -> Prop) (key_ : Z) (last : option Z) (r : option Z) : Prop :=
  match r with
  | Some k => P k /\ key_ < k /\ before last k /\ (forall k', P k' -> key_ < k' -> k <= k')
  | None => forall k', P k' -> key_ < k' -> ~ before last k'
  end.

Definition entriesFrom {D} (from : option Z) (m : gmap Z (SLE D)) : list (SLE D) :=
  (match from with Some k => upper_bound k (inOrder m) | None => inOrder m end).*2.

(** The heaps are the same where a view looks. *)
Definition agree {D} (P : Z -> Prop) (h h' : Heap D) : Prop := forall p, P p -> cells h' !! p = cells h !! p.

(** [abs] is the map of the view's entries, [refs] the pointers the view holds. *)
Class ViewLaws (D V : Type) `{ReadView D V} (abs : Heap D -> V -> gmap Z (SLE D)) (ok : Heap D -> V -> Prop) (refs : V -> Z -> Prop) := {
  law_keys : forall h v k s, ok h v -> abs h v !! k = Some s -> key s = k;
  law_read : forall h v k, ok h v -> k_key k <> 0 -> read h v k = checked k (abs h v !! k_key k);
  law_exists_true : forall h v k, ok h v -> exists_ h v k = true -> is_Some (abs h v !! k_key k);
  law_exists : forall h v k, ok h v -> is_Some (checked k (abs h v !! k_key k)) -> exists_ h v k = true;
  law_succ : forall h v key_ last, ok h v -> succ_spec (fun k => is_Some (abs h v !! k)) key_ last (succ h v key_ last);
  law_refs : forall h v p, ok h v -> refs v p -> is_Some (cells h !! p);
  law_agree : forall h h' v, ok h v -> agree (refs v) h h' -> ok h' v /\ abs h' v = abs h v;
}.

Class IterLaws (D V : Type) `{ReadView D V} (abs : Heap D -> V -> gmap Z (SLE D)) (ok : Heap D -> V -> Prop) := {
  law_sles : forall h v from, ok h v -> sles h v from = Ret (entriesFrom from (abs h v));
}.

(** What the target of raw changes promises, for a pointer to an entry: the
    change is made to the map, when the entry is there or not as it must be. *)
Class RawLaws (D T : Type) `{RawView D T} (abs : Heap D -> T -> gmap Z (SLE D)) (ok : Heap D -> T -> Prop) := {
  law_rawErase : forall h p s t, ok h t -> cells h !! p = Some s -> is_Some (abs h t !! key s) ->
    exists t', rawErase h p t = Ret t' /\ ok h t' /\ abs h t' = delete (key s) (abs h t);
  law_rawInsert : forall h p s t, ok h t -> cells h !! p = Some s -> abs h t !! key s = None ->
    exists t', rawInsert h p t = Ret t' /\ ok h t' /\ abs h t' = <[key s := s]> (abs h t);
  law_rawReplace : forall h p s t, ok h t -> cells h !! p = Some s -> is_Some (abs h t !! key s) ->
    exists t', rawReplace h p t = Ret t' /\ ok h t' /\ abs h t' = <[key s := s]> (abs h t);
  law_rawDestroyXRP : forall h fee t, ok h t -> ok h (rawDestroyXRP fee t) /\ abs h (rawDestroyXRP fee t) = abs h t;
}.

(** ** The ledger *)

Definition keys_ok {D} (m : gmap Z (SLE D)) : Prop := forall k s, m !! k = Some s -> key s = k.

Definition ledger_abs {D} (h : Heap D) (l : Ledger D) : gmap Z (SLE D) := stateMap_ l.
Definition ledger_refs {D} (l : Ledger D) (p : Z) : Prop := False.
Definition ledger_ok {D} (h : Heap D) (l : Ledger D) : Prop := keys_ok (stateMap_ l).

Lemma keys_ok_insert {D} (m : gmap Z (SLE D)) s : keys_ok m -> keys_ok (<[key s := s]> m).
Proof. intros Hm k x [[<- <-]|[_ Hk]]%lookup_insert_Some; [done|by apply Hm]. Qed.

Lemma keys_ok_delete {D} (m : gmap Z (SLE D)) k : keys_ok m -> keys_ok (delete k m).
Proof. intros Hm k' x [_ Hk]%lookup_delete_Some. by apply Hm. Qed.

Lemma checked_is_Some {D} k (o : option (SLE D)) : is_Some (checked k o) -> is_Some o.
Proof. destruct o; simpl; [done|]. by intros [? ?]. Qed.

Lemma ledgerSucc_spec {D} key_ last (l : Ledger D) :
  succ_spec (fun k => is_Some (stateMap_ l !! k)) key_ last (ledgerSucc key_ last l).
Proof.
  unfold ledgerSucc.
  pose proof (filter_sorted _ (fun x => key_ <? x.1) _ (inOrder_sorted (stateMap_ l))) as Hs. fold (upper_bound key_ (inOrder (stateMap_ l))) in Hs.
  assert (Hin : forall k, (is_Some (stateMap_ l !! k) /\ key_ < k) <-> exists x, (k, x) ∈ upper_bound key_ (inOrder (stateMap_ l))).
  { intros k. split.
    - intros [[x Hx] ?]. exists x. by rewrite elem_of_upper_bound, elem_of_inOrder.
    - intros [x Hx]. rewrite elem_of_upper_bound, elem_of_inOrder in Hx. naive_solver. }
  destruct (upper_bound key_ (inOrder (stateMap_ l))) as [|[k x] u] eqn:E.
  - intros k' Hk' Hlt. destruct (proj1 (Hin k')) as [y Hy]; [done|]. by apply not_elem_of_nil in Hy.
  - destruct (proj2 (Hin k)) as [Hk Hlt]; [exists x; by left|].
    assert (Hmin : forall k', is_Some (stateMap_ l !! k') -> key_ < k' -> k <= k').
    { intros k' Hk' Hlt'. destruct (proj1 (Hin k')) as [y Hy]; [done|].
      apply elem_of_cons in Hy as [[= -> _]|Hy]; [lia|]. inversion Hs as [|? ? _ Hall]; subst.
      rewrite Forall_forall in Hall. specialize (Hall _ Hy). unfold keyBefore in Hall. simpl in Hall. lia. }
    destruct last as [last|]; [|by split_and!].
    destruct (Z.leb_spec last k); [|by split_and!].
    intros k' Hk' Hlt'. specialize (Hmin k' Hk' Hlt'). simpl. lia.
Qed.

#[export] Instance LedgerViewLaws {D} : ViewLaws D (Ledger D) ledger_abs ledger_ok ledger_refs.
Proof.
  split; unfold ledger_abs, ledger_ok.
  - intros h v k s Hok Hk. by apply Hok.
  - intros h v k Hok Hk. simpl. unfold ledgerRead. by rewrite (proj2 (Z.eqb_neq _ _) Hk).
  - intros h v k Hok Hex. simpl in Hex. unfold ledgerExists in Hex. by apply bool_decide_eq_true in Hex.
  - intros h v k Hok Hex. simpl. unfold ledgerExists. apply bool_decide_eq_true. by eapply checked_is_Some.
  - intros h v key_ last Hok. apply ledgerSucc_spec.
  - done.
  - done.
Qed.

#[export] Instance LedgerIterLaws {D} : IterLaws D (Ledger D) ledger_abs ledger_ok.
Proof. split. intros h v from Hok. done. Qed.

Lemma deref_Some {D} (h : Heap D) p s : cells h !! p = Some s -> deref h p = Ret s.
Proof. unfold deref. by intros ->. Qed.

#[export] Instance LedgerRawLaws {D} : RawLaws D (Ledger D) ledger_abs ledger_ok.
Proof.
  split; unfold ledger_abs, ledger_ok; simpl.
  - intros h p s t Hok Hp [x Hx]. rewrite (deref_Some _ _ _ Hp), Ret_bind. unfold ledgerRawErase. rewrite Hx.
    eexists. split_and!; [done| |done]. by apply keys_ok_delete.
  - intros h p s t Hok Hp Hx. rewrite (deref_Some _ _ _ Hp), Ret_bind. unfold ledgerRawInsert. rewrite Hx.
    eexists. split_and!; [done| |done]. by apply keys_ok_insert.
  - intros h p s t Hok Hp [x Hx]. rewrite (deref_Some _ _ _ Hp), Ret_bind. unfold ledgerRawReplace. rewrite Hx.
    eexists. split_and!; [done| |done]. by apply keys_ok_insert.
  - done.
Qed.

(** The lesser of two successors, up to the bound. *)
Lemma succ_merge (P Q : Z -> Prop) key_ last r0 r1 :
  succ_spec P key_ last r0 -> succ_spec Q key_ None r1 ->
  succ_spec (fun k => Q k \/ P k) key_ last
    (let next := match r1 with Some k => match r0 with Some n => if k <? n then Some k else Some n | None => Some k end | None => r0 end in
     match last, next with Some last, Some n => if last <=? n then None else Some n | _, _ => next end).
Proof.
  intros H0 H1.
  assert (Hb : forall r, (forall k, r = Some k -> (Q k \/ P k) /\ key_ < k) ->
    (forall k', (Q k' \/ P k') -> key_ < k' -> match r with Some k => k <= k' \/ ~ before last k' | None => ~ before last k' end) ->
    succ_spec (fun k => Q k \/ P k) key_ last
      (match last, r with Some last, Some n => if last <=? n then None else Some n | _, _ => r end)).
  { intros [k|] Hr Hmin; [|by destruct last].
    destruct (Hr k eq_refl) as [HP Hlt]. destruct last as [last|]; simpl in *.
    - destruct (Z.leb_spec last k).
      + intros k' Hk' Hlt'. specialize (Hmin k' Hk' Hlt'). simpl. lia.
      + split_and!; [done..|]. intros k' Hk' Hlt'. specialize (Hmin k' Hk' Hlt'). simpl in *. lia.
    - split_and!; [done..|]. intros k' Hk' Hlt'. specialize (Hmin k' Hk' Hlt'). tauto. }
  apply Hb; clear Hb; destruct r0 as [k0|], r1 as [k1|]; simpl in *.
  - intros k. destruct (Z.ltb_spec k1 k0); intros [= <-]; tauto.
  - intros k [= <-]. tauto.
  - intros k [= <-]. tauto.
  - done.
  - destruct H0 as (_ & _ & _ & H0), H1 as (_ & _ & _ & H1). intros k' [Hk'|Hk'] Hlt; destruct (Z.ltb_spec k1 k0); left;
      [specialize (H1 k' Hk' Hlt)|specialize (H1 k' Hk' Hlt)|specialize (H0 k' Hk' Hlt)|specialize (H0 k' Hk' Hlt)]; lia.
  - destruct H0 as (_ & _ & _ & H0). intros k' [Hk'|Hk'] Hlt; [exfalso; by apply (H1 k')|left; auto].
  - destruct H1 as (_ & _ & _ & H1). intros k' [Hk'|Hk'] Hlt; [left; auto|right; auto].
  - intros k' [Hk'|Hk'] Hlt; [exfalso; by apply (H1 k')|auto].
Qed.

Lemma succ_spec_iff (P Q : Z -> Prop) key_ last r :
  (forall k, P k <-> Q k) -> succ_spec P key_ last r -> succ_spec Q key_ last r.
Proof.
  intros HPQ. destruct r as [k|]; simpl.
  - intros (HP & ? & ? & Hmin). split_and!; [by apply HPQ|done|done|]. intros k' Hk'. apply Hmin. by apply HPQ.
  - intros H k' Hk'. apply H. by apply HPQ.
Qed.

(** ** A table over a view *)

Section Overlay.
Context {D A : Type} (isErase isInsert : A -> bool).
Implicit Types (h : Heap D) (items : gmap Z (A * Z)) (m : gmap Z (SLE D)).

(** The entries seen through a table over a map. *)
Definition overlay h items m : gmap Z (SLE D) :=
  merge (fun i b => match i with Some (a, p) => if isErase a then None else cells h !! p | None => b end) items m.

(** A table that can be over a map: each item points to an entry with its key,
    which the map has, unless the item inserts it. *)
Definition table_ok h items m : Prop :=
  forall k a p, items !! k = Some (a, p) ->
    exists s, cells h !! p = Some s /\ key s = k /\ (if isInsert a then m !! k = None else is_Some (m !! k)).

Lemma overlay_item h items m k a p : items !! k = Some (a, p) -> overlay h items m !! k = if isErase a then None else cells h !! p.
Proof. intros Hk. unfold overlay. rewrite lookup_merge, Hk. by destruct (m !! k). Qed.

Lemma overlay_base h items m k : items !! k = None -> overlay h items m !! k = m !! k.
Proof. intros Hk. unfold overlay. rewrite lookup_merge, Hk. by destruct (m !! k). Qed.

Lemma overlay_empty h m : overlay h ∅ m = m.
Proof. apply map_eq. intros k. apply overlay_base. apply lookup_empty. Qed.

Lemma overlay_keys h items m : table_ok h items m -> keys_ok m -> keys_ok (overlay h items m).
Proof.
  intros Ht Hm k s Hk. destruct (items !! k) as [[a p]|] eqn:E.
  - rewrite (overlay_item _ _ _ _ _ _ E) in Hk. destruct (isErase a); [done|].
    destruct (Ht k a p E) as (s' & Hs' & <- & _). congruence.
  - rewrite (overlay_base _ _ _ _ E) in Hk. by apply Hm.
Qed.

(** An item set to a live action, or an erasing one, and an item dropped. *)
Lemma overlay_set h items m k a p s :
  isErase a = false -> cells h !! p = Some s -> overlay h (<[k := (a, p)]> items) m = <[k := s]> (overlay h items m).
Proof.
  intros Ha Hp. apply map_eq. intros k'. destruct (decide (k = k')) as [<-|Hne].
  - rewrite (overlay_item _ _ _ _ a p), Ha, Hp, lookup_insert_eq; [done|]. by rewrite lookup_insert_eq.
  - rewrite lookup_insert_ne by done. unfold overlay. rewrite !lookup_merge, lookup_insert_ne by done. done.
Qed.

Lemma overlay_set_erase h items m k a p :
  isErase a = true -> overlay h (<[k := (a, p)]> items) m = delete k (overlay h items m).
Proof.
  intros Ha. apply map_eq. intros k'. destruct (decide (k = k')) as [<-|Hne].
  - rewrite (overlay_item _ _ _ _ a p), Ha, lookup_delete_eq; [done|]. by rewrite lookup_insert_eq.
  - rewrite lookup_delete_ne by done. unfold overlay. rewrite !lookup_merge, lookup_insert_ne by done. done.
Qed.

Lemma overlay_drop h items m k :
  m !! k = None -> overlay h (delete k items) m = delete k (overlay h items m).
Proof.
  intros Hm. apply map_eq. intros k'. destruct (decide (k = k')) as [<-|Hne].
  - rewrite overlay_base, lookup_delete_eq; [done|]. by rewrite lookup_delete_eq.
  - rewrite lookup_delete_ne by done. unfold overlay. rewrite !lookup_merge, lookup_delete_ne by done. done.
Qed.

Lemma table_ok_set h items m k a p s :
  table_ok h items m -> cells h !! p = Some s -> key s = k -> (if isInsert a then m !! k = None else is_Some (m !! k)) ->
  table_ok h (<[k := (a, p)]> items) m.
Proof.
  intros Ht Hp Hk Hm k' a' p' [[<- [= <- <-]]|[_ Hk']]%lookup_insert_Some; [by eauto|by apply Ht].
Qed.

Lemma table_ok_drop h items m k : table_ok h items m -> table_ok h (delete k items) m.
Proof. intros Ht k' a' p' [_ Hk']%lookup_delete_Some. by apply Ht. Qed.

Lemma table_ok_empty h m : table_ok h ∅ m.
Proof. intros k a p Hk. by rewrite lookup_empty in Hk. Qed.

(** What is seen: a live item, or the base where no item is. *)
Definition live items (k : Z) : Prop := exists a p, items !! k = Some (a, p) /\ isErase a = false.

Lemma overlay_is_Some h items m k :
  table_ok h items m ->
  is_Some (overlay h items m !! k) <-> live items k \/ (is_Some (m !! k) /\ erasedIn isErase items k = false).
Proof.
  intros Ht. unfold live, erasedIn. destruct (items !! k) as [[a p]|] eqn:E.
  - rewrite (overlay_item _ _ _ _ _ _ E). destruct (Ht k a p E) as (s & Hs & _). destruct (isErase a) eqn:Ha; split.
    + by intros [? ?].
    + intros [(? & ? & [= <- <-] & ?)|[_ ?]]; congruence.
    + left. by exists a, p.
    + intros _. by rewrite Hs.
  - rewrite (overlay_base _ _ _ _ E). split; [by right|]. intros [(? & ? & ? & ?)|[? _]]; [congruence|done].
Qed.

(** The pointers of a table. *)
Definition items_refs items (p : Z) : Prop := exists k a, items !! k = Some (a, p).

Lemma overlay_agree h h' items m : agree (items_refs items) h h' -> overlay h' items m = overlay h items m.
Proof.
  intros Ha. apply map_eq. intros k. destruct (items !! k) as [[a p]|] eqn:E.
  - rewrite !(overlay_item _ _ _ _ _ _ E). rewrite (Ha p); [done|]. by exists k, a.
  - by rewrite !overlay_base.
Qed.

Lemma table_ok_agree h h' items m : agree (items_refs items) h h' -> table_ok h items m -> table_ok h' items m.
Proof.
  intros Ha Ht k a p Hk. destruct (Ht k a p Hk) as (s & Hp & ?). exists s. rewrite (Ha p); [done|]. by exists k, a.
Qed.

Context {V : Type} `{ReadView D V} (abs : Heap D -> V -> gmap Z (SLE D)) (ok : Heap D -> V -> Prop) (refs : V -> Z -> Prop).
Context `{!ViewLaws D V abs ok refs}.

(** The loop over the base: each round past the first passes an item, so the
    number of items is enough. *)
Lemma baseSucc_spec n h v items key_ last :
  ok h v -> (length (upper_bound key_ (inOrder items)) < n)%nat ->
  succ_spec (fun k => is_Some (abs h v !! k) /\ erasedIn isErase items k = false) key_ last
    (baseSucc isErase n h v key_ last items).
Proof.
  intros Hok. revert key_. induction n as [|n IH]; intros key_ Hn; simpl; [lia|].
  pose proof (law_succ h v key_ last Hok) as Hsucc. destruct (succ h v key_ last) as [k|]; simpl in Hsucc.
  - destruct Hsucc as (Hk & Hlt & Hb & Hmin). destruct (erasedIn isErase items k) eqn:E.
    + assert (Hlen : (length (upper_bound k (inOrder items)) < length (upper_bound key_ (inOrder items)))%nat).
      { unfold erasedIn in E. destruct (items !! k) as [x|] eqn:Ek; [|done].
        apply elem_of_inOrder in Ek. clear -Ek Hlt. unfold upper_bound.
        assert (Hle : forall l : list (Z * (A * Z)), (length (List.filter (fun x => (k <? x.1)%Z) l) <= length (List.filter (fun x => (key_ <? x.1)%Z) l))%nat).
        { induction l as [|y l IHl]; simpl; [lia|].
          destruct (Z.ltb_spec k y.1); destruct (Z.ltb_spec key_ y.1); simpl; lia. }
        induction (inOrder items) as [|y l IHl]; [by apply not_elem_of_nil in Ek|]. specialize (Hle l).
        apply elem_of_cons in Ek as [<-|Ek]; simpl.
        - rewrite Z.ltb_irrefl, (proj2 (Z.ltb_lt key_ k) Hlt). simpl. lia.
        - specialize (IHl Ek). destruct (Z.ltb_spec k y.1); destruct (Z.ltb_spec key_ y.1); simpl; lia. }
      specialize (IH k ltac:(lia)). destruct (baseSucc isErase n h v k last items) as [r|]; simpl in *.
      * destruct IH as (Hr & Hlt' & Hb' & Hmin'). split_and!; [apply Hr..|lia|done|].
        intros k' [Hk' He] Hlt''. specialize (Hmin k' Hk' Hlt''). apply Hmin'; [done|].
        destruct (decide (k = k')) as [->|]; [congruence|lia].
      * intros k' [Hk' He] Hlt'. specialize (Hmin k' Hk' Hlt'). apply IH; [done|].
        destruct (decide (k = k')) as [->|]; [congruence|lia].
    + split_and!; [done..|]. intros k' [Hk' _]. by apply Hmin.
  - intros k' [Hk' _]. by apply Hsucc.
Qed.

Lemma live_spec items key_ :
  succ_spec (live items) key_ None (fst <$> List.find (fun x => negb (isErase x.2.1)) (upper_bound key_ (inOrder items))).
Proof using.
  pose proof (find_least fst (fun x => negb (isErase x.2.1)) _ (filter_sorted _ (fun x => key_ <? x.1) _ (inOrder_sorted items))) as Hfind.
  fold (upper_bound key_ (inOrder items)) in Hfind.
  assert (Hin : forall k a p, items !! k = Some (a, p) -> key_ < k -> (k, (a, p)) ∈ upper_bound key_ (inOrder items)).
  { intros k a p Hk Hlt. by rewrite elem_of_upper_bound, elem_of_inOrder. }
  destruct (List.find _ _) as [[k [a p]]|]; simpl.
  - destruct Hfind as (Hk & Ha & Hmin). rewrite elem_of_upper_bound, elem_of_inOrder in Hk. destruct Hk as [Hk Hlt].
    split_and!; [|done|done|].
    + exists a, p. split; [done|]. by apply negb_true_iff in Ha.
    + intros k' (a' & p' & Hk' & Ha') Hlt'. apply (Hmin (k', (a', p'))); [by apply Hin|]. simpl. by rewrite Ha'.
  - intros k' (a' & p' & Hk' & Ha') Hlt' _. specialize (Hfind _ (Hin _ _ _ Hk' Hlt')). simpl in Hfind. by rewrite Ha' in Hfind.
Qed.

Lemma succOver_spec h v items key_ last :
  ok h v -> table_ok h items (abs h v) ->
  succ_spec (fun k => is_Some (overlay h items (abs h v) !! k)) key_ last (succOver isErase h v key_ last items).
Proof.
  intros Hok Ht.
  assert (Hfuel : (length (upper_bound key_ (inOrder items)) < S (size items))%nat).
  { unfold upper_bound. pose proof (List.filter_length_le (fun x => key_ <? x.1) (inOrder items)) as Hle.
    assert (length (inOrder items) = size items); [|lia].
    unfold inOrder. rewrite merge_sort_Permutation. by rewrite length_map_to_list. }
  apply (succ_spec_iff (fun k => live items k \/ (is_Some (abs h v !! k) /\ erasedIn isErase items k = false))).
  { intros k. by rewrite overlay_is_Some. }
  pose proof (succ_merge _ _ _ _ _ _ (baseSucc_spec _ h v items key_ last Hok Hfuel) (live_spec items key_)) as Hm.
  unfold succOver. by destruct (List.find _ _) as [[k x]|].
Qed.

(** Reading through a table over a lawful view reads the overlay. *)
Lemma readOver_spec h v items k :
  ok h v -> k_key k <> 0 -> readOver isErase h v k items = checked k (overlay h items (abs h v) !! k_key k).
Proof.
  intros Hok Hk. unfold readOver. destruct (items !! k_key k) as [[a p]|] eqn:E.
  - rewrite (overlay_item _ _ _ _ _ _ E). by destruct (isErase a).
  - rewrite (overlay_base _ _ _ _ E). by apply law_read.
Qed.

Lemma existsOver_true h v items k :
  ok h v -> existsOver isErase h v k items = true -> is_Some (overlay h items (abs h v) !! k_key k).
Proof.
  intros Hok. unfold existsOver. destruct (items !! k_key k) as [[a p]|] eqn:E.
  - rewrite (overlay_item _ _ _ _ _ _ E). destruct (isErase a); [done|]. destruct (cells h !! p); [by eauto|done].
  - rewrite (overlay_base _ _ _ _ E). by apply law_exists_true.
Qed.

Lemma existsOver_spec h v items k :
  ok h v -> is_Some (checked k (overlay h items (abs h v) !! k_key k)) -> existsOver isErase h v k items = true.
Proof.
  intros Hok. unfold existsOver. destruct (items !! k_key k) as [[a p]|] eqn:E.
  - rewrite (overlay_item _ _ _ _ _ _ E). destruct (isErase a); simpl; [by intros [? ?]|].
    destruct (cells h !! p) as [s|]; simpl; [|by intros [? ?]]. destruct (check k s); [done|]. by intros [? ?].
  - rewrite (overlay_base _ _ _ _ E). by apply law_exists.
Qed.

End Overlay.
