(* ===== verification/LedgerTables.v ===== *)
(** * The tables of changes are lawful views

    The iterator of [RawStateTable] gives the entries of the overlay in order,
    [OpenView] and [ApplyViewBase] over a lawful view are lawful views and
    lawful targets of raw changes, and applying a table of either kind to a
    lawful target turns the target's map into the overlay of its changes. *)

From stdpp Require Import strings sorting.
From S2P Require Import Prelude Outcome LedgerViews RawStateTable LedgerViewsFacts ApplyStateTable.

(** ** The iterator *)

Section Iterator.
Context {D : Type}.
Abbreviation items := (list (RawStateTable.Action * SLE D)).
Abbreviation entries := (list (SLE D)).

Definition itemBefore (x y : RawStateTable.Action * SLE D) : Prop := key x.2 < key y.2.
Definition entryBefore (x y : SLE D) : Prop := key x < key y.

(** Both lists are in order, and what is erased is in the base. *)
Record iter_ok (l1 : items) (l0 : entries) : Prop := {
  io_items : StronglySorted itemBefore l1;
  io_base : StronglySorted entryBefore l0;
  io_erased : forall s, (RawStateTable.erase_, s) ∈ l1 -> exists s0, s0 ∈ l0 /\ key s0 = key s;
}.

(** The head is not an erased entry. *)
Definition skipped (l1 : items) (l0 : entries) : Prop :=
  match l1, l0 with
  | (RawStateTable.erase_, _) :: _, [] => False
  | (RawStateTable.erase_, s1) :: _, s0 :: _ => key s0 < key s1
  | _, _ => True
  end.

(** What the iterator has yet to show. *)
Definition shown (l1 : items) (l0 : entries) (s : SLE D) : Prop :=
  (exists a, RawStateTable.isErase a = false /\ (a, s) ∈ l1) \/ (s ∈ l0 /\ forall x, x ∈ l1 -> key x.2 <> key s).

Lemma before_all {A} (R : A -> A -> Prop) x l y : StronglySorted R (x :: l) -> y ∈ l -> R x y.
Proof. intros H Hy. inversion H as [|? ? _ Hx]; subst. rewrite Forall_forall in Hx. by apply Hx. Qed.

Lemma sorted_tail {A} (R : A -> A -> Prop) x l : StronglySorted R (x :: l) -> StronglySorted R l.
Proof. by inversion 1. Qed.

(** An erased entry at both heads is passed. *)
Lemma iter_ok_both a s1 l1 s0 l0 : iter_ok ((a, s1) :: l1) (s0 :: l0) -> key s0 = key s1 -> iter_ok l1 l0.
Proof.
  intros [H1 H0 He] Hk. split; [by eapply sorted_tail|by eapply sorted_tail|].
  intros s Hs. destruct (He s) as (s' & Hs' & Hk'); [by right|].
  apply elem_of_cons in Hs' as [->|Hs']; [|by eauto].
  pose proof (before_all _ _ _ _ H1 Hs) as Hlt. unfold itemBefore in Hlt. simpl in Hlt. lia.
Qed.

Lemma shown_both a s1 l1 s0 l0 s :
  iter_ok ((a, s1) :: l1) (s0 :: l0) -> key s0 = key s1 ->
  shown ((a, s1) :: l1) (s0 :: l0) s <-> (RawStateTable.isErase a = false /\ s = s1) \/ shown l1 l0 s.
Proof.
  intros [H1 H0 _] Hk. unfold shown. split.
  - intros [(a' & Ha' & [[= -> ->]|Hs]%elem_of_cons)|[[->|Hs]%elem_of_cons Hn]].
    + by left.
    + right; left; by eauto.
    + exfalso. by apply (Hn (a, s1)); [left|].
    + right; right. split; [done|]. intros x Hx. apply Hn. by right.
  - intros [[Ha ->]|[(a' & Ha' & Hs)|[Hs Hn]]].
    + left. exists a. split; [done|by left].
    + left. exists a'. split; [done|by right].
    + right. split; [by right|]. intros x [->|Hx]%elem_of_cons; [|by apply Hn].
      pose proof (before_all _ _ _ _ H0 Hs) as Hlt. unfold entryBefore in Hlt. simpl. lia.
Qed.

Lemma skipped_head s1 l1 s0 l0 :
  iter_ok ((RawStateTable.erase_, s1) :: l1) (s0 :: l0) -> key s0 <> key s1 -> key s0 < key s1.
Proof.
  intros [_ H0 He] Hne. destruct (He s1) as (s' & [->|Hs']%elem_of_cons & Hk'); [by left|done|].
  pose proof (before_all _ _ _ _ H0 Hs') as Hlt. unfold entryBefore in Hlt. lia.
Qed.

Lemma skip_spec (l1 : items) (l0 : entries) :
  iter_ok l1 l0 ->
  exists l1' l0', RawStateTable.skip l1 l0 = Ret (l1', l0') /\ iter_ok l1' l0' /\ skipped l1' l0' /\
    (forall s, shown l1 l0 s <-> shown l1' l0' s) /\ (length l1' + length l0' <= length l1 + length l0)%nat.
Proof.
  revert l0. induction l1 as [|[[] s1] l1 IH]; intros l0 Hok; simpl;
    [exists [], l0; by split_and!| |eexists _, l0; by split_and!..].
  destruct l0 as [|s0 l0].
  { destruct (io_erased _ _ Hok s1) as (s' & Hs' & _); [by left|]. by apply not_elem_of_nil in Hs'. }
  destruct (Z.eqb_spec (key s0) (key s1)) as [Hk|Hk].
  - pose proof (iter_ok_both _ _ _ _ _ Hok Hk) as Hok'.
    assert (Hsh : forall s, shown ((RawStateTable.erase_, s1) :: l1) (s0 :: l0) s <-> shown l1 l0 s).
    { intros s. rewrite shown_both by done. simpl. naive_solver. }
    destruct l0 as [|s0' l0].
    + exists l1, []. split_and!; [done|done| |done|simpl; lia].
      destruct l1 as [|[[] x] l1]; [done| |done|done].
      destruct (io_erased _ _ Hok' x) as (s' & Hs' & _); [by left|]. by apply not_elem_of_nil in Hs'.
    + destruct (IH _ Hok') as (l1' & l0' & -> & ? & ? & Hsh' & Hlen). exists l1', l0'. split_and!; [done..| |simpl in *; lia].
      intros s. by rewrite Hsh.
  - exists ((RawStateTable.erase_, s1) :: l1), (s0 :: l0). split_and!; [done|done| |done|simpl; lia].
    simpl. by eapply skipped_head.
Qed.

(** An item before the base's head, and the other way round. *)
Lemma iter_ok_item a s1 l1 l0 : iter_ok ((a, s1) :: l1) l0 -> iter_ok l1 l0.
Proof. intros [H1 H0 He]. split; [by eapply sorted_tail|done|]. intros s Hs. apply He. by right. Qed.

Lemma shown_item a s1 l1 l0 s :
  RawStateTable.isErase a = false -> (forall y, y ∈ l0 -> key s1 < key y) ->
  shown ((a, s1) :: l1) l0 s <-> s = s1 \/ shown l1 l0 s.
Proof.
  intros Ha Hlt. unfold shown. split.
  - intros [(a' & Ha' & [[= -> ->]|Hs]%elem_of_cons)|[Hs Hn]].
    + by left.
    + right; left; by eauto.
    + right; right. split; [done|]. intros x Hx. apply Hn. by right.
  - intros [->|[(a' & Ha' & Hs)|[Hs Hn]]].
    + left. exists a. split; [done|by left].
    + left. exists a'. split; [done|by right].
    + right. split; [done|]. intros x [->|Hx]%elem_of_cons; [|by apply Hn]. specialize (Hlt s Hs). simpl. lia.
Qed.

Lemma iter_ok_entry l1 s0 l0 : iter_ok l1 (s0 :: l0) -> (forall x, x ∈ l1 -> key s0 < key x.2) -> iter_ok l1 l0.
Proof.
  intros [H1 H0 He] Hlt. split; [done|by eapply sorted_tail|]. intros s Hs.
  destruct (He s Hs) as (s' & [->|Hs']%elem_of_cons & Hk); [|by eauto]. specialize (Hlt _ Hs). simpl in Hlt. lia.
Qed.

Lemma shown_entry l1 s0 l0 s :
  (forall x, x ∈ l1 -> key s0 < key x.2) -> shown l1 (s0 :: l0) s <-> s = s0 \/ shown l1 l0 s.
Proof.
  intros Hlt. unfold shown. split.
  - intros [?|[[->|Hs]%elem_of_cons Hn]]; [by right; left|by left|]. right; right. done.
  - intros [->|[?|[Hs Hn]]]; [|by left|right; split; [by right|done]].
    right. split; [by left|]. intros x Hx. specialize (Hlt x Hx). lia.
Qed.

Lemma shown_behind b l1 l0 s :
  (forall x, x ∈ l1 -> b < key x.2) -> (forall y, y ∈ l0 -> b < key y) -> shown l1 l0 s -> b < key s.
Proof. intros H1 H0 [(a & _ & Hs)|[Hs _]]; [by apply (H1 _ Hs)|by apply H0]. Qed.

(** One step, up to what [increment] skips: the entry shown is the least. *)
Lemma iter_advance_spec (l1 : items) (l0 : entries) :
  iter_ok l1 l0 -> skipped l1 l0 -> (l1, l0) <> ([], []) ->
  exists s l1' l0', RawStateTable.dereference l1 l0 = Ret s /\
    (RawStateTable.increment l1 l0 = RawStateTable.skip l1' l0' \/ (RawStateTable.increment l1 l0 = Ret (l1', l0') /\ skipped l1' l0')) /\
    iter_ok l1' l0' /\ (length l1' + length l0' < length l1 + length l0)%nat /\
    (forall x, shown l1 l0 x <-> x = s \/ shown l1' l0' x) /\
    (forall x, x ∈ l1' -> key s < key x.2) /\ (forall y, y ∈ l0' -> key s < key y).
Proof.
  intros Hok Hsk Hne. pose proof (fun a x l => before_all itemBefore a l x) as HB1.
  pose proof (fun a x l => before_all entryBefore a l x) as HB0. unfold itemBefore, entryBefore in HB1, HB0.
  destruct l1 as [|[a s1] l1], l0 as [|s0 l0]; [done|..]; simpl.
  - assert (Hlt : forall x : RawStateTable.Action * SLE D, x ∈ [] -> key s0 < key x.2) by (intros x Hx; by apply not_elem_of_nil in Hx).
    exists s0, [], l0. split_and!; [done|by right|by eapply iter_ok_entry|simpl; lia|intros x; by apply shown_entry|done|].
    intros y. apply HB0, Hok.
  - assert (Hlt : forall y : SLE D, y ∈ [] -> key s1 < key y) by (intros x Hx; by apply not_elem_of_nil in Hx).
    assert (Ha : RawStateTable.isErase a = false) by (by destruct a).
    pose proof (iter_ok_item _ _ _ _ Hok) as Hok'.
    exists s1, l1, []. split_and!; [done| |done|simpl; lia|intros x; by apply shown_item| |done].
    + right. split; [done|]. destruct l1 as [|[[] x] l1]; [done| |done|done].
      destruct (io_erased _ _ Hok' x) as (s' & Hs' & _); [by left|]. by apply not_elem_of_nil in Hs'.
    + intros x. apply (HB1 (a, s1)), Hok.
  - destruct (Z.eqb_spec (key s1) (key s0)) as [Hk|Hk]; [|destruct (Z.ltb_spec (key s1) (key s0))].
    + assert (Ha : RawStateTable.isErase a = false) by (destruct a; simpl in *; [lia|done|done]).
      exists s1, l1, l0. rewrite (proj2 (Z.leb_le _ _)) by lia.
      split_and!; [done|by left|by eapply iter_ok_both|simpl; lia| | |].
      * intros x. rewrite shown_both by done. rewrite Ha. naive_solver.
      * intros x. apply (HB1 (a, s1)), Hok.
      * rewrite Hk. intros x. apply HB0, Hok.
    + assert (Ha : RawStateTable.isErase a = false) by (destruct a; simpl in *; [lia|done|done]).
      assert (Hlt : forall y, y ∈ s0 :: l0 -> key s1 < key y).
      { intros y [->|Hy]%elem_of_cons; [done|]. pose proof (HB0 s0 y l0 (io_base _ _ Hok) Hy). lia. }
      exists s1, l1, (s0 :: l0). rewrite (proj2 (Z.leb_le _ _)) by lia.
      split_and!; [done|by left|by eapply iter_ok_item|simpl; lia|intros x; by apply shown_item| |done].
      intros x. apply (HB1 (a, s1)), Hok.
    + assert (Hlt : forall x, x ∈ (a, s1) :: l1 -> key s0 < key x.2).
      { intros x [->|Hx]%elem_of_cons; [simpl; lia|]. pose proof (HB1 (a, s1) x l1 (io_items _ _ Hok) Hx). simpl in *. lia. }
      exists s0, ((a, s1) :: l1), l0. rewrite (proj2 (Z.leb_gt _ _)) by lia.
      split_and!; [done|by left|by eapply iter_ok_entry|simpl; lia|intros x; by apply shown_entry|done|].
      intros y. apply HB0, Hok.
Qed.

Lemma iterate_end n :
  exists l : entries, RawStateTable.iterate n [] [] = Ret l /\ StronglySorted entryBefore l /\ (forall s, s ∈ l <-> shown [] [] s).
Proof.
  exists []. destruct n; (split_and!; [done|constructor|]); intros s; split;
    first [by intros ?%not_elem_of_nil|by intros [(? & _ & ?%not_elem_of_nil)|[?%not_elem_of_nil _]]].
Qed.

(** The whole loop: what is shown, in order. *)
Lemma iterate_spec n (l1 : items) (l0 : entries) :
  iter_ok l1 l0 -> skipped l1 l0 -> (length l1 + length l0 <= n)%nat ->
  exists l, RawStateTable.iterate n l1 l0 = Ret l /\ StronglySorted entryBefore l /\ (forall s, s ∈ l <-> shown l1 l0 s).
Proof.
  revert l1 l0. induction n as [|n IH]; intros l1 l0 Hok Hsk Hn.
  { destruct l1, l0; simpl in Hn; [apply iterate_end|lia..]. }
  destruct (decide ((length l1 + length l0)%nat = 0%nat)) as [Hz|Hz].
  { destruct l1, l0; simpl in Hz; [apply iterate_end|lia..]. }
  destruct (iter_advance_spec l1 l0 Hok Hsk) as (s & m1 & m0 & Hd & Hi & Hok' & Hlen & Hsh & Hb1 & Hb0).
  { intros [= -> ->]. simpl in Hz. lia. }
  assert (Hskip : exists l1' l0', RawStateTable.increment l1 l0 = Ret (l1', l0') /\ iter_ok l1' l0' /\ skipped l1' l0' /\
    (forall x, shown m1 m0 x <-> shown l1' l0' x) /\ (length l1' + length l0' <= length m1 + length m0)%nat).
  { destruct Hi as [->|[-> Hsk']]; [by apply skip_spec|]. by exists m1, m0. }
  destruct Hskip as (l1' & l0' & Hi' & Hok'' & Hsk' & Hsh' & Hlen').
  destruct (IH l1' l0') as (l & Hl & Hso & Hel); [done|done|lia|].
  exists (s :: l). split_and!.
  - transitivity (RawStateTable.dereference l1 l0 ≫= fun s => RawStateTable.increment l1 l0 ≫= fun '(l1, l0) => RawStateTable.iterate n l1 l0 ≫= fun l => Ret (s :: l)).
    { destruct l1 as [|x l1], l0; [simpl in Hz; lia|done..]. }
    rewrite Hd, Ret_bind, Hi', Ret_bind, Hl. done.
  - constructor; [done|]. apply Forall_forall. intros x Hx. apply (shown_behind (key s) m1 m0); [done..|].
    by apply Hsh', Hel.
  - intros x. rewrite elem_of_cons, Hsh, Hel, Hsh'. done.
Qed.

End Iterator.

(** The entries of a map from a key on. *)
Definition after (from : option Z) (k : Z) : Prop := match from with Some b => b < k | None => True end.

Definition sel {A} (from : option Z) (l : list (Z * A)) : list (Z * A) := match from with Some k => upper_bound k l | None => l end.

Lemma elem_of_sel {A} from (l : list (Z * A)) x : x ∈ sel from l <-> x ∈ l /\ after from x.1.
Proof. destruct from; simpl; [apply elem_of_upper_bound|tauto]. Qed.

Lemma sel_sorted {A} from (m : gmap Z A) : StronglySorted keyBefore (sel from (inOrder m)).
Proof. destruct from; simpl; [apply filter_sorted|]; apply inOrder_sorted. Qed.

Lemma elem_of_entriesFrom {D} from (m : gmap Z (SLE D)) s :
  keys_ok m -> s ∈ entriesFrom from m <-> m !! key s = Some s /\ after from (key s).
Proof.
  intros Hm. unfold entriesFrom. fold (sel from (inOrder m)). rewrite list_elem_of_fmap. split.
  - intros ([k x] & -> & Hx). rewrite elem_of_sel, elem_of_inOrder in Hx. destruct Hx as [Hx Hk]. simpl in *.
    by rewrite (Hm _ _ Hx).
  - intros [Hs Hk]. exists (key s, s). split; [done|]. by rewrite elem_of_sel, elem_of_inOrder.
Qed.

Lemma entriesFrom_sorted {D} from (m : gmap Z (SLE D)) : keys_ok m -> StronglySorted entryBefore (entriesFrom from m).
Proof.
  intros Hm. unfold entriesFrom. fold (sel from (inOrder m)).
  assert (Hl : forall x, x ∈ sel from (inOrder m) -> key x.2 = x.1).
  { intros [k x] Hx. rewrite elem_of_sel, elem_of_inOrder in Hx. destruct Hx as [Hx _]. by apply Hm. }
  pose proof (sel_sorted from m) as Hs. revert Hl. induction Hs as [|x l Hs IH Hx]; intros Hl; [constructor|].
  rewrite fmap_cons. constructor.
  - apply IH. intros y Hy. apply Hl. by right.
  - apply Forall_forall. intros y (y' & -> & Hy)%list_elem_of_fmap. rewrite Forall_forall in Hx. specialize (Hx y' Hy).
    unfold keyBefore, entryBefore in *. rewrite (Hl x), (Hl y'); [done|by right|by left].
Qed.

Lemma withEntries_spec {D} (h : Heap D) (l : list (Z * (RawStateTable.Action * Z))) :
  (forall k a p, (k, (a, p)) ∈ l -> exists s, cells h !! p = Some s /\ key s = k) -> StronglySorted keyBefore l ->
  exists l', RawStateTable.withEntries h l = Ret l' /\ StronglySorted itemBefore l' /\
    (forall a s, (a, s) ∈ l' <-> exists p, (key s, (a, p)) ∈ l /\ cells h !! p = Some s).
Proof.
  intros Hl Hs. induction Hs as [|[k [a p]] l Hs IH Hx].
  - exists []. split_and!; [done|constructor|]. intros a s. split; [by intros ?%not_elem_of_nil|].
    intros (p & ?%not_elem_of_nil & _). done.
  - destruct IH as (l' & IH & Hs' & Hel); [intros k' a' p' Hin; apply (Hl k' a' p'); by right|]. destruct (Hl k a p) as (s & Hp & Hk); [by left|].
    exists ((a, s) :: l'). split_and!.
    + change (RawStateTable.withEntries h ((k, (a, p)) :: l)) with (deref h p ≫= fun sle => RawStateTable.withEntries h l ≫= fun l => Ret ((a, sle) :: l)).
      by rewrite (deref_Some _ _ _ Hp), Ret_bind, IH.
    + constructor; [done|]. apply Forall_forall. rewrite Forall_forall in Hx. intros [a' s'] (p' & Hin & _)%Hel.
      specialize (Hx _ Hin). unfold keyBefore, itemBefore in *. simpl in *. lia.
    + intros a' s'. rewrite elem_of_cons, Hel. split.
      * intros [[= -> ->]|(p' & Hin & Hp')]; [|exists p'; split; [by right|done]]. exists p. rewrite Hk. split; [by left|done].
      * intros (p' & [[= E <- <-]|Hin]%elem_of_cons & Hp'); [left; congruence|right; by eauto].
Qed.

(** ** RawStateTable over a lawful view *)

Section RawTable.
Context {D V : Type} `{ReadView D V} (abs : Heap D -> V -> gmap Z (SLE D)) (ok : Heap D -> V -> Prop) (refs : V -> Z -> Prop).
Context `{!ViewLaws D V abs ok refs} `{!IterLaws D V abs ok}.

Definition rawInserts (a : RawStateTable.Action) : bool := match a with RawStateTable.insert_ => true | _ => false end.
Definition raw_ok (h : Heap D) (t : RawStateTable.RawStateTable) (m : gmap Z (SLE D)) : Prop := table_ok rawInserts h (RawStateTable.items_ t) m.
Definition raw_overlay (h : Heap D) (t : RawStateTable.RawStateTable) (m : gmap Z (SLE D)) : gmap Z (SLE D) :=
  overlay RawStateTable.isErase h (RawStateTable.items_ t) m.

Lemma slesIn_spec h v from t :
  ok h v -> raw_ok h t (abs h v) -> RawStateTable.slesIn h v from t = Ret (entriesFrom from (raw_overlay h t (abs h v))).
Proof.
  intros Hok Ht. assert (Hm : keys_ok (abs h v)) by (intros k s; by apply law_keys).
  pose proof (overlay_keys RawStateTable.isErase _ _ _ _ Ht Hm) as Hm'. unfold raw_overlay.
  unfold RawStateTable.slesIn. fold (sel from (inOrder (RawStateTable.items_ t))).
  destruct (withEntries_spec h (sel from (inOrder (RawStateTable.items_ t)))) as (l1 & -> & Hs1 & Hel1).
  { intros k a p [Hin%elem_of_inOrder _]%elem_of_sel. destruct (Ht k a p Hin) as (s & ? & ? & _). by exists s. }
  { apply sel_sorted. }
  rewrite Ret_bind, law_sles, Ret_bind by done. set (l0 := entriesFrom from (abs h v)).
  assert (Hin1 : forall a s, (a, s) ∈ l1 <-> exists p, RawStateTable.items_ t !! key s = Some (a, p) /\ cells h !! p = Some s /\ after from (key s)).
  { intros a s. rewrite Hel1. setoid_rewrite elem_of_sel. setoid_rewrite elem_of_inOrder. simpl. naive_solver. }
  assert (Hin0 : forall s, s ∈ l0 <-> abs h v !! key s = Some s /\ after from (key s)) by (intros s; by apply elem_of_entriesFrom).
  assert (Hio : iter_ok l1 l0).
  { split; [done|by apply entriesFrom_sorted|]. intros s (p & Hi & Hp & Ha)%Hin1.
    destruct (Ht _ _ _ Hi) as (_ & _ & _ & [s0 Hs0]). simpl in Hs0. exists s0. pose proof (Hm _ _ Hs0) as Hk.
    split; [|done]. apply Hin0. by rewrite Hk. }
  destruct (skip_spec l1 l0 Hio) as (l1' & l0' & -> & Hio' & Hsk & Hsh & Hlen). rewrite Ret_bind.
  destruct (iterate_spec (length l1 + length l0) l1' l0' Hio' Hsk Hlen) as (l & -> & Hs & Hel). f_equal.
  apply (sorted_unique key); [done|by apply entriesFrom_sorted|]. intros s.
  rewrite Hel, <- Hsh, elem_of_entriesFrom by done. unfold shown. rewrite Hin0.
  setoid_rewrite Hin1. clear -Ht Hin1 Hm. split.
  - intros [(a & Ha & p & Hi & Hp & Hf)|[[Hs Hf] Hn]].
    + rewrite (overlay_item _ _ _ _ _ _ _ Hi), Ha. done.
    + split; [|done]. destruct (RawStateTable.items_ t !! key s) as [[a p]|] eqn:E; [|by rewrite overlay_base].
      destruct (Ht _ _ _ E) as (s' & Hp & Hk & _). exfalso. apply (Hn (a, s')); [|done].
      apply Hin1. exists p. by rewrite Hk.
  - intros [Hs Hf]. destruct (RawStateTable.items_ t !! key s) as [[a p]|] eqn:E.
    + rewrite (overlay_item _ _ _ _ _ _ _ E) in Hs. destruct (RawStateTable.isErase a) eqn:Ha; [done|]. left. exists a. by eauto.
    + rewrite overlay_base in Hs by done. right. split; [done|]. intros [a s'] (p & Hi & _)%Hin1. simpl. congruence.
Qed.

End RawTable.

(** ** Changes of a raw table *)

Section RawChanges.
Context {D : Type}.
Implicit Types (h : Heap D) (m : gmap Z (SLE D)) (t : RawStateTable.RawStateTable).

Lemma raw_overlay_item h t m (s : SLE D) : raw_ok h t m ->
  match RawStateTable.items_ t !! key s with
  | Some (RawStateTable.erase_, _) => raw_overlay h t m !! key s = None /\ is_Some (m !! key s)
  | Some (RawStateTable.insert_, _) => is_Some (raw_overlay h t m !! key s) /\ m !! key s = None
  | Some (RawStateTable.replace_, _) => is_Some (raw_overlay h t m !! key s) /\ is_Some (m !! key s)
  | None => raw_overlay h t m !! key s = m !! key s
  end.
Proof.
  intros Ht. unfold raw_overlay. destruct (RawStateTable.items_ t !! key s) as [[a p]|] eqn:E; [|by rewrite overlay_base].
  destruct (Ht _ _ _ E) as (s' & Hs' & _ & Hm). rewrite (overlay_item _ _ _ _ _ _ _ E). destruct a; simpl in *; rewrite ?Hs'; by eauto.
Qed.

Lemma raw_erase_spec h p s t m :
  raw_ok h t m -> cells h !! p = Some s -> is_Some (raw_overlay h t m !! key s) ->
  exists t', RawStateTable.erase h p t = Ret t' /\ raw_ok h t' m /\ raw_overlay h t' m = delete (key s) (raw_overlay h t m).
Proof.
  intros Ht Hp Hs. pose proof (raw_overlay_item h t m s Ht) as Hi. unfold RawStateTable.erase. rewrite (deref_Some _ _ _ Hp), Ret_bind.
  destruct (RawStateTable.items_ t !! key s) as [[[] p']|] eqn:E.
  - destruct Hi as [Hi _]. rewrite Hi in Hs. by destruct Hs.
  - eexists. split_and!; [done|by apply table_ok_drop|]. apply overlay_drop. apply Hi.
  - eexists. split_and!; [done|by eapply table_ok_set; [..|apply Hi]|]. by apply overlay_set_erase.
  - rewrite Hi in Hs. eexists. split_and!; [done|by eapply table_ok_set|]. by apply overlay_set_erase.
Qed.

Lemma raw_insert_spec h p s t m :
  raw_ok h t m -> cells h !! p = Some s -> raw_overlay h t m !! key s = None ->
  exists t', RawStateTable.insert h p t = Ret t' /\ raw_ok h t' m /\ raw_overlay h t' m = <[key s := s]> (raw_overlay h t m).
Proof.
  intros Ht Hp Hs. pose proof (raw_overlay_item h t m s Ht) as Hi. unfold RawStateTable.insert. rewrite (deref_Some _ _ _ Hp), Ret_bind.
  destruct (RawStateTable.items_ t !! key s) as [[[] p']|] eqn:E.
  - eexists. split_and!; [done|by eapply table_ok_set; [..|apply Hi]|]. by apply overlay_set.
  - destruct Hi as [Hi _]. rewrite Hs in Hi. by destruct Hi.
  - destruct Hi as [Hi _]. rewrite Hs in Hi. by destruct Hi.
  - rewrite Hi in Hs. eexists. split_and!; [done|by eapply table_ok_set|]. by apply overlay_set.
Qed.

Lemma raw_replace_spec h p s t m :
  raw_ok h t m -> cells h !! p = Some s -> is_Some (raw_overlay h t m !! key s) ->
  exists t', RawStateTable.replace h p t = Ret t' /\ raw_ok h t' m /\ raw_overlay h t' m = <[key s := s]> (raw_overlay h t m).
Proof.
  intros Ht Hp Hs. pose proof (raw_overlay_item h t m s Ht) as Hi. unfold RawStateTable.replace. rewrite (deref_Some _ _ _ Hp), Ret_bind.
  destruct (RawStateTable.items_ t !! key s) as [[[] p']|] eqn:E.
  - destruct Hi as [Hi _]. rewrite Hi in Hs. by destruct Hs.
  - eexists. split_and!; [done|by eapply table_ok_set; [..|apply Hi]|]. by apply overlay_set.
  - eexists. split_and!; [done|by eapply table_ok_set; [..|apply Hi]|]. by apply overlay_set.
  - rewrite Hi in Hs. eexists. split_and!; [done|by eapply table_ok_set|]. by apply overlay_set.
Qed.

End RawChanges.

(** ** OpenView *)

Definition open_abs {D V} (abs : Heap D -> V -> gmap Z (SLE D)) (h : Heap D) (v : OpenView V) : gmap Z (SLE D) :=
  raw_overlay h (table_ v) (abs h (base_ v)).

Definition open_ok {D V} (abs : Heap D -> V -> gmap Z (SLE D)) (ok : Heap D -> V -> Prop) (h : Heap D) (v : OpenView V) : Prop :=
  ok h (base_ v) /\ raw_ok h (table_ v) (abs h (base_ v)).

Definition open_refs {V} (refs : V -> Z -> Prop) (v : OpenView V) (p : Z) : Prop :=
  refs (base_ v) p \/ items_refs (RawStateTable.items_ (table_ v)) p.

Section OpenViews.
Context {D V : Type} `{ReadView D V} (abs : Heap D -> V -> gmap Z (SLE D)) (ok : Heap D -> V -> Prop) (refs : V -> Z -> Prop).
Context `{!ViewLaws D V abs ok refs}.

#[export] Instance OpenViewLaws : ViewLaws D (OpenView V) (open_abs abs) (open_ok abs ok) (open_refs refs).
Proof.
  split; intros h v.
  - intros k s [Hok Ht]. apply overlay_keys with (isInsert := rawInserts); [done|]. intros k' s'. by apply law_keys.
  - intros k [Hok Ht] Hk. by apply (readOver_spec _ abs ok refs).
  - intros k [Hok Ht]. by apply (existsOver_true _ abs ok refs).
  - intros k [Hok Ht]. by apply (existsOver_spec _ abs ok refs).
  - intros key_ last [Hok Ht]. by apply (succOver_spec _ rawInserts abs ok refs).
  - intros p [Hok Ht] [Hp|(k & a & Hk)]; [by eapply law_refs|]. destruct (Ht _ _ _ Hk) as (s & Hs & _). by eauto.
  - rename v into h', h into h0. intros v [Hok Ht] Ha.
    destruct (law_agree h0 h' (base_ v)) as [Hok' Habs]; [done|intros p Hp; apply Ha; by left|].
    assert (Hi : agree (items_refs (RawStateTable.items_ (table_ v))) h0 h') by (intros p Hp; apply Ha; by right).
    unfold open_ok, open_abs. rewrite Habs. split_and!; [done|by eapply table_ok_agree|by apply overlay_agree].
Qed.

#[export] Instance OpenIterLaws `{!IterLaws D V abs ok} : IterLaws D (OpenView V) (open_abs abs) (open_ok abs ok).
Proof. split. intros h v from [Hok Ht]. by apply (slesIn_spec abs ok refs). Qed.

#[export] Instance OpenRawLaws : RawLaws D (OpenView V) (open_abs abs) (open_ok abs ok).
Proof.
  split.
  - intros h p s v [Hok Ht] Hp Hs. destruct (raw_erase_spec _ _ _ _ _ Ht Hp Hs) as (t' & E & Ht' & Ha).
    simpl. unfold with_table. rewrite E, Ret_bind. by eexists.
  - intros h p s v [Hok Ht] Hp Hs. destruct (raw_insert_spec _ _ _ _ _ Ht Hp Hs) as (t' & E & Ht' & Ha).
    simpl. unfold with_table. rewrite E, Ret_bind. by eexists.
  - intros h p s v [Hok Ht] Hp Hs. destruct (raw_replace_spec _ _ _ _ _ Ht Hp Hs) as (t' & E & Ht' & Ha).
    simpl. unfold with_table. rewrite E, Ret_bind. by eexists.
  - done.
Qed.

End OpenViews.

(** ** Changes through [ApplyViewBase], and applying tables

    [ApplyViewBase] over a lawful view is a lawful view and a lawful target of
    raw changes.  Applying a table to a lawful target gives the overlay of what
    the table changes; a ledger refuses a table that does not fit it.  The
    changes a client makes through pointers are changes of the view's map. *)

(** ** ApplyStateTable *)

#[export] Instance Action_eq_dec : EqDecision ApplyStateTable.Action.
Proof. solve_decision. Defined.

Definition appInserts (a : ApplyStateTable.Action) : bool := match a with ApplyStateTable.insert_ => true | _ => false end.

Definition app_ok {D} (h : Heap D) (t : ApplyStateTable.ApplyStateTable) (m : gmap Z (SLE D)) : Prop := table_ok appInserts h (ApplyStateTable.items_ t) m.

Definition app_overlay {D} (h : Heap D) (t : ApplyStateTable.ApplyStateTable) (m : gmap Z (SLE D)) : gmap Z (SLE D) :=
  overlay ApplyStateTable.isErase h (ApplyStateTable.items_ t) m.

Section AppChanges.
Context {D : Type}.
Implicit Types (h : Heap D) (m : gmap Z (SLE D)) (t : ApplyStateTable.ApplyStateTable).

Lemma app_overlay_item h t m k : app_ok h t m ->
  match ApplyStateTable.items_ t !! k with
  | Some (ApplyStateTable.erase_, _) => app_overlay h t m !! k = None /\ is_Some (m !! k)
  | Some (ApplyStateTable.insert_, p) => app_overlay h t m !! k = cells h !! p /\ is_Some (cells h !! p) /\ m !! k = None
  | Some (_, p) => app_overlay h t m !! k = cells h !! p /\ is_Some (cells h !! p) /\ is_Some (m !! k)
  | None => app_overlay h t m !! k = m !! k
  end.
Proof.
  intros Ht. unfold app_overlay. destruct (ApplyStateTable.items_ t !! k) as [[a p]|] eqn:E; [|by rewrite overlay_base].
  destruct (Ht _ _ _ E) as (s' & Hs' & _ & Hm). rewrite (overlay_item _ _ _ _ _ _ _ E). destruct a; simpl in *; rewrite ?Hs'; by eauto.
Qed.

Lemma app_rawErase_spec h p s t m :
  app_ok h t m -> cells h !! p = Some s -> is_Some (app_overlay h t m !! key s) ->
  exists t', ApplyStateTable.rawEraseIn h p t = Ret t' /\ app_ok h t' m /\ app_overlay h t' m = delete (key s) (app_overlay h t m).
Proof.
  intros Ht Hp Hs. pose proof (app_overlay_item h t m (key s) Ht) as Hi.
  unfold ApplyStateTable.rawEraseIn. rewrite (deref_Some _ _ _ Hp), Ret_bind.
  destruct (ApplyStateTable.items_ t !! key s) as [[[] p']|] eqn:E.
  - eexists. split_and!; [done|by eapply table_ok_set; [..|apply Hi]|]. by apply overlay_set_erase.
  - destruct Hi as [Hi _]. rewrite Hi in Hs. by destruct Hs.
  - eexists. split_and!; [done|by apply table_ok_drop|]. apply overlay_drop. apply Hi.
  - eexists. split_and!; [done|by eapply table_ok_set; [..|apply Hi]|]. by apply overlay_set_erase.
  - rewrite Hi in Hs. eexists. split_and!; [done|by eapply table_ok_set|]. by apply overlay_set_erase.
Qed.

Lemma app_insert_spec h p s t m :
  app_ok h t m -> cells h !! p = Some s -> app_overlay h t m !! key s = None ->
  exists t', ApplyStateTable.insert h p t = Ret t' /\ app_ok h t' m /\ app_overlay h t' m = <[key s := s]> (app_overlay h t m) /\
    (exists a, ApplyStateTable.items_ t' = <[key s := (a, p)]> (ApplyStateTable.items_ t) /\ a <> ApplyStateTable.cache_).
Proof.
  intros Ht Hp Hs. pose proof (app_overlay_item h t m (key s) Ht) as Hi.
  unfold ApplyStateTable.insert. rewrite (deref_Some _ _ _ Hp), Ret_bind.
  destruct (ApplyStateTable.items_ t !! key s) as [[[] p']|] eqn:E.
  2: { eexists. split_and!; [done|by eapply table_ok_set; [..|apply Hi]|by apply overlay_set|by eexists]. }
  1-3: destruct Hi as (Hi & [x Hx] & _); congruence.
  rewrite Hi in Hs. eexists. split_and!; [done|by eapply table_ok_set|by apply overlay_set|by eexists].
Qed.

Lemma app_replace_spec h p s t m :
  app_ok h t m -> cells h !! p = Some s -> is_Some (app_overlay h t m !! key s) ->
  exists t', ApplyStateTable.replace h p t = Ret t' /\ app_ok h t' m /\ app_overlay h t' m = <[key s := s]> (app_overlay h t m).
Proof.
  intros Ht Hp Hs. pose proof (app_overlay_item h t m (key s) Ht) as Hi.
  unfold ApplyStateTable.replace. rewrite (deref_Some _ _ _ Hp), Ret_bind.
  destruct (ApplyStateTable.items_ t !! key s) as [[[] p']|] eqn:E.
  2: { destruct Hi as [Hi _]. rewrite Hi in Hs. by destruct Hs. }
  1-3: eexists; split_and!; [done|by eapply table_ok_set; [..|apply Hi]|]; by apply overlay_set.
  rewrite Hi in Hs. eexists. split_and!; [done|by eapply table_ok_set|]. by apply overlay_set.
Qed.

(** [erase] and [update], with the pointer the table has. *)
Definition held t (k p : Z) : Prop := exists a, ApplyStateTable.items_ t !! k = Some (a, p) /\ ApplyStateTable.isErase a = false.

Lemma app_erase_spec h p s t m :
  app_ok h t m -> cells h !! p = Some s -> held t (key s) p ->
  exists t', ApplyStateTable.erase h p t = Ret t' /\ app_ok h t' m /\ app_overlay h t' m = delete (key s) (app_overlay h t m) /\
    (ApplyStateTable.items_ t' = delete (key s) (ApplyStateTable.items_ t) \/ ApplyStateTable.items_ t' = <[key s := (ApplyStateTable.erase_, p)]> (ApplyStateTable.items_ t)).
Proof.
  intros Ht Hp (a & E & Ha). pose proof (app_overlay_item h t m (key s) Ht) as Hi. rewrite E in Hi.
  unfold ApplyStateTable.erase. rewrite (deref_Some _ _ _ Hp), Ret_bind, E, Z.eqb_refl. simpl. destruct a; [|done|..].
  - eexists. split_and!; [done|by eapply table_ok_set; [..|apply Hi]|by apply overlay_set_erase|by right].
  - eexists. split_and!; [done|by apply table_ok_drop|apply overlay_drop, Hi|by left].
  - eexists. split_and!; [done|by eapply table_ok_set; [..|apply Hi]|by apply overlay_set_erase|by right].
Qed.

Lemma app_update_spec h p s t m :
  app_ok h t m -> cells h !! p = Some s -> held t (key s) p ->
  exists t', ApplyStateTable.update h p t = Ret t' /\ app_ok h t' m /\ app_overlay h t' m = app_overlay h t m /\
    (exists a, ApplyStateTable.items_ t' = <[key s := (a, p)]> (ApplyStateTable.items_ t) /\ a <> ApplyStateTable.cache_).
Proof.
  intros Ht Hp (a & E & Ha). pose proof (app_overlay_item h t m (key s) Ht) as Hi. rewrite E in Hi.
  unfold ApplyStateTable.update. rewrite (deref_Some _ _ _ Hp), Ret_bind, E, Z.eqb_refl. simpl. destruct a; [|done|..].
  - eexists. split_and!; [done|by eapply table_ok_set; [..|apply Hi]| |].
    + unfold app_overlay. simpl. rewrite (overlay_set _ _ _ _ _ _ p s); [|done..]. apply insert_id.
      rewrite (overlay_item _ _ _ _ _ _ _ E). done.
    + by eexists.
  - exists t. split_and!; [done..|]. eexists. by rewrite (insert_id _ _ _ E).
  - exists t. split_and!; [done..|]. eexists. by rewrite (insert_id _ _ _ E).
Qed.

End AppChanges.

(** ** ApplyViewBase *)

Definition apply_abs {D V} (abs : Heap D -> V -> gmap Z (SLE D)) (h : Heap D) (v : ApplyViewBase V) : gmap Z (SLE D) :=
  app_overlay h (avTable v) (abs h (avBase v)).

Definition apply_ok {D V} (abs : Heap D -> V -> gmap Z (SLE D)) (ok : Heap D -> V -> Prop) (h : Heap D) (v : ApplyViewBase V) : Prop :=
  ok h (avBase v) /\ app_ok h (avTable v) (abs h (avBase v)).

Definition apply_refs {V} (refs : V -> Z -> Prop) (v : ApplyViewBase V) (p : Z) : Prop :=
  refs (avBase v) p \/ items_refs (ApplyStateTable.items_ (avTable v)) p.

Section ApplyViews.
Context {D V : Type} `{ReadView D V} (abs : Heap D -> V -> gmap Z (SLE D)) (ok : Heap D -> V -> Prop) (refs : V -> Z -> Prop).
Context `{!ViewLaws D V abs ok refs}.

#[export] Instance ApplyViewLaws : ViewLaws D (ApplyViewBase V) (apply_abs abs) (apply_ok abs ok) (apply_refs refs).
Proof.
  split; intros h v.
  - intros k s [Hok Ht]. apply overlay_keys with (isInsert := appInserts); [done|]. intros k' s'. by apply law_keys.
  - intros k [Hok Ht] Hk. by apply (readOver_spec _ abs ok refs).
  - intros k [Hok Ht]. by apply (existsOver_true _ abs ok refs).
  - intros k [Hok Ht]. by apply (existsOver_spec _ abs ok refs).
  - intros key_ last [Hok Ht]. by apply (succOver_spec _ appInserts abs ok refs).
  - intros p [Hok Ht] [Hp|(k & a & Hk)]; [by eapply law_refs|]. destruct (Ht _ _ _ Hk) as (s & Hs & _). by eauto.
  - rename v into h', h into h0. intros v [Hok Ht] Ha.
    destruct (law_agree h0 h' (avBase v)) as [Hok' Habs]; [done|intros p Hp; apply Ha; by left|].
    assert (Hi : agree (items_refs (ApplyStateTable.items_ (avTable v))) h0 h') by (intros p Hp; apply Ha; by right).
    unfold apply_ok, apply_abs. rewrite Habs. split_and!; [done|by eapply table_ok_agree|by apply overlay_agree].
Qed.

#[export] Instance ApplyRawLaws : RawLaws D (ApplyViewBase V) (apply_abs abs) (apply_ok abs ok).
Proof.
  split.
  - intros h p s v [Hok Ht] Hp Hs. destruct (app_rawErase_spec _ _ _ _ _ Ht Hp Hs) as (t' & E & Ht' & Ha).
    simpl. unfold with_items. rewrite E, Ret_bind. by eexists.
  - intros h p s v [Hok Ht] Hp Hs. destruct (app_insert_spec _ _ _ _ _ Ht Hp Hs) as (t' & E & Ht' & Ha & _).
    simpl. unfold with_items. rewrite E, Ret_bind. by eexists.
  - intros h p s v [Hok Ht] Hp Hs. destruct (app_replace_spec _ _ _ _ _ Ht Hp Hs) as (t' & E & Ht' & Ha).
    simpl. unfold with_items. rewrite E, Ret_bind. by eexists.
  - done.
Qed.

End ApplyViews.

(** ** Applying a table *)

Section Commit.
Context {D T A : Type} (rabs : Heap D -> T -> gmap Z (SLE D)) (rok : Heap D -> T -> Prop).
Context (isErase isInsert : A -> bool) (f : A * Z -> T -> outcome T) (h : Heap D).

(** What [f] does to an item of a table that fits. *)
Definition item_law (a : A) : Prop := forall p s t,
  rok h t -> cells h !! p = Some s ->
  (if isInsert a then rabs h t !! key s = None else is_Some (rabs h t !! key s)) ->
  exists t', f (a, p) t = Ret t' /\ rok h t' /\
    rabs h t' = if isErase a then delete (key s) (rabs h t) else <[key s := s]> (rabs h t).

Lemma applyItems_spec (l : list (Z * (A * Z))) t :
  NoDup l.*1 -> (forall k a p, (k, (a, p)) ∈ l -> item_law a) -> rok h t ->
  table_ok isInsert h (list_to_map l) (rabs h t) ->
  exists t', applyItems f l t = Ret t' /\ rok h t' /\ rabs h t' = overlay isErase h (list_to_map l) (rabs h t).
Proof.
  revert t. induction l as [|[k [a p]] l IH]; intros t Hnd Hf Hok Ht.
  - exists t. split_and!; [done..|]. symmetry. apply overlay_empty.
  - rewrite fmap_cons in Hnd. apply NoDup_cons in Hnd as [Hk Hnd]. simpl in Hk.
    apply (not_elem_of_list_to_map_1 (M := gmap Z)) in Hk.
    assert (Hl : forall k' x, (list_to_map l : gmap Z (A * Z)) !! k' = Some x -> k <> k') by congruence.
    destruct (Ht k a p) as (s & Hp & <- & Hm); [apply lookup_insert_eq|].
    destruct (Hf (key s) a p ltac:(by left) p s t Hok Hp Hm) as (t1 & E & Hok1 & Habs).
    assert (Hsame : forall k', key s <> k' -> rabs h t1 !! k' = rabs h t !! k').
    { intros k' Hne. rewrite Habs. destruct (isErase a); [by rewrite lookup_delete_ne|by rewrite lookup_insert_ne]. }
    destruct (IH t1) as (t' & E' & Hok' & Habs'); [done|intros k' a' p' Hin; apply (Hf k' a' p'); by right|done| |].
    { intros k' a' p' Hk'. pose proof (Hl _ _ Hk') as Hne. rewrite Hsame by done. apply Ht. simpl. by rewrite lookup_insert_ne. }
    exists t'. split_and!; [|done|].
    + simpl. by rewrite E, Ret_bind.
    + rewrite Habs'. apply map_eq. intros k'. destruct (decide (key s = k')) as [<-|Hne].
      * rewrite overlay_base by done. rewrite (overlay_item _ _ _ _ _ a p) by apply lookup_insert_eq.
        rewrite Habs. destruct (isErase a); [by rewrite lookup_delete_eq|by rewrite lookup_insert_eq].
      * unfold overlay. rewrite !lookup_merge, Hsame by done. simpl. by rewrite lookup_insert_ne.
Qed.
End Commit.

Lemma inOrder_NoDup {A} (m : gmap Z A) : NoDup (inOrder m).*1.
Proof. unfold inOrder. rewrite merge_sort_Permutation. apply NoDup_fst_map_to_list. Qed.

Lemma list_to_map_inOrder {A} (m : gmap Z A) : list_to_map (inOrder m) = m.
Proof.
  rewrite <- (list_to_map_to_list m) at 2. apply list_to_map_proper; [apply inOrder_NoDup|]. apply merge_sort_Permutation.
Qed.

(** What an [ApplyStateTable] changes: all items but the cached ones. *)
Definition changed (x : Z * (ApplyStateTable.Action * Z)) : bool := match x.2.1 with ApplyStateTable.cache_ => false | _ => true end.

Definition changesOf (t : ApplyStateTable.ApplyStateTable) : gmap Z (ApplyStateTable.Action * Z) :=
  list_to_map (List.filter changed (inOrder (ApplyStateTable.items_ t))).

Lemma filter_NoDup_fst {A} (f : Z * A -> bool) l : NoDup l.*1 -> NoDup (List.filter f l).*1.
Proof.
  induction l as [|x l IH]; [done|]. rewrite fmap_cons. intros [Hx Hn]%NoDup_cons. simpl.
  destruct (f x); [|by apply IH]. rewrite fmap_cons. constructor; [|by apply IH].
  intros (y & E & Hy)%list_elem_of_fmap. apply Hx. rewrite E. apply list_elem_of_fmap_2.
  rewrite list_elem_of_In, List.filter_In, <- list_elem_of_In in Hy. apply Hy.
Qed.

Lemma changesOf_lookup t k a p :
  changesOf t !! k = Some (a, p) <-> ApplyStateTable.items_ t !! k = Some (a, p) /\ a <> ApplyStateTable.cache_.
Proof.
  unfold changesOf. rewrite <- elem_of_list_to_map by (apply filter_NoDup_fst, inOrder_NoDup).
  rewrite list_elem_of_In, List.filter_In, <- list_elem_of_In, elem_of_inOrder. unfold changed. simpl.
  destruct a; naive_solver.
Qed.

Lemma applyItems_changed {D T} `{RawView D T} (h : Heap D) l (t : T) :
  applyItems (ApplyStateTable.applyItem h) l t = applyItems (ApplyStateTable.applyItem h) (List.filter changed l) t.
Proof.
  revert t. induction l as [|[k [a p]] l IH]; intros t; [done|].
  destruct a; cbn [List.filter changed fst snd]; [apply IH|..]; cbn [applyItems fst snd];
    destruct (ApplyStateTable.applyItem h _ t) as [|t']; [done|apply IH|done|apply IH|done|apply IH].
Qed.

Section Applying.
Context {D T : Type} `{RawView D T} (rabs : Heap D -> T -> gmap Z (SLE D)) (rok : Heap D -> T -> Prop) `{!RawLaws D T rabs rok}.

Lemma raw_apply_spec (h : Heap D) t to :
  rok h to -> raw_ok h t (rabs h to) ->
  exists to', RawStateTable.apply h t to = Ret to' /\ rok h to' /\ rabs h to' = raw_overlay h t (rabs h to).
Proof.
  intros Hok Ht. unfold RawStateTable.apply, raw_overlay.
  destruct (law_rawDestroyXRP h (RawStateTable.dropsDestroyed_ t) to Hok) as [Hok' E]. unfold raw_ok in Ht. rewrite <- E in Ht |- *.
  pose proof (applyItems_spec rabs rok RawStateTable.isErase rawInserts (RawStateTable.applyItem h) h (inOrder (RawStateTable.items_ t))) as Hspec.
  rewrite list_to_map_inOrder in Hspec. apply Hspec; [apply inOrder_NoDup| |done|done].
  intros k a p _ q s x Hx Hq. destruct a; simpl; intros Hs.
  - by apply law_rawErase.
  - by apply law_rawInsert.
  - by apply law_rawReplace.
Qed.

Lemma app_apply_spec (h : Heap D) t to :
  rok h to -> table_ok appInserts h (changesOf t) (rabs h to) ->
  exists to', ApplyStateTable.apply h t to = Ret to' /\ rok h to' /\ rabs h to' = overlay ApplyStateTable.isErase h (changesOf t) (rabs h to).
Proof.
  intros Hok Ht. unfold ApplyStateTable.apply.
  destruct (law_rawDestroyXRP h (ApplyStateTable.dropsDestroyed_ t) to Hok) as [Hok' E]. rewrite <- E in Ht |- *.
  rewrite applyItems_changed.
  apply (applyItems_spec rabs rok ApplyStateTable.isErase appInserts); [apply filter_NoDup_fst, inOrder_NoDup| |done|done].
  intros k a p Hin q s x Hx Hq. rewrite list_elem_of_In, List.filter_In in Hin. destruct Hin as [_ Hc].
  destruct a; simpl; intros Hs; [done|..].
  - by apply law_rawErase.
  - by apply law_rawInsert.
  - by apply law_rawReplace.
Qed.

(** Entries only looked at are as in the base. *)
Definition clean (h : Heap D) (t : ApplyStateTable.ApplyStateTable) (m : gmap Z (SLE D)) : Prop :=
  forall k p, ApplyStateTable.items_ t !! k = Some (ApplyStateTable.cache_, p) -> cells h !! p = m !! k.

Lemma changesOf_ok (h : Heap D) t m : app_ok h t m -> table_ok appInserts h (changesOf t) m.
Proof using. intros Ht k a p [Hk _]%changesOf_lookup. by apply Ht. Qed.

Lemma clean_overlay (h : Heap D) t m : clean h t m -> overlay ApplyStateTable.isErase h (changesOf t) m = app_overlay h t m.
Proof using.
  intros Hc. apply map_eq. intros k. unfold app_overlay. destruct (ApplyStateTable.items_ t !! k) as [[a p]|] eqn:E.
  - rewrite (overlay_item _ _ _ _ _ _ _ E). destruct (decide (a = ApplyStateTable.cache_)) as [->|Ha].
    + simpl. rewrite overlay_base; [by rewrite (Hc _ _ E)|].
      destruct (changesOf t !! k) as [[a' p']|] eqn:E'; [|done]. apply changesOf_lookup in E' as [E' Ha']. congruence.
    + by rewrite (overlay_item _ _ _ _ _ a p) by by apply changesOf_lookup.
  - rewrite !overlay_base; [done|done|].
    destruct (changesOf t !! k) as [[a' p']|] eqn:E'; [|done]. apply changesOf_lookup in E' as [E' Ha']. congruence.
Qed.

End Applying.
