(* ===== verification/LedgerViewsProperties.v ===== *)
(** * Correctness of the views of a ledger

    The properties of [OpenView], [ApplyViewBase] and [Sandbox], with the
    program of a client that changes entries through pointers. *)

From stdpp Require Import strings sorting.
From S2P Require Import Prelude Outcome LedgerViews RawStateTable ApplyStateTable LedgerViewsFacts LedgerTables.

(** ** A client of an [ApplyView]

    What transactors do: look at an entry, change the entry a pointer points to
    and report the change, insert an entry that does not exist, remove one. *)

Inductive clientOp (D : Type) :=
  | Look (k : Keylet)
  | Change (k : Keylet) (d : D)
  | Insert (s : SLE D)
  | Remove (k : Keylet).
Arguments Look {D}.
Arguments Change {D}.
Arguments Insert {D}.
Arguments Remove {D}.

Section Client.
Context {D V : Type} `{ReadView D V}.

Definition clientStep (op : clientOp D) (h : Heap D) (v : ApplyViewBase V) : outcome (Heap D * ApplyViewBase V) :=
  match op with
  | Look k => let '(_, h, v) := viewPeek k h v in Ret (h, v)
  | Change k d =>
      let '(p, h, v) := viewPeek k h v in
      match p with
      | Some p => let h := write p d h in viewUpdate h p v ≫= fun v => Ret (h, v)
      | None => Ret (h, v)
      end
  | Insert s =>
      if exists_ h v (unchecked (key s)) then Ret (h, v)
      else let '(p, h) := allocate s h in viewInsert h p v ≫= fun v => Ret (h, v)
  | Remove k =>
      let '(p, h, v) := viewPeek k h v in
      match p with
      | Some p => viewErase h p v ≫= fun v => Ret (h, v)
      | None => Ret (h, v)
      end
  end.

Fixpoint clientRun (ops : list (clientOp D)) (h : Heap D) (v : ApplyViewBase V) : outcome (Heap D * ApplyViewBase V) :=
  match ops with
  | [] => Ret (h, v)
  | op :: ops => clientStep op h v ≫= fun '(h, v) => clientRun ops h v
  end.

End Client.

(** The same on a map of entries. *)
Definition withData {D} (s : SLE D) (d : D) : SLE D := mkEntry (key s) (getType s) d.

Definition mapStep {D} (m : gmap Z (SLE D)) (op : clientOp D) : gmap Z (SLE D) :=
  match op with
  | Look k => m
  | Change k d => match checked k (m !! k_key k) with Some s => <[k_key k := withData s d]> m | None => m end
  | Insert s => match m !! key s with Some _ => m | None => <[key s := s]> m end
  | Remove k => match checked k (m !! k_key k) with Some _ => delete (k_key k) m | None => m end
  end.

(** Keys are not zero. *)
Definition op_ok {D} (op : clientOp D) : Prop :=
  match op with Look k | Change k _ | Remove k => k_key k <> 0 | Insert _ => True end.

(** Pointers are allocated in order. *)
Definition heap_ok {D} (h : Heap D) : Prop := forall p, is_Some (cells h !! p) -> p < nextPtr h.

Section ClientFacts.
Context {D V : Type} `{ReadView D V} (abs : Heap D -> V -> gmap Z (SLE D)) (ok : Heap D -> V -> Prop) (refs : V -> Z -> Prop).
Context `{!ViewLaws D V abs ok refs}.
Implicit Types (h : Heap D) (v : ApplyViewBase V).

(** The invariant of a client: the view is lawful, its pointers are its own,
    and what it changed it reported. *)
Record client_ok h v : Prop := {
  co_ok : apply_ok abs ok h v;
  co_heap : heap_ok h;
  co_own : forall p, items_refs (ApplyStateTable.items_ (avTable v)) p -> ~ refs (avBase v) p;
  co_clean : clean h (avTable v) (abs h (avBase v));
}.

Lemma allocate_agree h s (P : Z -> Prop) : heap_ok h -> (forall p, P p -> is_Some (cells h !! p)) -> agree P h (allocate s h).2.
Proof using.
  intros Hh HP p Hp. simpl. rewrite lookup_insert_ne; [done|]. pose proof (Hh p (HP p Hp)). lia.
Qed.

Lemma allocate_heap_ok h s : heap_ok h -> heap_ok (allocate s h).2.
Proof using.
  intros Hh p. simpl. intros [x [[<- _]|[_ Hx]]%lookup_insert_Some]; [lia|]. specialize (Hh p ltac:(by eauto)). lia.
Qed.

(** Allocation does not change what a view shows. *)
Lemma client_ok_allocate h v s : client_ok h v ->
  client_ok (allocate s h).2 v /\ apply_abs abs (allocate s h).2 v = apply_abs abs h v /\
  abs (allocate s h).2 (avBase v) = abs h (avBase v).
Proof.
  intros [Hok Hh Hown Hc].
  assert (Hag : agree (apply_refs refs v) h (allocate s h).2).
  { apply allocate_agree; [done|]. intros p. by eapply law_refs. }
  destruct (law_agree _ _ _ Hok Hag) as [Hok' Habs].
  assert (Hb : abs (allocate s h).2 (avBase v) = abs h (avBase v)).
  { eapply law_agree; [apply Hok|]. intros p Hp. apply Hag. by left. }
  split_and!; [|done|done]. split; [done|by apply allocate_heap_ok|done|].
  intros k p Hk. rewrite Hb, <- (Hc _ _ Hk). apply Hag. right. by eexists _, _.
Qed.

Lemma checked_Some k (o : option (SLE D)) s : checked k o = Some s -> o = Some s.
Proof using. destruct o as [s'|]; simpl; [|done]. by destruct (check k s'). Qed.

(** The first look at an entry keeps a copy. *)
Lemma client_ok_cache h v s : client_ok h v -> ApplyStateTable.items_ (avTable v) !! key s = None -> abs h (avBase v) !! key s = Some s ->
  let h' := (allocate s h).2 in
  let v' := mkApplyView (avBase v) (ApplyStateTable.setItem (key s) (ApplyStateTable.cache_, nextPtr h) (avTable v)) in
  client_ok h' v' /\ apply_abs abs h' v' = apply_abs abs h v /\ abs h' (avBase v) = abs h (avBase v).
Proof.
  intros Hco E Hs h' v'. destruct (client_ok_allocate h v s Hco) as ([[Hok Ht] Hh Hown Hc] & Habs & Hb).
  fold h' in Hok, Ht, Hh, Hc, Habs, Hb. assert (Hp : cells h' !! nextPtr h = Some s) by apply lookup_insert_eq. split_and!; [..|done].
  - split; [split; [done|]|done| |].
    + eapply table_ok_set; [done|done|done|]. simpl. rewrite Hb. by eauto.
    + intros p. unfold items_refs. simpl. intros (k & a & [[_ [= _ <-]]|[_ Hk]]%lookup_insert_Some); [|apply Hown; by eexists _, _].
      intros Hr. pose proof (law_refs _ _ _ (proj1 (co_ok _ _ Hco)) Hr) as Hal. pose proof (co_heap _ _ Hco _ Hal). lia.
    + intros k p. simpl. intros [[<- [= <-]]|[_ Hk]]%lookup_insert_Some; [|by apply Hc]. simpl. by rewrite Hb, Hs.
  - rewrite <- Habs. unfold apply_abs, app_overlay. simpl. rewrite (overlay_set _ _ _ _ _ _ _ s); [|done..].
    apply insert_id. rewrite overlay_base by done. by rewrite Hb.
Qed.

Lemma viewPeek_spec k h v : client_ok h v -> k_key k <> 0 ->
  let '(r, h', v') := viewPeek k h v in
  client_ok h' v' /\ apply_abs abs h' v' = apply_abs abs h v /\ avBase v' = avBase v /\ abs h' (avBase v) = abs h (avBase v) /\
  match r with
  | Some p => exists s, checked k (apply_abs abs h v !! k_key k) = Some s /\ key s = k_key k /\
      cells h' !! p = Some s /\ held (avTable v') (key s) p
  | None => checked k (apply_abs abs h v !! k_key k) = None
  end.
Proof.
  intros Hco Hk. pose proof (co_ok _ _ Hco) as [Hok Ht]. unfold viewPeek, ApplyStateTable.peek.
  pose proof (app_overlay_item h (avTable v) (abs h (avBase v)) (k_key k) Ht) as Hi. fold (apply_abs abs h v) in Hi.
  destruct v as [b t]. cbn [avBase avTable] in *.
  destruct (ApplyStateTable.items_ t !! k_key k) as [[a p]|] eqn:E.
  - destruct (ApplyStateTable.isErase a) eqn:Ha.
    { destruct a; try done. destruct Hi as [Hi _]. rewrite Hi. done. }
    assert (Hcell : apply_abs abs h (mkApplyView b t) !! k_key k = cells h !! p /\ is_Some (cells h !! p)) by (destruct a; naive_solver).
    clear Hi. destruct Hcell as [Hcell [s Hs]]. rewrite Hcell, Hs.
    assert (Hks : key s = k_key k) by (destruct (Ht _ _ _ E) as (s' & ? & ? & _); congruence).
    destruct a; [|done|..]; simpl; destruct (check k s); (split_and!; [done..|]); try done;
      (exists s; split_and!; [done|done|done|]; rewrite Hks; eexists; by split).
  - rewrite (law_read _ _ _ Hok Hk), Hi. destruct (checked k (abs h b !! k_key k)) as [s|] eqn:Ec; [|done].
    pose proof (checked_Some _ _ _ Ec) as Hs. pose proof (law_keys _ _ _ _ Hok Hs) as Hks. rewrite <- Hks in E, Hs.
    destruct (client_ok_cache h (mkApplyView b t) s Hco E Hs) as (Hco' & Habs' & Hb'). simpl.
    split_and!; [exact Hco'|exact Habs'|done|exact Hb'|]. exists s. split_and!; [done|done|apply lookup_insert_eq|]. eexists. split; [apply lookup_insert_eq|done].
Qed.

(** Writing through a pointer the table has. *)
Lemma write_spec h v p d s :
  client_ok h v -> cells h !! p = Some s -> held (avTable v) (key s) p ->
  apply_ok abs ok (write p d h) v /\ heap_ok (write p d h) /\ cells (write p d h) !! p = Some (withData s d) /\
  abs (write p d h) (avBase v) = abs h (avBase v) /\
  (forall k q, k <> key s -> ApplyStateTable.items_ (avTable v) !! k = Some (ApplyStateTable.cache_, q) -> cells (write p d h) !! q = abs h (avBase v) !! k) /\
  apply_abs abs (write p d h) v = <[key s := withData s d]> (apply_abs abs h v).
Proof.
  intros [[Hok Ht] Hh Hown Hc] Hp (a & Hi & Ha).
  assert (Hw : write p d h = mkHeap (<[p := withData s d]> (cells h)) (nextPtr h)) by (unfold write; by rewrite Hp).
  rewrite Hw. set (h' := mkHeap _ _).
  assert (Hne : forall k b q, ApplyStateTable.items_ (avTable v) !! k = Some (b, q) -> k <> key s -> cells h' !! q = cells h !! q).
  { intros k b q Hk Hks. simpl. rewrite lookup_insert_ne; [done|]. intros <-. destruct (Ht _ _ _ Hk) as (s' & ? & ? & _). congruence. }
  destruct (law_agree h h' (avBase v) Hok) as [Hok' Hb].
  { intros q Hq. simpl. rewrite lookup_insert_ne; [done|]. intros <-. apply (Hown p); [by eexists _, _|done]. }
  split_and!.
  - split; [done|]. rewrite Hb. intros k b q Hk. destruct (Ht _ _ _ Hk) as (s' & Hq & Hks & Hm).
    destruct (decide (k = key s)) as [->|Hkn]; [|exists s'; rewrite (Hne _ _ _ Hk) by done; done].
    rewrite Hk in Hi. injection Hi as -> ->. exists (withData s d). split_and!; [apply lookup_insert_eq|done|done].
  - intros q. simpl. intros [x [[<- _]|[_ Hx]]%lookup_insert_Some]; apply Hh; by eauto.
  - apply lookup_insert_eq.
  - done.
  - intros k q Hks Hk. rewrite (Hne _ _ _ Hk) by done. by apply Hc.
  - apply map_eq. intros k. unfold apply_abs, app_overlay. rewrite Hb. destruct (decide (k = key s)) as [->|Hkn].
    + rewrite lookup_insert_eq, (overlay_item _ _ _ _ _ _ _ Hi), Ha. apply lookup_insert_eq.
    + rewrite lookup_insert_ne by done. destruct (ApplyStateTable.items_ (avTable v) !! k) as [[b q]|] eqn:E.
      * rewrite !(overlay_item _ _ _ _ _ _ _ E), (Hne _ _ _ E) by done. done.
      * by rewrite !overlay_base.
Qed.

(** A table with an item set that is not a cached one. *)
Lemma client_ok_set h b t k a p t' :
  ok h b -> heap_ok h -> (forall q, items_refs (ApplyStateTable.items_ t) q -> ~ refs b q) -> ~ refs b p ->
  (forall k' q, k' <> k -> ApplyStateTable.items_ t !! k' = Some (ApplyStateTable.cache_, q) -> cells h !! q = abs h b !! k') ->
  a <> ApplyStateTable.cache_ -> ApplyStateTable.items_ t' = <[k := (a, p)]> (ApplyStateTable.items_ t) -> app_ok h t' (abs h b) ->
  client_ok h (mkApplyView b t').
Proof using.
  intros Hok Hh Hown Hp Hc Ha Ht' Happ. split; [done|done|..]; simpl.
  - unfold items_refs. rewrite Ht'. intros q (k' & a' & [[_ [= _ <-]]|[_ Hk]]%lookup_insert_Some); [done|]. apply Hown. by eexists _, _.
  - intros k' q. simpl. rewrite Ht'. intros [[_ [= ? _]]|[Hne Hk]]%lookup_insert_Some; [done|by apply Hc].
Qed.

Lemma update_client_ok h v p d s :
  client_ok h v -> cells h !! p = Some s -> held (avTable v) (key s) p ->
  exists v', viewUpdate (write p d h) p v = Ret v' /\ client_ok (write p d h) v' /\ avBase v' = avBase v /\ abs (write p d h) (avBase v) = abs h (avBase v) /\
    apply_abs abs (write p d h) v' = <[key s := withData s d]> (apply_abs abs h v).
Proof.
  intros Hco Hp Hheld. destruct (write_spec h v p d s Hco Hp Hheld) as ([Hok Ht] & Hh & Hp' & Hb & Hc & Habs).
  destruct (app_update_spec _ p (withData s d) _ _ Ht Hp' Hheld) as (t' & E & Ht' & Ha' & a & Hit & Ha).
  exists (mkApplyView (avBase v) t'). split_and!.
  - unfold viewUpdate, with_items. by rewrite E, Ret_bind.
  - eapply client_ok_set; [done|done|apply Hco| |rewrite Hb; apply Hc|done|done|done].
    apply (co_own _ _ Hco). destruct Hheld as (a' & Hi & _). by eexists _, _.
  - done.
  - done.
  - unfold apply_abs at 1. simpl. rewrite Ha'. done.
Qed.

Lemma erase_client_ok h v p s :
  client_ok h v -> cells h !! p = Some s -> held (avTable v) (key s) p ->
  exists v', viewErase h p v = Ret v' /\ client_ok h v' /\ avBase v' = avBase v /\ apply_abs abs h v' = delete (key s) (apply_abs abs h v).
Proof.
  intros Hco Hp Hheld. destruct (co_ok _ _ Hco) as [Hok Ht].
  destruct (app_erase_spec _ p s _ _ Ht Hp Hheld) as (t' & E & Ht' & Ha' & Hit).
  exists (mkApplyView (avBase v) t'). split_and!; [|destruct Hit as [Hit|Hit]|done|done].
  - unfold viewErase, with_items. by rewrite E, Ret_bind.
  - split; [done|apply Hco| |]; simpl.
    + rewrite Hit. intros q (k & a & [_ Hk]%lookup_delete_Some). apply (co_own _ _ Hco). by eexists _, _.
    + intros k q. rewrite Hit. intros [_ Hk]%lookup_delete_Some. by apply (co_clean _ _ Hco).
  - apply (client_ok_set h _ (avTable v) (key s) ApplyStateTable.erase_ p); [done|apply Hco|apply Hco| | |done|done|done]; [|intros k q _; apply (co_clean _ _ Hco)].
    apply (co_own _ _ Hco). destruct Hheld as (a' & Hi & _). by eexists _, _.
Qed.

Lemma insert_client_ok h v s :
  client_ok h v -> apply_abs abs h v !! key s = None ->
  let h' := (allocate s h).2 in
  exists v', viewInsert h' (nextPtr h) v = Ret v' /\ client_ok h' v' /\ avBase v' = avBase v /\ abs h' (avBase v) = abs h (avBase v) /\
    apply_abs abs h' v' = <[key s := s]> (apply_abs abs h v).
Proof.
  intros Hco Hs h'. destruct (client_ok_allocate h v s Hco) as (Hco' & Habs & Hb). fold h' in Hco', Habs, Hb.
  destruct (co_ok _ _ Hco') as [Hok Ht]. assert (Hp : cells h' !! nextPtr h = Some s) by apply lookup_insert_eq.
  destruct (app_insert_spec h' (nextPtr h) s _ _ Ht Hp) as (t' & E & Ht' & Ha' & a & Hit & Ha); [by rewrite <- Habs in Hs|].
  exists (mkApplyView (avBase v) t'). split_and!.
  - unfold viewInsert, with_items. by rewrite E, Ret_bind.
  - eapply client_ok_set; [done|apply Hco'|apply Hco'| | |done|done|done]; [|intros k q _; apply (co_clean _ _ Hco')].
    intros Hr. pose proof (law_refs _ _ _ (proj1 (co_ok _ _ Hco)) Hr) as Hal. pose proof (co_heap _ _ Hco _ Hal). lia.
  - done.
  - done.
  - rewrite <- Habs. done.
Qed.

Lemma clientStep_spec op h v : client_ok h v -> op_ok op ->
  exists h' v', clientStep op h v = Ret (h', v') /\ client_ok h' v' /\ avBase v' = avBase v /\ abs h' (avBase v) = abs h (avBase v) /\
    apply_abs abs h' v' = mapStep (apply_abs abs h v) op.
Proof.
  intros Hco Hop. destruct op as [k|k d|s|k]; cbn [clientStep mapStep op_ok] in *.
  - pose proof (viewPeek_spec k h v Hco Hop) as Hpk. destruct (viewPeek k h v) as [[r h'] v'].
    destruct Hpk as (Hco' & Habs & Hbase & Hb & _). by exists h', v'.
  - pose proof (viewPeek_spec k h v Hco Hop) as Hpk. destruct (viewPeek k h v) as [[r h'] v'].
    destruct Hpk as (Hco' & Habs & Hbase & Hb & Hr). destruct r as [p|]; [|rewrite Hr; by eexists _, _].
    destruct Hr as (s & -> & Hks & Hp & Hheld).
    destruct (update_client_ok h' v' p d s Hco' Hp Hheld) as (v2 & -> & Hco2 & Hb2 & Hb3 & Habs2).
    eexists _, _. rewrite Ret_bind. split_and!; [done|done|congruence|congruence|]. rewrite Habs2, Habs, Hks. done.
  - assert (Hex : exists_ h v (unchecked (key s)) = bool_decide (is_Some (apply_abs abs h v !! key s))).
    { apply eq_true_iff_eq. rewrite bool_decide_eq_true. split; [exact (law_exists_true h v (unchecked (key s)) (co_ok _ _ Hco))|].
      intros [x Hx]. apply (law_exists h v (unchecked (key s)) (co_ok _ _ Hco)). simpl. rewrite Hx. by eexists. }
    rewrite Hex. destruct (apply_abs abs h v !! key s) as [x|] eqn:E.
    + rewrite bool_decide_eq_true_2 by done. by eexists _, _.
    + rewrite bool_decide_eq_false_2 by (by intros [? ?]).
      destruct (insert_client_ok h v s Hco E) as (v2 & E2 & Hco2 & Hb2 & Hb3 & Habs2). unfold allocate in *. simpl in *.
      rewrite E2, Ret_bind. eexists _, _. split_and!; [done|exact Hco2|done|exact Hb3|exact Habs2].
  - pose proof (viewPeek_spec k h v Hco Hop) as Hpk. destruct (viewPeek k h v) as [[r h'] v'].
    destruct Hpk as (Hco' & Habs & Hbase & Hb & Hr). destruct r as [p|]; [|rewrite Hr; by eexists _, _].
    destruct Hr as (s & -> & Hks & Hp & Hheld).
    destruct (erase_client_ok h' v' p s Hco' Hp Hheld) as (v2 & -> & Hco2 & Hb2 & Habs2).
    eexists _, _. rewrite Ret_bind. split_and!; [done|done|congruence|congruence|]. rewrite Habs2, Habs, Hks. done.
Qed.

Lemma clientRun_spec ops h v : client_ok h v -> Forall op_ok ops ->
  exists h' v', clientRun ops h v = Ret (h', v') /\ client_ok h' v' /\ avBase v' = avBase v /\ abs h' (avBase v) = abs h (avBase v) /\
    apply_abs abs h' v' = foldl mapStep (apply_abs abs h v) ops.
Proof.
  intros Hco Hops. revert h v Hco. induction Hops as [|op ops Hop Hops IH]; intros h v Hco; simpl.
  - by eexists _, _.
  - destruct (clientStep_spec op h v Hco Hop) as (h1 & v1 & -> & Hco1 & Hb1 & Ha1 & <-). rewrite Ret_bind.
    destruct (IH h1 v1 Hco1) as (h2 & v2 & E & Hco2 & Hb2 & Ha2 & Habs2). exists h2, v2. split_and!; [done|done|congruence|congruence|done].
Qed.

Lemma client_ok_new h b : ok h b -> heap_ok h -> client_ok h (newApplyView b) /\ apply_abs abs h (newApplyView b) = abs h b.
Proof using.
  intros Hok Hh. split; [|apply overlay_empty]. split; [|done|..]; simpl.
  - split; [done|apply table_ok_empty].
  - intros p (k & a & Hk). by rewrite lookup_empty in Hk.
  - intros k p Hk. simpl in Hk. by rewrite lookup_empty in Hk.
Qed.

End ClientFacts.

(** ** What a ledger refuses *)

(** An item that a ledger takes fits it, and leaves other keys as they are. *)
Lemma ledger_item {D} (h : Heap D) a p s (l l' : Ledger D) :
  a <> ApplyStateTable.cache_ -> cells h !! p = Some s -> ApplyStateTable.applyItem h (a, p) l = Ret l' ->
  (if appInserts a then stateMap_ l !! key s = None else is_Some (stateMap_ l !! key s)) /\
  (forall k, k <> key s -> stateMap_ l' !! k = stateMap_ l !! k).
Proof.
  intros Ha Hp. destruct a; [done|..]; simpl; rewrite (deref_Some _ _ _ Hp), Ret_bind;
    [unfold ledgerRawErase|unfold ledgerRawInsert|unfold ledgerRawReplace];
    destruct (stateMap_ l !! key s) eqn:E; intros [= <-]; (split; [by eauto|]); intros k Hk; simpl;
    first [by rewrite lookup_delete_ne|by rewrite lookup_insert_ne].
Qed.

Lemma ledger_items_fit {D} (h : Heap D) (l : list (Z * (ApplyStateTable.Action * Z))) (g g' : Ledger D) :
  NoDup l.*1 -> (forall k a p, (k, (a, p)) ∈ l -> a <> ApplyStateTable.cache_ /\ exists s, cells h !! p = Some s /\ key s = k) ->
  applyItems (ApplyStateTable.applyItem h) l g = Ret g' ->
  forall k a p, (k, (a, p)) ∈ l -> if appInserts a then stateMap_ g !! k = None else is_Some (stateMap_ g !! k).
Proof.
  revert g. induction l as [|[k0 [a0 p0]] l IH]; intros g Hnd Hl Happ k a p Hin; [by apply not_elem_of_nil in Hin|].
  rewrite fmap_cons in Hnd. apply NoDup_cons in Hnd as [Hk0 Hnd].
  destruct (Hl k0 a0 p0 ltac:(by left)) as (Ha0 & s & Hp0 & <-). cbn [applyItems snd] in Happ.
  destruct (ApplyStateTable.applyItem h (a0, p0) g) as [|g1] eqn:E; [done|]. rewrite Ret_bind in Happ.
  destruct (ledger_item h a0 p0 s g g1 Ha0 Hp0 E) as [Hfit Hsame].
  apply elem_of_cons in Hin as [[= -> -> ->]|Hin]; [done|].
  assert (Hne : k <> key s) by (intros ->; apply Hk0; by apply (list_elem_of_fmap_2 fst _ _ Hin)).
  rewrite <- (Hsame k Hne). apply (IH g1 Hnd) with (p := p); [|done|done]. intros k' a' p' Hin'. apply Hl. by right.
Qed.

(** The pointers of a table are valid, with the keys of their items. *)
Definition pointers_ok {D} (h : Heap D) (t : ApplyStateTable.ApplyStateTable) : Prop :=
  forall k a p, ApplyStateTable.items_ t !! k = Some (a, p) -> exists s, cells h !! p = Some s /\ key s = k.

(** A table that fits a map: new entries are not in it, others are. *)
Definition fits {D} (t : ApplyStateTable.ApplyStateTable) (m : gmap Z (SLE D)) : Prop :=
  forall k a p, ApplyStateTable.items_ t !! k = Some (a, p) ->
    match a with ApplyStateTable.cache_ => True | ApplyStateTable.insert_ => m !! k = None | ApplyStateTable.erase_ | ApplyStateTable.modify_ => is_Some (m !! k) end.

Lemma fits_changesOf {D} (h : Heap D) t m : pointers_ok h t -> fits t m <-> table_ok appInserts h (changesOf t) m.
Proof.
  intros Hp. split.
  - intros Hf k a p [Hk Ha]%changesOf_lookup. destruct (Hp _ _ _ Hk) as (s & Hs & Hks). exists s. split_and!; [done..|].
    specialize (Hf _ _ _ Hk). by destruct a.
  - intros Ht k a p Hk. destruct (decide (a = ApplyStateTable.cache_)) as [->|Ha]; [done|].
    destruct (Ht k a p) as (s & _ & _ & Hm); [by apply changesOf_lookup|]. by destruct a.
Qed.

(** What [apply] does to a ledger, for a table with valid pointers: it succeeds
    exactly when the table fits. *)
Lemma ledger_takes {D} (h : Heap D) t (l : Ledger D) :
  pointers_ok h t -> ledger_ok h l ->
  (fits t (stateMap_ l) -> exists l', ApplyStateTable.apply h t l = Ret l' /\ stateMap_ l' = overlay ApplyStateTable.isErase h (changesOf t) (stateMap_ l)) /\
  (forall l', ApplyStateTable.apply h t l = Ret l' -> fits t (stateMap_ l)).
Proof.
  intros Hp Hl. split.
  - rewrite fits_changesOf by done. intros Hf. destruct (app_apply_spec ledger_abs ledger_ok h t l Hl Hf) as (l' & E & _ & Ha). by exists l'.
  - intros l' E k a p Hk. unfold ApplyStateTable.apply in E. rewrite applyItems_changed in E.
    destruct (decide (a = ApplyStateTable.cache_)) as [->|Ha]; [done|].
    assert (Hfit : if appInserts a then stateMap_ l !! k = None else is_Some (stateMap_ l !! k)).
    { refine (ledger_items_fit h _ _ l' _ _ E k a p _).
      - apply filter_NoDup_fst, inOrder_NoDup.
      - intros k' a' p'. rewrite list_elem_of_In, List.filter_In, <- list_elem_of_In, elem_of_inOrder. intros [Hk' Hc].
        split; [by destruct a'|by eapply Hp].
      - rewrite list_elem_of_In, List.filter_In, <- list_elem_of_In, elem_of_inOrder. split; [done|]. by destruct a. }
    by destruct a.
Qed.

(** ** The transactions of an [OpenView] *)

Lemma insertTxs_spec {V D} `{ReadView D V} (l : list (Z * (Z * option Z))) (v : OpenView V) :
  NoDup l.*1 ->
  insertTxs l v =
    match List.find (fun x => bool_decide (is_Some (txs_ v !! x.1))) l with
    | Some _ => Throw "rawTxInsert: duplicate TX id"
    | None => Ret (mkOpenView (base_ v) (table_ v) (list_to_map l ∪ txs_ v) (info_ v) (open_ v) (baseTxCount_ v))
    end.
Proof.
  revert v. induction l as [|[k [txn meta]] l IH]; intros v Hnd.
  - simpl. rewrite (left_id_L ∅ (∪)). by destruct v.
  - rewrite fmap_cons in Hnd. apply NoDup_cons in Hnd as [Hk Hnd]. simpl in Hk. simpl. unfold rawTxInsert.
    destruct (txs_ v !! k) as [x|] eqn:E.
    { rewrite bool_decide_eq_true_2 by done. done. }
    rewrite (bool_decide_eq_false_2 (is_Some None)) by apply is_Some_None. rewrite Ret_bind, IH by done. simpl.
    assert (Hfind : List.find (fun x => bool_decide (is_Some (<[k:=(txn, meta)]> (txs_ v) !! x.1))) l
                  = List.find (fun x => bool_decide (is_Some (txs_ v !! x.1))) l).
    { clear IH Hnd E. induction l as [|y l IHl]; [done|]. rewrite fmap_cons, not_elem_of_cons in Hk. simpl.
      rewrite lookup_insert_ne by (intros ->; naive_solver). rewrite IHl by naive_solver. done. }
    rewrite Hfind. clear Hfind. destruct (List.find (fun x => bool_decide (is_Some (txs_ v !! x.1))) l); [done|]. do 2 f_equal.
    rewrite <- insert_union_r by (by apply not_elem_of_list_to_map_1). by rewrite insert_union_l.
Qed.

Lemma insertTxs_disjoint {V D} `{ReadView D V} (txs : gmap Z (Z * option Z)) (v : OpenView V) :
  txs ##ₘ txs_ v ->
  insertTxs (inOrder txs) v = Ret (mkOpenView (base_ v) (table_ v) (txs ∪ txs_ v) (info_ v) (open_ v) (baseTxCount_ v)).
Proof.
  intros Hd. rewrite insertTxs_spec, list_to_map_inOrder by apply inOrder_NoDup.
  destruct (List.find _ _) as [[k x]|] eqn:E; [|done]. apply List.find_some in E as [Hin Hk].
  rewrite <- list_elem_of_In, elem_of_inOrder in Hin. apply bool_decide_eq_true in Hk as [y Hy]. simpl in Hy.
  exfalso. by eapply (map_disjoint_spec txs (txs_ v)).
Qed.

(** Raw changes leave the rest of an open view as it is. *)
Lemma open_apply_rest {D V} `{ReadView D V} (h : Heap D) t (v v' : OpenView V) :
  RawStateTable.apply h t v = Ret v' -> base_ v' = base_ v /\ txs_ v' = txs_ v /\ baseTxCount_ v' = baseTxCount_ v.
Proof.
  unfold RawStateTable.apply. generalize (inOrder (RawStateTable.items_ t)). intros l. simpl.
  set (v0 := mkOpenView _ _ _ _ _ _). intros E.
  cut (base_ v' = base_ v0 /\ txs_ v' = txs_ v0 /\ baseTxCount_ v' = baseTxCount_ v0); [done|]. revert E. generalize v0. clear v0.
  induction l as [|[k [a p]] l IH]; intros v0; simpl; [by intros [= ->]|].
  destruct a; simpl; unfold with_table;
    [destruct (RawStateTable.erase h p (table_ v0))|destruct (RawStateTable.insert h p (table_ v0))|destruct (RawStateTable.replace h p (table_ v0))];
    rewrite ?Ret_bind; try done; intros E; apply (IH _ E).
Qed.

(** ** The raw changes of an [OpenView] *)

Inductive rawCall :=
| RawErase (p : Z)
| RawInsert (p : Z)
| RawReplace (p : Z)
| RawDestroyXRP (fee : Z).

Section RawCalls.
Context {D T : Type} `{RawView D T}.

Definition rawStep (h : Heap D) (c : rawCall) (v : T) : outcome T :=
  match c with
  | RawErase p => rawErase h p v
  | RawInsert p => rawInsert h p v
  | RawReplace p => rawReplace h p v
  | RawDestroyXRP fee => Ret (rawDestroyXRP fee v)
  end.

Fixpoint rawRun (h : Heap D) (cs : list rawCall) (v : T) : outcome T :=
  match cs with [] => Ret v | c :: cs => rawStep h c v ≫= rawRun h cs end.

(** The same on a map, for calls that fit it: what is erased or replaced is
    there, what is inserted is not. *)
Definition mapRaw (h : Heap D) (c : rawCall) (m : gmap Z (SLE D)) : option (gmap Z (SLE D)) :=
  match c with
  | RawErase p => s ← cells h !! p; match m !! key s with Some _ => Some (delete (key s) m) | None => None end
  | RawInsert p => s ← cells h !! p; match m !! key s with Some _ => None | None => Some (<[key s := s]> m) end
  | RawReplace p => s ← cells h !! p; match m !! key s with Some _ => Some (<[key s := s]> m) | None => None end
  | RawDestroyXRP _ => Some m
  end.

Fixpoint mapRawRun (h : Heap D) (cs : list rawCall) (m : gmap Z (SLE D)) : option (gmap Z (SLE D)) :=
  match cs with [] => Some m | c :: cs => mapRaw h c m ≫= mapRawRun h cs end.

Lemma rawStep_spec (abs : Heap D -> T -> gmap Z (SLE D)) (ok : Heap D -> T -> Prop) `{!RawLaws D T abs ok} h c v m :
  ok h v -> mapRaw h c (abs h v) = Some m -> exists v', rawStep h c v = Ret v' /\ ok h v' /\ abs h v' = m.
Proof.
  intros Hok. destruct c as [p|p|p|fee]; simpl;
    [destruct (cells h !! p) as [s|] eqn:Hp; [|done]; simpl; destruct (abs h v !! key s) as [x|] eqn:Hs; try done..|];
    intros [= <-].
  - apply law_rawErase; [done..|]. by rewrite Hs.
  - by apply law_rawInsert.
  - apply law_rawReplace; [done..|]. by rewrite Hs.
  - destruct (law_rawDestroyXRP h fee v Hok). by eexists.
Qed.

Lemma rawRun_spec (abs : Heap D -> T -> gmap Z (SLE D)) (ok : Heap D -> T -> Prop) `{!RawLaws D T abs ok} h cs v m :
  ok h v -> mapRawRun h cs (abs h v) = Some m -> exists v', rawRun h cs v = Ret v' /\ ok h v' /\ abs h v' = m.
Proof.
  revert v. induction cs as [|c cs IH]; intros v Hok; simpl; [intros [= <-]; by exists v|].
  destruct (mapRaw h c (abs h v)) as [m1|] eqn:E; [|done]. simpl.
  destruct (rawStep_spec abs ok h c v m1 Hok E) as (v1 & -> & Hok1 & <-). rewrite Ret_bind. by apply IH.
Qed.

End RawCalls.

(** ** Properties *)

(** C10: Transactors change entries through pointers that a sandbox hands out,
    and report the change.  For any sequence of looks, changes, insertions and
    removals in a new sandbox over a lawful view: nothing throws, the sandbox
    reads what the same sequence makes of the map of entries, and its
    successors are the next keys of that map.  What the sandbox is over shows
    none of it until the sandbox is applied to it; then it shows that map. *)
Theorem sandbox_refines {D V : Type} `{ReadView D V} `{RawView D V}
    (abs : Heap D -> V -> gmap Z (SLE D)) (ok : Heap D -> V -> Prop) (refs : V -> Z -> Prop)
    (Hview : ViewLaws D V abs ok refs) (Hraw : RawLaws D V abs ok) (h : Heap D) (b : V) (ops : list (clientOp D))
    (Hok : ok h b) (Hheap : heap_ok h) (Hops : Forall op_ok ops) :
  let m := foldl mapStep (abs h b) ops in
  exists h' v', clientRun ops h (newApplyView b) = Ret (h', v') /\
    (forall k, k_key k <> 0 -> read h' v' k = checked k (m !! k_key k)) /\
    (forall key_ last, succ_spec (fun k => is_Some (m !! k)) key_ last (succ h' v' key_ last)) /\
    abs h' b = abs h b /\
    exists b', applySandbox h' v' b = Ret b' /\ ok h' b' /\ abs h' b' = m.
Proof.
  intros m. destruct (client_ok_new abs ok refs h b Hok Hheap) as [Hco Habs].
  destruct (clientRun_spec abs ok refs ops h _ Hco Hops) as (h' & v' & E & Hco' & Hbase & Hb & Habs').
  simpl in Hbase, Hb. rewrite Habs in Habs'. fold m in Habs'. exists h', v'.
  destruct (co_ok _ _ _ _ _ Hco') as [Hok' Ht'].
  split_and!; [done|..|done|].
  - intros k Hk. rewrite <- Habs'. by apply (law_read _ _ _ (co_ok _ _ _ _ _ Hco')).
  - intros key_ last. rewrite <- Habs'. by apply (law_succ _ _ _ _ (co_ok _ _ _ _ _ Hco')).
  - rewrite Hbase in Hok', Ht'. destruct (app_apply_spec abs ok h' (avTable v') b Hok') as (b' & Eb & Hok2 & Hab2).
    { by apply changesOf_ok. }
    exists b'. split_and!; [done..|]. rewrite Hab2, <- Habs', clean_overlay; [by unfold apply_abs; rewrite Hbase|].
    pose proof (co_clean _ _ _ _ _ Hco') as Hc. by rewrite Hbase in Hc.
Qed.

(** C27: An open view over a lawful view reads the map of entries that its raw
    changes make.  For a new view and any sequence of raw changes that fit
    (only entries that are there are erased or replaced, only absent ones are
    inserted; the table does not check that against the base): none throws, and
    then [read] gives the entry of the map if the keylet accepts it, [succ] the
    least key behind the given one and before the bound, and [sles] every
    entry, in the order of the keys, from the first one or from behind a key,
    its iterator never using a null pointer. *)
Theorem open_view_reads {D V : Type} `{ReadView D V}
    (abs : Heap D -> V -> gmap Z (SLE D)) (ok : Heap D -> V -> Prop) (refs : V -> Z -> Prop)
    (Hview : ViewLaws D V abs ok refs) (Hiter : IterLaws D V abs ok) (h : Heap D) (b : V)
    (info : LedgerInfo) (open : bool) (cs : list rawCall) (m : gmap Z (SLE D))
    (Hok : ok h b) (Hfit : mapRawRun h cs (abs h b) = Some m) :
  exists v, rawRun h cs (newOpenView b info open) = Ret v /\
  (forall k, k_key k <> 0 -> read h v k = checked k (m !! k_key k)) /\
  (forall key_ last, succ_spec (fun k => is_Some (m !! k)) key_ last (succ h v key_ last)) /\
  (forall from, sles h v from = Ret (entriesFrom from m)).
Proof.
  destruct (rawRun_spec (open_abs abs) (open_ok abs ok) h cs (newOpenView b info open) m) as (v & E & Ho & <-).
  - split; [done|apply table_ok_empty].
  - etrans; [|exact Hfit]. f_equal. apply overlay_empty.
  - exists v. split_and!; [done|..].
    + intros k Hk. exact (law_read h v k Ho Hk).
    + intros key_ last. exact (law_succ h v key_ last Ho).
    + intros from. exact (law_sles h v from Ho).
Qed.

(** C36: A ledger takes a table of changes exactly when the table fits it: no
    entry the table inserts is in the ledger, every entry it modifies or erases
    is.  Then the ledger's state becomes the overlay of the changes; otherwise
    applying the table throws. *)
Theorem ledger_refuses_misfits {D : Type} (h : Heap D) (v : ApplyViewBase (Ledger D)) (l : Ledger D)
    (Hpointers : pointers_ok h (avTable v)) (Hkeys : ledger_ok h l) :
  match applySandbox h v l with
  | Ret l' => fits (avTable v) (stateMap_ l) /\ stateMap_ l' = overlay ApplyStateTable.isErase h (changesOf (avTable v)) (stateMap_ l)
  | Throw _ => ~ fits (avTable v) (stateMap_ l)
  end.
Proof.
  destruct (ledger_takes h (avTable v) l Hpointers Hkeys) as [Hfit Hret]. unfold applySandbox.
  destruct (ApplyStateTable.apply h (avTable v) l) as [e|l'] eqn:E.
  - intros Hf. by destruct (Hfit Hf) as (l' & ? & _).
  - specialize (Hret l' eq_refl). destruct (Hfit Hret) as (l2 & [= <-] & Hl2). done.
Qed.

(** C37: The calls that an [ApplyView] refuses.  Erasing or reporting a change
    of an entry throws unless the pointer is the one the view handed out or was
    given for that key, and the entry is not erased.  Inserting throws exactly
    when the view has an item for the key that is not an erased one, and
    replacing exactly when the entry is erased. *)
Theorem misuse_throws {D V : Type} `{ReadView D V} (h : Heap D) (p : Z) (s : SLE D) (v : ApplyViewBase V)
    (Hp : cells h !! p = Some s) :
  (forall e, viewErase h p v = Throw e -> ~ held (avTable v) (key s) p) /\
  (forall v', viewErase h p v = Ret v' -> held (avTable v) (key s) p) /\
  (forall e, viewUpdate h p v = Throw e -> ~ held (avTable v) (key s) p) /\
  (forall v', viewUpdate h p v = Ret v' -> held (avTable v) (key s) p) /\
  (forall e, viewInsert h p v = Throw e -> live ApplyStateTable.isErase (ApplyStateTable.items_ (avTable v)) (key s)) /\
  (forall v', viewInsert h p v = Ret v' -> ~ live ApplyStateTable.isErase (ApplyStateTable.items_ (avTable v)) (key s)) /\
  (forall e, rawReplace h p v = Throw e -> erasedIn ApplyStateTable.isErase (ApplyStateTable.items_ (avTable v)) (key s) = true) /\
  (forall v', rawReplace h p v = Ret v' -> erasedIn ApplyStateTable.isErase (ApplyStateTable.items_ (avTable v)) (key s) = false).
Proof.
  unfold viewErase, viewUpdate, viewInsert. simpl. unfold with_items, ApplyStateTable.erase, ApplyStateTable.update, ApplyStateTable.insert, ApplyStateTable.replace, held, live, erasedIn.
  rewrite (deref_Some _ _ _ Hp), !Ret_bind.
  destruct (ApplyStateTable.items_ (avTable v) !! key s) as [[a q]|]; [|naive_solver].
  destruct (Z.eqb_spec q p) as [->|Hne]; destruct a; simpl; naive_solver.
Qed.

(** A view over an open view, as a batch of transactions gets one, starts
    with the count of the transactions below it.  When no transaction is in
    both, applying it to what it is over hands on its changes and its
    transactions: the open view below then shows the entries the batch's view
    showed, has the transactions of both, and counts as many.  When a
    transaction is in both, applying throws. *)
Theorem batch_applies {D V : Type} `{ReadView D V}
    (abs : Heap D -> V -> gmap Z (SLE D)) (ok : Heap D -> V -> Prop) (refs : V -> Z -> Prop)
    (Hview : ViewLaws D V abs ok refs) (h : Heap D) (v : OpenView (OpenView V))
    (Hok : open_ok abs ok h (base_ v)) (Htable : raw_ok h (table_ v) (open_abs abs h (base_ v)))
    (Hbatch : baseTxCount_ v = txCount (base_ v)) :
  (txs_ v ##ₘ txs_ (base_ v) ->
    exists b, applyOpenView h v (base_ v) = Ret b /\ open_ok abs ok h b /\ open_abs abs h b = open_abs (open_abs abs) h v /\
      txs_ b = txs_ v ∪ txs_ (base_ v) /\ txCount b = txCount v) /\
  (forall k, is_Some (txs_ v !! k) -> is_Some (txs_ (base_ v) !! k) ->
    applyOpenView h v (base_ v) = Throw "rawTxInsert: duplicate TX id").
Proof.
  destruct (raw_apply_spec (open_abs abs) (open_ok abs ok) h (table_ v) (base_ v) Hok Htable) as (b & E & Hokb & Habs).
  destruct (open_apply_rest h (table_ v) (base_ v) b E) as (Hbase & Htxs & Hcount).
  assert (Eb : applyOpenView h v (base_ v) = insertTxs (inOrder (txs_ v)) b).
  { transitivity (RawStateTable.apply h (table_ v) (base_ v) ≫= insertTxs (inOrder (txs_ v))); [reflexivity|]. by rewrite E. }
  rewrite Eb. split.
  - intros Hd. rewrite insertTxs_disjoint by (by rewrite Htxs). eexists. split_and!; [done|done|done|simpl; by rewrite Htxs|].
    unfold txCount. simpl. rewrite Hcount, Htxs, Hbatch. unfold txCount.
    rewrite map_size_disj_union by done. lia.
  - intros k [x Hx] [y Hy]. rewrite insertTxs_spec by apply inOrder_NoDup. destruct (List.find _ _) eqn:Ef; [done|].
    exfalso. pose proof (List.find_none _ _ Ef (k, x)) as Hn. simpl in Hn.
    rewrite <- list_elem_of_In, elem_of_inOrder, Htxs, Hy in Hn. specialize (Hn Hx). by rewrite bool_decide_eq_true_2 in Hn.
Qed.

(** ** Sample views *)

Module SampleViews.

Definition entry (k type d : Z) : SLE Z := mkEntry k type d.

Definition ledger0 : Ledger Z := mkLedger (list_to_map [(10, entry 10 97 1); (20, entry 20 111 2); (30, entry 30 111 3)]) 1000.

Definition heap0 : Heap Z := mkHeap ∅ 0.

Lemma ledger0_ok (h : Heap Z) : ledger_ok h ledger0.
Proof.
  assert (Hm : map_Forall (fun k s => key s = k) (stateMap_ ledger0)) by (apply (bool_decide_unpack _); vm_compute; exact I).
  intros k s Hk. exact (Hm k s Hk).
Qed.

Lemma heap0_ok : heap_ok heap0.
Proof. intros p [x Hx]. simpl in Hx. by rewrite lookup_empty in Hx. Qed.

(** A sandbox in an apply view in an open ledger. *)
Definition info0 : LedgerInfo := mkInfo 6 77 76 100 90 true true.
Definition open0 : OpenView (Ledger Z) := newOpenLedger ledger0 info0.
Definition view0 : ApplyViewBase (OpenView (Ledger Z)) := newApplyView open0.

Definition view_abs : Heap Z -> ApplyViewBase (OpenView (Ledger Z)) -> gmap Z (SLE Z) := apply_abs (open_abs ledger_abs).
Definition view_ok : Heap Z -> ApplyViewBase (OpenView (Ledger Z)) -> Prop := apply_ok (open_abs ledger_abs) (open_ok ledger_abs ledger_ok).

Lemma view0_ok : view_ok heap0 view0.
Proof. split; [split; [apply ledger0_ok|apply table_ok_empty]|apply table_ok_empty]. Qed.

Definition ops0 : list (clientOp Z) :=
  [Look (mkKeylet 111 20); Change (mkKeylet 97 10) 7; Insert (entry 15 97 8); Change (mkKeylet 97 15) 9;
   Remove (mkKeylet 111 20); Change (mkKeylet 111 20) 5; Insert (entry 30 111 6)].

Lemma sandbox_refines_witness :
  exists h' v' b', clientRun ops0 heap0 (newApplyView view0) = Ret (h', v') /\ applySandbox h' v' view0 = Ret b' /\
    map_to_list (data <$> view_abs h' b') = map_to_list (list_to_map [(10, 7); (15, 9); (30, 3)] : gmap Z Z).
Proof.
  destruct (sandbox_refines view_abs view_ok (apply_refs (open_refs ledger_refs)) _ _ heap0 view0 ops0)
    as (h' & v' & E & _ & _ & _ & b' & Eb & _ & Hm).
  - exact view0_ok.
  - exact heap0_ok.
  - repeat constructor; simpl; discriminate.
  - exists h', v', b'. split_and!; [exact E|exact Eb|]. rewrite Hm. vm_compute. reflexivity.
Defined.

(** An open view with an entry erased, one replaced and one inserted. *)
Definition heap1 : Heap Z := mkHeap (list_to_map [(0, entry 10 97 1); (1, entry 20 111 22); (2, entry 25 97 5)]) 3.
Definition table1 : RawStateTable.RawStateTable :=
  RawStateTable.mkTable (list_to_map [(10, (RawStateTable.erase_, 0)); (20, (RawStateTable.replace_, 1)); (25, (RawStateTable.insert_, 2))]) 12.
Definition open1 : OpenView (Ledger Z) := mkOpenView ledger0 table1 (list_to_map [(500, (1, None))]) info0 true 0.

(** The items of a table, checked one by one. *)
Definition fitsBool {A} (isInsert : A -> bool) (h : Heap Z) (m : gmap Z (SLE Z)) (x : Z * (A * Z)) : bool :=
  match cells h !! x.2.2 with
  | Some s => (key s =? x.1) && (if isInsert x.2.1 then bool_decide (m !! x.1 = None) else bool_decide (is_Some (m !! x.1)))
  | None => false
  end.

Lemma fitsBool_ok {A} (isInsert : A -> bool) h m (items : gmap Z (A * Z)) :
  forallb (fitsBool isInsert h m) (map_to_list items) = true -> table_ok isInsert h items m.
Proof.
  intros Hall k a p Hk. apply elem_of_map_to_list in Hk. rewrite forallb_forall in Hall.
  specialize (Hall (k, (a, p))). rewrite <- list_elem_of_In in Hall. specialize (Hall Hk). unfold fitsBool in Hall. simpl in Hall.
  destruct (cells h !! p) as [s|]; [|done]. apply andb_true_iff in Hall as [Hks Hin]. exists s.
  split_and!; [done|by apply Z.eqb_eq|]. by destruct (isInsert a); apply bool_decide_eq_true in Hin.
Qed.

Lemma open1_ok : raw_ok heap1 (table_ open1) (ledger_abs heap1 (base_ open1)).
Proof. apply fitsBool_ok. vm_compute. reflexivity. Qed.

Lemma open_view_reads_witness :
  exists v, rawRun heap1 [RawErase 0; RawReplace 1; RawDestroyXRP 12; RawInsert 2] (newOpenView ledger0 info0 true) = Ret v /\
  sles heap1 v None = Ret [entry 20 111 22; entry 25 97 5; entry 30 111 3] /\
  sles heap1 v (Some 20) = Ret [entry 25 97 5; entry 30 111 3] /\
  read heap1 v (mkKeylet 97 10) = None.
Proof.
  edestruct (open_view_reads ledger_abs ledger_ok ledger_refs _ _ heap1 ledger0 info0 true
    [RawErase 0; RawReplace 1; RawDestroyXRP 12; RawInsert 2]) as (v & E & Hr & _ & Hs);
    [apply ledger0_ok|vm_compute; reflexivity|].
  exists v. split_and!.
  - exact E.
  - rewrite (Hs None). vm_compute. reflexivity.
  - rewrite (Hs (Some 20)). vm_compute. reflexivity.
  - rewrite (Hr (mkKeylet 97 10)); [vm_compute; reflexivity|discriminate].
Defined.

(** A table that inserts an entry the ledger has. *)
Definition misfit : ApplyViewBase (Ledger Z) :=
  mkApplyView ledger0 (ApplyStateTable.mkTable (list_to_map [(10, (ApplyStateTable.insert_, 0)); (20, (ApplyStateTable.modify_, 1))]) 0).

Lemma misfit_pointers : pointers_ok heap1 (avTable misfit).
Proof.
  assert (Hm : map_Forall (fun k x => exists s, cells heap1 !! x.2 = Some s /\ key s = k) (ApplyStateTable.items_ (avTable misfit))).
  { unfold misfit. simpl. apply map_Forall_insert_2; [by eexists|]. apply map_Forall_insert_2; [by eexists|]. apply map_Forall_empty. }
  intros k a p Hk. exact (Hm k (a, p) Hk).
Qed.

Lemma ledger_refuses_misfits_witness :
  applySandbox heap1 misfit ledger0 = Throw "Ledger::rawInsert: key already exists" /\ ~ fits (avTable misfit) (stateMap_ ledger0).
Proof.
  pose proof (ledger_refuses_misfits heap1 misfit ledger0 misfit_pointers (ledger0_ok heap1)) as H.
  assert (E : applySandbox heap1 misfit ledger0 = Throw "Ledger::rawInsert: key already exists") by (vm_compute; reflexivity).
  split; [exact E|]. rewrite E in H. exact H.
Defined.

(** The entry at pointer 1 is not the one this table has for its key. *)
Lemma misuse_throws_witness :
  viewErase heap1 2 misfit = Throw "ApplyStateTable::erase: missing key" /\ ~ held (avTable misfit) 25 2.
Proof.
  destruct (misuse_throws heap1 2 (entry 25 97 5) misfit) as (He & _); [vm_compute; reflexivity|].
  assert (E : viewErase heap1 2 misfit = Throw "ApplyStateTable::erase: missing key") by (vm_compute; reflexivity).
  split; [exact E|]. exact (He _ E).
Defined.

(** A batch over an open ledger with a transaction. *)
Definition batch1 : OpenView (OpenView (Ledger Z)) :=
  mkOpenView open1 (RawStateTable.mkTable (list_to_map [(10, (RawStateTable.insert_, 0))]) 0) (list_to_map [(600, (2, None)); (601, (3, None))]) info0 true 1.

Lemma batch_applies_witness :
  exists b, applyOpenView heap1 batch1 open1 = Ret b /\ txCount b = 3 /\
    open_abs ledger_abs heap1 b !! 10 = Some (entry 10 97 1).
Proof.
  destruct (batch_applies ledger_abs ledger_ok ledger_refs _ heap1 batch1) as [Hd _].
  - split; [exact (ledger0_ok heap1)|exact open1_ok].
  - apply fitsBool_ok. vm_compute. reflexivity.
  - vm_compute. reflexivity.
  - destruct Hd as (b & E & _ & Ha & _ & Hc).
    + apply (bool_decide_unpack _). vm_compute. exact I.
    + exists b. split_and!; [exact E|rewrite Hc; vm_compute; reflexivity|rewrite Ha; vm_compute; reflexivity].
Defined.

End SampleViews.
