(* ===== verification/PaymentSandbox.v ===== *)
(** * Payment sandboxes

    Models [src/libxrpl/ledger/PaymentSandbox.cpp] and its header: the table of
    deferred credits, which makes what a payment credits unusable within the
    payment, and the hooks of nested sandboxes.  A sandbox and those below it
    ([ps_]) are a list, the innermost first. *)

From stdpp Require Import strings.
From S2P Require Import Prelude Outcome Serializer Number Amount LedgerViews ApplyStateTable.

(** [operator<] of two account identifiers. *)
Fixpoint acct_ltb (a b : Blob) : bool :=
  match a, b with
  | x :: a, y :: b => if x =? y then acct_ltb a b else x <? y
  | [], _ :: _ => true
  | _, [] => false
  end.

(** [getCurrency] and [setIssuer] are of an asset that is an issue. *)
Definition getCurrency (a : STAmount) : outcome Blob :=
  match mAsset a with AIssue i => Ret (currency i) | AMPT _ => Throw "Asset is not a requested issue" end.

Definition getIssuer (a : STAmount) : outcome Blob :=
  match mAsset a with AIssue i => Ret (account i) | AMPT _ => Throw "Asset is not a requested issue" end.

Definition setIssuer (uIssuer : Blob) (a : STAmount) : outcome STAmount :=
  match mAsset a with
  | AIssue i => Ret (mkSTAmount (AIssue (mkIssue (currency i) uIssuer)) (mValue a) (mOffset a) (mIsNegative a))
  | AMPT _ => Throw "Asset is not a requested issue"
  end.

(** [zeroed] constructs the zero of the asset, as [clear] does. *)
Definition zeroed (a : STAmount) : STAmount := clear a.

(** ** DeferredCredits *)

Definition Key : Type := Blob * Blob * Blob.      (* lowAccount, highAccount, currency *)

Record Value := mkValue { lowAcctCredits : STAmount; highAcctCredits : STAmount; lowAcctOrigBalance : STAmount }.

Record Adjustment := mkAdjustment { debits : STAmount; credits : STAmount; origBalance : STAmount }.

Record DeferredCredits := mkTab { credits_ : gmap Key Value; ownerCounts_ : gmap Blob Z }.

Definition emptyTab : DeferredCredits := mkTab ∅ ∅.

Definition makeKey (a1 a2 c : Blob) : Key := if acct_ltb a1 a2 then (a1, a2, c) else (a2, a1, c).

Section Deferred.
Context (cfg : settings).

Definition credit (sender receiver : Blob) (amount preCreditSenderBalance : STAmount) (tab : DeferredCredits) : outcome DeferredCredits :=
  getCurrency amount ≫= fun c =>
  let k := makeKey sender receiver c in
  (match credits_ tab !! k with
   | None =>
       Ret (if acct_ltb sender receiver then mkValue (zeroed amount) amount preCreditSenderBalance
            else mkValue amount (zeroed amount) (negate preCreditSenderBalance))
   | Some v =>
       if acct_ltb sender receiver then
         amount_add cfg (highAcctCredits v) amount ≫= fun x => Ret (mkValue (lowAcctCredits v) x (lowAcctOrigBalance v))
       else
         amount_add cfg (lowAcctCredits v) amount ≫= fun x => Ret (mkValue x (highAcctCredits v) (lowAcctOrigBalance v))
   end) ≫= fun v =>
  Ret (mkTab (<[k := v]> (credits_ tab)) (ownerCounts_ tab)).

Definition setOwnerCount (id : Blob) (cur next : Z) (tab : DeferredCredits) : DeferredCredits :=
  let v := Z.max cur next in
  mkTab (credits_ tab) (<[id := match ownerCounts_ tab !! id with None => v | Some mapVal => Z.max v mapVal end]> (ownerCounts_ tab)).

Definition ownerCount (id : Blob) (tab : DeferredCredits) : option Z := ownerCounts_ tab !! id.

Definition adjustments (main other currency : Blob) (tab : DeferredCredits) : option Adjustment :=
  match credits_ tab !! makeKey main other currency with
  | None => None
  | Some v =>
      Some (if acct_ltb main other then mkAdjustment (highAcctCredits v) (lowAcctCredits v) (lowAcctOrigBalance v)
            else mkAdjustment (lowAcctCredits v) (highAcctCredits v) (negate (lowAcctOrigBalance v)))
  end.

(** The two loops of [apply]; the order of the keys does not matter. *)
Fixpoint mergeCredits (l : list (Key * Value)) (to : gmap Key Value) : outcome (gmap Key Value) :=
  match l with
  | [] => Ret to
  | (k, fromVal) :: l =>
      (match to !! k with
       | None => Ret fromVal
       | Some toVal =>
           amount_add cfg (lowAcctCredits toVal) (lowAcctCredits fromVal) ≫= fun lo =>
           amount_add cfg (highAcctCredits toVal) (highAcctCredits fromVal) ≫= fun hi =>
           Ret (mkValue lo hi (lowAcctOrigBalance toVal))
       end) ≫= fun v => mergeCredits l (<[k := v]> to)
  end.

Definition applyTab (from to : DeferredCredits) : outcome DeferredCredits :=
  mergeCredits (map_to_list (credits_ from)) (credits_ to) ≫= fun c =>
  Ret (mkTab c (union_with (fun a b => Some (Z.max a b)) (ownerCounts_ to) (ownerCounts_ from))).

(** ** The hooks *)

(** The loop of [balanceHook]: the debits, the last and the least balance. *)
Fixpoint collect (account issuer currency : Blob) (tabs : list DeferredCredits) (delta lastBal minBal : STAmount)
    : outcome (STAmount * STAmount * STAmount) :=
  match tabs with
  | [] => Ret (delta, lastBal, minBal)
  | tab :: tabs =>
      match adjustments account issuer currency tab with
      | None => collect account issuer currency tabs delta lastBal minBal
      | Some adj =>
          amount_add cfg delta (debits adj) ≫= fun delta =>
          let lastBal := origBalance adj in
          amount_ltb lastBal minBal ≫= fun less : bool =>
          collect account issuer currency tabs delta lastBal (if less then lastBal else minBal)
      end
  end.

(** [std::min] of two amounts. *)
Definition minAmount (a b : STAmount) : outcome STAmount := amount_ltb b a ≫= fun less : bool => Ret (if less then b else a).

Definition balanceHook (tabs : list DeferredCredits) (account issuer : Blob) (amount : STAmount) : outcome STAmount :=
  getCurrency amount ≫= fun currency =>
  collect account issuer currency tabs (zeroed amount) amount amount ≫= fun '(delta, lastBal, minBal) =>
  amount_sub cfg lastBal delta ≫= fun diff =>
  minAmount amount diff ≫= fun least =>
  minAmount least minBal ≫= fun least =>
  getIssuer amount ≫= fun i =>
  setIssuer i least ≫= fun adjustedAmt =>
  Ret (if isXRP issuer && (amount_signum adjustedAmt <? 0) then clear adjustedAmt else adjustedAmt).

Definition ownerCountHook (tabs : list DeferredCredits) (account : Blob) (count : Z) : Z :=
  foldl (fun result tab => match ownerCount account tab with Some adj => Z.max result adj | None => result end) count tabs.

(** [creditHook] and [adjustOwnerCountHook], on the innermost sandbox. *)
Definition creditHook (from to : Blob) (amount preCreditBalance : STAmount) (tabs : list DeferredCredits) : outcome (list DeferredCredits) :=
  match tabs with
  | [] => Ret []
  | tab :: tabs => credit from to amount preCreditBalance tab ≫= fun tab => Ret (tab :: tabs)
  end.

Definition adjustOwnerCountHook (account : Blob) (cur next : Z) (tabs : list DeferredCredits) : list DeferredCredits :=
  match tabs with [] => [] | tab :: tabs => setOwnerCount account cur next tab :: tabs end.

(** ** Sandboxes *)

Record PaymentSandbox (V : Type) := mkSandbox { items : ApplyViewBase V; tab_ : DeferredCredits }.
Arguments mkSandbox {V}.
Arguments items {V}.
Arguments tab_ {V}.

(** [apply(RawView&)] and [apply(PaymentSandbox&)]. *)
Definition applyToView {D V T} `{RawView D T} (h : Heap D) (sb : PaymentSandbox V) (to : T) : outcome T := applySandbox h (items sb) to.

Definition applyToParent {D V W} `{ReadView D W} (h : Heap D) (sb : PaymentSandbox V) (to : PaymentSandbox W) : outcome (PaymentSandbox W) :=
  applySandbox h (items sb) (items to) ≫= fun v =>
  applyTab (tab_ sb) (tab_ to) ≫= fun tab =>
  Ret (mkSandbox v tab).

(** ** balanceChanges *)

(** What it does with an entry's balances, once they are read. *)
Definition recordChange (lowID highID : Blob) (oldBalance newBalance : STAmount) (result : gmap Key STAmount) : outcome (gmap Key STAmount) :=
  amount_sub cfg newBalance oldBalance ≫= fun delta =>
  getCurrency newBalance ≫= fun cur =>
  let result := <[(lowID, highID, cur) := delta]> result in
  (match result !! (lowID, lowID, cur) with
   | Some _ => Ret result
   | None => amount_add cfg delta delta ≫= fun x => Ret (<[(lowID, lowID, cur) := x]> result)
   end) ≫= fun result =>
  let delta := negate delta in
  match result !! (highID, highID, cur) with
  | Some _ => Ret result
  | None => amount_add cfg delta delta ≫= fun x => Ret (<[(highID, highID, cur) := x]> result)
  end.

End Deferred.
