(* ===== verification/PaymentSandboxProperties.v ===== *)
(** * Correctness of payment sandboxes

    In a payment of XRP, with sandboxes opened, applied and thrown away in any
    order, the balance an account can use is what it started with less what it
    paid: credits are not usable.  Amounts of XRP are exact. *)

From stdpp Require Import strings.
From S2P Require Import Prelude Outcome Serializer Number Amount AmountFacts AmountProperties LedgerViews PaymentSandbox.

(** ** Amounts of XRP *)

Section Drops.
Context (cfg : settings).

Lemma drops_comparable a b : areComparable (nativeAmount a) (nativeAmount b) = true.
Proof. vm_compute. reflexivity. Qed.

Lemma drops_canonical n : Z.abs n <= cMaxNativeN -> canonical (nativeAmount n).
Proof. by apply signed_canonical. Qed.

Lemma drops_add a b : Z.abs a <= cMaxNativeN -> Z.abs b <= cMaxNativeN -> Z.abs (a + b) <= cMaxNativeN ->
  amount_add cfg (nativeAmount a) (nativeAmount b) = Ret (nativeAmount (a + b)).
Proof.
  intros Ha Hb Hab. unfold amount_add. rewrite drops_comparable. cbn [negb]. unfold isZero. cbn [mValue nativeAmount].
  destruct (Z.eqb_spec (Z.abs b) 0) as [Eb|Eb]; [by replace (a + b) with a by lia|].
  destruct (Z.eqb_spec (Z.abs a) 0) as [Ea|Ea].
  - replace (a + b) with b by lia. unfold namedAmount, amount. cbn [mAsset mOffset mIsNegative nativeAmount].
    change (mkSTAmount (AIssue xrpIssue) (Z.abs b) 0 (b <? 0)) with (nativeAmount b).
    rewrite canonicalize_id by by apply drops_canonical.
    replace (2 ^ 63 - 1 <? Z.abs b) with false; [by rewrite !andb_false_r|]. symmetry. apply Z.ltb_ge. unfold cMaxNativeN in *. lia.
  - change (native (nativeAmount a)) with true. unfold getSNValue.
    change (native (nativeAmount a)) with true. change (native (nativeAmount b)) with true. cbn iota.
    rewrite !Ret_bind, !integral_signed by first [by apply drops_canonical|reflexivity]. cbn [mIsNegative mValue nativeAmount].
    rewrite !signed_abs, s64_id; [done|]. unfold cMaxNativeN in *. lia.
Qed.

Lemma drops_neg n : negate (nativeAmount n) = nativeAmount (- n).
Proof.
  unfold negate. cbn [mValue mAsset mOffset mIsNegative nativeAmount]. unfold nativeAmount.
  destruct (Z.eqb_spec (Z.abs n) 0); [f_equal; lia|]. f_equal; lia.
Qed.

Lemma drops_ltb a b : amount_ltb (nativeAmount a) (nativeAmount b) = Ret (a <? b).
Proof.
  unfold amount_ltb. rewrite drops_comparable. cbn [negb mValue mAsset mOffset mIsNegative nativeAmount]. f_equal.
  destruct (Z.ltb_spec a 0), (Z.ltb_spec b 0); cbn [Bool.eqb negb];
    destruct (Z.eqb_spec (Z.abs a) 0), (Z.eqb_spec (Z.abs b) 0); cbn [Z.ltb Z.compare];
    destruct (Z.ltb_spec (Z.abs b) (Z.abs a)), (Z.ltb_spec (Z.abs a) (Z.abs b)); lia.
Qed.

Lemma drops_min a b : minAmount (nativeAmount a) (nativeAmount b) = Ret (nativeAmount (Z.min a b)).
Proof. unfold minAmount. rewrite drops_ltb, Ret_bind. destruct (Z.ltb_spec b a); do 2 f_equal; lia. Qed.

Lemma drops_zeroed n : zeroed (nativeAmount n) = nativeAmount 0.
Proof. reflexivity. Qed.

End Drops.

(** ** The order of accounts *)

Lemma acct_ltb_irrefl a : acct_ltb a a = false.
Proof. induction a; simpl; [done|]. by rewrite Z.eqb_refl. Qed.

Lemma acct_ltb_total a b : a <> b -> acct_ltb a b = negb (acct_ltb b a).
Proof.
  revert b. induction a as [|x a IH]; intros [|y b] Hne; simpl; [done..|].
  rewrite (Z.eqb_sym y x). destruct (Z.eqb_spec x y) as [->|Hxy].
  - apply IH. congruence.
  - destruct (Z.ltb_spec x y), (Z.ltb_spec y x); simpl; lia || done.
Qed.

Lemma makeKey_sym a b c : a <> b -> makeKey a b c = makeKey b a c.
Proof. intros Hne. unfold makeKey. rewrite (acct_ltb_total a b Hne). by destruct (acct_ltb b a). Qed.

Lemma makeKey_inj a b a' b' c : makeKey a b c = makeKey a' b' c -> (a = a' /\ b = b') \/ (a = b' /\ b = a').
Proof. unfold makeKey. destruct (acct_ltb a b), (acct_ltb a' b'); intros [= -> ->]; auto. Qed.

(** ** Histories

    What accounts owe each other, as what each has toward the other, and what
    was paid in each sandbox, by whom to whom. *)

Definition ledgerOf : Type := Blob -> Blob -> Z.

Definition noPayments : ledgerOf := fun _ _ => 0.
Definition addPayment (d : ledgerOf) (s r : Blob) (n : Z) : ledgerOf :=
  fun a b => if decide (a = s /\ b = r) then d a b + n else d a b.
Definition addAll (d e : ledgerOf) : ledgerOf := fun a b => d a b + e a b.

(** The balance in the innermost sandbox, and what was paid in all of them. *)
Fixpoint balance (start : ledgerOf) (ds : list ledgerOf) (a b : Blob) : Z :=
  match ds with [] => start a b | d :: ds => balance start ds a b - d a b + d b a end.

Fixpoint paid (ds : list ledgerOf) (a b : Blob) : Z := match ds with [] => 0 | d :: ds => d a b + paid ds a b end.

(** A payment with nested sandboxes. *)
Inductive payOp := Pay (sender receiver : Blob) (n : Z) | OpenSandbox | ApplySandbox | DiscardSandbox.

Definition payStep (cfg : settings) (start : ledgerOf) (op : payOp) (tabs : list DeferredCredits) (ds : list ledgerOf)
    : outcome (list DeferredCredits * list ledgerOf) :=
  match op, tabs, ds with
  | Pay s r n, _, d :: ds' =>
      creditHook cfg s r (nativeAmount n) (nativeAmount (balance start ds s r)) tabs ≫= fun tabs =>
      Ret (tabs, addPayment d s r n :: ds')
  | OpenSandbox, _, _ => Ret (emptyTab :: tabs, noPayments :: ds)
  | ApplySandbox, c :: p :: tabs', dc :: dp :: ds' => applyTab cfg c p ≫= fun p => Ret (p :: tabs', addAll dc dp :: ds')
  | DiscardSandbox, _ :: p :: tabs', _ :: dp :: ds' => Ret (p :: tabs', dp :: ds')
  | _, _, _ => Ret (tabs, ds)
  end.

Fixpoint payRun (cfg : settings) (start : ledgerOf) (ops : list payOp) (tabs : list DeferredCredits) (ds : list ledgerOf)
    : outcome (list DeferredCredits * list ledgerOf) :=
  match ops with
  | [] => Ret (tabs, ds)
  | op :: ops => payStep cfg start op tabs ds ≫= fun '(tabs, ds) => payRun cfg start ops tabs ds
  end.

Definition pay_ok (op : payOp) : Prop := match op with Pay s r n => s <> r /\ 0 <= n | _ => True end.
Definition paidBy (op : payOp) : Z := match op with Pay _ _ n => n | _ => 0 end.

(** ** The table of a sandbox *)

(** What a table records of a pair of accounts. *)
Definition valueAt (d B : ledgerOf) (lo hi : Blob) : Value :=
  mkValue (nativeAmount (d hi lo)) (nativeAmount (d lo hi)) (nativeAmount (B lo hi)).

Definition valueFor (d B : ledgerOf) (a b : Blob) : Value := if acct_ltb a b then valueAt d B a b else valueAt d B b a.

Record layer_ok (d B : ledgerOf) (tab : DeferredCredits) : Prop := {
  lo_nonneg : forall a b, 0 <= d a b;
  lo_keys : forall k v, credits_ tab !! k = Some v -> exists a b, a <> b /\ k = makeKey a b xrpCurrency;
  lo_value : forall a b, a <> b ->
    match credits_ tab !! makeKey a b xrpCurrency with
    | None => d a b = 0 /\ d b a = 0
    | Some v => v = valueFor d B a b
    end;
}.

Lemma valueFor_sym d B a b : a <> b -> valueFor d B a b = valueFor d B b a.
Proof. intros Hne. unfold valueFor. rewrite (acct_ltb_total a b Hne). by destruct (acct_ltb b a). Qed.

Lemma layer_ok_empty B : layer_ok noPayments B emptyTab.
Proof. split; [done|..]; simpl. - intros k v Hk. by rewrite lookup_empty in Hk. - intros a b _. by rewrite lookup_empty. Qed.

(** A table with the entry of one pair set. *)
Lemma layer_ok_set d d' B tab s r counts :
  layer_ok d B tab -> s <> r -> (forall a b, 0 <= d' a b) ->
  (forall a b, (a, b) <> (s, r) -> (a, b) <> (r, s) -> d' a b = d a b) ->
  layer_ok d' B (mkTab (<[makeKey s r xrpCurrency := valueFor d' B s r]> (credits_ tab)) counts).
Proof.
  intros [Hn Hk Hv] Hne Hn' Hd. split; [done|..]; simpl.
  - intros k v [[<- _]|[_ Hkv]]%lookup_insert_Some; [by exists s, r|by eapply Hk].
  - intros a b Hab. destruct (decide (makeKey s r xrpCurrency = makeKey a b xrpCurrency)) as [E|E].
    + rewrite <- E, lookup_insert_eq. apply makeKey_inj in E as [[-> ->]|[-> ->]]; [done|]. by apply valueFor_sym.
    + rewrite lookup_insert_ne by done. specialize (Hv a b Hab).
      assert (Hab1 : (a, b) <> (s, r)) by (intros [= -> ->]; done).
      assert (Hab2 : (a, b) <> (r, s)) by (intros [= -> ->]; by rewrite makeKey_sym in E).
      assert (E1 : d' a b = d a b) by (by apply Hd).
      assert (E2 : d' b a = d b a) by (apply Hd; congruence).
      destruct (credits_ tab !! makeKey a b xrpCurrency); [|by rewrite E1, E2].
      rewrite Hv. unfold valueFor, valueAt. by rewrite E1, E2.
Qed.

Section Tables.
Context (cfg : settings).

Lemma addPayment_at d s r n : addPayment d s r n s r = d s r + n.
Proof using. unfold addPayment. by rewrite decide_True. Qed.

Lemma addPayment_other d s r n a b : (a, b) <> (s, r) -> addPayment d s r n a b = d a b.
Proof using. intros Hne. unfold addPayment. rewrite decide_False; [done|]. intros [-> ->]. done. Qed.

Lemma credit_ok d B tab s r n :
  layer_ok d B tab -> (forall a b, B b a = - B a b) -> s <> r -> 0 <= n -> d s r + n <= cMaxNativeN ->
  exists tab', credit cfg s r (nativeAmount n) (nativeAmount (B s r - d s r + d r s)) tab = Ret tab' /\
    layer_ok (addPayment d s r n) B tab'.
Proof.
  intros Hl HB Hne Hn Hcap. pose proof (lo_value _ _ _ Hl s r Hne) as Hv. pose proof (lo_nonneg _ _ _ Hl s r) as Hnn.
  set (d' := addPayment d s r n).
  assert (Esr : d' s r = d s r + n) by apply addPayment_at.
  assert (Ers : d' r s = d r s) by (apply addPayment_other; congruence).
  exists (mkTab (<[makeKey s r xrpCurrency := valueFor d' B s r]> (credits_ tab)) (ownerCounts_ tab)). split.
  - unfold credit. change (getCurrency (nativeAmount n)) with (@Ret Blob xrpCurrency). rewrite Ret_bind.
    destruct (credits_ tab !! makeKey s r xrpCurrency) as [v|].
    + rewrite Hv. unfold valueFor, valueAt. destruct (acct_ltb s r); cbn [highAcctCredits lowAcctCredits lowAcctOrigBalance];
        (rewrite drops_add by lia); rewrite !Ret_bind, Esr, Ers; done.
    + destruct Hv as [Hv1 Hv2]. rewrite Hv1, Hv2 in *. rewrite Ret_bind. unfold valueFor, valueAt.
      rewrite drops_neg, !drops_zeroed, Esr, Ers, (HB s r). destruct (acct_ltb s r); do 5 f_equal; lia.
  - apply layer_ok_set with (d := d); [done|done|..].
    + intros a b. unfold d', addPayment. pose proof (lo_nonneg _ _ _ Hl a b). destruct (decide _); lia.
    + intros a b H1 _. by apply addPayment_other.
Qed.

(** ** Applying a table to the one below *)

Lemma mergeCredits_spec l to :
  NoDup l.*1 ->
  (forall k v t, (k, v) ∈ l -> to !! k = Some t -> exists lo hi,
     amount_add cfg (lowAcctCredits t) (lowAcctCredits v) = Ret lo /\ amount_add cfg (highAcctCredits t) (highAcctCredits v) = Ret hi) ->
  exists r, mergeCredits cfg l to = Ret r /\ (forall k, k ∉ l.*1 -> r !! k = to !! k) /\
    (forall k v, (k, v) ∈ l ->
       match to !! k with
       | None => r !! k = Some v
       | Some t => exists lo hi, amount_add cfg (lowAcctCredits t) (lowAcctCredits v) = Ret lo /\
           amount_add cfg (highAcctCredits t) (highAcctCredits v) = Ret hi /\ r !! k = Some (mkValue lo hi (lowAcctOrigBalance t))
       end).
Proof.
  revert to. induction l as [|[k v] l IH]; intros to Hnd Hadd.
  - exists to. split_and!; [done..|]. intros k v Hin. by apply not_elem_of_nil in Hin.
  - rewrite fmap_cons in Hnd |- *. apply NoDup_cons in Hnd as [Hk Hnd]. simpl in Hk.
    assert (Hstep : exists v', (match to !! k with None => Ret v | Some toVal =>
           amount_add cfg (lowAcctCredits toVal) (lowAcctCredits v) ≫= fun lo =>
           amount_add cfg (highAcctCredits toVal) (highAcctCredits v) ≫= fun hi => Ret (mkValue lo hi (lowAcctOrigBalance toVal)) end) = Ret v' /\
       match to !! k with None => v' = v | Some t => exists lo hi, amount_add cfg (lowAcctCredits t) (lowAcctCredits v) = Ret lo /\
           amount_add cfg (highAcctCredits t) (highAcctCredits v) = Ret hi /\ v' = mkValue lo hi (lowAcctOrigBalance t) end).
    { destruct (to !! k) as [t|] eqn:E; [|by exists v]. destruct (Hadd k v t) as (lo & hi & E1 & E2); [by left|done|].
      exists (mkValue lo hi (lowAcctOrigBalance t)). rewrite E1, Ret_bind, E2, Ret_bind. split; [done|]. by exists lo, hi. }
    destruct Hstep as (v' & Ev & Hv'). destruct (IH (<[k := v']> to)) as (r & Er & Hout & Hin); [done| |].
    { intros k' v2 t Hkv Ht. apply (Hadd k' v2 t); [by right|]. rewrite lookup_insert_ne in Ht; [done|].
      intros <-. apply Hk. by apply (list_elem_of_fmap_2 fst _ _ Hkv). }
    exists r. split_and!.
    + cbn [mergeCredits]. by rewrite Ev, Ret_bind.
    + intros k' Hk'. apply not_elem_of_cons in Hk' as [Hne Hk']. simpl in Hne. rewrite (Hout k' Hk'). by rewrite lookup_insert_ne by congruence.
    + intros k' v2 [[= -> ->]|Hkv]%elem_of_cons.
      * assert (Hr : r !! k = Some v') by (by rewrite (Hout k Hk), lookup_insert_eq).
        destruct (to !! k) as [t|]; [|congruence]. destruct Hv' as (lo & hi & ? & ? & ->). by exists lo, hi.
      * assert (Hne : k <> k') by (intros <-; apply Hk; by apply (list_elem_of_fmap_2 fst _ _ Hkv)).
        specialize (Hin k' v2 Hkv). by rewrite lookup_insert_ne in Hin.
Qed.

(** The entries of a pair of accounts, added. *)
Lemma valueFor_add dc dp B Bc a b :
  (forall a b, 0 <= dc a b) -> (forall a b, 0 <= dp a b) -> dc a b + dp a b <= cMaxNativeN -> dc b a + dp b a <= cMaxNativeN ->
  amount_add cfg (lowAcctCredits (valueFor dp B a b)) (lowAcctCredits (valueFor dc Bc a b)) = Ret (lowAcctCredits (valueFor (addAll dc dp) B a b)) /\
  amount_add cfg (highAcctCredits (valueFor dp B a b)) (highAcctCredits (valueFor dc Bc a b)) = Ret (highAcctCredits (valueFor (addAll dc dp) B a b)).
Proof using.
  intros Hc Hp Hcap1 Hcap2. unfold valueFor, valueAt, addAll.
  pose proof (Hc a b). pose proof (Hc b a). pose proof (Hp a b). pose proof (Hp b a).
  destruct (acct_ltb a b); cbn [lowAcctCredits highAcctCredits]; rewrite !drops_add by lia; split; do 2 f_equal; lia.
Qed.

(** The pairs in both tables are added, for the balances of the lower one. *)
Lemma applyTab_ok dc dp B Bc c p :
  layer_ok dc Bc c -> layer_ok dp B p -> (forall a b, Bc a b = B a b - dp a b + dp b a) ->
  (forall a b, a <> b -> dc a b + dp a b <= cMaxNativeN) ->
  exists p', applyTab cfg c p = Ret p' /\ layer_ok (addAll dc dp) B p'.
Proof.
  intros Hc Hp HB Hcap. pose proof (fun a b Hne => valueFor_add dc dp B Bc a b (lo_nonneg _ _ _ Hc) (lo_nonneg _ _ _ Hp) (Hcap a b Hne) (Hcap b a (not_eq_sym Hne))) as Hadd.
  destruct (mergeCredits_spec (map_to_list (credits_ c)) (credits_ p)) as (r & Er & Hout & Hin).
  { apply NoDup_fst_map_to_list. }
  { intros k v t Hk%elem_of_map_to_list Ht. destruct (lo_keys _ _ _ Hc _ _ Hk) as (a & b & Hne & ->).
    pose proof (lo_value _ _ _ Hc a b Hne) as Hv. pose proof (lo_value _ _ _ Hp a b Hne) as Ht'. rewrite Hk in Hv. rewrite Ht in Ht'.
    subst v t. destruct (Hadd a b Hne). by eexists _, _. }
  assert (Hnot : forall k, credits_ c !! k = None -> r !! k = credits_ p !! k).
  { intros k Hk. apply Hout. intros ([k' v] & -> & Hkv%elem_of_map_to_list)%list_elem_of_fmap. simpl in Hk. congruence. }
  exists (mkTab r (union_with (fun a b => Some (Z.max a b)) (ownerCounts_ p) (ownerCounts_ c))).
  unfold applyTab. rewrite Er, Ret_bind. split; [done|]. split; simpl.
  - intros a b. unfold addAll. pose proof (lo_nonneg _ _ _ Hc a b). pose proof (lo_nonneg _ _ _ Hp a b). lia.
  - intros k v Hk. destruct (credits_ c !! k) as [v0|] eqn:E; [exact (lo_keys _ _ _ Hc _ _ E)|]. rewrite (Hnot k E) in Hk. exact (lo_keys _ _ _ Hp _ _ Hk).
  - intros a b Hne. pose proof (lo_value _ _ _ Hc a b Hne) as Hv. pose proof (lo_value _ _ _ Hp a b Hne) as Ht.
    destruct (credits_ c !! makeKey a b xrpCurrency) as [v|] eqn:E.
    + specialize (Hin _ _ (proj2 (elem_of_map_to_list _ _ _) E)).
      destruct (credits_ p !! makeKey a b xrpCurrency) as [t|].
      * destruct Hin as (lo & hi & E1 & E2 & ->). subst v t. destruct (Hadd a b Hne) as [E1' E2']. rewrite E1' in E1. rewrite E2' in E2.
        injection E1 as <-. injection E2 as <-. unfold valueFor. by destruct (acct_ltb a b).
      * rewrite Hin, Hv. destruct Ht as [Z1 Z2]. unfold valueFor, valueAt, addAll. rewrite !HB, Z1, Z2.
        destruct (acct_ltb a b); do 2 f_equal; lia.
    + rewrite (Hnot _ E). destruct Hv as [Z1 Z2]. unfold addAll. rewrite Z1, Z2.
      destruct (credits_ p !! makeKey a b xrpCurrency); [|lia]. rewrite Ht. unfold valueFor, valueAt. rewrite Z1, Z2. by destruct (acct_ltb a b).
Qed.

(** ** The stack of sandboxes *)

Fixpoint stack_ok (start : ledgerOf) (tabs : list DeferredCredits) (ds : list ledgerOf) : Prop :=
  match tabs, ds with
  | [], [] => True
  | tab :: tabs, d :: ds => layer_ok d (balance start ds) tab /\ stack_ok start tabs ds
  | _, _ => False
  end.

Lemma balance_sym start ds : (forall a b, start b a = - start a b) -> forall a b, balance start ds b a = - balance start ds a b.
Proof using. intros Hs a b. induction ds as [|d ds IH]; simpl; [apply Hs|]. rewrite IH. lia. Qed.

Lemma paid_nonneg start tabs ds a b : stack_ok start tabs ds -> 0 <= paid ds a b.
Proof using.
  revert tabs. induction ds as [|d ds IH]; intros [|tab tabs]; simpl; try done. intros [Hl Hs].
  pose proof (lo_nonneg _ _ _ Hl a b). specialize (IH _ Hs). lia.
Qed.

Lemma balance_paid start ds a b : balance start ds a b = start a b - paid ds a b + paid ds b a.
Proof using. induction ds as [|d ds IH]; simpl; lia. Qed.

Lemma adjustments_layer d B tab a b :
  layer_ok d B tab -> (forall a b, B b a = - B a b) -> a <> b ->
  match adjustments a b xrpCurrency tab with
  | None => d a b = 0 /\ d b a = 0
  | Some adj => adj = mkAdjustment (nativeAmount (d a b)) (nativeAmount (d b a)) (nativeAmount (B a b))
  end.
Proof using.
  intros Hl HB Hne. pose proof (lo_value _ _ _ Hl a b Hne) as Hv. unfold adjustments.
  destruct (credits_ tab !! makeKey a b xrpCurrency) as [v|]; [|done]. rewrite Hv. unfold valueFor, valueAt.
  destruct (acct_ltb a b); simpl; [done|]. rewrite drops_neg, HB. do 3 f_equal. lia.
Qed.

(** The loop of the hook: the last balance is the one before the sandboxes. *)
Lemma collect_spec start tabs ds a b x w :
  stack_ok start tabs ds -> (forall a b, start b a = - start a b) -> a <> b -> 0 <= x ->
  x + paid ds a b <= cMaxNativeN ->
  exists w', collect cfg a b xrpCurrency tabs (nativeAmount x) (nativeAmount (balance start ds a b)) (nativeAmount w) =
      Ret (nativeAmount (x + paid ds a b), nativeAmount (start a b), nativeAmount w') /\
    w' <= w /\ Z.min w (start a b - paid ds a b) <= w'.
Proof.
  intros Hs Hsym Hne. revert tabs x w Hs. induction ds as [|d ds IH]; intros [|tab tabs] x w Hs Hx Hcap; simpl in Hs; try done; cbn [collect paid balance].
  { exists w. split_and!; [do 4 f_equal; lia|lia|lia]. }
  destruct Hs as [Hl Hs]. pose proof (adjustments_layer d _ tab a b Hl (balance_sym start ds Hsym) Hne) as Hadj.
  pose proof (lo_nonneg _ _ _ Hl a b). pose proof (lo_nonneg _ _ _ Hl b a). pose proof (paid_nonneg _ _ _ a b Hs). pose proof (paid_nonneg _ _ _ b a Hs).
  cbn [paid] in Hcap. destruct (adjustments a b xrpCurrency tab) as [adj|].
  - subst adj. cbn [debits origBalance]. rewrite drops_add, Ret_bind, drops_ltb, Ret_bind by lia.
    pose proof (balance_paid start ds a b) as Hb.
    destruct (IH tabs (x + d a b) (Z.min (balance start ds a b) w)) as (w' & E & Hw1 & Hw2); [done|lia|lia|].
    exists w'. split_and!; [|lia|lia].
    replace (x + (d a b + paid ds a b)) with (x + d a b + paid ds a b) by lia. rewrite <- E. f_equal.
    destruct (Z.ltb_spec (balance start ds a b) w); f_equal; lia.
  - destruct Hadj as [Z1 Z2]. rewrite Z1, Z2. replace (balance start ds a b - 0 + 0) with (balance start ds a b) by lia.
    destruct (IH tabs x w) as (w' & E & Hw1 & Hw2); [done|lia|lia|]. exists w'. split_and!; [by replace (0 + paid ds a b) with (paid ds a b) by lia|lia|lia].
Qed.

(** The balance an account can use. *)
Lemma balanceHook_spec start tabs ds a b :
  stack_ok start tabs ds -> (forall a b, start b a = - start a b) -> a <> b ->
  Z.abs (start a b) + paid ds a b + paid ds b a <= cMaxNativeN ->
  balanceHook cfg tabs a b (nativeAmount (balance start ds a b)) =
    Ret (nativeAmount (let usable := start a b - paid ds a b in if isXRP b then Z.max 0 usable else usable)).
Proof.
  intros Hs Hsym Hne Hcap. pose proof (paid_nonneg _ _ _ a b Hs). pose proof (paid_nonneg _ _ _ b a Hs).
  unfold balanceHook. change (getCurrency (nativeAmount _)) with (@Ret Blob xrpCurrency). rewrite Ret_bind, drops_zeroed.
  destruct (collect_spec start tabs ds a b 0 (balance start ds a b) Hs Hsym Hne) as (w & E & Hw1 & Hw2); [lia|lia|].
  rewrite E, Ret_bind. unfold amount_sub. rewrite drops_neg, drops_add, Ret_bind by lia. rewrite drops_min, Ret_bind, drops_min, Ret_bind.
  change (getIssuer (nativeAmount _)) with (@Ret Blob xrpAccount). rewrite Ret_bind.
  pose proof (balance_paid start ds a b) as Hb.
  replace (Z.min (Z.min (balance start ds a b) (start a b + - (0 + paid ds a b))) w) with (start a b - paid ds a b) by lia.
  change (setIssuer xrpAccount (nativeAmount ?n)) with (@Ret STAmount (nativeAmount n)). rewrite Ret_bind. f_equal.
  set (u := start a b - paid ds a b). unfold amount_signum. cbn [mValue mIsNegative nativeAmount].
  destruct (isXRP b); [|done]. cbn [andb]. change (clear (nativeAmount u)) with (nativeAmount 0).
  destruct (Z.eqb_spec (Z.abs u) 0) as [Hz|Hz]; cbn iota; [|destruct (Z.ltb_spec u 0)]; cbn [Z.ltb Z.compare]; f_equal; lia.
Qed.

(** ** Runs *)

Lemma payStep_ok start op tabs ds :
  stack_ok start tabs ds -> ds <> [] -> (forall a b, start b a = - start a b) -> pay_ok op ->
  (forall a b, a <> b -> Z.abs (start a b) + paid ds a b + paid ds b a + paidBy op <= cMaxNativeN) ->
  exists tabs' ds', payStep cfg start op tabs ds = Ret (tabs', ds') /\ stack_ok start tabs' ds' /\ ds' <> [] /\
    (forall a b, a <> b -> paid ds' a b + paid ds' b a <= paid ds a b + paid ds b a + paidBy op).
Proof.
  intros Hs Hds Hsym Hop Hcap. destruct ds as [|d ds]; [done|]. destruct tabs as [|tab tabs]; [done|]. destruct Hs as [Hl Hs].
  destruct op as [s r n| | |]; cbn [payStep].
  - destruct Hop as [Hne Hn]. cbn [paidBy paid] in Hcap.
    pose proof (Hcap s r Hne) as Hc. pose proof (paid_nonneg _ _ _ s r Hs). pose proof (paid_nonneg _ _ _ r s Hs).
    pose proof (lo_nonneg _ _ _ Hl r s).
    destruct (credit_ok d (balance start ds) tab s r n Hl (balance_sym start ds Hsym) Hne Hn) as (tab' & E & Hl'); [lia|].
    exists (tab' :: tabs), (addPayment d s r n :: ds). cbn [creditHook balance]. rewrite E, !Ret_bind.
    split; [done|]. split; [exact (conj Hl' Hs)|]. split; [done|].
    intros a b Hab. cbn [paid paidBy]. unfold addPayment. destruct (decide (a = s /\ b = r)), (decide (b = s /\ a = r)); [|lia..].
    destruct_and!. congruence.
  - exists (emptyTab :: tab :: tabs), (noPayments :: d :: ds). split_and!; [done|split; [apply layer_ok_empty|done]|done|].
    intros a b _. cbn [paid paidBy]. unfold noPayments. lia.
  - destruct ds as [|dp ds], tabs as [|p tabs]; try done.
    { eexists _, _. split_and!; [done|done|done|]. intros a b _. cbn [paid paidBy]. lia. }
    destruct Hs as [Hlp Hs].
    destruct (applyTab_ok d dp (balance start ds) (balance start (dp :: ds)) tab p Hl Hlp) as (p' & E & Hl').
    + done.
    + intros a b Hab. specialize (Hcap a b Hab). cbn [paid paidBy] in Hcap. pose proof (paid_nonneg _ _ _ a b Hs). pose proof (paid_nonneg _ _ _ b a Hs).
      pose proof (lo_nonneg _ _ _ Hl b a). pose proof (lo_nonneg _ _ _ Hlp b a). lia.
    + rewrite E, Ret_bind. eexists _, _. split; [done|]. split; [exact (conj Hl' Hs)|]. split; [done|].
      intros a b _. cbn [paid paidBy]. unfold addAll. lia.
  - destruct ds as [|dp ds], tabs as [|p tabs]; try done; eexists _, _; (split_and!; [done|done|done|]); intros a b _; cbn [paid paidBy]; [lia|].
    pose proof (lo_nonneg _ _ _ Hl a b). pose proof (lo_nonneg _ _ _ Hl b a). lia.
Qed.

Lemma payRun_ok start ops tabs ds :
  stack_ok start tabs ds -> ds <> [] -> (forall a b, start b a = - start a b) -> Forall pay_ok ops ->
  (forall a b, a <> b -> Z.abs (start a b) + paid ds a b + paid ds b a + foldr Z.add 0 (paidBy <$> ops) <= cMaxNativeN) ->
  exists tabs' ds', payRun cfg start ops tabs ds = Ret (tabs', ds') /\ stack_ok start tabs' ds' /\ ds' <> [] /\
    (forall a b, a <> b -> Z.abs (start a b) + paid ds' a b + paid ds' b a <= cMaxNativeN).
Proof.
  intros Hs Hds Hsym Hops. revert tabs ds Hs Hds. induction Hops as [|op ops Hop Hops IH]; intros tabs ds Hs Hds Hcap.
  - exists tabs, ds. split_and!; [done..|]. intros a b Hab. specialize (Hcap a b Hab). simpl in Hcap. lia.
  - assert (Hpos : 0 <= foldr Z.add 0 (paidBy <$> ops)).
    { clear -Hops. induction Hops as [|op ops Hop _ IH]; [done|]. rewrite fmap_cons. cbn [foldr]. destruct op; cbn [paidBy pay_ok] in *; lia. }
    destruct (payStep_ok start op tabs ds Hs Hds Hsym Hop) as (tabs1 & ds1 & E & Hs1 & Hds1 & Hp1).
    { intros a b Hab. specialize (Hcap a b Hab). rewrite fmap_cons in Hcap. cbn [foldr] in Hcap. lia. }
    destruct (IH tabs1 ds1 Hs1 Hds1) as (tabs2 & ds2 & E2 & Hrest).
    { intros a b Hab. specialize (Hcap a b Hab). specialize (Hp1 a b Hab). rewrite fmap_cons in Hcap. cbn [foldr] in Hcap. lia. }
    exists tabs2, ds2. simpl. by rewrite E, Ret_bind.
Qed.

End Tables.

(** ** Properties *)

(** C12: A payment cannot use what it credits.  Start with the balances of any
    accounts toward each other and one sandbox, and let the payment move XRP
    between accounts, open sandboxes on the innermost one, and apply the
    innermost to the one below or throw it away, in any order, with amounts
    that stay below the number of drops there are.  Nothing throws, and for the
    balance an account then has, [balanceHook] gives exactly the balance it had
    at the start less all it paid in the sandboxes that are left; what was
    credited to it does not count.  Toward XRP itself a negative result is
    zero. *)
Theorem credits_unusable (cfg : settings) (start : ledgerOf) (ops : list payOp)
    (Hsym : forall a b, start b a = - start a b) (Hops : Forall pay_ok ops)
    (Hcap : forall a b, Z.abs (start a b) + foldr Z.add 0 (paidBy <$> ops) <= cMaxNativeN) :
  exists tabs ds, payRun cfg start ops [emptyTab] [noPayments] = Ret (tabs, ds) /\
    forall a b, a <> b ->
      balanceHook cfg tabs a b (nativeAmount (balance start ds a b)) =
        Ret (nativeAmount (let usable := start a b - paid ds a b in if isXRP b then Z.max 0 usable else usable)).
Proof.
  destruct (payRun_ok cfg start ops [emptyTab] [noPayments]) as (tabs & ds & E & Hs & _ & Hc); [|done|done|done| |].
  - split; [apply layer_ok_empty|done].
  - intros a b _. specialize (Hcap a b). simpl. unfold noPayments. lia.
  - exists tabs, ds. split; [done|]. intros a b Hab. apply balanceHook_spec; auto.
Qed.

(** The owner count of an account is the greatest that was seen. *)
Lemma ownerCountHook_max tabs account count c :
  count <= ownerCountHook tabs account count /\
  (c ∈ omap (ownerCount account) tabs -> c <= ownerCountHook tabs account count).
Proof.
  revert count. induction tabs as [|tab tabs IH]; intros count; simpl.
  - split; [unfold ownerCountHook; simpl; lia|]. intros Hc. by apply not_elem_of_nil in Hc.
  - unfold ownerCountHook in *. simpl. destruct (ownerCount account tab) as [x|].
    + destruct (IH (Z.max count x)) as [H1 H2]. split; [lia|]. intros [->|Hc]%elem_of_cons; [lia|auto].
    + apply IH.
Qed.

(** The totals of [balanceChanges] after one change of a balance: twice the
    change, as what was just put in is added again. *)
Lemma total_doubled (cfg : settings) lo hi old new : lo <> hi ->
  Z.abs new <= cMaxNativeN -> Z.abs old <= cMaxNativeN -> Z.abs (2 * (new - old)) <= cMaxNativeN ->
  exists r, recordChange cfg lo hi (nativeAmount old) (nativeAmount new) ∅ = Ret r /\
    r !! (lo, lo, xrpCurrency) = Some (nativeAmount (2 * (new - old))) /\
    r !! (hi, hi, xrpCurrency) = Some (nativeAmount (2 * (old - new))).
Proof.
  intros Hne Hn Ho Hd. unfold recordChange, amount_sub. rewrite drops_neg, drops_add, Ret_bind by lia.
  change (getCurrency (nativeAmount new)) with (@Ret Blob xrpCurrency). rewrite Ret_bind.
  rewrite (lookup_insert_ne _ (lo, hi, xrpCurrency) (lo, lo, xrpCurrency)), lookup_empty by congruence.
  rewrite drops_add, !Ret_bind by lia.
  rewrite (lookup_insert_ne _ (lo, lo, xrpCurrency) (hi, hi, xrpCurrency)), (lookup_insert_ne _ (lo, hi, xrpCurrency) (hi, hi, xrpCurrency)), lookup_empty by congruence.
  rewrite drops_neg, drops_add, !Ret_bind by lia. eexists. split_and!; [done|..].
  - rewrite lookup_insert_ne, lookup_insert_eq by congruence. do 2 f_equal. lia.
  - rewrite lookup_insert_eq. do 2 f_equal. lia.
Qed.

Module SamplePayment.

Definition alice : Blob := replicate 20 3.
Definition bob : Blob := replicate 20 7.

(** Alice has 500 drops, Bob none. *)
Definition start0 : ledgerOf := fun a b =>
  if decide (a = alice /\ b = xrpAccount) then 500 else if decide (a = xrpAccount /\ b = alice) then -500 else 0.

Definition ops0 : list payOp :=
  [Pay alice xrpAccount 100; OpenSandbox; Pay xrpAccount bob 100; Pay xrpAccount alice 70; ApplySandbox; OpenSandbox; Pay alice xrpAccount 30;
   OpenSandbox; Pay alice xrpAccount 5; DiscardSandbox].

(** Alice has 440 drops, of which 370 can be used; Bob has 100 and can use none. *)
Lemma credits_unusable_witness :
  exists tabs ds, payRun currentSettings start0 ops0 [emptyTab] [noPayments] = Ret (tabs, ds) /\
    balanceHook currentSettings tabs alice xrpAccount (nativeAmount 440) = Ret (nativeAmount 370) /\
    balanceHook currentSettings tabs bob xrpAccount (nativeAmount 100) = Ret (nativeAmount 0).
Proof.
  destruct (credits_unusable currentSettings start0 ops0) as (tabs & ds & E & Hhook).
  - assert (alice <> xrpAccount) by (vm_compute; discriminate).
    intros a b. unfold start0. repeat case_decide; destruct_and?; first [lia|exfalso; naive_solver].
  - repeat constructor; first [discriminate|lia].
  - intros a b. unfold start0. repeat destruct (decide _); vm_compute; discriminate.
  - exists tabs, ds. split; [exact E|].
    assert (Eds : ds = match payRun currentSettings start0 ops0 [emptyTab] [noPayments] with Ret (_, ds) => ds | Throw _ => [] end) by by rewrite E.
    assert (Ha : balance start0 ds alice xrpAccount = 440 /\ paid ds alice xrpAccount = 130) by (rewrite Eds; vm_compute; split; reflexivity).
    assert (Hb : balance start0 ds bob xrpAccount = 100 /\ paid ds bob xrpAccount = 0) by (rewrite Eds; vm_compute; split; reflexivity).
    pose proof (Hhook alice xrpAccount ltac:(discriminate)) as Halice. pose proof (Hhook bob xrpAccount ltac:(discriminate)) as Hbob.
    rewrite (proj1 Ha), (proj2 Ha) in Halice. rewrite (proj1 Hb), (proj2 Hb) in Hbob. split; [exact Halice|exact Hbob].
Defined.

End SamplePayment.
