(* ===== verification/SHAMap.v ===== *)
(** * The Merkle radix tree of a ledger

    Models [src/xrpld/shamap]: the tree of [SHAMap.cpp] that holds the state or
    the transactions of a ledger, its node identifiers ([SHAMapNodeID.cpp]), the
    hashes of its nodes ([SHAMapInnerNode.cpp] and the leaf nodes), the
    comparison of two trees ([SHAMapDelta.cpp]), the nodes on the wire and in the
    store ([SHAMapTreeNode.cpp]), and the proofs that a leaf is in a tree
    ([SHAMapSync.cpp]).

    Nodes are values.  In the code a map copies a node before it changes it
    unless it is the only owner ([unshareNode]), and sets the hash of a node when
    it is needed ([updateHashDeep]); here a changed node is a new value, and the
    hash is a function of it.  Nodes that are not in memory ([fetchNode]) are not
    modelled.  [sha512Half] is an argument. *)

From stdpp Require Import strings.
From S2P Require Import Prelude Outcome Serializer SerializerFacts STAccess.

Inductive SHAMapNodeType := tnTRANSACTION_NM | tnTRANSACTION_MD | tnACCOUNT_STATE.

#[export] Instance SHAMapNodeType_eq_dec : EqDecision SHAMapNodeType.
Proof. solve_decision. Defined.

Record SHAMapItem := mkItem { tag_ : Z; slice : Blob }.

#[export] Instance SHAMapItem_eq_dec : EqDecision SHAMapItem.
Proof. solve_decision. Defined.

(** The sixteen branches of an inner node; an empty one is [None]. *)
Inductive SHAMapTreeNode :=
  | Leaf (type : SHAMapNodeType) (item : SHAMapItem)
  | Inner (children : list (option SHAMapTreeNode)).

Definition branchFactor : nat := 16.
Definition leafDepth : Z := 64.

(** ** Node identifiers *)

Record SHAMapNodeID := mkNodeID { id_ : Z; depth_ : Z }.

Definition rootID : SHAMapNodeID := mkNodeID 0 0.

Definition isRoot (nodeID : SHAMapNodeID) : bool := depth_ nodeID =? 0.

Definition depthMask (depth : Z) : Z := Z.shiftl (Z.ones (4 * depth)) (256 - 4 * depth).

Definition getChildNodeID (m : nat) (nodeID : SHAMapNodeID) : outcome SHAMapNodeID :=
  if leafDepth <=? depth_ nodeID then Throw "Request for child node ID"
  else if negb (id_ nodeID =? Z.land (id_ nodeID) (depthMask (depth_ nodeID))) then Throw "Incorrect mask"
  else Ret (mkNodeID (Z.lor (id_ nodeID) (Z.shiftl (Z.of_nat m) (4 * (63 - depth_ nodeID)))) (depth_ nodeID + 1)).

(** The digit of a key at the depth of a node. *)
Definition selectBranch (nodeID : SHAMapNodeID) (key : Z) : nat :=
  Z.to_nat (Z.land (Z.shiftr key (4 * (63 - depth_ nodeID))) 15).

(** ** Inner nodes *)

Definition newInner : SHAMapTreeNode := Inner (replicate branchFactor None).

Definition getChild (children : list (option SHAMapTreeNode)) (branch : nat) : option SHAMapTreeNode := default None (children !! branch).

Definition isEmptyBranch (children : list (option SHAMapTreeNode)) (branch : nat) : bool :=
  match getChild children branch with Some _ => false | None => true end.

Definition setChild (branch : nat) (child : option SHAMapTreeNode) (children : list (option SHAMapTreeNode)) : list (option SHAMapTreeNode) :=
  <[branch := child]> children.

Definition getBranchCount (children : list (option SHAMapTreeNode)) : nat := length (List.filter (fun o => match o with Some _ => true | None => false end) children).

(** ** Walking towards a key *)

Abbreviation NodeStack := (list (SHAMapTreeNode * SHAMapNodeID)).

Fixpoint walkTowardsKey (fuel : nat) (inNode : SHAMapTreeNode) (nodeID : SHAMapNodeID) (id : Z) (stack : NodeStack)
    : outcome (option (SHAMapNodeType * SHAMapItem) * NodeStack) :=
  match inNode with
  | Leaf type item => Ret (Some (type, item), (inNode, nodeID) :: stack)
  | Inner children =>
      match fuel with
      | O => Throw "out of fuel"
      | S fuel =>
          let stack := (inNode, nodeID) :: stack in
          let branch := selectBranch nodeID id in
          match getChild children branch with
          | None => Ret (None, stack)
          | Some child => getChildNodeID branch nodeID ≫= fun nodeID => walkTowardsKey fuel child nodeID id stack
          end
      end
  end.

(** The levels below the root, and one for the root. *)
Definition walk (root : SHAMapTreeNode) (id : Z) : outcome (option (SHAMapNodeType * SHAMapItem) * NodeStack) :=
  walkTowardsKey 65 root rootID id [].

Definition findKey (id : Z) (root : SHAMapTreeNode) : outcome (option (SHAMapNodeType * SHAMapItem)) :=
  walk root id ≫= fun '(leaf, _) =>
  Ret (match leaf with Some (type, item) => if tag_ item =? id then Some (type, item) else None | None => None end).

Definition peekItem (id : Z) (root : SHAMapTreeNode) : outcome (option SHAMapItem) :=
  findKey id root ≫= fun leaf => Ret (match leaf with Some (_, item) => Some item | None => None end).

Definition hasItem (id : Z) (root : SHAMapTreeNode) : outcome bool :=
  findKey id root ≫= fun leaf => Ret (match leaf with Some _ => true | None => false end).

(** ** Changing the tree *)

(** [dirtyUp]: the nodes of the stack with their new children, up to the root. *)
Fixpoint dirtyUp (stack : NodeStack) (target : Z) (child : SHAMapTreeNode) : outcome SHAMapTreeNode :=
  match stack with
  | [] => Ret child
  | (Inner children, nodeID) :: stack => dirtyUp stack target (Inner (setChild (selectBranch nodeID target) (Some child) children))
  | (Leaf _ _, _) :: _ => Throw "non-null node"
  end.

(** The new inner nodes below a leaf that two items share. *)
Fixpoint splitLeaf (fuel : nat) (type : SHAMapNodeType) (item otherItem : SHAMapItem) (nodeID : SHAMapNodeID) (stack : NodeStack)
    : outcome (SHAMapTreeNode * NodeStack) :=
  match fuel with
  | O => Throw "out of fuel"
  | S fuel =>
      let b1 := selectBranch nodeID (tag_ item) in
      let b2 := selectBranch nodeID (tag_ otherItem) in
      if (b1 =? b2)%nat then
        getChildNodeID b1 nodeID ≫= fun childID => splitLeaf fuel type item otherItem childID ((newInner, nodeID) :: stack)
      else
        Ret (Inner (setChild b2 (Some (Leaf type otherItem)) (setChild b1 (Some (Leaf type item)) (replicate branchFactor None))), stack)
  end.

(** [addGiveItem] at the end of the walk. *)
Definition addAt (type : SHAMapNodeType) (item : SHAMapItem) (stack : NodeStack) (root : SHAMapTreeNode) : outcome (bool * SHAMapTreeNode) :=
  let tag := tag_ item in
  match stack with
  | [] => Throw "Missing node"
  | (Leaf _ otherItem, nodeID) :: stack =>
      if tag_ otherItem =? tag then Ret (false, root)
      else
        splitLeaf 65 type item otherItem nodeID stack ≫= fun '(node, stack) =>
        dirtyUp stack tag node ≫= fun root => Ret (true, root)
  | (Inner children, nodeID) :: stack =>
      dirtyUp stack tag (Inner (setChild (selectBranch nodeID tag) (Some (Leaf type item)) children)) ≫= fun root =>
      Ret (true, root)
  end.

Definition addGiveItem (type : SHAMapNodeType) (item : SHAMapItem) (root : SHAMapTreeNode) : outcome (bool * SHAMapTreeNode) :=
  walk root (tag_ item) ≫= fun '(_, stack) => addAt type item stack root.

(** [onlyBelow]: the item below a node, if it is the only one. *)
Fixpoint onlyBelow (fuel : nat) (node : SHAMapTreeNode) : option SHAMapItem :=
  match node with
  | Leaf _ item => Some item
  | Inner children =>
      match fuel with
      | O => None
      | S fuel => match omap id children with [nextNode] => onlyBelow fuel nextNode | _ => None end
      end
  end.

(** The loop of [delItem] up to the root. *)
Fixpoint removeUp (stack : NodeStack) (id : Z) (type : SHAMapNodeType) (prevNode : option SHAMapTreeNode) (root : SHAMapTreeNode) : outcome SHAMapTreeNode :=
  match stack with
  | [] => Ret root
  | (Inner children, nodeID) :: stack =>
      let children := setChild (selectBranch nodeID id) prevNode children in
      if isRoot nodeID then removeUp stack id type None (Inner children)
      else
        let prevNode :=
          match getBranchCount children with
          | O => None
          | S O => match onlyBelow 65 (Inner children) with Some item => Some (Leaf type item) | None => Some (Inner children) end
          | _ => Some (Inner children)
          end in
        removeUp stack id type prevNode root
  | (Leaf _ _, _) :: _ => Throw "inner node"
  end.

Definition delAt (id : Z) (stack : NodeStack) (root : SHAMapTreeNode) : outcome (bool * SHAMapTreeNode) :=
  match stack with
  | [] => Throw "Missing node"
  | (Leaf type item, _) :: stack =>
      if tag_ item =? id then removeUp stack id type None root ≫= fun root => Ret (true, root)
      else Ret (false, root)
  | (Inner _, _) :: _ => Ret (false, root)
  end.

Definition delItem (id : Z) (root : SHAMapTreeNode) : outcome (bool * SHAMapTreeNode) :=
  walk root id ≫= fun '(_, stack) => delAt id stack root.

(** ** Iteration *)

Definition firstChild (children : list (option SHAMapTreeNode)) : option SHAMapTreeNode := head (omap id children).
Definition lastChild (children : list (option SHAMapTreeNode)) : option SHAMapTreeNode := last (omap id children).

(** The loop of [belowHelper], for the first or the last branch that is not
    empty.  Every identifier it pushes is made from the branch it was given. *)
Fixpoint scanBelow (fuel : nat) (pick : list (option SHAMapTreeNode) -> option SHAMapTreeNode) (children : list (option SHAMapTreeNode))
    (stack : NodeStack) (branch : nat) : outcome (option (SHAMapNodeType * SHAMapItem) * NodeStack) :=
  match fuel with
  | O => Throw "out of fuel"
  | S fuel =>
      match pick children with
      | None => Ret (None, stack)
      | Some (Leaf type item) => Ret (Some (type, item), (Leaf type item, mkNodeID (tag_ item) leafDepth) :: stack)
      | Some (Inner children) =>
          match stack with
          | [] => Throw "non-empty stack"
          | (_, nodeID) :: _ =>
              getChildNodeID branch nodeID ≫= fun nodeID => scanBelow fuel pick children ((Inner children, nodeID) :: stack) branch
          end
      end
  end.

Definition belowHelper (pick : list (option SHAMapTreeNode) -> option SHAMapTreeNode) (node : SHAMapTreeNode) (stack : NodeStack) (branch : nat)
    : outcome (option (SHAMapNodeType * SHAMapItem) * NodeStack) :=
  match node with
  | Leaf type item => Ret (Some (type, item), (node, mkNodeID (tag_ item) leafDepth) :: stack)
  | Inner children =>
      (match stack with [] => Ret rootID | (_, nodeID) :: _ => getChildNodeID branch nodeID end) ≫= fun nodeID =>
      scanBelow 65 pick children ((node, nodeID) :: stack) branch
  end.

Definition firstBelow := belowHelper firstChild.
Definition lastBelow := belowHelper lastChild.

Definition peekFirstItem (root : SHAMapTreeNode) : outcome (option (SHAMapNodeType * SHAMapItem) * NodeStack) :=
  firstBelow root [] 0 ≫= fun '(leaf, stack) => Ret (leaf, match leaf with Some _ => stack | None => [] end).

(** The first branch behind another one, and the last before it, that is not
    empty. *)
Definition branchAfter (children : list (option SHAMapTreeNode)) (branch : nat) : option nat :=
  List.find (fun i => negb (isEmptyBranch children i)) (seq (S branch) (branchFactor - S branch)).

Definition branchBefore (children : list (option SHAMapTreeNode)) (branch : nat) : option nat :=
  List.find (fun i => negb (isEmptyBranch children i)) (rev (seq 0 branch)).

(** The loops of [peekNextItem] and [upper_bound], and of [lower_bound]. *)
Fixpoint moveUp (find : list (option SHAMapTreeNode) -> nat -> option nat)
    (below : SHAMapTreeNode -> NodeStack -> nat -> outcome (option (SHAMapNodeType * SHAMapItem) * NodeStack))
    (stack : NodeStack) (id : Z) : outcome (option (SHAMapNodeType * SHAMapItem) * NodeStack) :=
  match stack with
  | [] => Ret (None, [])
  | (Leaf _ _, _) :: _ => Throw "another node is not leaf"
  | (Inner children, nodeID) :: rest =>
      match find children (selectBranch nodeID id) with
      | Some i =>
          match getChild children i with
          | None => Throw "Missing node"
          | Some node =>
              below node stack i ≫= fun '(leaf, stack) =>
              match leaf with Some _ => Ret (leaf, stack) | None => Throw "Missing node" end
          end
      | None => moveUp find below rest id
      end
  end.

Definition peekNextItem (id : Z) (stack : NodeStack) : outcome (option (SHAMapNodeType * SHAMapItem) * NodeStack) :=
  match stack with
  | [] => Throw "non-empty stack"
  | _ :: stack => moveUp branchAfter firstBelow stack id
  end.

Definition upper_bound (id : Z) (root : SHAMapTreeNode) : outcome (option (SHAMapNodeType * SHAMapItem) * NodeStack) :=
  walk root id ≫= fun '(_, stack) =>
  match stack with
  | (Leaf type item, _) :: rest => if id <? tag_ item then Ret (Some (type, item), stack) else moveUp branchAfter firstBelow rest id
  | _ => moveUp branchAfter firstBelow stack id
  end.

Definition lower_bound (id : Z) (root : SHAMapTreeNode) : outcome (option (SHAMapNodeType * SHAMapItem) * NodeStack) :=
  walk root id ≫= fun '(_, stack) =>
  match stack with
  | (Leaf type item, _) :: rest => if tag_ item <? id then Ret (Some (type, item), stack) else moveUp branchBefore lastBelow rest id
  | _ => moveUp branchBefore lastBelow stack id
  end.

(** An iterator incremented to the end. *)
Fixpoint iterate (fuel : nat) (leaf : option (SHAMapNodeType * SHAMapItem)) (stack : NodeStack) : outcome (list SHAMapItem) :=
  match leaf with
  | None => Ret []
  | Some (_, item) =>
      match fuel with
      | O => Throw "out of fuel"
      | S fuel =>
          peekNextItem (tag_ item) stack ≫= fun '(leaf, stack) =>
          iterate fuel leaf stack ≫= fun l => Ret (item :: l)
      end
  end.

(** ** Hashes *)

Definition hpTxNode : Z := make_hash_prefix 83 78 68.
Definition hpLeafNode : Z := make_hash_prefix 77 76 78.
Definition hpInnerNode : Z := make_hash_prefix 77 73 78.

Section Hashes.
Context (sha512Half : Blob -> Blob).

Definition zeroHash : Blob := replicate 32 0.

(** The bytes that are hashed for a leaf. *)
Definition leafBytes (type : SHAMapNodeType) (item : SHAMapItem) : Blob :=
  match type with
  | tnTRANSACTION_NM => bigEndian 4 hpTransactionID ++ slice item
  | tnTRANSACTION_MD => bigEndian 4 hpTxNode ++ slice item ++ bigEndian 32 (tag_ item)
  | tnACCOUNT_STATE => bigEndian 4 hpLeafNode ++ slice item ++ bigEndian 32 (tag_ item)
  end.

(** [updateHash] of the nodes, with [getChildHash] of an empty branch zero. *)
Definition innerBytes (hashes : list Blob) : Blob := bigEndian 4 hpInnerNode ++ concat hashes.

Definition isNone (o : option SHAMapTreeNode) : bool := match o with None => true | Some _ => false end.

Fixpoint getHash (node : SHAMapTreeNode) : Blob :=
  match node with
  | Leaf type item => sha512Half (leafBytes type item)
  | Inner children =>
      if forallb isNone children then zeroHash
      else sha512Half (innerBytes (map (fun o => match o with Some child => getHash child | None => zeroHash end) children))
  end.

Definition getChildHash (o : option SHAMapTreeNode) : Blob := match o with Some child => getHash child | None => zeroHash end.

(** With the hash of the leaf unchanged nothing above it is touched. *)
Definition updateAt (type : SHAMapNodeType) (item : SHAMapItem) (stack : NodeStack) (root : SHAMapTreeNode) : outcome (bool * SHAMapTreeNode) :=
  let tag := tag_ item in
  match stack with
  | [] => Throw "Missing node"
  | (Leaf type' item', _) :: stack =>
      if negb (tag_ item' =? tag) then Ret (false, root)
      else if negb (bool_decide (type' = type)) then Ret (false, root)
      else if bool_decide (getHash (Leaf type' item) = getHash (Leaf type' item')) then Ret (true, root)
      else dirtyUp stack tag (Leaf type' item) ≫= fun root => Ret (true, root)
  | (Inner _, _) :: _ => Ret (false, root)
  end.

Definition updateGiveItem (type : SHAMapNodeType) (item : SHAMapItem) (root : SHAMapTreeNode) : outcome (bool * SHAMapTreeNode) :=
  walk root (tag_ item) ≫= fun '(_, stack) => updateAt type item stack root.

(** ** Differences of two trees *)

Definition DeltaRef : Type := option SHAMapItem * option SHAMapItem.

(** The table of differences, and how many more fit. *)
Definition Delta : Type := gmap Z DeltaRef * Z.

(** [differences.insert] and [--maxCount]: whether to go on. *)
Definition record (key : Z) (ref : DeltaRef) (d : Delta) : bool * Delta :=
  let differences := match d.1 !! key with Some _ => d.1 | None => <[key := ref]> d.1 end in
  let maxCount := d.2 - 1 in
  (0 <? maxCount, (differences, maxCount)).

Definition ref (isFirstMap : bool) (item other : option SHAMapItem) : DeltaRef := if isFirstMap then (item, other) else (other, item).

(** The loop of [walkBranch]; the item of the other map is dropped once it is
    matched ([emptyBranch]). *)
Fixpoint walkNodes (fuel : nat) (nodeStack : list SHAMapTreeNode) (otherMapItem : option SHAMapItem) (isFirstMap : bool) (d : Delta)
    : outcome (bool * option SHAMapItem * Delta) :=
  match nodeStack with
  | [] => Ret (true, otherMapItem, d)
  | node :: nodeStack =>
      match fuel with
      | O => Throw "out of fuel"
      | S fuel =>
          match node with
          | Inner children => walkNodes fuel (rev (omap id children) ++ nodeStack) otherMapItem isFirstMap d
          | Leaf _ item =>
              match otherMapItem with
              | Some other =>
                  if negb (tag_ item =? tag_ other) then
                    let '(go, d) := record (tag_ item) (ref isFirstMap (Some item) None) d in
                    if go then walkNodes fuel nodeStack otherMapItem isFirstMap d else Ret (false, otherMapItem, d)
                  else if negb (bool_decide (slice item = slice other)) then
                    let '(go, d) := record (tag_ item) (ref isFirstMap (Some item) (Some other)) d in
                    if go then walkNodes fuel nodeStack None isFirstMap d else Ret (false, None, d)
                  else walkNodes fuel nodeStack None isFirstMap d
              | None =>
                  let '(go, d) := record (tag_ item) (ref isFirstMap (Some item) None) d in
                  if go then walkNodes fuel nodeStack None isFirstMap d else Ret (false, None, d)
              end
          end
      end
  end.

(** The number of nodes of a tree. *)
Fixpoint nodeCount (node : SHAMapTreeNode) : nat :=
  match node with
  | Leaf _ _ => 1
  | Inner children => S (list_sum (map (fun o => match o with Some child => nodeCount child | None => 0%nat end) children))
  end.

Definition walkBranch (node : SHAMapTreeNode) (otherMapItem : option SHAMapItem) (isFirstMap : bool) (d : Delta) : outcome (bool * Delta) :=
  walkNodes (nodeCount node) [node] otherMapItem isFirstMap d ≫= fun '(go, other, d) =>
  if negb go then Ret (false, d)
  else match other with
       | Some other => Ret (record (tag_ other) (ref isFirstMap None (Some other)) d)
       | None => Ret (true, d)
       end.

(** The loop over the branches of two inner nodes: what is pushed, last first. *)
Fixpoint compareBranches (ours others : list (option SHAMapTreeNode)) (nodeStack : list (SHAMapTreeNode * SHAMapTreeNode)) (d : Delta)
    : outcome (bool * list (SHAMapTreeNode * SHAMapTreeNode) * Delta) :=
  match ours, others with
  | our :: ours, other :: others =>
      if bool_decide (getChildHash our = getChildHash other) then compareBranches ours others nodeStack d
      else
        match our, other with
        | None, None => Throw "Missing node"
        | Some iNode, None =>
            walkBranch iNode None true d ≫= fun '(go, d) =>
            if (go : bool) then compareBranches ours others nodeStack d else Ret (false, nodeStack, d)
        | None, Some iNode =>
            walkBranch iNode None false d ≫= fun '(go, d) =>
            if (go : bool) then compareBranches ours others nodeStack d else Ret (false, nodeStack, d)
        | Some a, Some b => compareBranches ours others ((a, b) :: nodeStack) d
        end
  | _, _ => Ret (true, nodeStack, d)
  end.

Fixpoint compareNodes (fuel : nat) (nodeStack : list (SHAMapTreeNode * SHAMapTreeNode)) (d : Delta) : outcome (bool * Delta) :=
  match nodeStack with
  | [] => Ret (true, d)
  | (ourNode, otherNode) :: nodeStack =>
      match fuel with
      | O => Throw "out of fuel"
      | S fuel =>
          match ourNode, otherNode with
          | Leaf _ ours, Leaf _ other =>
              if tag_ ours =? tag_ other then
                if bool_decide (slice ours = slice other) then compareNodes fuel nodeStack d
                else
                  let '(go, d) := record (tag_ ours) (Some ours, Some other) d in
                  if go then compareNodes fuel nodeStack d else Ret (false, d)
              else
                let '(go, d) := record (tag_ ours) (Some ours, None) d in
                if go then
                  let '(go, d) := record (tag_ other) (None, Some other) d in
                  if go then compareNodes fuel nodeStack d else Ret (false, d)
                else Ret (false, d)
          | Inner _, Leaf _ other =>
              walkBranch ourNode (Some other) true d ≫= fun '(go, d) => if (go : bool) then compareNodes fuel nodeStack d else Ret (false, d)
          | Leaf _ ours, Inner _ =>
              walkBranch otherNode (Some ours) false d ≫= fun '(go, d) => if (go : bool) then compareNodes fuel nodeStack d else Ret (false, d)
          | Inner ours, Inner others =>
              compareBranches ours others nodeStack d ≫= fun '(go, nodeStack, d) =>
              if (go : bool) then compareNodes fuel nodeStack d else Ret (false, d)
          end
      end
  end.

Definition compare (root otherRoot : SHAMapTreeNode) (maxCount : Z) : outcome (bool * gmap Z DeltaRef) :=
  if bool_decide (getHash root = getHash otherRoot) then Ret (true, ∅)
  else
    compareNodes (nodeCount root) [(root, otherRoot)] (∅, maxCount) ≫= fun '(ok, d) => Ret (ok, d.1).

(** ** Nodes on the wire and in the store *)

(** A node with the hashes of its children; [isBranch] has the bits of
    [isBranch_]. *)
Inductive WireNode :=
  | WireLeaf (type : SHAMapNodeType) (item : SHAMapItem)
  | WireInner (hashes : list Blob) (isBranch : list bool).

Definition wireOf (node : SHAMapTreeNode) : WireNode :=
  match node with
  | Leaf type item => WireLeaf type item
  | Inner children => WireInner (map getChildHash children) (map (fun o => negb (isNone o)) children)
  end.

(** [updateHash]. *)
Definition wireHash (node : WireNode) : Blob :=
  match node with
  | WireLeaf type item => sha512Half (leafBytes type item)
  | WireInner hashes isBranch => if existsb id isBranch then sha512Half (innerBytes hashes) else zeroHash
  end.

Definition wireTypeTransaction : Z := 0.
Definition wireTypeAccountState : Z := 1.
Definition wireTypeInner : Z := 2.
Definition wireTypeCompressedInner : Z := 3.
Definition wireTypeTransactionWithMeta : Z := 4.

(** The branches that are not empty, each with its number. *)
Fixpoint compressedBytes (i : nat) (hashes : list Blob) (isBranch : list bool) : Blob :=
  match hashes, isBranch with
  | hash :: hashes, b :: isBranch => (if (b : bool) then hash ++ [Z.of_nat i] else []) ++ compressedBytes (S i) hashes isBranch
  | _, _ => []
  end.

Definition serializeForWire (node : WireNode) : Blob :=
  match node with
  | WireLeaf tnTRANSACTION_NM item => slice item ++ [wireTypeTransaction]
  | WireLeaf tnTRANSACTION_MD item => slice item ++ bigEndian 32 (tag_ item) ++ [wireTypeTransactionWithMeta]
  | WireLeaf tnACCOUNT_STATE item => slice item ++ bigEndian 32 (tag_ item) ++ [wireTypeAccountState]
  | WireInner hashes isBranch =>
      if (length (List.filter id isBranch) <? 12)%nat then compressedBytes 0 hashes isBranch ++ [wireTypeCompressedInner]
      else concat hashes ++ [wireTypeInner]
  end.

Definition serializeWithPrefix (node : WireNode) : Blob :=
  match node with
  | WireLeaf type item => leafBytes type item
  | WireInner hashes _ => innerBytes hashes
  end.

Definition isNonZero (hash : Blob) : bool := negb (bool_decide (hash = zeroHash)).

Definition makeFullInner (data : Blob) : outcome WireNode :=
  if negb (length data =? 512)%nat then Throw "Invalid FI node"
  else
    let hashes := map (fun i => take 32 (drop (32 * i) data)) (seq 0 branchFactor) in
    Ret (WireInner hashes (map isNonZero hashes)).

Fixpoint readChunks (fuel : nat) (data : Blob) (hashes : list Blob) (isBranch : list bool) : outcome WireNode :=
  match data with
  | [] => Ret (WireInner hashes isBranch)
  | _ =>
      match fuel with
      | O => Throw "out of fuel"
      | S fuel =>
          let hash := take 32 data in
          let pos := Z.to_nat (nth 32 data 0) in
          if (branchFactor <=? pos)%nat then Throw "invalid CI node"
          else readChunks fuel (drop 33 data) (<[pos := hash]> hashes) (if isNonZero hash then <[pos := true]> isBranch else isBranch)
      end
  end.

(** At most sixteen chunks. *)
Definition makeCompressedInner (data : Blob) : outcome WireNode :=
  if negb (length data mod 33 =? 0)%nat || (33 * branchFactor <? length data)%nat then Throw "Invalid CI node"
  else readChunks branchFactor data (replicate branchFactor zeroHash) (replicate branchFactor false).

Definition makeTransaction (data : Blob) : outcome WireNode :=
  Ret (WireLeaf tnTRANSACTION_NM (mkItem (fromBytes (sha512Half (bigEndian 4 hpTransactionID ++ data))) data)).

Definition makeTransactionWithMeta (data : Blob) : outcome WireNode :=
  if (length data <? 32)%nat then Throw "Short TXN+MD node"
  else Ret (WireLeaf tnTRANSACTION_MD (mkItem (fromBytes (drop (length data - 32) data)) (take (length data - 32) data))).

Definition makeAccountState (data : Blob) : outcome WireNode :=
  if (length data <? 32)%nat then Throw "short AS node"
  else
    let tag := fromBytes (drop (length data - 32) data) in
    if tag =? 0 then Throw "Invalid AS node"
    else Ret (WireLeaf tnACCOUNT_STATE (mkItem tag (take (length data - 32) data))).

Definition makeFromWire (rawNode : Blob) : outcome (option WireNode) :=
  match last rawNode with
  | None => Ret None
  | Some type =>
      let rawNode := take (length rawNode - 1) rawNode in
      (if type =? wireTypeTransaction then makeTransaction rawNode
       else if type =? wireTypeAccountState then makeAccountState rawNode
       else if type =? wireTypeInner then makeFullInner rawNode
       else if type =? wireTypeCompressedInner then makeCompressedInner rawNode
       else if type =? wireTypeTransactionWithMeta then makeTransactionWithMeta rawNode
       else Throw "wire: Unknown type") ≫= fun node => Ret (Some node)
  end.

Definition makeFromPrefix (rawNode : Blob) : outcome WireNode :=
  if (length rawNode <? 4)%nat then Throw "prefix: short node"
  else
    let type := fromBytes (take 4 rawNode) in
    let rawNode := drop 4 rawNode in
    if type =? hpTransactionID then makeTransaction rawNode
    else if type =? hpLeafNode then makeAccountState rawNode
    else if type =? hpInnerNode then makeFullInner rawNode
    else if type =? hpTxNode then makeTransactionWithMeta rawNode
    else Throw "prefix: unknown type".

(** ** Proofs *)

Definition createID (depth key : Z) : SHAMapNodeID := mkNodeID (Z.land key (depthMask depth)) depth.

Definition getProofPath (key : Z) (root : SHAMapTreeNode) : outcome (option (list Blob)) :=
  walk root key ≫= fun '(_, stack) =>
  Ret (match stack with
       | (Leaf _ item, _) :: _ => if tag_ item =? key then Some (map (fun n => serializeForWire (wireOf n.1)) stack) else None
       | _ => None
       end).

(** The loop of [verifyProofPath], from the root; what is thrown is caught. *)
Fixpoint verifyNodes (key : Z) (path : list Blob) (depth : Z) (hash : Blob) : bool :=
  match path with
  | [] => false
  | blob :: path =>
      match makeFromWire blob with
      | Ret (Some node) =>
          if negb (bool_decide (wireHash node = hash)) then false
          else
            match node with
            | WireInner hashes _ => verifyNodes key path (depth + 1) (default zeroHash (hashes !! selectBranch (createID depth key) key))
            | WireLeaf _ _ => match path with [] => true | _ => false end
            end
      | _ => false
      end
  end.

Definition verifyProofPath (rootHash : Blob) (key : Z) (path : list Blob) : bool :=
  if bool_decide (path = []) || (65 <? length path)%nat then false
  else verifyNodes key (rev path) 0 rootHash.

End Hashes.
