(* ===== verification/SHAMapFacts.v ===== *)
(** * Facts on the Merkle radix tree

    Digits of keys, well-formed trees, their items in order, and what the
    operations of [SHAMap] do to them. *)

From stdpp Require Import strings sorting.
From S2P Require Import Prelude Outcome Serializer SerializerFacts LedgerViews LedgerViewsFacts SHAMap.

(** ** Digits of keys *)

Definition key_ok (k : Z) : Prop := 0 <= k < 2 ^ 256.

(** The first [d] of the 64 digits of a key, and the one after them. *)
Definition prefix (d k : Z) : Z := Z.shiftr k (4 * (64 - d)).
Definition digit (d k : Z) : Z := Z.land (Z.shiftr k (4 * (63 - d))) 15.

Lemma digit_range d k : 0 <= digit d k < 16.
Proof. unfold digit. change 15 with (Z.ones 4). rewrite land_low by lia. apply Z.mod_pos_bound. lia. Qed.

Lemma prefix_step d k : 0 <= d < 64 -> prefix (d + 1) k = 16 * prefix d k + digit d k.
Proof.
  intros Hd. unfold prefix, digit. change 15 with (Z.ones 4). rewrite land_low by lia.
  replace (4 * (64 - (d + 1))) with (4 * (63 - d)) by lia. replace (4 * (64 - d)) with (4 * (63 - d) + 4) by lia.
  rewrite <- Z.shiftr_shiftr by lia. set (q := Z.shiftr k (4 * (63 - d))).
  rewrite (Z.shiftr_div_pow2 q 4) by lia. change (2 ^ 4) with 16. apply Z.div_mod. lia.
Qed.

Lemma prefix_0 k : key_ok k -> prefix 0 k = 0.
Proof. intros Hk. unfold prefix. rewrite Z.shiftr_div_pow2 by lia. apply Z.div_small. exact Hk. Qed.

Lemma prefix_64 k : prefix 64 k = k.
Proof. unfold prefix. change (4 * (64 - 64)) with 0. apply Z.shiftr_0_r. Qed.

Lemma prefix_lt d k k' : 0 <= d <= 64 -> prefix d k < prefix d k' -> k < k'.
Proof.
  intros Hd Hlt. unfold prefix in Hlt. rewrite !Z.shiftr_div_pow2 in Hlt by lia.
  destruct (Z.lt_ge_cases k k') as [|Hge]; [done|]. exfalso.
  pose proof (Z.div_le_mono k' k (2 ^ (4 * (64 - d))) ltac:(lia) Hge). lia.
Qed.

(** ** Node identifiers *)

Definition nid_ok (d : Z) (nodeID : SHAMapNodeID) : Prop :=
  depth_ nodeID = d /\ exists p, 0 <= p < 2 ^ (4 * d) /\ id_ nodeID = p * 2 ^ (256 - 4 * d).

Lemma rootID_ok : nid_ok 0 rootID.
Proof. split; [done|]. exists 0. split; [lia|done]. Qed.

Lemma selectBranch_digit d nodeID k : nid_ok d nodeID -> selectBranch nodeID k = Z.to_nat (digit d k).
Proof. intros [<- _]. done. Qed.

Lemma getChildNodeID_ok d m nodeID : nid_ok d nodeID -> 0 <= d < 64 -> (m < 16)%nat ->
  exists nodeID', getChildNodeID m nodeID = Ret nodeID' /\ nid_ok (d + 1) nodeID'.
Proof.
  intros [Hd (p & Hp & Hid)] Hr Hm. unfold getChildNodeID. rewrite Hd, Hid. unfold leafDepth.
  rewrite (proj2 (Z.leb_gt 64 d)) by lia.
  assert (Hmask : Z.land (p * 2 ^ (256 - 4 * d)) (depthMask d) = p * 2 ^ (256 - 4 * d)).
  { unfold depthMask. rewrite <- Z.shiftl_mul_pow2, <- Z.shiftl_land, land_low, Z.mod_small by lia. done. }
  rewrite Hmask, Z.eqb_refl. cbn [negb]. eexists. split; [done|]. split; [done|]. cbn [id_].
  exists (16 * p + Z.of_nat m). rewrite Z.shiftl_mul_pow2 by lia.
  replace (4 * (63 - d)) with (256 - 4 * (d + 1)) by lia. replace (256 - 4 * d) with (4 + (256 - 4 * (d + 1))) by lia.
  assert (E : 2 ^ (4 * (d + 1)) = 16 * 2 ^ (4 * d)) by (replace (4 * (d + 1)) with (4 + 4 * d) by lia; rewrite Z.pow_add_r by lia; done).
  split; [rewrite E; lia|]. rewrite Z.pow_add_r by lia. change (2 ^ 4) with 16. rewrite Z.lor_comm.
  replace (p * (16 * 2 ^ (256 - 4 * (d + 1)))) with (p * 2 ^ (4 + (256 - 4 * (d + 1)))) by (rewrite Z.pow_add_r by lia; lia).
  rewrite lor_shifted; [rewrite Z.pow_add_r by lia; change (2 ^ 4) with 16; lia|lia|].
  rewrite Z.pow_add_r by lia. change (2 ^ 4) with 16. nia.
Qed.

(** ** The items of a tree *)

Fixpoint flatten (t : SHAMapTreeNode) : list SHAMapItem :=
  match t with
  | Leaf _ item => [item]
  | Inner children => flat_map (fun o => match o with Some c => flatten c | None => [] end) children
  end.

Definition flattenO (o : option SHAMapTreeNode) : list SHAMapItem := match o with Some c => flatten c | None => [] end.

Lemma flatten_inner cs : flatten (Inner cs) = flat_map flattenO cs.
Proof. done. Qed.

Lemma elem_of_flatten cs it : it ∈ flatten (Inner cs) <-> exists i c, cs !! i = Some (Some c) /\ it ∈ flatten c.
Proof.
  rewrite flatten_inner, list_elem_of_In, in_flat_map. split.
  - intros (o & Ho & Hit). rewrite <- list_elem_of_In in Ho. apply list_elem_of_lookup in Ho as [i Hi].
    destruct o as [c|]; [|done]. exists i, c. by rewrite list_elem_of_In.
  - intros (i & c & Hi & Hit). exists (Some c). split; [|by rewrite <- list_elem_of_In].
    rewrite <- list_elem_of_In. by eapply list_elem_of_lookup_2.
Qed.

(** A branch set. *)
Lemma flatten_set cs i o o' : cs !! i = Some o ->
  exists l r, flatten (Inner cs) = l ++ flattenO o ++ r /\ flatten (Inner (<[i := o']> cs)) = l ++ flattenO o' ++ r.
Proof.
  intros Hi. exists (flat_map flattenO (take i cs)), (flat_map flattenO (drop (S i) cs)).
  rewrite !flatten_inner. split.
  - rewrite <- (take_drop_middle cs i o Hi) at 1. by rewrite flat_map_app.
  - rewrite insert_take_drop by (by eapply lookup_lt_Some). by rewrite flat_map_app.
Qed.

Lemma flatten_set_perm cs i o o' : cs !! i = Some o -> flatten (Inner (<[i := o']> cs)) ++ flattenO o ≡ₚ flattenO o' ++ flatten (Inner cs).
Proof. intros Hi. destruct (flatten_set cs i o o' Hi) as (l & r & -> & ->). solve_Permutation. Qed.

Lemma flatten_fill cs i c : cs !! i = Some None -> flatten (Inner (<[i := Some c]> cs)) ≡ₚ flatten c ++ flatten (Inner cs).
Proof. intros Hi. pose proof (flatten_set_perm cs i None (Some c) Hi) as Hp. simpl in Hp. by rewrite app_nil_r in Hp. Qed.

(** A branch with items added, or with items taken away. *)
Lemma flatten_grow cs i o o' l : cs !! i = Some o -> flattenO o' ≡ₚ l ++ flattenO o -> flatten (Inner (<[i := o']> cs)) ≡ₚ l ++ flatten (Inner cs).
Proof.
  intros Hi Hl. pose proof (flatten_set_perm cs i o o' Hi) as Hp. rewrite Hl in Hp. apply (Permutation_app_inv_r (flattenO o)).
  rewrite Hp. solve_Permutation.
Qed.

Lemma flatten_shrink cs i o o' l : cs !! i = Some o -> flattenO o ≡ₚ l ++ flattenO o' -> flatten (Inner cs) ≡ₚ l ++ flatten (Inner (<[i := o']> cs)).
Proof.
  intros Hi Hl. pose proof (flatten_set_perm cs i o o' Hi) as Hp. rewrite Hl in Hp. apply (Permutation_app_inv_r (flattenO o')).
  rewrite (Permutation_app_comm (flatten (Inner cs))). rewrite <- Hp. solve_Permutation.
Qed.

Section WellFormed.
Context (T : SHAMapNodeType).

(** A node at depth [d] whose keys start with the digits [p]; only the root may
    have fewer than two items below it. *)
Inductive wf : Z -> Z -> SHAMapTreeNode -> Prop :=
  | wf_leaf d p it : key_ok (tag_ it) -> prefix d (tag_ it) = p -> wf d p (Leaf T it)
  | wf_inner d p cs : d < 64 -> length cs = 16%nat ->
      (forall i c, cs !! i = Some (Some c) -> wf (d + 1) (16 * p + Z.of_nat i) c) ->
      (2 <= length (flatten (Inner cs)))%nat -> wf d p (Inner cs).

(** The branches of an inner node, the root included. *)
Definition branches_ok (d p : Z) (cs : list (option SHAMapTreeNode)) : Prop :=
  d < 64 /\ length cs = 16%nat /\ (forall i c, cs !! i = Some (Some c) -> wf (d + 1) (16 * p + Z.of_nat i) c).

Definition root_ok (t : SHAMapTreeNode) : Prop := exists cs, t = Inner cs /\ branches_ok 0 0 cs.

Lemma wf_nonempty d p t : wf d p t -> flatten t <> [].
Proof. destruct 1 as [|? ? ? ? ? ? Hl]; [done|]. intros E. rewrite E in Hl. simpl in Hl. lia. Qed.

Lemma wf_keys d p t it : wf d p t -> 0 <= d -> it ∈ flatten t -> key_ok (tag_ it) /\ prefix d (tag_ it) = p.
Proof.
  intros Hwf. induction Hwf as [d p x Hk Hp|d p cs Hd Hlen Hc IH _]; intros Hd0 Hit.
  - apply list_elem_of_singleton in Hit as ->. done.
  - apply elem_of_flatten in Hit as (i & c & Hi & Hit). destruct (IH i c Hi ltac:(lia) Hit) as [Hk Hp].
    split; [done|]. rewrite prefix_step in Hp by lia. pose proof (digit_range d (tag_ it)).
    apply lookup_lt_Some in Hi. lia.
Qed.

Lemma branches_keys d p cs i c it : branches_ok d p cs -> 0 <= d -> cs !! i = Some (Some c) -> it ∈ flatten c ->
  key_ok (tag_ it) /\ prefix d (tag_ it) = p /\ Z.to_nat (digit d (tag_ it)) = i.
Proof.
  intros (Hd & Hlen & Hc) Hd0 Hi Hit. destruct (wf_keys _ _ _ it (Hc i c Hi) ltac:(lia) Hit) as [Hk Hp].
  rewrite prefix_step in Hp by lia. pose proof (digit_range d (tag_ it)). apply lookup_lt_Some in Hi. split_and!; [done|lia|lia].
Qed.

Definition tagBefore (x y : SHAMapItem) : Prop := tag_ x < tag_ y.

Lemma flat_map_sorted (f : option SHAMapTreeNode -> list SHAMapItem) d q cs :
  0 <= d <= 64 -> (forall i o, cs !! i = Some o -> StronglySorted tagBefore (f o) /\ forall it, it ∈ f o -> prefix d (tag_ it) = q + Z.of_nat i) ->
  StronglySorted tagBefore (flat_map f cs).
Proof.
  intros Hd. revert q. induction cs as [|o cs IH]; intros q Hcs; [constructor|]. simpl. apply StronglySorted_app. split_and!.
  - intros x y Hx Hy. rewrite list_elem_of_In in Hy. apply in_flat_map in Hy as (o' & Ho' & Hy). rewrite <- list_elem_of_In in Ho'. rewrite <- list_elem_of_In in Hy.
    apply list_elem_of_lookup in Ho' as [i Hi]. apply (prefix_lt d); [done|].
    rewrite (proj2 (Hcs 0%nat o eq_refl) x Hx), (proj2 (Hcs (S i) o' Hi) y Hy). lia.
  - apply (Hcs 0%nat o eq_refl).
  - apply (IH (q + 1)). intros i o' Hi. destruct (Hcs (S i) o' Hi) as [Hs Hp]. split; [done|]. intros it Hit. rewrite (Hp it Hit). lia.
Qed.

Lemma wf_sorted d p t : wf d p t -> 0 <= d -> StronglySorted tagBefore (flatten t).
Proof.
  intros Hwf. induction Hwf as [d p x Hk Hp|d p cs Hd Hlen Hc IH _]; intros Hd0; [repeat constructor|].
  rewrite flatten_inner. apply (flat_map_sorted _ (d + 1) (16 * p)); [lia|]. intros i [c|] Hi; simpl; [|split; [constructor|by intros ? ?%not_elem_of_nil]].
  split; [apply (IH i c Hi); lia|]. intros it Hit. by apply (wf_keys _ _ _ it (Hc i c Hi) ltac:(lia)).
Qed.

Lemma root_sorted t : root_ok t -> StronglySorted tagBefore (flatten t).
Proof.
  intros (cs & -> & Hd & Hlen & Hc). rewrite flatten_inner. apply (flat_map_sorted _ 1 0); [lia|].
  intros i [c|] Hi; simpl; [|split; [constructor|by intros ? ?%not_elem_of_nil]].
  split; [apply (wf_sorted _ _ _ (Hc i c Hi)); lia|]. intros it Hit. destruct (wf_keys _ _ _ it (Hc i c Hi) ltac:(lia) Hit) as [_ Hp]. exact Hp.
Qed.

(** ** A tree is determined by its items *)

(** The items of a branch are those of the node with its digit. *)
Lemma branch_elements d p cs i o it : branches_ok d p cs -> 0 <= d -> cs !! i = Some o ->
  it ∈ flattenO o <-> it ∈ flatten (Inner cs) /\ Z.to_nat (digit d (tag_ it)) = i.
Proof.
  intros Hb Hd Hi. rewrite elem_of_flatten. split.
  - destruct o as [c|]; simpl; [|by intros ?%not_elem_of_nil]. intros Hit. split; [by exists i, c|].
    by apply (branches_keys d p cs i c it Hb Hd Hi Hit).
  - intros [(j & c & Hj & Hit) Hdig]. destruct (branches_keys d p cs j c it Hb Hd Hj Hit) as (_ & _ & Hdj).
    assert (i = j) as -> by congruence. rewrite Hi in Hj. injection Hj as ->. done.
Qed.

Lemma wf_branches d p cs : wf d p (Inner cs) -> branches_ok d p cs.
Proof. inversion 1. by split_and!. Qed.

Lemma branches_unique d p cs1 cs2 : 0 <= d -> branches_ok d p cs1 -> branches_ok d p cs2 ->
  (forall i c1 c2, cs1 !! i = Some (Some c1) -> cs2 !! i = Some (Some c2) -> (forall it, it ∈ flatten c1 <-> it ∈ flatten c2) -> c1 = c2) ->
  (forall it, it ∈ flatten (Inner cs1) <-> it ∈ flatten (Inner cs2)) -> cs1 = cs2.
Proof.
  intros Hd Hb1 Hb2 Hrec Heq. apply list_eq. intros i.
  assert (Hlen : length cs1 = length cs2) by (destruct Hb1 as (_ & -> & _), Hb2 as (_ & -> & _); done).
  destruct (cs1 !! i) as [o1|] eqn:E1.
  2: { apply lookup_ge_None in E1. symmetry. apply lookup_ge_None. lia. }
  destruct (lookup_lt_is_Some_2 cs2 i) as [o2 E2]; [rewrite <- Hlen; by eapply lookup_lt_Some|]. rewrite E2. f_equal.
  assert (Ho : forall it, it ∈ flattenO o1 <-> it ∈ flattenO o2).
  { intros it. rewrite (branch_elements d p cs1 i o1 it Hb1 Hd E1), (branch_elements d p cs2 i o2 it Hb2 Hd E2), Heq. done. }
  destruct o1 as [c1|], o2 as [c2|]; simpl in Ho; [f_equal; by eapply Hrec| | |done]; exfalso.
  - destruct Hb1 as (_ & _ & Hc). pose proof (wf_nonempty _ _ _ (Hc i c1 E1)) as Hne. destruct (flatten c1) as [|x l]; [done|].
    apply (not_elem_of_nil x), Ho. by left.
  - destruct Hb2 as (_ & _ & Hc). pose proof (wf_nonempty _ _ _ (Hc i c2 E2)) as Hne. destruct (flatten c2) as [|x l]; [done|].
    apply (not_elem_of_nil x), Ho. by left.
Qed.

Lemma wf_unique d p t1 t2 : wf d p t1 -> 0 <= d -> wf d p t2 -> (forall it, it ∈ flatten t1 <-> it ∈ flatten t2) -> t1 = t2.
Proof.
  intros H1. revert t2. induction H1 as [d p x Hk Hp|d p cs Hd Hlen Hc IH H2]; intros t2 Hd0 Hwf2 Heq.
  - assert (Hl : flatten t2 = [x]).
    { symmetry. apply (sorted_unique tag_); [repeat constructor|by eapply wf_sorted|done]. }
    destruct Hwf2 as [d p y Hk' Hp'|d p cs Hd Hlen Hc H2]; [simpl in Hl; congruence|]. rewrite Hl in H2. simpl in H2. lia.
  - assert (Hb1 : branches_ok d p cs) by done.
    assert (Hl : flatten (Inner cs) = flatten t2).
    { apply (sorted_unique tag_); [|by eapply wf_sorted|done]. apply (wf_sorted d p); [by constructor|done]. }
    inversion Hwf2 as [? ? y Hk' Hp'|? ? cs2 ? ? ? ?]; subst; [rewrite Hl in H2; simpl in H2; lia|].
    f_equal. apply (branches_unique d p); [done|done|by apply wf_branches| |done].
    intros i c1 c2 E1 E2 Hi. apply (IH i c1 E1); [lia| |done]. apply wf_branches in Hwf2 as (_ & _ & Hc2). by apply Hc2.
Qed.

Lemma root_unique t1 t2 : root_ok t1 -> root_ok t2 -> (forall it, it ∈ flatten t1 <-> it ∈ flatten t2) -> t1 = t2.
Proof.
  intros (cs1 & -> & Hb1) (cs2 & -> & Hb2) Heq. f_equal. apply (branches_unique 0 0); [lia|done|done| |done].
  intros i c1 c2 E1 E2 Hi. destruct Hb1 as (_ & _ & Hc1), Hb2 as (_ & _ & Hc2).
  apply (wf_unique (0 + 1) (16 * 0 + Z.of_nat i)); [by apply Hc1|lia|by apply Hc2|done].
Qed.

(** ** Walking and changing *)

Lemma getChild_lookup (cs : list (option SHAMapTreeNode)) i : getChild cs i = match cs !! i with Some o => o | None => None end.
Proof. unfold getChild. by destruct (cs !! i). Qed.

(** The branch towards a key. *)
Lemma branch_lookup d p cs k : branches_ok d p cs -> cs !! Z.to_nat (digit d k) = Some (getChild cs (Z.to_nat (digit d k))).
Proof.
  intros (_ & Hlen & _). pose proof (digit_range d k). destruct (lookup_lt_is_Some_2 cs (Z.to_nat (digit d k))) as [o Ho]; [lia|].
  by rewrite getChild_lookup, Ho.
Qed.

Lemma branches_set d p cs i o :
  branches_ok d p cs -> match o with Some c => wf (d + 1) (16 * p + Z.of_nat i) c | None => True end -> branches_ok d p (<[i := o]> cs).
Proof.
  intros (Hd & Hlen & Hc) Ho. split_and!; [done|by rewrite length_insert|]. intros j c [(-> & -> & _)|[Hne Hj]]%list_lookup_insert_Some; [done|by apply Hc].
Qed.

Lemma branches_empty d p : d < 64 -> branches_ok d p (replicate 16 None).
Proof. intros Hd. split_and!; [done|done|]. intros i c Hi. by apply lookup_replicate_1 in Hi as [? _]. Qed.

(** The prefix of a key in the branch of its digit. *)
Lemma prefix_branch d p k : 0 <= d < 64 -> prefix d k = p -> prefix (d + 1) k = 16 * p + Z.of_nat (Z.to_nat (digit d k)).
Proof. intros Hd Hp. rewrite prefix_step, Hp by done. pose proof (digit_range d k). lia. Qed.

(** A step of the walk into a branch that is not empty. *)
Lemma walk_branch d p cs nodeID id stack n c :
  branches_ok d p cs -> 0 <= d -> nid_ok d nodeID -> getChild cs (Z.to_nat (digit d id)) = Some c ->
  exists nodeID', nid_ok (d + 1) nodeID' /\
    walkTowardsKey (S n) (Inner cs) nodeID id stack = walkTowardsKey n c nodeID' id ((Inner cs, nodeID) :: stack).
Proof.
  intros Hb Hd Hn Hc. pose proof (digit_range d id). destruct Hb as (Hd' & _).
  destruct (getChildNodeID_ok d (Z.to_nat (digit d id)) nodeID Hn) as (nodeID' & E & Hn'); [lia|lia|].
  exists nodeID'. split; [done|]. cbn [walkTowardsKey]. rewrite (selectBranch_digit d) by done. by rewrite Hc, E, Ret_bind.
Qed.

Lemma walk_empty d p cs nodeID id stack n :
  branches_ok d p cs -> nid_ok d nodeID -> getChild cs (Z.to_nat (digit d id)) = None ->
  walkTowardsKey (S n) (Inner cs) nodeID id stack = Ret (None, (Inner cs, nodeID) :: stack).
Proof. intros Hb Hn Hc. cbn [walkTowardsKey]. rewrite (selectBranch_digit d) by done. by rewrite Hc. Qed.

(** What the walk finds. *)
Lemma walk_finds d p t n nodeID id stack : wf d p t -> 0 <= d -> nid_ok d nodeID -> (64 - d < Z.of_nat n) ->
  exists leaf stack', walkTowardsKey n t nodeID id stack = Ret (leaf, stack') /\
    (forall it, tag_ it = id -> it ∈ flatten t <-> leaf = Some (T, it)) /\ (forall ty x, leaf = Some (ty, x) -> ty = T /\ x ∈ flatten t).
Proof.
  intros Hwf. revert n nodeID stack. induction Hwf as [d p x Hk Hp|d p cs Hd Hlen Hc IH H2]; intros n nodeID stack Hd0 Hn Hfuel.
  - assert (E : walkTowardsKey n (Leaf T x) nodeID id stack = Ret (Some (T, x), (Leaf T x, nodeID) :: stack)) by (by destruct n).
    eexists _, _. split; [exact E|]. split; [intros it Ht; simpl; rewrite list_elem_of_singleton; naive_solver|].
    intros ty y [= <- <-]. split; [done|by left].
  - assert (Hb : branches_ok d p cs) by done. destruct n as [|n]; [lia|].
    pose proof (branch_lookup d p cs id Hb) as Hlk.
    assert (Hel : forall it, tag_ it = id -> it ∈ flatten (Inner cs) <-> it ∈ flattenO (getChild cs (Z.to_nat (digit d id)))).
    { intros it <-. rewrite (branch_elements d p cs _ _ it Hb Hd0 Hlk). naive_solver. }
    destruct (getChild cs (Z.to_nat (digit d id))) as [c|] eqn:Ec.
    + destruct (walk_branch d p cs nodeID id stack n c Hb Hd0 Hn Ec) as (nodeID' & Hn' & ->).
      destruct (IH _ c Hlk n nodeID' ((Inner cs, nodeID) :: stack)) as (leaf & stack' & -> & Hleaf & Hty); [lia|done|lia|].
      eexists _, _. split; [done|]. split; [intros it Ht; by rewrite Hel, Hleaf|].
      intros ty x Hx. destruct (Hty ty x Hx) as [-> Hin]. split; [done|]. apply elem_of_flatten. by eexists _, _.
    + rewrite (walk_empty d p) by done. eexists _, _. split; [done|]. split; [|done]. intros it Ht. rewrite Hel by done. simpl.
      split; [by intros ?%not_elem_of_nil|done].
Qed.

(** A leaf split for a second item. *)
Lemma splitLeaf_spec n d p it other nodeID stack :
  0 <= d <= 64 -> nid_ok d nodeID -> key_ok (tag_ it) -> key_ok (tag_ other) -> prefix d (tag_ it) = p -> prefix d (tag_ other) = p ->
  tag_ it <> tag_ other -> 64 - d < Z.of_nat n ->
  exists node stack' t', splitLeaf n T it other nodeID stack = Ret (node, stack') /\
    dirtyUp stack' (tag_ it) node = dirtyUp stack (tag_ it) t' /\ wf d p t' /\ flatten t' ≡ₚ [it; other].
Proof.
  revert d p nodeID stack. induction n as [|n IH]; intros d p nodeID stack Hd Hn Hk Hk' Hp Hp' Hne Hfuel; [lia|].
  assert (Hd64 : d < 64).
  { destruct (decide (d = 64)) as [->|]; [|lia]. rewrite prefix_64 in Hp, Hp'. congruence. }
  cbn [splitLeaf]. rewrite !(selectBranch_digit d) by done.
  set (b1 := Z.to_nat (digit d (tag_ it))). set (b2 := Z.to_nat (digit d (tag_ other))).
  pose proof (digit_range d (tag_ it)). pose proof (digit_range d (tag_ other)).
  pose proof (prefix_branch d p (tag_ it) ltac:(lia) Hp) as Hp1. pose proof (prefix_branch d p (tag_ other) ltac:(lia) Hp') as Hp2.
  fold b1 in Hp1. fold b2 in Hp2. destruct (Nat.eqb_spec b1 b2) as [Eb|Eb].
  - destruct (getChildNodeID_ok d b1 nodeID Hn) as (nodeID' & -> & Hn'); [lia|lia|]. rewrite Ret_bind.
    destruct (IH (d + 1) (16 * p + Z.of_nat b1) nodeID' ((newInner, nodeID) :: stack)) as (node & stack' & t' & E & Hup & Hwf & Hfl);
      [lia|done|done|done|done|congruence|done|lia|].
    exists node, stack', (Inner (setChild b1 (Some t') (replicate 16 None))). split_and!; [done| | |].
    + rewrite Hup. cbn [dirtyUp newInner]. by rewrite (selectBranch_digit d).
    + destruct (branches_set d p (replicate 16 None) b1 (Some t') (branches_empty d p Hd64) Hwf) as (? & ? & ?).
      constructor; [done|done|done|]. unfold setChild. rewrite flatten_fill, Hfl by (apply lookup_replicate_2; lia). simpl. lia.
    + unfold setChild. rewrite flatten_fill, Hfl by (apply lookup_replicate_2; lia). done.
  - set (cs := setChild b2 (Some (Leaf T other)) (setChild b1 (Some (Leaf T it)) (replicate branchFactor None))).
    assert (Hfl : flatten (Inner cs) ≡ₚ [it; other]).
    { unfold cs, setChild. rewrite flatten_fill by (rewrite list_lookup_insert_ne by done; apply lookup_replicate_2; unfold branchFactor; lia).
      rewrite flatten_fill by (apply lookup_replicate_2; unfold branchFactor; lia). simpl. constructor. }
    exists (Inner cs), stack, (Inner cs). split_and!; [done|done| |done].
    destruct (branches_set d p (setChild b1 (Some (Leaf T it)) (replicate branchFactor None)) b2 (Some (Leaf T other))) as (? & ? & ?).
    { apply branches_set; [by apply branches_empty|]. by constructor. }
    { by constructor. }
    constructor; [done|done|done|]. rewrite Hfl. done.
Qed.

(** [addGiveItem] below a node that does not have the key. *)
Lemma add_below d p t n nodeID it stack root :
  wf d p t -> 0 <= d <= 64 -> nid_ok d nodeID -> 64 - d < Z.of_nat n -> key_ok (tag_ it) -> prefix d (tag_ it) = p ->
  (forall x, x ∈ flatten t -> tag_ x <> tag_ it) ->
  exists leaf stack' t', walkTowardsKey n t nodeID (tag_ it) stack = Ret (leaf, stack') /\
    addAt T it stack' root = (dirtyUp stack (tag_ it) t' ≫= fun r => Ret (true, r)) /\ wf d p t' /\ flatten t' ≡ₚ it :: flatten t.
Proof.
  intros Hwf. revert n nodeID stack. induction Hwf as [d p x Hk Hp|d p cs Hd Hlen Hc IH H2]; intros n nodeID stack Hd0 Hn Hfuel Hkit Hpit Hnew.
  - exists (Some (T, x)), ((Leaf T x, nodeID) :: stack). pose proof (Hnew x ltac:(by left)) as Hne.
    destruct (splitLeaf_spec 65 d p it x nodeID stack) as (node & stack' & t' & E & Hup & Hwf' & Hfl); [lia|done..|lia|].
    exists t'. split_and!; [by destruct n| |done|done]. cbn [addAt]. rewrite (proj2 (Z.eqb_neq _ _) Hne), E, Ret_bind, Hup. done.
  - assert (Hb : branches_ok d p cs) by done. destruct n as [|n]; [lia|]. pose proof (branch_lookup d p cs (tag_ it) Hb) as Hlk.
    pose proof (prefix_branch d p (tag_ it) ltac:(lia) Hpit) as Hpb. set (b := Z.to_nat (digit d (tag_ it))) in *.
    assert (Hset : forall t', wf (d + 1) (16 * p + Z.of_nat b) t' -> flatten t' ≡ₚ [it] ++ flattenO (getChild cs b) ->
      wf d p (Inner (setChild b (Some t') cs)) /\ flatten (Inner (setChild b (Some t') cs)) ≡ₚ it :: flatten (Inner cs)).
    { intros t' Hwf' Hfl. pose proof (flatten_grow cs b _ (Some t') [it] Hlk Hfl) as Hgrow.
      destruct (branches_set d p cs b (Some t') Hb Hwf') as (? & ? & ?). split; [|done].
      constructor; [done|done|done|]. unfold setChild. rewrite Hgrow. simpl. simpl in H2. lia. }
    destruct (getChild cs b) as [c|] eqn:Ec.
    + destruct (walk_branch d p cs nodeID (tag_ it) stack n c Hb ltac:(lia) Hn Ec) as (nodeID' & Hn' & ->).
      destruct (IH _ c Hlk n nodeID' ((Inner cs, nodeID) :: stack)) as (leaf & stack' & t' & E & Hadd & Hwf' & Hfl); [lia|done|lia|done|done| |].
      { intros x Hx. apply Hnew. apply elem_of_flatten. by eexists _, _. }
      destruct (Hset t' Hwf' Hfl) as [Hwf2 Hfl2].
      exists leaf, stack', (Inner (setChild b (Some t') cs)). split_and!; [done| |done|done].
      rewrite Hadd. cbn [dirtyUp]. by rewrite (selectBranch_digit d).
    + destruct (Hset (Leaf T it)) as [Hwf2 Hfl2]; [by constructor|done|].
      rewrite (walk_empty d p) by done. eexists _, _, _. split_and!; [done| |exact Hwf2|exact Hfl2].
      cbn [addAt]. by rewrite (selectBranch_digit d).
Qed.

(** [onlyBelow] finds an item exactly when it is the only one. *)
Lemma omap_singleton (cs : list (option SHAMapTreeNode)) c : omap id cs = [c] -> exists i, cs !! i = Some (Some c) /\ flatten (Inner cs) = flatten c.
Proof.
  induction cs as [|[x|] cs IH]; cbn [omap list_omap id]; [done| |].
  - intros [= -> Hnil]. exists 0%nat. split; [done|]. rewrite flatten_inner. simpl.
    assert (E : flat_map flattenO cs = []); [|by rewrite E, app_nil_r].
    clear IH. induction cs as [|[y|] cs IH]; [done| |]; cbn [omap list_omap id] in Hnil; [done|]. simpl. by apply IH.
  - intros Hc. destruct (IH Hc) as (i & Hi & Hfl). exists (S i). split; [done|]. done.
Qed.

Lemma onlyBelow_wf d p t n : wf d p t -> 0 <= d <= 64 -> 64 - d < Z.of_nat n ->
  onlyBelow n t = match t with Leaf _ it => Some it | Inner _ => None end.
Proof.
  intros Hwf. revert n. induction Hwf as [d p x Hk Hp|d p cs Hd Hlen Hc IH H2]; intros n Hd0 Hn; [by destruct n|].
  destruct n as [|n]; [lia|]. cbn [onlyBelow]. destruct (omap id cs) as [|c [|c' l]] eqn:E; [done| |done].
  destruct (omap_singleton cs c E) as (i & Hi & Hfl). rewrite (IH i c Hi) by lia.
  pose proof (Hc i c Hi) as Hwf. destruct Hwf; [|done]. rewrite Hfl in H2. simpl in H2. lia.
Qed.

(** A node that is not the root with a branch changed by [delItem]. *)
Definition pullUp (children : list (option SHAMapTreeNode)) : option SHAMapTreeNode :=
  match getBranchCount children with
  | O => None
  | S O => match onlyBelow 65 (Inner children) with Some item => Some (Leaf T item) | None => Some (Inner children) end
  | _ => Some (Inner children)
  end.

Definition wfO (d p : Z) (o : option SHAMapTreeNode) : Prop := match o with Some t => wf d p t | None => True end.

Lemma getBranchCount_omap (cs : list (option SHAMapTreeNode)) : getBranchCount cs = length (omap id cs).
Proof. unfold getBranchCount. induction cs as [|[x|] cs IH]; simpl; [done|by f_equal|done]. Qed.

Lemma flatten_count (cs : list (option SHAMapTreeNode)) : (forall i c, cs !! i = Some (Some c) -> flatten c <> []) ->
  (length (omap id cs) <= length (flatten (Inner cs)))%nat.
Proof.
  induction cs as [|[x|] cs IH]; intros Hc; [done| |].
  - change (omap id (Some x :: cs)) with (x :: omap id cs). rewrite flatten_inner. simpl. rewrite length_app.
    specialize (IH ltac:(intros i c Hi; by apply (Hc (S i)))). rewrite flatten_inner in IH.
    pose proof (Hc 0%nat x eq_refl) as Hx. destruct (flatten x); [done|]. simpl. lia.
  - apply IH. intros i c Hi. by apply (Hc (S i)).
Qed.

Lemma pullUp_ok d p cs : branches_ok d p cs -> 0 <= d -> flatten (Inner cs) <> [] ->
  wfO d p (pullUp cs) /\ flattenO (pullUp cs) = flatten (Inner cs).
Proof.
  intros Hb Hd Hne. destruct Hb as (Hd64 & Hlen & Hc). unfold pullUp. rewrite getBranchCount_omap.
  pose proof (flatten_count cs ltac:(intros i c Hi; eapply wf_nonempty, Hc, Hi)) as Hcount.
  destruct (omap id cs) as [|c [|c' l]] eqn:E; cbn [length].
  - exfalso. apply Hne. clear -E. induction cs as [|[x|] cs IH]; [done|done|]. simpl. by apply IH.
  - destruct (omap_singleton cs c E) as (i & Hi & Hfl). pose proof (Hc i c Hi) as Hwf.
    assert (Hob : onlyBelow 65 (Inner cs) = match c with Leaf _ it => Some it | Inner _ => None end).
    { transitivity (onlyBelow 64 c); [cbn [onlyBelow]; by rewrite E|]. eapply onlyBelow_wf; [done|lia|lia]. }
    rewrite Hob, Hfl. destruct c as [ty x|cs'].
    + inversion Hwf; subst. split; [|done]. simpl.
      destruct (branches_keys d p cs i (Leaf T x) x) as (? & ? & _); [done|done|done|by left|]. by constructor.
    + split; [|done]. simpl. constructor; [done|done|done|]. rewrite Hfl. inversion Hwf; subst. done.
  - split; [|done]. simpl. constructor; [done|done|done|]. cbn [length] in Hcount. lia.
Qed.

(** [delItem] below a node that is not the root. *)
Lemma del_below d p t n nodeID it stack :
  wf d p t -> 1 <= d <= 64 -> nid_ok d nodeID -> 64 - d < Z.of_nat n -> it ∈ flatten t ->
  exists nodeID' stack' o, walkTowardsKey n t nodeID (tag_ it) stack = Ret (Some (T, it), (Leaf T it, nodeID') :: stack') /\
    (forall root, removeUp stack' (tag_ it) T None root = removeUp stack (tag_ it) T o root) /\ wfO d p o /\ flatten t ≡ₚ it :: flattenO o.
Proof.
  intros Hwf. revert n nodeID stack. induction Hwf as [d p x Hk Hp|d p cs Hd Hlen Hc IH H2]; intros n nodeID stack Hd0 Hn Hfuel Hit.
  - apply list_elem_of_singleton in Hit as ->. exists nodeID, stack, None. split_and!; [by destruct n|done|done|done].
  - assert (Hb : branches_ok d p cs) by done. destruct n as [|n]; [lia|]. pose proof (branch_lookup d p cs (tag_ it) Hb) as Hlk.
    set (b := Z.to_nat (digit d (tag_ it))) in *.
    assert (Hin : it ∈ flattenO (getChild cs b)) by (by apply (branch_elements d p cs b _ it Hb ltac:(lia) Hlk)).
    destruct (getChild cs b) as [c|] eqn:Ec; [|by apply not_elem_of_nil in Hin].
    destruct (walk_branch d p cs nodeID (tag_ it) stack n c Hb ltac:(lia) Hn Ec) as (nodeID' & Hn' & ->).
    destruct (IH _ c Hlk n nodeID' ((Inner cs, nodeID) :: stack)) as (nid2 & stack' & o & E & Hrem & Hwfo & Hfl); [lia|done|lia|done|].
    assert (Hb' : branches_ok d p (setChild b o cs)) by (by apply branches_set).
    pose proof (flatten_shrink cs b (Some c) o [it] Hlk Hfl) as Hsh. simpl in Hsh.
    destruct (pullUp_ok d p (setChild b o cs) Hb' ltac:(lia)) as [Hwf' Hfl'].
    { intros Enil. unfold setChild in Enil. rewrite Hsh in H2. simpl in Enil. rewrite Enil in H2. simpl in H2. lia. }
    exists nid2, stack', (pullUp (setChild b o cs)). split_and!; [done| |done|by rewrite Hfl'].
    intros root. rewrite Hrem. cbn [removeUp]. unfold isRoot. destruct Hn as [Hdep Hid]. rewrite Hdep, (proj2 (Z.eqb_neq d 0)) by lia.
    by rewrite (selectBranch_digit d) by done.
Qed.

(** [updateGiveItem] below a node. *)
Lemma update_below d p t n nodeID it old stack :
  wf d p t -> 0 <= d <= 64 -> nid_ok d nodeID -> 64 - d < Z.of_nat n -> old ∈ flatten t -> tag_ old = tag_ it ->
  exists nodeID' stack' t', walkTowardsKey n t nodeID (tag_ it) stack = Ret (Some (T, old), (Leaf T old, nodeID') :: stack') /\
    dirtyUp stack' (tag_ it) (Leaf T it) = dirtyUp stack (tag_ it) t' /\ wf d p t' /\
    exists rest, flatten t ≡ₚ old :: rest /\ flatten t' ≡ₚ it :: rest.
Proof.
  intros Hwf. revert n nodeID stack. induction Hwf as [d p x Hk Hp|d p cs Hd Hlen Hc IH H2]; intros n nodeID stack Hd0 Hn Hfuel Hold Htag.
  - apply list_elem_of_singleton in Hold as ->. exists nodeID, stack, (Leaf T it). split_and!; [by destruct n|done| |by exists []].
    constructor; by rewrite <- Htag.
  - assert (Hb : branches_ok d p cs) by done. destruct n as [|n]; [lia|]. pose proof (branch_lookup d p cs (tag_ it) Hb) as Hlk.
    set (b := Z.to_nat (digit d (tag_ it))) in *.
    assert (Hin : old ∈ flattenO (getChild cs b)).
    { apply (branch_elements d p cs b _ old Hb ltac:(lia) Hlk). split; [done|]. by rewrite Htag. }
    destruct (getChild cs b) as [c|] eqn:Ec; [|by apply not_elem_of_nil in Hin].
    destruct (walk_branch d p cs nodeID (tag_ it) stack n c Hb ltac:(lia) Hn Ec) as (nodeID' & Hn' & ->).
    destruct (IH _ c Hlk n nodeID' ((Inner cs, nodeID) :: stack)) as (nid2 & stack' & t' & E & Hup & Hwf' & rest & Hfl & Hfl'); [lia|done|lia|done|done|].
    exists nid2, stack', (Inner (setChild b (Some t') cs)).
    assert (Hr : exists r, flatten (Inner cs) ≡ₚ old :: r /\ flatten (Inner (setChild b (Some t') cs)) ≡ₚ it :: r).
    { destruct (flatten_set cs b (Some c) (Some t') Hlk) as (l & r & E1 & E2). exists (l ++ rest ++ r). unfold setChild.
      rewrite E1, E2. simpl. rewrite Hfl, Hfl'. split; solve_Permutation. }
    split_and!; [done| | |done].
    + rewrite Hup. cbn [dirtyUp]. by rewrite (selectBranch_digit d) by done.
    + destruct (branches_set d p cs b (Some t') Hb Hwf') as (? & ? & ?). constructor; [done|done|done|].
      destruct Hr as (r & Hr1 & Hr2). rewrite Hr2. rewrite Hr1 in H2. done.
Qed.

(** ** The operations at the root *)

(** The stack of a walk ends in what the walk found. *)
Lemma walk_top n t nodeID id stack leaf stack' : walkTowardsKey n t nodeID id stack = Ret (leaf, stack') ->
  exists node nodeID' rest, stack' = (node, nodeID') :: rest /\
    match leaf with Some (ty, x) => node = Leaf ty x | None => exists cs, node = Inner cs end.
Proof.
  revert t nodeID stack. induction n as [|n IH]; intros [ty x|cs] nodeID stack; cbn [walkTowardsKey]; [intros [= <- <-]; naive_solver|done|intros [= <- <-]; naive_solver|].
  destruct (getChild cs (selectBranch nodeID id)) as [c|]; [|intros [= <- <-]; naive_solver].
  destruct (getChildNodeID _ nodeID) as [?|nodeID']; [done|]. rewrite Ret_bind. apply IH.
Qed.

Lemma root_walk t id : root_ok t -> exists leaf stack, walk t id = Ret (leaf, stack) /\
  (forall it, tag_ it = id -> it ∈ flatten t <-> leaf = Some (T, it)) /\ (forall ty x, leaf = Some (ty, x) -> ty = T /\ x ∈ flatten t).
Proof.
  intros (cs & -> & Hb). pose proof (branch_lookup 0 0 cs id Hb) as Hlk. unfold walk.
  assert (Hel : forall it, tag_ it = id -> it ∈ flatten (Inner cs) <-> it ∈ flattenO (getChild cs (Z.to_nat (digit 0 id)))).
  { intros it <-. rewrite (branch_elements 0 0 cs _ _ it Hb ltac:(lia) Hlk). split; [intros Hit; by split|by intros [Hit _]]. }
  destruct (getChild cs (Z.to_nat (digit 0 id))) as [c|] eqn:Ec.
  - destruct (walk_branch 0 0 cs rootID id [] 64 c Hb ltac:(lia) rootID_ok Ec) as (nodeID' & Hn' & ->).
    destruct Hb as (_ & _ & Hc). destruct (walk_finds _ _ c 64 nodeID' id [(Inner cs, rootID)] (Hc _ c Hlk)) as (leaf & stack' & -> & Hleaf & Hty); [lia|done|lia|].
    eexists _, _. split; [done|]. split; [intros it Ht; by rewrite Hel, Hleaf|].
    intros ty x Hx. destruct (Hty ty x Hx) as [-> Hin]. split; [done|]. apply elem_of_flatten. by eexists _, _.
  - rewrite (walk_empty 0 0) by (done || exact rootID_ok). eexists _, _. split; [done|]. split; [|done]. intros it Ht. rewrite Hel by done. simpl.
    split; [by intros ?%not_elem_of_nil|done].
Qed.

(** A walk for a key that is not there, and one for a key that is. *)
Lemma walk_absent t id : root_ok t -> (forall it, it ∈ flatten t -> tag_ it <> id) ->
  exists leaf node nodeID rest, walk t id = Ret (leaf, (node, nodeID) :: rest) /\
    match leaf with Some (ty, x) => node = Leaf ty x /\ tag_ x <> id | None => exists cs, node = Inner cs end.
Proof.
  intros Hr Hno. destruct (root_walk t id Hr) as (leaf & stack & E & _ & Hty).
  destruct (walk_top _ _ _ _ _ _ _ E) as (node & nodeID & rest & -> & Hl). exists leaf, node, nodeID, rest. split; [done|].
  destruct leaf as [[ty x]|]; [|done]. split; [done|]. apply Hno. by apply (Hty ty x).
Qed.

Lemma root_find t id : root_ok t -> exists o, findKey id t = Ret o /\ forall ty it, o = Some (ty, it) <-> ty = T /\ it ∈ flatten t /\ tag_ it = id.
Proof.
  intros Hr. destruct (root_walk t id Hr) as (leaf & stack & E & Hl & Hty). unfold findKey. rewrite E, Ret_bind. eexists. split; [done|].
  intros ty it. destruct leaf as [[ty' x]|].
  - destruct (Hty ty' x eq_refl) as [-> Hin]. destruct (Z.eqb_spec (tag_ x) id) as [Hx|Hx].
    + split; [by intros [= <- <-]|]. intros (-> & Hit & Ht). apply Hl in Hit; [congruence|done].
    + split; [done|]. intros (-> & Hit & Ht). apply Hl in Hit; [congruence|done].
  - split; [done|]. intros (-> & Hit & Ht). apply Hl in Hit; [congruence|done].
Qed.

Lemma root_add_present t it x : root_ok t -> x ∈ flatten t -> tag_ x = tag_ it -> addGiveItem T it t = Ret (false, t).
Proof.
  intros Hr Hx Ht. destruct (root_walk t (tag_ it) Hr) as (leaf & stack & E & Hl & _). apply Hl in Hx as ->; [|done].
  destruct (walk_top _ _ _ _ _ _ _ E) as (node & nodeID & rest & -> & ->). unfold addGiveItem. rewrite E, Ret_bind.
  cbn [addAt]. by rewrite Ht, Z.eqb_refl.
Qed.

Lemma root_add_absent t it : root_ok t -> key_ok (tag_ it) -> (forall x, x ∈ flatten t -> tag_ x <> tag_ it) ->
  exists t', addGiveItem T it t = Ret (true, t') /\ root_ok t' /\ flatten t' ≡ₚ it :: flatten t.
Proof.
  intros (cs & -> & Hb) Hk Hnew. pose proof (branch_lookup 0 0 cs (tag_ it) Hb) as Hlk. unfold addGiveItem, walk.
  pose proof (prefix_branch 0 0 (tag_ it) ltac:(lia) (prefix_0 _ Hk)) as Hpb. set (b := Z.to_nat (digit 0 (tag_ it))) in *.
  assert (Hset : forall t', wf (0 + 1) (16 * 0 + Z.of_nat b) t' -> flatten t' ≡ₚ [it] ++ flattenO (getChild cs b) ->
    root_ok (Inner (setChild b (Some t') cs)) /\ flatten (Inner (setChild b (Some t') cs)) ≡ₚ it :: flatten (Inner cs)).
  { intros t' Hwf' Hfl. split; [|exact (flatten_grow cs b _ (Some t') [it] Hlk Hfl)]. eexists. split; [done|]. by apply branches_set. }
  destruct (getChild cs b) as [c|] eqn:Ec.
  - destruct (walk_branch 0 0 cs rootID (tag_ it) [] 64 c Hb ltac:(lia) rootID_ok Ec) as (nodeID' & Hn' & ->).
    destruct Hb as (_ & _ & Hc).
    destruct (add_below _ _ c 64 nodeID' it [(Inner cs, rootID)] (Inner cs) (Hc _ c Hlk)) as (leaf & stack' & t' & -> & Hadd & Hwf' & Hfl); [lia|done|lia|done|done| |].
    { intros x Hx. apply Hnew. apply elem_of_flatten. by eexists _, _. }
    rewrite Ret_bind, Hadd. cbn [dirtyUp]. rewrite (selectBranch_digit 0) by exact rootID_ok. eexists. split; [done|]. by apply Hset.
  - rewrite (walk_empty 0 0) by (done || exact rootID_ok). rewrite Ret_bind. cbn [addAt dirtyUp]. rewrite (selectBranch_digit 0) by exact rootID_ok.
    eexists. split; [done|]. apply Hset; [by constructor|done].
Qed.

Lemma root_del_absent t id : root_ok t -> (forall x, x ∈ flatten t -> tag_ x <> id) -> delItem id t = Ret (false, t).
Proof.
  intros Hr Hno. destruct (walk_absent t id Hr Hno) as (leaf & node & nodeID & rest & E & Hl). unfold delItem. rewrite E, Ret_bind.
  destruct leaf as [[ty x]|]; [destruct Hl as [-> Hx]; cbn [delAt]; by rewrite (proj2 (Z.eqb_neq _ _) Hx)|by destruct Hl as [cs ->]].
Qed.

Lemma root_del_present t it : root_ok t -> it ∈ flatten t ->
  exists t', delItem (tag_ it) t = Ret (true, t') /\ root_ok t' /\ flatten t ≡ₚ it :: flatten t'.
Proof.
  intros (cs & -> & Hb) Hit. pose proof (branch_lookup 0 0 cs (tag_ it) Hb) as Hlk. unfold delItem, walk.
  set (b := Z.to_nat (digit 0 (tag_ it))) in *.
  assert (Hin : it ∈ flattenO (getChild cs b)) by (by apply (branch_elements 0 0 cs b _ it Hb ltac:(lia) Hlk)).
  destruct (getChild cs b) as [c|] eqn:Ec; [|by apply not_elem_of_nil in Hin].
  destruct (walk_branch 0 0 cs rootID (tag_ it) [] 64 c Hb ltac:(lia) rootID_ok Ec) as (nodeID' & Hn' & ->).
  pose proof Hb as (_ & _ & Hc).
  destruct (del_below _ _ c 64 nodeID' it [(Inner cs, rootID)] (Hc _ c Hlk)) as (nid2 & stack' & o & -> & Hrem & Hwfo & Hfl); [lia|done|lia|done|].
  rewrite Ret_bind. cbn [delAt]. rewrite Z.eqb_refl, Hrem. cbn [removeUp isRoot depth_ rootID Z.eqb]. rewrite (selectBranch_digit 0) by exact rootID_ok.
  eexists. split; [done|]. split; [|exact (flatten_shrink cs b (Some c) o [it] Hlk Hfl)]. eexists. split; [done|]. by apply branches_set.
Qed.

(** [updateGiveItem]. *)
Lemma root_update_absent sha it t : root_ok t -> (forall x, x ∈ flatten t -> tag_ x <> tag_ it) -> updateGiveItem sha T it t = Ret (false, t).
Proof.
  intros Hr Hno. destruct (walk_absent t (tag_ it) Hr Hno) as (leaf & node & nodeID & rest & E & Hl). unfold updateGiveItem. rewrite E, Ret_bind.
  destruct leaf as [[ty x]|]; [destruct Hl as [-> Hx]; cbn [updateAt]; by rewrite (proj2 (Z.eqb_neq _ _) Hx)|by destruct Hl as [cs ->]].
Qed.

Lemma root_update_present sha it old t : root_ok t -> old ∈ flatten t -> tag_ old = tag_ it ->
  exists t', updateGiveItem sha T it t = Ret (true, t') /\ root_ok t' /\
    if bool_decide (getHash sha (Leaf T it) = getHash sha (Leaf T old)) then t' = t
    else exists rest, flatten t ≡ₚ old :: rest /\ flatten t' ≡ₚ it :: rest.
Proof.
  intros (cs & -> & Hb) Hold Htag. pose proof (branch_lookup 0 0 cs (tag_ it) Hb) as Hlk. unfold updateGiveItem, walk.
  set (b := Z.to_nat (digit 0 (tag_ it))) in *.
  assert (Hin : old ∈ flattenO (getChild cs b)).
  { apply (branch_elements 0 0 cs b _ old Hb ltac:(lia) Hlk). split; [done|]. by rewrite Htag. }
  destruct (getChild cs b) as [c|] eqn:Ec; [|by apply not_elem_of_nil in Hin].
  destruct (walk_branch 0 0 cs rootID (tag_ it) [] 64 c Hb ltac:(lia) rootID_ok Ec) as (nodeID' & Hn' & ->).
  pose proof Hb as (_ & _ & Hc).
  destruct (update_below _ _ c 64 nodeID' it old [(Inner cs, rootID)] (Hc _ c Hlk)) as (nid2 & stack' & t' & -> & Hup & Hwf' & rest & Hfl & Hfl'); [lia|done|lia|done|done|].
  rewrite Ret_bind. cbn [updateAt]. rewrite Htag, Z.eqb_refl. cbn [negb]. rewrite bool_decide_eq_true_2 by done. cbn [negb].
  case_bool_decide as Eh; [eexists; split; [done|]; split; [by eexists|done]|].
  rewrite Hup. cbn [dirtyUp]. rewrite (selectBranch_digit 0) by exact rootID_ok. eexists. split; [done|]. split; [eexists; split; [done|by apply branches_set]|].
  destruct (flatten_set cs b (Some c) (Some t') Hlk) as (l & r & E1 & E2). exists (l ++ rest ++ r). fold b. unfold setChild.
  rewrite E1, E2. simpl. rewrite Hfl, Hfl'. split; solve_Permutation.
Qed.

Lemma newInner_ok : root_ok newInner.
Proof. eexists. split; [done|]. by apply branches_empty. Qed.

(** ** A tree as a finite map *)

Definition contents (t : SHAMapTreeNode) : gmap Z SHAMapItem := list_to_map ((fun it => (tag_ it, it)) <$> flatten t).

Lemma root_nodup t : root_ok t -> NoDup (((fun it => (tag_ it, it)) <$> flatten t).*1).
Proof.
  intros Hr%root_sorted. rewrite <- list_fmap_compose. induction Hr as [|x l Hs IH Hf]; [constructor|]. rewrite fmap_cons.
  constructor; [|done]. intros (y & Hy & Hin)%list_elem_of_fmap. rewrite Forall_forall in Hf. specialize (Hf y Hin). unfold tagBefore in Hf. simpl in Hy. lia.
Qed.

Lemma contents_lookup t k it : root_ok t -> contents t !! k = Some it <-> it ∈ flatten t /\ tag_ it = k.
Proof.
  intros Hr. unfold contents. rewrite <- elem_of_list_to_map by (by apply root_nodup). rewrite list_elem_of_fmap. naive_solver.
Qed.

Lemma contents_absent t k : root_ok t -> contents t !! k = None -> forall it, it ∈ flatten t -> tag_ it <> k.
Proof. intros Hr Hn it Hit Ht. rewrite (proj2 (contents_lookup t k it Hr) (conj Hit Ht)) in Hn. done. Qed.

Lemma contents_unique t1 t2 : root_ok t1 -> root_ok t2 -> contents t1 = contents t2 -> t1 = t2.
Proof.
  intros H1 H2 E. apply root_unique; [done|done|]. intros it.
  pose proof (contents_lookup t1 (tag_ it) it H1). pose proof (contents_lookup t2 (tag_ it) it H2). rewrite E in *. naive_solver.
Qed.

Lemma contents_cons t it l : root_ok t -> flatten t ≡ₚ it :: l -> contents t = <[tag_ it := it]> (list_to_map ((fun it => (tag_ it, it)) <$> l)).
Proof. intros Hr Hp. unfold contents. rewrite (list_to_map_proper _ _ (root_nodup t Hr) (fmap_Permutation _ _ _ Hp)). done. Qed.

Lemma contents_rest t it l : root_ok t -> flatten t ≡ₚ it :: l -> (list_to_map ((fun it => (tag_ it, it)) <$> l) : gmap Z SHAMapItem) = delete (tag_ it) (contents t).
Proof.
  intros Hr Hp. rewrite (contents_cons t it l Hr Hp), delete_insert_eq, delete_id; [done|]. apply not_elem_of_list_to_map_1.
  pose proof (root_nodup t Hr) as Hn. rewrite (fmap_Permutation _ _ _ (fmap_Permutation _ _ _ Hp)) in Hn. by inversion Hn.
Qed.

Lemma contents_size t : root_ok t -> size (contents t) = length (flatten t).
Proof. intros Hr. unfold contents. rewrite <- length_map_to_list, map_to_list_to_map by (by apply root_nodup). by rewrite length_fmap. Qed.

(** The operations as operations of the finite map. *)
Inductive Op := AddItem (item : SHAMapItem) | DelItem (id : Z) | UpdateItem (item : SHAMapItem).

Definition runOp (sha : Blob -> Blob) (op : Op) (t : SHAMapTreeNode) : outcome (bool * SHAMapTreeNode) :=
  match op with
  | AddItem item => addGiveItem T item t
  | DelItem id => delItem id t
  | UpdateItem item => updateGiveItem sha T item t
  end.

Definition mapOp (op : Op) (m : gmap Z SHAMapItem) : bool * gmap Z SHAMapItem :=
  match op with
  | AddItem item => match m !! tag_ item with Some _ => (false, m) | None => (true, <[tag_ item := item]> m) end
  | DelItem id => match m !! id with Some _ => (true, delete id m) | None => (false, m) end
  | UpdateItem item => match m !! tag_ item with Some _ => (true, <[tag_ item := item]> m) | None => (false, m) end
  end.

Definition opItem (op : Op) : option SHAMapItem := match op with AddItem item | UpdateItem item => Some item | DelItem _ => None end.

(** No two of the byte strings have the same hash. *)
Definition noCollisions (sha : Blob -> Blob) (l : list Blob) : Prop := forall x y, x ∈ l -> y ∈ l -> sha x = sha y -> x = y.

Lemma leafBytes_same a b : leafBytes T a = leafBytes T b -> tag_ a = tag_ b -> a = b.
Proof.
  destruct a as [ka sa], b as [kb sb]. cbn [tag_]. intros E <-. f_equal. destruct T; unfold leafBytes in E; cbn [slice tag_] in E;
    apply app_inv_head in E; [exact E|by apply app_inv_tail in E..].
Qed.

Lemma runOp_ok sha op t items :
  root_ok t -> match opItem op with Some it => key_ok (tag_ it) /\ it ∈ items | None => True end -> (forall it, it ∈ flatten t -> it ∈ items) ->
  noCollisions sha (leafBytes T <$> items) ->
  exists t', runOp sha op t = Ret ((mapOp op (contents t)).1, t') /\ root_ok t' /\ contents t' = (mapOp op (contents t)).2 /\
    forall it, it ∈ flatten t' -> it ∈ items.
Proof.
  intros Hr Hop Hsub Hnc. destruct op as [it|k|it]; cbn [runOp mapOp opItem] in *.
  - destruct (contents t !! tag_ it) as [x|] eqn:E.
    + apply contents_lookup in E as [Hin Ht]; [|done]. exists t. split_and!; [by eapply root_add_present|done..].
    + destruct (root_add_absent t it) as (t' & -> & Hr' & Hfl); [done|naive_solver|by apply contents_absent|].
      exists t'. split_and!; [done|done|by apply contents_cons|]. intros x. rewrite Hfl, elem_of_cons. naive_solver.
  - destruct (contents t !! k) as [x|] eqn:E.
    + apply contents_lookup in E as [Hin <-]; [|done]. destruct (root_del_present t x) as (t' & -> & Hr' & Hfl); [done|done|].
      exists t'. split_and!; [done|done|by apply contents_rest|]. intros y Hy. apply Hsub. rewrite Hfl. by right.
    + exists t. split_and!; [|done..]. apply root_del_absent; [done|by apply contents_absent].
  - destruct (contents t !! tag_ it) as [old|] eqn:E.
    + apply contents_lookup in E as [Hin Ht]; [|done]. destruct (root_update_present sha it old t) as (t' & -> & Hr' & Hupd); [done..|].
      exists t'. cbn [fst snd]. case_bool_decide as Eh.
      * subst t'. assert (it = old) as ->.
        { apply leafBytes_same; [|done]. apply Hnc; [apply list_elem_of_fmap_2; naive_solver|apply list_elem_of_fmap_2; by apply Hsub|exact Eh]. }
        split_and!; [done|done| |done]. symmetry. apply insert_id. by apply contents_lookup.
      * destruct Hupd as (rest & Hf & Hf'). split_and!; [done|done| |].
        -- rewrite (contents_cons t' it rest), (contents_rest t old rest), Ht, insert_delete_eq; done.
        -- intros x. rewrite Hf', elem_of_cons. intros [->|Hx]; [naive_solver|]. apply Hsub. rewrite Hf. by right.
    + exists t. split_and!; [|done..]. apply root_update_absent; [done|by apply contents_absent].
Qed.

(** ** Hashes *)

(** The byte strings hashed for a tree. *)
Fixpoint preimages (sha : Blob -> Blob) (t : SHAMapTreeNode) : list Blob :=
  match t with
  | Leaf ty it => [leafBytes ty it]
  | Inner cs => innerBytes (map (getChildHash sha) cs) :: flat_map (fun o => match o with Some c => preimages sha c | None => [] end) cs
  end.

Lemma concat_same (n : nat) (l1 l2 : list Blob) : length l1 = length l2 -> Forall (fun x => length x = n) l1 -> Forall (fun x => length x = n) l2 ->
  concat l1 = concat l2 -> l1 = l2.
Proof.
  revert l2. induction l1 as [|x l1 IH]; intros [|y l2] Hl H1 H2 E; try done. inversion H1; subst. inversion H2; subst. simpl in E.
  apply app_inj_1 in E as [-> E]; [|done]. f_equal. apply IH; [by injection Hl|done..].
Qed.

(** The hash of a leaf names its key: either the key is hashed too, or the items
    are such that equal data have equal keys. *)
Definition identified (items : list SHAMapItem) : Prop :=
  T = tnTRANSACTION_NM -> forall a b, a ∈ items -> b ∈ items -> slice a = slice b -> tag_ a = tag_ b.

Lemma leafBytes_inj items a b : identified items -> a ∈ items -> b ∈ items ->
  key_ok (tag_ a) -> key_ok (tag_ b) -> leafBytes T a = leafBytes T b -> a = b.
Proof.
  intros Hid Ia Ib Ha Hb E. apply leafBytes_same; [done|]. unfold identified in Hid. destruct T eqn:HT.
  { unfold leafBytes in E. apply app_inv_head in E. by apply Hid. }
  all: assert (Et : bigEndian 32 (tag_ a) = bigEndian 32 (tag_ b)) by
    (unfold leafBytes in E; apply app_inv_head in E; apply app_inj_2 in E as [_ E]; rewrite ?length_bigEndian; done);
    apply (f_equal fromBytes) in Et; rewrite !fromBytes_bigEndian in Et; rewrite !Z.mod_small in Et; [done|exact Hb|exact Ha].
Qed.

Lemma leaf_not_inner it l : leafBytes T it <> innerBytes l.
Proof. intros E. apply (f_equal (take 4)) in E. unfold leafBytes, innerBytes in E. destruct T; rewrite !take_app_length' in E by done; by vm_compute in E. Qed.

Lemma wf_some cs : flatten (Inner cs) <> [] -> forallb isNone cs = false.
Proof.
  intros Hne. apply not_true_iff_false. intros Hf. apply Hne. rewrite flatten_inner. induction cs as [|[c|] cs IH]; [done|done|]. simpl. by apply IH.
Qed.

Section Binding.
Context (sha : Blob -> Blob) (Hlen : forall x, length (sha x) = 32%nat) (Hzero : forall x, sha x <> zeroHash).

(** Two trees whose hashes tell them apart. *)
Definition apart (t1 t2 : SHAMapTreeNode) : Prop :=
  noCollisions sha (preimages sha t1 ++ preimages sha t2) /\ identified (flatten t1 ++ flatten t2).

Lemma wf_hash d p t : wf d p t -> exists x, getHash sha t = sha x /\ x ∈ preimages sha t.
Proof using.
  destruct 1 as [|d p cs Hd Hl Hc H2]; [eexists; split; [done|by left]|]. cbn [getHash]. rewrite wf_some by (intros E; rewrite E in H2; simpl in H2; lia).
  eexists. split; [done|]. by left.
Qed.

Lemma childHash_length d p cs : branches_ok d p cs -> Forall (fun x => length x = 32%nat) (map (getChildHash sha) cs).
Proof using Hlen.
  intros (_ & _ & Hc). apply Forall_forall. intros x (o & -> & Ho)%list_elem_of_fmap. destruct o as [c|]; [|done].
  apply list_elem_of_lookup in Ho as [i Hi]. destruct (wf_hash _ _ _ (Hc i c Hi)) as (y & E & _). simpl. by rewrite E.
Qed.

Lemma preimages_child cs i c x : cs !! i = Some (Some c) -> x ∈ preimages sha c -> x ∈ preimages sha (Inner cs).
Proof using.
  intros Hi Hx. cbn [preimages]. right. rewrite list_elem_of_In. apply in_flat_map. exists (Some c). rewrite <- !list_elem_of_In.
  split; [by eapply list_elem_of_lookup_2|done].
Qed.

Lemma flatten_child cs i c it : cs !! i = Some (Some c) -> it ∈ flatten c -> it ∈ flatten (Inner cs).
Proof using.
  intros Hi Hx. rewrite flatten_inner, list_elem_of_In. apply in_flat_map. exists (Some c). rewrite <- !list_elem_of_In.
  split; [by eapply list_elem_of_lookup_2|done].
Qed.

Lemma apart_child cs1 cs2 i c1 c2 : apart (Inner cs1) (Inner cs2) ->
  cs1 !! i = Some (Some c1) -> cs2 !! i = Some (Some c2) -> apart c1 c2.
Proof using.
  intros [Hnc Hid] H1 H2. split.
  - assert (Hsub : forall x, x ∈ preimages sha c1 ++ preimages sha c2 -> x ∈ preimages sha (Inner cs1) ++ preimages sha (Inner cs2)).
    { intros x. rewrite !elem_of_app. intros [Hx|Hx]; [left|right]; by eapply preimages_child. }
    intros x y Hx Hy. by apply Hnc; apply Hsub.
  - assert (Hsub : forall x, x ∈ flatten c1 ++ flatten c2 -> x ∈ flatten (Inner cs1) ++ flatten (Inner cs2)).
    { intros x. rewrite !elem_of_app. intros [Hx|Hx]; [left|right]; by eapply flatten_child. }
    intros HT x y Hx Hy. by apply Hid; [|apply Hsub..].
Qed.

(** Equal hashes of the branches of two nodes. *)
Lemma children_bind d p cs1 cs2 : branches_ok d p cs1 -> branches_ok d p cs2 ->
  (forall i c1 c2, cs1 !! i = Some (Some c1) -> cs2 !! i = Some (Some c2) -> getHash sha c1 = getHash sha c2 -> c1 = c2) ->
  innerBytes (map (getChildHash sha) cs1) = innerBytes (map (getChildHash sha) cs2) -> cs1 = cs2.
Proof using Hlen Hzero.
  intros Hb1 Hb2 Hrec E. unfold innerBytes in E. apply app_inv_head in E.
  pose proof (childHash_length _ _ _ Hb1) as Hl1. pose proof (childHash_length _ _ _ Hb2) as Hl2.
  destruct Hb1 as (_ & L1 & Hc1), Hb2 as (_ & L2 & Hc2).
  apply (concat_same 32) in E; [|rewrite !length_map; congruence|done|done].
  apply list_eq. intros i. assert (Ei : (map (getChildHash sha) cs1) !! i = (map (getChildHash sha) cs2) !! i) by (by rewrite E).
  rewrite !list_lookup_fmap in Ei. destruct (cs1 !! i) as [o1|] eqn:E1, (cs2 !! i) as [o2|] eqn:E2; [|done|done|done].
  f_equal. simpl in Ei. injection Ei as Ei. destruct o1 as [c1|], o2 as [c2|]; simpl in Ei; [f_equal; by eapply Hrec| | |done]; exfalso.
  - destruct (wf_hash _ _ _ (Hc1 i c1 E1)) as (x & Hx & _). apply (Hzero x). congruence.
  - destruct (wf_hash _ _ _ (Hc2 i c2 E2)) as (x & Hx & _). apply (Hzero x). congruence.
Qed.

Lemma hash_binds d p t1 t2 : wf d p t1 -> wf d p t2 -> apart t1 t2 -> getHash sha t1 = getHash sha t2 -> t1 = t2.
Proof using Hlen Hzero.
  intros H1. revert t2. induction H1 as [d p x Hk Hp|d p cs Hd Hl Hc IH H2]; intros t2 Hwf2 Hap E; pose proof Hap as [Hnc Hid].
  - destruct Hwf2 as [d p y Hk' Hp'|d p cs Hd Hl Hc H2].
    + f_equal. apply (leafBytes_inj ([x] ++ [y])); [done|by left|by right; left|done|done|]. apply Hnc; [by left|by right; left|done].
    + exfalso. cbn [getHash] in E. rewrite wf_some in E by (intros E'; rewrite E' in H2; simpl in H2; lia).
      apply Hnc in E; [|by left|by right; left]. by apply leaf_not_inner in E.
  - assert (Hb1 : branches_ok d p cs) by done. cbn [getHash] in E. rewrite wf_some in E by (intros E'; rewrite E' in H2; simpl in H2; lia).
    destruct Hwf2 as [d p y Hk' Hp'|d p cs2 Hd2 Hl2 Hc2 H22].
    + exfalso. cbn [getHash] in E. apply Hnc in E; [|by left|apply elem_of_app; right; by left]. symmetry in E. by apply leaf_not_inner in E.
    + cbn [getHash] in E. rewrite (wf_some cs2) in E by (intros E'; rewrite E' in H22; simpl in H22; lia).
      apply Hnc in E; [|by left|apply elem_of_app; right; by left]. f_equal.
      apply (children_bind d p); [done|done| |exact E].
      intros i c1 c2 E1 E2. apply (IH i c1 E1); [by apply Hc2|by eapply apart_child].
Qed.

Lemma root_hash_unique t1 t2 : root_ok t1 -> root_ok t2 -> apart t1 t2 -> getHash sha t1 = getHash sha t2 -> t1 = t2.
Proof using Hlen Hzero.
  intros (cs1 & -> & Hb1) (cs2 & -> & Hb2) Hap E. f_equal. cbn [getHash] in E.
  assert (Hno : forall cs, branches_ok 0 0 cs -> forallb isNone cs = true -> cs = replicate 16 None).
  { intros cs (_ & <- & _) Hf. clear -Hf. induction cs as [|[c|] cs IH]; [done|done|]. simpl. f_equal. by apply IH. }
  destruct (forallb isNone cs1) eqn:F1, (forallb isNone cs2) eqn:F2.
  - by rewrite (Hno cs1), (Hno cs2).
  - symmetry in E. by apply Hzero in E.
  - by apply Hzero in E.
  - apply (proj1 Hap) in E; [|by left|apply elem_of_app; right; by left]. apply (children_bind 0 0); [done|done| |exact E].
    intros i c1 c2 E1 E2. apply (hash_binds (0 + 1) (16 * 0 + Z.of_nat i)); [by apply Hb1|by apply Hb2|by eapply apart_child].
Qed.

End Binding.

(** ** Iteration *)

(** The inner nodes above a position: each is the node of its depth for the key. *)
Fixpoint stackOk (id d : Z) (stack : NodeStack) : Prop :=
  match stack with
  | [] => d = 0
  | (node, nodeID) :: stack => 1 <= d /\ nid_ok (d - 1) nodeID /\ (exists cs, node = Inner cs /\ branches_ok (d - 1) (prefix (d - 1) id) cs) /\ stackOk id (d - 1) stack
  end.

(** The items to the right of a key at each node of the stack. *)
Fixpoint rightOf (id : Z) (stack : NodeStack) : list SHAMapItem :=
  match stack with
  | [] => []
  | (Inner cs, nodeID) :: stack => flat_map flattenO (drop (S (selectBranch nodeID id)) cs) ++ rightOf id stack
  | (Leaf _ _, _) :: stack => rightOf id stack
  end.

Lemma stackOk_depth id d stack : stackOk id d stack -> 0 <= d.
Proof. destruct stack as [|[? ?] ?]; simpl; [lia|]. intros [? _]. lia. Qed.

Lemma prefix_shorter d id k : 0 <= d < 64 -> prefix (d + 1) k = prefix (d + 1) id -> prefix d k = prefix d id /\ digit d k = digit d id.
Proof. intros Hd. rewrite !prefix_step by done. pose proof (digit_range d k). pose proof (digit_range d id). lia. Qed.

(** Keys with the same first digits have the same position. *)
Lemma stackOk_key id k d stack : stackOk id d stack -> d <= 64 -> prefix d k = prefix d id -> stackOk k d stack /\ rightOf k stack = rightOf id stack.
Proof.
  revert d. induction stack as [|[node nodeID] stack IH]; intros d; cbn [stackOk rightOf]; [done|].
  intros (Hd & Hn & (cs & -> & Hb) & Hs) Hd64 Hp. replace d with (d - 1 + 1) in Hp by lia.
  apply prefix_shorter in Hp as [Hp Hdig]; [|lia]. destruct (IH (d - 1) Hs ltac:(lia) Hp) as [Hs' Hr]. rewrite Hr.
  rewrite !(selectBranch_digit (d - 1)) by done. rewrite Hdig. split; [|done]. split_and!; [done|done| |done]. exists cs. by rewrite Hp.
Qed.

(** The first branch that is not empty. *)
Lemma first_branch (cs : list (option SHAMapTreeNode)) :
  match head (omap id cs) with
  | Some c => exists i, cs !! i = Some (Some c) /\ flat_map flattenO cs = flatten c ++ flat_map flattenO (drop (S i) cs)
  | None => flat_map flattenO cs = []
  end.
Proof.
  induction cs as [|[c|] cs IH]; [done|by exists 0%nat|]. change (omap id (None :: cs)) with (omap id cs).
  destruct (head (omap id cs)) as [c|]; [|done]. destruct IH as (i & Hi & E). exists (S i). done.
Qed.

(** What iteration goes on with: the leaf of the next item, and its position. *)
Definition positioned (items : list SHAMapItem) (r : outcome (option (SHAMapNodeType * SHAMapItem) * NodeStack)) : Prop :=
  match items with
  | [] => r = Ret (None, [])
  | x :: l => exists nodeID stack d, r = Ret (Some (T, x), (Leaf T x, nodeID) :: stack) /\ d <= 64 /\ stackOk (tag_ x) d stack /\ rightOf (tag_ x) stack = l
  end.

Lemma positioned_ret items r : positioned items r -> exists leaf stack, r = Ret (leaf, stack).
Proof. destruct items; cbn [positioned]; [intros ->; eauto|]. intros (? & ? & ? & -> & _). eauto. Qed.

Lemma scanBelow_first n d p cs nodeID stack branch :
  branches_ok d p cs -> nid_ok d nodeID -> 64 - d < Z.of_nat n -> (branch < 16)%nat ->
  (forall x, prefix d (tag_ x) = p -> key_ok (tag_ x) -> stackOk (tag_ x) d stack) -> 0 <= d ->
  flatten (Inner cs) <> [] ->
  exists x l nodeID' stack' d', scanBelow n firstChild cs ((Inner cs, nodeID) :: stack) branch = Ret (Some (T, x), (Leaf T x, nodeID') :: stack') /\
    flatten (Inner cs) = x :: l /\ prefix d (tag_ x) = p /\ key_ok (tag_ x) /\ d' <= 64 /\ stackOk (tag_ x) d' stack' /\ rightOf (tag_ x) stack' = l ++ rightOf (tag_ x) stack.
Proof.
  revert d p cs nodeID stack. induction n as [|n IH]; intros d p cs nodeID stack Hb Hn Hfuel Hbr Hst Hd Hne; [destruct Hb; lia|].
  cbn [scanBelow]. change (firstChild cs) with (head (omap id cs)). pose proof (first_branch cs) as Hfirst. rewrite flatten_inner in Hne |- *.
  destruct (head (omap id cs)) as [c|]; [|done]. destruct Hfirst as (i & Hi & Efl).
  assert (Hkeys : forall y, y ∈ flatten c -> key_ok (tag_ y) /\ prefix d (tag_ y) = p /\ Z.to_nat (digit d (tag_ y)) = i) by (intros y; by eapply branches_keys).
  assert (Hstep : forall y, y ∈ flatten c -> stackOk (tag_ y) (d + 1) ((Inner cs, nodeID) :: stack) /\
    rightOf (tag_ y) ((Inner cs, nodeID) :: stack) = flat_map flattenO (drop (S i) cs) ++ rightOf (tag_ y) stack).
  { intros y Hy. destruct (Hkeys y Hy) as (Hk & Hp & Hdig). cbn [stackOk rightOf]. rewrite (selectBranch_digit d) by done. rewrite Hdig.
    replace (d + 1 - 1) with d by lia. split; [|done]. split_and!; [lia|done| |by apply Hst]. exists cs. by rewrite Hp. }
  pose proof Hb as (Hd64 & _ & Hc). pose proof (Hc i c Hi) as Hwf. destruct c as [ty x|cs'].
  - inversion Hwf; subst. destruct (Hkeys x) as (Hk & Hp & Hdig); [by left|]. destruct (Hstep x) as [Hs Hr]; [by left|].
    exists x, (flat_map flattenO (drop (S i) cs)). eexists _, _, (d + 1). split; [done|]. split_and!; [done|done|done|lia|done|done].
  - destruct (getChildNodeID_ok d branch nodeID Hn) as (nid' & -> & Hn'); [lia|done|]. rewrite Ret_bind.
    pose proof (wf_nonempty _ _ _ Hwf) as Hne'.
    destruct (IH (d + 1) (16 * p + Z.of_nat i) cs' nid' ((Inner cs, nodeID) :: stack)) as (x & l & nid2 & stack' & d' & -> & Hfl & Hpx & Hk & Hd' & Hs & Hr);
      [by apply wf_branches|done|lia|done| |lia|done|].
    { intros y Hpy Hky. rewrite prefix_step in Hpy by lia. pose proof (digit_range d (tag_ y)).
      assert (prefix d (tag_ y) = p) as Hpd by (apply lookup_lt_Some in Hi; destruct Hb as (_ & Hl & _); lia).
      cbn [stackOk]. replace (d + 1 - 1) with d by lia. split_and!; [lia|done| |by apply Hst]. exists cs. by rewrite Hpd. }
    destruct (Hkeys x) as (_ & Hp & _); [rewrite Hfl; by left|]. destruct (Hstep x) as [_ Hr']; [rewrite Hfl; by left|].
    exists x, (l ++ flat_map flattenO (drop (S i) cs)). eexists _, _, d'. split; [done|]. split_and!; [|done|done|done|done|].
    + rewrite Efl, Hfl. done.
    + rewrite Hr, Hr'. by rewrite app_assoc.
Qed.

Lemma firstBelow_ok d p c stack branch : wf d p c -> 1 <= d <= 64 -> (branch < 16)%nat ->
  (forall x, prefix d (tag_ x) = p -> key_ok (tag_ x) -> stackOk (tag_ x) d stack) ->
  exists x l nodeID' stack' d', firstBelow c stack branch = Ret (Some (T, x), (Leaf T x, nodeID') :: stack') /\
    flatten c = x :: l /\ d' <= 64 /\ stackOk (tag_ x) d' stack' /\ rightOf (tag_ x) stack' = l ++ rightOf (tag_ x) stack.
Proof.
  intros Hwf Hd Hbr Hst. destruct Hwf as [d p x Hk Hp|d p cs Hd64 Hl Hc H2].
  - exists x, []. eexists _, _, d. split; [done|]. split_and!; [done|lia|by apply Hst|done].
  - assert (Hb : branches_ok d p cs) by done. assert (Hne : flatten (Inner cs) <> []) by (intros E; rewrite E in H2; simpl in H2; lia).
    assert (Hsome : exists y, y ∈ flatten (Inner cs)) by (destruct (flatten (Inner cs)); [done|eexists; by left]).
    destruct Hsome as [y Hy]. destruct (wf_keys d p (Inner cs) y ltac:(by constructor) ltac:(lia) Hy) as [Hky Hpy].
    pose proof (Hst y Hpy Hky) as Hsy. unfold firstBelow, belowHelper. destruct stack as [|[node nid] stack]; [simpl in Hsy; lia|].
    destruct Hsy as (_ & Hn & _). destruct (getChildNodeID_ok (d - 1) branch nid Hn) as (nid' & -> & Hn'); [lia|done|]. rewrite Ret_bind.
    replace (d - 1 + 1) with d in Hn' by lia.
    destruct (scanBelow_first 65 d p cs nid' ((node, nid) :: stack) branch) as (x & l & nid2 & stack' & d' & -> & Hfl & _ & _ & Hrest); [done|done|lia|done|done|lia|done|].
    exists x, l, nid2, stack', d'. by rewrite Hfl.
Qed.

Lemma peekFirst_ok t : root_ok t -> positioned (flatten t) (peekFirstItem t).
Proof.
  intros (cs & -> & Hb). unfold peekFirstItem, firstBelow, belowHelper. rewrite Ret_bind.
  destruct (decide (flatten (Inner cs) = [])) as [E|Hne].
  - rewrite E. pose proof (first_branch cs) as Hf. cbn [positioned scanBelow]. change (firstChild cs) with (head (omap id cs)).
    destruct (head (omap id cs)) as [c|]; [|by rewrite Ret_bind]. destruct Hf as (i & Hi & Ef). rewrite flatten_inner, Ef in E.
    apply app_eq_nil in E as [E _]. destruct Hb as (_ & _ & Hc). by destruct (wf_nonempty _ _ _ (Hc i c Hi)).
  - destruct (scanBelow_first 65 0 0 cs rootID [] 0) as (x & l & nid2 & stack' & d' & -> & Hfl & _ & _ & Hd' & Hs & Hr); [done|exact rootID_ok|lia|lia|done|lia|done|].
    rewrite Ret_bind, Hfl. exists nid2, stack', d'. rewrite Hr. by rewrite app_nil_r.
Qed.

(** The next branch that is not empty. *)
Lemma branchAfter_ok cs b : length cs = 16%nat -> (b < 16)%nat ->
  match branchAfter cs b with
  | Some i => (b < i < 16)%nat /\ exists c, cs !! i = Some (Some c) /\ flat_map flattenO (drop (S b) cs) = flatten c ++ flat_map flattenO (drop (S i) cs)
  | None => flat_map flattenO (drop (S b) cs) = []
  end.
Proof.
  intros Hl Hb. unfold branchAfter, branchFactor. remember (16 - S b)%nat as n eqn:En. remember (S b) as j eqn:Ej.
  assert (Hj : (j + n = 16)%nat) by lia. assert (Hbj : (b < j)%nat) by lia. clear En Ej Hb. revert j Hj Hbj. induction n as [|n IH]; intros j Hj Hbj.
  - simpl. rewrite drop_ge by lia. done.
  - cbn [seq List.find]. destruct (lookup_lt_is_Some_2 cs j) as [o Ho]; [lia|]. rewrite (drop_S cs o j Ho). unfold isEmptyBranch at 1.
    rewrite getChild_lookup, Ho. destruct o as [c|]; cbn [negb].
    + split; [lia|]. exists c. done.
    + specialize (IH (S j) ltac:(lia) ltac:(lia)). cbn [flat_map flattenO app]. exact IH.
Qed.

Lemma moveUp_ok id d stack : stackOk id d stack -> d <= 64 -> positioned (rightOf id stack) (moveUp branchAfter firstBelow stack id).
Proof.
  revert d. induction stack as [|[node nid] stack IH]; intros d Hs Hd; [done|]. pose proof Hs as (Hd1 & Hn & (cs & -> & Hb) & Hs').
  cbn [rightOf moveUp]. rewrite (selectBranch_digit (d - 1)) by done. set (b := Z.to_nat (digit (d - 1) id)).
  pose proof (digit_range (d - 1) id). pose proof (branchAfter_ok cs b ltac:(by apply Hb) ltac:(lia)) as Hafter.
  destruct (branchAfter cs b) as [i|]; [|rewrite Hafter; by apply (IH (d - 1)); [|lia]].
  destruct Hafter as (Hi & c & Hc & E). rewrite getChild_lookup, Hc, E. pose proof Hb as (_ & _ & Hwf). specialize (Hwf i c Hc).
  replace (d - 1 + 1) with d in Hwf by lia.
  assert (Hkey : forall y, prefix d (tag_ y) = 16 * prefix (d - 1) id + Z.of_nat i -> prefix (d - 1) (tag_ y) = prefix (d - 1) id /\ digit (d - 1) (tag_ y) = Z.of_nat i).
  { intros y Hy. replace d with (d - 1 + 1) in Hy at 1 by lia. rewrite prefix_step in Hy by lia. pose proof (digit_range (d - 1) (tag_ y)). lia. }
  destruct (firstBelow_ok d _ c ((Inner cs, nid) :: stack) i Hwf) as (x & l & nid' & stack' & d' & -> & Hfl & Hd' & Hs2 & Hr); [lia|lia| |].
  { intros y Hy _. destruct (Hkey y Hy) as [Hp _]. cbn [stackOk]. split_and!; [done|done|exists cs; by rewrite Hp|].
    apply (stackOk_key id); [done|lia|done]. }
  rewrite Ret_bind, Hfl. cbn [app positioned]. exists nid', stack', d'. split_and!; [done|done|done|]. rewrite Hr. cbn [rightOf].
  destruct (wf_keys d _ c x Hwf) as [_ Hpx]; [lia|rewrite Hfl; by left|]. destruct (Hkey x Hpx) as [Hp Hdig].
  rewrite (selectBranch_digit (d - 1)), Hdig, Nat2Z.id by done. rewrite app_assoc. f_equal. apply (stackOk_key id _ (d - 1)); [done|lia|done].
Qed.

Lemma iterate_ok items : forall n leaf stack r, r = Ret (leaf, stack) -> positioned items r -> (length items <= n)%nat -> iterate n leaf stack = Ret items.
Proof.
  induction items as [|x l IH]; intros n leaf stack r -> Hpos Hn; cbn [positioned] in Hpos; [injection Hpos as -> ->; by destruct n|].
  destruct Hpos as (nid & stack' & d & [= -> ->] & Hd & Hs & Hr). destruct n as [|n]; [simpl in Hn; lia|]. cbn [iterate peekNextItem].
  pose proof (moveUp_ok _ _ _ Hs Hd) as Hm. rewrite Hr in Hm.
  destruct (positioned_ret _ _ Hm) as (leaf2 & stack2 & E). rewrite E, Ret_bind.
  rewrite (IH n leaf2 stack2 _ E Hm); [by rewrite Ret_bind|]. simpl in Hn. lia.
Qed.

(** The items behind a key: those of its branch and those of the branches behind it. *)
Abbreviation behind id := (filter (fun it => id < tag_ it)).

Lemma filter_none (P : SHAMapItem -> Prop) `{!forall x, Decision (P x)} (l : list SHAMapItem) : (forall x, x ∈ l -> ~ P x) -> filter P l = [].
Proof.
  induction l as [|x l IH]; intros Hl; [done|]. rewrite filter_cons_False by (apply Hl; by left). apply IH. intros y Hy. apply Hl. by right.
Qed.

Lemma filter_every (P : SHAMapItem -> Prop) `{!forall x, Decision (P x)} (l : list SHAMapItem) : (forall x, x ∈ l -> P x) -> filter P l = l.
Proof.
  induction l as [|x l IH]; intros Hl; [done|]. rewrite filter_cons_True by (apply Hl; by left). f_equal. apply IH. intros y Hy. apply Hl. by right.
Qed.

Lemma elem_of_branches cs it : it ∈ flat_map flattenO cs <-> exists i c, cs !! i = Some (Some c) /\ it ∈ flatten c.
Proof. apply elem_of_flatten. Qed.

Lemma behind_split d id cs : branches_ok d (prefix d id) cs -> 0 <= d ->
  let b := Z.to_nat (digit d id) in
  behind id (flatten (Inner cs)) = behind id (flattenO (getChild cs b)) ++ flat_map flattenO (drop (S b) cs).
Proof.
  intros Hb Hd b. pose proof (branch_lookup d _ cs id Hb) as Hlk. fold b in Hlk. pose proof (digit_range d id). pose proof Hb as (Hd64 & Hl & Hc).
  assert (Hkey : forall i c x, cs !! i = Some (Some c) -> x ∈ flatten c -> prefix (d + 1) (tag_ x) = 16 * prefix d id + Z.of_nat i).
  { intros i c x Hi Hx. by apply (wf_keys _ _ c x (Hc i c Hi)); [lia|]. }
  assert (Hid : prefix (d + 1) id = 16 * prefix d id + Z.of_nat b) by (rewrite prefix_step by lia; unfold b; lia).
  rewrite flatten_inner. rewrite <- (take_drop_middle cs b _ Hlk) at 1. rewrite flat_map_app. cbn [flat_map]. rewrite !filter_app.
  rewrite (filter_none _ (flat_map flattenO (take b cs))), (filter_every _ (flat_map flattenO (drop (S b) cs))); [done| |].
  - intros x (i & c & Hi & Hx)%elem_of_branches. rewrite lookup_drop in Hi. apply (prefix_lt (d + 1)); [lia|]. rewrite Hid, (Hkey _ c x Hi Hx). lia.
  - intros x (i & c & Hi & Hx)%elem_of_branches. apply lookup_take_Some in Hi as [Hi Hib]. apply Z.nlt_ge, Z.lt_le_incl, (prefix_lt (d + 1)); [lia|].
    rewrite Hid, (Hkey _ c x Hi Hx). lia.
Qed.

Lemma walk_behind n d t nodeID id stack : wf d (prefix d id) t -> 0 <= d <= 64 -> nid_ok d nodeID -> 64 - d < Z.of_nat n -> stackOk id d stack ->
  exists leaf stack', walkTowardsKey n t nodeID id stack = Ret (leaf, stack') /\
    match leaf with
    | None => exists d', d' <= 64 /\ stackOk id d' stack' /\ rightOf id stack' = behind id (flatten t) ++ rightOf id stack
    | Some (ty, x) => exists nid' s d', ty = T /\ stack' = (Leaf T x, nid') :: s /\ d' <= 64 /\ stackOk id d' s /\ prefix d' (tag_ x) = prefix d' id /\
        behind id [x] ++ rightOf id s = behind id (flatten t) ++ rightOf id stack
    end.
Proof.
  revert d t nodeID stack. induction n as [|n IH]; intros d t nodeID stack Hwf Hd Hn Hfuel Hs; [lia|].
  inversion Hwf as [? ? x Hk Hp|? ? cs Hd64 Hl Hc H2]; subst.
  - eexists _, _. split; [done|]. exists nodeID, stack, d. split_and!; [done|done|lia|done|done|done].
  - assert (Hb : branches_ok d (prefix d id) cs) by done. pose proof (branch_lookup d _ cs id Hb) as Hlk. pose proof (behind_split d id cs Hb ltac:(lia)) as Hsp.
    cbv zeta in Hsp. rewrite Hsp. pose proof (digit_range d id).
    assert (Hs' : stackOk id (d + 1) ((Inner cs, nodeID) :: stack)).
    { cbn [stackOk]. replace (d + 1 - 1) with d by lia. split_and!; [lia|done|by exists cs|done]. }
    assert (Hr : rightOf id ((Inner cs, nodeID) :: stack) = flat_map flattenO (drop (S (Z.to_nat (digit d id))) cs) ++ rightOf id stack).
    { cbn [rightOf]. by rewrite (selectBranch_digit d). }
    rewrite <- app_assoc, <- Hr. destruct (getChild cs (Z.to_nat (digit d id))) as [c|] eqn:Ec.
    + destruct (walk_branch d _ cs nodeID id stack n c Hb ltac:(lia) Hn Ec) as (nodeID' & Hn' & ->).
      apply (IH (d + 1)); [|lia|done|lia|done]. rewrite prefix_step by lia. rewrite <- (Z2Nat.id (digit d id)) by lia. by apply Hc.
    + rewrite (walk_empty d (prefix d id)) by done. eexists _, _. split; [done|]. exists (d + 1). split_and!; [lia|done|done].
Qed.

Lemma upper_bound_ok t id : root_ok t -> key_ok id -> positioned (behind id (flatten t)) (upper_bound id t).
Proof.
  intros (cs & -> & Hb) Hid. assert (Hb' : branches_ok 0 (prefix 0 id) cs) by (by rewrite prefix_0).
  assert (Hw : exists leaf stack', walk (Inner cs) id = Ret (leaf, stack') /\
    match leaf with
    | None => exists d', d' <= 64 /\ stackOk id d' stack' /\ rightOf id stack' = behind id (flatten (Inner cs))
    | Some (ty, x) => exists nid' s d', ty = T /\ stack' = (Leaf T x, nid') :: s /\ d' <= 64 /\ stackOk id d' s /\ prefix d' (tag_ x) = prefix d' id /\
        behind id [x] ++ rightOf id s = behind id (flatten (Inner cs))
    end).
  { pose proof (branch_lookup 0 _ cs id Hb) as Hlk. pose proof (behind_split 0 id cs Hb' ltac:(lia)) as Hsp. cbv zeta in Hsp. rewrite Hsp.
    assert (Hs' : stackOk id 1 [(Inner cs, rootID)]) by (cbn [stackOk]; split_and!; [lia|exact rootID_ok|by exists cs|done]).
    assert (Hr : rightOf id [(Inner cs, rootID)] = flat_map flattenO (drop (S (Z.to_nat (digit 0 id))) cs)).
    { cbn [rightOf]. rewrite (selectBranch_digit 0) by exact rootID_ok. by rewrite app_nil_r. }
    rewrite <- Hr. unfold walk. destruct (getChild cs (Z.to_nat (digit 0 id))) as [c|] eqn:Ec.
    - destruct (walk_branch 0 _ cs rootID id [] 64 c Hb ltac:(lia) rootID_ok Ec) as (nodeID' & Hn' & ->).
      pose proof (digit_range 0 id). destruct Hb' as (_ & _ & Hc). apply (walk_behind 64 1); [|lia|done|lia|done].
      change 1 with (0 + 1) at 2. rewrite prefix_step by lia. rewrite <- (Z2Nat.id (digit 0 id)) by lia. by apply (Hc _ c).
    - rewrite (walk_empty 0 0) by (done || exact rootID_ok). eexists _, _. split; [done|]. exists 1. split_and!; [lia|done|done]. }
  destruct Hw as (leaf & stack' & E & Hl). unfold upper_bound. rewrite E, Ret_bind. destruct leaf as [[ty x]|].
  - destruct Hl as (nid' & s & d' & -> & -> & Hd' & Hs & Hp & <-). destruct (Z.ltb_spec id (tag_ x)) as [Hlt|Hge].
    + rewrite filter_cons_True by done. cbn [positioned app]. exists nid', s, d'. destruct (stackOk_key id (tag_ x) d' s Hs Hd' Hp). split_and!; done.
    + rewrite filter_cons_False by lia. by apply (moveUp_ok id d').
  - destruct Hl as (d' & Hd' & Hs & <-). destruct (walk_top _ _ _ _ _ _ _ E) as (node & nid & rest & -> & csn & ->). by apply (moveUp_ok id d').
Qed.

End WellFormed.
