(* ===== verification/SHAMapProperties.v ===== *)
(** * Properties of the Merkle radix tree

    The tree is a finite map, its hash binds its items, its iterators give them
    in order, and the comparison of two trees finds their differences. *)

From stdpp Require Import strings sorting.
From S2P Require Import Prelude Outcome Serializer SerializerFacts STAccess LedgerViews LedgerViewsFacts SHAMap SHAMapFacts.

(** ** Differences of two lists of items *)

(** What a difference says of a key. *)
Definition differs (l1 l2 : list SHAMapItem) (k : Z) (r : DeltaRef) : Prop :=
  match r with
  | (Some a, Some b) => a ∈ l1 /\ b ∈ l2 /\ tag_ a = k /\ tag_ b = k /\ slice a <> slice b
  | (Some a, None) => a ∈ l1 /\ tag_ a = k /\ forall b, b ∈ l2 -> tag_ b <> k
  | (None, Some b) => b ∈ l2 /\ tag_ b = k /\ forall a, a ∈ l1 -> tag_ a <> k
  | (None, None) => False
  end.

Definition refOf (o1 o2 : option SHAMapItem) : option DeltaRef :=
  match o1, o2 with
  | None, None => None
  | Some a, Some b => if bool_decide (slice a = slice b) then None else Some (Some a, Some b)
  | _, _ => Some (o1, o2)
  end.

(** The differences of two maps. *)
Definition mapDiff (m1 m2 : gmap Z SHAMapItem) : gmap Z DeltaRef := merge refOf m1 m2.

Definition itemMap (l : list SHAMapItem) : gmap Z SHAMapItem := list_to_map ((fun it => (tag_ it, it)) <$> l).

Definition diffList (l1 l2 : list SHAMapItem) : list (Z * DeltaRef) := map_to_list (mapDiff (itemMap l1) (itemMap l2)).

Definition distinct (l : list SHAMapItem) : Prop := NoDup (tag_ <$> l).

Lemma distinct_pairs l : distinct l -> NoDup (((fun it => (tag_ it, it)) <$> l).*1).
Proof. intros H. by rewrite <- list_fmap_compose. Qed.

Lemma itemMap_lookup l k it : distinct l -> itemMap l !! k = Some it <-> it ∈ l /\ tag_ it = k.
Proof. intros H. unfold itemMap. rewrite <- elem_of_list_to_map by (by apply distinct_pairs). rewrite list_elem_of_fmap. naive_solver. Qed.

Lemma itemMap_none l k : distinct l -> itemMap l !! k = None <-> forall it, it ∈ l -> tag_ it <> k.
Proof.
  intros H. rewrite eq_None_not_Some. split.
  - intros Hn it Hit Ht. apply Hn. exists it. by apply itemMap_lookup.
  - intros Hn [it Hit]. apply itemMap_lookup in Hit as [Hit Ht]; [|done]. by apply (Hn it).
Qed.

Lemma mapDiff_lookup m1 m2 k : mapDiff m1 m2 !! k = refOf (m1 !! k) (m2 !! k).
Proof. unfold mapDiff. rewrite lookup_merge. by destruct (m1 !! k), (m2 !! k). Qed.

Lemma diffList_spec l1 l2 k r : distinct l1 -> distinct l2 -> (k, r) ∈ diffList l1 l2 <-> differs l1 l2 k r.
Proof.
  intros H1 H2. unfold diffList. rewrite elem_of_map_to_list, mapDiff_lookup.
  pose proof (fun a => itemMap_lookup l1 k a H1) as HA. pose proof (fun b => itemMap_lookup l2 k b H2) as HB.
  destruct r as [[a|] [b|]]; cbn [differs]; rewrite <- ?(itemMap_none l1 k H1), <- ?(itemMap_none l2 k H2);
    destruct (itemMap l1 !! k) as [a'|], (itemMap l2 !! k) as [b'|]; cbn [refOf]; try case_bool_decide; naive_solver.
Qed.

Lemma diffList_perm l l1 l2 : distinct l1 -> distinct l2 -> NoDup l -> (forall k r, (k, r) ∈ l <-> differs l1 l2 k r) -> l ≡ₚ diffList l1 l2.
Proof.
  intros H1 H2 Hn Hl. apply NoDup_Permutation; [done|apply NoDup_map_to_list|]. intros [k r]. by rewrite Hl, diffList_spec.
Qed.

Lemma diffList_same l : distinct l -> diffList l l = [].
Proof.
  intros H. apply elem_of_nil_inv. intros [k r]. rewrite diffList_spec by done. destruct r as [[a|] [b|]]; cbn [differs].
  - intros (Ha & Hb & Ha' & Hb' & Hne). apply Hne. f_equal. pose proof (proj2 (itemMap_lookup l k a H) (conj Ha Ha')).
    pose proof (proj2 (itemMap_lookup l k b H) (conj Hb Hb')). congruence.
  - intros (Ha & Ht & Hn). by apply (Hn a).
  - intros (Ha & Ht & Hn). by apply (Hn b).
  - tauto.
Qed.

(** ** Recording a list of differences *)

Fixpoint recordAll (l : list (Z * DeltaRef)) (d : Delta) : bool * Delta :=
  match l with
  | [] => (true, d)
  | (k, r) :: l => let '(go, d) := record k r d in if go then recordAll l d else (false, d)
  end.

Lemma recordAll_app l1 l2 d : recordAll (l1 ++ l2) d = let '(go, d) := recordAll l1 d in if go then recordAll l2 d else (false, d).
Proof.
  revert d. induction l1 as [|[k r] l1 IH]; intros d; [done|]. cbn [recordAll app]. destruct (record k r d) as [[] d']; [apply IH|done].
Qed.

Lemma recordAll_ok l m (c : Z) : NoDup l.*1 -> (forall k, k ∈ l.*1 -> m !! k = None) -> 0 < c ->
  (Z.of_nat (length l) < c -> recordAll l (m, c) = (true, (list_to_map l ∪ m, c - Z.of_nat (length l)))) /\
  (c <= Z.of_nat (length l) -> recordAll l (m, c) = (false, (list_to_map (take (Z.to_nat c) l) ∪ m, 0))).
Proof.
  revert m c. induction l as [|[k r] l IH]; intros m c Hn Hm Hc.
  - cbn [recordAll length]. rewrite list_to_map_nil, (left_id_L ∅ (∪)). split; [|simpl; lia]. intros _. do 2 f_equal. simpl. lia.
  - rewrite fmap_cons in Hn, Hm. cbn [fst] in Hn, Hm. inversion Hn as [|? ? Hk Hn']; subst. cbn [recordAll]. unfold record. cbn [fst snd].
    rewrite (Hm k) by (by left). rewrite length_cons.
    assert (Hu : forall l', k ∉ l'.*1 -> (list_to_map ((k, r) :: l') ∪ m : gmap Z DeltaRef) = list_to_map l' ∪ <[k := r]> m).
    { intros l' Hl'. rewrite list_to_map_cons, <- insert_union_l, insert_union_r; [done|by apply not_elem_of_list_to_map_1]. }
    assert (Htake : forall j, k ∉ (take j l).*1).
    { intros j. rewrite fmap_take. intros Hin. apply Hk. eapply elem_of_take in Hin as (i & Hi & _). by eapply list_elem_of_lookup_2. }
    destruct (Z.ltb_spec 0 (c - 1)) as [Hgo|Hgo].
    + destruct (IH (<[k := r]> m) (c - 1) Hn') as [IH1 IH2]; [|lia|].
      { intros k' Hk'. rewrite lookup_insert_ne by (intros ->; done). apply Hm. by right. }
      split; intros Hl.
      * rewrite IH1 by lia. rewrite (Hu l Hk). do 2 f_equal. lia.
      * rewrite IH2 by lia. replace (Z.to_nat c) with (S (Z.to_nat (c - 1))) by lia. cbn [take]. by rewrite (Hu _ (Htake _)).
    + assert (c = 1) as -> by lia. split; [lia|]. intros _. change (Z.to_nat 1) with 1%nat. change (take 1 ((k, r) :: l)) with [(k, r)]. rewrite (Hu [] ltac:(by intros ?%not_elem_of_nil)).
      by rewrite list_to_map_nil, (left_id_L ∅ (∪)).
Qed.

(** All the differences recorded, or as many as asked for. *)
Lemma recorded_all l (D : gmap Z DeltaRef) (c : Z) : l ≡ₚ map_to_list D -> 0 < c ->
  (Z.of_nat (size D) < c -> exists c', recordAll l (∅, c) = (true, (D, c'))) /\
  (c <= Z.of_nat (size D) -> exists D' c', recordAll l (∅, c) = (false, (D', c')) /\ D' ⊆ D /\ Z.of_nat (size D') = c).
Proof.
  intros Hl Hc. assert (Hn : NoDup l.*1) by (rewrite Hl; apply NoDup_fst_map_to_list).
  assert (HD : (list_to_map l : gmap Z DeltaRef) = D) by (rewrite (list_to_map_proper _ _ Hn Hl); apply list_to_map_to_list).
  assert (Hsize : size D = length l) by (rewrite Hl; by rewrite length_map_to_list).
  destruct (recordAll_ok l ∅ c Hn) as [H1 H2]; [done|done|]. rewrite Hsize. split; intros Hs.
  - rewrite H1 by done. rewrite HD, (right_id_L ∅ (∪)). by eexists.
  - rewrite H2 by done. rewrite (right_id_L ∅ (∪)). eexists _, _. split; [done|].
    rewrite <- (take_drop (Z.to_nat c) l), fmap_app in Hn. apply NoDup_app in Hn as (Hnt & Hdisj & _). split.
    + rewrite <- HD. rewrite <- (take_drop (Z.to_nat c) l) at 2. rewrite list_to_map_app. apply map_union_subseteq_l.
    + rewrite <- length_map_to_list, map_to_list_to_map by done. rewrite length_take. lia.
Qed.

(** ** One branch against an item *)

Definition alone (first : bool) (it : SHAMapItem) : Z * DeltaRef := (tag_ it, ref first (Some it) None).

(** What [walkBranch] records for the items it meets. *)
Fixpoint emits (first : bool) (items : list SHAMapItem) (other : option SHAMapItem) : list (Z * DeltaRef) * option SHAMapItem :=
  match items, other with
  | [], _ => ([], other)
  | it :: items, None => let '(l, o) := emits first items None in (alone first it :: l, o)
  | it :: items, Some b =>
      if negb (tag_ it =? tag_ b) then let '(l, o) := emits first items other in (alone first it :: l, o)
      else if negb (bool_decide (slice it = slice b)) then
        let '(l, o) := emits first items None in ((tag_ it, ref first (Some it) (Some b)) :: l, o)
      else emits first items None
  end.

Definition emitsAll (first : bool) (items : list SHAMapItem) (other : option SHAMapItem) : list (Z * DeltaRef) :=
  let '(l, o) := emits first items other in l ++ match o with Some b => [(tag_ b, ref first None (Some b))] | None => [] end.

Lemma emits_none first items : emits first items None = (alone first <$> items, None).
Proof. induction items as [|it items IH]; [done|]. cbn [emits]. by rewrite IH. Qed.

Lemma emitsAll_none first items : emitsAll first items None = alone first <$> items.
Proof. unfold emitsAll. by rewrite emits_none, app_nil_r. Qed.

Lemma emitsAll_some first it items b : emitsAll first (it :: items) (Some b) =
  if negb (tag_ it =? tag_ b) then alone first it :: emitsAll first items (Some b)
  else (if bool_decide (slice it = slice b) then [] else [(tag_ it, ref first (Some it) (Some b))]) ++ (alone first <$> items).
Proof.
  unfold emitsAll. cbn [emits]. destruct (tag_ it =? tag_ b); cbn [negb].
  - case_bool_decide; cbn [negb]; rewrite emits_none; simpl; by rewrite app_nil_r.
  - by destruct (emits first items (Some b)).
Qed.

Lemma ref_inj first x y x' y' : ref first x y = ref first x' y' -> x = x' /\ y = y'.
Proof. destruct first; by intros [= -> ->]. Qed.

(** A list of records for a difference. *)
Definition recordsFor (first : bool) (l : list (Z * DeltaRef)) (l1 l2 : list SHAMapItem) : Prop :=
  NoDup l.*1 /\ forall k x y, (k, ref first x y) ∈ l <-> differs l1 l2 k (x, y).

Lemma alone_records first items : distinct items -> recordsFor first (alone first <$> items) items [].
Proof.
  intros H. split; [by rewrite <- list_fmap_compose|]. intros k x y. rewrite list_elem_of_fmap. unfold alone. split.
  - intros (it & [= -> E] & Hit). apply ref_inj in E as [-> ->]. cbn [differs]. split_and!; [done|done|]. by intros b ?%not_elem_of_nil.
  - destruct x as [a|], y as [b|]; cbn [differs].
    + intros (_ & ?%not_elem_of_nil & _). done.
    + intros (Ha & <- & _). by exists a.
    + intros (?%not_elem_of_nil & _). done.
    + done.
Qed.

Lemma alone_keys first items k : k ∈ (alone first <$> items).*1 <-> exists it, it ∈ items /\ tag_ it = k.
Proof. rewrite <- list_fmap_compose, list_elem_of_fmap. unfold compose, alone. simpl. naive_solver. Qed.

Lemma emitsAll_keys first items b k : k ∈ (emitsAll first items (Some b)).*1 -> k = tag_ b \/ exists it, it ∈ items /\ tag_ it = k.
Proof.
  induction items as [|it items IH].
  - unfold emitsAll. simpl. rewrite list_elem_of_singleton. by left.
  - rewrite emitsAll_some. destruct (Z.eqb_spec (tag_ it) (tag_ b)) as [E|E]; cbn [negb].
    + rewrite fmap_app, elem_of_app, alone_keys. case_bool_decide; simpl; rewrite ?list_elem_of_singleton; [intros [?%not_elem_of_nil|?]|intros [->|?]]; [done| |by left|].
      all: right; destruct H0 as (x & Hx & ?) || destruct H as (x & Hx & ?); exists x; (split; [by right|done]).
    + rewrite fmap_cons, elem_of_cons. intros [->|Hk]; [right; exists it; split; [by left|done]|].
      destruct (IH Hk) as [->|(x & Hx & Hk')]; [by left|]. right. exists x. split; [by right|done].
Qed.

Lemma differs_other it items b k x y : tag_ it <> tag_ b -> tag_ it ∉ tag_ <$> items ->
  differs (it :: items) [b] k (x, y) <-> (k = tag_ it /\ x = Some it /\ y = None) \/ differs items [b] k (x, y).
Proof.
  intros Hne Hnew. assert (Hnew' : forall a, a ∈ items -> tag_ a <> tag_ it).
  { intros a Ha E. apply Hnew. rewrite <- E. by apply list_elem_of_fmap_2. }
  destruct x as [a|], y as [c|]; cbn [differs]; rewrite ?list_elem_of_singleton, ?elem_of_cons.
  - split; [intros ([->|Ha] & -> & Ht & Ht' & Hs); [congruence|by right]|]. intros [(_ & _ & ?)|(Ha & Hr)]; [done|]. split; [by right|done].
  - split.
    + intros ([->|Ha] & <- & Hn); [by left|by right].
    + intros [(-> & [= ->] & _)|(Ha & <- & Hn)]; (split_and!; [by auto|done|]); [|done]. intros c ->%list_elem_of_singleton. congruence.
  - split.
    + intros (-> & <- & Hn). right. split_and!; [done|done|]. intros a Ha. apply Hn. by right.
    + intros [(_ & ? & _)|(-> & <- & Hn)]; [done|]. split_and!; [done|done|]. intros a [->|Ha]%elem_of_cons; [done|by apply Hn].
  - split; [done|]. by intros [(_ & ? & _)|?].
Qed.

Lemma differs_match it items b k x y : tag_ it = tag_ b -> tag_ it ∉ tag_ <$> items ->
  differs (it :: items) [b] k (x, y) <-> (slice it <> slice b /\ k = tag_ it /\ x = Some it /\ y = Some b) \/ differs items [] k (x, y).
Proof.
  intros Heq Hnew. assert (Hnew' : forall a, a ∈ items -> tag_ a <> tag_ b).
  { intros a Ha E. apply Hnew. rewrite Heq, <- E. by apply list_elem_of_fmap_2. }
  destruct x as [a|], y as [c|]; cbn [differs]; rewrite ?list_elem_of_singleton, ?elem_of_cons, ?elem_of_nil.
  - split.
    + intros ([->|Ha] & -> & <- & Ht' & Hs); [by left|]. by destruct (Hnew' a).
    + intros [(Hs & -> & [= ->] & [= ->])|(_ & ? & _)]; [|done]. split_and!; [by left|done|done|done|done].
  - split.
    + intros ([->|Ha] & <- & Hn); [destruct (Hn b); [by left|done]|]. right. split_and!; [done|done|]. by intros c ?%not_elem_of_nil.
    + intros [(_ & _ & _ & ?)|(Ha & <- & _)]; [done|]. split_and!; [by right|done|]. intros c ->%list_elem_of_singleton E. by apply (Hnew' a).
  - split; [|by intros [(_ & _ & ? & _)|(? & _)]]. intros (-> & <- & Hn). exfalso. apply (Hn it); [by left|done].
  - split; [done|]. by intros [(_ & _ & ? & _)|?].
Qed.

Lemma emitsAll_records first items b : distinct items -> recordsFor first (emitsAll first items (Some b)) items [b].
Proof.
  induction items as [|it items IH]; intros Hd.
  - unfold emitsAll, recordsFor. simpl. split; [repeat constructor; by intros ?%not_elem_of_nil|]. intros k x y. rewrite list_elem_of_singleton.
    split.
    + intros [= -> E]. apply ref_inj in E as [-> ->]. cbn [differs]. split_and!; [by left|done|by intros a ?%not_elem_of_nil].
    + destruct x as [a|], y as [c|]; cbn [differs]; [by intros (?%not_elem_of_nil & _)|by intros (?%not_elem_of_nil & _)| |done].
      intros (->%list_elem_of_singleton & <- & _). done.
  - unfold distinct in Hd. rewrite fmap_cons in Hd. inversion Hd as [|? ? Hnew Hd']; subst. specialize (IH Hd') as [IHn IHm].
    rewrite emitsAll_some. destruct (Z.eqb_spec (tag_ it) (tag_ b)) as [E|E]; cbn [negb].
    + destruct (alone_records first items Hd') as [An Am]. split.
      * rewrite fmap_app. apply NoDup_app. split_and!; [case_bool_decide; repeat constructor; by intros ?%not_elem_of_nil| |done].
        intros k Hk (x & Hx & <-)%alone_keys. case_bool_decide; [by apply not_elem_of_nil in Hk|]. apply list_elem_of_singleton in Hk.
        simpl in Hk. apply Hnew. rewrite <- Hk. by apply list_elem_of_fmap_2.
      * intros k x y. rewrite elem_of_app, Am, differs_match by done. case_bool_decide; rewrite ?elem_of_nil, ?list_elem_of_singleton; [naive_solver|].
        apply or_iff_compat_r. split; [intros [= -> Er]; apply ref_inj in Er as [-> ->]; done|by intros (_ & -> & -> & ->)].
    + split.
      * rewrite fmap_cons. constructor; [|done]. intros [Hk|(x & Hx & Hk)]%emitsAll_keys; [done|]. apply Hnew. change (tag_ x = tag_ it) in Hk. rewrite <- Hk. by apply list_elem_of_fmap_2.
      * intros k x y. rewrite elem_of_cons, IHm, differs_other by done. apply or_iff_compat_r. unfold alone.
        split; [intros [= -> Er]; apply ref_inj in Er as [-> ->]; done|by intros (-> & -> & ->)].
Qed.

(** ** The loop of [walkBranch] *)

Lemma omap_flatten cs : flat_map flatten (omap id cs) = flatten (Inner cs).
Proof. induction cs as [|[c|] cs IH]; [done| |done]. change (omap id (Some c :: cs)) with (c :: omap id cs). simpl. by rewrite IH. Qed.

Lemma omap_count cs : list_sum (map nodeCount (omap id cs)) = list_sum (map (fun o => match o with Some c => nodeCount c | None => 0%nat end) cs).
Proof. induction cs as [|[c|] cs IH]; [done| |done]. change (omap id (Some c :: cs)) with (c :: omap id cs). simpl. by rewrite IH. Qed.

Lemma walkNodes_emits n stack : (list_sum (map nodeCount stack) <= n)%nat ->
  exists items, items ≡ₚ flat_map flatten stack /\ forall other first d,
    match recordAll (emits first items other).1 d with
    | (true, d') => walkNodes n stack other first d = Ret (true, (emits first items other).2, d')
    | (false, d') => exists o, walkNodes n stack other first d = Ret (false, o, d')
    end.
Proof.
  revert stack. induction n as [|n IH]; intros [|node stack] Hn; try (exists []; split; [done|]; intros [b|] first d; done).
  { simpl in Hn. destruct node; simpl in Hn; lia. }
  destruct node as [ty it|cs].
  - destruct (IH stack) as (items & Hp & Hrun); [simpl in Hn; lia|]. exists (it :: items). split; [simpl; by rewrite Hp|].
    intros other first d. cbn [walkNodes emits]. destruct other as [b|].
    + destruct (tag_ it =? tag_ b); cbn [negb].
      * case_bool_decide; cbn [negb]; [apply Hrun|]. destruct (emits first items None) as [l o] eqn:El. cbn [fst snd recordAll].
        destruct (record _ _ d) as [[] d'] eqn:Er; [|by eexists]. specialize (Hrun None first d'). rewrite El in Hrun. exact Hrun.
      * destruct (emits first items (Some b)) as [l o] eqn:El. cbn [fst snd recordAll]. unfold alone.
        destruct (record _ _ d) as [[] d'] eqn:Er; [|by eexists]. specialize (Hrun (Some b) first d'). rewrite El in Hrun. exact Hrun.
    + destruct (emits first items None) as [l o] eqn:El. cbn [fst snd recordAll]. unfold alone.
      destruct (record _ _ d) as [[] d'] eqn:Er; [|by eexists]. specialize (Hrun None first d'). rewrite El in Hrun. exact Hrun.
  - destruct (IH (rev (omap id cs) ++ stack)) as (items & Hp & Hrun).
    { rewrite map_app, list_sum_app, map_rev. rewrite <- (Permutation_rev (map nodeCount (omap id cs))), omap_count. simpl in Hn. lia. }
    exists items. split; [|exact Hrun]. rewrite Hp, flat_map_app. cbn [flat_map]. f_equiv. rewrite <- omap_flatten.
    by rewrite <- (Permutation_rev (omap id cs)).
Qed.

(** ** Trees against trees *)

Lemma sorted_distinct l : StronglySorted tagBefore l -> distinct l.
Proof.
  unfold distinct. induction 1 as [|x l Hs IH Hf]; [constructor|]. rewrite fmap_cons. constructor; [|done].
  intros (y & Hy & Hin)%list_elem_of_fmap. rewrite Forall_forall in Hf. specialize (Hf y Hin). unfold tagBefore in Hf. lia.
Qed.

Lemma differs_swap l1 l2 k x y : differs l1 l2 k (x, y) <-> differs l2 l1 k (y, x).
Proof. destruct x, y; cbn [differs]; naive_solver. Qed.

Lemma differs_perm l1 l1' l2 k r : (forall it, it ∈ l1 <-> it ∈ l1') -> differs l1 l2 k r <-> differs l1' l2 k r.
Proof. intros H. destruct r as [[a|] [b|]]; cbn [differs]; try setoid_rewrite H; done. Qed.

Lemma records_perm first l l1 l2 : distinct l1 -> distinct l2 -> recordsFor first l l1 l2 ->
  l ≡ₚ if first then diffList l1 l2 else diffList l2 l1.
Proof.
  intros H1 H2 [Hn Hl]. apply NoDup_fmap_1 in Hn. destruct first; apply diffList_perm; try done; intros k [x y].
  - apply (Hl k x y).
  - rewrite differs_swap. apply (Hl k y x).
Qed.

Definition pairDiff (ab : SHAMapTreeNode * SHAMapTreeNode) : list (Z * DeltaRef) := diffList (flatten ab.1) (flatten ab.2).
Definition branchDiff (os : option SHAMapTreeNode * option SHAMapTreeNode) : list (Z * DeltaRef) := diffList (flattenO os.1) (flattenO os.2).

Section Compare.
Context (T : SHAMapNodeType).

Lemma wf_distinct d p t : wf T d p t -> 0 <= d -> distinct (flatten t).
Proof. intros H Hd. by eapply sorted_distinct, wf_sorted. Qed.

Lemma branches_distinct d p cs : branches_ok T d p cs -> 0 <= d -> distinct (flatten (Inner cs)).
Proof.
  intros (Hd & Hlen & Hc) Hd0. apply sorted_distinct. rewrite flatten_inner. apply (flat_map_sorted _ (d + 1) (16 * p)); [lia|].
  intros i [c|] Hi; simpl; [|split; [constructor|by intros ? ?%not_elem_of_nil]].
  split; [apply (wf_sorted _ _ _ _ (Hc i c Hi)); lia|]. intros it Hit. by apply (wf_keys _ _ _ _ it (Hc i c Hi) ltac:(lia)).
Qed.

Lemma walkBranch_ok d p node other first : wf T d p node -> 0 <= d ->
  exists l, (forall dl, walkBranch node other first dl = Ret (recordAll l dl)) /\ recordsFor first l (flatten node) (option_list other).
Proof.
  intros Hwf Hd. destruct (walkNodes_emits (nodeCount node) [node]) as (items & Hp & Hrun); [simpl; lia|].
  simpl in Hp. rewrite app_nil_r in Hp. exists (emitsAll first items other). split.
  - intros dl. unfold walkBranch, emitsAll. specialize (Hrun other first dl). destruct (emits first items other) as [l o]. cbn [fst snd] in Hrun.
    rewrite recordAll_app. destruct (recordAll l dl) as [[] d'].
    + rewrite Hrun, Ret_bind. cbn [negb]. destruct o as [b|]; [|done]. cbn [recordAll]. by destruct (record _ _ d') as [[] d''].
    + destruct Hrun as [o' ->]. by rewrite Ret_bind.
  - assert (Hdist : distinct items) by (unfold distinct; rewrite Hp; by eapply wf_distinct).
    assert (Hrec : recordsFor first (emitsAll first items other) items (option_list other)).
    { destruct other as [b|]; [by apply emitsAll_records|]. rewrite emitsAll_none. by apply alone_records. }
    destruct Hrec as [Hn Hm]. split; [done|]. intros k x y. rewrite Hm. apply differs_perm. intros it. by rewrite Hp.
Qed.

(** The differences of two nodes are those of their branches. *)
Lemma differs_branches d p cs1 cs2 k r : branches_ok T d p cs1 -> branches_ok T d p cs2 -> 0 <= d ->
  differs (flatten (Inner cs1)) (flatten (Inner cs2)) k r <->
  exists i o1 o2, cs1 !! i = Some o1 /\ cs2 !! i = Some o2 /\ differs (flattenO o1) (flattenO o2) k r.
Proof.
  intros Hb1 Hb2 Hd. pose proof (branch_lookup T d p cs1 k Hb1) as L1. pose proof (branch_lookup T d p cs2 k Hb2) as L2.
  set (j := Z.to_nat (digit d k)) in *.
  assert (E1 : forall i o it, cs1 !! i = Some o -> it ∈ flattenO o <-> it ∈ flatten (Inner cs1) /\ Z.to_nat (digit d (tag_ it)) = i) by (intros; by eapply branch_elements).
  assert (E2 : forall i o it, cs2 !! i = Some o -> it ∈ flattenO o <-> it ∈ flatten (Inner cs2) /\ Z.to_nat (digit d (tag_ it)) = i) by (intros; by eapply branch_elements).
  assert (D : differs (flatten (Inner cs1)) (flatten (Inner cs2)) k r <-> differs (flattenO (getChild cs1 j)) (flattenO (getChild cs2 j)) k r).
  { pose proof (fun it => E1 j _ it L1) as F1. pose proof (fun it => E2 j _ it L2) as F2.
    assert (G1 : forall it, tag_ it = k -> it ∈ flattenO (getChild cs1 j) <-> it ∈ flatten (Inner cs1)) by (intros it Ht; rewrite F1, Ht; split; [by intros []|by intros]).
    assert (G2 : forall it, tag_ it = k -> it ∈ flattenO (getChild cs2 j) <-> it ∈ flatten (Inner cs2)) by (intros it Ht; rewrite F2, Ht; split; [by intros []|by intros]).
    clear E1 E2 F1 F2 L1 L2. destruct r as [[a|] [b|]]; cbn [differs]; naive_solver. }
  rewrite D. split; [by eauto 10|]. intros (i & o1 & o2 & Hi1 & Hi2 & Hr).
  assert (i = j) as ->; [|rewrite L1 in Hi1; rewrite L2 in Hi2; by simplify_eq].
  unfold j. destruct r as [[a|] [b|]]; cbn [differs] in Hr; [|..|done]; destruct Hr as (Hin & Hr).
  - apply (E1 i o1 a Hi1) in Hin as [_ <-]. destruct Hr as (_ & <- & _). done.
  - apply (E1 i o1 a Hi1) in Hin as [_ <-]. destruct Hr as (<- & _). done.
  - apply (E2 i o2 b Hi2) in Hin as [_ <-]. destruct Hr as (<- & _). done.
Qed.

Lemma NoDup_flat_map {A B} (f : A -> list B) (g : B -> nat) l (j : nat) :
  (forall i a, l !! i = Some a -> NoDup (f a) /\ forall x, x ∈ f a -> g x = (j + i)%nat) -> NoDup (flat_map f l).
Proof using.
  revert j. induction l as [|a l IH]; intros j Hl; [constructor|]. cbn [flat_map]. destruct (Hl 0%nat a eq_refl) as [Ha Hg]. apply NoDup_app. split_and!; [done| |].
  - intros x Hx Hin. rewrite list_elem_of_In in Hin. apply in_flat_map in Hin as (b & Hb & Hxb). rewrite <- list_elem_of_In in Hb. rewrite <- list_elem_of_In in Hxb.
    apply list_elem_of_lookup in Hb as [i Hi]. destruct (Hl (S i) b Hi) as [_ Hg']. specialize (Hg x Hx). specialize (Hg' x Hxb). lia.
  - apply (IH (S j)). intros i b Hi. destruct (Hl (S i) b Hi) as [? Hg']. split; [done|]. intros x Hx. rewrite (Hg' x Hx). lia.
Qed.

Lemma branch_distinct d p cs i o : branches_ok T d p cs -> 0 <= d -> cs !! i = Some o -> distinct (flattenO o).
Proof. intros (_ & _ & Hc) Hd Hi. destruct o as [c|]; [|constructor]. apply (wf_distinct _ _ _ (Hc i c Hi)). lia. Qed.

Lemma zip_lookup {A B} (l1 : list A) (l2 : list B) i ab : zip l1 l2 !! i = Some ab -> l1 !! i = Some ab.1 /\ l2 !! i = Some ab.2.
Proof using. destruct ab as [a b]. intros (? & ? & [= <- <-] & ? & ?)%lookup_zip_with_Some. done. Qed.

Lemma diffList_branches d p cs1 cs2 : branches_ok T d p cs1 -> branches_ok T d p cs2 -> 0 <= d ->
  flat_map branchDiff (zip cs1 cs2) ≡ₚ diffList (flatten (Inner cs1)) (flatten (Inner cs2)).
Proof.
  intros Hb1 Hb2 Hd. apply diffList_perm; [by eapply branches_distinct|by eapply branches_distinct| |].
  - apply (NoDup_flat_map _ (fun x => Z.to_nat (digit d x.1)) _ 0). intros i [o1 o2] [Hi1 Hi2]%zip_lookup. split; [apply NoDup_map_to_list|].
    intros [k r] Hr. apply diffList_spec in Hr; [|by eapply (branch_distinct d p cs1)|by eapply (branch_distinct d p cs2)]. cbn [fst snd] in *.
    pose proof (fun it => branch_elements T d p cs1 i o1 it Hb1 Hd Hi1) as F1. pose proof (fun it => branch_elements T d p cs2 i o2 it Hb2 Hd Hi2) as F2.
    destruct r as [[a|] [b|]]; cbn [differs] in Hr; [|..|done]; destruct Hr as (Hin & Hr).
    + apply F1 in Hin as [_ <-]. destruct Hr as (_ & <- & _). done.
    + apply F1 in Hin as [_ <-]. destruct Hr as (<- & _). done.
    + apply F2 in Hin as [_ <-]. destruct Hr as (<- & _). done.
  - intros k r. rewrite (differs_branches d p) by done. rewrite list_elem_of_In, in_flat_map. split.
    + intros ([o1 o2] & Ho & Hr). rewrite <- list_elem_of_In in Ho. rewrite <- list_elem_of_In in Hr. apply list_elem_of_lookup in Ho as [i [Hi1 Hi2]%zip_lookup].
      exists i, o1, o2. split_and!; [done|done|]. apply diffList_spec in Hr; [done|by eapply (branch_distinct d p cs1)|by eapply (branch_distinct d p cs2)].
    + intros (i & o1 & o2 & Hi1 & Hi2 & Hr). exists (o1, o2). rewrite <- !list_elem_of_In. split.
      * apply (list_elem_of_lookup_2 _ i). apply lookup_zip_with_Some. by exists o1, o2.
      * apply diffList_spec; [by eapply (branch_distinct d p cs1)|by eapply (branch_distinct d p cs2)|done].
Qed.

Section Walk.
Context (sha : Blob -> Blob).

Definition branchOk (o : option SHAMapTreeNode) : Prop := match o with Some c => exists d p, 0 <= d /\ wf T d p c | None => True end.

Definition countO (o : option SHAMapTreeNode) : nat := match o with Some c => nodeCount c | None => 0%nat end.

Lemma branchOk_distinct o : branchOk o -> distinct (flattenO o).
Proof using. destruct o as [c|]; [|constructor]. intros (d & p & Hd & Hwf). by eapply wf_distinct. Qed.

(** The loop over the branches of two inner nodes. *)
Lemma compareBranches_ok ours others :
  (forall i o1 o2, ours !! i = Some o1 -> others !! i = Some o2 ->
    branchOk o1 /\ branchOk o2 /\ (getChildHash sha o1 = getChildHash sha o2 -> o1 = o2)) ->
  exists l pairs,
    (forall st d, match recordAll l d with
                  | (true, d') => compareBranches sha ours others st d = Ret (true, pairs ++ st, d')
                  | (false, d') => exists st', compareBranches sha ours others st d = Ret (false, st', d')
                  end) /\
    l ++ flat_map pairDiff pairs ≡ₚ flat_map branchDiff (zip ours others) /\
    (forall a b, (a, b) ∈ pairs -> exists i, ours !! i = Some (Some a) /\ others !! i = Some (Some b)) /\
    (list_sum (map (nodeCount ∘ fst) pairs) <= list_sum (map countO ours))%nat.
Proof using.
  revert others. induction ours as [|o1 ours IH]; intros [|o2 others] H;
    try (exists [], []; split_and!; [done|done|by intros a b ?%not_elem_of_nil|simpl; lia]).
  destruct (H 0%nat o1 o2 eq_refl eq_refl) as (Hb1 & Hb2 & Hh). destruct (IH others ltac:(intros i; apply (H (S i)))) as (l & pairs & Hrun & Hp & Hin & Hcount).
  assert (Hin' : forall a b, (a, b) ∈ pairs -> exists i, (o1 :: ours) !! i = Some (Some a) /\ (o2 :: others) !! i = Some (Some b)).
  { intros a b Hab. destruct (Hin a b Hab) as [i Hi]. by exists (S i). }
  cbn [compareBranches zip zip_with flat_map map]. change (zip_with pair ours others) with (zip ours others). case_bool_decide as Eh.
  - pose proof (Hh Eh) as ->. exists l, pairs. split_and!; [exact Hrun| |done|simpl; lia].
    unfold branchDiff at 1. cbn [fst snd]. rewrite diffList_same by (by apply branchOk_distinct). done.
  - destruct o1 as [a|], o2 as [b|]; [| | |done].
    + exists l, (pairs ++ [(a, b)]). split_and!.
      * intros st d. specialize (Hrun ((a, b) :: st) d). destruct (recordAll l d) as [[] d']; [by rewrite <- app_assoc|done].
      * rewrite flat_map_app, app_assoc, Hp. cbn [flat_map]. rewrite app_nil_r. apply Permutation_app_comm.
      * intros x y [Hxy|[= -> ->]%list_elem_of_singleton]%elem_of_app; [by apply Hin'|by exists 0%nat].
      * rewrite map_app, list_sum_app. simpl. lia.
    + destruct Hb1 as (d & p & Hd & Hwf). destruct (walkBranch_ok d p a None true Hwf Hd) as (l' & Hw & Hr).
      apply records_perm in Hr; [|by eapply wf_distinct|constructor]. exists (l' ++ l), pairs. split_and!; [| |done|simpl; lia].
      * intros st dl. rewrite recordAll_app, Hw, Ret_bind. destruct (recordAll l' dl) as [[] d']; [apply Hrun|by eexists].
      * rewrite <- app_assoc, Hp. by rewrite Hr.
    + destruct Hb2 as (d & p & Hd & Hwf). destruct (walkBranch_ok d p b None false Hwf Hd) as (l' & Hw & Hr).
      apply records_perm in Hr; [|by eapply wf_distinct|constructor]. exists (l' ++ l), pairs. split_and!; [| |done|simpl; lia].
      * intros st dl. rewrite recordAll_app, Hw, Ret_bind. destruct (recordAll l' dl) as [[] d']; [apply Hrun|by eexists].
      * rewrite <- app_assoc, Hp. by rewrite Hr.
Qed.

Context (Hlen : forall x, length (sha x) = 32%nat) (Hzero : forall x, sha x <> zeroHash).

(** Two nodes of the same place whose hashes tell them apart. *)
Definition pairOk (ab : SHAMapTreeNode * SHAMapTreeNode) : Prop :=
  (exists d p, 0 <= d /\ wf T d p ab.1 /\ wf T d p ab.2) /\ apart T sha ab.1 ab.2.

(** Equal hashes of two branches. *)
Lemma branch_binds d p cs1 cs2 i o1 o2 : branches_ok T d p cs1 -> branches_ok T d p cs2 ->
  apart T sha (Inner cs1) (Inner cs2) -> cs1 !! i = Some o1 -> cs2 !! i = Some o2 ->
  getChildHash sha o1 = getChildHash sha o2 -> o1 = o2.
Proof using Hlen Hzero.
  intros (_ & _ & Hc1) (_ & _ & Hc2) Hnc H1 H2 E. destruct o1 as [c1|], o2 as [c2|]; simpl in E; [| | |done].
  - f_equal. eapply (hash_binds T sha Hlen Hzero); [by apply (Hc1 i)|by apply (Hc2 i)|by eapply apart_child|done].
  - exfalso. destruct (wf_hash T sha _ _ _ (Hc1 i c1 H1)) as (x & Hx & _). apply (Hzero x). congruence.
  - exfalso. destruct (wf_hash T sha _ _ _ (Hc2 i c2 H2)) as (x & Hx & _). apply (Hzero x). congruence.
Qed.

(** Two inner nodes. *)
Lemma inner_ok d p cs1 cs2 : branches_ok T d p cs1 -> branches_ok T d p cs2 -> 0 <= d ->
  apart T sha (Inner cs1) (Inner cs2) ->
  exists l pairs,
    (forall st dl, match recordAll l dl with
                   | (true, d') => compareBranches sha cs1 cs2 st dl = Ret (true, pairs ++ st, d')
                   | (false, d') => exists st', compareBranches sha cs1 cs2 st dl = Ret (false, st', d')
                   end) /\
    l ++ flat_map pairDiff pairs ≡ₚ diffList (flatten (Inner cs1)) (flatten (Inner cs2)) /\
    Forall pairOk pairs /\ (list_sum (map (nodeCount ∘ fst) pairs) < nodeCount (Inner cs1))%nat.
Proof using Hlen Hzero.
  intros Hb1 Hb2 Hd Hnc. pose proof Hb1 as (_ & _ & Hc1). pose proof Hb2 as (_ & _ & Hc2).
  destruct (compareBranches_ok cs1 cs2) as (l & pairs & Hrun & Hp & Hin & Hcount).
  { intros i o1 o2 H1 H2. split_and!; [| |by apply (branch_binds d p cs1 cs2 i)].
    - destruct o1 as [c|]; [|done]. exists (d + 1), (16 * p + Z.of_nat i). split; [lia|by apply Hc1].
    - destruct o2 as [c|]; [|done]. exists (d + 1), (16 * p + Z.of_nat i). split; [lia|by apply Hc2]. }
  exists l, pairs. split_and!; [done|by rewrite Hp, (diffList_branches d p)| |change (nodeCount (Inner cs1)) with (S (list_sum (map countO cs1))); lia].
  apply Forall_forall. intros [a b] Hab. destruct (Hin a b Hab) as (i & H1 & H2). split; [|by eapply apart_child].
  exists (d + 1), (16 * p + Z.of_nat i). split_and!; [lia|by apply Hc1|by apply Hc2].
Qed.

Lemma compareNodes_ok n st : Forall pairOk st -> (list_sum (map (nodeCount ∘ fst) st) <= n)%nat ->
  exists l, (forall d, compareNodes sha n st d = Ret (recordAll l d)) /\ l ≡ₚ flat_map pairDiff st.
Proof using Hlen Hzero.
  revert st. induction n as [|n IH]; intros [|[a b] st] Hok Hn; try (exists []; split; [done|done]).
  { simpl in Hn. destruct a; simpl in Hn; lia. }
  inversion Hok as [|? ? [(d & p & Hd & Hwa & Hwb) Hnc] Hok']; subst. cbn [fst snd] in *.
  assert (Hcount : (list_sum (map (nodeCount ∘ fst) st) <= n)%nat) by (simpl in Hn; destruct a; simpl in Hn; lia).
  destruct (IH st Hok' Hcount) as (l & Hrun & Hp).
  assert (Hgo : forall l', l' ≡ₚ pairDiff (a, b) -> l' ++ l ≡ₚ flat_map pairDiff ((a, b) :: st)) by (intros l' Hl'; cbn [flat_map]; by rewrite Hl', Hp).
  pose proof (wf_distinct _ _ _ Hwa Hd) as Da. pose proof (wf_distinct _ _ _ Hwb Hd) as Db.
  destruct a as [ty x|cs1], b as [ty' y|cs2]; cbn [compareNodes].
  - exists ((if tag_ x =? tag_ y then if bool_decide (slice x = slice y) then [] else [(tag_ x, (Some x, Some y))]
             else [(tag_ x, (Some x, None)); (tag_ y, (None, Some y))]) ++ l). split.
    + intros dl. rewrite recordAll_app. destruct (tag_ x =? tag_ y); [case_bool_decide; [apply Hrun|]|]; cbn [recordAll].
      * destruct (record _ _ dl) as [[] d']; [apply Hrun|done].
      * destruct (record (tag_ x) _ dl) as [[] d']; [|done]. destruct (record _ _ d') as [[] d'']; [apply Hrun|done].
    + apply Hgo. pose proof (emitsAll_records true [x] y Da) as Hr. apply records_perm in Hr; [|done|done]. unfold pairDiff. cbn [flatten fst snd].
      rewrite <- Hr, emitsAll_some. destruct (tag_ x =? tag_ y); [by case_bool_decide|done].
  - destruct (walkBranch_ok d p (Inner cs2) (Some x) false Hwb Hd) as (l' & Hw & Hr). apply records_perm in Hr; [|done|done].
    exists (l' ++ l). split; [|by apply Hgo]. intros dl. rewrite Hw, Ret_bind, recordAll_app. destruct (recordAll l' dl) as [[] d']; [apply Hrun|done].
  - destruct (walkBranch_ok d p (Inner cs1) (Some y) true Hwa Hd) as (l' & Hw & Hr). apply records_perm in Hr; [|done|done].
    exists (l' ++ l). split; [|by apply Hgo]. intros dl. rewrite Hw, Ret_bind, recordAll_app. destruct (recordAll l' dl) as [[] d']; [apply Hrun|done].
  - destruct (inner_ok d p cs1 cs2) as (l1 & pairs & Hb & Hpd & Hpairs & Hc); [by apply wf_branches|by apply wf_branches|done|done|].
    destruct (IH (pairs ++ st)) as (l2 & Hrun2 & Hp2); [by apply Forall_app| |].
    { rewrite map_app, list_sum_app. change (nodeCount (Inner cs1) + list_sum (map (nodeCount ∘ fst) st) <= S n)%nat in Hn. lia. }
    exists (l1 ++ l2). split.
    + intros dl. rewrite recordAll_app. specialize (Hb st dl). destruct (recordAll l1 dl) as [[] d']; [rewrite Hb, Ret_bind; apply Hrun2|].
      destruct Hb as [st' ->]. by rewrite Ret_bind.
    + rewrite Hp2, flat_map_app, app_assoc, Hpd. done.
Qed.

(** Two maps. *)
Lemma compare_ok t1 t2 maxCount : root_ok T t1 -> root_ok T t2 -> apart T sha t1 t2 -> 0 < maxCount ->
  let D := mapDiff (contents t1) (contents t2) in
  exists l, l ≡ₚ map_to_list D /\ compare sha t1 t2 maxCount = Ret (let '(ok, d) := recordAll l (∅, maxCount) in (ok, d.1)).
Proof using Hlen Hzero.
  intros H1 H2 Hnc Hmax D. unfold compare. case_bool_decide as E.
  - assert (t1 = t2) as -> by (by eapply (root_hash_unique T)). exists []. split; [|done].
    change (map_to_list D) with (diffList (flatten t2) (flatten t2)). rewrite diffList_same; [done|]. by eapply sorted_distinct, root_sorted.
  - destruct H1 as (cs1 & -> & Hb1), H2 as (cs2 & -> & Hb2). destruct (inner_ok 0 0 cs1 cs2) as (l1 & pairs & Hb & Hpd & Hpairs & Hc); [done|done|lia|done|].
    destruct (compareNodes_ok (list_sum (map countO cs1)) pairs) as (l2 & Hrun & Hp); [done|change (nodeCount (Inner cs1)) with (S (list_sum (map countO cs1))) in Hc; lia|].
    exists (l1 ++ l2). split; [by rewrite Hp|]. rewrite recordAll_app. change (nodeCount (Inner cs1)) with (S (list_sum (map countO cs1))). cbn [compareNodes].
    specialize (Hb [] (∅, maxCount)). destruct (recordAll l1 (∅, maxCount)) as [[] d'].
    + rewrite Hb, Ret_bind, app_nil_r, Hrun, Ret_bind. by destruct (recordAll l2 d') as [? ?].
    + destruct Hb as [st' ->]. by rewrite Ret_bind.
Qed.

End Walk.

End Compare.

(** ** A map built by operations *)

Fixpoint runOps (sha : Blob -> Blob) (T : SHAMapNodeType) (ops : list Op) (t : SHAMapTreeNode) : outcome (list bool * SHAMapTreeNode) :=
  match ops with
  | [] => Ret ([], t)
  | op :: ops => runOp T sha op t ≫= fun '(b, t) => runOps sha T ops t ≫= fun '(bs, t) => Ret (b :: bs, t)
  end.

Fixpoint mapOps (ops : list Op) (m : gmap Z SHAMapItem) : list bool * gmap Z SHAMapItem :=
  match ops with
  | [] => ([], m)
  | op :: ops => let '(b, m) := mapOp op m in let '(bs, m) := mapOps ops m in (b :: bs, m)
  end.

(** The items of a map that operations built were put in by them. *)
Lemma mapOps_items ops m k it : (mapOps ops m).2 !! k = Some it -> it ∈ omap opItem ops \/ m !! k = Some it.
Proof.
  revert m. induction ops as [|op ops IH]; intros m; cbn [mapOps omap list_omap]; [by right|].
  destruct (mapOp op m) as [b m'] eqn:E. specialize (IH m'). destruct (mapOps ops m') as [bs m2]. cbn [snd] in IH |- *.
  intros Hk. destruct (IH Hk) as [Hin|Hin]; [left; destruct (opItem op); [by right|done]|].
  destruct op as [x|id|x]; cbn in E |- *.
  - destruct (m !! tag_ x) eqn:Ex; injection E as <- <-; [by right|].
    apply lookup_insert_Some in Hin as [[_ <-]|[_ Hin]]; [left; by left|by right].
  - destruct (m !! id) eqn:Ex; injection E as <- <-; [|by right]. apply lookup_delete_Some in Hin as [_ Hin]. by right.
  - destruct (m !! tag_ x) eqn:Ex; injection E as <- <-; [|by right].
    apply lookup_insert_Some in Hin as [[_ <-]|[_ Hin]]; [left; by left|by right].
Qed.

(** Transactions are filed under their identifiers. *)
Definition named_by_digest (sha : Blob -> Blob) (it : SHAMapItem) : Prop :=
  tag_ it = fromBytes (sha (bigEndian 4 hpTransactionID ++ slice it)).

(** The items of the operations have keys of 256 bits, and no two of their leaves
    have the same hash. *)
Definition usable (sha : Blob -> Blob) (T : SHAMapNodeType) (ops : list Op) : Prop :=
  Forall (fun it => key_ok (tag_ it)) (omap opItem ops) /\ noCollisions sha (leafBytes T <$> omap opItem ops).

Lemma runOps_ok sha T ops items t :
  root_ok T t -> (forall it, it ∈ omap opItem ops -> key_ok (tag_ it) /\ it ∈ items) -> (forall it, it ∈ flatten t -> it ∈ items) ->
  noCollisions sha (leafBytes T <$> items) ->
  exists t', runOps sha T ops t = Ret ((mapOps ops (contents t)).1, t') /\ root_ok T t' /\ contents t' = (mapOps ops (contents t)).2.
Proof.
  revert t. induction ops as [|op ops IH]; intros t Hr Hops Hsub Hnc; [by exists t|]. cbn [runOps mapOps].
  destruct (runOp_ok T sha op t items) as (t' & -> & Hr' & Hc & Hsub'); [done| |done|done|].
  { destruct (opItem op) as [it|] eqn:E; [|done]. apply Hops. apply list_elem_of_omap. exists op. split; [by left|done]. }
  rewrite Ret_bind. destruct (mapOp op (contents t)) as [b m]. cbn [fst snd] in *.
  destruct (IH t') as (t2 & -> & Hr2 & Hc2); [done| |done|done|].
  { intros it Hit. apply Hops. apply list_elem_of_omap in Hit as (op' & Hin & E). apply list_elem_of_omap. exists op'. split; [by right|done]. }
  rewrite Ret_bind. rewrite Hc in Hc2 |- *. destruct (mapOps ops m) as [bs m2]. by exists t2.
Qed.

Lemma built_ok sha T ops : usable sha T ops ->
  exists t, runOps sha T ops newInner = Ret ((mapOps ops ∅).1, t) /\ root_ok T t /\ contents t = (mapOps ops ∅).2.
Proof.
  intros [Hk Hnc]. rewrite Forall_forall in Hk. destruct (runOps_ok sha T ops (omap opItem ops) newInner) as (t & E & Hr & Hc);
    [apply newInner_ok|intros it Hit; split; [by apply Hk|done]|by intros it ?%not_elem_of_nil|done|]. by exists t.
Qed.

Lemma built_root sha T ops bs t : usable sha T ops -> runOps sha T ops newInner = Ret (bs, t) -> root_ok T t /\ contents t = (mapOps ops ∅).2.
Proof. intros Hu E. destruct (built_ok sha T ops Hu) as (t' & E' & Hr & Hc). rewrite E in E'. injection E' as -> ->. done. Qed.

Lemma built_apart sha T ops1 ops2 bs1 bs2 t1 t2 :
  usable sha T ops1 -> usable sha T ops2 ->
  runOps sha T ops1 newInner = Ret (bs1, t1) -> runOps sha T ops2 newInner = Ret (bs2, t2) ->
  (T = tnTRANSACTION_NM -> Forall (named_by_digest sha) (omap opItem (ops1 ++ ops2))) ->
  noCollisions sha (preimages sha t1 ++ preimages sha t2) -> apart T sha t1 t2.
Proof.
  intros Hu1 Hu2 E1 E2 Hnamed Hnc. split; [done|]. intros HT.
  specialize (Hnamed HT). rewrite Forall_forall in Hnamed.
  assert (forall ops bs t, usable sha T ops -> runOps sha T ops newInner = Ret (bs, t) -> forall it, it ∈ flatten t -> it ∈ omap opItem ops) as Hfrom.
  { intros ops bs t Hu E it Hit. destruct (built_root _ _ _ _ _ Hu E) as [R Hc].
    destruct (mapOps_items ops ∅ (tag_ it) it) as [|Hn]; [rewrite <- Hc; by apply (contents_lookup T)|done|by rewrite lookup_empty in Hn]. }
  assert (forall it, it ∈ flatten t1 ++ flatten t2 -> named_by_digest sha it) as Hall.
  { intros it Hit. apply Hnamed. rewrite omap_app. apply elem_of_app. apply elem_of_app in Hit as [Hit|Hit]; eauto. }
  intros a b Ha%Hall Hb%Hall Es. rewrite Ha, Hb. by rewrite Es.
Qed.

Lemma find_contents T t k : root_ok T t -> findKey k t = Ret (pair T <$> contents t !! k).
Proof.
  intros Hr. destruct (root_find T t k Hr) as (o & -> & Ho). f_equal. apply option_eq. intros [ty it]. rewrite Ho, fmap_Some.
  setoid_rewrite (contents_lookup T t k); [|done]. naive_solver.
Qed.

(** C7: The tree is a finite map: a sequence of [addGiveItem], [delItem] and
    [updateGiveItem] on an empty map never throws, each operation returns what the
    operation of a finite map says (an item is not added twice, nor deleted or
    updated when it is not there), and afterwards [findKey] finds exactly the items
    of the finite map.  The keys have 256 bits, and no two of the leaves have the
    same hash ([updateGiveItem] compares hashes). *)
Theorem shamap_refines_map sha T ops : usable sha T ops ->
  exists t, runOps sha T ops newInner = Ret ((mapOps ops ∅).1, t) /\
    forall k, findKey k t = Ret (pair T <$> (mapOps ops ∅).2 !! k) /\ hasItem k t = Ret (bool_decide (is_Some ((mapOps ops ∅).2 !! k))).
Proof.
  intros Hu. destruct (built_ok sha T ops Hu) as (t & E & Hr & <-). exists t. split; [done|]. intros k.
  pose proof (find_contents T t k Hr) as Hf. split; [done|]. unfold hasItem. rewrite Hf, Ret_bind. by destruct (contents t !! k).
Qed.

(** C8: The hash of a map depends on its items only, and on all of them: two maps
    built by any two sequences of operations have the same root hash if and only if
    they hold the same items.  The hash function gives 32 bytes, never all zero, and
    has no collisions among the strings that are hashed for the two trees; the type
    of the leaves is one whose hash includes the key. *)
Theorem root_hash_binds_items sha T ops1 ops2 bs1 bs2 t1 t2 :
  (forall x, length (sha x) = 32%nat) -> (forall x, sha x <> zeroHash) -> T <> tnTRANSACTION_NM ->
  usable sha T ops1 -> usable sha T ops2 ->
  runOps sha T ops1 newInner = Ret (bs1, t1) -> runOps sha T ops2 newInner = Ret (bs2, t2) ->
  noCollisions sha (preimages sha t1 ++ preimages sha t2) ->
  getHash sha t1 = getHash sha t2 <-> (mapOps ops1 ∅).2 = (mapOps ops2 ∅).2.
Proof.
  intros Hlen Hzero HT Hu1 Hu2 E1 E2 Hnc.
  assert (apart T sha t1 t2) as Hap by (eapply built_apart; [exact Hu1|exact Hu2|done..]). destruct (built_root _ _ _ _ _ Hu1 E1) as [R1 <-]. destruct (built_root _ _ _ _ _ Hu2 E2) as [R2 <-].
  split; [intros Eh; f_equal; eapply (root_hash_unique T); done|]. intros Ec. by rewrite (contents_unique T t1 t2).
Qed.

(** C23: The iterators give the items in the order of their keys: from the first
    item ([peekFirstItem], [peekNextItem]) all of them, and from [upper_bound] of a
    key those with a greater key; neither throws, and the end is reached after as
    many steps as there are items. *)
Theorem iterators_in_order sha T ops bs t k : usable sha T ops -> runOps sha T ops newInner = Ret (bs, t) -> key_ok k ->
  exists all leaf1 stack1 leaf2 stack2,
    StronglySorted tagBefore all /\ (forall it, it ∈ all <-> (mapOps ops ∅).2 !! tag_ it = Some it) /\
    peekFirstItem t = Ret (leaf1, stack1) /\ iterate (size (mapOps ops ∅).2) leaf1 stack1 = Ret all /\
    upper_bound k t = Ret (leaf2, stack2) /\ iterate (size (mapOps ops ∅).2) leaf2 stack2 = Ret (filter (fun it => k < tag_ it) all).
Proof.
  intros Hu E Hk. destruct (built_root _ _ _ _ _ Hu E) as [R <-].
  destruct (positioned_ret _ _ _ (peekFirst_ok T t R)) as (leaf1 & stack1 & E1). destruct (positioned_ret _ _ _ (upper_bound_ok T t k R Hk)) as (leaf2 & stack2 & E2).
  exists (flatten t), leaf1, stack1, leaf2, stack2. split_and!; [by eapply root_sorted| |done| |done|].
  - intros it. rewrite (contents_lookup T t) by done. naive_solver.
  - apply (iterate_ok T _ _ _ _ _ E1 (peekFirst_ok T t R)). by rewrite (contents_size T).
  - apply (iterate_ok T _ _ _ _ _ E2 (upper_bound_ok T t k R Hk)). rewrite (contents_size T) by done. apply length_filter.
Qed.

(** C13: [compare] finds the differences of two maps of the same type, ledger
    entries or transactions with or without metadata.  For a positive [maxCount]:
    when there are fewer differences it returns true with all of them (the keys of
    one map only, and those of both with different items), otherwise false with
    exactly [maxCount] of them; it never throws.  The maps are built by any
    sequences of operations on keys of 256 bits; the hash function gives 32 bytes,
    never all zero, and has no collisions among the strings hashed for the two
    trees and for the items put in; a transaction without metadata is filed under
    its identifier, the digest of its bytes. *)
Theorem compare_finds_differences sha T ops1 ops2 bs1 bs2 t1 t2 maxCount :
  (forall x, length (sha x) = 32%nat) -> (forall x, sha x <> zeroHash) ->
  (T = tnTRANSACTION_NM -> Forall (named_by_digest sha) (omap opItem (ops1 ++ ops2))) ->
  usable sha T ops1 -> usable sha T ops2 ->
  runOps sha T ops1 newInner = Ret (bs1, t1) -> runOps sha T ops2 newInner = Ret (bs2, t2) ->
  noCollisions sha (preimages sha t1 ++ preimages sha t2) -> 0 < maxCount ->
  let D := mapDiff (mapOps ops1 ∅).2 (mapOps ops2 ∅).2 in
  (Z.of_nat (size D) < maxCount -> compare sha t1 t2 maxCount = Ret (true, D)) /\
  (maxCount <= Z.of_nat (size D) -> exists D', compare sha t1 t2 maxCount = Ret (false, D') /\ D' ⊆ D /\ Z.of_nat (size D') = maxCount).
Proof.
  intros Hlen Hzero Hnamed Hu1 Hu2 E1 E2 Hnc Hmax. pose proof (built_apart _ _ _ _ _ _ _ _ Hu1 Hu2 E1 E2 Hnamed Hnc) as Hap.
  destruct (built_root _ _ _ _ _ Hu1 E1) as [R1 <-]. destruct (built_root _ _ _ _ _ Hu2 E2) as [R2 <-].
  intros D. destruct (compare_ok T sha Hlen Hzero t1 t2 maxCount R1 R2 Hap Hmax) as (l & Hl & ->). fold D in Hl.
  destruct (recorded_all l D maxCount Hl Hmax) as [Hall Hsome]. split.
  - intros Hs. by destruct (Hall Hs) as [c' ->].
  - intros Hs. destruct (Hsome Hs) as (D' & c' & -> & Hsub & Hsize). by exists D'.
Qed.

(** ** Sample maps *)

Module SampleTree.

(** A hash of 32 bytes with no collisions among the strings below. *)
Definition sampleSha (x : Blob) : Blob := 1 :: bigEndian 31 (Z.shiftl (fold_left (fun h b => (h * 257 + b + 1) mod 18446744073709551557) x 7) 184).

Definition pairUp (l : list Blob) : list (Blob * Blob) := map (fun x => (sampleSha x, x)) l.
Definition collisionFree (p : list (Blob * Blob)) : bool := forallb (fun a => forallb (fun b => implb (bool_decide (a.1 = b.1)) (bool_decide (a.2 = b.2))) p) p.

Lemma collisionFree_ok l : collisionFree (pairUp l) = true -> noCollisions sampleSha l.
Proof.
  intros H x y Hx Hy E. unfold collisionFree in H. rewrite forallb_forall in H.
  assert (Hin : forall z, z ∈ l -> In (sampleSha z, z) (pairUp l)) by (intros z Hz; apply in_map_iff; exists z; by rewrite <- list_elem_of_In).
  specialize (H _ (Hin x Hx)). rewrite forallb_forall in H. specialize (H _ (Hin y Hy)). cbn [fst snd] in H.
  rewrite (bool_decide_eq_true_2 _ E) in H. by apply bool_decide_eq_true_1 in H.
Qed.

Lemma sampleSha_length x : length (sampleSha x) = 32%nat.
Proof. unfold sampleSha. by rewrite length_cons, length_bigEndian. Qed.

Lemma sampleSha_zero x : sampleSha x <> zeroHash.
Proof. by unfold sampleSha, zeroHash. Qed.

(** Two keys that share their first digit and one that does not. *)
Definition key1 : Z := Z.shiftl 1 252.
Definition key2 : Z := Z.shiftl 17 248.
Definition key3 : Z := Z.shiftl 2 252.

Definition ops1 : list Op := [AddItem (mkItem key1 [1]); AddItem (mkItem key2 [2]); AddItem (mkItem key1 [3]); AddItem (mkItem key3 [4]); UpdateItem (mkItem key2 [5])].
Definition ops2 : list Op := [AddItem (mkItem key3 [4]); DelItem key2; AddItem (mkItem key2 [6]); UpdateItem (mkItem key1 [7])].

Definition tree (ops : list Op) : SHAMapTreeNode := match runOps sampleSha tnACCOUNT_STATE ops newInner with Ret (_, t) => t | Throw _ => newInner end.

Lemma usable_ops T ops : forallb (fun it => (0 <=? tag_ it) && (tag_ it <? 2 ^ 256)) (omap opItem ops) = true ->
  collisionFree (pairUp (leafBytes T <$> omap opItem ops)) = true -> usable sampleSha T ops.
Proof.
  intros Hk Hc. split; [|by apply collisionFree_ok]. apply Forall_forall. intros it Hit. rewrite forallb_forall in Hk. rewrite list_elem_of_In in Hit.
  specialize (Hk it Hit). apply andb_true_iff in Hk as [? ?]. unfold key_ok. lia.
Qed.

Lemma usable1 : usable sampleSha tnACCOUNT_STATE ops1.
Proof. apply usable_ops; vm_compute; reflexivity. Qed.

Lemma usable2 : usable sampleSha tnACCOUNT_STATE ops2.
Proof. apply usable_ops; vm_compute; reflexivity. Qed.

Lemma built1 : runOps sampleSha tnACCOUNT_STATE ops1 newInner = Ret ([true; true; false; true; true], tree ops1).
Proof. vm_compute. reflexivity. Qed.

Lemma built2 : runOps sampleSha tnACCOUNT_STATE ops2 newInner = Ret ([true; false; true; false], tree ops2).
Proof. vm_compute. reflexivity. Qed.

Lemma noCollisions12 : noCollisions sampleSha (preimages sampleSha (tree ops1) ++ preimages sampleSha (tree ops2)).
Proof. apply collisionFree_ok. vm_compute. reflexivity. Qed.

(** Two sets of transactions, filed under their identifiers. *)
Definition txItem (data : Blob) : SHAMapItem := mkItem (fromBytes (sampleSha (bigEndian 4 hpTransactionID ++ data))) data.

Lemma txItem_named data : named_by_digest sampleSha (txItem data).
Proof. done. Qed.

Definition txOps1 : list Op := [AddItem (txItem [1; 2]); AddItem (txItem [3])].
Definition txOps2 : list Op := [AddItem (txItem [3]); AddItem (txItem [4; 5])].

Definition txSet (ops : list Op) : SHAMapTreeNode := match runOps sampleSha tnTRANSACTION_NM ops newInner with Ret (_, t) => t | Throw _ => newInner end.

Lemma txBuilt1 : runOps sampleSha tnTRANSACTION_NM txOps1 newInner = Ret ([true; true], txSet txOps1).
Proof. vm_compute. reflexivity. Qed.

Lemma txBuilt2 : runOps sampleSha tnTRANSACTION_NM txOps2 newInner = Ret ([true; true], txSet txOps2).
Proof. vm_compute. reflexivity. Qed.

End SampleTree.
Import SampleTree.

Lemma shamap_refines_map_witness : exists t, runOps sampleSha tnACCOUNT_STATE ops1 newInner = Ret ([true; true; false; true; true], t) /\
  findKey key1 t = Ret (Some (tnACCOUNT_STATE, mkItem key1 [1])) /\ findKey key2 t = Ret (Some (tnACCOUNT_STATE, mkItem key2 [5])) /\ findKey 5 t = Ret None.
Proof.
  destruct (shamap_refines_map sampleSha tnACCOUNT_STATE ops1 usable1) as (t & E & Hf). exists t. split; [exact E|].
  split; [exact (proj1 (Hf key1))|]. split; [exact (proj1 (Hf key2))|exact (proj1 (Hf 5))].
Defined.

Lemma root_hash_binds_items_witness : getHash sampleSha (tree ops1) <> getHash sampleSha (tree ops2).
Proof.
  intros E. apply (root_hash_binds_items sampleSha tnACCOUNT_STATE ops1 ops2 _ _ _ _ sampleSha_length sampleSha_zero ltac:(discriminate) usable1 usable2 built1 built2 noCollisions12) in E.
  apply (f_equal (fun m : gmap Z SHAMapItem => m !! key1)) in E. vm_compute in E. discriminate E.
Defined.

Lemma iterators_in_order_witness : exists leaf stack, upper_bound key1 (tree ops1) = Ret (leaf, stack) /\ iterate 3 leaf stack = Ret [mkItem key2 [5]; mkItem key3 [4]].
Proof.
  destruct (iterators_in_order sampleSha tnACCOUNT_STATE ops1 _ _ key1 usable1 built1 ltac:(split; vm_compute; [discriminate|reflexivity]))
    as (all & leaf1 & stack1 & leaf & stack & Hs & Hin & E1 & I1 & E2 & I2). exists leaf, stack. split; [exact E2|].
  apply (f_equal (fun r => r ≫= fun '(l, s) => iterate 3 l s)) in E1. rewrite Ret_bind in E1.
  assert (Hs3 : size (mapOps ops1 ∅).2 = 3%nat) by (vm_compute; reflexivity). rewrite Hs3 in I1, I2. rewrite I1 in E1. rewrite I2.
  assert (Ea : (peekFirstItem (tree ops1) ≫= fun '(l, s) => iterate 3 l s) = Ret [mkItem key1 [1]; mkItem key2 [5]; mkItem key3 [4]]) by (vm_compute; reflexivity).
  assert (Hall : Ret all = Ret [mkItem key1 [1]; mkItem key2 [5]; mkItem key3 [4]]) by exact (eq_trans (eq_sym E1) Ea).
  clear -Hall. apply (f_equal (fun r => match r with Ret l => Ret (filter (fun it => key1 < tag_ it) l) | Throw e => Throw e end)) in Hall.
  etransitivity; [exact Hall|]. vm_compute. reflexivity.
Defined.

Lemma compare_finds_differences_witness :
  compare sampleSha (tree ops1) (tree ops2) 3 = Ret (true, {[ key1 := (Some (mkItem key1 [1]), None); key2 := (Some (mkItem key2 [5]), Some (mkItem key2 [6])) ]}) /\
  compare sampleSha (txSet txOps1) (txSet txOps2) 3 = Ret (true, mapDiff (mapOps txOps1 ∅).2 (mapOps txOps2 ∅).2).
Proof.
  split.
  - destruct (compare_finds_differences sampleSha tnACCOUNT_STATE ops1 ops2 _ _ _ _ 3 sampleSha_length sampleSha_zero ltac:(discriminate)
      usable1 usable2 built1 built2 noCollisions12 ltac:(lia)) as [Hall _].
    rewrite Hall; vm_compute; reflexivity.
  - apply (compare_finds_differences sampleSha tnTRANSACTION_NM txOps1 txOps2 [true; true] [true; true] _ _ 3 sampleSha_length sampleSha_zero); [..|lia|].
    + intros _. cbn [omap list_omap opItem txOps1 txOps2 app]. repeat (apply Forall_cons; split; [apply txItem_named|]). by apply Forall_nil.
    + apply usable_ops; vm_compute; reflexivity.
    + apply usable_ops; vm_compute; reflexivity.
    + apply txBuilt1.
    + apply txBuilt2.
    + apply collisionFree_ok. vm_compute. reflexivity.
    + vm_compute. reflexivity.
Defined.
