(* ===== verification/SHAMapProofs.v ===== *)
(** * Nodes on the wire and proofs of leaves

    The nodes of a tree come back from what is sent and stored, a proof path of a
    leaf is accepted, and an accepted path shows a leaf of the tree. *)

From stdpp Require Import strings sorting.
From S2P Require Import Prelude Outcome Serializer SerializerFacts STAccess SHAMap SHAMapFacts SHAMapProperties.

Section Wire.
Context (sha : Blob -> Blob).

(** A node that can be sent. *)
Definition wire_ok (w : WireNode) : Prop :=
  match w with
  | WireLeaf ty it =>
      match ty with
      | tnTRANSACTION_NM => tag_ it = fromBytes (sha (bigEndian 4 hpTransactionID ++ slice it))
      | tnTRANSACTION_MD => key_ok (tag_ it)
      | tnACCOUNT_STATE => key_ok (tag_ it) /\ tag_ it <> 0
      end
  | WireInner hashes isBranch => length hashes = 16%nat /\ Forall (fun h => length h = 32%nat) hashes /\ isBranch = map isNonZero hashes
  end.

(** ** Inner nodes *)

Lemma readChunks_step fuel hash (i : nat) rest H B : length hash = 32%nat -> (i < 16)%nat ->
  readChunks (S fuel) (hash ++ [Z.of_nat i] ++ rest) H B = readChunks fuel rest (<[i := hash]> H) (if isNonZero hash then <[i := true]> B else B).
Proof using.
  intros Hl Hi. assert (Hne : exists z l, hash ++ [Z.of_nat i] ++ rest = z :: l) by (destruct hash; [done|by eexists _, _]).
  assert (E1 : take 32 (hash ++ [Z.of_nat i] ++ rest) = hash) by (by rewrite take_app_length').
  assert (E2 : nth 32 (hash ++ [Z.of_nat i] ++ rest) 0 = Z.of_nat i) by (rewrite app_nth2 by lia; by rewrite Hl).
  assert (E3 : drop 33 (hash ++ [Z.of_nat i] ++ rest) = rest) by (rewrite app_assoc; apply drop_app_length'; rewrite length_app, Hl; done).
  destruct Hne as (z & l & E). rewrite E in *. cbn [readChunks]. rewrite E1, E2, E3, Nat2Z.id. unfold branchFactor.
  by rewrite (proj2 (Nat.leb_gt 16 i) Hi).
Qed.

Lemma readChunks_compressed fuel hs H B : (length H + length hs = 16)%nat -> length B = length H -> (length hs <= fuel)%nat -> Forall (fun h => length h = 32%nat) hs ->
  readChunks fuel (compressedBytes (length H) hs (map isNonZero hs)) (H ++ replicate (length hs) zeroHash) (B ++ replicate (length hs) false) =
    Ret (WireInner (H ++ hs) (B ++ map isNonZero hs)).
Proof using.
  revert fuel H B. induction hs as [|h hs IH]; intros fuel H B Hl HB Hf Hall; [by destruct fuel|]. inversion Hall as [|? ? Hh Hall']; subst.
  cbn [length] in Hl, Hf. cbn [map compressedBytes length replicate]. destruct fuel as [|fuel]; [lia|].
  assert (EH : forall x l, H ++ x :: l = (H ++ [x]) ++ l) by (intros x l; by rewrite <- app_assoc).
  assert (EB : forall x l, B ++ x :: l = (B ++ [x]) ++ l) by (intros x l; by rewrite <- app_assoc).
  assert (Hnext : forall f h' b', (length hs <= f)%nat -> readChunks f (compressedBytes (S (length H)) hs (map isNonZero hs)) ((H ++ [h']) ++ replicate (length hs) zeroHash)
    ((B ++ [b']) ++ replicate (length hs) false) = Ret (WireInner ((H ++ [h']) ++ hs) ((B ++ [b']) ++ map isNonZero hs))).
  { intros f h' b' Hf'. replace (S (length H)) with (length (H ++ [h'])) by (rewrite length_app; simpl; lia).
    apply IH; [rewrite length_app; simpl; lia|rewrite !length_app, HB; done|done|done]. }
  destruct (isNonZero h) eqn:Ez.
  - rewrite <- app_assoc. rewrite readChunks_step by (done || lia). rewrite Ez.
    rewrite insert_app_r_alt by done. rewrite insert_app_r_alt by lia. rewrite HB, Nat.sub_diag. cbn [insert list_insert].
    rewrite (EH h (replicate _ _)), (EB true (replicate _ _)), (EH h hs), (EB true (map _ _)). apply Hnext. lia.
  - unfold isNonZero in Ez. apply negb_false_iff, bool_decide_eq_true_1 in Ez. subst h. cbn [app].
    rewrite (EH zeroHash (replicate _ _)), (EB false (replicate _ _)), (EH zeroHash hs), (EB false (map _ _)). apply Hnext. lia.
Qed.

Lemma compressed_length i hs bs : length hs = length bs -> Forall (fun h => length h = 32%nat) hs ->
  length (compressedBytes i hs bs) = (33 * length (List.filter id bs))%nat.
Proof using.
  revert i bs. induction hs as [|h hs IH]; intros i [|b bs] Hl Hall; [done|done|done|]. inversion Hall as [|? ? Hh Hall']; subst.
  cbn [compressedBytes]. rewrite length_app, IH by (simpl in Hl; done || lia). destruct b; simpl; [rewrite length_app, Hh; simpl; lia|lia].
Qed.

Lemma filter_length_le (bs : list bool) : (length (List.filter id bs) <= length bs)%nat.
Proof using. induction bs as [|[] bs IH]; simpl; lia. Qed.

Lemma fullInner_chunks n hs : Forall (fun h : Blob => length h = n) hs -> map (fun i => take n (drop (n * i) (concat hs))) (seq 0 (length hs)) = hs.
Proof using.
  induction 1 as [|h hs Hh Hall IH]; [done|]. cbn [length seq map concat]. rewrite Nat.mul_0_r, drop_0, take_app_length' by done. f_equal.
  rewrite <- seq_shift, map_map. rewrite <- IH at 2. apply map_ext. intros i. f_equal. replace (n * S i)%nat with (n + n * i)%nat by lia.
  rewrite <- drop_drop, drop_app_length' by done. done.
Qed.

Lemma concat_length n hs : Forall (fun h : Blob => length h = n) hs -> length (concat hs) = (n * length hs)%nat.
Proof using. induction 1 as [|h hs Hh Hall IH]; [simpl; lia|]. cbn [concat length]. rewrite length_app, IH, Hh. lia. Qed.

Lemma fullInner_ok hs : length hs = 16%nat -> Forall (fun h => length h = 32%nat) hs -> makeFullInner (concat hs) = Ret (WireInner hs (map isNonZero hs)).
Proof using.
  intros Hl Hall. unfold makeFullInner. rewrite (concat_length 32) by done. rewrite Hl. change (32 * 16 =? 512)%nat with true. cbn [negb]. unfold branchFactor.
  pose proof (fullInner_chunks 32 hs Hall) as E. rewrite Hl in E. by rewrite E.
Qed.

Lemma compressedInner_ok hs : length hs = 16%nat -> Forall (fun h => length h = 32%nat) hs ->
  makeCompressedInner (compressedBytes 0 hs (map isNonZero hs)) = Ret (WireInner hs (map isNonZero hs)).
Proof using.
  intros Hl Hall. unfold makeCompressedInner. rewrite compressed_length by (by rewrite ?length_map).
  rewrite Nat.mul_comm, Nat.Div0.mod_mul. cbn [Nat.eqb negb orb]. pose proof (filter_length_le (map isNonZero hs)) as Hf. rewrite length_map, Hl in Hf.
  rewrite (proj2 (Nat.ltb_ge _ _)) by (unfold branchFactor; lia). pose proof (readChunks_compressed branchFactor hs [] []) as E. cbn [app length] in E.
  rewrite Hl in E. apply E; [done|done|unfold branchFactor; lia|done].
Qed.

(** ** Leaves *)

Lemma tail_key data k : key_ok k -> let d := data ++ bigEndian 32 k in
  (length d <? 32)%nat = false /\ fromBytes (drop (length d - 32) d) = k /\ take (length d - 32) d = data.
Proof using.
  intros Hk d. unfold d. rewrite length_app, length_bigEndian. replace (length data + 32 - 32)%nat with (length data) by lia.
  rewrite drop_app_length, take_app_length. split_and!; [apply Nat.ltb_ge; lia| |done]. rewrite fromBytes_bigEndian. by apply Z.mod_small.
Qed.

Lemma accountState_ok it : key_ok (tag_ it) -> tag_ it <> 0 -> makeAccountState (slice it ++ bigEndian 32 (tag_ it)) = Ret (WireLeaf tnACCOUNT_STATE it).
Proof using.
  intros Hk Hz. unfold makeAccountState. destruct (tail_key (slice it) (tag_ it) Hk) as (E1 & E2 & E3). rewrite E1, E2, E3.
  rewrite (proj2 (Z.eqb_neq _ _) Hz). by destruct it.
Qed.

Lemma withMeta_ok it : key_ok (tag_ it) -> makeTransactionWithMeta (slice it ++ bigEndian 32 (tag_ it)) = Ret (WireLeaf tnTRANSACTION_MD it).
Proof using.
  intros Hk. unfold makeTransactionWithMeta. destruct (tail_key (slice it) (tag_ it) Hk) as (E1 & E2 & E3). rewrite E1, E2, E3. by destruct it.
Qed.

Lemma transaction_ok it : tag_ it = fromBytes (sha (bigEndian 4 hpTransactionID ++ slice it)) -> makeTransaction sha (slice it) = Ret (WireLeaf tnTRANSACTION_NM it).
Proof using. intros Ht. unfold makeTransaction. rewrite <- Ht. by destruct it. Qed.

Lemma makeFromWire_snoc data ty : makeFromWire sha (data ++ [ty]) =
  (if ty =? wireTypeTransaction then makeTransaction sha data
   else if ty =? wireTypeAccountState then makeAccountState data
   else if ty =? wireTypeInner then makeFullInner data
   else if ty =? wireTypeCompressedInner then makeCompressedInner data
   else if ty =? wireTypeTransactionWithMeta then makeTransactionWithMeta data
   else Throw "wire: Unknown type") ≫= fun node => Ret (Some node).
Proof using.
  unfold makeFromWire. rewrite last_snoc, length_app. cbn [length]. replace (length data + 1 - 1)%nat with (length data) by lia. by rewrite take_app_length.
Qed.

Lemma wire_back w : wire_ok w -> makeFromWire sha (serializeForWire w) = Ret (Some w).
Proof using.
  destruct w as [ty it|hs bs]; cbn [wire_ok serializeForWire].
  - destruct ty; rewrite ?app_assoc, makeFromWire_snoc; cbn [Z.eqb wireTypeTransaction wireTypeAccountState wireTypeInner wireTypeCompressedInner wireTypeTransactionWithMeta Pos.eqb].
    + intros Ht. by rewrite transaction_ok, Ret_bind.
    + intros Hk. by rewrite withMeta_ok, Ret_bind.
    + intros [Hk Hz]. by rewrite accountState_ok, Ret_bind.
  - intros (Hl & Hall & ->). destruct (_ <? 12)%nat; rewrite makeFromWire_snoc; cbn [Z.eqb wireTypeTransaction wireTypeAccountState wireTypeInner wireTypeCompressedInner wireTypeTransactionWithMeta Pos.eqb].
    + by rewrite compressedInner_ok, Ret_bind.
    + by rewrite fullInner_ok, Ret_bind.
Qed.

Lemma makeFromPrefix_app (p : Z) data : 0 <= p < 2 ^ 32 -> makeFromPrefix sha (bigEndian 4 p ++ data) =
  if p =? hpTransactionID then makeTransaction sha data
  else if p =? hpLeafNode then makeAccountState data
  else if p =? hpInnerNode then makeFullInner data
  else if p =? hpTxNode then makeTransactionWithMeta data
  else Throw "prefix: unknown type".
Proof using.
  intros Hp. unfold makeFromPrefix. rewrite take_app_length', drop_app_length' by (by rewrite length_bigEndian).
  rewrite length_app, length_bigEndian, (proj2 (Nat.ltb_ge _ _)) by lia. rewrite fromBytes_bigEndian, Z.mod_small by exact Hp. done.
Qed.

Lemma store_back w : wire_ok w -> makeFromPrefix sha (serializeWithPrefix w) = Ret w.
Proof using.
  destruct w as [ty it|hs bs]; cbn [wire_ok serializeWithPrefix].
  - destruct ty; unfold leafBytes; rewrite makeFromPrefix_app by (vm_compute; split; [discriminate|reflexivity]).
    + intros Ht. exact (transaction_ok it Ht).
    + intros Hk. exact (withMeta_ok it Hk).
    + intros [Hk Hz]. exact (accountState_ok it Hk Hz).
  - intros (Hl & Hall & ->). unfold innerBytes. rewrite makeFromPrefix_app by (vm_compute; split; [discriminate|reflexivity]). exact (fullInner_ok hs Hl Hall).
Qed.

End Wire.

(** ** What is read *)

(** A node read from the wire: sixteen hashes of 32 bytes, with the bit of each
    that is not zero, or a leaf with a key of 256 bits. *)
Definition read_ok (w : WireNode) : Prop :=
  match w with
  | WireLeaf _ it => key_ok (tag_ it)
  | WireInner hashes isBranch => length hashes = 16%nat /\ Forall (fun h => length h = 32%nat) hashes /\
      forall i h, hashes !! i = Some h -> h <> zeroHash -> isBranch !! i = Some true
  end.

Lemma readChunks_read fuel data H B w :
  (length data mod 33 = 0)%nat -> length H = 16%nat -> length B = 16%nat -> Forall (fun h => length h = 32%nat) H ->
  (forall i h, H !! i = Some h -> h <> zeroHash -> B !! i = Some true) -> readChunks fuel data H B = Ret w -> read_ok w.
Proof.
  revert data H B. induction fuel as [|fuel IH]; intros data H B Hm HH HB Hall Hbit; destruct data as [|z data]; cbn [readChunks]; try (by intros [= <-]).
  set (d := z :: data) in *. destruct (_ <=? _)%nat eqn:Ep; [done|]. apply Nat.leb_gt in Ep. unfold branchFactor in Ep.
  assert (Hd : (33 <= length d)%nat).
  { destruct (Nat.lt_ge_cases (length d) 33) as [Hlt|]; [|done]. rewrite Nat.mod_small in Hm by done. done. }
  assert (Hl32 : length (take 32 d) = 32%nat) by (rewrite length_take; lia). apply IH.
  - rewrite length_drop. replace (length d) with ((length d - 33) + 1 * 33)%nat in Hm by lia. by rewrite Nat.Div0.mod_add in Hm.
  - by rewrite length_insert.
  - destruct (isNonZero _); [by rewrite length_insert|done].
  - by apply Forall_insert.
  - intros i h Hi Hz. apply list_lookup_insert_Some in Hi as [(<- & <- & _)|[Hne Hi]].
    + unfold isNonZero. rewrite bool_decide_eq_false_2 by done. cbn [negb]. apply list_lookup_insert_eq. lia.
    + destruct (isNonZero _); [rewrite list_lookup_insert_ne by done|]; by eapply Hbit.
Qed.

Lemma readKey data : Forall is_byte data -> (length data <? 32)%nat = false -> key_ok (fromBytes (drop (length data - 32) data)).
Proof.
  intros Hb Hl. apply Nat.ltb_ge in Hl. pose proof (fromBytes_range (drop (length data - 32) data) ltac:(by apply Forall_drop)) as Hr.
  unfold lengthZ in Hr. rewrite length_drop in Hr. replace (length data - (length data - 32))%nat with 32%nat in Hr by lia. exact Hr.
Qed.

Lemma fullInner_read data w : makeFullInner data = Ret w -> read_ok w.
Proof.
  unfold makeFullInner. destruct (length data =? 512)%nat eqn:El; cbn [negb]; [|done]. apply Nat.eqb_eq in El.
  set (hashes := map _ (seq 0 branchFactor)).
  assert (Hl : length hashes = 16%nat) by (unfold hashes; by rewrite length_map, length_seq).
  assert (Hall : Forall (fun h => length h = 32%nat) hashes).
  { apply Forall_forall. intros h (i & -> & Hi)%list_elem_of_fmap. apply elem_of_seq in Hi. rewrite length_take, length_drop. unfold branchFactor in Hi. lia. }
  clearbody hashes. intros [= <-]. cbn [read_ok]. split_and!; [done|done|]. intros i h Hi Hz. change (map isNonZero hashes) with (isNonZero <$> hashes).
  rewrite list_lookup_fmap, Hi. unfold isNonZero. simpl. by rewrite bool_decide_eq_false_2.
Qed.

Lemma makeFromWire_read sha blob w : (forall x, length (sha x) = 32%nat /\ Forall is_byte (sha x)) -> Forall is_byte blob ->
  makeFromWire sha blob = Ret (Some w) -> read_ok w.
Proof.
  intros Hsha Hb. destruct blob as [|ty data _] using rev_ind; [done|]. apply Forall_app in Hb as [Hb _]. rewrite makeFromWire_snoc.
  destruct (ty =? wireTypeTransaction).
  { unfold makeTransaction. rewrite Ret_bind. intros [= <-]. cbn [read_ok tag_]. destruct (Hsha (bigEndian 4 hpTransactionID ++ data)) as [Hl Hby].
    pose proof (fromBytes_range _ Hby) as Hr. unfold lengthZ in Hr. rewrite Hl in Hr. exact Hr. }
  destruct (ty =? wireTypeAccountState).
  { unfold makeAccountState. destruct (length data <? 32)%nat eqn:El; [done|]. destruct (_ =? 0); [done|]. rewrite Ret_bind. intros [= <-].
    by apply readKey. }
  destruct (ty =? wireTypeInner).
  { destruct (makeFullInner data) as [e|w'] eqn:Er; [done|]. rewrite Ret_bind. intros [= <-]. by eapply fullInner_read. }
  destruct (ty =? wireTypeCompressedInner).
  { unfold makeCompressedInner. destruct (length data mod 33 =? 0)%nat eqn:Em; cbn [negb orb]; [|done]. apply Nat.eqb_eq in Em. destruct (_ <? _)%nat; [done|].
    destruct (readChunks _ _ _ _) as [e|w'] eqn:Er; [done|]. rewrite Ret_bind. intros [= <-].
    eapply readChunks_read; [exact Em| | | | |exact Er]; [done|done|by apply Forall_replicate|].
    intros i h Hi Hz. apply lookup_replicate_1 in Hi as [-> _]. done. }
  destruct (ty =? wireTypeTransactionWithMeta); [|done].
  unfold makeTransactionWithMeta. destruct (length data <? 32)%nat eqn:El; [done|]. rewrite Ret_bind. intros [= <-]. by apply readKey.
Qed.

(** ** Paths *)

Section Paths.
Context (T : SHAMapNodeType) (sha : Blob -> Blob).
Context (Hsha : forall x, length (sha x) = 32%nat /\ Forall is_byte (sha x)) (Hzero : forall x, sha x <> zeroHash) (HT : T <> tnTRANSACTION_NM).

Definition wireBytes (n : SHAMapTreeNode * SHAMapNodeID) : Blob := serializeForWire (wireOf sha n.1).

Lemma Hlen x : length (sha x) = 32%nat.
Proof using Hsha. apply Hsha. Qed.

Lemma nonZero_child d p cs i c : branches_ok T d p cs -> cs !! i = Some (Some c) -> getHash sha c <> zeroHash.
Proof using Hzero. intros (_ & _ & Hc) Hi. destruct (wf_hash T sha _ _ _ (Hc i c Hi)) as (x & -> & _). apply Hzero. Qed.

(** The nodes of a tree can be sent, and have the same hash there. *)
Lemma wireOf_inner d p cs : branches_ok T d p cs -> wire_ok sha (wireOf sha (Inner cs)) /\ wireHash sha (wireOf sha (Inner cs)) = getHash sha (Inner cs).
Proof using Hsha Hzero.
  intros Hb. cbn [wireOf wire_ok wireHash getHash]. split.
  - split_and!; [rewrite length_map; apply Hb|apply (childHash_length T sha Hlen _ _ _ Hb)|]. rewrite map_map. apply map_ext_in. intros o Ho.
    rewrite <- list_elem_of_In in Ho. apply list_elem_of_lookup in Ho as [i Hi]. destruct o as [c|]; [|done].
    simpl. unfold isNonZero. rewrite bool_decide_eq_false_2; [done|]. by eapply nonZero_child.
  - replace (existsb id (map (fun o => negb (isNone o)) cs)) with (negb (forallb isNone cs)); [by destruct (forallb isNone cs)|].
    clear. induction cs as [|[c|] cs IH]; [done|done|]. simpl. exact IH.
Qed.

Lemma wireOf_leaf x : key_ok (tag_ x) -> tag_ x <> 0 -> wire_ok sha (wireOf sha (Leaf T x)).
Proof using HT. intros Hk Hz. cbn [wireOf wire_ok]. by destruct T. Qed.

(** A step of a walk that ends in a leaf. *)
Lemma walk_inv n d p cs nodeID key stack x stack' : branches_ok T d p cs -> 0 <= d -> nid_ok d nodeID ->
  walkTowardsKey n (Inner cs) nodeID key stack = Ret (Some (T, x), stack') ->
  exists n' c nid, n = S n' /\ cs !! Z.to_nat (digit d key) = Some (Some c) /\ nid_ok (d + 1) nid /\ getChildNodeID (Z.to_nat (digit d key)) nodeID = Ret nid /\
    walkTowardsKey n' c nid key ((Inner cs, nodeID) :: stack) = Ret (Some (T, x), stack').
Proof using.
  intros Hb Hd Hn E. destruct n as [|n]; [done|]. pose proof (branch_lookup T d p cs key Hb) as Hlk. cbn [walkTowardsKey] in E.
  rewrite (selectBranch_digit d) in E by done. destruct (getChild cs (Z.to_nat (digit d key))) as [c|] eqn:Ec; [|done].
  destruct (getChildNodeID_ok d (Z.to_nat (digit d key)) nodeID Hn) as (nid & En & Hn'); [destruct Hb; lia|pose proof (digit_range d key); lia|].
  rewrite En, Ret_bind in E. by exists n, c, nid.
Qed.

(** A walk to a leaf is the walk to its key. *)
Lemma walk_same n d p t nodeID key stack x stack' : wf T d p t -> 0 <= d -> nid_ok d nodeID ->
  walkTowardsKey n t nodeID key stack = Ret (Some (T, x), stack') -> x ∈ flatten t /\ walkTowardsKey n t nodeID (tag_ x) stack = Ret (Some (T, x), stack').
Proof using.
  intros Hwf. revert n nodeID stack. induction Hwf as [d p y Hk Hp|d p cs Hd Hl Hc IH H2]; intros n nodeID stack Hd0 Hn E.
  - destruct n; cbn [walkTowardsKey] in *; injection E as <- <-; (split; [by left|done]).
  - assert (Hb : branches_ok T d p cs) by done. destruct (walk_inv _ _ _ _ _ _ _ _ _ Hb Hd0 Hn E) as (n' & c & nid & -> & Hlk & Hn' & En & E').
    destruct (IH _ c Hlk n' nid _ ltac:(lia) Hn' E') as [Hx Ex].
    destruct (branches_keys T d p cs _ c x Hb Hd0 Hlk Hx) as (_ & _ & Hdig). split; [apply elem_of_flatten; by eexists _, _|].
    cbn [walkTowardsKey]. rewrite (selectBranch_digit d), Hdig, getChild_lookup, Hlk, En, Ret_bind by done. exact Ex.
Qed.

(** The nodes of a walk to a leaf are accepted. *)
Lemma verify_walk n d p t nodeID key stack x stack' : wf T d p t -> 0 <= d <= 64 -> nid_ok d nodeID -> tag_ x <> 0 ->
  walkTowardsKey n t nodeID key stack = Ret (Some (T, x), stack') ->
  exists frames, stack' = frames ++ stack /\ Z.of_nat (length frames) <= 65 - d /\
    verifyNodes sha key (rev (map wireBytes frames)) d (getHash sha t) = true.
Proof using Hsha Hzero HT.
  intros Hwf. revert n nodeID stack. induction Hwf as [d p y Hk Hp|d p cs Hd Hl Hc IH H2]; intros n nodeID stack Hd0 Hn Hz E.
  - exists [(Leaf T y, nodeID)]. assert (Ey : y = x /\ stack' = (Leaf T y, nodeID) :: stack) by (destruct n; cbn [walkTowardsKey] in E; by injection E as -> <-).
    destruct Ey as [-> ->]. split_and!; [done|simpl; lia|]. cbn [map rev app verifyNodes]. unfold wireBytes. cbn [fst].
    rewrite wire_back by (by apply wireOf_leaf). cbn [wireOf wireHash]. by rewrite bool_decide_eq_true_2.
  - assert (Hb : branches_ok T d p cs) by done. destruct (walk_inv _ _ _ _ _ _ _ _ _ Hb ltac:(lia) Hn E) as (n' & c & nid & -> & Hlk & Hn' & En & E').
    destruct (IH _ c Hlk n' nid _ ltac:(lia) Hn' Hz E') as (frames & -> & Hlf & Hv). exists (frames ++ [(Inner cs, nodeID)]).
    split_and!; [by rewrite <- app_assoc|rewrite length_app; simpl; lia|]. rewrite map_app, rev_app_distr. cbn [map rev app verifyNodes].
    unfold wireBytes at 1. cbn [fst]. destruct (wireOf_inner d p cs Hb) as [Hw Hh]. rewrite wire_back by done. rewrite Hh, bool_decide_eq_true_2 by done. cbn [negb wireOf].
    change (selectBranch (createID d key) key) with (Z.to_nat (digit d key)). change (map (getChildHash sha) cs) with (getChildHash sha <$> cs).
    rewrite list_lookup_fmap, Hlk. exact Hv.
Qed.

(** No path is accepted for an empty branch. *)
Lemma verify_zero key path d : Forall (Forall is_byte) path -> verifyNodes sha key path d zeroHash = false.
Proof using Hsha Hzero.
  intros Hb. revert d. induction Hb as [|blob path Hblob Hb IH]; intros d; [done|]. cbn [verifyNodes].
  destruct (makeFromWire sha blob) as [e|[w|]] eqn:Ew; [done| |done]. pose proof (makeFromWire_read sha blob w Hsha Hblob Ew) as Hr.
  case_bool_decide as Eh; cbn [negb]; [|done]. destruct w as [ty it|hashes bits]; [exfalso; by eapply Hzero|].
  cbn [wireHash] in Eh. destruct (existsb id bits) eqn:Eb; [exfalso; by eapply Hzero|].
  destruct Hr as (_ & _ & Hbits). destruct (hashes !! _) as [h|] eqn:Elk; [|apply IH]. cbn [default]. destruct (decide (h = zeroHash)) as [->|Hne]; [apply IH|].
  exfalso. apply not_true_iff_false in Eb. apply Eb. apply existsb_exists. exists true. split; [|done]. rewrite <- list_elem_of_In.
  eapply list_elem_of_lookup_2, Hbits; [exact Elk|done].
Qed.

(** The byte strings hashed for the nodes of a path. *)
Definition pathPreimages (path : list Blob) : list Blob :=
  omap (fun blob => match makeFromWire sha blob with Ret (Some w) => Some (serializeWithPrefix w) | _ => None end) path.

Lemma pathPreimages_cons blob path w : makeFromWire sha blob = Ret (Some w) -> pathPreimages (blob :: path) = serializeWithPrefix w :: pathPreimages path.
Proof using. intros E. unfold pathPreimages. cbn [omap list_omap]. by rewrite E. Qed.

Lemma leafBytes_type ty it x : key_ok (tag_ it) -> key_ok (tag_ x) -> leafBytes ty it = leafBytes T x -> ty = T /\ it = x.
Proof using HT.
  intros Hi Hx E. assert (ty = T) as ->; [|split; [done|]; apply (leafBytes_inj T [it; x]); [by intros ?|by left|right; by left|done..]].
  apply (f_equal (take 4)) in E. unfold leafBytes in E. destruct ty, T; try done; rewrite !take_app_length' in E by done; vm_compute in E; discriminate E.
Qed.

Lemma leafBytes_inner ty it l : leafBytes ty it <> innerBytes l.
Proof using. apply leaf_not_inner. Qed.

(** A node with the hash of an inner node. *)
Lemma inner_match d p cs w : branches_ok T d p cs -> forallb isNone cs = false -> read_ok w ->
  noCollisions sha (preimages sha (Inner cs) ++ [serializeWithPrefix w]) -> wireHash sha w = getHash sha (Inner cs) ->
  exists bits, w = WireInner (map (getChildHash sha) cs) bits.
Proof using Hsha Hzero.
  intros Hb Hne Hr Hnc E. cbn [getHash] in E. rewrite Hne in E.
  destruct w as [ty it|hashes bits]; cbn [wireHash serializeWithPrefix] in *.
  - apply Hnc in E; [by apply leafBytes_inner in E|apply elem_of_app; right; by left|by left].
  - destruct (existsb id bits); [|symmetry in E; by apply Hzero in E]. apply Hnc in E; [|apply elem_of_app; right; by left|by left].
    unfold innerBytes in E. apply app_inv_head in E. destruct Hr as (Hl & Hall & _). exists bits. f_equal.
    apply (concat_same 32); [by rewrite length_map, Hl; destruct Hb as (_ & -> & _)|done|apply (childHash_length T sha Hlen _ _ _ Hb)|done].
Qed.

(** A node with the hash of a leaf. *)
Lemma leaf_match d p x w : wf T d p (Leaf T x) -> read_ok w -> noCollisions sha (preimages sha (Leaf T x) ++ [serializeWithPrefix w]) ->
  wireHash sha w = getHash sha (Leaf T x) -> w = WireLeaf T x.
Proof using Hzero HT.
  intros Hwf Hr Hnc E. inversion Hwf; subst. cbn [getHash] in E. destruct w as [ty it|hashes bits]; cbn [wireHash serializeWithPrefix read_ok] in *.
  - apply Hnc in E; [|apply elem_of_app; right; by left|by left]. by destruct (leafBytes_type ty it x Hr ltac:(done) E) as [-> ->].
  - destruct (existsb id bits); [|symmetry in E; by apply Hzero in E]. apply Hnc in E; [|apply elem_of_app; right; by left|by left].
    symmetry in E. by apply leafBytes_inner in E.
Qed.

Lemma noCollisions_sub l l' : noCollisions sha l -> (forall x, x ∈ l' -> x ∈ l) -> noCollisions sha l'.
Proof using. intros Hnc Hsub x y Hx Hy. by apply Hnc; apply Hsub. Qed.

(** What an accepted path shows of a node. *)
Definition shows (key d : Z) (path : list Blob) (t : SHAMapTreeNode) : Prop :=
  exists x blob, last path = Some blob /\ makeFromWire sha blob = Ret (Some (WireLeaf T x)) /\
    forall n nodeID stack, nid_ok d nodeID -> 64 - d < Z.of_nat n -> exists stack', walkTowardsKey n t nodeID key stack = Ret (Some (T, x), stack').

(** A step into a branch. *)
Lemma shows_branch key d p cs b path blob : branches_ok T d p cs -> 0 <= d -> b = Z.to_nat (digit d key) ->
  Forall (Forall is_byte) path ->
  (forall c, cs !! b = Some (Some c) -> verifyNodes sha key path (d + 1) (getHash sha c) = true -> shows key (d + 1) path c) ->
  verifyNodes sha key path (d + 1) (default zeroHash (map (getChildHash sha) cs !! b)) = true -> shows key d (blob :: path) (Inner cs).
Proof using Hsha Hzero.
  intros Hb Hd -> Hbytes Hrec Hv. pose proof (branch_lookup T d p cs key Hb) as Hlk. change (map (getChildHash sha) cs) with (getChildHash sha <$> cs) in Hv.
  rewrite list_lookup_fmap, Hlk in Hv. cbn [fmap option_fmap option_map default] in Hv.
  destruct (getChild cs (Z.to_nat (digit d key))) as [c|] eqn:Ec; simpl in Hv; [|by rewrite verify_zero in Hv].
  destruct (Hrec c Hlk Hv) as (x & blob' & Hlast & Hw & Hwalk). exists x, blob'. split_and!; [by destruct path|done|].
  intros n nodeID stack Hn Hfuel. destruct n as [|n]; [destruct Hb; lia|].
  destruct (walk_branch T d p cs nodeID key stack n c Hb Hd Hn Ec) as (nid' & Hn' & ->). apply Hwalk; [done|lia].
Qed.

Lemma verify_shows key d p t path : wf T d p t -> 0 <= d -> Forall (Forall is_byte) path -> noCollisions sha (preimages sha t ++ pathPreimages path) ->
  verifyNodes sha key path d (getHash sha t) = true -> shows key d path t.
Proof using Hsha Hzero HT.
  intros Hwf. revert path. induction Hwf as [d p x Hk Hp|d p cs Hd Hl Hc IH H2]; intros [|blob path] Hd0 Hbytes Hnc Hv; [done| |done|].
  all: inversion Hbytes as [|? ? Hblob Hbytes']; subst; cbn [verifyNodes] in Hv; destruct (makeFromWire sha blob) as [e|[w|]] eqn:Ew; [done| |done];
    pose proof (makeFromWire_read sha blob w Hsha Hblob Ew) as Hr; case_bool_decide as Eh; cbn [negb] in Hv; [|done]; rewrite (pathPreimages_cons _ _ w Ew) in Hnc.
  - assert (w = WireLeaf T x) as ->.
    { apply (leaf_match d (prefix d (tag_ x))); [by constructor|done| |done]. eapply noCollisions_sub; [exact Hnc|]. intros y. rewrite !elem_of_app, list_elem_of_singleton, elem_of_cons. tauto. }
    destruct path; [|done]. exists x, blob. split_and!; [done|done|]. intros n nodeID stack Hn Hfuel. exists ((Leaf T x, nodeID) :: stack). by destruct n.
  - assert (Hb : branches_ok T d p cs) by done. destruct (inner_match d p cs w Hb) as [bits ->]; [|done| |done|].
    { apply wf_some. intros E. rewrite E in H2. simpl in H2. lia. }
    { eapply noCollisions_sub; [exact Hnc|]. intros y. rewrite !elem_of_app, list_elem_of_singleton, elem_of_cons. tauto. }
    eapply (shows_branch key d p cs); [done|done|done|done| |exact Hv]. intros c Hlk Hv'. apply (IH _ c Hlk); [lia|done| |done].
    eapply noCollisions_sub; [exact Hnc|]. intros y. rewrite !elem_of_app, elem_of_cons. intros [Hy|Hy]; [left; by eapply preimages_child|tauto].
Qed.

Lemma root_shows key t path : root_ok T t -> Forall (Forall is_byte) path -> noCollisions sha (preimages sha t ++ pathPreimages path) ->
  verifyNodes sha key path 0 (getHash sha t) = true -> shows key 0 path t.
Proof using Hsha Hzero HT.
  intros (cs & -> & Hb) Hbytes Hnc Hv. destruct (forallb isNone cs) eqn:Hne.
  { cbn [getHash] in Hv. rewrite Hne, verify_zero in Hv by done. done. }
  destruct path as [|blob path]; [done|]. inversion Hbytes as [|? ? Hblob Hbytes']; subst. cbn [verifyNodes] in Hv.
  destruct (makeFromWire sha blob) as [e|[w|]] eqn:Ew; [done| |done]. pose proof (makeFromWire_read sha blob w Hsha Hblob Ew) as Hr.
  case_bool_decide as Eh; cbn [negb] in Hv; [|done]. rewrite (pathPreimages_cons _ _ w Ew) in Hnc.
  destruct (inner_match 0 0 cs w Hb Hne Hr) as [bits ->]; [|done|].
  { eapply noCollisions_sub; [exact Hnc|]. intros y. rewrite !elem_of_app, list_elem_of_singleton, elem_of_cons. tauto. }
  eapply (shows_branch key 0 0 cs); [done|lia|done|done| |exact Hv]. intros c Hlk Hv'. destruct Hb as (_ & _ & Hc).
  apply (verify_shows key _ _ c path (Hc _ c Hlk)); [lia|done| |done].
  eapply noCollisions_sub; [exact Hnc|]. intros y. rewrite !elem_of_app, elem_of_cons. intros [Hy|Hy]; [left; by eapply preimages_child|tauto].
Qed.

(** The path of a walk from the root. *)
Lemma root_verify t key x stack : root_ok T t -> walk t key = Ret (Some (T, x), stack) -> tag_ x <> 0 ->
  verifyProofPath sha (getHash sha t) key (map wireBytes stack) = true /\ getProofPath sha (tag_ x) t = Ret (Some (map wireBytes stack)) /\ x ∈ flatten t.
Proof using Hsha Hzero HT.
  intros (cs & -> & Hb) E Hz. unfold walk in E. destruct (walk_inv _ _ _ _ _ _ _ _ _ Hb ltac:(lia) rootID_ok E) as (n' & c & nid & [= <-] & Hlk & Hn' & En & E').
  pose proof Hb as (_ & _ & Hc). pose proof (Hc _ c Hlk) as Hwf.
  destruct (verify_walk 64 _ _ c nid key [(Inner cs, rootID)] x stack Hwf) as (frames & Hst & Hlf & Hv); [lia|done|done|done|].
  destruct (walk_same 64 _ _ c nid key _ x stack Hwf ltac:(lia) Hn' E') as [Hx Ex].
  destruct (branches_keys T 0 0 cs _ c x Hb ltac:(lia) Hlk Hx) as (_ & _ & Hdig).
  assert (Ewalk : walk (Inner cs) (tag_ x) = Ret (Some (T, x), stack)).
  { unfold walk. cbn [walkTowardsKey]. rewrite (selectBranch_digit 0) by exact rootID_ok. rewrite Hdig, getChild_lookup, Hlk, En, Ret_bind. exact Ex. }
  split_and!; [| |apply elem_of_flatten; by eexists _, _].
  - unfold verifyProofPath. rewrite bool_decide_eq_false_2 by (rewrite Hst, map_app; by destruct (map wireBytes frames)).
    rewrite (proj2 (Nat.ltb_ge _ _)) by (rewrite length_map, Hst, length_app; simpl; lia). cbn [orb].
    rewrite Hst, map_app, rev_app_distr. cbn [map rev app verifyNodes]. unfold wireBytes at 1. cbn [fst].
    destruct (wireOf_inner 0 0 cs Hb) as [Hw Hh]. rewrite wire_back by done. rewrite Hh, bool_decide_eq_true_2 by done. cbn [negb wireOf].
    change (selectBranch (createID 0 key) key) with (Z.to_nat (digit 0 key)). change (map (getChildHash sha) cs) with (getChildHash sha <$> cs).
    rewrite list_lookup_fmap, Hlk. exact Hv.
  - unfold getProofPath. rewrite Ewalk, Ret_bind. destruct (walk_top _ _ _ _ _ _ _ Ewalk) as (node & nid' & rest & -> & ->). by rewrite Z.eqb_refl.
Qed.

End Paths.

(** ** Properties *)

(** C34: Nodes survive the wire and the node store.  A leaf or an inner node that
    [serializeForWire] sends, compressed or in full, is the one that [makeFromWire]
    reads, and what [serializeWithPrefix] stores is what [makeFromPrefix] reads; the
    stored bytes are the bytes whose hash the node has. *)
Theorem nodes_roundtrip sha w : wire_ok sha w ->
  makeFromWire sha (serializeForWire w) = Ret (Some w) /\ makeFromPrefix sha (serializeWithPrefix w) = Ret w /\
  (wireHash sha w <> zeroHash -> wireHash sha w = sha (serializeWithPrefix w)).
Proof.
  intros Hw. split_and!; [by apply wire_back|by apply store_back|]. destruct w as [ty it|hs bs]; cbn [wireHash serializeWithPrefix]; [done|]. by destruct (existsb id bs).
Qed.

Section Theorems.
Context (sha : Blob -> Blob) (T : SHAMapNodeType) (ops : list Op) (bs : list bool) (t : SHAMapTreeNode).
Context (Hsha : forall x, length (sha x) = 32%nat /\ Forall is_byte (sha x)) (Hzero : forall x, sha x <> zeroHash) (HT : T <> tnTRANSACTION_NM).
Context (Hu : usable sha T ops) (Hrun : runOps sha T ops newInner = Ret (bs, t)).

(** C24: Proof paths are complete: for a key of the map [getProofPath] gives a path
    that [verifyProofPath] accepts for the root hash and the key, and whose first
    node is the leaf of the key; for any other key it gives none. *)
Theorem proof_path_complete key :
  match (mapOps ops ∅).2 !! key with
  | Some it => key <> 0 -> exists blob path, getProofPath sha key t = Ret (Some (blob :: path)) /\
      verifyProofPath sha (getHash sha t) key (blob :: path) = true /\ makeFromWire sha blob = Ret (Some (WireLeaf T it))
  | None => getProofPath sha key t = Ret None
  end.
Proof using Hsha Hzero HT Hu Hrun.
  destruct (built_root _ _ _ _ _ Hu Hrun) as [R <-]. destruct (contents t !! key) as [it|] eqn:El.
  - intros Hz. apply (contents_lookup T) in El as [Hit <-]; [|done]. destruct (root_walk T t (tag_ it) R) as (leaf & stack & E & Hl & _).
    apply Hl in Hit as Hleaf; [|done]. subst leaf. destruct (root_verify T sha Hsha Hzero HT t _ it stack R E Hz) as (Hv & Hp & _).
    destruct (walk_top _ _ _ _ _ _ _ E) as (node & nid & rest & -> & ->). eexists _, _. split_and!; [exact Hp|exact Hv|].
    apply wire_back, wireOf_leaf; [done| |done]. destruct R as (cs & -> & Hb). apply elem_of_flatten in Hit as (i & c & Hi & Hc). by apply (branches_keys T 0 0 cs i c it Hb ltac:(lia) Hi Hc).
  - destruct (walk_absent T t key R (contents_absent T t key R El)) as (leaf & node & nid & rest & E & Hl). unfold getProofPath. rewrite E, Ret_bind.
    destruct leaf as [[ty x]|]; [destruct Hl as [-> Hx]; by rewrite (proj2 (Z.eqb_neq _ _) Hx)|by destruct Hl as [cs ->]].
Qed.

(** C14: Proof paths are sound up to the key: when [verifyProofPath] accepts a path of
    byte strings for the root hash of a map, the first node of the path is a leaf of
    the map, and it is the leaf of the key whenever the map has the key.  No two of
    the strings hashed for the map and the path have the same hash. *)
Theorem proof_path_sound key path :
  Forall (Forall is_byte) path -> noCollisions sha (preimages sha t ++ pathPreimages sha (rev path)) ->
  verifyProofPath sha (getHash sha t) key path = true ->
  exists it blob, head path = Some blob /\ makeFromWire sha blob = Ret (Some (WireLeaf T it)) /\ (mapOps ops ∅).2 !! tag_ it = Some it /\
    forall it', (mapOps ops ∅).2 !! key = Some it' -> it' = it.
Proof using Hsha Hzero HT Hu Hrun.
  intros Hb Hnc Hv. destruct (built_root _ _ _ _ _ Hu Hrun) as [R <-]. unfold verifyProofPath in Hv. destruct (_ || _); [done|].
  destruct (root_shows T sha Hsha Hzero HT key t (rev path) R) as (it & blob & Hlast & Hw & Hwalk); [by apply Forall_rev|done|done|].
  destruct (Hwalk 65%nat rootID [] rootID_ok ltac:(lia)) as [stack E]. destruct (root_walk T t key R) as (leaf & stack' & E' & Hl & Hty).
  unfold walk in E'. rewrite E in E'. injection E' as <- <-. exists it, blob. split_and!; [|done| |].
  - destruct path as [|b path]; [done|]. cbn [rev] in Hlast. by rewrite last_snoc in Hlast.
  - apply (contents_lookup T); [done|]. split; [|done]. by apply (Hty T it).
  - intros it' Hit'. apply (contents_lookup T) in Hit' as [Hin Ht]; [|done]. apply Hl in Hin; [congruence|done].
Qed.

(** C38: [verifyProofPath] does not compare the key with the key of the leaf: the path
    of an item is also accepted for every other key whose walk ends in that leaf, so
    for keys that are not in the map. *)
Theorem proof_accepted_for_other_key key it stack : walk t key = Ret (Some (T, it), stack) -> tag_ it <> 0 ->
  exists path, getProofPath sha (tag_ it) t = Ret (Some path) /\ verifyProofPath sha (getHash sha t) key path = true.
Proof using Hsha Hzero HT Hu Hrun.
  intros E Hz. destruct (built_root _ _ _ _ _ Hu Hrun) as [R _]. destruct (root_verify T sha Hsha Hzero HT t key it stack R E Hz) as (Hv & Hp & _). eauto.
Qed.

End Theorems.

(** ** Sample proofs *)

Module SampleProofs.
Import SampleTree.

Lemma sampleSha_bytes x : length (sampleSha x) = 32%nat /\ Forall is_byte (sampleSha x).
Proof. split; [apply sampleSha_length|]. constructor; [unfold is_byte; lia|apply bytes_bigEndian]. Qed.

Definition path1 : list Blob := match getProofPath sampleSha key1 (tree ops1) with Ret (Some path) => path | _ => [] end.

Lemma path1_bytes : Forall (Forall is_byte) path1.
Proof.
  assert (E : forallb (forallb (fun b => (0 <=? b) && (b <? 256))) path1 = true) by (vm_compute; reflexivity).
  generalize dependent path1. intros path E. apply Forall_forall. intros blob Hblob. rewrite forallb_forall in E. rewrite list_elem_of_In in Hblob. specialize (E blob Hblob).
  apply Forall_forall. intros b Hb. rewrite forallb_forall in E. rewrite list_elem_of_In in Hb. specialize (E b Hb). apply andb_true_iff in E as [? ?]. unfold is_byte. lia.
Qed.

Lemma path1_noCollisions : noCollisions sampleSha (preimages sampleSha (tree ops1) ++ pathPreimages sampleSha (rev path1)).
Proof. apply collisionFree_ok. vm_compute. reflexivity. Qed.

(** Two branches of sixteen. *)
Definition node : WireNode := let hashes := <[3%nat := replicate 32 7]> (<[9%nat := replicate 32 8]> (replicate 16 zeroHash)) in WireInner hashes (map isNonZero hashes).

End SampleProofs.
Import SampleTree SampleProofs.

Lemma nodes_roundtrip_witness : makeFromWire sampleSha (serializeForWire SampleProofs.node) = Ret (Some SampleProofs.node) /\ length (serializeForWire SampleProofs.node) = 67%nat.
Proof.
  split; [|reflexivity]. apply (nodes_roundtrip sampleSha SampleProofs.node). unfold SampleProofs.node. cbn [wire_ok]. split; [reflexivity|]. split; [repeat constructor|reflexivity].
Defined.

Lemma proof_path_complete_witness : exists blob path, getProofPath sampleSha key1 (tree ops1) = Ret (Some (blob :: path)) /\
  verifyProofPath sampleSha (getHash sampleSha (tree ops1)) key1 (blob :: path) = true /\ makeFromWire sampleSha blob = Ret (Some (WireLeaf tnACCOUNT_STATE (mkItem key1 [1]))).
Proof.
  pose proof (proof_path_complete sampleSha tnACCOUNT_STATE ops1 _ _ sampleSha_bytes sampleSha_zero ltac:(discriminate) usable1 built1 key1) as H.
  assert (E : (mapOps ops1 ∅).2 !! key1 = Some (mkItem key1 [1])) by (vm_compute; reflexivity). rewrite E in H. apply H. vm_compute. discriminate.
Defined.

Lemma proof_path_sound_witness : exists it blob, head path1 = Some blob /\ makeFromWire sampleSha blob = Ret (Some (WireLeaf tnACCOUNT_STATE it)) /\ it = mkItem key1 [1].
Proof.
  destruct (proof_path_sound sampleSha tnACCOUNT_STATE ops1 _ _ sampleSha_bytes sampleSha_zero ltac:(discriminate) usable1 built1 key1 path1 path1_bytes path1_noCollisions
    ltac:(vm_compute; reflexivity)) as (it & blob & Hh & Hw & _ & Hit). exists it, blob. split; [exact Hh|]. split; [exact Hw|]. symmetry. apply Hit. vm_compute. reflexivity.
Defined.

Lemma proof_accepted_for_other_key_witness : exists path, getProofPath sampleSha key3 (tree ops1) = Ret (Some path) /\
  verifyProofPath sampleSha (getHash sampleSha (tree ops1)) (key3 + 5) path = true /\ (mapOps ops1 ∅).2 !! (key3 + 5) = None.
Proof.
  destruct (proof_accepted_for_other_key sampleSha tnACCOUNT_STATE ops1 _ _ sampleSha_bytes sampleSha_zero ltac:(discriminate) usable1 built1 (key3 + 5) (mkItem key3 [4]) _
    ltac:(vm_compute; reflexivity) ltac:(vm_compute; discriminate)) as (path & Hp & Hv). exists path. split; [exact Hp|]. split; [exact Hv|]. vm_compute. reflexivity.
Defined.
