(* ===== verification/SkipList.v ===== *)
(** * The hashes of earlier ledgers

    Models [Ledger::updateSkipList] of [src/xrpld/app/ledger/Ledger.cpp], which
    keeps the hashes of the last 256 ledgers and of every 256th ledger in the
    state, and the functions of [src/libxrpl/ledger/View.cpp] that read them,
    [hashOfSeq] and [areCompatible].  The keys of the entries are arguments
    ([keylet::skip], a hash in [Indexes.cpp]).  The file ends with what the lists
    say of the chain of ledgers. *)

From stdpp Require Import strings.
From S2P Require Import Prelude Outcome LedgerViews RCLValidations.

(** The entries that hold hashes, and all others. *)
Inductive EntryData (X : Type) :=
  | LedgerHashes (hashes : list Z) (lastLedgerSequence : Z)
  | OtherEntry (x : X).
Arguments LedgerHashes {X}.
Arguments OtherEntry {X}.

Definition ltLEDGER_HASHES : Z := 0x0068.

(** [keylet::skip()] and [keylet::skip(ledger)]: the second has one key for each
    65536 ledgers. *)
Class SkipKeys := { recentKey : Z; pastKey : Z -> Z }.

Section SkipList.
Context {X : Type} {SK : SkipKeys}.
Abbreviation SLE := (SLE (EntryData X)).

(** A ledger: the part of [LedgerInfo] used here, and the state. *)
Record ChainLedger := mkChainLedger { seq : Z; hash : Z; parentHash : Z; state : Ledger (EntryData X) }.

Definition skip : Keylet := mkKeylet ltLEDGER_HASHES recentKey.
Definition skipOf (ledger : Z) : Keylet := mkKeylet ltLEDGER_HASHES (pastKey (Z.shiftr (u32 ledger) 16)).

(** [getFieldV256(sfHashes)] and [getFieldU32(sfLastLedgerSequence)] of an entry. *)
Definition getHashes (sle : SLE) : outcome (list Z * Z) :=
  match data sle with LedgerHashes hashes last => Ret (hashes, last) | OtherEntry _ => Throw "Field not found" end.

Definition setState (s : Ledger (EntryData X)) (l : ChainLedger) : ChainLedger := mkChainLedger (seq l) (hash l) (parentHash l) s.

(** One record: [dropFirst] is the step of the second one that keeps it at 256. *)
Definition appendHash (k : Keylet) (dropFirst : bool) (prevIndex : Z) (l : ChainLedger) : outcome ChainLedger :=
  let sle := ledgerRead k (state l) in
  (match sle with None => Ret [] | Some sle => getHashes sle ≫= fun '(hashes, _) => Ret hashes end) ≫= fun hashes =>
  let hashes := if dropFirst && (length hashes =? 256)%nat then drop 1 hashes else hashes in
  let entry := mkEntry (k_key k) (k_type k) (LedgerHashes (hashes ++ [parentHash l]) prevIndex) in
  (match sle with None => ledgerRawInsert entry (state l) | Some _ => ledgerRawReplace entry (state l) end) ≫= fun s =>
  Ret (setState s l).

Definition updateSkipList (l : ChainLedger) : outcome ChainLedger :=
  if seq l =? 0 then Ret l
  else
    let prevIndex := u32 (seq l - 1) in
    (if Z.land prevIndex 255 =? 0 then appendHash (skipOf prevIndex) false prevIndex l else Ret l) ≫= fun l =>
    appendHash skip true prevIndex l.

(** [int diff = ledger.seq() - seq], and its comparison with a size. *)
Definition i32 (z : Z) : Z := let z := u32 z in if z <? 2 ^ 31 then z else z - 2 ^ 32.

Definition atIndex (v : list Z) (i : Z) : outcome Z := require "vector index" (v !! Z.to_nat i).

Definition hashOfSeq (l : ChainLedger) (s : Z) : outcome (option Z) :=
  if seq l <? s then Ret None
  else if s =? seq l then Ret (Some (hash l))
  else if s =? u32 (seq l - 1) then Ret (Some (parentHash l))
  else
    let diff := i32 (seq l - s) in
    (if diff <=? 256 then
       match ledgerRead skip (state l) with
       | Some hashIndex =>
           getHashes hashIndex ≫= fun '(vec, _) =>
           if u64 diff <=? Z.of_nat (length vec) then atIndex vec (Z.of_nat (length vec) - diff) ≫= fun h => Ret (Some h) else Ret None
       | None => Ret None
       end
     else Ret None) ≫= fun recent =>
    match recent with
    | Some h => Ret (Some h)
    | None =>
        if negb (Z.land s 255 =? 0) then Ret None
        else
          match ledgerRead (skipOf s) (state l) with
          | Some hashIndex =>
              getHashes hashIndex ≫= fun '(vec, lastSeq) =>
              let diff := Z.shiftr (u32 (lastSeq - s)) 8 in
              if diff <? Z.of_nat (length vec) then atIndex vec (Z.of_nat (length vec) - diff - 1) ≫= fun h => Ret (Some h) else Ret None
          | None => Ret None
          end
    end.

(** Whether two ledgers can be on one chain. *)
Definition areCompatible (validLedger testLedger : ChainLedger) : outcome bool :=
  let differs (h : option Z) (other : Z) := match h with Some h => negb (h =? other) | None => false end in
  if seq validLedger <? seq testLedger then
    hashOfSeq testLedger (seq validLedger) ≫= fun h => Ret (negb (differs h (hash validLedger)))
  else if seq testLedger <? seq validLedger then
    hashOfSeq validLedger (seq testLedger) ≫= fun h => Ret (negb (differs h (hash testLedger)))
  else Ret (hash validLedger =? hash testLedger).

(** The second form, for a valid ledger that is not at hand. *)
Definition areCompatibleHash (validHash validIndex : Z) (testLedger : ChainLedger) : outcome bool :=
  if validIndex <? seq testLedger then
    hashOfSeq testLedger validIndex ≫= fun h => Ret (match h with Some h => h =? validHash | None => true end)
  else if validIndex =? seq testLedger then Ret (hash testLedger =? validHash)
  else Ret true.

(** [RCLValidatedLedger]'s constructor from a ledger. *)
Definition validated (l : ChainLedger) : outcome RCLValidatedLedger :=
  match ledgerRead skip (state l) with
  | Some hashIndex => getHashes hashIndex ≫= fun '(vec, _) => Ret (validatedLedger (hash l) (seq l) (Some vec))
  | None => Ret (validatedLedger (hash l) (seq l) None)
  end.

(** The next ledger as [buildLedgerImpl] makes it: [Ledger(prevLedger, closeTime)],
    the transactions (the new state is an argument), the skip list, and the hash
    it gets in the end. *)
Definition buildNext (parent : ChainLedger) (newState : Ledger (EntryData X)) (newHash : Z) : outcome ChainLedger :=
  updateSkipList (mkChainLedger (u32 (seq parent + 1)) (hash parent + 1) (hash parent) newState) ≫= fun l =>
  Ret (mkChainLedger (seq l) newHash (parentHash l) (state l)).

End SkipList.
Arguments ChainLedger : clear implicits.

(** ** The chain *)

(** The keys are hashes of different strings: none is zero, no two are the same. *)
Class SkipLaws (SK : SkipKeys) := {
  recent_nonzero : recentKey <> 0;
  past_nonzero : forall j, 0 <= j < 65536 -> pastKey j <> 0;
  past_recent : forall j, 0 <= j < 65536 -> pastKey j <> recentKey;
  past_inj : forall j j', 0 <= j < 65536 -> 0 <= j' < 65536 -> pastKey j = pastKey j' -> j = j';
}.

Section Chain.
Context {X : Type} {SK : SkipKeys} {SL : SkipLaws SK}.
Implicit Types (l parent : ChainLedger X) (hs : list Z).

(** A change of the state that leaves the hashes alone. *)
Definition keepsHashes (s s' : Ledger (EntryData X)) : Prop :=
  stateMap_ s' !! recentKey = stateMap_ s !! recentKey /\ forall j, 0 <= j < 65536 -> stateMap_ s' !! pastKey j = stateMap_ s !! pastKey j.

(** A ledger built on a first one (number 1), with the hashes of all of them; the
    transactions in between change anything but the hashes. *)
Inductive built : list Z -> ChainLedger X -> Prop :=
  | built_genesis l : seq l = 1 -> stateMap_ (state l) !! recentKey = None -> (forall j, 0 <= j < 65536 -> stateMap_ (state l) !! pastKey j = None) -> built [hash l] l
  | built_next hs parent newState newHash l : built hs parent -> keepsHashes (state parent) newState -> Z.of_nat (length hs) < 2 ^ 32 - 1 ->
      buildNext parent newState newHash = Ret l -> built (hs ++ [newHash]) l.

Definition hashAt hs (s : Z) : Z := default 0 (hs !! Z.to_nat (s - 1)).

(** The first ledger of a record: every 256th, of 65536 ledgers. *)
Definition start (j : Z) : Z := if j =? 0 then 256 else 65536 * j.

Definition pastHashes hs (j : Z) (c : nat) : list Z := (fun i => hashAt hs (start j + 256 * Z.of_nat i)) <$> List.seq 0 c.

Definition pastOk hs (n j : Z) (o : option (SLE (EntryData X))) : Prop :=
  match o with
  | None => n < start j
  | Some e => exists c : nat, e = mkEntry (pastKey j) ltLEDGER_HASHES (LedgerHashes (pastHashes hs j c) (start j + 256 * (Z.of_nat c - 1))) /\
      (1 <= c)%nat /\ start j + 256 * (Z.of_nat c - 1) <= n /\ (n < start j + 256 * Z.of_nat c \/ 65536 * (j + 1) <= start j + 256 * Z.of_nat c)
  end.

(** The last 256 of the ledgers before the last one. *)
Definition recentHashes hs : list Z := let before := take (length hs - 1) hs in drop (length before - 256) before.

Definition recentOk hs (o : option (SLE (EntryData X))) : Prop :=
  if (length hs =? 1)%nat then o = None
  else o = Some (mkEntry recentKey ltLEDGER_HASHES (LedgerHashes (recentHashes hs) (Z.of_nat (length hs) - 1))).

Record chainOk hs l : Prop := {
  ok_length : 1 <= Z.of_nat (length hs) < 2 ^ 32;
  ok_seq : seq l = Z.of_nat (length hs);
  ok_hash : hash l = hashAt hs (seq l);
  ok_parent : 2 <= seq l -> parentHash l = hashAt hs (seq l - 1);
  ok_recent : recentOk hs (stateMap_ (state l) !! recentKey);
  ok_past : forall j, 0 <= j < 65536 -> pastOk hs (seq l - 1) j (stateMap_ (state l) !! pastKey j);
}.

(** ** One record *)

Definition withHashes (key_ : Z) (v : list Z) (last : Z) (s : Ledger (EntryData X)) : Ledger (EntryData X) :=
  mkLedger (<[key_ := mkEntry key_ ltLEDGER_HASHES (LedgerHashes v last)]> (stateMap_ s)) (totalDrops s).

Lemma read_none key_ s : stateMap_ s !! key_ = None -> ledgerRead (mkKeylet ltLEDGER_HASHES key_) s = (None : option (SLE (EntryData X))).
Proof using. intros E. unfold ledgerRead. cbn [k_key]. rewrite E. by destruct (key_ =? 0). Qed.

Lemma read_hashes key_ v last (s : Ledger (EntryData X)) : key_ <> 0 -> stateMap_ s !! key_ = Some (mkEntry key_ ltLEDGER_HASHES (LedgerHashes v last)) ->
  ledgerRead (mkKeylet ltLEDGER_HASHES key_) s = Some (mkEntry key_ ltLEDGER_HASHES (LedgerHashes v last)).
Proof using.
  intros Hk E. unfold ledgerRead. cbn [k_key]. rewrite (proj2 (Z.eqb_neq _ _) Hk), E. unfold checked, check. cbn [k_type k_key getType key].
  by rewrite !Z.eqb_refl.
Qed.

Lemma append_new key_ b prev l : stateMap_ (state l) !! key_ = None ->
  appendHash (mkKeylet ltLEDGER_HASHES key_) b prev l = Ret (setState (withHashes key_ [parentHash l] prev (state l)) l).
Proof using.
  intros E. unfold appendHash. rewrite read_none, Ret_bind by done. cbn [length Nat.eqb]. rewrite andb_false_r. cbn [app k_key k_type].
  unfold ledgerRawInsert. cbn [key]. by rewrite E, Ret_bind.
Qed.

Lemma append_old key_ (b : bool) prev l v last : key_ <> 0 -> stateMap_ (state l) !! key_ = Some (mkEntry key_ ltLEDGER_HASHES (LedgerHashes v last)) ->
  appendHash (mkKeylet ltLEDGER_HASHES key_) b prev l =
    Ret (setState (withHashes key_ ((if b && (length v =? 256)%nat then drop 1 v else v) ++ [parentHash l]) prev (state l)) l).
Proof using.
  intros Hk E. unfold appendHash. rewrite (read_hashes key_ v last) by done. cbn [getHashes data]. rewrite !Ret_bind. cbn [k_key k_type].
  unfold ledgerRawReplace. cbn [key]. by rewrite E, Ret_bind.
Qed.

(** ** A step *)

Lemma hashAt_snoc hs h s : 1 <= s <= Z.of_nat (length hs) -> hashAt (hs ++ [h]) s = hashAt hs s.
Proof using. intros Hs. unfold hashAt. by rewrite lookup_app_l by lia. Qed.

Lemma hashAt_last hs h : hashAt (hs ++ [h]) (Z.of_nat (length hs) + 1) = h.
Proof using. unfold hashAt. rewrite lookup_app_r by lia. by replace (Z.to_nat (Z.of_nat (length hs) + 1 - 1) - length hs)%nat with 0%nat by lia. Qed.

Lemma start_range j : 0 <= j -> 256 <= start j /\ start j mod 256 = 0 /\ 65536 * j <= start j < 65536 * (j + 1) /\ (1 <= j -> start j = 65536 * j).
Proof using.
  intros Hj. unfold start. destruct (Z.eqb_spec j 0) as [->|Hne]; [done|]. split_and!; [lia| |lia|lia|lia].
  replace (65536 * j) with (256 * j * 256) by lia. apply Z_mod_mult.
Qed.

Lemma pastHashes_snoc hs h j c : 0 <= j -> start j + 256 * (Z.of_nat c - 1) <= Z.of_nat (length hs) -> pastHashes (hs ++ [h]) j c = pastHashes hs j c.
Proof using.
  intros Hj Hc. unfold pastHashes. apply list_fmap_ext. intros i x Hi. apply lookup_seq in Hi as [-> Hi]. destruct (start_range j Hj) as [? _].
  apply hashAt_snoc. lia.
Qed.

Lemma pastHashes_S hs j c : pastHashes hs j (S c) = pastHashes hs j c ++ [hashAt hs (start j + 256 * Z.of_nat c)].
Proof using. unfold pastHashes. by rewrite seq_S, fmap_app. Qed.

Lemma shiftr16 n : Z.shiftr n 16 = n / 65536.
Proof using. by rewrite Z.shiftr_div_pow2. Qed.

Lemma land255 n : Z.land n 255 = n mod 256.
Proof using. change 255 with (Z.ones 8). by rewrite Z.land_ones. Qed.

Lemma range_div n j : 65536 * j <= n < 65536 * (j + 1) -> n / 65536 = j.
Proof using. intros H. symmetry. apply (Z.div_unique n 65536 j (n - 65536 * j)); lia. Qed.

(** A record that a step leaves alone. *)
Lemma pastOk_keep hs h n j o : 0 <= j -> Z.of_nat (length hs) = n + 1 -> pastOk hs n j o -> (n + 1) mod 256 <> 0 \/ (n + 1) / 65536 <> j -> pastOk (hs ++ [h]) (n + 1) j o.
Proof using.
  intros Hj Hn Ho Hkeep. destruct (start_range j Hj) as (Hs1 & Hs2 & Hs3 & Hs4). destruct o as [e|]; cbn [pastOk] in *.
  - destruct Ho as (c & -> & Hc & Hle & Hnext). exists c. split_and!; [by rewrite pastHashes_snoc by lia|done|lia|].
    destruct Hnext as [Hnext|]; [|by right]. destruct (decide (n + 1 = start j + 256 * Z.of_nat c)) as [E|]; [|left; lia].
    destruct Hkeep as [Hkeep|Hkeep].
    + exfalso. apply Hkeep. rewrite E. rewrite Z.mul_comm, Z_mod_plus_full. done.
    + right. rewrite <- E. destruct (Z.lt_ge_cases (n + 1) (65536 * (j + 1))) as [Hlt|]; [|lia]. exfalso. apply Hkeep. apply range_div. lia.
  - destruct (decide (n + 1 = start j)) as [E|]; [|lia]. exfalso. destruct Hkeep as [Hkeep|Hkeep]; [apply Hkeep; by rewrite E|].
    apply Hkeep. apply range_div. lia.
Qed.

(** The record that a step extends. *)
Lemma pastOk_new hs h n j o v last : 0 <= j -> Z.of_nat (length hs) = n + 1 -> 0 <= n -> (n + 1) mod 256 = 0 -> (n + 1) / 65536 = j -> pastOk hs n j o ->
  match o with None => v = [] | Some e => data e = LedgerHashes v last end ->
  pastOk (hs ++ [h]) (n + 1) j (Some (mkEntry (pastKey j) ltLEDGER_HASHES (LedgerHashes (v ++ [hashAt hs (n + 1)]) (n + 1)))).
Proof using.
  intros Hj Hn Hn0 Hm Hd Ho Hv. destruct (start_range j Hj) as (Hs1 & Hs2 & Hs3 & Hs4).
  assert (Hr : 65536 * j <= n + 1 < 65536 * (j + 1)) by (subst j; pose proof (Z.div_mod (n + 1) 65536); pose proof (Z.mod_pos_bound (n + 1) 65536); lia).
  pose proof (Z.div_mod (n + 1) 256 ltac:(lia)) as E1. rewrite Hm in E1. pose proof (Z.div_mod (start j) 256 ltac:(lia)) as E2. rewrite Hs2 in E2.
  assert (Hge : start j <= n + 1) by (unfold start in *; destruct (Z.eqb_spec j 0); [|lia]; pose proof (Z.div_pos (n + 1) 256); nia).
  destruct o as [e|]; cbn [pastOk] in *.
  - destruct Ho as (c & -> & Hc & Hle & Hnext). cbn [data] in Hv. injection Hv as <- <-.
    assert (En : n + 1 = start j + 256 * Z.of_nat c) by lia.
    exists (S c). rewrite En. split_and!; [|lia|lia|left; lia].
    rewrite pastHashes_S, pastHashes_snoc by lia. rewrite hashAt_snoc by lia. f_equal. f_equal. lia.
  - subst v. assert (En : n + 1 = start j) by lia. exists 1%nat. rewrite En. split_and!; [|lia|lia|left; lia].
    rewrite pastHashes_S. unfold pastHashes. cbn [List.seq fmap list_fmap app]. rewrite Z.mul_0_r, Z.add_0_r. rewrite hashAt_snoc by lia. f_equal. f_equal. lia.
Qed.

(** The recent hashes. *)
Lemma recentHashes_next hs h : (1 <= length hs)%nat ->
  recentHashes (hs ++ [h]) = (let v := if (length hs =? 1)%nat then [] else recentHashes hs in if (length v =? 256)%nat then drop 1 v else v) ++ [hashAt hs (Z.of_nat (length hs))].
Proof using.
  intros Hl. unfold recentHashes. rewrite length_app. cbn [length]. replace (length hs + 1 - 1)%nat with (length hs) by lia. rewrite take_app_length.
  destruct hs as [|last before _] using rev_ind; [simpl in Hl; lia|]. rewrite length_app in *. cbn [length] in *.
  replace (length before + 1 - 1)%nat with (length before) by lia. rewrite take_app_length.
  replace (Z.of_nat (length before + 1)) with (Z.of_nat (length before) + 1) by lia. rewrite hashAt_last.
  assert (Ev : (if (length before + 1 =? 1)%nat then [] else drop (length before - 256) before) = drop (length before - 256) before).
  { destruct (Nat.eqb_spec (length before + 1) 1) as [E|]; [|done]. by destruct before; [|simpl in E; lia]. }
  cbv zeta. rewrite Ev. rewrite length_drop. destruct (Nat.eqb_spec (length before - (length before - 256)) 256) as [E|E].
  - rewrite drop_drop. rewrite drop_app_le by lia. do 2 f_equal. lia.
  - replace (length before - 256)%nat with 0%nat by lia. replace (length before + 1 - 256)%nat with 0%nat by lia. by rewrite !drop_0.
Qed.

Lemma recent_step hs h l : (1 <= length hs)%nat -> recentOk hs (stateMap_ (state l) !! recentKey) -> parentHash l = hashAt hs (Z.of_nat (length hs)) ->
  appendHash skip true (Z.of_nat (length hs)) l = Ret (setState (withHashes recentKey (recentHashes (hs ++ [h])) (Z.of_nat (length hs)) (state l)) l).
Proof using SL.
  intros Hl Hr Hp. rewrite recentHashes_next by done. unfold recentOk in Hr. cbv zeta. unfold skip. rewrite <- Hp.
  destruct (length hs =? 1)%nat eqn:El.
  - by rewrite append_new.
  - rewrite (append_old _ _ _ _ _ _ recent_nonzero Hr). cbn [andb]. done.
Qed.

Lemma past_step hs h n l : Z.of_nat (length hs) = n + 1 -> 0 <= n < 2 ^ 32 - 1 -> (n + 1) mod 256 = 0 ->
  pastOk hs n ((n + 1) / 65536) (stateMap_ (state l) !! pastKey ((n + 1) / 65536)) -> parentHash l = hashAt hs (n + 1) ->
  exists v, appendHash (skipOf (n + 1)) false (n + 1) l = Ret (setState (withHashes (pastKey ((n + 1) / 65536)) v (n + 1) (state l)) l) /\
    pastOk (hs ++ [h]) (n + 1) ((n + 1) / 65536) (Some (mkEntry (pastKey ((n + 1) / 65536)) ltLEDGER_HASHES (LedgerHashes v (n + 1)))).
Proof using SL.
  intros Hn Hr Hm Ho Hp. set (j := (n + 1) / 65536) in *.
  assert (Hj : 0 <= j < 65536) by (unfold j; split; [apply Z.div_pos; lia|apply Z.div_lt_upper_bound; lia]).
  assert (Ek : skipOf (n + 1) = mkKeylet ltLEDGER_HASHES (pastKey j)) by (unfold skipOf; by rewrite u32_id, shiftr16 by lia). rewrite Ek.
  destruct (stateMap_ (state l) !! pastKey j) as [e|] eqn:E.
  - pose proof Ho as (c & -> & _). eexists. split; [by apply (append_old _ _ _ _ _ _ (past_nonzero j Hj) E)|]. cbn [andb]. rewrite Hp.
    apply (pastOk_new hs h n j _ _ (start j + 256 * (Z.of_nat c - 1)) ltac:(lia) Hn ltac:(lia) Hm eq_refl Ho). done.
  - eexists. split; [by apply append_new|]. rewrite Hp. change [hashAt hs (n + 1)] with ([] ++ [hashAt hs (n + 1)]).
    apply (pastOk_new hs h n j None [] 0 ltac:(lia) Hn ltac:(lia) Hm eq_refl Ho). done.
Qed.

Lemma chain_step hs parent newState newHash : chainOk hs parent -> keepsHashes (state parent) newState -> Z.of_nat (length hs) < 2 ^ 32 - 1 ->
  exists l, buildNext parent newState newHash = Ret l /\ chainOk (hs ++ [newHash]) l.
Proof using SL.
  intros [Hlen Hseq Hhash Hpar Hrec Hpast] [Kr Kp] Hl. unfold buildNext, updateSkipList. cbn [seq]. set (n := seq parent - 1) in *.
  replace (seq parent + 1) with (n + 2) by lia. rewrite (u32_id (n + 2)) by lia. rewrite (proj2 (Z.eqb_neq (n + 2) 0)) by lia.
  replace (n + 2 - 1) with (n + 1) by lia. rewrite (u32_id (n + 1)) by lia. rewrite land255.
  set (L0 := mkChainLedger (n + 2) (hash parent + 1) (hash parent) newState). assert (Hn1 : Z.of_nat (length hs) = n + 1) by lia.
  assert (Hp0 : parentHash L0 = hashAt hs (n + 1)) by (cbn [L0 parentHash]; rewrite Hhash; f_equal; lia).
  assert (Hfinish : forall L1, seq L1 = n + 2 -> parentHash L1 = hashAt hs (n + 1) -> stateMap_ (state L1) !! recentKey = stateMap_ newState !! recentKey ->
    (forall j, 0 <= j < 65536 -> pastOk (hs ++ [newHash]) (n + 1) j (stateMap_ (state L1) !! pastKey j)) ->
    exists l, ((appendHash skip true (n + 1) L1) ≫= fun l => Ret (mkChainLedger (seq l) newHash (parentHash l) (state l))) = Ret l /\ chainOk (hs ++ [newHash]) l).
  { intros L1 Hs1 Hp1 Hr1 Hps1. rewrite <- Hn1. rewrite (recent_step hs newHash L1) by (lia || (by rewrite Hr1, Kr) || (rewrite Hn1; exact Hp1)). rewrite Ret_bind.
    eexists. split; [done|]. constructor; cbn [seq hash parentHash state setState].
    - rewrite length_app. cbn [length]. lia.
    - rewrite length_app, Hs1. cbn [length]. lia.
    - rewrite Hs1. replace (n + 2) with (Z.of_nat (length hs) + 1) by lia. by rewrite hashAt_last.
    - intros _. rewrite Hp1, Hs1. replace (n + 2 - 1) with (n + 1) by lia. by rewrite hashAt_snoc by lia.
    - unfold recentOk. rewrite length_app. cbn [length]. rewrite (proj2 (Nat.eqb_neq _ _)) by lia. cbn [withHashes stateMap_]. rewrite lookup_insert_eq. do 3 f_equal. lia.
    - intros j Hj. cbn [withHashes stateMap_]. rewrite lookup_insert_ne by (intros E; symmetry in E; by apply (past_recent j)). rewrite Hs1. replace (n + 2 - 1) with (n + 1) by lia. by apply Hps1. }
  destruct (Z.eqb_spec ((n + 1) mod 256) 0) as [Hm|Hm].
  - destruct (past_step hs newHash n L0) as (v & -> & Hv); [done|lia|done| |done|].
    { cbn [L0 state]. rewrite Kp; [apply Hpast|]; (split; [apply Z.div_pos; lia|apply Z.div_lt_upper_bound; lia]). }
    rewrite Ret_bind. set (j0 := (n + 1) / 65536) in *. assert (Hj0 : 0 <= j0 < 65536) by (unfold j0; split; [apply Z.div_pos; lia|apply Z.div_lt_upper_bound; lia]).
    apply Hfinish; [done|done| |]; cbn [setState state withHashes stateMap_ L0].
    + rewrite lookup_insert_ne by (by apply past_recent). done.
    + intros j Hj. destruct (decide (j = j0)) as [->|Hne]; [by rewrite lookup_insert_eq|].
      rewrite lookup_insert_ne by (intros E; by apply Hne, past_inj). rewrite Kp by done. apply pastOk_keep; [lia|done|by apply Hpast|by right; fold j0; congruence].
  - rewrite Ret_bind. apply Hfinish; [done|done|done|]. intros j Hj. cbn [L0 state]. rewrite Kp by done. apply pastOk_keep; [lia|done|by apply Hpast|by left].
Qed.

Lemma built_chain hs l : built hs l -> chainOk hs l.
Proof using SL.
  induction 1 as [l Hs Hr Hp|hs parent newState newHash l Hb IH Hk Hl E].
  - constructor; cbn [length]; [lia|lia| |lia| |].
    + rewrite Hs. done.
    + by rewrite Hr.
    + intros j Hj. rewrite Hp by done. cbn [pastOk]. pose proof (start_range j). lia.
  - destruct (chain_step hs parent newState newHash IH Hk Hl) as (l' & E' & Hok). rewrite E in E'. by injection E' as ->.
Qed.

(** ** Reading the records *)

Lemma recent_length hs : length (recentHashes hs) = Nat.min 256 (length hs - 1).
Proof using. unfold recentHashes. rewrite length_drop, length_take. lia. Qed.

Lemma recent_lookup hs d : (1 <= d)%nat -> (d <= length (recentHashes hs))%nat ->
  recentHashes hs !! (length (recentHashes hs) - d)%nat = Some (hashAt hs (Z.of_nat (length hs) - Z.of_nat d)).
Proof using.
  intros Hd Hl. rewrite recent_length in *. unfold recentHashes. rewrite lookup_drop, length_take.
  replace (Nat.min (length hs - 1) (length hs) - 256 + (Nat.min 256 (length hs - 1) - d))%nat with (length hs - 1 - d)%nat by lia.
  rewrite lookup_take_lt by lia. unfold hashAt. replace (Z.to_nat (Z.of_nat (length hs) - Z.of_nat d - 1)) with (length hs - 1 - d)%nat by lia.
  destruct (lookup_lt_is_Some_2 hs (length hs - 1 - d)) as [x ->]; [lia|done].
Qed.

Lemma read_recent hs l : chainOk hs l -> 2 <= seq l ->
  ledgerRead skip (state l) = Some (mkEntry recentKey ltLEDGER_HASHES (LedgerHashes (recentHashes hs) (seq l - 1))).
Proof using SL.
  intros Hok Hs. pose proof (ok_recent _ _ Hok) as Hr. pose proof (ok_seq _ _ Hok) as Eseq. unfold recentOk in Hr. rewrite (proj2 (Nat.eqb_neq _ _)) in Hr by lia.
  rewrite <- Eseq in Hr. by apply read_hashes; [apply recent_nonzero|].
Qed.

Lemma pastHashes_length hs j c : length (pastHashes hs j c) = c.
Proof using. unfold pastHashes. by rewrite length_fmap, length_seq. Qed.

(** The record of every 256th ledger. *)
Lemma read_past hs l s : chainOk hs l -> 1 <= s < seq l -> s mod 256 = 0 ->
  exists c i : nat, let j := s / 65536 in ledgerRead (skipOf s) (state l) = Some (mkEntry (pastKey j) ltLEDGER_HASHES (LedgerHashes (pastHashes hs j c) (start j + 256 * (Z.of_nat c - 1)))) /\
    (i < c)%nat /\ s = start j + 256 * Z.of_nat i /\ start j + 256 * (Z.of_nat c - 1) < 2 ^ 32.
Proof using SL.
  intros Hok Hs Hm. pose proof (ok_seq _ _ Hok) as Eseq. pose proof (ok_length _ _ Hok) as Hlen. set (j := s / 65536).
  assert (Hj : 0 <= j < 65536) by (unfold j; split; [apply Z.div_pos; lia|apply Z.div_lt_upper_bound; lia]).
  pose proof (ok_past _ _ Hok j Hj) as Hp. destruct (start_range j ltac:(lia)) as (Hs1 & Hs2 & Hs3 & Hs4).
  assert (Hr : 65536 * j <= s < 65536 * (j + 1)) by (unfold j; pose proof (Z.div_mod s 65536); pose proof (Z.mod_pos_bound s 65536); lia).
  pose proof (Z.div_mod s 256 ltac:(lia)) as E1. rewrite Hm in E1. pose proof (Z.div_mod (start j) 256 ltac:(lia)) as E2. rewrite Hs2 in E2.
  assert (Hge : start j <= s) by (unfold start in *; destruct (Z.eqb_spec j 0); lia).
  destruct (stateMap_ (state l) !! pastKey j) as [e|] eqn:El; cbn [pastOk] in Hp; [|lia]. destruct Hp as (c & -> & Hc & Hle & Hnext).
  exists c, (Z.to_nat ((s - start j) / 256)). cbv zeta.
  assert (Ei : s = start j + 256 * ((s - start j) / 256)).
  { replace (s - start j) with ((s / 256 - start j / 256) * 256) by lia. rewrite Z_div_mult by lia. lia. }
  assert (Hi : 0 <= (s - start j) / 256 < Z.of_nat c) by (split; [apply Z.div_pos; lia|lia]).
  split_and!; [|lia|lia|lia]. unfold skipOf. rewrite u32_id, shiftr16 by lia. fold j. apply read_hashes; [by apply past_nonzero|done].
Qed.

Lemma hashOfSeq_past hs l s : chainOk hs l -> 1 <= s < seq l -> s mod 256 = 0 ->
  match ledgerRead (skipOf s) (state l) with
  | Some hashIndex =>
      getHashes hashIndex ≫= fun '(vec, lastSeq) =>
      let diff := Z.shiftr (u32 (lastSeq - s)) 8 in
      if diff <? Z.of_nat (length vec) then atIndex vec (Z.of_nat (length vec) - diff - 1) ≫= fun h => Ret (Some h) else Ret None
  | None => Ret None
  end = Ret (Some (hashAt hs s)).
Proof using SL.
  intros Hok Hs Hm. destruct (read_past hs l s Hok Hs Hm) as (c & i & Hrd & Hi & Es & Hlast). cbv zeta in *. set (j := s / 65536) in *. rewrite Hrd. cbn [getHashes data].
  rewrite Ret_bind. destruct (start_range j ltac:(apply Z.div_pos; lia)) as (Hs1 & _). rewrite u32_id by lia.
  replace (start j + 256 * (Z.of_nat c - 1) - s) with ((Z.of_nat c - 1 - Z.of_nat i) * 256) by lia.
  rewrite Z.shiftr_div_pow2 by lia. change (2 ^ 8) with 256. rewrite Z_div_mult by lia. rewrite pastHashes_length, (proj2 (Z.ltb_lt _ _)) by lia. unfold atIndex.
  replace (Z.to_nat (Z.of_nat c - (Z.of_nat c - 1 - Z.of_nat i) - 1)) with i by lia. unfold pastHashes. rewrite list_lookup_fmap, lookup_seq_lt by done.
  cbn [fmap option_fmap option_map require]. rewrite Ret_bind. by rewrite Nat.add_0_l, <- Es.
Qed.

Lemma i32_small z : 0 <= z < 2 ^ 31 -> i32 z = z.
Proof using. intros Hz. unfold i32. rewrite u32_id by lia. by rewrite (proj2 (Z.ltb_lt _ _)) by lia. Qed.

Lemma i32_large z : 2 ^ 31 <= z < 2 ^ 32 -> i32 z = z - 2 ^ 32.
Proof using. intros Hz. unfold i32. rewrite u32_id by lia. by rewrite (proj2 (Z.ltb_ge _ _)) by lia. Qed.

Lemma hashOfSeq_recent hs l s : chainOk hs l -> 1 <= s -> s < seq l - 1 ->
  (let diff := i32 (seq l - s) in
   if diff <=? 256 then
     match ledgerRead skip (state l) with
     | Some hashIndex =>
         getHashes hashIndex ≫= fun '(vec, _) =>
         if u64 diff <=? Z.of_nat (length vec) then atIndex vec (Z.of_nat (length vec) - diff) ≫= fun h => Ret (Some h) else Ret None
     | None => Ret None
     end
   else Ret None) = Ret (if seq l - s <=? 256 then Some (hashAt hs s) else None).
Proof using SL.
  intros Hok Hs1 Hs. pose proof (ok_seq _ _ Hok) as Eseq. pose proof (ok_length _ _ Hok) as Hlen. cbv zeta.
  rewrite (read_recent hs l Hok) by lia. cbn [getHashes data]. rewrite Ret_bind. pose proof (recent_length hs) as Hrl.
  destruct (Z.lt_ge_cases (seq l - s) (2 ^ 31)) as [Hd|Hd].
  - rewrite i32_small by lia. destruct (Z.leb_spec (seq l - s) 256) as [Hle|Hgt]; [|done]. rewrite u64_id by lia. rewrite (proj2 (Z.leb_le _ _)) by lia. unfold atIndex.
    replace (Z.to_nat (Z.of_nat (length (recentHashes hs)) - (seq l - s))) with (length (recentHashes hs) - Z.to_nat (seq l - s))%nat by lia.
    rewrite recent_lookup by lia. cbn [require]. rewrite Ret_bind. do 3 f_equal. lia.
  - rewrite i32_large by lia. rewrite (proj2 (Z.leb_le _ 256)) by lia. unfold u64. rewrite <- (Z_mod_plus_full _ 1), Z.mod_small by lia.
    rewrite (proj2 (Z.leb_gt _ _)) by lia. by rewrite (proj2 (Z.leb_gt _ _)) by lia.
Qed.

Definition reachable (l : ChainLedger X) (s : Z) : bool := (s <=? seq l) && ((seq l - s <=? 256) || (s mod 256 =? 0)).

Lemma hashOfSeq_chain hs l s : chainOk hs l -> 1 <= s -> hashOfSeq l s = Ret (if reachable l s then Some (hashAt hs s) else None).
Proof using SL.
  intros Hok Hs. pose proof (ok_seq _ _ Hok) as Eseq. pose proof (ok_length _ _ Hok) as Hlen. unfold hashOfSeq, reachable.
  destruct (Z.ltb_spec (seq l) s) as [Hlt|Hge]; [by rewrite (proj2 (Z.leb_gt _ _)) by lia|].
  rewrite (proj2 (Z.leb_le s (seq l))) by lia. cbn [andb]. destruct (Z.eqb_spec s (seq l)) as [->|Hne].
  { rewrite Z.sub_diag. cbn [orb Z.leb Z.compare]. by rewrite <- (ok_hash _ _ Hok). }
  rewrite u32_id by lia. destruct (Z.eqb_spec s (seq l - 1)) as [E|Hne'].
  { rewrite (proj2 (Z.leb_le (seq l - s) 256)) by lia. cbn [orb]. rewrite (ok_parent _ _ Hok) by lia. by rewrite E. }
  pose proof (hashOfSeq_recent hs l s Hok ltac:(lia) ltac:(lia)) as Hrec. cbv zeta in Hrec |- *. rewrite Hrec, Ret_bind.
  destruct (seq l - s <=? 256); [done|]. cbn [orb]. rewrite land255.
  destruct (Z.eqb_spec (s mod 256) 0) as [Hm|Hm]; cbn [negb]; [|done]. apply (hashOfSeq_past hs l s Hok); [lia|done].
Qed.

Lemma hashAt_prefix hs1 hs2 s : hs1 `prefix_of` hs2 -> 1 <= s <= Z.of_nat (length hs1) -> hashAt hs2 s = hashAt hs1 s.
Proof using. intros [r ->] Hs. unfold hashAt. by rewrite lookup_app_l by lia. Qed.

(** The answer for two ledgers, the first not after the second. *)
Lemma compatible_before hs1 hs2 l1 l2 : chainOk hs1 l1 -> chainOk hs2 l2 -> seq l1 < seq l2 ->
  exists h, hashOfSeq l2 (seq l1) = Ret h /\ (hs1 `prefix_of` hs2 -> forall x, h = Some x -> x = hash l1) /\ (seq l2 - seq l1 <= 256 -> h = Some (hashAt hs2 (seq l1))).
Proof using SL.
  intros H1 H2 Hlt. pose proof (ok_seq _ _ H1) as E1. pose proof (ok_length _ _ H1) as L1. rewrite (hashOfSeq_chain hs2 l2 (seq l1) H2) by lia.
  eexists. split; [done|]. split.
  - intros Hp x. destruct (reachable l2 (seq l1)); [|done]. intros [= <-]. rewrite (hashAt_prefix hs1 hs2) by (done || lia). by rewrite <- (ok_hash _ _ H1).
  - intros Hd. unfold reachable. by rewrite (proj2 (Z.leb_le _ _)), (proj2 (Z.leb_le _ _)) by lia.
Qed.

End Chain.

(** The skip lists name the ancestors.  Whatever is done to the other entries of the
    state on a chain of ledgers from the first one on, [hashOfSeq] of the last ledger
    gives the hash of the ledger with the number asked for when that is one of the
    last 256 or a multiple of 256, and nothing otherwise; building the next ledger
    never throws. *)
Theorem skip_lists_name_ancestors {X} {SK : SkipKeys} {SL : SkipLaws SK} hs (l : ChainLedger X) : built hs l ->
  (forall s, 1 <= s -> hashOfSeq l s = Ret (if (s <=? seq l) && ((seq l - s <=? 256) || (s mod 256 =? 0)) then Some (hashAt hs s) else None)) /\
  (forall newState newHash, keepsHashes (state l) newState -> seq l < 2 ^ 32 - 1 -> exists l', buildNext l newState newHash = Ret l').
Proof.
  intros Hb%built_chain. pose proof (ok_seq _ _ Hb). split; [intros s Hs; by apply hashOfSeq_chain|].
  intros newState newHash Hk Hl. destruct (chain_step hs l newState newHash Hb Hk) as (l' & E & _); [lia|]. by exists l'.
Qed.

(** [areCompatible] refuses only ledgers that cannot be on one chain: for two ledgers
    one of which is an ancestor of the other it answers true.  When they are at most
    256 ledgers apart, the answer true means that the later one has the earlier one
    (its hash) as its ancestor. *)
Theorem compatible_ledgers {X} {SK : SkipKeys} {SL : SkipLaws SK} hs1 hs2 (valid test : ChainLedger X) : built hs1 valid -> built hs2 test ->
  exists b, areCompatible valid test = Ret b /\
    (hs1 `prefix_of` hs2 \/ hs2 `prefix_of` hs1 -> b = true) /\
    (b = true -> Z.abs (seq valid - seq test) <= 256 ->
      if seq valid <=? seq test then hashAt hs2 (seq valid) = hash valid else hashAt hs1 (seq test) = hash test).
Proof.
  intros H1%built_chain H2%built_chain. pose proof (ok_seq _ _ H1) as E1. pose proof (ok_seq _ _ H2) as E2. unfold areCompatible. cbv zeta.
  destruct (Z.ltb_spec (seq valid) (seq test)) as [Hlt|Hge]; [|destruct (Z.ltb_spec (seq test) (seq valid)) as [Hlt|Hge']].
  - destruct (compatible_before hs1 hs2 valid test H1 H2 Hlt) as (h & -> & Hp & Hd). rewrite Ret_bind. eexists. split; [done|]. split.
    + intros [Hpre|Hpre]; [|apply prefix_length in Hpre; lia]. destruct h as [x|]; [|done]. by rewrite (Hp Hpre x eq_refl), Z.eqb_refl.
    + intros Hb Habs. rewrite (Hd ltac:(lia)), negb_involutive in Hb. rewrite (proj2 (Z.leb_le _ _)) by lia. by apply Z.eqb_eq.
  - destruct (compatible_before hs2 hs1 test valid H2 H1 Hlt) as (h & -> & Hp & Hd). rewrite Ret_bind. eexists. split; [done|]. split.
    + intros [Hpre|Hpre]; [apply prefix_length in Hpre; lia|]. destruct h as [x|]; [|done]. by rewrite (Hp Hpre x eq_refl), Z.eqb_refl.
    + intros Hb Habs. rewrite (Hd ltac:(lia)), negb_involutive in Hb. rewrite (proj2 (Z.leb_gt _ _)) by lia. by apply Z.eqb_eq.
  - eexists. split; [done|]. split.
    + intros Hpre. assert (hs1 = hs2) as -> by (destruct Hpre as [Hpre|Hpre]; [|symmetry]; (apply prefix_length_eq; [done|lia])).
      rewrite (ok_hash _ _ H1), (ok_hash _ _ H2). replace (seq test) with (seq valid) by lia. apply Z.eqb_refl.
    + intros Hb%Z.eqb_eq _. rewrite (proj2 (Z.leb_le _ _)) by lia. rewrite Hb, (ok_hash _ _ H2). f_equal. lia.
Qed.

(** The ledgers the trie works with know their recent ancestors: for a ledger of a chain
    the constructor of [RCLValidatedLedger] never throws, and its [operator[]] gives
    the hash of each ancestor from [minSeq] on, which is the first ledger or the one
    256 before. *)
Theorem validated_ledger_ancestry {X} {SK : SkipKeys} {SL : SkipLaws SK} hs (l : ChainLedger X) : built hs l ->
  exists v, validated l = Ret v /\ minSeq v = Z.max 1 (seq l - 256) /\ forall s, minSeq v <= s <= seq l -> ancestor v s = hashAt hs s.
Proof.
  intros Hok%built_chain. pose proof (ok_seq _ _ Hok) as Eseq. pose proof (ok_length _ _ Hok) as Hlen. unfold validated.
  destruct (decide (seq l = 1)) as [E1|E1].
  - pose proof (ok_recent _ _ Hok) as Hr. unfold recentOk in Hr. rewrite (proj2 (Nat.eqb_eq _ _)) in Hr by lia. unfold skip. rewrite read_none by done.
    eexists. split; [done|]. unfold minSeq, ancestor, validatedLedger. cbn [ancestors_ ledgerSeq_ ledgerID_ default length]. unfold minSeq. cbn [ancestors_ ledgerSeq_ length]. rewrite E1.
    change (1 - Z.min 1 (u32 (Z.of_nat 0))) with 1. split; [done|]. intros s Hs. assert (s = 1) as -> by lia. cbn [Z.leb Z.compare Pos.compare Pos.compare_cont andb Z.eqb Pos.eqb].
    rewrite (ok_hash _ _ Hok). by rewrite E1.
  - rewrite (read_recent hs l Hok) by lia. cbn [getHashes data]. rewrite Ret_bind. eexists. split; [done|].
    unfold minSeq, ancestor, validatedLedger. cbn [ancestors_ ledgerSeq_ ledgerID_ from_option id]. unfold minSeq. cbn [ancestors_ ledgerSeq_].
    pose proof (recent_length hs) as Hrl. rewrite u32_id by lia. split; [lia|]. intros s Hs. rewrite (proj2 (Z.leb_le _ s)), (proj2 (Z.leb_le s _)) by lia. cbn [andb].
    destruct (Z.eqb_spec s (seq l)) as [->|Hne]; [by apply (ok_hash _ _ Hok)|].
    replace (Z.to_nat (Z.of_nat (length (recentHashes hs)) - (seq l - s))) with (length (recentHashes hs) - Z.to_nat (seq l - s))%nat by lia.
    rewrite recent_lookup by lia. cbn [from_option id]. f_equal. lia.
Qed.

(** ** A sample chain *)

Module SampleChain.

#[export] Instance sampleKeys : SkipKeys := {| recentKey := 1; pastKey := fun j => 2 + j |}.

#[export] Instance sampleLaws : SkipLaws sampleKeys.
Proof. constructor; cbn; intros; lia. Qed.

Definition first : ChainLedger unit := mkChainLedger 1 100 0 (mkLedger ∅ 0).

Definition next (l : ChainLedger unit) : ChainLedger unit := match buildNext l (state l) (hash l + 1) with Ret l => l | Throw _ => l end.

Fixpoint steps (n : nat) : ChainLedger unit := match n with O => first | S n => next (steps n) end.

Definition chainHashes (n : nat) : list Z := map (fun i => 100 + Z.of_nat i) (List.seq 0 (S n)).

Lemma steps_built n : Z.of_nat n < 2 ^ 31 -> built (chainHashes n) (steps n) /\ hash (steps n) = 100 + Z.of_nat n.
Proof.
  induction n as [|n IH]; intros Hn; [split; [|done]; by apply (built_genesis first)|]. destruct IH as [Hb Hh]; [lia|].
  pose proof (built_chain _ _ Hb) as Hok. assert (Hl : length (chainHashes n) = S n) by (unfold chainHashes; by rewrite length_map, length_seq).
  destruct (chain_step _ _ (state (steps n)) (hash (steps n) + 1) Hok ltac:(by split) ltac:(rewrite Hl; lia)) as (l & E & _).
  cbn [steps]. unfold next. rewrite E. assert (Hhl : hash l = hash (steps n) + 1).
  { unfold buildNext in E. destruct (updateSkipList _); [done|]. rewrite Ret_bind in E. by injection E as <-. }
  split; [|rewrite Hhl, Hh; lia]. replace (chainHashes (S n)) with (chainHashes n ++ [hash (steps n) + 1]).
  - eapply built_next; [exact Hb|by split|rewrite Hl; lia|exact E].
  - unfold chainHashes. rewrite (seq_S (S n)), map_app. cbn [map]. rewrite Hh. do 2 f_equal. lia.
Qed.

Lemma steps_seq n : Z.of_nat n < 2 ^ 31 -> seq (steps n) = Z.of_nat n + 1.
Proof.
  intros Hn. destruct (steps_built n Hn) as [Hb _]. rewrite (ok_seq _ _ (built_chain _ _ Hb)). unfold chainHashes. rewrite length_map, length_seq. lia.
Qed.

End SampleChain.
Import SampleChain.

Lemma skip_lists_name_ancestors_witness : hashOfSeq (steps 599) 512 = Ret (Some 611) /\ hashOfSeq (steps 599) 256 = Ret (Some 355) /\ hashOfSeq (steps 599) 300 = Ret None.
Proof.
  destruct (skip_lists_name_ancestors (chainHashes 599) (steps 599) (proj1 (steps_built 599 ltac:(lia)))) as [H _].
  rewrite (H 512), (H 256), (H 300) by lia. rewrite (steps_seq 599) by lia. vm_compute. repeat split.
Defined.

Lemma compatible_ledgers_witness : areCompatible (steps 2) (steps 5) = Ret true.
Proof.
  destruct (compatible_ledgers (chainHashes 2) (chainHashes 5) (steps 2) (steps 5) (proj1 (steps_built 2 ltac:(lia))) (proj1 (steps_built 5 ltac:(lia)))) as (b & E & Hb & _).
  rewrite E, Hb; [reflexivity|]. left. exists [103; 104; 105]. reflexivity.
Defined.

Lemma validated_ledger_ancestry_witness : exists v, validated (steps 299) = Ret v /\ ancestor v 44 = 143 /\ ancestor v 300 = 399.
Proof.
  destruct (validated_ledger_ancestry (chainHashes 299) (steps 299) (proj1 (steps_built 299 ltac:(lia)))) as (v & E & Hm & Ha). rewrite (steps_seq 299) in Hm, Ha by lia.
  exists v. split; [exact E|]. rewrite !Ha by lia. vm_compute. repeat split.
Defined.
