(* ===== verification/LedgerTree.v ===== *)
(** * Ledgers as trees

    The header of a ledger ([src/libxrpl/protocol/LedgerHeader.cpp]), its hash,
    and the functions of [src/xrpld/app/ledger/Ledger.cpp] that read and change
    the state through a [SHAMap].  [LedgerViews] has the state as a finite map;
    the file shows that the trees implement it, and what the hash of a ledger
    binds.  The bytes of an entry ([SLE::add] and its constructor, modelled in
    [Messages]) are arguments. *)

From stdpp Require Import strings sorting.
From S2P Require Import Prelude Outcome Serializer SerializerFacts STAccess LedgerViews LedgerViewsFacts SHAMap SHAMapFacts SHAMapProperties.

(** ** Headers *)

Record LedgerHeader := mkHeader {
  seq : Z; drops : Z; parentHash : Blob; txHash : Blob; accountHash : Blob;
  parentCloseTime : Z; closeTime : Z; closeTimeResolution : Z; closeFlags : Z; hash : Blob;
}.

Definition addRaw (info : LedgerHeader) (includeHash : bool) (s : Blob) : Blob :=
  let s := (add32 (seq info) s).2 in
  let s := (add64 (drops info) s).2 in
  let s := (addBitString (parentHash info) s).2 in
  let s := (addBitString (txHash info) s).2 in
  let s := (addBitString (accountHash info) s).2 in
  let s := (add32 (parentCloseTime info) s).2 in
  let s := (add32 (closeTime info) s).2 in
  let s := (add8 (closeTimeResolution info) s).2 in
  let s := (add8 (closeFlags info) s).2 in
  if includeHash then (addBitString (hash info) s).2 else s.

(** A [std::uint64_t] as an [XRPAmount]. *)
Definition i64 (z : Z) : Z := if z <? 2 ^ 63 then z else z - 2 ^ 64.

Definition deserializeHeader (data : Blob) (hasHash : bool) : outcome LedgerHeader :=
  (get32 ≫= fun seq =>
   get64 ≫= fun drops =>
   getBitString 32 ≫= fun parentHash =>
   getBitString 32 ≫= fun txHash =>
   getBitString 32 ≫= fun accountHash =>
   get32 ≫= fun parentCloseTime =>
   get32 ≫= fun closeTime =>
   get8 ≫= fun closeTimeResolution =>
   get8 ≫= fun closeFlags =>
   (if hasHash then getBitString 32 else mret zeroHash) ≫= fun hash =>
   mret (mkHeader seq (i64 drops) parentHash txHash accountHash parentCloseTime closeTime closeTimeResolution closeFlags hash))
    (newSerialIter data) ≫= fun '(header, _) => Ret header.

Definition deserializePrefixedHeader (data : Blob) (hasHash : bool) : outcome LedgerHeader := deserializeHeader (drop 4 data) hasHash.

Definition sLCF_NoConsensusTime : Z := 1.

Definition getCloseAgree (info : LedgerHeader) : bool := Z.land (closeFlags info) sLCF_NoConsensusTime =? 0.

Definition hpLedgerMaster : Z := make_hash_prefix 76 87 82.

(** The bytes hashed for a ledger. *)
Definition ledgerBytes (info : LedgerHeader) : Blob :=
  bigEndian 4 hpLedgerMaster ++ bigEndian 4 (seq info) ++ bigEndian 8 (drops info) ++ parentHash info ++ txHash info ++ accountHash info ++
  bigEndian 4 (parentCloseTime info) ++ bigEndian 4 (closeTime info) ++ bigEndian 1 (closeTimeResolution info) ++ bigEndian 1 (closeFlags info).

(** ** Ledgers *)

Record TreeLedger := mkTreeLedger { info_ : LedgerHeader; stateTree : SHAMapTreeNode; txTree : SHAMapTreeNode; mImmutable : bool }.

Section Ledgers.
Context (sha512Half : Blob -> Blob) {D : Type} (encode : SLE D -> Blob) (decode : Blob -> Z -> outcome (SLE D)).
Abbreviation SLE := (SLE D).

Definition calculateLedgerHash (info : LedgerHeader) : Blob := sha512Half (ledgerBytes info).

Definition setState (t : SHAMapTreeNode) (l : TreeLedger) : TreeLedger := mkTreeLedger (info_ l) t (txTree l) (mImmutable l).

Definition make_item (sle : SLE) : SHAMapItem := mkItem (key sle) (encode sle).

Definition ledgerExists (k : Keylet) (l : TreeLedger) : outcome bool := hasItem (k_key k) (stateTree l).

Definition ledgerSucc (key_ : Z) (last : option Z) (l : TreeLedger) : outcome (option Z) :=
  SHAMap.upper_bound key_ (stateTree l) ≫= fun '(leaf, _) =>
  Ret (match leaf with
       | None => None
       | Some (_, item) => match last with Some last => if last <=? tag_ item then None else Some (tag_ item) | None => Some (tag_ item) end
       end).

Definition ledgerRead (k : Keylet) (l : TreeLedger) : outcome (option SLE) :=
  if k_key k =? 0 then Ret None
  else
    peekItem (k_key k) (stateTree l) ≫= fun item =>
    match item with
    | None => Ret None
    | Some item => decode (slice item) (tag_ item) ≫= fun sle => Ret (if check k sle then Some sle else None)
    end.

(** The iterators [slesBegin] and [slesUpperBound] to the end; [fuel] is for the
    items. *)
Definition ledgerSles (fuel : nat) (from : option Z) (l : TreeLedger) : outcome (list SLE) :=
  (match from with Some k => SHAMap.upper_bound k (stateTree l) | None => peekFirstItem (stateTree l) end) ≫= fun '(leaf, stack) =>
  iterate fuel leaf stack ≫= fun items =>
  foldr (fun item r => decode (slice item) (tag_ item) ≫= fun sle => r ≫= fun l => Ret (sle :: l)) (Ret []) items.

Definition ledgerRawErase (sle : SLE) (l : TreeLedger) : outcome TreeLedger :=
  delItem (key sle) (stateTree l) ≫= fun '(ok, t) =>
  if (ok : bool) then Ret (setState t l) else Throw "Ledger::rawErase: key not found".

Definition ledgerRawInsert (sle : SLE) (l : TreeLedger) : outcome TreeLedger :=
  addGiveItem tnACCOUNT_STATE (make_item sle) (stateTree l) ≫= fun '(ok, t) =>
  if (ok : bool) then Ret (setState t l) else Throw "Ledger::rawInsert: key already exists".

Definition ledgerRawReplace (sle : SLE) (l : TreeLedger) : outcome TreeLedger :=
  updateGiveItem sha512Half tnACCOUNT_STATE (make_item sle) (stateTree l) ≫= fun '(ok, t) =>
  if (ok : bool) then Ret (setState t l) else Throw "Ledger::rawReplace: key not found".

(** [rawTxInsert] and [rawTxInsertWithHash], which also gives the hash of the
    item. *)
Definition txItem (key_ : Z) (txn metaData : Blob) : outcome SHAMapItem :=
  addVL txn [] ≫= fun '(_, s) => addVL metaData s ≫= fun '(_, s) => Ret (mkItem key_ s).

Definition rawTxInsert (key_ : Z) (txn metaData : Blob) (l : TreeLedger) : outcome TreeLedger :=
  txItem key_ txn metaData ≫= fun item =>
  addGiveItem tnTRANSACTION_MD item (txTree l) ≫= fun '(ok, t) =>
  if (ok : bool) then Ret (mkTreeLedger (info_ l) (stateTree l) t (mImmutable l)) else Throw "duplicate_tx".

Definition rawTxInsertWithHash (key_ : Z) (txn metaData : Blob) (l : TreeLedger) : outcome (Blob * TreeLedger) :=
  txItem key_ txn metaData ≫= fun item =>
  addGiveItem tnTRANSACTION_MD item (txTree l) ≫= fun '(ok, t) =>
  if (ok : bool) then Ret (sha512Half (leafBytes tnTRANSACTION_MD item), mkTreeLedger (info_ l) (stateTree l) t (mImmutable l)) else Throw "duplicate_tx".

(** [setup], which reads the fees of the ledger at the end, is in [FeeVote]. *)
Definition setImmutable (rehash : bool) (l : TreeLedger) : TreeLedger :=
  let i := info_ l in
  let i :=
    if negb (mImmutable l) && rehash then
      mkHeader (seq i) (drops i) (parentHash i) (getHash sha512Half (txTree l)) (getHash sha512Half (stateTree l))
        (parentCloseTime i) (closeTime i) (closeTimeResolution i) (closeFlags i) (hash i)
    else i in
  let i :=
    if rehash then
      mkHeader (seq i) (drops i) (parentHash i) (txHash i) (accountHash i)
        (parentCloseTime i) (closeTime i) (closeTimeResolution i) (closeFlags i) (calculateLedgerHash i)
    else i in
  mkTreeLedger i (stateTree l) (txTree l) true.

Definition setAccepted (time resolution : Z) (correctCloseTime : bool) (l : TreeLedger) : TreeLedger :=
  let i := info_ l in
  setImmutable true (mkTreeLedger (mkHeader (seq i) (drops i) (parentHash i) (txHash i) (accountHash i) (parentCloseTime i) time resolution
    (if correctCloseTime then 0 else sLCF_NoConsensusTime) (hash i)) (stateTree l) (txTree l) (mImmutable l)).

End Ledgers.

(** ** Headers are read back *)

Record header_ok (h : LedgerHeader) : Prop := {
  h_seq : 0 <= seq h < 2 ^ 32;
  h_drops : 0 <= drops h < 2 ^ 63;
  h_parentHash : length (parentHash h) = 32%nat;
  h_txHash : length (txHash h) = 32%nat;
  h_accountHash : length (accountHash h) = 32%nat;
  h_parentCloseTime : 0 <= parentCloseTime h < 2 ^ 32;
  h_closeTime : 0 <= closeTime h < 2 ^ 32;
  h_resolution : is_byte (closeTimeResolution h);
  h_flags : is_byte (closeFlags h);
  h_hash : length (hash h) = 32%nat;
}.

(** The fields of a header, as bytes. *)
Definition headerBytes (h : LedgerHeader) : Blob :=
  bigEndian 4 (seq h) ++ bigEndian 8 (drops h) ++ parentHash h ++ txHash h ++ accountHash h ++
  bigEndian 4 (parentCloseTime h) ++ bigEndian 4 (closeTime h) ++ bigEndian 1 (closeTimeResolution h) ++ bigEndian 1 (closeFlags h).

Lemma add8_bigEndian i s : add8 i s = Serializer.addRaw (bigEndian 1 i) s.
Proof. unfold add8. cbn [bigEndian]. rewrite Z.shiftr_0_r. done. Qed.

Lemma addRaw_bytes h (b : bool) s : addRaw h b s = s ++ headerBytes h ++ (if b then hash h else []).
Proof.
  unfold addRaw, headerBytes. cbv zeta. rewrite !add32_bigEndian, add64_bigEndian, !add8_bigEndian. unfold addBitString, Serializer.addRaw. cbn [snd].
  destruct b; cbn [snd]; rewrite ?app_nil_r, <- !app_assoc; done.
Qed.

Lemma reads_get32_be i : 0 <= i < 2 ^ 32 -> reads get32 (bigEndian 4 i) i.
Proof. intros Hi. exact (reads_number _ 4 _ i number32 Hi). Qed.

Lemma reads_get64_be i : 0 <= i < 2 ^ 64 -> reads get64 (bigEndian 8 i) i.
Proof. intros Hi. exact (reads_number _ 8 _ i number64 Hi). Qed.

Lemma reads_get8_be i : is_byte i -> reads get8 (bigEndian 1 i) i.
Proof.
  intros Hi. replace (bigEndian 1 i) with [i]; [by apply reads_get8|]. cbn [bigEndian]. rewrite Z.shiftr_0_r. unfold u8, is_byte in *. by rewrite Z.mod_small.
Qed.

Lemma reads_bits32 bs : length bs = 32%nat -> reads (getBitString 32) bs bs.
Proof. intros Hl. apply reads_advance. unfold lengthZ. by rewrite Hl. Qed.

Lemma header_reads h (b : bool) : header_ok h ->
  deserializeHeader (addRaw h b []) b = Ret (mkHeader (seq h) (drops h) (parentHash h) (txHash h) (accountHash h) (parentCloseTime h) (closeTime h)
    (closeTimeResolution h) (closeFlags h) (if b then hash h else zeroHash)).
Proof.
  intros []. unfold deserializeHeader. rewrite addRaw_bytes. cbn [app]. unfold headerBytes. rewrite <- !app_assoc.
  match goal with |- (?m (newSerialIter ?data) ≫= _) = Ret ?res => assert (Hr : reads m data res) end.
  2: { specialize (Hr [] []). rewrite app_nil_r in Hr. unfold newSerialIter. rewrite Hr. by rewrite Ret_bind. }
  eapply reads_bind; [by apply reads_get32_be|]. eapply reads_bind; [apply reads_get64_be; lia|]. eapply reads_bind; [by apply reads_bits32|].
  eapply reads_bind; [by apply reads_bits32|]. eapply reads_bind; [by apply reads_bits32|]. eapply reads_bind; [by apply reads_get32_be|].
  eapply reads_bind; [by apply reads_get32_be|]. eapply reads_bind; [by apply reads_get8_be|]. eapply reads_bind; [by apply reads_get8_be|].
  unfold i64. rewrite (proj2 (Z.ltb_lt _ _)) by lia. destruct b.
  - rewrite <- (app_nil_r (hash h)) at 1. eapply reads_bind; [by apply reads_bits32|apply reads_ret].
  - change (@nil Z) with ([] ++ @nil Z). eapply reads_bind; [apply reads_ret|apply reads_ret].
Qed.

(** ** Trees implement the finite map *)

Section Refinement.
Context (sha : Blob -> Blob) {D : Type} (encode : SLE D -> Blob) (decode : Blob -> Z -> outcome (SLE D)).
Abbreviation SLE := (SLE D).
Abbreviation T := tnACCOUNT_STATE.

(** An entry that is read back from its bytes. *)
Definition entryOk (sle : SLE) : Prop := key_ok (key sle) /\ decode (encode sle) (key sle) = Ret sle.

Record implements (tl : TreeLedger) (l : Ledger D) : Prop := {
  i_root : root_ok T (stateTree tl);
  i_items : contents (stateTree tl) = make_item encode <$> stateMap_ l;
  i_entries : forall k sle, stateMap_ l !! k = Some sle -> key sle = k /\ entryOk sle;
}.

Lemma implements_find tl l k : implements tl l -> findKey k (stateTree tl) = Ret ((fun sle => (T, make_item encode sle)) <$> stateMap_ l !! k).
Proof. intros [Hr Hi _]. rewrite (find_contents T) by done. rewrite Hi, lookup_fmap. by destruct (stateMap_ l !! k). Qed.

Lemma implements_exists tl l k : implements tl l -> ledgerExists k tl = Ret (LedgerViews.ledgerExists k l).
Proof.
  intros Him. unfold ledgerExists, hasItem. rewrite (implements_find tl l) by done. rewrite Ret_bind. unfold LedgerViews.ledgerExists.
  by destruct (stateMap_ l !! k_key k).
Qed.

Lemma implements_read tl l k : implements tl l -> ledgerRead decode k tl = Ret (LedgerViews.ledgerRead k l).
Proof.
  intros Him. unfold ledgerRead, LedgerViews.ledgerRead. destruct (k_key k =? 0); [done|]. unfold peekItem. rewrite (implements_find tl l) by done. rewrite !Ret_bind.
  destruct (stateMap_ l !! k_key k) as [sle|] eqn:E; [|done]. destruct (i_entries _ _ Him _ _ E) as [_ [_ Hd]]. cbn [fmap option_fmap option_map make_item slice tag_].
  by rewrite Hd, Ret_bind.
Qed.

(** The items of the tree in the order of the map. *)
Lemma implements_items tl l : implements tl l -> flatten (stateTree tl) = (fun x => make_item encode x.2) <$> inOrder (stateMap_ l).
Proof.
  intros Him. pose proof Him as [Hr Hi He]. apply (sorted_unique tag_); [by eapply root_sorted| |].
  - assert (Hk : forall x, x ∈ inOrder (stateMap_ l) -> key x.2 = x.1) by (intros [k sle] Hx; apply elem_of_inOrder in Hx; by apply (He k sle)).
    pose proof (inOrder_sorted (stateMap_ l)) as Hs. revert Hk. induction Hs as [|x r Hs IH Hf]; intros Hk; [constructor|]. rewrite fmap_cons. constructor.
    + apply IH. intros y Hy. apply Hk. by right.
    + apply Forall_forall. intros y (z & -> & Hz)%list_elem_of_fmap. rewrite Forall_forall in Hf. specialize (Hf z Hz). unfold keyBefore in Hf. cbn [make_item tag_].
      rewrite (Hk x) by (by left). by rewrite (Hk z) by (by right).
  - intros it. pose proof (contents_lookup T (stateTree tl) (tag_ it) it Hr) as Hc. rewrite Hi, lookup_fmap, fmap_Some in Hc. rewrite list_elem_of_fmap. split.
    + intros Hit. destruct (proj2 Hc (conj Hit eq_refl)) as (sle & Hl & ->). exists (tag_ (make_item encode sle), sle). split; [done|]. by apply elem_of_inOrder.
    + intros ([k sle] & -> & Hx). apply elem_of_inOrder in Hx. cbn [snd] in *. destruct (He k sle Hx) as [<- _]. apply Hc. by exists sle.
Qed.

Lemma behind_items key_ (m : list (Z * SLE)) : (forall x, x ∈ m -> key x.2 = x.1) ->
  filter (fun it => key_ < tag_ it) ((fun x => make_item encode x.2) <$> m) = (fun x => make_item encode x.2) <$> LedgerViews.upper_bound key_ m.
Proof.
  induction m as [|x m IH]; intros Hk; [done|]. rewrite fmap_cons. unfold LedgerViews.upper_bound. cbn [List.filter].
  destruct (Z.ltb_spec key_ x.1) as [Hlt|Hge].
  - rewrite filter_cons_True by (cbn [make_item tag_]; rewrite Hk; [done|by left]). rewrite fmap_cons, IH; [done|]. intros y Hy. apply Hk. by right.
  - rewrite filter_cons_False by (cbn [make_item tag_]; rewrite Hk; [lia|by left]). apply IH. intros y Hy. apply Hk. by right.
Qed.

Lemma order_keys tl l : implements tl l -> forall x, x ∈ inOrder (stateMap_ l) -> key x.2 = x.1.
Proof. intros [_ _ He] [k sle] Hx. apply elem_of_inOrder in Hx. by apply (He k sle). Qed.

Lemma implements_succ tl l key_ last : implements tl l -> key_ok key_ -> ledgerSucc key_ last tl = Ret (LedgerViews.ledgerSucc key_ last l).
Proof.
  intros Him Hk. pose proof (upper_bound_ok T (stateTree tl) key_ (i_root _ _ Him) Hk) as Hp. rewrite (implements_items tl l Him), behind_items in Hp by (by eapply order_keys).
  unfold ledgerSucc, LedgerViews.ledgerSucc. destruct (LedgerViews.upper_bound key_ (inOrder (stateMap_ l))) as [|[k sle] r] eqn:E.
  - cbn [fmap list_fmap positioned] in Hp. by rewrite Hp, Ret_bind.
  - rewrite fmap_cons in Hp. cbn [positioned snd] in Hp. destruct Hp as (nid & stack & d & -> & _). rewrite Ret_bind. cbn [make_item tag_].
    assert (Hks : key sle = k); [|by rewrite Hks]. apply (order_keys tl l Him (k, sle)). assert (Hin : (k, sle) ∈ LedgerViews.upper_bound key_ (inOrder (stateMap_ l))) by (rewrite E; by left).
    unfold LedgerViews.upper_bound in Hin. rewrite list_elem_of_In in Hin. apply filter_In in Hin as [Hin _]. by rewrite list_elem_of_In.
Qed.

Lemma decode_items (m : list (Z * SLE)) : (forall x, x ∈ m -> entryOk x.2) ->
  foldr (fun item r => decode (slice item) (tag_ item) ≫= fun sle => r ≫= fun l => Ret (sle :: l)) (Ret []) ((fun x => make_item encode x.2) <$> m) = Ret m.*2.
Proof.
  induction m as [|x m IH]; intros Hok; [done|]. rewrite fmap_cons. cbn [foldr make_item slice tag_]. destruct (Hok x ltac:(by left)) as [_ ->].
  rewrite Ret_bind. change (mkItem (key ?y.2) (encode ?y.2)) with (make_item encode y.2). rewrite IH, Ret_bind; [done|]. intros y Hy. apply Hok. by right.
Qed.

Lemma implements_sles tl l (from : option Z) : implements tl l -> match from with Some k => key_ok k | None => True end ->
  ledgerSles decode (size (stateMap_ l)) from tl = Ret (LedgerViews.ledgerSles from l).
Proof.
  intros Him Hk. pose proof Him as [Hr Hi He]. unfold ledgerSles, LedgerViews.ledgerSles.
  set (sel := match from with Some k => LedgerViews.upper_bound k (inOrder (stateMap_ l)) | None => inOrder (stateMap_ l) end).
  assert (Hsub : forall x, x ∈ sel -> x ∈ inOrder (stateMap_ l)).
  { intros x. unfold sel. destruct from as [k|]; [|done]. unfold LedgerViews.upper_bound. rewrite list_elem_of_In, filter_In, <- list_elem_of_In. by intros [? _]. }
  assert (Hp : positioned T ((fun x => make_item encode x.2) <$> sel) (match from with Some k => SHAMap.upper_bound k (stateTree tl) | None => peekFirstItem (stateTree tl) end)).
  { unfold sel. destruct from as [k|].
    - rewrite <- behind_items by (by eapply order_keys). rewrite <- (implements_items tl l Him). by apply upper_bound_ok.
    - rewrite <- (implements_items tl l Him). by apply peekFirst_ok. }
  destruct (positioned_ret _ _ _ Hp) as (leaf & stack & E). rewrite E in Hp |- *. rewrite Ret_bind.
  rewrite (iterate_ok T _ _ _ _ _ eq_refl Hp), Ret_bind.
  - apply decode_items. intros [k sle] Hx. apply Hsub, elem_of_inOrder in Hx. by apply (He k sle).
  - rewrite length_fmap. transitivity (length (inOrder (stateMap_ l))).
    + unfold sel. destruct from as [k|]; [|done]. apply List.filter_length_le.
    + unfold inOrder. rewrite merge_sort_Permutation. by rewrite length_map_to_list.
Qed.

(** ** Changes *)

Inductive stateChange := RawErase (sle : SLE) | RawInsert (sle : SLE) | RawReplace (sle : SLE).

Definition treeChange (c : stateChange) (tl : TreeLedger) : outcome TreeLedger :=
  match c with
  | RawErase sle => ledgerRawErase sle tl
  | RawInsert sle => ledgerRawInsert encode sle tl
  | RawReplace sle => ledgerRawReplace sha encode sle tl
  end.

Definition mapChange (c : stateChange) (l : Ledger D) : outcome (Ledger D) :=
  match c with
  | RawErase sle => LedgerViews.ledgerRawErase sle l
  | RawInsert sle => LedgerViews.ledgerRawInsert sle l
  | RawReplace sle => LedgerViews.ledgerRawReplace sle l
  end.

Definition changed (c : stateChange) : SLE := match c with RawErase sle | RawInsert sle | RawReplace sle => sle end.

(** The items that occur have different hashes. *)
Definition items_ok (items : list SLE) : Prop := noCollisions sha (leafBytes T <$> (make_item encode <$> items)).

Lemma implements_in tl l (items : list SLE) it : implements tl l -> (forall k sle, stateMap_ l !! k = Some sle -> sle ∈ items) ->
  it ∈ flatten (stateTree tl) -> it ∈ make_item encode <$> items.
Proof using.
  intros Him Hin. rewrite (implements_items tl l Him). intros ([k sle] & -> & Hx)%list_elem_of_fmap. apply elem_of_inOrder in Hx. apply list_elem_of_fmap_2. by eapply Hin.
Qed.

(** An operation on the tree and what it does to the map. *)
Lemma implements_op tl l (items : list SLE) op : implements tl l -> (forall k sle, stateMap_ l !! k = Some sle -> sle ∈ items) -> items_ok items ->
  match opItem op with Some it => key_ok (tag_ it) /\ it ∈ make_item encode <$> items | None => True end ->
  exists t', runOp T sha op (stateTree tl) = Ret ((mapOp op (make_item encode <$> stateMap_ l)).1, t') /\ root_ok T t' /\
    contents t' = (mapOp op (make_item encode <$> stateMap_ l)).2.
Proof using.
  intros Him Hin Hnc Hop. destruct (runOp_ok T sha op (stateTree tl) (make_item encode <$> items)) as (t' & E & Hr & Hc & _);
    [apply Him|done|intros it; by eapply implements_in|done|]. rewrite (i_items _ _ Him) in E, Hc. by exists t'.
Qed.

Lemma implements_change tl l (items : list SLE) c : implements tl l -> (forall k sle, stateMap_ l !! k = Some sle -> sle ∈ items) -> items_ok items ->
  entryOk (changed c) -> changed c ∈ items ->
  match mapChange c l with
  | Ret l' => exists tl', treeChange c tl = Ret tl' /\ implements tl' l' /\ forall k sle, stateMap_ l' !! k = Some sle -> sle ∈ items
  | Throw e => treeChange c tl = Throw e
  end.
Proof using.
  intros Him Hin Hnc Hok Hc. pose proof Him as [Hr Hi He].
  assert (Hput : forall m : gmap Z SLE, (forall k sle, m !! k = Some sle -> (key sle = k /\ entryOk sle) /\ sle ∈ items) ->
    forall k sle, <[key (changed c) := changed c]> m !! k = Some sle -> (key sle = k /\ entryOk sle) /\ sle ∈ items).
  { intros m Hm k sle [[<- <-]|[_ Hk]]%lookup_insert_Some; [done|by apply Hm]. }
  assert (Hold : forall k sle, stateMap_ l !! k = Some sle -> (key sle = k /\ entryOk sle) /\ sle ∈ items) by (intros k sle Hk; split; [by apply He|by eapply Hin]).
  assert (Hitem : key_ok (tag_ (make_item encode (changed c))) /\ make_item encode (changed c) ∈ make_item encode <$> items)
    by (split; [apply Hok|by apply list_elem_of_fmap_2]).
  destruct c as [sle|sle|sle]; cbn [changed mapChange treeChange] in *.
  - destruct (implements_op tl l items (DelItem (key sle)) Him Hin Hnc I) as (t' & E & Hr' & Hc'). cbn [runOp mapOp] in E, Hc'.
    unfold ledgerRawErase, LedgerViews.ledgerRawErase. rewrite E, Ret_bind. rewrite lookup_fmap in Hc' |- *.
    destruct (stateMap_ l !! key sle) eqn:Ek; cbn in Hc' |- *; [|done].
    eexists. split; [done|]. split; [split; cbn; [done|by rewrite fmap_delete|]|]; intros k x [_ Hk]%lookup_delete_Some; by destruct (Hold k x Hk).
  - destruct (implements_op tl l items (AddItem (make_item encode sle)) Him Hin Hnc Hitem) as (t' & E & Hr' & Hc'). cbn [runOp mapOp] in E, Hc'.
    unfold ledgerRawInsert, LedgerViews.ledgerRawInsert. rewrite E, Ret_bind. cbn [make_item tag_] in Hc' |- *. rewrite lookup_fmap in Hc' |- *.
    destruct (stateMap_ l !! key sle) eqn:Ek; cbn in Hc' |- *; [done|].
    eexists. split; [done|]. split; [split; cbn; [done|by rewrite fmap_insert|]|]; intros k x Hk; by destruct (Hput _ Hold k x Hk).
  - destruct (implements_op tl l items (UpdateItem (make_item encode sle)) Him Hin Hnc Hitem) as (t' & E & Hr' & Hc'). cbn [runOp mapOp] in E, Hc'.
    unfold ledgerRawReplace, LedgerViews.ledgerRawReplace. rewrite E, Ret_bind. cbn [make_item tag_] in Hc' |- *. rewrite lookup_fmap in Hc' |- *.
    destruct (stateMap_ l !! key sle) eqn:Ek; cbn in Hc' |- *; [|done].
    eexists. split; [done|]. split; [split; cbn; [done|by rewrite fmap_insert|]|]; intros k x Hk; by destruct (Hput _ Hold k x Hk).
Qed.

Definition treeChanges (cs : list stateChange) (tl : TreeLedger) : outcome TreeLedger := foldl (fun r c => r ≫= treeChange c) (Ret tl) cs.
Definition mapChanges (cs : list stateChange) (l : Ledger D) : outcome (Ledger D) := foldl (fun r c => r ≫= mapChange c) (Ret l) cs.

Lemma throw_stays {X} (f : stateChange -> X -> outcome X) cs e : foldl (fun r c => r ≫= f c) (Throw e) cs = Throw e.
Proof using. by induction cs. Qed.

Lemma implements_changes (items : list SLE) cs tl l : implements tl l -> (forall k sle, stateMap_ l !! k = Some sle -> sle ∈ items) -> items_ok items ->
  Forall (fun c => entryOk (changed c) /\ changed c ∈ items) cs ->
  match mapChanges cs l with
  | Ret l' => exists tl', treeChanges cs tl = Ret tl' /\ implements tl' l'
  | Throw e => treeChanges cs tl = Throw e
  end.
Proof using.
  unfold treeChanges, mapChanges. intros Him Hin Hnc Hcs. revert tl l Him Hin. induction Hcs as [|c cs [Hok Hc] _ IH]; intros tl l Him Hin; cbn [foldl].
  { by exists tl. }
  pose proof (implements_change tl l items c Him Hin Hnc Hok Hc) as Hone. rewrite !Ret_bind. destruct (mapChange c l) as [e|l'].
  - rewrite Hone, !throw_stays. done.
  - destruct Hone as (tl' & -> & Him' & Hin'). by apply IH.
Qed.

End Refinement.
Arguments RawErase {D}.
Arguments RawInsert {D}.
Arguments RawReplace {D}.

(** ** Properties *)

(** The trees of ledgers implement the finite map that the views are built on.
    For a tree that holds the entries of a map and any changes of entries that
    are read back from their bytes, with no two leaves of the same hash, the
    functions of the ledger throw on the tree what they throw on the map, and
    otherwise afterwards answer the same: [exists], [read], [succ] and the
    iteration over the entries. *)
Theorem tree_ledger_refines {D} (sha : Blob -> Blob) (encode : SLE D -> Blob) (decode : Blob -> Z -> outcome (SLE D))
    (items : list (SLE D)) (cs : list (stateChange (D := D))) (tl : TreeLedger) (l : Ledger D)
    (Htree : implements encode decode tl l) (Hin : forall k sle, stateMap_ l !! k = Some sle -> sle ∈ items) (Hnc : items_ok sha encode items)
    (Hcs : Forall (fun c => entryOk encode decode (changed c) /\ changed c ∈ items) cs) :
  match mapChanges cs l with
  | Throw e => treeChanges sha encode cs tl = Throw e
  | Ret l' => exists tl', treeChanges sha encode cs tl = Ret tl' /\
      (forall k, ledgerExists k tl' = Ret (LedgerViews.ledgerExists k l')) /\
      (forall k, ledgerRead decode k tl' = Ret (LedgerViews.ledgerRead k l')) /\
      (forall key_ last, key_ok key_ -> ledgerSucc key_ last tl' = Ret (LedgerViews.ledgerSucc key_ last l')) /\
      (forall from, match from with Some k => key_ok k | None => True end ->
         ledgerSles decode (size (stateMap_ l')) from tl' = Ret (LedgerViews.ledgerSles from l'))
  end.
Proof.
  pose proof (implements_changes sha encode decode items cs tl l Htree Hin Hnc Hcs) as H. destruct (mapChanges cs l) as [e|l']; [done|].
  destruct H as (tl' & E & Him). exists tl'. split_and!; [done|..]; intros; [by eapply implements_exists|by eapply implements_read|by eapply implements_succ|by eapply implements_sles].
Qed.

(** A header is read back from its bytes, with or without the hash. *)
Theorem header_roundtrip h (includeHash : bool) (Hh : header_ok h) :
  exists h', deserializeHeader (addRaw h includeHash []) includeHash = Ret h' /\
    headerBytes h' = headerBytes h /\ (includeHash = true -> h' = h).
Proof. rewrite (header_reads h includeHash Hh). eexists. split; [done|]. split; [done|]. intros ->. by destruct h. Qed.

Lemma headerBytes_inj h1 h2 : header_ok h1 -> header_ok h2 -> headerBytes h1 = headerBytes h2 ->
  seq h1 = seq h2 /\ drops h1 = drops h2 /\ parentHash h1 = parentHash h2 /\ txHash h1 = txHash h2 /\ accountHash h1 = accountHash h2 /\
  parentCloseTime h1 = parentCloseTime h2 /\ closeTime h1 = closeTime h2 /\ closeTimeResolution h1 = closeTimeResolution h2 /\ closeFlags h1 = closeFlags h2.
Proof.
  intros H1 H2 E. pose proof (header_reads h1 false H1) as R1. pose proof (header_reads h2 false H2) as R2.
  rewrite addRaw_bytes in R1, R2. rewrite E, R2 in R1. by injection R1 as -> -> -> -> -> -> -> -> ->.
Qed.

(** The hash of a closed ledger binds it: two ledgers that [setImmutable] closes
    with the same hash have the same header and hold the same entries and the same
    transactions.  The hash function gives 32 bytes, never all zero, and has no
    collisions among the strings hashed for the two ledgers. *)
Theorem ledger_hash_binds (sha : Blob -> Blob) (l1 l2 : TreeLedger) :
  mImmutable l1 = false -> mImmutable l2 = false ->
  (forall x, length (sha x) = 32%nat) -> (forall x, sha x <> zeroHash) ->
  header_ok (info_ (setImmutable sha true l1)) -> header_ok (info_ (setImmutable sha true l2)) ->
  root_ok tnACCOUNT_STATE (stateTree l1) -> root_ok tnACCOUNT_STATE (stateTree l2) ->
  root_ok tnTRANSACTION_MD (txTree l1) -> root_ok tnTRANSACTION_MD (txTree l2) ->
  noCollisions sha ([ledgerBytes (info_ (setImmutable sha true l1)); ledgerBytes (info_ (setImmutable sha true l2))] ++
    (preimages sha (stateTree l1) ++ preimages sha (stateTree l2)) ++ (preimages sha (txTree l1) ++ preimages sha (txTree l2))) ->
  hash (info_ (setImmutable sha true l1)) = hash (info_ (setImmutable sha true l2)) ->
  setImmutable sha true l1 = setImmutable sha true l2.
Proof.
  destruct l1 as [i1 s1 t1 m1], l2 as [i2 s2 t2 m2]. cbn [mImmutable]. intros -> -> Hlen Hzero Ho1 Ho2 S1 S2 T1 T2 Hnc E. cbn [stateTree txTree] in *.
  apply Hnc in E as Eb; [|by left|right; by left].
  apply app_inv_head in Eb. destruct (headerBytes_inj _ _ Ho1 Ho2 Eb) as (E1 & E2 & E3 & E4 & E5 & E6 & E7 & E8 & E9). cbn in E1, E2, E3, E4, E5, E6, E7, E8, E9.
  assert (Hst : s1 = s2).
  { apply (root_hash_unique tnACCOUNT_STATE sha Hlen Hzero); [done|done| |done]. split; [|done]. intros x y Hx Hy. apply Hnc; rewrite !elem_of_app in *; tauto. }
  assert (Htx : t1 = t2).
  { apply (root_hash_unique tnTRANSACTION_MD sha Hlen Hzero); [done|done| |done]. split; [|done]. intros x y Hx Hy. apply Hnc; rewrite !elem_of_app in *; tauto. }
  unfold setImmutable, calculateLedgerHash. cbn. rewrite E1, E2, E3, E6, E7, E8, E9, Hst, Htx. done.
Qed.

(** ** A sample ledger *)

Module SampleLedger.
Import SampleTree.

(** Entries of a type and a number, in two bytes. *)
Definition encodeSample (sle : SLE Z) : Blob := [getType sle; data sle].
Definition decodeSample (bs : Blob) (k : Z) : outcome (SLE Z) := match bs with [t; d] => Ret (mkEntry k t d) | _ => Throw "bad entry" end.

Definition entries : list (SLE Z) := [mkEntry key1 97 1; mkEntry key2 111 2; mkEntry key3 97 3; mkEntry key1 97 7].
Definition changes : list (stateChange (D := Z)) := [RawInsert (mkEntry key1 97 1); RawInsert (mkEntry key2 111 2); RawReplace (mkEntry key1 97 7); RawErase (mkEntry key2 111 2); RawInsert (mkEntry key3 97 3)].

Definition emptyHeader : LedgerHeader := mkHeader 1 100 zeroHash zeroHash zeroHash 0 30 30 0 zeroHash.
Definition emptyTree : TreeLedger := mkTreeLedger emptyHeader newInner newInner false.
Definition closed : TreeLedger := match treeChanges sampleSha encodeSample changes emptyTree with Ret tl => setImmutable sampleSha true tl | Throw _ => emptyTree end.

End SampleLedger.
Import SampleLedger SampleTree.

Lemma tree_ledger_refines_witness : exists tl', treeChanges sampleSha encodeSample changes emptyTree = Ret tl' /\
  ledgerSles decodeSample 2 None tl' = Ret [mkEntry key1 97 7; mkEntry key3 97 3] /\ ledgerRead decodeSample (mkKeylet 111 key2) tl' = Ret None.
Proof.
  pose proof (tree_ledger_refines sampleSha encodeSample decodeSample entries changes emptyTree (mkLedger ∅ 100)) as H.
  assert (El : mapChanges changes (mkLedger ∅ 100) = Ret (mkLedger (list_to_map [(key1, mkEntry key1 97 7); (key3, mkEntry key3 97 3)]) 100)) by (vm_compute; reflexivity).
  rewrite El in H. destruct H as (tl' & E & _ & Hread & _ & Hsles).
  - split; [apply newInner_ok|reflexivity|]. intros k sle Hk. cbn in Hk. by rewrite lookup_empty in Hk.
  - intros k sle Hk. cbn in Hk. by rewrite lookup_empty in Hk.
  - apply collisionFree_ok. vm_compute. reflexivity.
  - repeat (constructor; [split; [split; [split; vm_compute; [discriminate|reflexivity]|reflexivity]|repeat (apply list_elem_of_here || apply list_elem_of_further)]|]). constructor.
  - exists tl'. split; [exact E|]. split.
    + etransitivity; [exact (Hsles None I)|]. vm_compute. reflexivity.
    + etransitivity; [exact (Hread (mkKeylet 111 key2))|]. vm_compute. reflexivity.
Defined.
